(* ===== verification/_CoqProject ===== *)
-Q . S2P
Prelude.v
GoBig.v
Int.v
SdkDec.v
Decimal.v
DecimalFacts.v
DecimalText.v
DecimalProps.v
Sqrt.v
CLMath.v
CLMathProps.v
DecimalPow.v
DecimalPowProps.v
CLTick.v
CLTickProps.v
CLSwapStrategy.v
CLSwapStrategyProps.v
CLKeys.v
KV.v
GoTime.v
SigFig.v
GoState.v
ZSums.v
SdkCoins.v
SumTree.v
SumTreeProps.v
SumTreeRefine.v
Accum.v
AccumProps.v
CLPool.v
CLStore.v
CLRewards.v
CLTickStore.v
CLClaims.v
CLPosition.v
CLLp.v
CLSwaps.v
CLPools.v
CLView.v
CLInv.v
CLLpProps.v
CLIter.v
CLSwapsInv.v
CLSwapsProps.v
CLDemo.v
CLReach.v
CLLedger.v
CLSwapsTerm.v
Cron.v
Epochs.v
FeeRefunder.v
Icq.v
Twap.v
TwapProps.v
TwapReach.v
Eip1559.v
ArbFilter.v
TxFees.v
TxFeesProps.v
BinarySearch.v
StableMath.v
Stableswap.v
StableswapProps.v
PoolManager.v
PoolManagerProps.v
PoolRouter.v
PoolEstimate.v
Gamm.v
GammModule.v
GammProps.v
GammInv.v
StableLaws.v
GammReach.v
GammDemo.v
JSBase.v
JSBase64.v
JSBase64Props.v
JSUtf8.v
JSUtf8Props.v
JSSwagger.v
