(* ===== verification/Prelude.v ===== *)
(** * A verification development for maanydex

    maanydex is a Cosmos SDK chain, written in Go, that combines an exchange with concentrated
    liquidity (after Osmosis) with the contract infrastructure of Neutron; its documentation ships a
    bundled Swagger UI in JavaScript.  This development models the exchange from the decimals up to
    its message handlers, and the pieces of the bundled JavaScript named below.

    ** Parts and files

    Every file is read from the Go (or JavaScript) source named with it; names are kept where Rocq
    allows it, and a Go package or type is a Module.

    - The language.  [Prelude]: the outcome of a Go call, [Ok], [Err] (a returned error) or [Panic],
      with its monad.  [GoBig]: math/big.  [GoState]: computations on a store, frames ([keeps]) and the
      tactics [run], [inv_st], [keeps_tac].  [ZSums]: sums over lists and maps.
    - The Cosmos SDK, which is not in the repository.  [SdkDec]: the class [sdk.LegacyDec] of the
      operations of cosmossdk.io/math that the code calls and the class [sdk.LegacyDecLaws] of what they
      are documented to do.  [SdkCoins]: the same for coins, and addresses.  Each has a concrete
      instance ([sdk.ref_dec], [coin.ref_coins]) that satisfies the laws; the witnesses use them.
    - osmomath.  [Int] (int.go), [Decimal] (decimal.go: 36-digit decimals), [DecimalText] (printing,
      parsing, binary form), [DecimalPow] (powers and logarithms; exp2.go), [Sqrt] (sqrt.go), [SigFig]
      (sigfig_round.go), [BinarySearch] (binary_search.go, rounding_direction.go).
    - osmoutils.  [Accum] (accum: reward accumulators), [KV] and [GoTime] (store_helper.go,
      encoding_helper.go: iteration over ordered keys, numbers and times in keys), [SumTree] (sumtree: a
      B+ tree of sums, in which x/lockup counts what is locked for how long).
    - x/concentrated-liquidity.  [CLMath] (math/math.go: amounts and prices), [CLTick] (math/tick.go:
      ticks and prices), [CLSwapStrategy] (swapstrategy: one step of a swap), [CLKeys] (types/keys.go),
      [CLPool] (model/pool.go: the pool object), [CLStore] (the state of the module; the other modules
      it calls are the classes [Env], [Block] and [Hooks]), [CLRewards] and [CLClaims] (incentives.go,
      spread_rewards.go), [CLTickStore] (tick.go and the iterators), [CLPosition] (position.go), [CLLp]
      (lp.go), [CLSwaps] (swaps.go), [CLPools] (pool.go, msg_server.go).
    - Smaller modules.  [Cron] (x/cron: schedules of contract calls), [Epochs] (x/epochs: the epoch clock
      and its hooks), [FeeRefunder] (x/feerefunder: relayer fees of packets in flight), [Icq] (x/interchainqueries:
      registered queries, results with their proofs, calls of contracts).  Each has its own store and its
      own class for the rest of the chain.
    - x/twap.  [Twap]: records of prices, their interpolation, averages, pruning, hooks and genesis.
    - x/gamm.  [StableMath] (pool-models/stableswap/amm.go: the curve and its search), [Stableswap]
      (the rest of the stableswap pools, with pool-models/internal/cfmm_common), [Gamm] (keeper: pools,
      joins, exits, swaps, shares, the registered invariant, over the class [CFMMPoolI] of pools and the
      class [Bank]) and [GammModule] (the keeper as a module of the pool manager, the message handlers,
      and stableswap pools as an instance of the class).
    - x/poolmanager.  [PoolManager] (taker fees, pool creation and ids, volume), [PoolRouter] (swaps and
      estimates along routes), [PoolEstimate] (the trade that a limit on the price impact allows).  The
      modules that hold pools are records [PoolModuleI] of operations, as in types/expected_keepers.go.
    - x/txfees.  [Eip1559] (keeper/mempool-1559, module.go: the base fee a node keeps in memory),
      [ArbFilter] (keeper/txfee_filters: which transactions look like arbitrage), [TxFees] (fee tokens
      and the two ante handlers, which use both).
    - docs/static.  [JSBase] (strings, 32-bit integers, regular expressions), [JSBase64] (base64-js and
      the URL-safe form), [JSUtf8] (buffer's UTF-8), [JSSwagger] (the validation of parameters).  Each
      bundle is a single minified line of several hundred kilobytes; only the functions named in these
      files are translated from it.

    Calls follow the code: a handler of [CLPools] calls [CLLp] or [CLSwaps], which call positions,
    ticks and rewards, which read and write the record [CLStore.store], one field per key prefix of the
    key-value store.  Contracts and listeners are arguments: any state change may be plugged in, and
    the theorems about histories ask only that they leave pools, ticks and positions alone
    ([CLView.QuietHooks]).  A swap message of [PoolRouter] finds the module of each pool of its route and
    calls that module's record; [GammModule.gammModule] is the record of x/gamm.  What the router relies on
    is the contract [PoolRouterProps.Lawful], which [GammProps.gamm_lawful] proves for x/gamm.

    ** What is shown

    - [DecimalFacts], [DecimalProps], [DecimalText], [DecimalPowProps], [Sqrt]: each rounding routine
      against exact rational arithmetic, error bounds, text round trip, exact integer powers, the range
      of the logarithm's remainder, and square roots as the least upper root at their precision.
    - [CLMathProps], [CLTickProps], [CLSwapStrategyProps]: amounts and prices are rounded in the pool's
      favour; the tick table in closed form, its monotonicity, its inverse and the bucket of a price;
      one step of a swap never costs the pool, moves the price the right way and charges the spread
      factor.
    - [AccumProps]: over every history of a store of accumulators, the total of shares against the shares of the
      positions, with what is lost when a position is overwritten; each operation's effect on what positions are owed.
    - [CLKeys]: the order of tick keys is the order of ticks.
    - Histories.  [CLView] cuts the store down to what liquidity depends on; [CLInv] states the
      liquidity invariant on it; [CLLpProps], [CLIter], [CLSwapsInv], [CLSwapsProps] show that every
      operation keeps it; [CLReach] collects the entry points in a step relation and states it for
      every reachable state.  The proposal that decreases tick spacings is guarded there: it needs a tick that agrees
      with the price on the new grid, and [spacing_breaks_books] is a run without.  [CLLedger] is an abstract specification, a ledger of holdings, which
      every step refines; custody of positions follows.  [CLSwapsTerm] shows that the loop of a swap
      ends.  [CLDemo] is a concrete history that the witnesses run.
    - [SumTreeProps], [SumTreeRefine]: the levels of a sum tree as sums of the level below, kept by updates and
      splits; a tree refines the list of what was added to it: every query is answered with the sum of
      what was added to a range of keys.
    - [Cron], [Epochs], [FeeRefunder] (their second modules): schedules run every period + 1 blocks while the
      limit has room, and the log of what was run is exactly that; the epoch clock keeps up with the blocks; recorded fees are in the account.
    - [Icq] (its second module): deposits are in the account over every history, in which contracts that are
      called may call the module again; queries keep their identity and the heights of their results grow; stored
      results are proved; the cleanup of removed queries ends, or panics under a limit whose room cannot be
      allocated.
    - [TwapProps], [TwapReach]: over every history of blocks, an arithmetic average lies between the least
      and the greatest price of its window, and pruning does not change what later queries answer.
    - [StableMath], [StableswapProps]: the search of the curve rounds for the pool, and a swap does not
      lower the pool's invariant but for the rounding of 36-digit arithmetic.
    - [PoolManagerProps], [PoolRouter], [PoolEstimate]: the least taker fee that covers its share, fresh pool
      ids, swaps against their estimates for any lawful pool modules, what limits the cost of a swap, and
      how the search under a price limit ends.
    - [GammProps], [GammInv], [GammReach]: what each operation of the keeper does to the balances of pools and
      users; over every history of messages, pool creations, swaps and exits that other modules ask for and other
      transfers, the account of a stableswap pool
      holds what the pool counts and its shares are those in circulation.  [StableLaws]: stableswap
      pools keep the books this asks of a pool ([CFMMBooks]; balancer pools do not, when a swap empties a
      reserve), and joins and exits do not lower the value of a share.
      [GammDemo] is a chain with two pools, a bank and taker fees that the witnesses run.
    - [Eip1559] (its second module), [TxFeesProps]: the base fee against its recurrence and how it recovers; a transaction
      that is let through pays at least the consensus price for its gas; the stored fee tokens; what
      the arbitrage filter does on swaps, plain and wrapped.
    - [JSBase64Props], [JSUtf8Props], [JSSwagger]: round trips of the encodings, their behaviour on
      lone surrogates and under a size limit, and which texts the form accepts.

    Where the code does not do what a comment, a document or its name says, the theorem states what it
    does ([exact_fit_step_overcharges], [position_ids_hex_mismatch], [twap_within_a_millisecond],
    [wrapped_swaps_not_filtered], [merged_sum_lost], [processed_twice], [spacing_breaks_books] among others).

    ** Fuel

    Go's loops without a bound of their own run on fuel.  The swap loop ([CLSwaps.swapLoop]) is given
    its fuel by the caller; [CLSwapsTerm.swap_terminates] bounds the iterations by the amount swapped in
    plus 102 (for a given output, its amount in units of 10^-18 plus 102), and shows that fuel beyond
    the iterations needed does not change the result.  Square roots use [Z.sqrt] for math/big's [Sqrt].
    [DecimalPow] explains its 64 and 120 rounds, [SigFig] its 400.  The binary searches have a bound of
    their own in the code (256 and 300 iterations), which is their fuel.  The search of [PoolEstimate] halves
    a range of amounts: one unit of fuel for each bit of the first amount is enough ([estimate_ends]).
    A change of a sum tree climbs to the root, whose level is its fuel ([SumTree.climb]); that it is enough
    is part of [tree_adds_up].  The loops of the JavaScript functions consume their input, and their fuel
    is its length (three for the padding of base 64).

    ** What is not modelled

    Events, telemetry, logs, gas and paginated queries; protobuf decoding of stored values, which
    cannot fail on what the module wrote; nil big integers.  Of the concentrated liquidity module:
    genesis, which copies the store record by record, simulation.  Of x/txfees: the
    epoch hooks that swap the collected fees and the parsing of node options.  Of x/poolmanager: taker
    fee share agreements, which the router no longer calls, trackers, caches and genesis.  Of x/gamm:
    migration records, genesis, and balancer pools, whose formulas go through a truncated series for
    fractional powers (osmomath/math.go) that documents no error bound to hold it to; the keeper is
    modelled over the interface they implement.
    Of the chain: cosmwasmpool, lockup, incentives, pool-incentives, superfluid, valset-pref and mint, on
    which nothing above depends; Neutron's interchain transactions, contract manager (but for the calls that
    [Icq] makes) and middleware, which pass messages between contracts and ibc-go; and the wiring of the application.
    Of the JavaScript bundles: React, Redux, the OpenAPI resolver and the other bundled libraries, and the
    rest of the user interface, which is third-party code in minified form. *)
From stdpp Require Import prelude strings list.

(** ** Outcomes of Go calls

    A Go function returns normally, returns a non-nil [error], or panics.  The three cases are
    kept apart: an error is handled by the caller, a panic unwinds the transaction. *)
Inductive outcome (A : Type) : Type :=
| Ok (a : A)
| Err (e : string)
| Panic (p : string).
Arguments Ok {A} a.
Arguments Err {A} e.
Arguments Panic {A} p.

#[export] Instance outcome_ret : MRet outcome := fun A a => Ok a.
#[export] Instance outcome_bind : MBind outcome := fun A B f m =>
  match m with Ok a => f a | Err e => Err e | Panic p => Panic p end.
#[export] Instance outcome_map : FMap outcome := fun A B f m =>
  match m with Ok a => Ok (f a) | Err e => Err e | Panic p => Panic p end.

#[export] Instance outcome_eq_dec {A} `{EqDecision A} : EqDecision (outcome A).
Proof. solve_decision. Defined.

(** [guard_panic b p] is Go's [if !b { panic(p) }], [guard_err b e] is [if !b { return e }]. *)
Definition guard_panic (b : bool) (p : string) : outcome unit := if b then Ok tt else Panic p.
Definition guard_err (b : bool) (e : string) : outcome unit := if b then Ok tt else Err e.

Definition is_ok {A} (m : outcome A) : bool := match m with Ok _ => true | _ => false end.
Definition is_err {A} (m : outcome A) : bool := match m with Err _ => true | _ => false end.
Definition is_panic {A} (m : outcome A) : bool := match m with Panic _ => true | _ => false end.

Lemma bind_Ok {A B} (m : outcome A) (f : A → outcome B) y :
  (m ≫= f) = Ok y ↔ ∃ x, m = Ok x ∧ f x = Ok y.
Proof. split; [destruct m; naive_solver | intros (x & -> & ?); done]. Qed.

(** The rewriting form of one step, which keeps the continuation folded. *)
Lemma bind_of_Ok {A B} (a : A) (f : A → outcome B) : (Ok a ≫= f) = f a.
Proof. done. Qed.

Lemma bind_assoc {A B C} (m : outcome A) (f : A → outcome B) (g : B → outcome C) :
  ((m ≫= f) ≫= g) = (m ≫= (λ x, f x ≫= g)).
Proof. by destruct m. Qed.

Lemma fmap_Ok {A B} (m : outcome A) (f : A → B) y :
  f <$> m = Ok y ↔ ∃ x, m = Ok x ∧ y = f x.
Proof. split; [destruct m; naive_solver | intros (x & -> & ->); done]. Qed.

Lemma guard_panic_Ok b p u : guard_panic b p = Ok u ↔ b = true.
Proof. destruct b, u; naive_solver. Qed.

Lemma guard_err_Ok b e u : guard_err b e = Ok u ↔ b = true.
Proof. destruct b, u; naive_solver. Qed.

(** [inv_ok] takes a hypothesis that a computation returned normally apart, step by step. *)
Ltac inv_ok_step :=
  match goal with
  | H : (_ ≫= _) = Ok _ |- _ => apply bind_Ok in H as (? & ? & ?)
  | H : (_ <$> _) = Ok _ |- _ => apply fmap_Ok in H as (? & ? & ?)
  | H : guard_panic _ _ = Ok _ |- _ => apply guard_panic_Ok in H
  | H : guard_err _ _ = Ok _ |- _ => apply guard_err_Ok in H
  | H : mret _ = Ok _ |- _ => unfold mret, outcome_ret in H
  | H : Ok _ = Ok _ |- _ => injection H as H; try subst
  | H : Err _ = Ok _ |- _ => discriminate H
  | H : Panic _ = Ok _ |- _ => discriminate H
  end.
Ltac inv_ok := repeat (inv_ok_step; cbn beta iota in *).

(** [zconst] decides a comparison of closed integers by computation. *)
Ltac zconst := vm_compute;
  repeat lazymatch goal with |- _ ∧ _ => split end;
  lazymatch goal with
  | |- _ = _ => exact eq_refl
  | |- _ → False => discriminate
  end.

(** ** Decimal scale: generic facts about scaled integer division

    All rounding facts of the decimal library are proved once here, for an arbitrary positive
    divisor, and instantiated at the precision constants by the components. *)
Local Open Scope Z_scope.

Section division.
  Context (p : Z) (Hp : 0 < p).

Lemma quot_pos_div d : 0 ≤ d → Z.quot d p = d / p.
Proof using Hp. intros. apply Z.quot_div_nonneg; lia. Qed.

Lemma rem_pos_mod d : 0 ≤ d → Z.rem d p = d mod p.
Proof using Hp. intros. apply Z.rem_mod_nonneg; lia. Qed.

Lemma div_bounds d : p * (d / p) ≤ d < p * (d / p) + p.
Proof using Hp.
  pose proof (Z.div_mod d p ltac:(lia)). pose proof (Z.mod_pos_bound d p Hp). lia.
Qed.

(** Truncation never moves a value away from zero and moves it by less than one unit. *)
Lemma quot_bounds d :
  (0 ≤ d → 0 ≤ d - p * Z.quot d p < p) ∧ (d ≤ 0 → - p < d - p * Z.quot d p ≤ 0).
Proof using Hp.
  split; intros Hd.
  - rewrite quot_pos_div by lia. pose proof (div_bounds d). lia.
  - replace d with (- - d) by lia. rewrite Z.quot_opp_l by lia.
    rewrite quot_pos_div by lia. pose proof (div_bounds (- d)). lia.
Qed.

Lemma quot_nonneg d : 0 ≤ d → 0 ≤ Z.quot d p.
Proof using Hp. intros. rewrite quot_pos_div by lia. apply Z.div_pos; lia. Qed.

Lemma quot_rem_eq d : d = p * Z.quot d p + Z.rem d p.
Proof using Hp. apply Z.quot_rem; lia. Qed.
End division.

(** The rounded-up quotient of non-negative numbers, as the code computes it: truncate, then add
    one when there is a remainder. *)
Definition ceil_div (d p : Z) : Z := if Z.rem d p =? 0 then Z.quot d p else Z.quot d p + 1.

Lemma ceil_div_bounds d p : 0 ≤ d → 0 < p → d ≤ p * ceil_div d p < d + p.
Proof.
  intros Hd Hp. unfold ceil_div.
  pose proof (quot_rem_eq p Hp d). pose proof (Z.rem_bound_pos d p Hd Hp).
  case_match eqn:E; [apply Z.eqb_eq in E | apply Z.eqb_neq in E]; lia.
Qed.

Lemma ceil_div_nonneg d p : 0 ≤ d → 0 < p → 0 ≤ ceil_div d p.
Proof. intros Hd Hp. pose proof (ceil_div_bounds d p Hd Hp). nia. Qed.
