(* ===== verification/GoBig.v ===== *)
(** [math/big]: the part of Go's standard library integers the repository's decimals use.

    A [*big.Int] is an unbounded integer, so its value is a [Z].  Division by zero panics. *)
From stdpp Require Import prelude strings list.
From S2P Require Import Prelude.
Local Open Scope Z_scope.

Module big.
(** [BitLen]: length of the absolute value in bits; the bit length of 0 is 0. *)
Definition BitLen (x : Z) : Z := if x =? 0 then 0 else Z.log2 (Z.abs x) + 1.

(** [Quo] and [Rem] implement truncated division, [Mod] the Euclidean modulus. *)
Definition Quo (x y : Z) : outcome Z :=
  if y =? 0 then Panic "division by zero" else Ok (Z.quot x y).
Definition QuoRem (x y : Z) : outcome (Z * Z) :=
  if y =? 0 then Panic "division by zero" else Ok (Z.quot x y, Z.rem x y).
Definition Mod (x y : Z) : outcome Z :=
  if y =? 0 then Panic "division by zero" else Ok (x mod Z.abs y).

Definition Sign (x : Z) : Z := Z.sgn x.
Definition Cmp (x y : Z) : Z := if x <? y then -1 else if x =? y then 0 else 1.
Definition Lsh (x n : Z) : Z := Z.shiftl x n.
Definition Rsh (x n : Z) : Z := Z.shiftr x n.
Definition Sqrt (x : Z) : outcome Z :=
  if x <? 0 then Panic "square root of negative number" else Ok (Z.sqrt x).

(** Machine ranges the code tests with [IsInt64] and [IsUint64]. *)
Definition IsInt64 (x : Z) : bool := (- 2 ^ 63 <=? x) && (x <? 2 ^ 63).
Definition IsUint64 (x : Z) : bool := (0 <=? x) && (x <? 2 ^ 64).

Lemma BitLen_nonneg x : 0 ≤ BitLen x.
Proof. unfold BitLen. case_match; [lia|]. pose proof (Z.log2_nonneg (Z.abs x)). lia. Qed.

(** A bit length bound is a bound on the magnitude. *)
Lemma BitLen_le x n : 0 ≤ n → BitLen x ≤ n ↔ Z.abs x < 2 ^ n.
Proof.
  intros Hn. unfold BitLen. case_match eqn:E.
  - apply Z.eqb_eq in E as ->. pose proof (Z.pow_pos_nonneg 2 n). lia.
  - apply Z.eqb_neq in E. rewrite Z.log2_lt_pow2 by lia. lia.
Qed.

Lemma BitLen_mono x y : Z.abs x ≤ Z.abs y → BitLen x ≤ BitLen y.
Proof.
  intros H. apply BitLen_le; [apply BitLen_nonneg|].
  apply Z.le_lt_trans with (Z.abs y); [done|]. apply BitLen_le; [apply BitLen_nonneg|lia].
Qed.

Lemma BitLen_opp x : BitLen (- x) = BitLen x.
Proof.
  unfold BitLen. rewrite Z.abs_opp.
  destruct (Z.eqb_spec x 0), (Z.eqb_spec (- x) 0); lia.
Qed.

Lemma BitLen_mul x y : BitLen (x * y) ≤ BitLen x + BitLen y.
Proof.
  pose proof (BitLen_nonneg x). pose proof (BitLen_nonneg y).
  apply BitLen_le; [lia|]. rewrite Z.abs_mul, Z.pow_add_r by lia.
  assert (Z.abs x < 2 ^ BitLen x) by (apply BitLen_le; lia).
  assert (Z.abs y < 2 ^ BitLen y) by (apply BitLen_le; lia). nia.
Qed.

Lemma Quo_Ok x y r : Quo x y = Ok r ↔ y ≠ 0 ∧ r = Z.quot x y.
Proof. unfold Quo. destruct (Z.eqb_spec y 0); split; [done|tauto|intros [=]; auto|intros [_ ->]; done]. Qed.

Lemma QuoRem_Ok x y r : QuoRem x y = Ok r ↔ y ≠ 0 ∧ r = (Z.quot x y, Z.rem x y).
Proof. unfold QuoRem. destruct (Z.eqb_spec y 0); split; [done|tauto|intros [=]; auto|intros [_ ->]; done]. Qed.

Lemma Mod_Ok x y r : Mod x y = Ok r ↔ y ≠ 0 ∧ r = x mod Z.abs y.
Proof. unfold Mod. destruct (Z.eqb_spec y 0); split; [done|tauto|intros [=]; auto|intros [_ ->]; done]. Qed.
End big.
