(* ===== verification/Int.v ===== *)
(** Bounded integers: osmomath/int.go.

    [BigInt] wraps a [*big.Int] and panics when a result needs more than [maxBitLen] = 1024 bits.
    A nil [BigInt] is not represented: every arithmetic method dereferences the pointer. *)
From stdpp Require Import prelude strings list.
From S2P Require Import Prelude.
From S2P Require Import GoBig.
Local Open Scope Z_scope.

Module BigInt.
Definition maxBitLen : Z := 1024.

Definition equal (a b : Z) : bool := big.Cmp a b =? 0.
Definition gt (a b : Z) : bool := big.Cmp a b =? 1.
Definition gte (a b : Z) : bool := 0 <=? big.Cmp a b.
Definition lt (a b : Z) : bool := big.Cmp a b =? -1.
Definition lte (a b : Z) : bool := big.Cmp a b <=? 0.
Definition min (a b : Z) : Z := if big.Cmp a b =? 1 then b else a.
Definition max (a b : Z) : Z := if big.Cmp a b =? -1 then b else a.

Record t : Type := mk { i : Z }.

#[export] Instance t_eq_dec : EqDecision t.
Proof. solve_decision. Defined.

Definition NewBigInt (n : Z) : t := mk n.
Definition NewBigIntFromBigInt (x : Z) : outcome t :=
  if maxBitLen <? big.BitLen x then Panic "NewIntFromBigInt() out of bound" else Ok (mk x).
Definition NewBigIntWithDecimal (n dec : Z) : outcome t :=
  if dec <? 0 then Panic "NewIntWithDecimal() decimal is negative"
  else let x := n * 10 ^ dec in
    if maxBitLen <? big.BitLen x then Panic "NewIntWithDecimal() out of bound" else Ok (mk x).
Definition ZeroBigInt : t := mk 0.
Definition OneBigInt : t := mk 1.

Definition Int64 (x : t) : outcome Z :=
  if big.IsInt64 (i x) then Ok (i x) else Panic "Int64() out of bound".
Definition IsInt64 (x : t) : bool := big.IsInt64 (i x).
Definition Uint64 (x : t) : outcome Z :=
  if big.IsUint64 (i x) then Ok (i x) else Panic "Uint64() out of bounds".
Definition IsUint64 (x : t) : bool := big.IsUint64 (i x).

Definition IsZero (x : t) : bool := big.Sign (i x) =? 0.
Definition IsNegative (x : t) : bool := big.Sign (i x) =? -1.
Definition IsPositive (x : t) : bool := big.Sign (i x) =? 1.
Definition Equal (x y : t) : bool := equal (i x) (i y).
Definition GT (x y : t) : bool := gt (i x) (i y).
Definition GTE (x y : t) : bool := gte (i x) (i y).
Definition LT (x y : t) : bool := lt (i x) (i y).
Definition LTE (x y : t) : bool := lte (i x) (i y).

Definition Add (x y : t) : outcome t :=
  let res := i x + i y in
  if maxBitLen <? big.BitLen res then Panic "Int overflow" else Ok (mk res).
Definition AddRaw (x : t) (n : Z) : outcome t := Add x (NewBigInt n).
Definition Sub (x y : t) : outcome t :=
  let res := i x - i y in
  if maxBitLen <? big.BitLen res then Panic "Int overflow" else Ok (mk res).
Definition SubRaw (x : t) (n : Z) : outcome t := Sub x (NewBigInt n).
(** [Mul] rejects on the bit lengths of the factors before it multiplies, and checks the product
    again afterwards. *)
Definition Mul (x y : t) : outcome t :=
  if maxBitLen <? big.BitLen (i x) + big.BitLen (i y) - 1 then Panic "Int overflow"
  else let res := i x * i y in
    if maxBitLen <? big.BitLen res then Panic "Int overflow" else Ok (mk res).
Definition MulRaw (x : t) (n : Z) : outcome t := Mul x (NewBigInt n).
Definition Quo (x y : t) : outcome t :=
  if big.Sign (i y) =? 0 then Panic "Division by zero" else mk <$> big.Quo (i x) (i y).
Definition QuoRaw (x : t) (n : Z) : outcome t := Quo x (NewBigInt n).
Definition Mod (x y : t) : outcome t :=
  if big.Sign (i y) =? 0 then Panic "division-by-zero" else mk <$> big.Mod (i x) (i y).
Definition ModRaw (x : t) (n : Z) : outcome t := Mod x (NewBigInt n).
Definition Neg (x : t) : t := mk (- i x).
Definition Abs (x : t) : t := mk (Z.abs (i x)).
Definition MinBigInt (x y : t) : t := mk (min (i x) (i y)).
Definition MaxBigInt (x y : t) : t := mk (max (i x) (i y)).

(** *** Range invariant *)

(** A [BigInt] is in range when its magnitude is below 2^1024. *)
Definition in_range (x : t) : Prop := big.BitLen (i x) ≤ maxBitLen.

#[export] Instance in_range_dec x : Decision (in_range x).
Proof. unfold in_range. apply _. Defined.

Lemma Mul_check x y :
  in_range (mk (i x * i y)) → i x ≠ 0 → i y ≠ 0 →
  big.BitLen (i x) + big.BitLen (i y) - 1 ≤ maxBitLen.
Proof.
  unfold in_range, big.BitLen; simpl. intros Hr Hx Hy.
  destruct (Z.eqb_spec (i x * i y) 0); [nia|].
  destruct (Z.eqb_spec (i x) 0), (Z.eqb_spec (i y) 0); try done.
  rewrite Z.abs_mul in Hr.
  pose proof (Z.log2_mul_below (Z.abs (i x)) (Z.abs (i y)) ltac:(lia) ltac:(lia)). lia.
Qed.

Lemma Cmp_spec a b :
  (a < b ∧ big.Cmp a b = -1) ∨ (a = b ∧ big.Cmp a b = 0) ∨ (b < a ∧ big.Cmp a b = 1).
Proof. unfold big.Cmp. destruct (Z.ltb_spec a b), (Z.eqb_spec a b); lia. Qed.

(** The binary operations that can overflow, with the exact result they stand for. *)
Inductive op := OpAdd | OpSub | OpMul.
Definition exact (o : op) (a b : Z) : Z :=
  match o with OpAdd => a + b | OpSub => a - b | OpMul => a * b end.
Definition run (o : op) : t → t → outcome t :=
  match o with OpAdd => Add | OpSub => Sub | OpMul => Mul end.

(** [Add], [Sub] and [Mul] of in-range integers return the exact mathematical result exactly
    when it fits in 1024 bits, and panic with the overflow message otherwise: the quick bit-length
    rejection of [Mul] never rejects a product that fits. *)
Theorem bigint_ops_exact (o : op) (x y : t) :
  in_range x → in_range y →
  (in_range (mk (exact o (i x) (i y))) → run o x y = Ok (mk (exact o (i x) (i y)))) ∧
  (¬ in_range (mk (exact o (i x) (i y))) → run o x y = Panic "Int overflow").
Proof.
  intros Hx Hy. unfold in_range; simpl.
  destruct o; simpl; unfold Add, Sub, Mul; simpl; try (case_match; split; intros; f_equal; lia).
  destruct (Z.ltb_spec maxBitLen (big.BitLen (i x) + big.BitLen (i y) - 1)) as [Hq|Hq];
    [|case_match; split; intros; f_equal; lia].
  split; [intros Hr|done]. exfalso.
  unfold in_range in *. 
  destruct (Z.eq_dec (i x) 0) as [E|E]; [rewrite E in Hq; unfold big.BitLen at 1 in Hq; simpl in Hq; lia|].
  destruct (Z.eq_dec (i y) 0) as [E'|E']; [rewrite E' in Hq; unfold big.BitLen at 2 in Hq; simpl in Hq; lia|].
  pose proof (Mul_check x y Hr E E'). lia.
Qed.

Lemma bigint_ops_exact_witness :
  run OpMul (mk (2 ^ 512)) (mk (2 ^ 511)) = Ok (mk (2 ^ 1023)) ∧
  run OpMul (mk (2 ^ 512)) (mk (2 ^ 512)) = Panic "Int overflow".
Proof.
  split.
  - apply (bigint_ops_exact OpMul (mk (2 ^ 512)) (mk (2 ^ 511))); vm_compute; discriminate.
  - apply (bigint_ops_exact OpMul (mk (2 ^ 512)) (mk (2 ^ 512))); vm_compute;
      first [discriminate | intros H; apply H; reflexivity].
Defined.
End BigInt.
