(* ===== verification/SdkDec.v ===== *)
(** The third-party fixed-point types and the interface the repository uses them through.

    [osmomath.Dec] is [cosmossdk.io/math.LegacyDec] and [osmomath.Int] is [cosmossdk.io/math.Int]:
    their code is not part of the repository.  A value is represented by the big integer its
    [BigInt()] accessor returns (for a [Dec], the number times 10^18).  The methods are the
    operations of the class [LegacyDec], an argument of every definition that calls one; what the
    library documents about them is the class [LegacyDecLaws].  [ref_dec] is one concrete instance,
    used to show that the laws can be met and to evaluate the model on concrete inputs. *)
From stdpp Require Import prelude strings list.
From S2P Require Import Prelude.
From S2P Require Import GoBig.
Local Open Scope Z_scope.

Module Dec.
Record t : Type := mk { i : Z }.
#[export] Instance t_eq_dec : EqDecision t.
Proof. solve_decision. Defined.
(** [DecPrecision], the alias of [sdkmath.LegacyPrecision]. *)
Definition DecPrecision : Z := 18.
(** The scale of the representation. *)
Definition one : Z := 10 ^ 18.
(** [osmomath.NewDec(n)] *)
Definition NewDec (n : Z) : t := mk (n * one).
End Dec.

Module SdkInt.
Record t : Type := mk { i : Z }.
#[export] Instance t_eq_dec : EqDecision t.
Proof. solve_decision. Defined.
End SdkInt.

Module sdk.
Class LegacyDec : Type := {
  IsNegative : Dec.t → bool;
  IsZero : Dec.t → bool;
  IsPositive : Dec.t → bool;
  GT : Dec.t → Dec.t → bool;
  GTE : Dec.t → Dec.t → bool;
  LT : Dec.t → Dec.t → bool;
  Equal : Dec.t → Dec.t → bool;
  Neg : Dec.t → Dec.t;
  Abs : Dec.t → Dec.t;
  Add : Dec.t → Dec.t → outcome Dec.t;
  Sub : Dec.t → Dec.t → outcome Dec.t;
  MulRoundUp : Dec.t → Dec.t → outcome Dec.t;
  MulTruncate : Dec.t → Dec.t → outcome Dec.t;
  Quo : Dec.t → Dec.t → outcome Dec.t;
  QuoRoundUp : Dec.t → Dec.t → outcome Dec.t;
  MinDec : Dec.t → Dec.t → Dec.t;
  QuoTruncate : Dec.t → Dec.t → outcome Dec.t;
  Ceil : Dec.t → outcome Dec.t;
  TruncateInt : Dec.t → outcome SdkInt.t;
  ToLegacyDec : SdkInt.t → Dec.t;
  IntAdd : SdkInt.t → SdkInt.t → outcome SdkInt.t;
  IntSub : SdkInt.t → SdkInt.t → outcome SdkInt.t;
  IntIsZero : SdkInt.t → bool;
  IntIsNegative : SdkInt.t → bool;
  IntIsPositive : SdkInt.t → bool;
  IntLT : SdkInt.t → SdkInt.t → bool;
  IntGT : SdkInt.t → SdkInt.t → bool;
  IntNeg : SdkInt.t → SdkInt.t;
  IntAbs : SdkInt.t → SdkInt.t;
  LTE : Dec.t → Dec.t → bool;
  Mul : Dec.t → Dec.t → outcome Dec.t;
  IntLTE : SdkInt.t → SdkInt.t → bool;
  MulInt64 : Dec.t → Z → outcome Dec.t;
  MulInt : Dec.t → SdkInt.t → outcome Dec.t;
  QuoInt64 : Dec.t → Z → outcome Dec.t;
  QuoInt : Dec.t → SdkInt.t → outcome Dec.t;
  RoundInt : Dec.t → outcome SdkInt.t;
  Power : Dec.t → Z → outcome Dec.t;
  IntMul : SdkInt.t → SdkInt.t → outcome SdkInt.t;
  IntQuoRaw : SdkInt.t → Z → outcome SdkInt.t;
  IntEqual : SdkInt.t → SdkInt.t → bool;
  MinInt : SdkInt.t → SdkInt.t → SdkInt.t;
  MaxDec : Dec.t → Dec.t → Dec.t;
  IntInt64 : SdkInt.t → outcome Z;
  IntGTE : SdkInt.t → SdkInt.t → bool;
  IntQuo : SdkInt.t → SdkInt.t → outcome SdkInt.t;
}.

(** Documented behaviour: comparisons compare the represented numbers; addition and subtraction are
    exact when they return; the rounding-up operations return a value not below the exact one.
    The last law is stated for a divisor of at most one, the only case the code uses. *)
Class LegacyDecLaws (D : LegacyDec) : Prop := {
  IsNegative_spec d : IsNegative d = (Dec.i d <? 0);
  IsZero_spec d : IsZero d = (Dec.i d =? 0);
  IsPositive_spec d : IsPositive d = (0 <? Dec.i d);
  GT_spec a b : GT a b = (Dec.i b <? Dec.i a);
  GTE_spec a b : GTE a b = (Dec.i b <=? Dec.i a);
  LT_spec a b : LT a b = (Dec.i a <? Dec.i b);
  Equal_spec a b : Equal a b = (Dec.i a =? Dec.i b);
  Neg_spec d : Dec.i (Neg d) = - Dec.i d;
  Abs_spec d : Dec.i (Abs d) = Z.abs (Dec.i d);
  MinDec_spec a b : Dec.i (MinDec a b) = Z.min (Dec.i a) (Dec.i b);
  Add_spec a b r : Add a b = Ok r → Dec.i r = Dec.i a + Dec.i b;
  Sub_spec a b r : Sub a b = Ok r → Dec.i r = Dec.i a - Dec.i b;
  MulRoundUp_spec a b r :
    MulRoundUp a b = Ok r →
    Dec.i a * Dec.i b ≤ Dec.one * Dec.i r < Dec.i a * Dec.i b + Dec.one;
  MulTruncate_spec a b r :
    0 ≤ Dec.i a * Dec.i b → MulTruncate a b = Ok r →
    Dec.one * Dec.i r ≤ Dec.i a * Dec.i b < Dec.one * Dec.i r + Dec.one;
  QuoRoundUp_spec a b r :
    0 ≤ Dec.i a → 0 < Dec.i b ≤ Dec.one → QuoRoundUp a b = Ok r →
    Dec.i a * Dec.one ≤ Dec.i b * Dec.i r;
  QuoTruncate_spec a b r :
    0 ≤ Dec.i a → 0 < Dec.i b → QuoTruncate a b = Ok r →
    Dec.i b * Dec.i r ≤ Dec.i a * Dec.one < Dec.i b * Dec.i r + Dec.i b;
  Ceil_spec d r :
    Ceil d = Ok r → ∃ k, Dec.i r = Dec.one * k ∧ Dec.i d ≤ Dec.one * k < Dec.i d + Dec.one;
  TruncateInt_spec d r : TruncateInt d = Ok r → SdkInt.i r = Z.quot (Dec.i d) Dec.one;
  ToLegacyDec_spec n : Dec.i (ToLegacyDec n) = SdkInt.i n * Dec.one;
  IntAdd_spec a b r : IntAdd a b = Ok r → SdkInt.i r = SdkInt.i a + SdkInt.i b;
  IntSub_spec a b r : IntSub a b = Ok r → SdkInt.i r = SdkInt.i a - SdkInt.i b;
  IntIsZero_spec a : IntIsZero a = (SdkInt.i a =? 0);
  IntIsNegative_spec a : IntIsNegative a = (SdkInt.i a <? 0);
  IntIsPositive_spec a : IntIsPositive a = (0 <? SdkInt.i a);
  IntLT_spec a b : IntLT a b = (SdkInt.i a <? SdkInt.i b);
  IntGT_spec a b : IntGT a b = (SdkInt.i b <? SdkInt.i a);
  IntNeg_spec a : SdkInt.i (IntNeg a) = - SdkInt.i a;
  IntAbs_spec a : SdkInt.i (IntAbs a) = Z.abs (SdkInt.i a);
  LTE_spec a b : LTE a b = (Dec.i a <=? Dec.i b);
  Mul_spec a b r :
    Mul a b = Ok r → 2 * Z.abs (Dec.one * Dec.i r - Dec.i a * Dec.i b) ≤ Dec.one;
  IntLTE_spec a b : IntLTE a b = (SdkInt.i a <=? SdkInt.i b);
  Quo_spec a b r :
    Quo a b = Ok r → Dec.i b ≠ 0 ∧
    2 * Z.abs (Dec.i b * Dec.i r - Dec.i a * Dec.one) ≤ Z.abs (Dec.i b);
  MulInt64_spec a n r : MulInt64 a n = Ok r → Dec.i r = Dec.i a * n;
  MulInt_spec a n r : MulInt a n = Ok r → Dec.i r = Dec.i a * SdkInt.i n;
  QuoInt64_spec a n r : QuoInt64 a n = Ok r → n ≠ 0 ∧ Dec.i r = Z.quot (Dec.i a) n;
  QuoInt_spec a n r : QuoInt a n = Ok r → SdkInt.i n ≠ 0 ∧ Dec.i r = Z.quot (Dec.i a) (SdkInt.i n);
  RoundInt_spec a r : RoundInt a = Ok r → 2 * Z.abs (Dec.one * SdkInt.i r - Dec.i a) ≤ Dec.one;
  Power_spec n k r :
    0 ≤ k → Power (Dec.mk (n * Dec.one)) k = Ok r → Dec.i r = n ^ k * Dec.one;
  IntMul_spec a b r : IntMul a b = Ok r → SdkInt.i r = SdkInt.i a * SdkInt.i b;
  IntQuoRaw_spec a n r : IntQuoRaw a n = Ok r → n ≠ 0 ∧ SdkInt.i r = Z.quot (SdkInt.i a) n;
  IntEqual_spec a b : IntEqual a b = (SdkInt.i a =? SdkInt.i b);
  MinInt_spec a b : SdkInt.i (MinInt a b) = Z.min (SdkInt.i a) (SdkInt.i b);
  MaxDec_spec a b : Dec.i (MaxDec a b) = Z.max (Dec.i a) (Dec.i b);
  IntInt64_spec a n : IntInt64 a = Ok n → n = SdkInt.i a ∧ - 2 ^ 63 ≤ n < 2 ^ 63;
  IntGTE_spec a b : IntGTE a b = (SdkInt.i b <=? SdkInt.i a);
  IntQuo_spec a b r :
    IntQuo a b = Ok r → SdkInt.i b ≠ 0 ∧ SdkInt.i r = Z.quot (SdkInt.i a) (SdkInt.i b);
}.

(** A reference instance: exact integer arithmetic on the scaled integers, with the overflow panic
    at 315 bits. *)
Definition ref_check (x : Z) : outcome Dec.t :=
  if 315 <? big.BitLen x then Panic "Int overflow" else Ok (Dec.mk x).
Definition ref_int_check (x : Z) : outcome SdkInt.t :=
  if 256 <? big.BitLen x then Panic "Int overflow" else Ok (SdkInt.mk x).
Definition ref_ceil (x p : Z) : Z := - ((- x) / p).
(** Rounding to the nearest integer, ties up. *)
Definition ref_near (x p : Z) : Z := (2 * x + p) / (2 * p).

Definition ref_mul (a b : Dec.t) : outcome Dec.t := ref_check (ref_near (Dec.i a * Dec.i b) Dec.one).
Definition ref_power (a : Dec.t) (k : Z) : outcome Dec.t :=
  Nat.iter (Z.to_nat k) (λ r, x ← r; ref_mul x a) (Ok (Dec.mk Dec.one)).
Definition ref_quot_int (a : Dec.t) (n : Z) : outcome Dec.t :=
  if n =? 0 then Panic "division by zero" else Ok (Dec.mk (Z.quot (Dec.i a) n)).

#[export] Instance ref_dec : LegacyDec := {
  IsNegative d := Dec.i d <? 0;
  IsZero d := Dec.i d =? 0;
  IsPositive d := 0 <? Dec.i d;
  GT a b := Dec.i b <? Dec.i a;
  GTE a b := Dec.i b <=? Dec.i a;
  LT a b := Dec.i a <? Dec.i b;
  Equal a b := Dec.i a =? Dec.i b;
  Neg d := Dec.mk (- Dec.i d);
  Abs d := Dec.mk (Z.abs (Dec.i d));
  Add a b := ref_check (Dec.i a + Dec.i b);
  Sub a b := ref_check (Dec.i a - Dec.i b);
  MulRoundUp a b := ref_check (ref_ceil (Dec.i a * Dec.i b) Dec.one);
  MulTruncate a b := ref_check (Z.quot (Dec.i a * Dec.i b) Dec.one);
  Quo a b := if Dec.i b =? 0 then Panic "division by zero"
             else ref_check (ref_near (Z.sgn (Dec.i b) * (Dec.i a * Dec.one)) (Z.abs (Dec.i b)));
  QuoRoundUp a b := if Dec.i b =? 0 then Panic "division by zero"
                    else ref_check (ref_ceil (Dec.i a * Dec.one) (Dec.i b));
  MinDec a b := if Dec.i a <? Dec.i b then a else b;
  QuoTruncate a b := if Dec.i b =? 0 then Panic "division by zero"
                     else ref_check (Z.quot (Dec.i a * Dec.one) (Dec.i b));
  Ceil d := ref_check (ref_ceil (Dec.i d) Dec.one * Dec.one);
  TruncateInt d := ref_int_check (Z.quot (Dec.i d) Dec.one);
  ToLegacyDec n := Dec.mk (SdkInt.i n * Dec.one);
  IntAdd a b := ref_int_check (SdkInt.i a + SdkInt.i b);
  IntSub a b := ref_int_check (SdkInt.i a - SdkInt.i b);
  IntIsZero a := SdkInt.i a =? 0;
  IntIsNegative a := SdkInt.i a <? 0;
  IntIsPositive a := 0 <? SdkInt.i a;
  IntLT a b := SdkInt.i a <? SdkInt.i b;
  IntGT a b := SdkInt.i b <? SdkInt.i a;
  IntNeg a := SdkInt.mk (- SdkInt.i a);
  IntAbs a := SdkInt.mk (Z.abs (SdkInt.i a));
  LTE a b := Dec.i a <=? Dec.i b;
  Mul a b := ref_mul a b;
  IntLTE a b := SdkInt.i a <=? SdkInt.i b;
  MulInt64 a n := ref_check (Dec.i a * n);
  MulInt a n := ref_check (Dec.i a * SdkInt.i n);
  QuoInt64 a n := ref_quot_int a n;
  QuoInt a n := ref_quot_int a (SdkInt.i n);
  RoundInt a := ref_int_check (ref_near (Dec.i a) Dec.one);
  Power a k := ref_power a k;
  IntMul a b := ref_int_check (SdkInt.i a * SdkInt.i b);
  IntQuoRaw a n := if n =? 0 then Panic "division by zero" else Ok (SdkInt.mk (Z.quot (SdkInt.i a) n));
  IntEqual a b := SdkInt.i a =? SdkInt.i b;
  MinInt a b := if SdkInt.i a <? SdkInt.i b then a else b;
  MaxDec a b := if Dec.i a <? Dec.i b then b else a;
  IntInt64 a := if (- 2 ^ 63 <=? SdkInt.i a) && (SdkInt.i a <? 2 ^ 63) then Ok (SdkInt.i a)
                else Panic "Int64() out of bound";
  IntGTE a b := SdkInt.i b <=? SdkInt.i a;
  IntQuo a b := if SdkInt.i b =? 0 then Panic "division by zero"
                else Ok (SdkInt.mk (Z.quot (SdkInt.i a) (SdkInt.i b)));
}.

Lemma ref_check_Ok x r : ref_check x = Ok r → r = Dec.mk x.
Proof. unfold ref_check. case_match; congruence. Qed.

Lemma ref_int_check_Ok x r : ref_int_check x = Ok r → r = SdkInt.mk x.
Proof. unfold ref_int_check. case_match; congruence. Qed.

Lemma ref_ceil_bounds x p : 0 < p → x ≤ p * ref_ceil x p < x + p.
Proof. intros Hp. unfold ref_ceil. pose proof (div_bounds p Hp (- x)). lia. Qed.

Lemma ref_near_bounds x p : 0 < p → 2 * Z.abs (p * ref_near x p - x) ≤ p.
Proof. intros Hp. unfold ref_near. pose proof (div_bounds (2 * p) ltac:(lia) (2 * x + p)). lia. Qed.

Lemma ref_near_exact n p : 0 < p → ref_near (n * p) p = n.
Proof. intros Hp. unfold ref_near. symmetry. apply (Z.div_unique _ _ _ p); lia. Qed.

Lemma ref_power_spec n k r : 0 ≤ k → ref_power (Dec.mk (n * Dec.one)) k = Ok r → Dec.i r = n ^ k * Dec.one.
Proof.
  intros Hk. unfold ref_power. rewrite <- (Z2Nat.id k) at 2 by done.
  revert r. induction (Z.to_nat k) as [|j IH]; intros r.
  - intros [= <-]. cbn [Dec.i]. lia.
  - rewrite Nat.iter_succ. intros (x & Hx & Hr)%bind_Ok. apply IH in Hx.
    unfold ref_mul in Hr. apply ref_check_Ok in Hr as ->. cbn [Dec.i].
    rewrite Hx, Nat2Z.inj_succ, Z.pow_succ_r by lia.
    replace (n ^ Z.of_nat j * Dec.one * (n * Dec.one)) with (n ^ Z.of_nat j * n * Dec.one * Dec.one) by lia.
    rewrite ref_near_exact by done. lia.
Qed.

#[export] Instance ref_dec_laws : LegacyDecLaws ref_dec.
Proof.
  split; try reflexivity; simpl.
  - intros. case_match; simpl; lia.
  - by intros a b r ->%ref_check_Ok.
  - by intros a b r ->%ref_check_Ok.
  - intros a b r ->%ref_check_Ok. by apply ref_ceil_bounds.
  - intros a b r H ->%ref_check_Ok. simpl.
    destruct (quot_bounds Dec.one ltac:(done) (Dec.i a * Dec.i b)) as [Hb _]. lia.
  - intros a b r Ha Hb. rewrite (proj2 (Z.eqb_neq (Dec.i b) 0)) by lia.
    intros ->%ref_check_Ok. simpl.
    pose proof (ref_ceil_bounds (Dec.i a * Dec.one) (Dec.i b) ltac:(lia)). lia.
  - intros a b r Ha Hb. rewrite (proj2 (Z.eqb_neq (Dec.i b) 0)) by lia.
    intros ->%ref_check_Ok. simpl.
    destruct (quot_bounds (Dec.i b) ltac:(lia) (Dec.i a * Dec.one)) as [Hq _].
    unfold Dec.one in *. lia.
  - intros d r ->%ref_check_Ok. exists (ref_ceil (Dec.i d) Dec.one). cbn [Dec.i].
    split; [lia|]. by apply ref_ceil_bounds.
  - by intros d r ->%ref_int_check_Ok.
  - by intros a b r ->%ref_int_check_Ok.
  - by intros a b r ->%ref_int_check_Ok.
  - unfold ref_mul. intros a b r ->%ref_check_Ok. by apply ref_near_bounds.
  - intros a b r. destruct (Z.eqb_spec (Dec.i b) 0) as [|Hb]; [done|]. intros ->%ref_check_Ok.
    split; [done|]. cbn [Dec.i].
    pose proof (ref_near_bounds (Z.sgn (Dec.i b) * (Dec.i a * Dec.one)) (Z.abs (Dec.i b)) ltac:(lia)) as H.
    destruct (Z.sgn_spec (Dec.i b)) as [[Hs E]|[[? ?]|[Hs E]]]; [|lia|]; rewrite E in H |- *.
    + rewrite (Z.abs_eq (Dec.i b)) in * by lia. lia.
    + rewrite (Z.abs_neq (Dec.i b)) in * by lia. lia.
  - by intros a n r ->%ref_check_Ok.
  - by intros a n r ->%ref_check_Ok.
  - unfold ref_quot_int. intros a n r. destruct (Z.eqb_spec n 0); [done|]. by intros [= <-].
  - unfold ref_quot_int. intros a n r. destruct (Z.eqb_spec (SdkInt.i n) 0); [done|]. by intros [= <-].
  - intros a r ->%ref_int_check_Ok. by apply ref_near_bounds.
  - apply ref_power_spec.
  - by intros a b r ->%ref_int_check_Ok.
  - intros a n r. destruct (Z.eqb_spec n 0); [done|]. by intros [= <-].
  - intros. case_match; simpl; lia.
  - intros. case_match; simpl; lia.
  - intros a n. case_match eqn:E; [|done]. intros [= <-]. lia.
  - intros a b r. destruct (Z.eqb_spec (SdkInt.i b) 0); [done|]. by intros [= <-].
Qed.
End sdk.
