(* ===== verification/Decimal.v ===== *)
(** 36-digit decimals: osmomath/decimal.go, arithmetic part.

    A [BigDec] is the big integer d * 10^36.  The in-place ([Mut]) methods are modelled by the value
    they leave in the receiver, which is also the value they return; the allocating methods are the
    in-place ones applied to a clone, as in the code.  A nil receiver is not represented. *)
From stdpp Require Import prelude strings list.
From S2P Require Import Prelude.
From S2P Require Import GoBig.
From S2P Require Import Int.
From S2P Require Import SdkDec.
Local Open Scope Z_scope.

Module BigDec.
Definition BigDecPrecision : Z := 36.
Definition BigDecimalPrecisionBits : Z := 120.
Definition maxDecBitLen : Z := BigInt.maxBitLen + BigDecimalPrecisionBits.

Definition defaultBigDecPrecisionReuse : Z := 10 ^ BigDecPrecision.
Definition precisionReuseSDKDec : Z := 10 ^ Dec.DecPrecision.
Definition squaredPrecisionReuse : Z := defaultBigDecPrecisionReuse * defaultBigDecPrecisionReuse.
Definition bigDecDecPrecisionFactorDiff : Z := 10 ^ (BigDecPrecision - Dec.DecPrecision).
Definition fivePrecision : Z := Z.quot defaultBigDecPrecisionReuse 2.
Definition fivePrecisionSDKDec : Z := Z.quot precisionReuseSDKDec 2.

Record t : Type := mk { i : Z }.

#[export] Instance t_eq_dec : EqDecision t.
Proof. solve_decision. Defined.

(** *** Constructors *)

Definition ZeroBigDec : t := mk 0.
Definition OneBigDec : t := mk defaultBigDecPrecisionReuse.
Definition SmallestBigDec : t := mk 1.

Definition calcPrecisionMultiplier (prec : Z) : outcome Z :=
  if BigDecPrecision <? prec then Panic "too much precision"
  else Ok (10 ^ (BigDecPrecision - prec)).

(** [precisionMultiplier] reads the table [init] fills with [calcPrecisionMultiplier] for the
    indices 0 to 36; a negative index is out of the slice's range. *)
Definition precisionMultiplier (prec : Z) : outcome Z :=
  if BigDecPrecision <? prec then Panic "too much precision"
  else if prec <? 0 then Panic "index out of range"
  else calcPrecisionMultiplier prec.

Definition NewBigDecWithPrec (n prec : Z) : outcome t :=
  m ← precisionMultiplier prec; Ok (mk (n * m)).
Definition NewBigDec (n : Z) : outcome t := NewBigDecWithPrec n 0.
Definition NewBigDecFromBigIntWithPrec (n prec : Z) : outcome t :=
  m ← precisionMultiplier prec; Ok (mk (n * m)).
Definition NewBigDecFromBigInt (n : Z) : outcome t := NewBigDecFromBigIntWithPrec n 0.
Definition NewBigDecFromBigIntMutWithPrec (n prec : Z) : outcome t :=
  m ← precisionMultiplier prec; Ok (mk (n * m)).
Definition NewBigDecFromBigIntMut (n : Z) : outcome t := NewBigDecFromBigIntMutWithPrec n 0.
Definition NewBigDecFromIntWithPrec (x : BigInt.t) (prec : Z) : outcome t :=
  m ← precisionMultiplier prec; Ok (mk (BigInt.i x * m)).
Definition NewBigDecFromInt (x : BigInt.t) : outcome t := NewBigDecFromIntWithPrec x 0.
Definition NewBigDecFromDecMulDec (a b : Dec.t) : t := mk (Dec.i a * Dec.i b).

(** *** Comparisons *)

Definition IsZero (d : t) : bool := big.Sign (i d) =? 0.
Definition IsNegative (d : t) : bool := big.Sign (i d) =? -1.
Definition IsPositive (d : t) : bool := big.Sign (i d) =? 1.
Definition Equal (d d2 : t) : bool := big.Cmp (i d) (i d2) =? 0.
Definition GT (d d2 : t) : bool := 0 <? big.Cmp (i d) (i d2).
Definition GTE (d d2 : t) : bool := 0 <=? big.Cmp (i d) (i d2).
Definition LT (d d2 : t) : bool := big.Cmp (i d) (i d2) <? 0.
Definition LTE (d d2 : t) : bool := big.Cmp (i d) (i d2) <=? 0.
Definition Neg (d : t) : t := mk (- i d).
Definition NegMut (d : t) : t := mk (- i d).
Definition Abs (d : t) : t := mk (Z.abs (i d)).
Definition AbsMut (d : t) : t := mk (Z.abs (i d)).
Definition Clone (d : t) : t := mk (i d).
Definition MinBigDec (d1 d2 : t) : t := if LT d1 d2 then d1 else d2.
Definition MaxBigDec (d1 d2 : t) : t := if LT d1 d2 then d2 else d1.

(** *** Rounding *)

(** Bankers rounding of [d] by the precision [p] whose half is [five]: the body shared by
    [chopPrecisionAndRound] and [chopPrecisionAndRoundSdkDec] for a non-negative argument. *)
Definition chop_nonneg (p five d : Z) : Z :=
  let quo := Z.quot d p in
  let rem := Z.rem d p in
  if big.Sign rem =? 0 then quo
  else if big.Cmp rem five =? -1 then quo
  else if big.Cmp rem five =? 1 then quo + 1
  else if Z.testbit quo 0 then quo + 1 else quo.

Definition chopPrecisionAndRound (d : Z) : Z :=
  if big.Sign d =? -1 then - chop_nonneg defaultBigDecPrecisionReuse fivePrecision (- d)
  else chop_nonneg defaultBigDecPrecisionReuse fivePrecision d.
Definition chopPrecisionAndRoundSdkDec (d : Z) : Z :=
  if big.Sign d =? -1 then - chop_nonneg precisionReuseSDKDec fivePrecisionSDKDec (- d)
  else chop_nonneg precisionReuseSDKDec fivePrecisionSDKDec d.
Definition chopPrecisionAndRoundNonMutative (d : Z) : Z := chopPrecisionAndRound d.

Definition incBasedOnRem (rem d : Z) : Z := if big.Sign rem =? 0 then d else d + 1.

Definition chopPrecisionAndTruncate (d precisionReuse : Z) : Z := Z.quot d precisionReuse.
Definition chopPrecisionAndTruncateMut (d precisionReuse : Z) : Z := Z.quot d precisionReuse.

Definition chopPrecisionAndRoundUpMut (d precisionReuse : Z) : Z :=
  if big.Sign d =? -1 then - chopPrecisionAndTruncateMut (- d) precisionReuse
  else incBasedOnRem (Z.rem d precisionReuse) (Z.quot d precisionReuse).
Definition chopPrecisionAndRoundUpDec (d : Z) : Z :=
  chopPrecisionAndRoundUpMut d precisionReuseSDKDec.

Definition assertMaxBitLen (x : Z) : outcome unit :=
  if maxDecBitLen <? big.BitLen x then Panic "Int overflow" else Ok tt.

(** [ret_checked r] is the tail [assertMaxBitLen(r); return BigDec{r}] of most operations. *)
Definition ret_checked (r : Z) : outcome t := _ ← assertMaxBitLen r; Ok (mk r).

(** *** Addition, multiplication *)

Definition AddMut (d d2 : t) : outcome t := ret_checked (i d + i d2).
Definition Add (d d2 : t) : outcome t := AddMut (Clone d) d2.
Definition SubMut (d d2 : t) : outcome t := ret_checked (i d - i d2).
Definition Sub (d d2 : t) : outcome t := SubMut (Clone d) d2.

Definition MulMut (d d2 : t) : outcome t := ret_checked (chopPrecisionAndRound (i d * i d2)).
Definition Mul (d d2 : t) : outcome t := MulMut (Clone d) d2.
Definition MulDecMut (d : t) (d2 : Dec.t) : outcome t :=
  ret_checked (chopPrecisionAndRoundSdkDec (i d * Dec.i d2)).
Definition MulDec (d : t) (d2 : Dec.t) : outcome t := MulDecMut (Clone d) d2.
Definition MulTruncate (d d2 : t) : outcome t :=
  ret_checked (chopPrecisionAndTruncateMut (i d * i d2) defaultBigDecPrecisionReuse).
Definition MulTruncateDec (d : t) (d2 : Dec.t) : outcome t :=
  ret_checked (chopPrecisionAndTruncateMut (i d * Dec.i d2) precisionReuseSDKDec).
Definition MulRoundUp (d d2 : t) : outcome t :=
  ret_checked (chopPrecisionAndRoundUpMut (i d * i d2) defaultBigDecPrecisionReuse).
Definition MulRoundUpDec (d : t) (d2 : Dec.t) : outcome t :=
  ret_checked (chopPrecisionAndRoundUpMut (i d * Dec.i d2) precisionReuseSDKDec).
Definition MulInt (d : t) (x : BigInt.t) : outcome t := ret_checked (i d * BigInt.i x).
Definition MulInt64 (d : t) (n : Z) : outcome t := ret_checked (i d * n).

(** *** Division *)

Definition QuoMut (d d2 : t) : outcome t :=
  q ← big.Quo (i d * squaredPrecisionReuse) (i d2);
  ret_checked (chopPrecisionAndRound q).
Definition Quo (d d2 : t) : outcome t := QuoMut (Clone d) d2.
Definition QuoRaw (d : t) (d2 : Z) : outcome t :=
  q ← big.Quo (i d * defaultBigDecPrecisionReuse) d2;
  ret_checked (chopPrecisionAndRound q).
Definition QuoTruncate (d d2 : t) : outcome t :=
  q ← big.Quo (i d * defaultBigDecPrecisionReuse) (i d2); ret_checked q.
Definition QuoTruncateMut (d d2 : t) : outcome t :=
  q ← big.Quo (i d * defaultBigDecPrecisionReuse) (i d2); ret_checked q.
Definition QuoTruncateDec (d : t) (d2 : Dec.t) : outcome t :=
  q ← big.Quo (i d * precisionReuseSDKDec) (Dec.i d2); ret_checked q.
Definition QuoTruncateDecMut (d : t) (d2 : Dec.t) : outcome t :=
  q ← big.Quo (i d * precisionReuseSDKDec) (Dec.i d2); ret_checked q.
Definition QuoRoundUp (d d2 : t) : outcome t :=
  '(chopped, rem) ← big.QuoRem (i d * defaultBigDecPrecisionReuse) (i d2);
  ret_checked (if 0 <? big.Sign rem then chopped + 1 else chopped).
Definition QuoByDecRoundUp (d : t) (d2 : Dec.t) : outcome t :=
  '(chopped, rem) ← big.QuoRem (i d * precisionReuseSDKDec) (Dec.i d2);
  ret_checked (if 0 <? big.Sign rem then chopped + 1 else chopped).
Definition QuoRoundUpMut (d d2 : t) : outcome t :=
  '(q, rem) ← big.QuoRem (i d * defaultBigDecPrecisionReuse) (i d2);
  ret_checked (incBasedOnRem rem q).
Definition QuoRoundUpNextIntMut (d d2 : t) : outcome t :=
  '(q, rem) ← big.QuoRem (i d) (i d2);
  ret_checked (incBasedOnRem rem q * defaultBigDecPrecisionReuse).
Definition QuoInt (d : t) (x : BigInt.t) : outcome t := mk <$> big.Quo (i d) (BigInt.i x).
Definition QuoInt64 (d : t) (n : Z) : outcome t := mk <$> big.Quo (i d) n.

(** *** Conversions *)

Definition IsInteger (d : t) : bool := big.Sign (Z.rem (i d) defaultBigDecPrecisionReuse) =? 0.

(** The conversions to [Dec] build the result's big integer directly. *)
Definition ToDec (d : t) : Dec.t := Dec.mk (Z.quot (i d) bigDecDecPrecisionFactorDiff).
Definition DecRoundUp (d : t) : Dec.t :=
  Dec.mk (incBasedOnRem (Z.rem (i d) bigDecDecPrecisionFactorDiff)
                        (Z.quot (i d) bigDecDecPrecisionFactorDiff)).
Definition ChopPrecisionMut (d : t) (precision : Z) : outcome t :=
  if BigDecPrecision <? precision then Panic "maximum BigDec precision exceeded"
  else let precisionFactor := 10 ^ (BigDecPrecision - precision) in
    Ok (mk (Z.quot (i d) precisionFactor * precisionFactor)).
Definition ChopPrecision (d : t) (precision : Z) : outcome t :=
  ChopPrecisionMut (Clone d) precision.

Definition BigDecFromDec (d : Dec.t) : outcome t :=
  NewBigDecFromBigIntMutWithPrec (Dec.i d) Dec.DecPrecision.
Definition BigDecFromDecMut (d : Dec.t) : outcome t :=
  NewBigDecFromBigIntMutWithPrec (Dec.i d) Dec.DecPrecision.
Definition BigDecFromSDKInt (x : SdkInt.t) : outcome t :=
  NewBigDecFromBigIntWithPrec (SdkInt.i x) 0.
Fixpoint BigDecFromDecSlice (ds : list Dec.t) : outcome (list t) :=
  match ds with
  | [] => Ok []
  | d :: ds => r ← NewBigDecFromBigIntMutWithPrec (Dec.i d) Dec.DecPrecision;
               rs ← BigDecFromDecSlice ds; Ok (r :: rs)
  end.

Definition RoundInt64 (d : t) : outcome Z :=
  let chopped := chopPrecisionAndRoundNonMutative (i d) in
  if big.IsInt64 chopped then Ok chopped else Panic "Int64() out of bound".
Definition RoundInt (d : t) : outcome BigInt.t :=
  BigInt.NewBigIntFromBigInt (chopPrecisionAndRoundNonMutative (i d)).
Definition TruncateInt64 (d : t) : outcome Z :=
  let chopped := chopPrecisionAndTruncate (i d) defaultBigDecPrecisionReuse in
  if big.IsInt64 chopped then Ok chopped else Panic "Int64() out of bound".
Definition TruncateInt (d : t) : outcome BigInt.t :=
  BigInt.NewBigIntFromBigInt (chopPrecisionAndTruncate (i d) defaultBigDecPrecisionReuse).
Definition TruncateDec (d : t) : outcome t :=
  NewBigDecFromBigInt (chopPrecisionAndTruncate (i d) defaultBigDecPrecisionReuse).
Definition CeilMut (d : t) : outcome t :=
  let quo := Z.quot (i d) defaultBigDecPrecisionReuse in
  let rem := Z.rem (i d) defaultBigDecPrecisionReuse in
  if big.Sign rem <=? 0 then NewBigDecFromBigIntMut quo else NewBigDecFromBigIntMut (quo + 1).
Definition Ceil (d : t) : outcome t := CeilMut (mk (i d)).

Fixpoint DecsEqual_loop (d1s d2s : list t) : bool :=
  match d1s, d2s with
  | d1 :: d1s, d2 :: d2s => if Equal d1 d2 then DecsEqual_loop d1s d2s else false
  | _, _ => true
  end.
Definition DecsEqual (d1s d2s : list t) : bool :=
  if bool_decide (length d1s = length d2s) then DecsEqual_loop d1s d2s else false.
End BigDec.
