(* ===== verification/DecimalFacts.v ===== *)
(** Rounding behaviour of the 36-digit decimals.

    Every rounding routine of decimal.go is related to an exact rational statement, written with
    integers: a decimal [d] stands for [i d / 10^36]. *)
From stdpp Require Import prelude strings list.
From S2P Require Import Prelude.
From S2P Require Import GoBig.
From S2P Require Import Int.
From S2P Require Import SdkDec.
From S2P Require Import Decimal.
Local Open Scope Z_scope.

(** [decimal]: facts about scales and rounding; [cmp]: [math/big] comparisons as [Z] tests. *)
Create HintDb decimal.
Create Rewrite HintDb cmp.

Module BigDecFacts.
Import BigDec.

(** Shorter names for the two scales. *)
Abbreviation P := defaultBigDecPrecisionReuse.
Abbreviation PD := precisionReuseSDKDec.

Lemma P_pos : 0 < P. Proof. done. Qed.
Lemma PD_pos : 0 < PD. Proof. done. Qed.
Lemma PF_pos : 0 < bigDecDecPrecisionFactorDiff. Proof. done. Qed.
Lemma P_half : P = 2 * fivePrecision. Proof. done. Qed.
Lemma PD_half : PD = 2 * fivePrecisionSDKDec. Proof. done. Qed.
Lemma P_split : P = PD * bigDecDecPrecisionFactorDiff. Proof. done. Qed.
Lemma P_squared : squaredPrecisionReuse = P * P. Proof. done. Qed.
#[export] Hint Resolve P_pos PD_pos PF_pos : decimal.

(** *** Comparisons are the order of the underlying integers *)

Lemma Sign_neg x : (big.Sign x =? -1) = (x <? 0).
Proof. unfold big.Sign. destruct x; reflexivity. Qed.
Lemma Sign_zero x : (big.Sign x =? 0) = (x =? 0).
Proof. unfold big.Sign. destruct x; reflexivity. Qed.
Lemma Sign_pos x : (0 <? big.Sign x) = (0 <? x).
Proof. unfold big.Sign. destruct x; reflexivity. Qed.
Lemma Sign_one x : (big.Sign x =? 1) = (0 <? x).
Proof. unfold big.Sign. destruct x; reflexivity. Qed.
Lemma Sign_nonpos x : (big.Sign x <=? 0) = (x <=? 0).
Proof. unfold big.Sign. destruct x; reflexivity. Qed.
Lemma Cmp_eqb a b : (big.Cmp a b =? 0) = (a =? b).
Proof. unfold big.Cmp. destruct (Z.ltb_spec a b), (Z.eqb_spec a b); simpl; lia. Qed.
Lemma Cmp_gt a b : (0 <? big.Cmp a b) = (b <? a).
Proof. unfold big.Cmp. destruct (Z.ltb_spec a b), (Z.eqb_spec a b); simpl; lia. Qed.
Lemma Cmp_ge a b : (0 <=? big.Cmp a b) = (b <=? a).
Proof. unfold big.Cmp. destruct (Z.ltb_spec a b), (Z.eqb_spec a b); simpl; lia. Qed.
Lemma Cmp_lt a b : (big.Cmp a b <? 0) = (a <? b).
Proof. unfold big.Cmp. destruct (Z.ltb_spec a b), (Z.eqb_spec a b); simpl; lia. Qed.
Lemma Cmp_le a b : (big.Cmp a b <=? 0) = (a <=? b).
Proof. unfold big.Cmp. destruct (Z.ltb_spec a b), (Z.eqb_spec a b); simpl; lia. Qed.
Lemma Cmp_m1 a b : (big.Cmp a b =? -1) = (a <? b).
Proof. unfold big.Cmp. destruct (Z.ltb_spec a b), (Z.eqb_spec a b); simpl; lia. Qed.
Lemma Cmp_p1 a b : (big.Cmp a b =? 1) = (b <? a).
Proof. unfold big.Cmp. destruct (Z.ltb_spec a b), (Z.eqb_spec a b); simpl; lia. Qed.

#[export] Hint Rewrite Sign_neg Sign_zero Sign_pos Sign_one Sign_nonpos
  Cmp_eqb Cmp_gt Cmp_ge Cmp_lt Cmp_le Cmp_m1 Cmp_p1 : cmp.

(** [cmp] turns the sign and comparison tests of [math/big] into boolean comparisons on [Z]. *)
Ltac cmp := autorewrite with cmp in *.
(** [zcases] splits on every boolean comparison of integers in the goal. *)
Ltac zcases := repeat
  match goal with
  | |- context [?a <? ?b] => destruct (Z.ltb_spec a b)
  | |- context [?a <=? ?b] => destruct (Z.leb_spec a b)
  | |- context [?a =? ?b] => destruct (Z.eqb_spec a b)
  end.

Lemma GT_iff d d2 : GT d d2 = true ↔ i d2 < i d.
Proof. unfold GT. cmp. apply Z.ltb_lt. Qed.
Lemma GTE_iff d d2 : GTE d d2 = true ↔ i d2 ≤ i d.
Proof. unfold GTE. cmp. apply Z.leb_le. Qed.
Lemma LT_iff d d2 : LT d d2 = true ↔ i d < i d2.
Proof. unfold LT. cmp. apply Z.ltb_lt. Qed.
Lemma LTE_iff d d2 : LTE d d2 = true ↔ i d ≤ i d2.
Proof. unfold LTE. cmp. apply Z.leb_le. Qed.
Lemma Equal_iff d d2 : Equal d d2 = true ↔ d = d2.
Proof. unfold Equal. cmp. rewrite Z.eqb_eq. destruct d, d2; simpl; naive_solver. Qed.

(** *** Overflow checks *)

Lemma assertMaxBitLen_Ok x u : assertMaxBitLen x = Ok u ↔ big.BitLen x ≤ maxDecBitLen.
Proof.
  unfold assertMaxBitLen. destruct u. destruct (Z.ltb_spec maxDecBitLen (big.BitLen x)).
  - split; [done|lia].
  - done.
Qed.

Lemma ret_checked_Ok x r : ret_checked x = Ok r ↔ r = mk x ∧ big.BitLen x ≤ maxDecBitLen.
Proof.
  unfold ret_checked. rewrite bind_Ok. setoid_rewrite assertMaxBitLen_Ok.
  split; [intros (u & ? & [= <-]); done | intros [-> ?]; by exists tt].
Qed.

Lemma ret_checked_ok x : big.BitLen x ≤ maxDecBitLen → ret_checked x = Ok (mk x).
Proof. intros. by apply ret_checked_Ok. Qed.

(** *** Bankers rounding *)

(** [q] is [d / p] rounded to the nearest integer, ties to even. *)
Definition half_even (p d q : Z) : Prop :=
  2 * Z.abs (p * q - d) ≤ p ∧ (2 * Z.abs (p * q - d) = p → Z.Even q).

Lemma half_even_unique p d q q' :
  0 < p → half_even p d q → half_even p d q' → q = q'.
Proof.
  intros Hp [H1 E1] [H2 E2].
  assert (q = q' ∨ q = q' + 1 ∨ q' = q + 1) as [|[->| ->]] by nia; [done| |].
  - destruct E1 as [a Ha]; [nia|]. destruct E2 as [b Hb]; [nia|]. lia.
  - destruct E1 as [a Ha]; [nia|]. destruct E2 as [b Hb]; [nia|]. lia.
Qed.

Lemma half_even_mono p d d' q q' :
  0 < p → half_even p d q → half_even p d' q' → d ≤ d' → q ≤ q'.
Proof.
  intros Hp [H1 E1] [H2 E2] Hd. destruct (Z.le_gt_cases q q') as [|Hlt]; [done|].
  assert (q = q' + 1) as -> by nia. assert (d = d') as -> by nia.
  destruct E1 as [a Ha]; [nia|]. destruct E2 as [b Hb]; [nia|]. lia.
Qed.

Lemma half_even_opp p d q : half_even p d q → half_even p (- d) (- q).
Proof.
  unfold half_even. intros [H E].
  replace (p * - q - - d) with (- (p * q - d)) by lia. rewrite Z.abs_opp.
  split; [done|]. intros Ht. destruct (E Ht) as [a ->]. exists (- a). lia.
Qed.

(** A multiple of the precision is not changed by rounding. *)
Lemma half_even_exact p q : 0 < p → half_even p (p * q) q.
Proof. intros. unfold half_even. rewrite Z.sub_diag. simpl. split; [lia|lia]. Qed.

Lemma chop_nonneg_spec p five d :
  0 < five → p = 2 * five → 0 ≤ d → half_even p d (chop_nonneg p five d).
Proof.
  intros Hf -> Hd. unfold chop_nonneg. cmp.
  pose proof (quot_rem_eq (2 * five) ltac:(lia) d) as Heq.
  pose proof (Z.rem_bound_pos d (2 * five) Hd ltac:(lia)) as Hr.
  unfold half_even. zcases; try (split; lia).
  rewrite Z.bit0_odd. destruct (Z.odd (Z.quot d (2 * five))) eqn:Eo.
  - split; [lia|]. intros _. apply Z.odd_spec in Eo as [a Ha]. exists (a + 1). lia.
  - split; [lia|]. intros _. rewrite <- Z.negb_even in Eo. apply Z.even_spec.
    by destruct (Z.even _).
Qed.

Lemma chop_round_spec d : half_even P d (chopPrecisionAndRound d).
Proof.
  unfold chopPrecisionAndRound. cmp. zcases.
  - replace d with (- - d) at 1 by lia. apply half_even_opp, chop_nonneg_spec; try done; lia.
  - by apply chop_nonneg_spec.
Qed.

Lemma chop_round_sdk_spec d : half_even PD d (chopPrecisionAndRoundSdkDec d).
Proof.
  unfold chopPrecisionAndRoundSdkDec. cmp. zcases.
  - replace d with (- - d) at 1 by lia. apply half_even_opp, chop_nonneg_spec; try done; lia.
  - by apply chop_nonneg_spec.
Qed.

Lemma chop_round_mono d d' : d ≤ d' → chopPrecisionAndRound d ≤ chopPrecisionAndRound d'.
Proof. intros. apply (half_even_mono P d d'); auto using chop_round_spec, P_pos. Qed.

Lemma chop_round_exact q : chopPrecisionAndRound (P * q) = q.
Proof. apply (half_even_unique P (P * q)); [done|apply chop_round_spec|by apply half_even_exact]. Qed.

(** *** Directed rounding *)

(** [q] is the least integer with [d ≤ p * q]. *)
Definition is_ceil (p d q : Z) : Prop := d ≤ p * q < d + p.
(** [q] is the greatest integer with [p * q ≤ d]. *)
Definition is_floor (p d q : Z) : Prop := p * q ≤ d < p * q + p.
(** [q] is [d / p] rounded towards zero. *)
Definition is_trunc (p d q : Z) : Prop := if 0 <=? d then is_floor p d q else is_ceil p d q.

Lemma quot_is_trunc p d : 0 < p → is_trunc p d (Z.quot d p).
Proof.
  intros Hp. destruct (quot_bounds p Hp d). unfold is_trunc, is_floor, is_ceil. zcases; lia.
Qed.

Lemma is_trunc_floor p d q : 0 ≤ d → is_trunc p d q → is_floor p d q.
Proof. unfold is_trunc. zcases; [done|lia]. Qed.

(** [incBasedOnRem] after a division of a non-negative number is the ceiling. *)
Lemma inc_is_ceil p d : 0 < p → 0 ≤ d → is_ceil p d (incBasedOnRem (Z.rem d p) (Z.quot d p)).
Proof.
  intros Hp Hd. unfold incBasedOnRem, is_ceil. cmp.
  pose proof (quot_rem_eq p Hp d). pose proof (Z.rem_bound_pos d p Hd Hp). zcases; lia.
Qed.

Lemma round_up_is_ceil p d : 0 < p → is_ceil p d (chopPrecisionAndRoundUpMut d p).
Proof.
  intros Hp. unfold chopPrecisionAndRoundUpMut. cmp. zcases; [|by apply inc_is_ceil].
  unfold chopPrecisionAndTruncateMut.
  destruct (quot_bounds p Hp (- d)) as [H1 _]. unfold is_ceil. specialize (H1 ltac:(lia)). lia.
Qed.

Lemma is_ceil_nonneg p d q : 0 < p → 0 ≤ d → is_ceil p d q → 0 ≤ q.
Proof. unfold is_ceil. nia. Qed.
Lemma is_floor_nonneg p d q : 0 < p → 0 ≤ d → is_floor p d q → 0 ≤ q.
Proof. unfold is_floor. nia. Qed.

#[export] Hint Resolve chop_round_spec chop_round_sdk_spec quot_is_trunc inc_is_ceil
  round_up_is_ceil : decimal.

(** *** The operations *)

(** [run_ops] opens an operation that returned normally down to its rounded integer. *)
Ltac run_ops := inv_ok;
  repeat match goal with
  | H : ret_checked _ = Ok _ |- _ => apply ret_checked_Ok in H as [-> ?]
  | H : big.Quo _ _ = Ok _ |- _ => apply big.Quo_Ok in H as [? ->]
  | H : big.QuoRem _ _ = Ok _ |- _ => apply big.QuoRem_Ok in H as [? ->]
  end; cbn [i fst snd] in *.

Lemma Add_spec d d2 r : Add d d2 = Ok r → i r = i d + i d2.
Proof. unfold Add, AddMut. intros. by run_ops. Qed.
Lemma AddMut_spec d d2 r : AddMut d d2 = Ok r → i r = i d + i d2.
Proof. unfold AddMut. intros. by run_ops. Qed.
Lemma Sub_spec d d2 r : Sub d d2 = Ok r → i r = i d - i d2.
Proof. unfold Sub, SubMut. intros. by run_ops. Qed.
Lemma MulMut_spec d d2 r : MulMut d d2 = Ok r → half_even P (i d * i d2) (i r).
Proof. unfold MulMut. intros. run_ops. apply chop_round_spec. Qed.
Lemma Mul_spec d d2 r : Mul d d2 = Ok r → half_even P (i d * i d2) (i r).
Proof. apply MulMut_spec. Qed.
Lemma MulDecMut_spec d d2 r : MulDecMut d d2 = Ok r → half_even PD (i d * Dec.i d2) (i r).
Proof. unfold MulDecMut. intros. run_ops. apply chop_round_sdk_spec. Qed.
Lemma MulTruncate_spec d d2 r : MulTruncate d d2 = Ok r → is_trunc P (i d * i d2) (i r).
Proof. unfold MulTruncate. intros. run_ops. by apply quot_is_trunc. Qed.
Lemma MulTruncateDec_spec d d2 r :
  MulTruncateDec d d2 = Ok r → is_trunc PD (i d * Dec.i d2) (i r).
Proof. unfold MulTruncateDec. intros. run_ops. by apply quot_is_trunc. Qed.
Lemma MulRoundUp_spec d d2 r : MulRoundUp d d2 = Ok r → is_ceil P (i d * i d2) (i r).
Proof. unfold MulRoundUp. intros. run_ops. by apply round_up_is_ceil. Qed.
Lemma MulRoundUpDec_spec d d2 r :
  MulRoundUpDec d d2 = Ok r → is_ceil PD (i d * Dec.i d2) (i r).
Proof. unfold MulRoundUpDec. intros. run_ops. by apply round_up_is_ceil. Qed.

(** Divisions, on the range the exchange uses them: non-negative dividend, positive divisor. *)
Section quotients.
  Context (d : t) (Hd : 0 ≤ i d).

Lemma QuoTruncate_spec d2 r :
  0 < i d2 → QuoTruncate d d2 = Ok r → is_floor (i d2) (i d * P) (i r).
Proof using Hd.
  unfold QuoTruncate. intros. run_ops. pose proof P_pos.
  apply is_trunc_floor; [nia|by apply quot_is_trunc].
Qed.
Lemma QuoTruncateMut_spec d2 r :
  0 < i d2 → QuoTruncateMut d d2 = Ok r → is_floor (i d2) (i d * P) (i r).
Proof using Hd. apply QuoTruncate_spec. Qed.
Lemma QuoTruncateDec_spec d2 r :
  0 < Dec.i d2 → QuoTruncateDec d d2 = Ok r → is_floor (Dec.i d2) (i d * PD) (i r).
Proof using Hd.
  unfold QuoTruncateDec. intros. run_ops. pose proof PD_pos.
  apply is_trunc_floor; [nia|by apply quot_is_trunc].
Qed.
Lemma pos_rem_is_ceil p x :
  0 < p → 0 ≤ x →
  is_ceil p x (if 0 <? big.Sign (Z.rem x p) then Z.quot x p + 1 else Z.quot x p).
Proof.
  intros Hp Hx. pose proof (inc_is_ceil p x Hp Hx) as Hc. unfold incBasedOnRem in Hc.
  pose proof (Z.rem_bound_pos x p Hx Hp). cmp.
  destruct (Z.ltb_spec 0 (Z.rem x p)), (Z.eqb_spec (Z.rem x p) 0); try done; lia.
Qed.
Lemma QuoRoundUp_spec d2 r :
  0 < i d2 → QuoRoundUp d d2 = Ok r → is_ceil (i d2) (i d * P) (i r).
Proof using Hd.
  unfold QuoRoundUp. intros. run_ops. apply pos_rem_is_ceil; [done|]. pose proof P_pos. nia.
Qed.
Lemma QuoByDecRoundUp_spec d2 r :
  0 < Dec.i d2 → QuoByDecRoundUp d d2 = Ok r → is_ceil (Dec.i d2) (i d * PD) (i r).
Proof using Hd.
  unfold QuoByDecRoundUp. intros. run_ops. apply pos_rem_is_ceil; [done|]. pose proof PD_pos. nia.
Qed.
Lemma QuoRoundUpMut_spec d2 r :
  0 < i d2 → QuoRoundUpMut d d2 = Ok r → is_ceil (i d2) (i d * P) (i r).
Proof using Hd.
  unfold QuoRoundUpMut. intros. run_ops. apply inc_is_ceil; [done|]. pose proof P_pos. nia.
Qed.
Lemma QuoRoundUpNextIntMut_spec d2 r :
  0 < i d2 → QuoRoundUpNextIntMut d d2 = Ok r →
  ∃ q, i r = q * P ∧ is_ceil (i d2) (i d) q.
Proof using Hd.
  unfold QuoRoundUpNextIntMut. intros. run_ops. eexists; split; [done|]. by apply inc_is_ceil.
Qed.
End quotients.

(** [Quo] divides with 72 digits, truncates, and rounds the result: the two roundings leave the
    result within half a unit plus 10^-36 of a unit of the exact quotient. *)
Lemma QuoMut_spec d d2 r :
  QuoMut d d2 = Ok r → i d2 ≠ 0 ∧ 2 * P * Z.abs (i r * i d2 - i d * P) ≤ (P + 2) * Z.abs (i d2).
Proof.
  unfold QuoMut. intros. run_ops. split; [done|]. rewrite P_squared.
  set (t := Z.quot (i d * (P * P)) (i d2)).
  destruct (chop_round_spec t) as [Hq _]. set (q := chopPrecisionAndRound t) in *.
  assert (Ht : Z.abs (i d * (P * P) - t * i d2) < Z.abs (i d2)).
  { replace (i d * (P * P) - t * i d2) with (Z.rem (i d * (P * P)) (i d2)).
    - by apply Z.rem_bound_abs.
    - pose proof (Z.quot_rem (i d * (P * P)) (i d2) ltac:(done)). unfold t. lia. }
  assert (He : P * Z.abs (q * i d2 - i d * P)
    ≤ Z.abs (P * q - t) * Z.abs (i d2) + Z.abs (i d * (P * P) - t * i d2)).
  { rewrite <- (Z.abs_eq P) at 1 by done. rewrite <- !Z.abs_mul.
    replace (P * (q * i d2 - i d * P)) with ((P * q - t) * i d2 - (i d * (P * P) - t * i d2))
      by ring.
    rewrite <- (Z.abs_opp (i d * (P * P) - t * i d2)). rewrite <- Z.add_opp_r. apply Z.abs_triangle. }
  nia.
Qed.
Lemma Quo_spec d d2 r :
  Quo d d2 = Ok r → i d2 ≠ 0 ∧ 2 * P * Z.abs (i r * i d2 - i d * P) ≤ (P + 2) * Z.abs (i d2).
Proof. apply QuoMut_spec. Qed.

(** *** Conversions *)

Lemma NewBigDec_eq n : NewBigDec n = Ok (mk (n * P)). Proof. done. Qed.
Lemma BigDecFromDec_eq d :
  BigDecFromDec d = Ok (mk (Dec.i d * bigDecDecPrecisionFactorDiff)).
Proof. done. Qed.
Lemma BigDecFromDecMut_eq d :
  BigDecFromDecMut d = Ok (mk (Dec.i d * bigDecDecPrecisionFactorDiff)).
Proof. done. Qed.
Lemma BigDecFromSDKInt_eq n : BigDecFromSDKInt n = Ok (mk (SdkInt.i n * P)). Proof. done. Qed.

Lemma ToDec_spec d : 0 ≤ i d → is_floor bigDecDecPrecisionFactorDiff (i d) (Dec.i (ToDec d)).
Proof. intros. apply is_trunc_floor; [done|]. by apply quot_is_trunc. Qed.
Lemma DecRoundUp_spec d : 0 ≤ i d → is_ceil bigDecDecPrecisionFactorDiff (i d) (Dec.i (DecRoundUp d)).
Proof. intros. by apply inc_is_ceil. Qed.

Lemma CeilMut_spec d r : CeilMut d = Ok r → ∃ q, i r = q * P ∧ is_ceil P (i d) q.
Proof.
  unfold CeilMut. rewrite Sign_nonpos.
  pose proof (quot_rem_eq P P_pos (i d)) as Heq.
  pose proof (quot_is_trunc P (i d) P_pos) as Ht. unfold is_trunc, is_floor, is_ceil in *.
  destruct (Z.leb_spec (Z.rem (i d) P) 0); intros [= <-]; eexists; (split; [reflexivity|]);
    destruct (Z.leb_spec 0 (i d)); lia.
Qed.
End BigDecFacts.
