(* ===== verification/DecimalText.v ===== *)
(** Decimal text: [NewBigDecFromStr], [String], [Marshal] and [Unmarshal] of osmomath/decimal.go.

    A Go string is a list of characters.  [big.Int.MarshalText] and [SetString] in base 10 are
    the standard library's decimal printer and reader. *)
From stdpp Require Import prelude strings list.
From Stdlib Require Import Ascii.
From S2P Require Import Prelude.
From S2P Require Import GoBig.
From S2P Require Import Int.
From S2P Require Import Decimal.
Local Open Scope Z_scope.

Module BigText.
Abbreviation chars := (list ascii).

Definition digit (d : Z) : ascii := ascii_of_nat (48 + Z.to_nat d).
Definition digit_val (c : ascii) : option Z :=
  let n := Z.of_nat (nat_of_ascii c) in
  if (48 <=? n) && (n <=? 57) then Some (n - 48) else None.

(** Decimal digits of a non-negative number, most significant first; the fuel bounds the number
    of digits after the first. *)
Fixpoint digits (fuel : nat) (n : Z) : chars :=
  match fuel with
  | O => [digit n]
  | S f => if n <? 10 then [digit n] else digits f (n / 10) ++ [digit (n mod 10)]
  end.

(** [MarshalText]: base-10 text with a leading minus sign for negative numbers.  A number of
    [b] bits has at most [b] decimal digits. *)
Definition MarshalText (x : Z) : chars :=
  let ds := digits (Z.to_nat (big.BitLen x)) (Z.abs x) in
  if x <? 0 then "-"%char :: ds else ds.

Fixpoint parse_digits (acc : Z) (s : chars) : option Z :=
  match s with
  | [] => Some acc
  | c :: s => match digit_val c with Some d => parse_digits (acc * 10 + d) s | None => None end
  end.
Definition parse_nonempty (s : chars) : option Z :=
  match s with [] => None | _ => parse_digits 0 s end.

(** [SetString(s, 10)]: an optional sign, then at least one decimal digit and nothing else. *)
Definition SetString (s : chars) : option Z :=
  match s with
  | c :: r => if bool_decide (c = "-"%char) then Z.opp <$> parse_nonempty r
              else if bool_decide (c = "+"%char) then parse_nonempty r
              else parse_nonempty s
  | [] => None
  end.

(** [strings.Split(s, sep)] for a separator of one character. *)
Fixpoint Split (sep : ascii) (s : chars) : list chars :=
  match s with
  | [] => [[]]
  | c :: s => if bool_decide (c = sep) then [] :: Split sep s
              else match Split sep s with [] => [[c]] | w :: ws => (c :: w) :: ws end
  end.

(** Fewer than 2^b < 10^(b+1): the fuel of [MarshalText] suffices. *)
Lemma digit_val_digit d : 0 ≤ d < 10 → digit_val (digit d) = Some d.
Proof.
  intros H. assert (d = 0 ∨ d = 1 ∨ d = 2 ∨ d = 3 ∨ d = 4 ∨ d = 5 ∨ d = 6 ∨ d = 7 ∨ d = 8 ∨ d = 9)
    as Hd by lia.
  by repeat destruct Hd as [-> | Hd]; [vm_compute..|subst; vm_compute].
Qed.

Lemma digit_not_special d : 0 ≤ d < 10 →
  digit d ≠ "."%char ∧ digit d ≠ "-"%char ∧ digit d ≠ "+"%char.
Proof.
  intros H. pose proof (digit_val_digit d H) as Hv.
  repeat split; intros Heq; rewrite Heq in Hv; vm_compute in Hv; discriminate.
Qed.

(** A character is a decimal digit. *)
Definition is_digit (c : ascii) : Prop := ∃ d, 0 ≤ d < 10 ∧ c = digit d.

#[global] Arguments digit : simpl never.
#[global] Arguments digit_val : simpl never.

Lemma div10_bound f n : 0 ≤ n < 10 ^ (Z.of_nat (S f) + 1) → 0 ≤ n / 10 < 10 ^ (Z.of_nat f + 1).
Proof.
  intros Hn. split; [apply Z.div_pos; lia|]. apply Z.div_lt_upper_bound; [lia|].
  rewrite <- Z.pow_succ_r by lia. replace (Z.succ (Z.of_nat f + 1)) with (Z.of_nat (S f) + 1) by lia. lia.
Qed.

Lemma digits_are_digits fuel n : 0 ≤ n < 10 ^ (Z.of_nat fuel + 1) → Forall is_digit (digits fuel n).
Proof.
  revert n. induction fuel as [|f IH]; intros n Hn; simpl digits.
  - constructor; [|done]. by exists n.
  - destruct (Z.ltb_spec n 10).
    + constructor; [|done]. exists n. split; [lia|done].
    + apply Forall_app; split.
      * by apply IH, div10_bound.
      * constructor; [|done]. exists (n mod 10). split; [by apply Z.mod_pos_bound|done].
Qed.

Lemma parse_app acc s1 s2 :
  parse_digits acc (s1 ++ s2) = parse_digits acc s1 ≫= λ a, parse_digits a s2.
Proof. revert acc. induction s1 as [|c s1 IH]; intros acc; simpl; [done|]. by destruct (digit_val c). Qed.

Lemma digits_nonempty fuel n : digits fuel n ≠ [].
Proof. destruct fuel; simpl; [done|]. case_match; [done|]. by destruct (digits fuel _). Qed.

Lemma parse_one acc d :
  0 ≤ d < 10 → parse_digits acc [digit d] = Some (acc * 10 ^ Z.of_nat (length [digit d]) + d).
Proof.
  intros H. cbn [parse_digits]. rewrite digit_val_digit by done.
  change (10 ^ Z.of_nat (length [digit d])) with 10. done.
Qed.

Lemma parse_digits_text fuel n acc :
  0 ≤ n < 10 ^ (Z.of_nat fuel + 1) →
  parse_digits acc (digits fuel n) = Some (acc * 10 ^ Z.of_nat (length (digits fuel n)) + n).
Proof.
  revert n acc. induction fuel as [|f IH]; intros n acc Hn; simpl digits.
  - change (10 ^ (Z.of_nat 0 + 1)) with 10 in Hn. by apply parse_one.
  - destruct (Z.ltb_spec n 10); [apply parse_one; lia|].
    rewrite parse_app, IH by (by apply div10_bound). cbn [mbind option_bind].
    rewrite parse_one by (by apply Z.mod_pos_bound). f_equal.
    rewrite length_app, Nat2Z.inj_add, Z.pow_add_r by lia.
    change (10 ^ Z.of_nat (length [_])) with 10.
    pose proof (Z.div_mod n 10 ltac:(lia)). lia.
Qed.

Lemma parse_zeros k acc : parse_digits acc (replicate k "0"%char) = Some (acc * 10 ^ Z.of_nat k).
Proof.
  revert acc. induction k as [|k IH]; intros acc.
  { change (10 ^ Z.of_nat 0) with 1. cbn [replicate parse_digits]. f_equal. lia. }
  cbn [replicate parse_digits]. change (digit_val "0") with (Some 0). cbn match.
  rewrite IH. f_equal.
  rewrite Nat2Z.inj_succ, Z.pow_succ_r by lia. lia.
Qed.

Lemma parse_nonempty_digits s : s ≠ [] → parse_nonempty s = parse_digits 0 s.
Proof. by destruct s. Qed.

(** Splitting a text at a separator. *)
Lemma Split_no_sep sep s : Forall (λ c, c ≠ sep) s → Split sep s = [s].
Proof.
  induction 1 as [|c s Hc Hs IH]; [done|]. cbn [Split]. by rewrite bool_decide_false, IH.
Qed.
Lemma Split_sep sep a b :
  Forall (λ c, c ≠ sep) a → Split sep (a ++ sep :: b) = a :: Split sep b.
Proof.
  intros Ha. induction Ha as [|c a Hc Ha IH]; cbn [Split app].
  - by rewrite bool_decide_true.
  - by rewrite bool_decide_false, IH.
Qed.

Lemma is_digit_not_dot c : is_digit c → c ≠ "."%char.
Proof. intros (d & Hd & ->). by apply digit_not_special. Qed.
Lemma digits_no_dot s : Forall is_digit s → Forall (λ c, c ≠ "."%char) s.
Proof. intros H. eapply Forall_impl; [done|]. apply is_digit_not_dot. Qed.

Lemma SetString_digits s : s ≠ [] → Forall is_digit s → SetString s = parse_digits 0 s.
Proof.
  intros Hne H. destruct H as [|c s (d & Hd & ->) H]; [done|].
  destruct (digit_not_special d Hd) as (_ & H1 & H2). cbn [SetString].
  by rewrite !bool_decide_false.
Qed.

Lemma text_fuel x : 0 ≤ Z.abs x < 10 ^ (Z.of_nat (Z.to_nat (big.BitLen x)) + 1).
Proof.
  pose proof (big.BitLen_nonneg x). rewrite Z2Nat.id by done.
  assert (Z.abs x < 2 ^ big.BitLen x) by (apply big.BitLen_le; lia).
  assert (2 ^ big.BitLen x ≤ 10 ^ big.BitLen x) by (apply Z.pow_le_mono_l; lia).
  rewrite Z.pow_add_r by lia. lia.
Qed.
End BigText.

Module BigDecText.
Import BigDec BigText.

(** [NewBigDecFromStr]: sign, split at the point, pad with zeros to 36 decimals, read the
    digits.  The result must fit in [maxBitLen] bits, which is less than [maxDecBitLen]. *)
Definition NewBigDecFromStr (str : chars) : outcome t :=
  match str with
  | [] => Err "decimal string cannot be empty"
  | c :: r =>
    let neg := bool_decide (c = "-"%char) in
    let str := if neg then r else str in
    match str with
    | [] => Err "decimal string cannot be empty"
    | _ =>
      let strs := Split "." str in
      let finish combinedStr lenDecs :=
        if BigDecPrecision <? lenDecs then Err "invalid precision"
        else
          let zeros := replicate (Z.to_nat (BigDecPrecision - lenDecs)) "0"%char in
          match SetString (combinedStr ++ zeros) with
          | None => Err "failed to set decimal string"
          | Some combined =>
            if BigInt.maxBitLen <? big.BitLen combined then Err "decimal out of range"
            else Ok (mk (if neg then - combined else combined))
          end in
      match strs with
      | [w; f] =>
        if bool_decide (f = []) || bool_decide (w = []) then Err "invalid decimal length"
        else finish (w ++ f) (Z.of_nat (length f))
      | [w] => finish w 0
      | _ => Err "invalid decimal string"
      end
    end
  end.

Definition MustNewBigDecFromStr (s : chars) : outcome t :=
  match NewBigDecFromStr s with Err e => Panic e | r => r end.

(** [String]: at least one digit before the point and always 36 after it. *)
Definition String (d : t) : chars :=
  let isNeg := IsNegative d in
  let d := if isNeg then Neg d else d in
  let bzInt := MarshalText (i d) in
  let inputSize := length bzInt in
  let bzStr :=
    if Z.of_nat inputSize <=? BigDecPrecision then
      "0"%char :: "."%char ::
        replicate (Z.to_nat BigDecPrecision - inputSize) "0"%char ++ bzInt
    else
      let decPointPlace := (inputSize - Z.to_nat BigDecPrecision)%nat in
      take decPointPlace bzInt ++ "."%char :: drop decPointPlace bzInt in
  if isNeg then "-"%char :: bzStr else bzStr.

(** Binary form: [Marshal] prints the underlying integer, [Unmarshal] reads it back. *)
Definition Marshal (d : t) : chars := MarshalText (i d).
Definition Unmarshal (data : chars) : outcome t :=
  match SetString data with
  | None => Err "math/big: cannot unmarshal"
  | Some x => if BigInt.maxBitLen <? big.BitLen x then Err "decimal out of range" else Ok (mk x)
  end.
Definition Size (d : t) : Z := Z.of_nat (length (Marshal d)).

Lemma MarshalText_digits x :
  0 ≤ x → MarshalText x ≠ [] ∧ Forall is_digit (MarshalText x) ∧
          ∀ acc, parse_digits acc (MarshalText x) =
                 Some (acc * 10 ^ Z.of_nat (length (MarshalText x)) + x).
Proof.
  intros Hx. unfold MarshalText. rewrite (proj2 (Z.ltb_ge x 0)) by done.
  pose proof (text_fuel x) as Hf. rewrite Z.abs_eq in * by done.
  split; [apply digits_nonempty|split; [by apply digits_are_digits|]].
  intros acc. by apply parse_digits_text.
Qed.

Lemma MarshalText_inj n m : 0 ≤ n → 0 ≤ m → MarshalText n = MarshalText m → n = m.
Proof.
  intros Hn Hm H. destruct (MarshalText_digits n Hn) as (_ & _ & Pn).
  destruct (MarshalText_digits m Hm) as (_ & _ & Pm).
  specialize (Pn 0). specialize (Pm 0). rewrite H in Pn. rewrite Pm in Pn. injection Pn. lia.
Qed.

(** The text between the sign and the end, for a non-negative underlying integer. *)
Definition body (x : Z) : chars :=
  let bzInt := MarshalText x in
  let inputSize := length bzInt in
  if Z.of_nat inputSize <=? BigDecPrecision then
    "0"%char :: "."%char :: replicate (Z.to_nat BigDecPrecision - inputSize) "0"%char ++ bzInt
  else
    let decPointPlace := (inputSize - Z.to_nat BigDecPrecision)%nat in
    take decPointPlace bzInt ++ "."%char :: drop decPointPlace bzInt.

(** The body is a non-empty word, a point and 36 digits which together read back as [x]. *)
Lemma body_split x : 0 ≤ x → ∃ w f,
  body x = w ++ "."%char :: f ∧ w ≠ [] ∧ length f = 36%nat ∧
  Forall is_digit w ∧ Forall is_digit f ∧ parse_digits 0 (w ++ f) = Some x.
Proof.
  intros Hx. destruct (MarshalText_digits x Hx) as (Hne & Hd & Hp). unfold body.
  set (bz := MarshalText x) in *.
  assert (is_digit "0") as Hz by (exists 0; split; [lia|done]).
  destruct (Z.leb_spec (Z.of_nat (length bz)) BigDecPrecision) as [Hl|Hl];
    unfold BigDecPrecision in Hl; change (Z.to_nat BigDecPrecision) with 36%nat.
  - exists ["0"%char], (replicate (36 - length bz) "0"%char ++ bz).
    split; [done|]. split; [done|].
    split; [rewrite length_app, length_replicate; lia|].
    split; [by constructor|].
    split; [apply Forall_app; split; [by apply Forall_replicate|done]|].
    change (["0"%char] ++ replicate (36 - length bz) "0"%char ++ bz)
      with (replicate (S (36 - length bz)) "0"%char ++ bz).
    rewrite parse_app, parse_zeros. cbn [mbind option_bind]. rewrite Hp. f_equal; lia.
  - exists (take (length bz - 36) bz), (drop (length bz - 36) bz).
    split; [done|]. split.
    { intros E. apply (f_equal length) in E. rewrite length_take in E. cbn [length] in E. lia. }
    split; [rewrite length_drop; lia|].
    split; [by apply Forall_take|]. split; [by apply Forall_drop|].
    rewrite take_drop, Hp. f_equal; lia.
Qed.

Lemma parse_body (x : Z) (neg : bool) (str : chars) :
  0 ≤ x → str = (if neg then "-"%char :: body x else body x) →
  NewBigDecFromStr str =
    if BigInt.maxBitLen <? big.BitLen x then Err "decimal out of range"
    else Ok (mk (if neg then - x else x)).
Proof.
  intros Hx ->. destruct (body_split x Hx) as (w & f & Hb & Hw & Hf & Dw & Df & Hp).
  rewrite Hb. destruct w as [|c w]; [done|]. inversion Dw as [|? ? (dc & Hdc & Ec)]; subst.
  destruct (digit_not_special dc Hdc) as (_ & Hm & _).
  assert (Hs : Split "." ((digit dc :: w) ++ "."%char :: f) = [digit dc :: w; f])
    by (rewrite Split_sep, Split_no_sep; [done|by apply digits_no_dot..]).
  assert (HS : SetString ((digit dc :: w) ++ f) = Some x).
  { rewrite SetString_digits; [done|done|]. by apply Forall_app. }
  assert (f ≠ []) as Hfn by (intros ->; done).
  unfold NewBigDecFromStr. destruct neg; cbn [app];
    [rewrite bool_decide_true by done | rewrite bool_decide_false by done];
    rewrite <- app_comm_cons in Hs; rewrite Hs;
    rewrite !bool_decide_false by done; cbn [orb];
    rewrite Hf; change (BigDecPrecision <? Z.of_nat 36) with false; cbn match;
    change (Z.to_nat (BigDecPrecision - Z.of_nat 36)) with 0%nat; cbn [replicate];
    rewrite app_nil_r, HS; done.
Qed.

Lemma String_body d :
  String d = if IsNegative d then "-"%char :: body (- i d) else body (i d).
Proof. unfold String. destruct (IsNegative d); done. Qed.

(** Printing and reading back: [NewBigDecFromStr (d.String())] gives [d] back for every
    decimal whose integer fits in 1024 bits, and fails with the range error for the wider values
    which arithmetic still produces (up to [maxDecBitLen] = 1144 bits). *)
Theorem bigdec_string_roundtrip (d : t) :
  NewBigDecFromStr (String d) =
    if BigInt.maxBitLen <? big.BitLen (i d) then Err "decimal out of range" else Ok d.
Proof.
  rewrite String_body. unfold IsNegative, big.Sign.
  destruct (Z.eqb_spec (Z.sgn (i d)) (-1)) as [Hs|Hs].
  - rewrite (parse_body (- i d) true) by (done || lia).
    rewrite big.BitLen_opp, Z.opp_involutive. by destruct d.
  - rewrite (parse_body (i d) false) by (done || lia). by destruct d.
Qed.

(** The binary form round-trips under the same bound. *)
Theorem bigdec_marshal_roundtrip (d : t) :
  Unmarshal (Marshal d) =
    if BigInt.maxBitLen <? big.BitLen (i d) then Err "decimal out of range" else Ok d.
Proof.
  unfold Unmarshal, Marshal.
  assert (SetString (MarshalText (i d)) = Some (i d)) as ->; [|by destruct d].
  destruct (Z.lt_ge_cases (i d) 0) as [Hn|Hn].
  - destruct (MarshalText_digits (- i d) ltac:(lia)) as (Hne & Hd & Hp).
    replace (MarshalText (i d)) with ("-"%char :: MarshalText (- i d)).
    + cbn [SetString]. rewrite bool_decide_true by done. rewrite parse_nonempty_digits by done.
      rewrite Hp. cbn. f_equal; lia.
    + unfold MarshalText. rewrite big.BitLen_opp, Z.abs_opp.
      rewrite (proj2 (Z.ltb_ge (- i d) 0)), (proj2 (Z.ltb_lt (i d) 0)) by lia. done.
  - destruct (MarshalText_digits (i d) Hn) as (Hne & Hd & Hp).
    rewrite SetString_digits, Hp by done. f_equal; lia.
Qed.

(** A second sign after the first is accepted, although the documented form has one at most. *)
Example double_sign_accepted :
  NewBigDecFromStr ["-"%char; "-"%char; "5"%char] = NewBigDecFromStr ["5"%char].
Proof. vm_compute. reflexivity. Qed.
End BigDecText.
