(* ===== verification/DecimalProps.v ===== *)
(** What the 36-digit decimal arithmetic promises: correct rounding, rounding direction, error
    bounds, and where the code's "round up" differs from rounding up. *)
From stdpp Require Import prelude strings list.
From S2P Require Import Prelude.
From S2P Require Import GoBig.
From S2P Require Import Int.
From S2P Require Import SdkDec.
From S2P Require Import Decimal.
From S2P Require Import DecimalFacts.
Local Open Scope Z_scope.
Import BigDec BigDecFacts.

Module BigDecProps.
(** [Mul] is correctly rounded: a returned product is the exact product rounded to the nearest
    36-digit decimal with ties to even, and the call panics exactly when that value needs more
    than 1144 bits. *)
Theorem mul_half_even (d d2 : t) :
  match Mul d d2 with
  | Ok r => half_even P (i d * i d2) (i r) ∧ big.BitLen (i r) ≤ maxDecBitLen
  | Panic _ => ∀ q, half_even P (i d * i d2) q → maxDecBitLen < big.BitLen q
  | Err _ => False
  end.
Proof.
  unfold Mul, MulMut, Clone, ret_checked, assertMaxBitLen. cbn [i].
  pose proof (chop_round_spec (i d * i d2)) as Hc.
  destruct (Z.ltb_spec maxDecBitLen (big.BitLen (chopPrecisionAndRound (i d * i d2))));
    cbn; [|done].
  intros q Hq. by rewrite (half_even_unique P _ _ _ P_pos Hq Hc).
Qed.

(** Directed multiplication brackets the exact product for operands of any sign:
    [MulTruncate] rounds towards zero, [MulRoundUp] up, and they differ by at most one unit in the
    last place. *)
Theorem mul_directed (d d2 lo hi : t) :
  MulTruncate d d2 = Ok lo → MulRoundUp d d2 = Ok hi →
  is_trunc P (i d * i d2) (i lo) ∧ is_ceil P (i d * i d2) (i hi) ∧ i lo ≤ i hi ≤ i lo + 1.
Proof.
  intros Hlo%MulTruncate_spec Hhi%MulRoundUp_spec. split; [done|split; [done|]].
  revert Hlo Hhi. pose proof P_pos. unfold is_trunc, is_floor, is_ceil. case_match; nia.
Qed.

Lemma mul_directed_witness :
  is_trunc P (-3 * 5) 0 ∧ is_ceil P (-3 * 5) 0 ∧ 0 ≤ 0 ≤ 0 + 1.
Proof. refine (mul_directed (mk (-3)) (mk 5) (mk 0) (mk 0) _ _); vm_compute; reflexivity. Defined.

(** [Quo] is accurate to half a unit in the last place plus 10^-36 of a unit, whatever the
    signs, and fails only on a zero divisor or on overflow. *)
Theorem quo_accuracy (d d2 : t) :
  match Quo d d2 with
  | Ok r => i d2 ≠ 0 ∧ 2 * P * Z.abs (i r * i d2 - i d * P) ≤ (P + 2) * Z.abs (i d2)
  | Panic e => (e = "division by zero" ∧ i d2 = 0) ∨ (e = "Int overflow" ∧ i d2 ≠ 0)
  | Err _ => False
  end.
Proof.
  destruct (Quo d d2) as [r|e|e] eqn:E.
  - by apply Quo_spec.
  - revert E. unfold Quo, QuoMut, big.Quo, ret_checked, assertMaxBitLen.
    destruct (Z.eqb_spec (i d2) 0); cbn; [done|]. by case_match.
  - revert E. unfold Quo, QuoMut, big.Quo, ret_checked, assertMaxBitLen, Clone. cbn [i].
    destruct (Z.eqb_spec (i d2) 0) as [Hz|Hz]; cbn; [intros [= <-]; by left|].
    case_match; intros [= <-]; by right.
Qed.

(** For a non-negative dividend and a positive divisor the truncating and the rounding-up
    divisions bracket the exact quotient: [QuoTruncate] is its floor, [QuoRoundUp] and
    [QuoRoundUpMut] both its ceiling. *)
Theorem quo_directed (d d2 lo hi : t) :
  0 ≤ i d → 0 < i d2 →
  QuoTruncate d d2 = Ok lo → QuoRoundUp d d2 = Ok hi →
  is_floor (i d2) (i d * P) (i lo) ∧ is_ceil (i d2) (i d * P) (i hi) ∧
  QuoRoundUpMut d d2 = Ok hi.
Proof.
  intros Hd H2 Hlo Hhi. split; [by eapply QuoTruncate_spec|].
  split; [by eapply QuoRoundUp_spec|]. rewrite <- Hhi.
  unfold QuoRoundUp, QuoRoundUpMut, incBasedOnRem.
  destruct (big.QuoRem (i d * P) (i d2)) as [[q rem]|?|?] eqn:E; [|done..].
  apply big.QuoRem_Ok in E as [_ [= -> ->]]. cbn.
  pose proof (Z.rem_bound_pos (i d * P) (i d2) ltac:(pose proof P_pos; nia) H2).
  cmp. destruct (Z.ltb_spec 0 (Z.rem (i d * P) (i d2))), (Z.eqb_spec (Z.rem (i d * P) (i d2)) 0);
    try done; lia.
Qed.

Lemma quo_directed_witness :
  is_floor 3 P 333333333333333333333333333333333333 ∧
  is_ceil 3 P 333333333333333333333333333333333334.
Proof.
  destruct (quo_directed (mk 1) (mk 3) (mk 333333333333333333333333333333333333)
              (mk 333333333333333333333333333333333334)) as (H1 & H2 & _);
    [vm_compute; discriminate|vm_compute; reflexivity|vm_compute; reflexivity
    |vm_compute; reflexivity|].
  rewrite Z.mul_1_l in H1, H2. split; [exact H1|exact H2].
Defined.

(** For a negative dividend the two "round up" divisions disagree: when the quotient is not
    exact, [QuoRoundUp] is still the ceiling, while [QuoRoundUpMut] (which adds one on any
    non-zero remainder) is one unit above it. *)
Theorem quo_round_up_mut_negative (d d2 r r' : t) :
  i d < 0 → 0 < i d2 → Z.rem (i d * P) (i d2) ≠ 0 →
  QuoRoundUp d d2 = Ok r → QuoRoundUpMut d d2 = Ok r' →
  is_ceil (i d2) (i d * P) (i r) ∧ i r' = i r + 1.
Proof.
  intros Hd H2 Hr. unfold QuoRoundUp, QuoRoundUpMut, incBasedOnRem. intros H H'. run_ops.
  assert (i d * P < 0) as Hneg by (pose proof P_pos; nia).
  pose proof (Z.rem_nonpos (i d * P) (i d2) ltac:(lia) ltac:(lia)) as Hle.
  pose proof (quot_is_trunc (i d2) (i d * P) H2) as Ht. unfold is_trunc in Ht.
  rewrite (proj2 (Z.leb_gt 0 (i d * P))) in Ht by done.
  cmp. rewrite (proj2 (Z.ltb_ge _ _)), (proj2 (Z.eqb_neq _ _)) by done. done.
Qed.

Lemma quo_round_up_mut_negative_witness :
  QuoRoundUp (mk (-1)) (mk 3) = Ok (mk (-333333333333333333333333333333333333)) ∧
  ∃ r', QuoRoundUpMut (mk (-1)) (mk 3) = Ok r' ∧ i r' = -333333333333333333333333333333333332.
Proof.
  split; [vm_compute; reflexivity|].
  exists (mk (-333333333333333333333333333333333332)). split; [vm_compute; reflexivity|].
  refine (proj2 (quo_round_up_mut_negative (mk (-1)) (mk 3) (mk (-333333333333333333333333333333333333))
    (mk (-333333333333333333333333333333333332)) _ _ _ _ _));
    vm_compute; first [discriminate | reflexivity].
Defined.

(** Narrowing to the 18-digit type: on non-negative values [Dec] is the floor and
    [DecRoundUp] the ceiling; widening back never loses anything, so the two conversions are
    inverse on 18-digit values. *)
Theorem dec_conversions (d : t) (x : Dec.t) :
  (0 ≤ i d → is_floor bigDecDecPrecisionFactorDiff (i d) (Dec.i (ToDec d)) ∧
             is_ceil bigDecDecPrecisionFactorDiff (i d) (Dec.i (DecRoundUp d))) ∧
  (∃ w, BigDecFromDec x = Ok w ∧ ToDec w = x ∧ DecRoundUp w = x).
Proof.
  split; [intros; split; [by apply ToDec_spec|by apply DecRoundUp_spec]|].
  rewrite BigDecFromDec_eq. eexists; split; [done|].
  unfold ToDec, DecRoundUp, incBasedOnRem. cbn [i].
  rewrite Z.quot_mul, Z.rem_mul by done. by destruct x.
Qed.

(** [Ceil] returns the least whole number not below the argument, for either sign. *)
Theorem ceil_least_integer (d : t) :
  ∃ r q, Ceil d = Ok r ∧ i r = q * P ∧ i d ≤ q * P ∧ ∀ q', i d ≤ q' * P → q ≤ q'.
Proof.
  assert (∃ r, Ceil d = Ok r) as [r Hr].
  { unfold Ceil, CeilMut. cbn [i]. case_match; eexists; reflexivity. }
  destruct (CeilMut_spec _ _ Hr) as (q & Hq & Hc). exists r, q. cbn [i] in Hc.
  unfold is_ceil in Hc. split; [done|]. split; [done|]. split; [lia|]. intros q' Hq'.
  pose proof P_pos. nia.
Qed.
End BigDecProps.
