(* ===== verification/Sqrt.v ===== *)
(** Monotonic square roots: osmomath/sqrt.go. *)
From stdpp Require Import prelude strings list.
From S2P Require Import Prelude.
From S2P Require Import GoBig.
From S2P Require Import SdkDec.
From S2P Require Import Decimal.
From S2P Require Import DecimalFacts.
Local Open Scope Z_scope.

Module Sqrt.
Definition tenTo18 : Z := 10 ^ 18.
Definition tenTo36 : Z := tenTo18 * tenTo18.

(** The common tail of both functions on the underlying integer: the integer square root of the
    value shifted by the precision, incremented when its square is below the shifted value. *)
Definition sqrt_up (v shift : Z) : outcome Z :=
  r ← big.Sqrt (v * shift);
  let check := r * r in
  let shiftedD := v * shift in
  Ok (if big.Cmp check shiftedD =? -1 then r + 1 else r).

Section sqrt_dec.
  Context {D : sdk.LegacyDec}.

Definition MonotonicSqrtMut (d : Dec.t) : outcome Dec.t :=
  if sdk.IsNegative d then Err "cannot take square root of negative number"
  else Dec.mk <$> sqrt_up (Dec.i d) tenTo18.
Definition MonotonicSqrt (d : Dec.t) : outcome Dec.t := MonotonicSqrtMut d.
Definition MustMonotonicSqrt (d : Dec.t) : outcome Dec.t :=
  match MonotonicSqrt d with Err e => Panic e | r => r end.
End sqrt_dec.

Definition MonotonicSqrtBigDecMut (d : BigDec.t) : outcome BigDec.t :=
  if BigDec.IsNegative d then Err "cannot take square root of negative number"
  else BigDec.mk <$> sqrt_up (BigDec.i d) tenTo36.
Definition MonotonicSqrtBigDec (d : BigDec.t) : outcome BigDec.t :=
  MonotonicSqrtBigDecMut (BigDec.Clone d).
Definition MustMonotonicSqrtBigDec (d : BigDec.t) : outcome BigDec.t :=
  match MonotonicSqrtBigDec d with Err e => Panic e | r => r end.

(** *** Specification *)

(** [r] is the least non-negative integer whose square is at least [n]. *)
Definition is_sqrt_up (n r : Z) : Prop := 0 ≤ r ∧ n ≤ r * r ∧ ∀ s, 0 ≤ s → n ≤ s * s → r ≤ s.

Lemma is_sqrt_up_mono n n' r r' : is_sqrt_up n r → is_sqrt_up n' r' → n ≤ n' → r ≤ r'.
Proof. intros (_ & _ & Hmin) (H0 & H1 & _) Hle. apply Hmin; lia. Qed.

Lemma is_sqrt_up_unique n r r' : is_sqrt_up n r → is_sqrt_up n r' → r = r'.
Proof.
  intros H H'. pose proof (is_sqrt_up_mono n n r r' H H'). pose proof (is_sqrt_up_mono n n r' r H' H).
  lia.
Qed.

Lemma sqrt_up_spec v shift :
  0 ≤ v * shift → ∃ r, sqrt_up v shift = Ok r ∧ is_sqrt_up (v * shift) r.
Proof.
  intros H. unfold sqrt_up, big.Sqrt. rewrite (proj2 (Z.ltb_ge _ _)) by lia.
  cbn [mbind outcome_bind]. rewrite BigDecFacts.Cmp_m1.
  set (n := v * shift) in *. pose proof (Z.sqrt_spec n H) as Hs. cbn zeta in Hs.
  pose proof (Z.sqrt_nonneg n).
  destruct (Z.ltb_spec (Z.sqrt n * Z.sqrt n) n); eexists; (split; [reflexivity|]).
  - split; [lia|]. split; [lia|]. intros s Hs0 Hsn. assert (Z.sqrt n < s) by nia. lia.
  - split; [lia|]. split; [lia|]. intros s Hs0 Hsn. nia.
Qed.

(** The two square roots, under one statement. *)
Lemma MonotonicSqrtBigDec_spec d :
  0 ≤ BigDec.i d →
  ∃ r, MonotonicSqrtBigDec d = Ok r ∧ is_sqrt_up (BigDec.i d * tenTo36) (BigDec.i r).
Proof.
  intros Hd. unfold MonotonicSqrtBigDec, MonotonicSqrtBigDecMut, BigDec.IsNegative, BigDec.Clone.
  cbn [BigDec.i]. rewrite BigDecFacts.Sign_neg, (proj2 (Z.ltb_ge _ _)) by lia.
  destruct (sqrt_up_spec (BigDec.i d) tenTo36) as (r & -> & Hr); [by apply Z.mul_nonneg_nonneg|].
  by exists (BigDec.mk r).
Qed.

Section laws.
  Context {D : sdk.LegacyDec} {L : sdk.LegacyDecLaws D}.

Lemma MonotonicSqrt_spec d :
  0 ≤ Dec.i d → ∃ r, MonotonicSqrt d = Ok r ∧ is_sqrt_up (Dec.i d * tenTo18) (Dec.i r).
Proof using L.
  intros Hd. unfold MonotonicSqrt, MonotonicSqrtMut.
  rewrite sdk.IsNegative_spec, (proj2 (Z.ltb_ge _ _)) by lia.
  destruct (sqrt_up_spec (Dec.i d) tenTo18) as (r & -> & Hr); [by apply Z.mul_nonneg_nonneg|].
  by exists (Dec.mk r).
Qed.
Lemma MonotonicSqrtMut_spec d :
  0 ≤ Dec.i d → ∃ r, MonotonicSqrtMut d = Ok r ∧ is_sqrt_up (Dec.i d * tenTo18) (Dec.i r).
Proof using L. apply MonotonicSqrt_spec. Qed.
End laws.

(** [MonotonicSqrtBigDec] returns, for every non-negative decimal, the least 36-digit decimal
    whose square is not below the argument, it rejects every negative decimal, and it is
    monotone. *)
Theorem sqrt_bigdec_least (d d2 : BigDec.t) :
  (BigDec.i d < 0 → MonotonicSqrtBigDec d = Err "cannot take square root of negative number") ∧
  (0 ≤ BigDec.i d → ∃ r, MonotonicSqrtBigDec d = Ok r ∧
     is_sqrt_up (BigDec.i d * BigDec.defaultBigDecPrecisionReuse) (BigDec.i r) ∧
     (BigDec.i d ≤ BigDec.i d2 → ∃ r2, MonotonicSqrtBigDec d2 = Ok r2 ∧ BigDec.i r ≤ BigDec.i r2)).
Proof.
  split.
  - intros Hd. unfold MonotonicSqrtBigDec, MonotonicSqrtBigDecMut, BigDec.IsNegative, BigDec.Clone.
    cbn [BigDec.i]. by rewrite BigDecFacts.Sign_neg, (proj2 (Z.ltb_lt _ _)).
  - intros Hd. destruct (MonotonicSqrtBigDec_spec d Hd) as (r & Hr & Hs).
    exists r. split; [done|]. split; [done|]. intros Hle.
    destruct (MonotonicSqrtBigDec_spec d2 ltac:(lia)) as (r2 & Hr2 & Hs2).
    exists r2. split; [done|]. eapply is_sqrt_up_mono; [done..|].
    apply Z.mul_le_mono_nonneg_r; [done|lia].
Qed.

(** The same for the 18-digit square root, over any decimal library that orders its values as
    documented. *)
Theorem sqrt_dec_least (D : sdk.LegacyDec) (L : sdk.LegacyDecLaws D) (d d2 : Dec.t) :
  0 ≤ Dec.i d → Dec.i d ≤ Dec.i d2 →
  ∃ r r2, MonotonicSqrt d = Ok r ∧ MonotonicSqrt d2 = Ok r2 ∧
    is_sqrt_up (Dec.i d * 10 ^ 18) (Dec.i r) ∧ Dec.i r ≤ Dec.i r2.
Proof.
  intros Hd Hle. destruct (MonotonicSqrt_spec d Hd) as (r & Hr & Hs).
  destruct (MonotonicSqrt_spec d2 ltac:(lia)) as (r2 & Hr2 & Hs2).
  exists r, r2. repeat (split; [done|]). eapply is_sqrt_up_mono; [done..|].
  apply Z.mul_le_mono_nonneg_r; [done|lia].
Qed.

Lemma sqrt_dec_least_witness :
  ∃ r r2, MonotonicSqrt (D := sdk.ref_dec) (Dec.mk 2) = Ok r ∧
    MonotonicSqrt (D := sdk.ref_dec) (Dec.mk (2 * 10 ^ 18)) = Ok r2 ∧
    is_sqrt_up (2 * 10 ^ 18) (Dec.i r) ∧ Dec.i r ≤ Dec.i r2.
Proof.
  apply (sqrt_dec_least sdk.ref_dec sdk.ref_dec_laws (Dec.mk 2) (Dec.mk (2 * 10 ^ 18)));
    vm_compute; discriminate.
Defined.
End Sqrt.
