(* ===== verification/CLMath.v ===== *)
(** Concentrated liquidity formulas: x/concentrated-liquidity/math/math.go.

    Amounts of the two assets for a liquidity and a price range, the price after swapping a given
    amount, and the liquidity a pair of amounts provides. *)
From stdpp Require Import prelude strings list.
From S2P Require Import Prelude.
From S2P Require Import GoBig.
From S2P Require Import SdkDec.
From S2P Require Import Decimal.
From S2P Require Import DecimalFacts.
Local Open Scope Z_scope.

Module CLMath.

Definition Liquidity0 (amount : SdkInt.t) (sqrtPriceA sqrtPriceB : BigDec.t) : outcome Dec.t :=
  let '(sqrtPriceA, sqrtPriceB) :=
    if BigDec.GT sqrtPriceA sqrtPriceB then (sqrtPriceB, sqrtPriceA)
    else (sqrtPriceA, sqrtPriceB) in
  amountBigDec ← BigDec.BigDecFromSDKInt amount;
  product ← BigDec.Mul sqrtPriceA sqrtPriceB;
  diff ← BigDec.Sub sqrtPriceB sqrtPriceA;
  if BigDec.IsZero diff then Panic "liquidity0 diff is zero"
  else m ← BigDec.MulMut amountBigDec product;
       q ← BigDec.QuoMut m diff;
       Ok (BigDec.ToDec q).

Definition Liquidity1 (amount : SdkInt.t) (sqrtPriceA sqrtPriceB : BigDec.t) : outcome Dec.t :=
  let '(sqrtPriceA, sqrtPriceB) :=
    if BigDec.GT sqrtPriceA sqrtPriceB then (sqrtPriceB, sqrtPriceA)
    else (sqrtPriceA, sqrtPriceB) in
  amountBigDec ← BigDec.BigDecFromSDKInt amount;
  diff ← BigDec.Sub sqrtPriceB sqrtPriceA;
  if BigDec.IsZero diff then Panic "liquidity1 diff is zero"
  else q ← BigDec.QuoMut amountBigDec diff;
       Ok (BigDec.ToDec q).

Definition CalcAmount0Delta (liq : Dec.t) (sqrtPriceA sqrtPriceB : BigDec.t) (roundUp : bool)
    : outcome BigDec.t :=
  let '(sqrtPriceA, sqrtPriceB) :=
    if BigDec.GT sqrtPriceA sqrtPriceB then (sqrtPriceB, sqrtPriceA)
    else (sqrtPriceA, sqrtPriceB) in
  diff ← BigDec.Sub sqrtPriceB sqrtPriceA;
  if roundUp then
    m ← BigDec.MulRoundUpDec diff liq;
    q ← BigDec.QuoRoundUpMut m sqrtPriceB;
    BigDec.QuoRoundUpNextIntMut q sqrtPriceA
  else
    m ← BigDec.MulTruncateDec diff liq;
    q ← BigDec.QuoTruncateMut m sqrtPriceB;
    BigDec.QuoTruncateMut q sqrtPriceA.

Definition CalcAmount1Delta (liq : Dec.t) (sqrtPriceA sqrtPriceB : BigDec.t) (roundUp : bool)
    : outcome BigDec.t :=
  d ← BigDec.Sub sqrtPriceB sqrtPriceA;
  let diff := BigDec.AbsMut d in
  if roundUp then m ← BigDec.MulDecMut diff liq; BigDec.CeilMut m
  else BigDec.MulTruncateDec diff liq.

Definition GetNextSqrtPriceFromAmount0InRoundingUp
    (sqrtPriceCurrent liquidity amountZeroRemainingIn : BigDec.t) : outcome BigDec.t :=
  if BigDec.IsZero amountZeroRemainingIn then Ok sqrtPriceCurrent
  else
    product ← BigDec.MulTruncate amountZeroRemainingIn sqrtPriceCurrent;
    denominator ← BigDec.AddMut product liquidity;
    m ← BigDec.MulRoundUp liquidity sqrtPriceCurrent;
    BigDec.QuoRoundUpMut m denominator.

Definition GetNextSqrtPriceFromAmount0OutRoundingUp
    (sqrtPriceCurrent liquidity : BigDec.t) (amountZeroRemainingOut : Dec.t) `{sdk.LegacyDec}
    : outcome BigDec.t :=
  if sdk.IsZero amountZeroRemainingOut then Ok sqrtPriceCurrent
  else
    product ← BigDec.MulRoundUpDec sqrtPriceCurrent amountZeroRemainingOut;
    denominator ← BigDec.Sub liquidity product;
    m ← BigDec.MulRoundUp liquidity sqrtPriceCurrent;
    BigDec.QuoRoundUpMut m denominator.

Definition GetNextSqrtPriceFromAmount1InRoundingDown
    (sqrtPriceCurrent : BigDec.t) (liquidity : Dec.t) (amountOneRemainingIn : BigDec.t)
    : outcome BigDec.t :=
  q ← BigDec.QuoTruncateDec amountOneRemainingIn liquidity;
  BigDec.AddMut q sqrtPriceCurrent.

Definition GetNextSqrtPriceFromAmount1OutRoundingDown
    (sqrtPriceCurrent : BigDec.t) (liquidity : Dec.t) (amountOneRemainingOut : BigDec.t)
    : outcome BigDec.t :=
  q ← BigDec.QuoByDecRoundUp amountOneRemainingOut liquidity;
  BigDec.Sub sqrtPriceCurrent q.

Section with_dec.
  Context {D : sdk.LegacyDec}.

Definition GetLiquidityFromAmounts (sqrtPrice sqrtPriceA sqrtPriceB : BigDec.t)
    (amount0 amount1 : SdkInt.t) : outcome Dec.t :=
  let '(sqrtPriceA, sqrtPriceB) :=
    if BigDec.GT sqrtPriceA sqrtPriceB then (sqrtPriceB, sqrtPriceA)
    else (sqrtPriceA, sqrtPriceB) in
  if BigDec.LTE sqrtPrice sqrtPriceA then Liquidity0 amount0 sqrtPriceA sqrtPriceB
  else if BigDec.LT sqrtPrice sqrtPriceB then
    liquidity0 ← Liquidity0 amount0 sqrtPrice sqrtPriceB;
    liquidity1 ← Liquidity1 amount1 sqrtPrice sqrtPriceA;
    Ok (sdk.MinDec liquidity0 liquidity1)
  else Liquidity1 amount1 sqrtPriceB sqrtPriceA.

Definition SquareRoundUp (sqrtPrice : Dec.t) : outcome Dec.t := sdk.MulRoundUp sqrtPrice sqrtPrice.
Definition SquareTruncate (sqrtPrice : Dec.t) : outcome Dec.t := sdk.MulTruncate sqrtPrice sqrtPrice.
End with_dec.
End CLMath.
