(* ===== verification/CLMathProps.v ===== *)
(** Rounding direction of the concentrated-liquidity formulas: every amount the pool receives is
    rounded up and every amount it pays is rounded down, except where stated. *)
From stdpp Require Import prelude strings list.
From S2P Require Import Prelude.
From S2P Require Import GoBig.
From S2P Require Import SdkDec.
From S2P Require Import Decimal.
From S2P Require Import DecimalFacts.
From S2P Require Import CLMath.
Local Open Scope Z_scope.
Import BigDec BigDecFacts CLMath.

Module CLMathProps.

(** The sorted pair both amount formulas start from. *)
Lemma sorted_pair (A B : t) a b :
  (if GT A B then (B, A) else (A, B)) = (a, b) →
  i a = Z.min (i A) (i B) ∧ i b = Z.max (i A) (i B).
Proof.
  destruct (GT A B) eqn:E; intros [= <- <-].
  - apply GT_iff in E. lia.
  - apply Bool.not_true_iff_false in E. rewrite GT_iff in E. lia.
Qed.

(** Chained floors and ceilings, on bare integers. *)
Lemma floor_chain (p pd a b x m q r : Z) :
  0 < p → 0 < pd → 0 < a → 0 < b → 0 ≤ r →
  pd * m ≤ x → b * q ≤ m * p → a * r ≤ q * p → r * a * b * pd ≤ x * p * p.
Proof.
  intros Hp Hpd Ha Hb Hr H1 H2 H3.
  pose proof (Z.mul_le_mono_nonneg_r _ _ (b * pd) ltac:(nia) H3) as E3.
  pose proof (Z.mul_le_mono_nonneg_r _ _ (p * pd) ltac:(nia) H2) as E2.
  pose proof (Z.mul_le_mono_nonneg_r _ _ (p * p) ltac:(nia) H1) as E1. nia.
Qed.

Lemma ceil_chain (p pd a b x m q k : Z) :
  0 < p → 0 < pd → 0 < a → 0 < b →
  x ≤ pd * m → m * p ≤ b * q → q ≤ a * k → x * p * p ≤ k * p * a * b * pd.
Proof.
  intros Hp Hpd Ha Hb H1 H2 H3.
  pose proof (Z.mul_le_mono_nonneg_r _ _ (p * b * pd) ltac:(nia) H3) as E3.
  pose proof (Z.mul_le_mono_nonneg_r _ _ (p * pd) ltac:(nia) H2) as E2.
  pose proof (Z.mul_le_mono_nonneg_r _ _ (p * p) ltac:(nia) H1) as E1. nia.
Qed.

Section amount0.
  Context (liq : Dec.t) (A B : t).
  Context (Hl : 0 ≤ Dec.i liq) (HA : 0 < i A) (HB : 0 < i B).

(** The exact amount is [liq * |B - A| / (A * B)]; both sides are multiplied by the scales. *)
Definition exact0_num : Z := Dec.i liq * Z.abs (i B - i A) * P * P.
Definition exact0_den (x : Z) : Z := x * i A * i B * PD.

Lemma amount0_down lo :
  CalcAmount0Delta liq A B false = Ok lo → 0 ≤ i lo ∧ exact0_den (i lo) ≤ exact0_num.
Proof using Hl HA HB.
  unfold CalcAmount0Delta. destruct (if GT A B then _ else _) as [a b] eqn:E.
  apply sorted_pair in E as [Ea Eb]. intros H. inv_ok.
  match goal with H : Sub _ _ = Ok ?d |- _ => apply Sub_spec in H as Hd end.
  assert (0 ≤ i x) by lia.
  match goal with H : MulTruncateDec _ _ = Ok _ |- _ =>
    apply MulTruncateDec_spec, is_trunc_floor in H as Hm; [|nia] end.
  assert (0 ≤ i x0) by (eapply is_floor_nonneg; [| |exact Hm]; [done|nia]).
  match goal with H : QuoTruncateMut x0 _ = Ok _ |- _ =>
    apply QuoTruncateMut_spec in H as Hq; [|done|lia] end.
  pose proof P_pos.
  assert (0 ≤ i x1) by (eapply is_floor_nonneg; [| |exact Hq]; nia).
  match goal with H : QuoTruncateMut x1 _ = Ok _ |- _ =>
    apply QuoTruncateMut_spec in H as Hr; [|done|lia] end.
  assert (0 ≤ i lo) by (eapply is_floor_nonneg; [| |exact Hr]; nia).
  split; [done|]. unfold is_floor, exact0_den, exact0_num in *.
  assert (i x = Z.abs (i B - i A)) as <- by lia.
  pose proof (floor_chain P PD (i a) (i b) (i x * Dec.i liq) (i x0) (i x1) (i lo)) as Hc.
  assert (i a * i b = i A * i B) as Hab by nia.
  specialize (Hc ltac:(done) ltac:(done) ltac:(lia) ltac:(lia) ltac:(done) ltac:(lia) ltac:(lia)
    ltac:(lia)).
  replace (i lo * i A * i B * PD) with (i lo * (i A * i B) * PD) by ring. rewrite <- Hab.
  replace (Dec.i liq * i x) with (i x * Dec.i liq) by ring. lia.
Qed.

Lemma amount0_up hi :
  CalcAmount0Delta liq A B true = Ok hi →
  (∃ k, i hi = k * P) ∧ exact0_num ≤ exact0_den (i hi).
Proof using Hl HA HB.
  unfold CalcAmount0Delta. destruct (if GT A B then _ else _) as [a b] eqn:E.
  apply sorted_pair in E as [Ea Eb]. intros H. inv_ok.
  match goal with H : Sub _ _ = Ok ?d |- _ => apply Sub_spec in H as Hd end.
  assert (0 ≤ i x) by lia.
  match goal with H : MulRoundUpDec _ _ = Ok _ |- _ => apply MulRoundUpDec_spec in H as Hm end.
  assert (0 ≤ i x0) by (eapply is_ceil_nonneg; [| |exact Hm]; [done|nia]).
  match goal with H : QuoRoundUpMut x0 _ = Ok _ |- _ =>
    apply QuoRoundUpMut_spec in H as Hq; [|done|lia] end.
  pose proof P_pos.
  assert (0 ≤ i x1) by (eapply is_ceil_nonneg; [| |exact Hq]; nia).
  match goal with H : QuoRoundUpNextIntMut x1 _ = Ok _ |- _ =>
    apply QuoRoundUpNextIntMut_spec in H as (k & Hk & Hr); [|done|lia] end.
  split; [by exists k|]. unfold is_ceil, exact0_den, exact0_num in *. rewrite Hk.
  assert (i x = Z.abs (i B - i A)) as <- by lia.
  pose proof (ceil_chain P PD (i a) (i b) (i x * Dec.i liq) (i x0) (i x1) k) as Hc.
  assert (i a * i b = i A * i B) as Hab by nia.
  specialize (Hc ltac:(done) ltac:(done) ltac:(lia) ltac:(lia) ltac:(lia) ltac:(lia) ltac:(lia)).
  replace (k * P * i A * i B * PD) with (k * P * (i A * i B) * PD) by ring. rewrite <- Hab.
  replace (Dec.i liq * i x) with (i x * Dec.i liq) by ring. lia.
Qed.
End amount0.

(** [CalcAmount0Delta] never favours the trader: with [roundUp] the result is a whole number of
    tokens at least [liq * |B - A| / (A * B)], without it a non-negative amount at most that, so
    what a deposit charges is never less than what the same range pays out. *)
Theorem amount0_favours_pool (liq : Dec.t) (A B lo hi : t) :
  0 ≤ Dec.i liq → 0 < i A → 0 < i B →
  CalcAmount0Delta liq A B false = Ok lo → CalcAmount0Delta liq A B true = Ok hi →
  0 ≤ i lo ∧ exact0_den A B (i lo) ≤ exact0_num liq A B ≤ exact0_den A B (i hi) ∧
  (∃ k, i hi = k * P) ∧ i lo ≤ i hi.
Proof.
  intros Hl HA HB Hlo Hhi.
  destruct (amount0_down liq A B Hl HA HB lo Hlo) as [H0 H1].
  destruct (amount0_up liq A B Hl HA HB hi Hhi) as [Hk H2].
  split; [done|]. split; [done|]. split; [done|].
  unfold exact0_den in *. assert (0 < i A * i B * PD) by (pose proof PD_pos; nia). nia.
Qed.

Lemma amount0_favours_pool_witness :
  ∃ lo hi,
    CalcAmount0Delta (Dec.mk (10 ^ 18)) (mk P) (mk (3 * P)) false = Ok lo ∧
    CalcAmount0Delta (Dec.mk (10 ^ 18)) (mk P) (mk (3 * P)) true = Ok hi ∧ i lo ≤ i hi.
Proof.
  exists (mk 666666666666666666666666666666666666), (mk P).
  assert (H1 : CalcAmount0Delta (Dec.mk (10 ^ 18)) (mk P) (mk (3 * P)) false
    = Ok (mk 666666666666666666666666666666666666)) by (vm_compute; reflexivity).
  assert (H2 : CalcAmount0Delta (Dec.mk (10 ^ 18)) (mk P) (mk (3 * P)) true = Ok (mk P))
    by (vm_compute; reflexivity).
  assert (L : 0 ≤ Dec.i (Dec.mk (10 ^ 18))) by done.
  assert (A : 0 < i (mk P)) by done. assert (B : 0 < i (mk (3 * P))) by done.
  split; [exact H1|]. split; [exact H2|].
  exact (proj2 (proj2 (proj2 (amount0_favours_pool _ _ _ _ _ L A B H1 H2)))).
Defined.

(** *** Amount of the second asset *)

Section amount1.
  Context (liq : Dec.t) (A B : t) (Hl : 0 ≤ Dec.i liq).

(** The exact amount is [liq * |B - A|]. *)
Definition exact1 : Z := Dec.i liq * Z.abs (i B - i A).

Lemma amount1_down lo :
  CalcAmount1Delta liq A B false = Ok lo → is_floor PD exact1 (i lo).
Proof using Hl.
  unfold CalcAmount1Delta. intros H. inv_ok.
  match goal with H : Sub _ _ = Ok ?d |- _ => apply Sub_spec in H as Hd end.
  match goal with H : MulTruncateDec _ _ = Ok _ |- _ =>
    apply MulTruncateDec_spec in H as Hm end.
  cbn [AbsMut i] in Hm. unfold exact1. rewrite <- Hd, Z.mul_comm.
  apply is_trunc_floor; [nia|done].
Qed.

Lemma amount1_up hi :
  CalcAmount1Delta liq A B true = Ok hi →
  ∃ m k, half_even PD exact1 m ∧ i hi = k * P ∧ is_ceil P m k.
Proof using.
  unfold CalcAmount1Delta. intros H. inv_ok.
  match goal with H : Sub _ _ = Ok ?d |- _ => apply Sub_spec in H as Hd end.
  match goal with H : MulDecMut _ _ = Ok _ |- _ => apply MulDecMut_spec in H as Hm end.
  match goal with H : CeilMut _ = Ok _ |- _ => apply CeilMut_spec in H as (k & Hk & Hc) end.
  cbn [AbsMut i] in Hm. exists (i x0), k. unfold exact1. rewrite <- Hd, Z.mul_comm. done.
Qed.
End amount1.

(** [CalcAmount1Delta]: without [roundUp] the result is the exact amount truncated; with
    [roundUp] it is a whole number of tokens which can fall short of the exact amount, but by no
    more than half of 10^-36 tokens, because the product is rounded to the nearest before it is
    rounded up to an integer. *)
Theorem amount1_rounding (liq : Dec.t) (A B lo hi : t) :
  0 ≤ Dec.i liq →
  CalcAmount1Delta liq A B false = Ok lo → CalcAmount1Delta liq A B true = Ok hi →
  is_floor PD (exact1 liq A B) (i lo) ∧ (∃ k, i hi = k * P) ∧
  2 * exact1 liq A B ≤ PD * (2 * i hi + 1) ∧ 2 * PD * i hi < 2 * exact1 liq A B + PD * (2 * P + 1).
Proof.
  intros Hl Hlo Hhi. split; [by apply amount1_down|].
  destruct (amount1_up liq A B hi Hhi) as (m & k & [Hm _] & Hk & Hc).
  split; [by exists k|]. rewrite Hk. unfold is_ceil in Hc. pose proof PD_pos. nia.
Qed.

Lemma amount1_rounding_witness :
  2 * exact1 (Dec.mk 1) (mk 0) (mk 1) ≤ PD * (2 * 0 + 1) ∧ 0 < exact1 (Dec.mk 1) (mk 0) (mk 1).
Proof.
  assert (H1 : CalcAmount1Delta (Dec.mk 1) (mk 0) (mk 1) false = Ok (mk 0))
    by (vm_compute; reflexivity).
  assert (H2 : CalcAmount1Delta (Dec.mk 1) (mk 0) (mk 1) true = Ok (mk 0))
    by (vm_compute; reflexivity).
  assert (L : 0 ≤ Dec.i (Dec.mk 1)) by done.
  split; [|reflexivity].
  exact (proj1 (proj2 (proj2 (amount1_rounding _ _ _ _ _ L H1 H2)))).
Defined.

(** *** Price after a swap within one liquidity range *)

Section next_price.
  Context (cur : t) (Hc : 0 ≤ i cur).

(** Swapping in [a] of token 0: the exact next price is [L * cur / (L + a * cur)]. *)
Lemma next_price_0_in liq a r :
  0 < i liq → 0 < i a →
  GetNextSqrtPriceFromAmount0InRoundingUp cur liq a = Ok r →
  i liq * i cur * P ≤ i r * (i liq * P + i a * i cur).
Proof using Hc.
  intros HL Ha. unfold GetNextSqrtPriceFromAmount0InRoundingUp, IsZero. rewrite Sign_zero.
  rewrite (proj2 (Z.eqb_neq _ _)) by lia. intros H. inv_ok. pose proof P_pos.
  match goal with H : MulTruncate _ _ = Ok ?p |- _ =>
    apply MulTruncate_spec, is_trunc_floor in H as Hp; [|nia];
    assert (0 ≤ i p) by (eapply is_floor_nonneg; [| |exact Hp]; nia) end.
  match goal with H : AddMut _ _ = Ok _ |- _ => apply AddMut_spec in H as Hd end.
  match goal with H : MulRoundUp _ _ = Ok ?m |- _ =>
    apply MulRoundUp_spec in H as Hm;
    assert (0 ≤ i m) by (eapply is_ceil_nonneg; [| |exact Hm]; nia) end.
  match goal with H : QuoRoundUpMut _ _ = Ok _ |- _ =>
    apply QuoRoundUpMut_spec in H as Hq; [|lia..] end.
  unfold is_floor, is_ceil in *. rewrite Hd in Hq.
  assert (0 ≤ i r) by nia. nia.
Qed.

(** Swapping out [a] of token 0, while the pool can pay it: the exact next price is
    [L * cur / (L - a * cur)]. *)
Lemma next_price_0_out (D : sdk.LegacyDec) (L : sdk.LegacyDecLaws D) liq a r :
  0 < i liq → 0 < Dec.i a → i cur * Dec.i a ≤ (i liq - 1) * PD →
  GetNextSqrtPriceFromAmount0OutRoundingUp cur liq a = Ok r →
  i liq * i cur * PD ≤ i r * (i liq * PD - Dec.i a * i cur).
Proof using Hc.
  intros HL Ha Hpay. unfold GetNextSqrtPriceFromAmount0OutRoundingUp. rewrite sdk.IsZero_spec.
  rewrite (proj2 (Z.eqb_neq _ _)) by lia. intros H. inv_ok. pose proof P_pos. pose proof PD_pos.
  match goal with H : MulRoundUpDec _ _ = Ok ?p |- _ => apply MulRoundUpDec_spec in H as Hp end.
  match goal with H : Sub _ _ = Ok _ |- _ => apply Sub_spec in H as Hd end.
  match goal with H : MulRoundUp _ _ = Ok ?m |- _ =>
    apply MulRoundUp_spec in H as Hm;
    assert (0 ≤ i m) by (eapply is_ceil_nonneg; [| |exact Hm]; nia) end.
  unfold is_ceil in Hp. assert (0 < i x0) by nia.
  match goal with H : QuoRoundUpMut _ _ = Ok _ |- _ =>
    apply QuoRoundUpMut_spec in H as Hq; [|lia..] end.
  unfold is_ceil in *. rewrite Hd in *.
  assert (0 ≤ i r) by nia.
  assert (i liq * i cur ≤ (i liq - i x) * i r) by nia.
  assert (PD * (i liq - i x) ≤ i liq * PD - Dec.i a * i cur) by lia.
  assert (PD * (i liq - i x) * i r ≤ (i liq * PD - Dec.i a * i cur) * i r) by nia. nia.
Qed.

(** Swapping in [a] of token 1: the exact next price is [cur + a / L]. *)
Lemma next_price_1_in liq a r :
  0 < Dec.i liq → 0 ≤ i a →
  GetNextSqrtPriceFromAmount1InRoundingDown cur liq a = Ok r →
  i cur ≤ i r ∧ Dec.i liq * (i r - i cur) ≤ i a * PD < Dec.i liq * (i r - i cur + 1).
Proof using.
  intros HL Ha. unfold GetNextSqrtPriceFromAmount1InRoundingDown. intros H. inv_ok.
  match goal with H : QuoTruncateDec _ _ = Ok _ |- _ =>
    apply QuoTruncateDec_spec in H as Hq; [|done..] end.
  match goal with H : AddMut _ _ = Ok _ |- _ => apply AddMut_spec in H as -> end.
  assert (0 ≤ i x) by (eapply is_floor_nonneg; [| |exact Hq]; pose proof PD_pos; nia).
  unfold is_floor in Hq. replace (i x + i cur - i cur) with (i x) by lia. nia.
Qed.

(** Swapping out [a] of token 1: the exact next price is [cur - a / L]. *)
Lemma next_price_1_out liq a r :
  0 < Dec.i liq → 0 ≤ i a →
  GetNextSqrtPriceFromAmount1OutRoundingDown cur liq a = Ok r →
  i r ≤ i cur ∧ Dec.i liq * (i cur - i r - 1) < i a * PD ≤ Dec.i liq * (i cur - i r).
Proof using.
  intros HL Ha. unfold GetNextSqrtPriceFromAmount1OutRoundingDown. intros H. inv_ok.
  match goal with H : QuoByDecRoundUp _ _ = Ok _ |- _ =>
    apply QuoByDecRoundUp_spec in H as Hq; [|done..] end.
  match goal with H : Sub _ _ = Ok _ |- _ => apply Sub_spec in H as -> end.
  assert (0 ≤ i x) by (eapply is_ceil_nonneg; [| |exact Hq]; pose proof PD_pos; nia).
  unfold is_ceil in Hq. replace (i cur - (i cur - i x)) with (i x) by lia. nia.
Qed.
End next_price.

(** Exact-in price moves are rounded against the trader: selling token 0 the new square root
    price is never below the exact [L * cur / (L + a * cur)] (the price falls too little), selling
    token 1 it is never above the exact [cur + a / L] nor below the current one. *)
Theorem next_price_in_favours_pool (cur liq a r r' : t) (liq' : Dec.t) :
  0 ≤ i cur → 0 < i liq → 0 < Dec.i liq' → 0 < i a →
  GetNextSqrtPriceFromAmount0InRoundingUp cur liq a = Ok r →
  GetNextSqrtPriceFromAmount1InRoundingDown cur liq' a = Ok r' →
  i liq * i cur * P ≤ i r * (i liq * P + i a * i cur) ∧
  i cur ≤ i r' ∧ Dec.i liq' * (i r' - i cur) ≤ i a * PD.
Proof.
  intros Hc HL HL' Ha Hr Hr'. split; [by eapply next_price_0_in|].
  destruct (next_price_1_in cur liq' a r' HL' ltac:(lia) Hr') as (? & ? & _). done.
Qed.

Lemma next_price_in_favours_pool_witness :
  ∃ r r', GetNextSqrtPriceFromAmount0InRoundingUp (mk P) (mk (7 * P)) (mk P) = Ok r ∧
    GetNextSqrtPriceFromAmount1InRoundingDown (mk P) (Dec.mk (7 * PD)) (mk P) = Ok r' ∧
    i (mk P) ≤ i r' ∧ Dec.i (Dec.mk (7 * PD)) * (i r' - i (mk P)) ≤ i (mk P) * PD.
Proof.
  assert (H1 : GetNextSqrtPriceFromAmount0InRoundingUp (mk P) (mk (7 * P)) (mk P)
    = Ok (mk 875000000000000000000000000000000000)) by (vm_compute; reflexivity).
  assert (H2 : GetNextSqrtPriceFromAmount1InRoundingDown (mk P) (Dec.mk (7 * PD)) (mk P)
    = Ok (mk 1142857142857142857142857142857142857)) by (vm_compute; reflexivity).
  assert (Hc : 0 ≤ i (mk P)) by done. assert (HL : 0 < i (mk (7 * P))) by done.
  assert (HL' : 0 < Dec.i (Dec.mk (7 * PD))) by done. assert (Ha : 0 < i (mk P)) by done.
  eexists _, _. split; [exact H1|]. split; [exact H2|].
  exact (proj2 (next_price_in_favours_pool _ _ _ _ _ _ Hc HL HL' Ha H1 H2)).
Defined.

(** Exact-out price moves are rounded against the trader too: buying token 0 the new square
    root price is never below the exact [L * cur / (L - a * cur)], buying token 1 it is never above
    the exact [cur - a / L]. *)
Theorem next_price_out_favours_pool
    (D : sdk.LegacyDec) (L : sdk.LegacyDecLaws D) (cur liq a1 r r' : t) (a0 liq' : Dec.t) :
  0 ≤ i cur → 0 < i liq → 0 < Dec.i a0 → i cur * Dec.i a0 ≤ (i liq - 1) * PD →
  0 < Dec.i liq' → 0 ≤ i a1 →
  GetNextSqrtPriceFromAmount0OutRoundingUp cur liq a0 = Ok r →
  GetNextSqrtPriceFromAmount1OutRoundingDown cur liq' a1 = Ok r' →
  i liq * i cur * PD ≤ i r * (i liq * PD - Dec.i a0 * i cur) ∧
  i r' ≤ i cur ∧ i a1 * PD ≤ Dec.i liq' * (i cur - i r').
Proof.
  intros Hc HL Ha0 Hpay HL' Ha1 Hr Hr'. split; [by eapply next_price_0_out|].
  destruct (next_price_1_out cur liq' a1 r' HL' Ha1 Hr') as (? & _ & ?). done.
Qed.

Lemma next_price_out_favours_pool_witness :
  ∃ r r', GetNextSqrtPriceFromAmount0OutRoundingUp (H := sdk.ref_dec)
      (mk P) (mk (7 * P)) (Dec.mk PD) = Ok r ∧
    GetNextSqrtPriceFromAmount1OutRoundingDown (mk P) (Dec.mk (7 * PD)) (mk P) = Ok r' ∧
    i r' ≤ i (mk P) ∧ i (mk P) * PD ≤ Dec.i (Dec.mk (7 * PD)) * (i (mk P) - i r').
Proof.
  assert (H1 : GetNextSqrtPriceFromAmount0OutRoundingUp (H := sdk.ref_dec)
      (mk P) (mk (7 * P)) (Dec.mk PD) = Ok (mk 1166666666666666666666666666666666667))
    by (vm_compute; reflexivity).
  assert (H2 : GetNextSqrtPriceFromAmount1OutRoundingDown (mk P) (Dec.mk (7 * PD)) (mk P)
    = Ok (mk 857142857142857142857142857142857142)) by (vm_compute; reflexivity).
  assert (Hc : 0 ≤ i (mk P)) by done. assert (HL : 0 < i (mk (7 * P))) by done.
  assert (Ha0 : 0 < Dec.i (Dec.mk PD)) by done.
  assert (Hp : i (mk P) * Dec.i (Dec.mk PD) ≤ (i (mk (7 * P)) - 1) * PD) by done.
  assert (HL' : 0 < Dec.i (Dec.mk (7 * PD))) by done. assert (Ha : 0 ≤ i (mk P)) by done.
  eexists _, _. split; [exact H1|]. split; [exact H2|].
  exact (proj2 (next_price_out_favours_pool _ sdk.ref_dec_laws _ _ _ _ _ _ _
    Hc HL Ha0 Hp HL' Ha H1 H2)).
Defined.
End CLMathProps.
