(* ===== verification/DecimalPow.v ===== *)
(** Powers and logarithms: [PowerInteger], [LogBase2] and its derived logarithms of
    osmomath/decimal.go, and [Exp2] of osmomath/exp2.go.

    Loops run on fuel.  [PowerIntegerMut] halves a 64-bit exponent, so 64 rounds suffice; the
    normalising loops of [LogBase2] shift once per round, so 120 rounds (the bits of 10^36) and
    the bit length of the argument suffice.  Running out of fuel would be the outcome
    [Panic "fuel"], which the theorems exclude. *)
From stdpp Require Import prelude strings list.
From S2P Require Import Prelude.
From S2P Require Import GoBig.
From S2P Require Import Int.
From S2P Require Import Decimal.
Local Open Scope Z_scope.

Module BigDecPow.
Import BigDec.

(** *** Integer powers *)

Fixpoint power_loop (fuel : nat) (n : Z) (d tmp : t) : outcome t :=
  match fuel with
  | O => Panic "fuel"
  | S fuel =>
    if 1 <? n then
      tmp ← (if n mod 2 =? 0 then Ok tmp else MulMut tmp d);
      d' ← MulMut d d;
      power_loop fuel (n / 2) d' tmp
    else MulMut d tmp
  end.

Definition PowerIntegerMut (d : t) (power : Z) : outcome t :=
  if power =? 0 then Ok OneBigDec
  else if power =? 1 then Ok d
  else if power =? 2 then MulMut d d
  else power_loop 64 power d OneBigDec.
Definition PowerInteger (d : t) (power : Z) : outcome t := PowerIntegerMut (Clone d) power.

(** *** Logarithms *)

Definition maxLog2Iterations : nat := 300.
Definition twoBigDec : t := mk (2 * defaultBigDecPrecisionReuse).
Definition negOneBigDec : t := mk (- defaultBigDecPrecisionReuse).
Definition oneHalfBigDec : outcome t := Quo OneBigDec twoBigDec.
Definition logOfEbase2 : t := mk 1442695040888963407359924681001892137.
Definition tickLogOf2 : t := mk 144262291094554178391070900057480.

(** repeat until: x >= 1. *)
Fixpoint log2_up (fuel : nat) (x y : t) : outcome (t * t) :=
  if LT x OneBigDec then
    match fuel with
    | O => Panic "fuel"
    | S fuel => y' ← AddMut y negOneBigDec; log2_up fuel (mk (big.Lsh (i x) 1)) y'
    end
  else Ok (x, y).

(** repeat until: x < 2. *)
Fixpoint log2_down (fuel : nat) (x y : t) : outcome (t * t) :=
  if GTE x twoBigDec then
    match fuel with
    | O => Panic "fuel"
    | S fuel => y' ← AddMut y OneBigDec; log2_down fuel (mk (big.Rsh (i x) 1)) y'
    end
  else Ok (x, y).

(** The digits after the point: square, halve when the square reaches two, and halve [b]. *)
Fixpoint log2_frac (iterations : nat) (x y b : t) : outcome t :=
  match iterations with
  | O => Ok y
  | S iterations =>
    x' ← MulMut x x;
    if GTE x' twoBigDec then
      y' ← AddMut y b;
      log2_frac iterations (mk (big.Rsh (i x') 1)) y' (mk (big.Rsh (i b) 1))
    else log2_frac iterations x' y (mk (big.Rsh (i b) 1))
  end.

Definition LogBase2 (x : t) : outcome t :=
  if LTE x ZeroBigDec then Panic "log is not defined at <= 0"
  else
    '(x1, y1) ← log2_up 120 x ZeroBigDec;
    '(x2, y2) ← log2_down (Z.to_nat (big.BitLen (i x1))) x1 y1;
    b ← oneHalfBigDec;
    log2_frac maxLog2Iterations x2 y2 b.

Definition Ln (x : t) : outcome t := log2x ← LogBase2 x; Quo log2x logOfEbase2.
Definition TickLog (x : t) : outcome t := log2x ← LogBase2 x; Quo log2x tickLogOf2.
Definition CustomBaseLog (x base : t) : outcome t :=
  if LTE base ZeroBigDec || Equal base OneBigDec then Panic "log is not defined at base"
  else log2x_argument ← LogBase2 x;
       log2x_base ← LogBase2 base;
       Quo log2x_argument log2x_base.

(** *** Exp2 *)

Definition numeratorCoefficients13Param : list t :=
  [mk 1000000000000000000000044212244679434; mk 352032455817400196452603772766844426;
   mk 56507868883666405413116800969512484; mk 5343900728213034434757419480319916;
   mk 317708814342353603087543715930732; mk 11429747507407623028722262874632;
   mk 198381965651614980168744540366].
Definition denominatorCoefficients13Param : list t :=
  [OneBigDec; Neg (mk 341114724742545112949699755780593311);
   mk 52724071627342653404436933178482287; Neg (mk 4760950735524957576233524801866342);
   mk 267168475410566529819971616894193; Neg (mk 8923715368802211181557353097439);
   mk 140277233177373698516010555916].
Definition maxSupportedExponent : outcome t := PowerInteger (mk (2 * defaultBigDecPrecisionReuse)) 9.

(** One round of the evaluation of numerator and denominator, for the coefficients of index
    1, 2, ... in order. *)
Fixpoint exp2_loop (nums dens : list t) (x x_exp_i h_x p_x : t) : outcome (t * t) :=
  match nums, dens with
  | n :: nums, d :: dens =>
    x_exp_i ← MulMut x_exp_i x;
    hn ← Mul n x_exp_i; h_x ← AddMut h_x hn;
    pd ← Mul d x_exp_i; p_x ← AddMut p_x pd;
    exp2_loop nums dens x x_exp_i h_x p_x
  | _, _ => Ok (h_x, p_x)
  end.

Definition exp2ChebyshevRationalApprox (x : t) : outcome t :=
  if LT x ZeroBigDec || GT x OneBigDec then Panic "exponent must be in the range [0, 1]"
  else if IsZero x then Ok OneBigDec
  else if Equal x OneBigDec then Ok twoBigDec
  else
    match numeratorCoefficients13Param, denominatorCoefficients13Param with
    | n0 :: nums, d0 :: dens =>
      '(h_x, p_x) ← exp2_loop nums dens x OneBigDec (Clone n0) (Clone d0);
      QuoMut h_x p_x
    | _, _ => Panic "index out of range"
    end.

(** The final shift of the underlying integer is not checked for overflow.  When the fractional
    exponent is exactly one the shift lands in the package variable [twoBigDec] itself, but an
    exponent minus its integer part never equals one. *)
Definition Exp2 (exponent : t) : outcome t :=
  if IsNegative exponent then Panic "negative exponent is not supported"
  else
    max ← maxSupportedExponent;
    if GT (Abs exponent) max then Panic "integer exponent is too large"
    else
      integerExponent ← TruncateDec exponent;
      fractionalExponent ← Sub exponent integerExponent;
      fractionalResult ← exp2ChebyshevRationalApprox fractionalExponent;
      n ← TruncateInt integerExponent;
      n ← BigInt.Uint64 n;
      Ok (mk (big.Lsh (i fractionalResult) n)).

Example log2_of_8 : LogBase2 (mk (8 * defaultBigDecPrecisionReuse)) =
  Ok (mk (3 * defaultBigDecPrecisionReuse)).
Proof. vm_compute. reflexivity. Qed.
Example exp2_of_3 : Exp2 (mk (3 * defaultBigDecPrecisionReuse)) =
  Ok (mk (8 * defaultBigDecPrecisionReuse)).
Proof. vm_compute. reflexivity. Qed.
End BigDecPow.
