(* ===== verification/DecimalPowProps.v ===== *)
(** Powers and logarithms: exactness of integer powers, and the range of the base-2 logarithm. *)
From stdpp Require Import prelude strings list.
From S2P Require Import Prelude.
From S2P Require Import GoBig.
From S2P Require Import Int.
From S2P Require Import Decimal.
From S2P Require Import DecimalFacts.
From S2P Require Import DecimalPow.
Local Open Scope Z_scope.
Import BigDec BigDecFacts BigDecPow.

Module BigDecPowProps.

(** Multiplying whole numbers is exact when the product is in range. *)
Lemma MulMut_int a b :
  big.BitLen (a * b * P) ≤ maxDecBitLen →
  MulMut (mk (a * P)) (mk (b * P)) = Ok (mk (a * b * P)).
Proof.
  intros H. unfold MulMut. cbn [i].
  replace (a * P * (b * P)) with (P * (a * b * P)) by ring.
  rewrite chop_round_exact. by apply ret_checked_ok.
Qed.

(** Every intermediate value of square-and-multiply is a factor of the result. *)
Lemma in_range_factor a c :
  c ≠ 0 → big.BitLen (a * c * P) ≤ maxDecBitLen → big.BitLen (a * P) ≤ maxDecBitLen.
Proof.
  intros Hc H. etrans; [|exact H]. apply big.BitLen_mono. rewrite !Z.abs_mul.
  pose proof P_pos. assert (1 ≤ Z.abs c) by lia. nia.
Qed.

(** One round of the loop: the accumulator absorbs the base when the exponent is odd. *)
Lemma power_round n k c :
  1 < n → k ≠ 0 → c ≠ 0 → ∃ c', c' ≠ 0 ∧ k ^ n * c = (k * k) ^ (n / 2) * c' ∧
    (big.BitLen (c' * P) ≤ maxDecBitLen →
     (if n mod 2 =? 0 then Ok (mk (c * P)) else MulMut (mk (c * P)) (mk (k * P)))
       = Ok (mk (c' * P))).
Proof.
  intros Hn Hk Hc. assert (Hsplit : n = 2 * (n / 2) + n mod 2) by (apply Z.div_mod; lia).
  pose proof (Z.mod_pos_bound n 2 ltac:(lia)) as Hm.
  assert (Hpow : (k * k) ^ (n / 2) = k ^ (2 * (n / 2))).
  { rewrite Z.pow_mul_r by lia. by rewrite Z.pow_2_r. }
  rewrite Hpow. destruct (Z.eqb_spec (n mod 2) 0) as [E|E].
  - exists c. split; [done|]. split; [|done]. by rewrite Hsplit, E, Z.add_0_r at 1.
  - exists (c * k). split; [by apply Z.neq_mul_0|]. split; [|apply MulMut_int].
    assert (n mod 2 = 1) as E1 by lia. rewrite Hsplit at 1.
    rewrite E1, Z.pow_add_r, Z.pow_1_r by lia. ring.
Qed.

Lemma power_loop_int fuel n k c :
  k ≠ 0 → c ≠ 0 → 1 ≤ n < 2 ^ Z.of_nat fuel →
  big.BitLen (k ^ n * c * P) ≤ maxDecBitLen →
  power_loop fuel n (mk (k * P)) (mk (c * P)) = Ok (mk (k ^ n * c * P)).
Proof.
  revert n k c. induction fuel as [|f IH]; intros n k c Hk Hc Hn Hr; [simpl in Hn; lia|].
  rewrite Nat2Z.inj_succ, Z.pow_succ_r in Hn by lia. cbn [power_loop].
  destruct (Z.ltb_spec 1 n) as [Hlt|Hle].
  2:{ assert (n = 1) as -> by lia. rewrite Z.pow_1_r in *. by apply MulMut_int. }
  assert (Hh : 1 ≤ n / 2 < 2 ^ Z.of_nat f) by
    (pose proof (Z.div_mod n 2 ltac:(lia)); pose proof (Z.mod_pos_bound n 2 ltac:(lia)); lia).
  assert (Hkk : k * k ≠ 0) by (by apply Z.neq_mul_0).
  destruct (power_round n k c Hlt Hk Hc) as (c' & Hc' & Hval & Htmp).
  rewrite Hval in *.
  assert (Hsq : big.BitLen (k * k * P) ≤ maxDecBitLen).
  { apply (in_range_factor _ ((k * k) ^ (n / 2 - 1) * c')).
    { apply Z.neq_mul_0. split; [apply Z.pow_nonzero; lia|done]. }
    replace (k * k * ((k * k) ^ (n / 2 - 1) * c') * P)
      with (k * k * (k * k) ^ (n / 2 - 1) * c' * P) by ring.
    rewrite <- Z.pow_succ_r by lia. by replace (Z.succ (n / 2 - 1)) with (n / 2) by lia. }
  rewrite Htmp; [cbn [mbind outcome_bind]; rewrite MulMut_int by done; by apply IH|].
  apply (in_range_factor _ ((k * k) ^ (n / 2))); [apply Z.pow_nonzero; lia|].
  by rewrite (Z.mul_comm c').
Qed.

Lemma PowerInteger_int (k n : Z) :
  k ≠ 0 → 0 ≤ n < 2 ^ 64 → big.BitLen (k ^ n * P) ≤ maxDecBitLen →
  PowerInteger (mk (k * P)) n = Ok (mk (k ^ n * P)).
Proof.
  intros Hk Hn Hr. unfold PowerInteger, PowerIntegerMut, Clone. cbn [i].
  destruct (Z.eqb_spec n 0) as [->|H0]; [by rewrite Z.pow_0_r, Z.mul_1_l|].
  destruct (Z.eqb_spec n 1) as [->|H1]; [by rewrite Z.pow_1_r|].
  destruct (Z.eqb_spec n 2) as [->|H2].
  - rewrite Z.pow_2_r in *. by apply MulMut_int.
  - unfold OneBigDec. rewrite <- (Z.mul_1_l P) at 2.
    rewrite <- (Z.mul_1_r (k ^ n)) in Hr |- *.
    apply power_loop_int; [done|done| |done]. change (Z.of_nat 64) with 64. lia.
Qed.

(** Integer powers of whole numbers are exact: for every 64-bit exponent, if [k^n] fits the
    decimal range then [PowerInteger] returns exactly [k^n] (the square-and-multiply loop neither
    overflows on the way nor runs out of rounds). *)
Theorem power_integer_exact (k n : Z) :
  k ≠ 0 → 0 ≤ n < 2 ^ 64 → big.BitLen (k ^ n * P) ≤ maxDecBitLen →
  PowerInteger (mk (k * P)) n = Ok (mk (k ^ n * P)).
Proof. apply PowerInteger_int. Qed.

Lemma power_integer_exact_witness :
  PowerInteger (mk (-3 * P)) 61 = Ok (mk ((-3) ^ 61 * P)).
Proof.
  apply (power_integer_exact (-3) 61); [done|done|vm_compute; discriminate].
Defined.

(** *** Base-2 logarithm *)

Lemma in_bits (x n : Z) : 0 ≤ n → Z.abs x < 2 ^ n → n ≤ maxDecBitLen → ret_checked x = Ok (mk x).
Proof.
  intros Hn Hx Hm. apply ret_checked_ok. etrans; [|exact Hm]. by apply big.BitLen_le.
Qed.

Lemma five_nonneg : 0 ≤ fivePrecision. Proof. vm_compute. discriminate. Qed.

Lemma AddMut_ok d d2 : big.BitLen (i d + i d2) ≤ maxDecBitLen → AddMut d d2 = Ok (mk (i d + i d2)).
Proof. apply ret_checked_ok. Qed.

(** Integers [k] of at most four digits, scaled, are far inside the range. *)
Lemma small_scaled k : Z.abs k ≤ 5000 → big.BitLen (k * P) ≤ maxDecBitLen.
Proof.
  intros Hk. apply big.BitLen_le; [done|]. rewrite Z.abs_mul.
  apply Z.le_lt_trans with (5000 * P); [|reflexivity].
  change (Z.abs P) with P. apply Z.mul_le_mono_nonneg_r; [done|lia].
Qed.

(** [shifted x k x'] says that [x'] is [x] doubled [k] times: the normalised mantissa. *)
Lemma log2_up_spec fuel x k :
  0 < x → Z.of_nat fuel ≤ 2000 → Z.abs k + Z.of_nat fuel ≤ 4000 →
  P ≤ x * 2 ^ Z.of_nat fuel →
  ∃ j, 0 ≤ j ≤ Z.of_nat fuel ∧
    log2_up fuel (mk x) (mk (k * P)) = Ok (mk (x * 2 ^ j), mk ((k - j) * P)) ∧
    P ≤ x * 2 ^ j ∧ (0 < j → x * 2 ^ j < 2 * P).
Proof.
  revert x k. induction fuel as [|f IH]; intros x k Hx Hf Hk HP.
  - exists 0. rewrite Z.pow_0_r, Z.mul_1_r, Z.sub_0_r. split; [lia|].
    change (2 ^ Z.of_nat 0) with 1 in HP. cbn [log2_up]. unfold OneBigDec.
    destruct (LT _ _) eqn:E; [apply LT_iff in E; cbn [i] in E; lia|]. split; [done|lia].
  - cbn [log2_up]. unfold OneBigDec. destruct (LT _ _) eqn:E.
    + apply LT_iff in E. cbn [i] in E. rewrite Nat2Z.inj_succ, Z.pow_succ_r in HP by lia.
      rewrite AddMut_ok; cbn [negOneBigDec i].
      2:{ replace (k * P + - P) with ((k - 1) * P) by ring. apply small_scaled. lia. }
      cbn [mbind outcome_bind]. replace (k * P + - P) with ((k - 1) * P) by ring.
      unfold big.Lsh. rewrite Z.shiftl_mul_pow2, Z.pow_1_r by lia.
      destruct (IH (x * 2) (k - 1)) as (j & Hj & -> & H1 & H2); [lia..|].
      exists (j + 1). rewrite Z.pow_add_r, Z.pow_1_r by lia.
      split; [lia|]. split; [f_equal; f_equal; f_equal; ring|].
      split; [lia|]. intros _. destruct (Z.eq_dec j 0) as [->|]; [rewrite Z.pow_0_r; lia|lia].
    + exists 0. rewrite Z.pow_0_r, Z.mul_1_r, Z.sub_0_r.
      assert (¬ x < P) as Hge by (intros Hlt; rewrite <- Bool.not_true_iff_false, LT_iff in E; done).
      split; [lia|]. split; [done|]. lia.
Qed.

Lemma log2_down_spec fuel x k :
  P ≤ x → Z.of_nat fuel ≤ 2000 → Z.abs k + Z.of_nat fuel ≤ 4000 →
  x < P * 2 ^ (Z.of_nat fuel + 1) →
  ∃ j x', 0 ≤ j ≤ Z.of_nat fuel ∧
    log2_down fuel (mk x) (mk (k * P)) = Ok (mk x', mk ((k + j) * P)) ∧
    P ≤ x' < 2 * P ∧ P * 2 ^ j ≤ x < P * 2 ^ (j + 1).
Proof.
  revert x k. induction fuel as [|f IH]; intros x k Hx Hf Hk HP.
  - exists 0, x. change (2 ^ (Z.of_nat 0 + 1)) with 2 in HP. rewrite Z.pow_0_r, Z.add_0_r.
    split; [lia|]. cbn [log2_down]. unfold twoBigDec.
    destruct (GTE _ _) eqn:E; [apply GTE_iff in E; cbn [i] in E; lia|].
    split; [done|]. change (2 ^ (0 + 1)) with 2. lia.
  - cbn [log2_down]. unfold twoBigDec. destruct (GTE _ _) eqn:E.
    + apply GTE_iff in E. cbn [i] in E.
      rewrite AddMut_ok; cbn [OneBigDec i].
      2:{ replace (k * P + P) with ((k + 1) * P) by ring. apply small_scaled. lia. }
      cbn [mbind outcome_bind]. replace (k * P + P) with ((k + 1) * P) by ring.
      unfold big.Rsh. rewrite Z.shiftr_div_pow2, Z.pow_1_r by lia.
      pose proof (div_bounds 2 ltac:(lia) x) as Hd.
      assert (HP' : x < 2 * (P * 2 ^ (Z.of_nat f + 1))).
      { rewrite (Z.mul_comm P), Z.mul_assoc, <- Z.pow_succ_r, Z.mul_comm by lia.
        by replace (Z.succ (Z.of_nat f + 1)) with (Z.of_nat (S f) + 1) by lia. }
      destruct (IH (x / 2) (k + 1)) as (j & x' & Hj & -> & H1 & H2); [lia..|].
      exists (j + 1), x'. split; [lia|]. split; [f_equal; f_equal; f_equal; ring|].
      split; [done|]. rewrite !(Z.pow_add_r _ (j + 1)), Z.pow_1_r by lia.
      assert (0 < 2 ^ j) by (apply Z.pow_pos_nonneg; lia).
      rewrite Z.pow_add_r, Z.pow_1_r in * by lia. lia.
    + exists 0, x. rewrite Z.pow_0_r, Z.add_0_r.
      assert (¬ 2 * P ≤ x) as Hge by (intros Hlt; rewrite <- Bool.not_true_iff_false, GTE_iff in E; done).
      split; [lia|]. split; [done|]. change (2 ^ (0 + 1)) with 2. lia.
Qed.

(** The fractional rounds keep the mantissa in [1, 2) and leave room for what is still to add. *)
Lemma square_in_range x :
  P ≤ x < 2 * P → ∃ s, MulMut (mk x) (mk x) = Ok (mk s) ∧ P ≤ s < 4 * P.
Proof.
  intros Hx. pose proof (chop_round_spec (x * x)) as [Hc _].
  assert (P ≤ chopPrecisionAndRound (x * x) < 4 * P) as Hs.
  { split.
    - pose proof (chop_round_mono (P * P) (x * x)) as Hm. rewrite chop_round_exact in Hm.
      apply Hm. apply Z.mul_le_mono_nonneg; lia.
    - assert (x * x ≤ (2 * P - 1) * (2 * P - 1)) by (apply Z.mul_le_mono_nonneg; lia).
      assert (4 ≤ P) by done. nia. }
  exists (chopPrecisionAndRound (x * x)). split; [|done].
  unfold MulMut. cbn [i]. apply (in_bits _ 122); [done| |done].
  rewrite Z.abs_eq by lia. apply Z.lt_trans with (4 * P); [lia|reflexivity].
Qed.

Lemma log2_frac_spec n x y b k :
  Z.abs k ≤ 4000 → P ≤ x < 2 * P → k * P ≤ y < (k + 1) * P → 0 ≤ b → y + 2 * b ≤ (k + 1) * P →
  ∃ r, log2_frac n (mk x) (mk y) (mk b) = Ok (mk r) ∧ y ≤ r < (k + 1) * P.
Proof.
  revert x y b. induction n as [|n IH]; intros x y b Hk Hx Hy Hb Hroom.
  { exists y. split; [done|lia]. }
  cbn [log2_frac]. destruct (square_in_range x Hx) as (s & -> & Hs). cbn [mbind outcome_bind].
  unfold big.Rsh. cbn [i]. rewrite !Z.shiftr_div_pow2, !Z.pow_1_r by lia.
  pose proof (div_bounds 2 ltac:(lia) b) as Hdb. pose proof (div_bounds 2 ltac:(lia) s) as Hds.
  unfold twoBigDec. destruct (GTE _ _) eqn:E.
  - apply GTE_iff in E. cbn [i] in E.
    rewrite AddMut_ok; cbn [i].
    2:{ etrans; [|apply (small_scaled (Z.abs k + 1)); lia]. apply big.BitLen_mono.
        rewrite (Z.abs_eq ((Z.abs k + 1) * P)) by (pose proof P_pos; nia). pose proof P_pos. nia. }
    cbn [mbind outcome_bind].
    destruct (IH (s / 2) (y + b) (b / 2)) as (r & -> & Hr); [done|lia| |lia|lia|].
    + destruct (Z.eq_dec b 0) as [->|]; lia.
    + exists r. split; [done|lia].
  - assert (¬ 2 * P ≤ s) as Hge by (intros Hlt; rewrite <- Bool.not_true_iff_false, GTE_iff in E; done).
    apply IH; lia.
Qed.

(** [LogBase2] is defined exactly on the positive decimals.  There its integer part is the
    integer logarithm: for [x] at least 1 the result lies in [k, k+1) where [2^k <= x < 2^(k+1)],
    and for [x] below 1 in [-k, -k+1) where [1 <= x * 2^k < 2]. *)
Theorem log_base2_range (x : t) :
  big.BitLen (i x) ≤ maxDecBitLen →
  match LogBase2 x with
  | Ok r => 0 < i x ∧ ∃ k, k * P ≤ i r < (k + 1) * P ∧
      (0 ≤ k → P * 2 ^ k ≤ i x < P * 2 ^ (k + 1)) ∧
      (k < 0 → P ≤ i x * 2 ^ (- k) < 2 * P)
  | Panic e => i x ≤ 0 ∧ e = "log is not defined at <= 0"
  | Err _ => False
  end.
Proof.
  intros Hbits. unfold LogBase2, ZeroBigDec. destruct (LTE _ _) eqn:E.
  { apply LTE_iff in E. by cbn [i] in E. }
  assert (0 < i x) as Hpos.
  { rewrite <- Bool.not_true_iff_false, LTE_iff in E. cbn [i] in E. lia. }
  destruct x as [x]. cbn [i] in *. assert (Hb : big.BitLen x ≤ 1144) by done.
  assert (Hx : x < 2 ^ 1144) by (apply big.BitLen_le in Hb; lia).
  change (mk 0) with (mk (0 * P)).
  destruct (log2_up_spec 120 x 0) as (j & Hj & -> & H1 & H2); [done..| |].
  { change (Z.of_nat 120) with 120. apply Z.le_trans with (2 ^ 120); [by vm_compute|]. lia. }
  cbn [mbind outcome_bind i].
  assert (Hx1 : x * 2 ^ j < 2 ^ 1144 ∧ 0 < x * 2 ^ j).
  { destruct (Z.eq_dec j 0) as [->|]; [rewrite Z.pow_0_r; lia|].
    split; [|lia]. apply Z.lt_trans with (2 * P); [lia|reflexivity]. }
  set (x1 := x * 2 ^ j) in *. set (n := Z.to_nat (big.BitLen x1)).
  assert (HnZ : Z.of_nat n = big.BitLen x1) by (apply Z2Nat.id, big.BitLen_nonneg).
  assert (Hn1 : big.BitLen x1 ≤ 1144) by (apply big.BitLen_le; lia).
  assert (Hn2 : x1 < 2 ^ Z.of_nat n).
  { rewrite HnZ. rewrite <- (Z.abs_eq x1) at 1 by lia. apply big.BitLen_le; [apply big.BitLen_nonneg|lia]. }
  destruct (log2_down_spec n x1 (0 - j)) as (j2 & x2 & Hj2 & -> & H3 & H4); [done|lia|lia| |].
  { rewrite Z.pow_add_r, Z.pow_1_r by lia. pose proof P_pos. nia. }
  cbn [mbind outcome_bind]. assert (oneHalfBigDec = Ok (mk fivePrecision)) as -> by by vm_compute.
  cbn [mbind outcome_bind]. set (k := 0 - j + j2).
  assert (Hkb : Z.abs k ≤ 4000) by lia.
  destruct (log2_frac_spec maxLog2Iterations x2 (k * P) fivePrecision k) as (r & -> & Hr);
    [exact Hkb|exact H3|lia|apply five_nonneg|pose proof P_half; lia|].
  split; [done|]. exists k. split; [done|]. cbn [i].
  assert (Hcase : j = 0 ∨ (0 < j ∧ j2 = 0)).
  { destruct (Z.eq_dec j 0); [by left|]. right. split; [lia|].
    destruct (Z.eq_dec j2 0); [done|]. exfalso.
    assert (2 ≤ 2 ^ j2) by (rewrite <- (Z.pow_1_r 2) at 1; apply Z.pow_le_mono_r; lia).
    pose proof P_pos. nia. }
  unfold k. destruct Hcase as [-> | [Hj0 ->]].
  - unfold x1 in *. rewrite Z.pow_0_r, Z.mul_1_r in *. split; intros; [|lia].
    by replace (0 - 0 + j2) with j2 by lia.
  - split; intros; [lia|]. replace (- (0 - j + 0)) with j by lia. lia.
Qed.

Lemma log_base2_range_witness : ∃ r, LogBase2 (mk (10 * P)) = Ok r ∧ 0 < i (mk (10 * P)).
Proof.
  assert (H : big.BitLen (i (mk (10 * P))) ≤ maxDecBitLen) by (vm_compute; discriminate).
  pose proof (log_base2_range (mk (10 * P)) H) as T.
  destruct (LogBase2 (mk (10 * P))) as [r|e|e] eqn:E.
  - exists r. split; [reflexivity|exact (proj1 T)].
  - destruct T.
  - destruct T as [T _]. vm_compute in T. exfalso. by apply T.
Defined.
End BigDecPowProps.
