(* ===== verification/CLTick.v ===== *)
(** Ticks and prices: x/concentrated-liquidity/math/tick.go, precompute.go and the constants of
    types/constants.go.

    A tick is an [int64]; all ticks accepted by the code are far inside that range, so ticks are
    unbounded integers here and the range checks are those of the code.  Go's integer division
    truncates towards zero ([Z.quot]). *)
From stdpp Require Import prelude strings list.
From S2P Require Import Prelude.
From S2P Require Import GoBig.
From S2P Require Import SdkDec.
From S2P Require Import Decimal.
From S2P Require Import DecimalPow.
From S2P Require Import Sqrt.
Local Open Scope Z_scope.

Module CLConst.
Definition MinInitializedTick : Z := -108000000.
Definition MaxTick : Z := 342000000.
Definition MinCurrentTick : Z := MinInitializedTick - 1.
Definition MinInitializedTickV2 : Z := -270000000.
Definition MinCurrentTickV2 : Z := MinInitializedTickV2 - 1.
Definition ExponentAtPriceOne : Z := -6.

(** [MaxSpotPrice] is 10^38, [MinSpotPrice] 10^-12, as 18-digit decimals. *)
Definition MaxSpotPrice : Dec.t := Dec.mk (10 ^ 38 * 10 ^ 18).
Definition MinSpotPrice : Dec.t := Dec.mk (10 ^ 6).
Definition MaxSpotPriceBigDec : outcome BigDec.t := BigDec.BigDecFromDec MaxSpotPrice.
Definition MinSpotPriceBigDec : outcome BigDec.t := BigDec.BigDecFromDec MinSpotPrice.
Definition MinSpotPriceV2 : outcome BigDec.t := BigDec.NewBigDecWithPrec 1 30.

Section sqrt_prices.
  Context {D : sdk.LegacyDec}.
Definition MaxSqrtPrice : outcome Dec.t := Sqrt.MustMonotonicSqrt MaxSpotPrice.
Definition MinSqrtPrice : outcome Dec.t := Sqrt.MustMonotonicSqrt MinSpotPrice.
Definition MaxSqrtPriceBigDec : outcome BigDec.t := p ← MaxSqrtPrice; BigDec.BigDecFromDec p.
Definition MinSqrtPriceBigDec : outcome BigDec.t := p ← MinSqrtPrice; BigDec.BigDecFromDec p.
End sqrt_prices.
End CLConst.

Module CLTick.
Import CLConst.

(** *** Precomputed powers of ten *)

Definition osmomathBigOneDec : BigDec.t := BigDec.OneBigDec.
Definition osmomathBigTenDec : BigDec.t := BigDec.mk (10 * BigDec.defaultBigDecPrecisionReuse).
Definition geometricExponentIncrementDistanceInTicks : Z := 9 * 10 ^ (- ExponentAtPriceOne).

(** [bigNegPowersOfTen[i]] for 0 <= i <= 36 and [bigPowersOfTen[i]] for 0 <= i <= 308, as filled
    by [init]; other indices are out of range. *)
Definition bigNegPowersOfTen (i : Z) : outcome BigDec.t :=
  if (0 <=? i) && (i <=? BigDec.BigDecPrecision) then
    p ← BigDecPow.PowerInteger osmomathBigTenDec i; BigDec.Quo osmomathBigOneDec p
  else Panic "index out of range".
Definition bigPowersOfTen (i : Z) : outcome BigDec.t :=
  if (0 <=? i) && (i <=? 308) then BigDecPow.PowerInteger osmomathBigTenDec i
  else Panic "index out of range".

Definition powTenBigDec (exponent : Z) : outcome BigDec.t :=
  if 0 <=? exponent then bigPowersOfTen exponent else bigNegPowersOfTen (- exponent).

Record tickExpIndexData := {
  initialPrice : BigDec.t;
  maxPrice : BigDec.t;
  additiveIncrementPerTick : BigDec.t;
  initialTick : Z }.

(** One entry of the cache, for a non-negative and for a negative exponent index. *)
Definition positiveEntry (curExpIndex : Z) : outcome tickExpIndexData :=
  ip ← BigDecPow.PowerInteger osmomathBigTenDec curExpIndex;
  mp ← BigDecPow.PowerInteger osmomathBigTenDec (curExpIndex + 1);
  inc ← powTenBigDec (ExponentAtPriceOne + curExpIndex);
  Ok {| initialPrice := ip; maxPrice := mp; additiveIncrementPerTick := inc;
        initialTick := geometricExponentIncrementDistanceInTicks * curExpIndex |}.
Definition negativeEntry (curExpIndex : Z) : outcome tickExpIndexData :=
  ip ← powTenBigDec curExpIndex;
  mp ← powTenBigDec (curExpIndex + 1);
  inc ← powTenBigDec (ExponentAtPriceOne + curExpIndex);
  Ok {| initialPrice := ip; maxPrice := mp; additiveIncrementPerTick := inc;
        initialTick := geometricExponentIncrementDistanceInTicks * curExpIndex |}.

(** The two loops of [buildTickExpCache].  The cache is the list of the entries in the order they
    are built: index 0, 1, 2, ... and index -1, -2, ... *)
Fixpoint build_positive (fuel : nat) (price limit : BigDec.t) (curExpIndex : Z)
    : outcome (list tickExpIndexData) :=
  if BigDec.LT price limit then
    match fuel with
    | O => Panic "fuel"
    | S fuel => e ← positiveEntry curExpIndex;
                es ← build_positive fuel (maxPrice e) limit (curExpIndex + 1); Ok (e :: es)
    end
  else Ok [].
Fixpoint build_negative (fuel : nat) (price limit : BigDec.t) (curExpIndex : Z)
    : outcome (list tickExpIndexData) :=
  if BigDec.GT price limit then
    match fuel with
    | O => Panic "fuel"
    | S fuel => e ← negativeEntry curExpIndex;
                es ← build_negative fuel (initialPrice e) limit (curExpIndex - 1); Ok (e :: es)
    end
  else Ok [].
Definition buildTickExpCache : outcome (list tickExpIndexData * list tickExpIndexData) :=
  maxP ← BigDec.BigDecFromDec MaxSpotPrice;
  pos ← build_positive 100 osmomathBigOneDec maxP 0;
  minP ← BigDec.NewBigDecWithPrec 1 30;
  neg ← build_negative 100 osmomathBigOneDec minP (-1);
  Ok (pos, neg).

(** *** Tick to price *)

Definition TickToAdditiveGeometricIndices (tickIndex : Z) : outcome (Z * Z) :=
  if tickIndex =? 0 then Ok (0, 0)
  else if (tickIndex =? MinInitializedTickV2) || (tickIndex =? MinCurrentTickV2) then Ok (0, -30)
  else if tickIndex <? MinCurrentTickV2 then Err "TickIndexMinimumError"
  else if MaxTick <? tickIndex then Err "TickIndexMaximumError"
  else
    let geometricExponentDelta := Z.quot tickIndex geometricExponentIncrementDistanceInTicks in
    let numAdditiveTicks :=
      tickIndex - geometricExponentDelta * geometricExponentIncrementDistanceInTicks in
    Ok (numAdditiveTicks, geometricExponentDelta).

Definition TickToPrice (tickIndex : Z) : outcome BigDec.t :=
  if tickIndex =? 0 then Ok BigDec.OneBigDec
  else if (tickIndex =? MinInitializedTickV2) || (tickIndex =? MinCurrentTickV2) then MinSpotPriceV2
  else
    '(numAdditiveTicks, geometricExponentDelta) ← TickToAdditiveGeometricIndices tickIndex;
    let exponentAtCurrentTick := ExponentAtPriceOne + geometricExponentDelta in
    let unscaledPrice := 1000000 in
    let '(exponentAtCurrentTick, unscaledPrice) :=
      if tickIndex <? 0 then (exponentAtCurrentTick - 1, unscaledPrice * 10)
      else (exponentAtCurrentTick, unscaledPrice) in
    let unscaledPrice := unscaledPrice + numAdditiveTicks in
    p10 ← powTenBigDec exponentAtCurrentTick;
    price ← BigDec.MulInt64 p10 unscaledPrice;
    maxP ← MaxSpotPriceBigDec;
    minP ← MinSpotPriceV2;
    if BigDec.GT price maxP || BigDec.LT price minP then Err "PriceBoundError" else Ok price.

(** *** Rounding a tick to the spacing *)

Definition RoundDownTickToSpacing (tickIndex tickSpacing : Z) : outcome Z :=
  if tickSpacing =? 0 then Panic "integer divide by zero"
  else
    let tickIndexModulus := Z.rem tickIndex tickSpacing in
    let tickIndexModulus :=
      if tickIndexModulus <? 0 then tickIndexModulus + tickSpacing else tickIndexModulus in
    let tickIndex := if tickIndexModulus =? 0 then tickIndex else tickIndex - tickIndexModulus in
    if (MaxTick <? tickIndex) || (tickIndex <? MinInitializedTickV2)
    then Err "TickIndexNotWithinBoundariesError" else Ok tickIndex.

(** *** Price to tick *)

(** The search for the geometric spacing over the cached entries of one sign, in the order the
    loop visits them; a missing entry is a nil dereference. *)
Fixpoint find_up (es : list tickExpIndexData) (price : BigDec.t) : outcome tickExpIndexData :=
  match es with
  | [] => Panic "nil dereference"
  | e :: es => if BigDec.LT (maxPrice e) price then find_up es price else Ok e
  end.
Fixpoint find_down (es : list tickExpIndexData) (price : BigDec.t) : outcome tickExpIndexData :=
  match es with
  | [] => Panic "nil dereference"
  | e :: es => if BigDec.GT (initialPrice e) price then find_down es price else Ok e
  end.

(** [price.ChopPrecisionMut] also chops the caller's decimal; every caller passes a fresh one. *)
Definition CalculatePriceToTick (price : BigDec.t) : outcome Z :=
  if BigDec.IsNegative price then Err "price must be greater than zero"
  else
    maxP ← MaxSpotPriceBigDec;
    minP ← MinSpotPriceV2;
    if BigDec.GT price maxP || BigDec.LT price minP then Err "PriceBoundError"
    else if BigDec.Equal price osmomathBigOneDec then Ok 0
    else
      minV1 ← MinSpotPriceBigDec;
      price ← (if BigDec.GTE price minV1 then BigDec.ChopPrecisionMut price Dec.DecPrecision
               else Ok price);
      '(pos, neg) ← buildTickExpCache;
      geoSpacing ← (if BigDec.GT price osmomathBigOneDec then find_up pos price
                    else find_down neg price);
      priceInThisExponent ← BigDec.Sub price (initialPrice geoSpacing);
      ticksFilledByCurrentSpacing ←
        BigDec.QuoMut priceInThisExponent (additiveIncrementPerTick geoSpacing);
      t ← BigDec.TruncateInt64 ticksFilledByCurrentSpacing;
      Ok (t + initialTick geoSpacing).

Section with_dec.
  Context {D : sdk.LegacyDec}.

Definition TickToSqrtPrice (tickIndex : Z) : outcome BigDec.t :=
  priceBigDec ← TickToPrice tickIndex;
  if MinInitializedTick <=? tickIndex then
    let price := BigDec.ToDec priceBigDec in
    sqrtPrice ← Sqrt.MonotonicSqrtMut price;
    BigDec.BigDecFromDecMut sqrtPrice
  else Sqrt.MonotonicSqrtBigDec priceBigDec.

Definition TicksToSqrtPrice (lowerTick upperTick : Z) : outcome (BigDec.t * BigDec.t) :=
  if upperTick <=? lowerTick then Err "InvalidLowerUpperTickError"
  else
    sqrtPriceUpperTick ← TickToSqrtPrice upperTick;
    sqrtPriceLowerTick ← TickToSqrtPrice lowerTick;
    Ok (sqrtPriceLowerTick, sqrtPriceUpperTick).

(** An error of [TickToSqrtPrice] is replaced by [ErrCalculateSqrtPriceToTick]. *)
Definition sqrtPriceAt (tick : Z) : outcome BigDec.t :=
  match TickToSqrtPrice tick with
  | Err _ => Err "ErrCalculateSqrtPriceToTick"
  | r => r
  end.

Definition CalculateSqrtPriceToTick (sqrtPrice : BigDec.t) : outcome Z :=
  price ← BigDec.Mul sqrtPrice sqrtPrice;
  tick ← CalculatePriceToTick price;
  if tick <? MinCurrentTick then Err "TickIndexMinimumError"
  else
    let '(tick, outOfBounds) :=
      if tick <=? MinInitializedTickV2 then (MinInitializedTickV2 + 1, true)
      else if MaxTick - 1 <=? tick then (MaxTick - 2, true)
      else (tick, false) in
    sqrtPriceTplus1 ← sqrtPriceAt (tick + 1);
    if BigDec.GTE sqrtPrice sqrtPriceTplus1 then
      sqrtPriceTplus2 ← sqrtPriceAt (tick + 2);
      if (negb outOfBounds && BigDec.GTE sqrtPrice sqrtPriceTplus2)
         || (outOfBounds && BigDec.GT sqrtPrice sqrtPriceTplus2)
      then Err "SqrtPriceToTickError"
      else if BigDec.Equal sqrtPrice sqrtPriceTplus2 then Ok (tick + 2)
      else Ok (tick + 1)
    else
      sqrtPriceT ← sqrtPriceAt tick;
      if BigDec.GTE sqrtPrice sqrtPriceT then Ok tick
      else
        sqrtPriceTmin1 ← sqrtPriceAt (tick - 1);
        if BigDec.LT sqrtPrice sqrtPriceTmin1 then Err "SqrtPriceToTickError"
        else Ok (tick - 1).

(** [int64(n)] of a [uint64]. *)
Definition int64_of_uint64 (n : Z) : Z := if n <? 2 ^ 63 then n else n - 2 ^ 64.

Definition SqrtPriceToTickRoundDownSpacing (sqrtPrice : BigDec.t) (tickSpacing : Z) : outcome Z :=
  tickIndex ← CalculateSqrtPriceToTick sqrtPrice;
  RoundDownTickToSpacing tickIndex (int64_of_uint64 tickSpacing).
End with_dec.
End CLTick.
