(* ===== verification/CLTickProps.v ===== *)
(** Ticks and prices: the tick-to-price table in closed form, its monotonicity, the round trip
    through [CalculatePriceToTick], and the bucket found for a square root price. *)
From stdpp Require Import prelude strings list.
From S2P Require Import Prelude.
From S2P Require Import GoBig.
From S2P Require Import Int.
From S2P Require Import SdkDec.
From S2P Require Import Decimal.
From S2P Require Import DecimalFacts.
From S2P Require Import DecimalPow.
From S2P Require Import DecimalPowProps.
From S2P Require Import Sqrt.
From S2P Require Import CLTick.
Local Open Scope Z_scope.
Import BigDec BigDecFacts CLConst CLTick.

Module CLTickProps.

(** Bounds are decided by their bit lengths once the numbers are closed. *)
Lemma in_range_le x y :
  0 ≤ x ≤ y → big.BitLen y ≤ maxDecBitLen → big.BitLen x ≤ maxDecBitLen.
Proof. intros Hx Hy. etrans; [|exact Hy]. apply big.BitLen_mono. lia. Qed.

Lemma pow10_pos n : 0 ≤ n → 0 < 10 ^ n. Proof. intros. by apply Z.pow_pos_nonneg. Qed.
Lemma pow10_le a b : 0 ≤ a ≤ b → 10 ^ a ≤ 10 ^ b.
Proof. intros. apply Z.pow_le_mono_r; lia. Qed.
Lemma P_pow : P = 10 ^ 36. Proof. done. Qed.

(** *** Precomputed powers *)

Lemma PowerInteger_ten n :
  0 ≤ n ≤ 308 → BigDecPow.PowerInteger osmomathBigTenDec n = Ok (mk (10 ^ n * P)).
Proof.
  intros Hn. apply BigDecPowProps.PowerInteger_int; [done|lia|].
  apply (in_range_le _ (10 ^ 308 * P)); [|by vm_compute].
  pose proof (pow10_pos n ltac:(lia)). pose proof (pow10_le n 308 ltac:(lia)). pose proof P_pos. nia.
Qed.

(** Dividing whole multiples exactly. *)
Lemma QuoMut_exact a b q :
  b ≠ 0 → a * P = q * b → big.BitLen q ≤ maxDecBitLen → QuoMut (mk a) (mk b) = Ok (mk q).
Proof.
  intros Hb Heq Hq. unfold QuoMut, big.Quo. cbn [i]. rewrite (proj2 (Z.eqb_neq _ _)) by done.
  cbn [mbind outcome_bind]. rewrite P_squared.
  replace (a * (P * P)) with (P * q * b) by (rewrite Z.mul_assoc, Heq; ring).
  rewrite Z.quot_mul, chop_round_exact by done. by apply ret_checked_ok.
Qed.

Lemma powTen_eq e : -36 ≤ e ≤ 308 → powTenBigDec e = Ok (mk (10 ^ (36 + e))).
Proof.
  intros He. unfold powTenBigDec, bigPowersOfTen, bigNegPowersOfTen.
  destruct (Z.leb_spec 0 e).
  - rewrite (proj2 (Z.leb_le e 308)) by lia. cbn [andb]. rewrite PowerInteger_ten by lia.
    by rewrite P_pow, Z.mul_comm, <- Z.pow_add_r by lia.
  - rewrite (proj2 (Z.leb_le 0 (- e))), (proj2 (Z.leb_le (- e) BigDecPrecision)) by
      (unfold BigDecPrecision; lia).
    cbn [andb]. rewrite PowerInteger_ten by lia. cbn [mbind outcome_bind].
    unfold Quo, Clone, osmomathBigOneDec, OneBigDec. cbn [i].
    apply QuoMut_exact.
    + pose proof (pow10_pos (- e) ltac:(lia)). pose proof P_pos. nia.
    + rewrite (Z.mul_assoc (10 ^ (36 + e))), <- Z.pow_add_r by lia.
      replace (36 + e + - e) with 36 by lia. by rewrite <- P_pow.
    + apply (in_range_le _ (10 ^ 36)); [|by vm_compute].
      pose proof (pow10_pos (36 + e) ltac:(lia)). pose proof (pow10_le (36 + e) 36 ltac:(lia)). lia.
Qed.

(** *** The price table *)

Abbreviation N := geometricExponentIncrementDistanceInTicks.
Lemma N_eq : N = 9000000. Proof. done. Qed.

(** The price of a tick, times 10^36: within each power of ten the price grows by one unit of
    10^-6 of that power per tick. *)
Definition price (t : Z) : Z := 10 ^ (30 + t / N) * (1000000 + t mod N).

Definition tick_in_range (t : Z) : Prop := MinInitializedTickV2 ≤ t ≤ MaxTick.

Lemma tick_parts t :
  tick_in_range t → -30 ≤ t / N ≤ 38 ∧ 0 ≤ t mod N < 9000000 ∧ t = N * (t / N) + t mod N ∧
    (t / N = 38 → t mod N = 0).
Proof.
  unfold tick_in_range, MinInitializedTickV2, MaxTick. intros Ht. rewrite N_eq.
  pose proof (Z.div_mod t 9000000 ltac:(lia)). pose proof (Z.mod_pos_bound t 9000000 ltac:(lia)). lia.
Qed.

Lemma tick_zero : tick_in_range 0. Proof. done. Qed.
Lemma price_zero : price 0 = P. Proof. done. Qed.

Lemma price_mono t u : tick_in_range t → tick_in_range u → t < u → price t < price u.
Proof.
  intros Ht Hu Hlt. pose proof (tick_parts t Ht) as (Hq & Ha & Et & _).
  pose proof (tick_parts u Hu) as (Hq' & Ha' & Eu & _). rewrite N_eq in Et, Eu. unfold price.
  rewrite N_eq in *.
  assert (t / 9000000 ≤ u / 9000000) as Hle by (apply Z.div_le_mono; lia).
  pose proof (pow10_pos (30 + t / 9000000) ltac:(lia)) as Hp.
  destruct (Z.eq_dec (t / 9000000) (u / 9000000)) as [E|E].
  - rewrite <- E in *. apply Z.mul_lt_mono_pos_l; [done|lia].
  - pose proof (pow10_le (30 + t / 9000000 + 1) (30 + u / 9000000) ltac:(lia)) as Hp'.
    rewrite Z.pow_add_r, Z.pow_1_r in Hp' by lia. nia.
Qed.

Lemma price_mono_le t u : tick_in_range t → tick_in_range u → t ≤ u → price t ≤ price u.
Proof.
  intros Ht Hu Hle. destruct (Z.eq_dec t u) as [->|]; [done|].
  apply Z.lt_le_incl, price_mono; [done..|lia].
Qed.

Lemma price_bounds t : tick_in_range t → 10 ^ 6 ≤ price t ≤ 10 ^ 74.
Proof.
  intros Ht. split.
  - change (10 ^ 6) with (price MinInitializedTickV2). apply price_mono_le; [done|done|apply Ht].
  - change (10 ^ 74) with (price MaxTick). apply price_mono_le; [done|done|apply Ht].
Qed.

(** Truncated division agrees with the closed form on both sides of zero. *)
Lemma indices_price t :
  tick_in_range t → t ≠ MinInitializedTickV2 →
  let d := Z.quot t N in let a := t - d * N in
  let e := if t <? 0 then ExponentAtPriceOne + d - 1 else ExponentAtPriceOne + d in
  let u := (if t <? 0 then 10000000 else 1000000) + a in
  -36 ≤ e ≤ 308 ∧ 10 ^ (36 + e) * u = price t.
Proof.
  intros Ht Hne. pose proof (tick_parts t Ht) as (Hq & Ha & Et & _).
  unfold MinInitializedTickV2, tick_in_range, MaxTick, ExponentAtPriceOne, price in *.
  rewrite N_eq in *. cbv zeta.
  destruct (Z.ltb_spec t 0) as [Hneg|Hpos].
  - assert (Hz : (t mod 9000000 = 0 ∧ Z.quot t 9000000 = t / 9000000) ∨
                 (0 < t mod 9000000 ∧ Z.quot t 9000000 = t / 9000000 + 1)).
    { destruct (quot_bounds 9000000 ltac:(lia) t) as [_ Hb]. specialize (Hb ltac:(lia)).
      pose proof (div_bounds 9000000 ltac:(lia) t). lia. }
    destruct Hz as [[Hm ->]|[Hm ->]].
    + split; [lia|]. replace (36 + (-6 + t / 9000000 - 1)) with (29 + t / 9000000) by lia.
      replace (30 + t / 9000000) with (29 + t / 9000000 + 1) by lia.
      rewrite (Z.pow_add_r _ _ 1), Z.pow_1_r by lia. lia.
    + split; [lia|]. replace (36 + (-6 + (t / 9000000 + 1) - 1)) with (30 + t / 9000000) by lia. lia.
  - rewrite Z.quot_div_nonneg by lia. split; [lia|].
    replace (36 + (-6 + t / 9000000)) with (30 + t / 9000000) by lia. f_equal. lia.
Qed.

Lemma MaxSpotPriceBigDec_eq : MaxSpotPriceBigDec = Ok (mk (10 ^ 74)).
Proof. by vm_compute. Qed.
Lemma MinSpotPriceV2_eq : MinSpotPriceV2 = Ok (mk (10 ^ 6)).
Proof. by vm_compute. Qed.
Lemma MinSpotPriceBigDec_eq : MinSpotPriceBigDec = Ok (mk (10 ^ 24)).
Proof. by vm_compute. Qed.

Lemma LT_false a b : i b ≤ i a → LT a b = false.
Proof. intros H. rewrite <- Bool.not_true_iff_false, LT_iff. lia. Qed.
Lemma GT_false a b : i a ≤ i b → GT a b = false.
Proof. intros H. rewrite <- Bool.not_true_iff_false, GT_iff. lia. Qed.
Lemma GTE_false a b : i a < i b → GTE a b = false.
Proof. intros H. rewrite <- Bool.not_true_iff_false, GTE_iff. lia. Qed.

Lemma TickToPrice_eq t : tick_in_range t → TickToPrice t = Ok (mk (price t)).
Proof.
  intros Ht. unfold TickToPrice.
  destruct (Z.eqb_spec t 0) as [->|H0]; [done|].
  destruct (Z.eqb_spec t MinInitializedTickV2) as [->|H1]; [by rewrite MinSpotPriceV2_eq|].
  pose proof (indices_price t Ht H1) as Hp. cbv zeta in Hp.
  unfold tick_in_range, MinInitializedTickV2, MaxTick in *.
  destruct (Z.eqb_spec t MinCurrentTickV2) as [->|H2]; [unfold MinCurrentTickV2, MinInitializedTickV2 in *; lia|]. cbn [orb].
  unfold TickToAdditiveGeometricIndices.
  rewrite (proj2 (Z.eqb_neq t 0)), (proj2 (Z.eqb_neq t MinInitializedTickV2)),
    (proj2 (Z.eqb_neq t MinCurrentTickV2)) by done. cbn [orb].
  unfold MinCurrentTickV2, MinInitializedTickV2, MaxTick.
  rewrite (proj2 (Z.ltb_ge t (-270000000 - 1))), (proj2 (Z.ltb_ge 342000000 t)) by lia.
  cbn [mbind outcome_bind].
  assert (Hb : 10 ^ 6 ≤ price t ≤ 10 ^ 74) by (by apply price_bounds).
  destruct (t <? 0);
    destruct Hp as [He Hv]; rewrite powTen_eq by done; cbn [mbind outcome_bind];
    unfold MulInt64; cbn [i]; (rewrite Hv || (change (1000000 * 10) with 10000000; rewrite Hv));
    (rewrite ret_checked_ok; [|apply (in_range_le _ (10 ^ 74)); [lia|by vm_compute]]);
    cbn [mbind outcome_bind]; rewrite MaxSpotPriceBigDec_eq, MinSpotPriceV2_eq;
    cbn [mbind outcome_bind]; rewrite GT_false, LT_false by (cbn [i]; lia); done.
Qed.

Lemma TickToPrice_below : TickToPrice MinCurrentTickV2 = Ok (mk (10 ^ 6)).
Proof. by vm_compute. Qed.

Lemma TickToPrice_out t :
  t < MinCurrentTickV2 ∨ MaxTick < t → ∃ e, TickToPrice t = Err e.
Proof.
  unfold MinCurrentTickV2, MinInitializedTickV2, MaxTick. intros Ht.
  unfold TickToPrice, TickToAdditiveGeometricIndices, MinCurrentTickV2, MinInitializedTickV2, MaxTick.
  repeat (rewrite (proj2 (Z.eqb_neq t _)) by lia). cbn [orb].
  destruct (Z.ltb_spec t (-270000000 - 1)); [by eexists|].
  rewrite (proj2 (Z.ltb_lt _ t)) by lia. by eexists.
Qed.

(** *** The cached spacings *)

Definition entry (c : Z) : tickExpIndexData :=
  {| initialPrice := mk (10 ^ (36 + c)); maxPrice := mk (10 ^ (37 + c));
     additiveIncrementPerTick := mk (10 ^ (30 + c)); initialTick := N * c |}.

Lemma cache_eq :
  buildTickExpCache = Ok (entry <$> seqZ 0 38, (λ k, entry (- k)) <$> seqZ 1 30).
Proof. vm_compute. reflexivity. Qed.

Lemma seqZ_S c n : seqZ c (Z.of_nat (S n)) = c :: seqZ (c + 1) (Z.of_nat n).
Proof.
  rewrite seqZ_cons by lia. f_equal. f_equal; lia.
Qed.

(** The searches stop at the spacing that contains the price. *)
Lemma find_up_spec n c p c' :
  0 ≤ c → c ≤ c' < c + Z.of_nat n → p ≤ 10 ^ (37 + c') → (c' = c ∨ 10 ^ (36 + c') < p) →
  find_up (entry <$> seqZ c (Z.of_nat n)) (mk p) = Ok (entry c').
Proof.
  revert c. induction n as [|n IH]; intros c Hc Hr Hp Hlow; [lia|].
  rewrite seqZ_S. cbn [fmap list_fmap find_up]. cbn [maxPrice entry].
  destruct (Z.eq_dec c' c) as [->|Hne].
  - by rewrite LT_false by (cbn [i]; lia).
  - destruct Hlow as [|Hlow]; [done|].
    rewrite (proj2 (LT_iff _ _)); [apply IH; [lia|lia|done|by right]|].
    cbn [i]. eapply Z.le_lt_trans; [|exact Hlow]. apply pow10_le. lia.
Qed.

Lemma find_down_spec n k p k' :
  0 ≤ k → k ≤ k' < k + Z.of_nat n → k' ≤ 36 → 10 ^ (36 - k') ≤ p →
  (k' = k ∨ p < 10 ^ (37 - k')) →
  find_down ((λ k, entry (- k)) <$> seqZ k (Z.of_nat n)) (mk p) = Ok (entry (- k')).
Proof.
  revert k. induction n as [|n IH]; intros k Hk Hr Hk' Hp Hup; [lia|].
  rewrite seqZ_S. cbn [fmap list_fmap find_down]. cbn [initialPrice entry].
  destruct (Z.eq_dec k' k) as [->|Hne].
  - by rewrite GT_false by (cbn [i]; rewrite Z.add_opp_r; lia).
  - destruct Hup as [|Hup]; [done|].
    rewrite (proj2 (GT_iff _ _)); [apply IH; [lia|lia|done|done|by right]|].
    cbn [i]. eapply Z.lt_le_trans; [exact Hup|]. apply pow10_le. lia.
Qed.

(** Inside spacing [c], [n] whole increments above its initial price give tick [N * c + n]. *)
Lemma ticks_filled c n :
  -30 ≤ c ≤ 37 → 0 ≤ n ≤ N →
  ∃ d q, Sub (mk (10 ^ (36 + c) + n * 10 ^ (30 + c))) (mk (10 ^ (36 + c))) = Ok d ∧
    QuoMut d (mk (10 ^ (30 + c))) = Ok q ∧ TruncateInt64 q = Ok n.
Proof.
  intros Hc Hn. rewrite N_eq in Hn. pose proof (pow10_pos (30 + c) ltac:(lia)) as Hp.
  pose proof (pow10_le (30 + c) 67 ltac:(lia)) as Hp'.
  exists (mk (n * 10 ^ (30 + c))), (mk (n * P)). split; [|split].
  - unfold Sub, SubMut, Clone. cbn [i].
    replace (10 ^ (36 + c) + n * 10 ^ (30 + c) - 10 ^ (36 + c)) with (n * 10 ^ (30 + c)) by ring.
    apply ret_checked_ok. apply (in_range_le _ (9000000 * 10 ^ 67)); [nia|by vm_compute].
  - apply QuoMut_exact; [lia|ring|].
    apply (in_range_le _ (9000000 * P)); [pose proof P_pos; nia|by vm_compute].
  - unfold TruncateInt64, chopPrecisionAndTruncate. cbn [i]. rewrite Z.quot_mul by done.
    unfold big.IsInt64. rewrite (proj2 (Z.leb_le _ _)), (proj2 (Z.ltb_lt _ _)) by lia. done.
Qed.

(** The 18-digit chop leaves the prices of the original tick range unchanged. *)
Lemma price_multiple t :
  tick_in_range t → 10 ^ 24 ≤ price t → ∃ m, price t = m * 10 ^ 18.
Proof.
  intros Ht Hge. pose proof (tick_parts t Ht) as (Hq & Ha & _ & _). unfold price in *.
  assert (-12 ≤ t / N) as Hq'.
  { destruct (Z.lt_ge_cases (t / N) (-12)) as [Hlt|]; [|lia]. exfalso.
    pose proof (pow10_le (30 + t / N) 17 ltac:(lia)). nia. }
  exists (10 ^ (12 + t / N) * (1000000 + t mod N)).
  replace (30 + t / N) with (12 + t / N + 18) by lia.
  rewrite Z.pow_add_r by lia. ring.
Qed.

Lemma chop_price t minV1 :
  tick_in_range t → i minV1 = 10 ^ 24 →
  (if GTE (mk (price t)) minV1 then ChopPrecisionMut (mk (price t)) Dec.DecPrecision
   else Ok (mk (price t))) = Ok (mk (price t)).
Proof.
  intros Ht Hm. destruct (GTE _ _) eqn:E; [|done]. apply GTE_iff in E. cbn [i] in E.
  rewrite Hm in E. destruct (price_multiple t Ht E) as (m & ->).
  unfold ChopPrecisionMut, Dec.DecPrecision. change (BigDecPrecision <? 18) with false. cbn match.
  change (BigDecPrecision - 18) with 18. cbn [i]. by rewrite Z.quot_mul by done.
Qed.

(** A price above one in spacing-relative form. *)
Lemma price_in_spacing t c n :
  t = N * c + n → 0 ≤ n < N → -30 ≤ c → price t = 10 ^ (36 + c) + n * 10 ^ (30 + c).
Proof.
  intros -> Hn Hc. unfold price. rewrite N_eq in *.
  replace (9000000 * c + n) with (n + c * 9000000) by lia.
  rewrite Z.div_add, Z.mod_add, Z.div_small, Z.mod_small, Z.add_0_l by lia.
  replace (36 + c) with (30 + c + 6) by lia. rewrite (Z.pow_add_r _ _ 6) by lia. lia.
Qed.

Lemma find_spacing t :
  tick_in_range t → t ≠ 0 →
  ∃ c n, -30 ≤ c ≤ 37 ∧ 0 ≤ n ≤ N ∧ t = n + N * c ∧
    price t = 10 ^ (36 + c) + n * 10 ^ (30 + c) ∧
    (if GT (mk (price t)) osmomathBigOneDec then find_up (entry <$> seqZ 0 38) (mk (price t))
     else find_down ((λ k, entry (- k)) <$> seqZ 1 30) (mk (price t))) = Ok (entry c).
Proof.
  intros Ht Hne. pose proof (tick_parts t Ht) as (Hq & Ha & Et & Hend). rewrite N_eq in *.
  pose proof price_zero as HP0. pose proof tick_zero as Hz.
  set (q := t / 9000000) in *. set (a := t mod 9000000) in *.
  assert (Hpr : price t = 10 ^ (36 + q) + a * 10 ^ (30 + q))
    by (apply price_in_spacing; rewrite ?N_eq; lia).
  pose proof (pow10_pos (30 + q) ltac:(lia)) as Hpp.
  assert (H37 : 10 ^ (37 + q) = 10 ^ (30 + q) * 10000000)
    by (replace (37 + q) with (30 + q + 7) by lia; rewrite (Z.pow_add_r _ _ 7) by lia; lia).
  assert (H36 : 10 ^ (36 + q) = 10 ^ (30 + q) * 1000000)
    by (replace (36 + q) with (30 + q + 6) by lia; rewrite (Z.pow_add_r _ _ 6) by lia; lia).
  destruct (GT _ _) eqn:E; unfold osmomathBigOneDec, OneBigDec in E.
  - apply GT_iff in E. cbn [i] in E. rewrite <- HP0 in E.
    assert (0 < t) as Htpos.
    { destruct (Z.lt_ge_cases 0 t); [assumption|]. pose proof (price_mono_le t 0 Ht Hz ltac:(lia)). lia. }
    assert (0 ≤ q) by (unfold q; apply Z.div_pos; lia).
    destruct (Z.eq_dec a 0) as [Ha0|Ha0].
    + exists (q - 1), 9000000. split; [lia|]. split; [lia|]. split; [lia|].
      replace (36 + (q - 1)) with (30 + (q - 1) + 6) by lia.
      assert (price t = 10 ^ (30 + (q - 1) + 6) + 9000000 * 10 ^ (30 + (q - 1))) as Hv.
      { rewrite Hpr, Ha0, (Z.pow_add_r _ _ 6) by lia. replace (36 + q) with (30 + (q - 1) + 7) by lia.
        rewrite (Z.pow_add_r _ _ 7) by lia. lia. }
      split; [exact Hv|]. apply (find_up_spec 38); [lia|lia| |].
      * replace (37 + (q - 1)) with (36 + q) by lia. lia.
      * destruct (Z.eq_dec q 1); [left; lia|right].
        replace (36 + (q - 1)) with (35 + q) by lia. rewrite Hpr, Ha0.
        pose proof (pow10_pos (35 + q) ltac:(lia)).
        replace (36 + q) with (35 + q + 1) by lia.
        rewrite (Z.pow_add_r 10 (35 + q) 1), Z.pow_1_r by lia. lia.
    + exists q, a. split; [lia|]. split; [lia|]. split; [lia|]. split; [exact Hpr|].
      apply (find_up_spec 38); [lia|lia|nia|]. right. nia.
  - assert (price t ≤ price 0) as Hle.
    { rewrite <- Bool.not_true_iff_false, GT_iff in E. cbn [i] in E. rewrite HP0. lia. }
    assert (t < 0) as Htneg.
    { destruct (Z.lt_ge_cases t 0); [assumption|]. pose proof (price_mono 0 t Hz Ht ltac:(lia)). lia. }
    assert (q < 0) by lia.
    exists q, a. split; [lia|]. split; [lia|]. split; [lia|]. split; [exact Hpr|].
    replace q with (- - q) at 1 by lia. apply (find_down_spec 30); [lia|lia|lia| |].
    + replace (36 - - q) with (36 + q) by lia. nia.
    + right. replace (37 - - q) with (37 + q) by lia. nia.
Qed.

Lemma CalculatePriceToTick_eq t :
  tick_in_range t → CalculatePriceToTick (mk (price t)) = Ok t.
Proof.
  intros Ht. pose proof (price_bounds t Ht) as Hb.
  unfold CalculatePriceToTick, IsNegative. rewrite Sign_neg. cbn [i].
  rewrite (proj2 (Z.ltb_ge _ _)) by lia.
  rewrite MaxSpotPriceBigDec_eq, MinSpotPriceV2_eq, MinSpotPriceBigDec_eq, !bind_of_Ok.
  rewrite GT_false, LT_false by (cbn [i]; lia). cbn [orb].
  destruct (Z.eq_dec t 0) as [->|Hne].
  { rewrite price_zero, (proj2 (Equal_iff (mk P) osmomathBigOneDec)) by reflexivity. reflexivity. }
  destruct (Equal _ _) eqn:E.
  { apply Equal_iff in E. injection E as E. rewrite <- price_zero in E.
    destruct (Z.lt_total t 0) as [Hl|[Hl|Hl]]; [|done|];
      apply price_mono in Hl; (done || lia). }
  rewrite chop_price by done. rewrite bind_of_Ok, cache_eq, bind_of_Ok.
  destruct (find_spacing t Ht Hne) as (c & n & Hc & Hn & Et & Hv & ->). rewrite bind_of_Ok.
  cbn [initialPrice additiveIncrementPerTick initialTick entry]. rewrite Hv.
  destruct (ticks_filled c n Hc Hn) as (d & q & -> & Hq & Hti).
  rewrite bind_of_Ok, Hq, bind_of_Ok, Hti, bind_of_Ok. by rewrite Et.
Qed.

(** *** Square root prices *)

Section sqrt_prices.
  Context {D : sdk.LegacyDec} {L : sdk.LegacyDecLaws D}.

Lemma ToDec_price t m : price t = m * 10 ^ 18 → Dec.i (ToDec (mk (price t))) = m.
Proof using. intros Hm. unfold ToDec. cbn [Dec.i i]. by rewrite Hm, Z.quot_mul. Qed.

Lemma price_ge_v1 t : tick_in_range t → MinInitializedTick ≤ t ↔ 10 ^ 24 ≤ price t.
Proof using.
  intros Ht. assert (tick_in_range MinInitializedTick) as Hm by done.
  assert (price MinInitializedTick = 10 ^ 24) as Hv by (vm_compute; reflexivity).
  rewrite <- Hv. split; intros Hle; [by apply price_mono_le|].
  destruct (Z.le_gt_cases MinInitializedTick t) as [|Hlt]; [done|].
  pose proof (price_mono t MinInitializedTick Ht Hm Hlt). lia.
Qed.

(** The square root price on both sides of the original minimum tick: an 18-digit root widened by
    10^18, or a 36-digit root. *)
Lemma TickToSqrtPrice_spec t :
  tick_in_range t →
  ∃ r, TickToSqrtPrice t = Ok (mk r) ∧
    if MinInitializedTick <=? t
    then ∃ s m, r = s * 10 ^ 18 ∧ price t = m * 10 ^ 18 ∧ Sqrt.is_sqrt_up (m * 10 ^ 18) s
    else Sqrt.is_sqrt_up (price t * P) r.
Proof using L.
  intros Ht. unfold TickToSqrtPrice. rewrite TickToPrice_eq, bind_of_Ok by done.
  pose proof (price_bounds t Ht) as Hb.
  destruct (Z.leb_spec MinInitializedTick t) as [Hge|Hlt].
  - apply price_ge_v1 in Hge as Hp; [|done]. destruct (price_multiple t Ht Hp) as (m & Hm).
    destruct (Sqrt.MonotonicSqrtMut_spec (ToDec (mk (price t)))) as (s & -> & Hs).
    { rewrite (ToDec_price t m Hm). lia. }
    rewrite (ToDec_price t m Hm) in Hs. rewrite bind_of_Ok, BigDecFromDecMut_eq.
    eexists. split; [done|]. exists (Dec.i s), m. done.
  - destruct (Sqrt.MonotonicSqrtBigDec_spec (mk (price t))) as ([r] & -> & Hs).
    { cbn [i]. lia. }
    exists r. done.
Qed.

(** The root of a tick is at least the exact square root of its price. *)
Lemma sqrt_price_ge t r :
  tick_in_range t → TickToSqrtPrice t = Ok (mk r) → 0 ≤ r ∧ price t * P ≤ r * r.
Proof using L.
  intros Ht Hr. destruct (TickToSqrtPrice_spec t Ht) as (r' & Hr' & Hs).
  rewrite Hr in Hr'. injection Hr' as <-. destruct (MinInitializedTick <=? t).
  - destruct Hs as (s & m & -> & -> & H0 & Hge & _). rewrite P_pow. split; [lia|].
    change (10 ^ 36) with (10 ^ 18 * 10 ^ 18). nia.
  - destruct Hs as (H0 & Hge & _). done.
Qed.

(** A least root is less than one unit above the exact root. *)
Lemma sqrt_up_tight n r : 0 < n → Sqrt.is_sqrt_up n r → (r - 1) * (r - 1) < n.
Proof using.
  intros Hn (H0 & Hge & Hmin). destruct (Z.lt_ge_cases ((r - 1) * (r - 1)) n) as [|Hle]; [done|].
  assert (0 < r) by nia. specialize (Hmin (r - 1) ltac:(lia) Hle). lia.
Qed.

(** A gap [g] between two radicands that is at least twice the root keeps the roots apart. *)
Lemma sqrt_gap n n' r r' :
  0 < n → Sqrt.is_sqrt_up n r → Sqrt.is_sqrt_up n' r' → n + 2 * r ≤ n' → r < r'.
Proof using.
  intros Hn Hr (H0' & Hge' & _) Hgap. pose proof (sqrt_up_tight n r Hn Hr) as Ht.
  destruct Hr as (H0 & _ & _). destruct (Z.lt_ge_cases r r') as [|Hle]; [done|]. exfalso. nia.
Qed.

Lemma sqrt_bound n r b : Sqrt.is_sqrt_up n r → 0 ≤ b → n ≤ b * b → r ≤ b.
Proof using. intros (_ & _ & Hmin) Hb Hn. by apply Hmin. Qed.

(** One tick moves the price by 10^(30 + t / N), which is more than the roots need. *)
Lemma price_step t : tick_in_range t → tick_in_range (t + 1) → price t + 10 ^ (30 + t / N) ≤ price (t + 1).
Proof using.
  intros Ht Hu. pose proof (tick_parts t Ht) as (Hq & Ha & Et & Hend).
  pose proof (tick_parts (t + 1) Hu) as (Hq' & Ha' & Eu & _). unfold price. rewrite N_eq in *.
  pose proof (pow10_pos (30 + t / 9000000) ltac:(lia)) as Hp.
  assert (((t + 1) / 9000000 = t / 9000000 ∧ (t + 1) mod 9000000 = t mod 9000000 + 1) ∨
    ((t + 1) / 9000000 = t / 9000000 + 1 ∧ t mod 9000000 = 8999999)) as [[-> ->]|[-> ->]] by lia.
  - lia.
  - rewrite Z.add_assoc, (Z.pow_add_r _ _ 1), Z.pow_1_r by lia.
    set (w := 10 ^ (30 + t / 9000000)) in *. nia.
Qed.

Lemma price_upper t : tick_in_range t → price t ≤ 10 ^ (37 + t / N).
Proof using.
  intros Ht. pose proof (tick_parts t Ht) as (Hq & Ha & _). unfold price. rewrite N_eq in *.
  pose proof (pow10_pos (30 + t / 9000000) ltac:(lia)).
  replace (37 + t / 9000000) with (30 + t / 9000000 + 7) by lia.
  rewrite (Z.pow_add_r _ _ 7) by lia. nia.
Qed.

Lemma sqrt_price_succ t r r' :
  tick_in_range t → tick_in_range (t + 1) →
  TickToSqrtPrice t = Ok (mk r) → TickToSqrtPrice (t + 1) = Ok (mk r') → r < r'.
Proof using L.
  intros Ht Hu Hr Hr'. pose proof (price_step t Ht Hu) as Hstep.
  pose proof (price_upper t Ht) as Hup. pose proof (price_bounds t Ht) as Hb.
  pose proof (tick_parts t Ht) as (Hq & Ha & Et & Hend). rewrite N_eq in *.
  destruct (TickToSqrtPrice_spec t Ht) as (? & E & Hs). rewrite Hr in E. injection E as <-.
  destruct (TickToSqrtPrice_spec (t + 1) Hu) as (? & E & Hs'). rewrite Hr' in E. injection E as <-.
  destruct (Z.leb_spec MinInitializedTick t) as [Hge|Hlt].
  - rewrite (proj2 (Z.leb_le _ (t + 1))) in Hs' by lia.
    destruct Hs as (s & m & -> & Hm & Hs), Hs' as (s' & m' & -> & Hm' & Hs').
    apply Z.mul_lt_mono_pos_r; [done|]. eapply sqrt_gap; [|exact Hs|exact Hs'|]; [lia|].
    assert (-12 ≤ t / 9000000) by (apply Z.div_le_lower_bound; unfold MinInitializedTick in Hge; lia).
    (* the root is at most 10^(19 + q) + slack, the gap at least 10^(30 + q) *)
    set (q := t / 9000000) in *. rewrite Hm, Hm' in Hstep. rewrite Hm in Hup.
    assert (Hsb : s ≤ 10 ^ (29 + q)).
    { apply (sqrt_bound _ _ _ Hs); [apply Z.lt_le_incl, pow10_pos; lia|].
      rewrite <- Z.pow_add_r by lia. etrans; [exact Hup|]. apply pow10_le. lia. }
    assert (10 ^ (30 + q) = 10 * 10 ^ (29 + q)) as Hten.
    { replace (30 + q) with (1 + (29 + q)) by lia. by rewrite Z.pow_add_r, Z.pow_1_r by lia. }
    pose proof (pow10_pos (29 + q) ltac:(lia)). lia.
  - assert (Hq13 : t / 9000000 ≤ -13) by
      (unfold MinInitializedTick in Hlt; lia).
    set (q := t / 9000000) in *.
    assert (Hrb : r ≤ 10 ^ 30).
    { apply (sqrt_bound _ _ _ Hs); [done|]. rewrite P_pow, <- (Z.pow_add_r 10 30 30) by lia.
      replace (30 + 30) with (24 + 36) by lia. rewrite (Z.pow_add_r 10 24 36) by lia.
      apply Z.mul_le_mono_nonneg_r; [done|]. etrans; [exact Hup|]. apply pow10_le. lia. }
    assert (Hg : 1 ≤ 10 ^ (30 + q)) by (pose proof (pow10_pos (30 + q) ltac:(lia)); lia).
    assert (H36 : 2 * 10 ^ 30 ≤ P) by (vm_compute; discriminate).
    assert (Hgap : price t * P + 2 * r ≤ price (t + 1) * P) by (pose proof P_pos; nia).
    destruct (Z.leb_spec MinInitializedTick (t + 1)) as [Hge'|Hlt'].
    + destruct Hs' as (s' & m' & -> & Hm' & (H0' & Hsq & _)).
      assert (0 < price t * P) as Hpos by (pose proof P_pos; nia).
      pose proof (sqrt_up_tight _ _ Hpos Hs) as Htight.
      destruct Hs as (H0 & _). rewrite Hm', P_pow in Hgap.
      destruct (Z.lt_ge_cases r (s' * 10 ^ 18)) as [|Hle]; [done|]. exfalso.
      assert (m' * 10 ^ 18 * 10 ^ 36 ≤ (s' * 10 ^ 18) * (s' * 10 ^ 18)) by nia.
      rewrite P_pow in Htight. nia.
    + eapply sqrt_gap; [|exact Hs|exact Hs'|exact Hgap]. pose proof P_pos. nia.
Qed.
End sqrt_prices.

(** *** Properties *)

(** C32. [TickToPrice] in closed form.  On [-270000000, 342000000] it returns
    10^(t div 9000000 - 6) * (10^6 + t mod 9000000) (scaled by 10^36) with floor division, although
    the code divides with truncation and shifts the exponent for negative ticks; the tick one below
    shares the minimum price, and every other tick is an error. *)
Theorem tick_to_price_closed_form (t : Z) :
  (tick_in_range t → TickToPrice t = Ok (mk (10 ^ (30 + t / N) * (1000000 + t mod N)))) ∧
  TickToPrice MinCurrentTickV2 = MinSpotPriceV2 ∧
  (t < MinCurrentTickV2 ∨ MaxTick < t → ∃ e, TickToPrice t = Err e).
Proof.
  split; [apply TickToPrice_eq|]. split; [rewrite TickToPrice_below; symmetry; apply MinSpotPriceV2_eq|].
  apply TickToPrice_out.
Qed.

(** Prices are strictly increasing in the tick and stay between the spot price bounds. *)
Theorem tick_to_price_strictly_increasing (t u : Z) (p q lo hi : BigDec.t) :
  tick_in_range t → tick_in_range u → t < u →
  TickToPrice t = Ok p → TickToPrice u = Ok q →
  MinSpotPriceV2 = Ok lo → MaxSpotPriceBigDec = Ok hi →
  LT p q = true ∧ LTE lo p = true ∧ LTE q hi = true.
Proof.
  intros Ht Hu Hlt Hp Hq Hlo Hhi.
  rewrite TickToPrice_eq in Hp, Hq by done. rewrite MinSpotPriceV2_eq in Hlo.
  rewrite MaxSpotPriceBigDec_eq in Hhi. injection Hp as <-. injection Hq as <-.
  injection Hlo as <-. injection Hhi as <-. rewrite LT_iff, !LTE_iff. cbn [i].
  split; [by apply price_mono|]. split; by apply price_bounds.
Qed.

Lemma tick_to_price_strictly_increasing_witness :
  ∃ p q, TickToPrice (-1) = Ok p ∧ TickToPrice 0 = Ok q ∧ LT p q = true.
Proof.
  exists (mk (9999999 * 10 ^ 29)), (mk (10 ^ 36)).
  assert (H1 : TickToPrice (-1) = Ok (mk (9999999 * 10 ^ 29))) by (vm_compute; reflexivity).
  assert (H2 : TickToPrice 0 = Ok (mk (10 ^ 36))) by (vm_compute; reflexivity).
  split; [exact H1|]. split; [exact H2|].
  assert (T1 : tick_in_range (-1)) by (vm_compute; split; discriminate).
  assert (T2 : tick_in_range 0) by (vm_compute; split; discriminate).
  assert (T3 : -1 < 0) by reflexivity.
  exact (proj1 (tick_to_price_strictly_increasing (-1) 0 _ _ _ _ T1 T2 T3 H1 H2
    MinSpotPriceV2_eq MaxSpotPriceBigDec_eq)).
Defined.

(** C33. Every tick of the range is recovered from its price. *)
Theorem price_tick_roundtrip (t : Z) :
  tick_in_range t → ∃ p, TickToPrice t = Ok p ∧ CalculatePriceToTick p = Ok t.
Proof.
  intros Ht. exists (mk (price t)). split; [by apply TickToPrice_eq|by apply CalculatePriceToTick_eq].
Qed.

Lemma price_tick_roundtrip_witness :
  ∃ p, TickToPrice (-107999999) = Ok p ∧ CalculatePriceToTick p = Ok (-107999999).
Proof. apply (price_tick_roundtrip (-107999999)). vm_compute. split; discriminate. Defined.

Section tick_sqrt.
  Context {D : sdk.LegacyDec} {L : sdk.LegacyDecLaws D}.

Lemma sqrt_price_mono t u r r' :
  tick_in_range t → tick_in_range u → t < u →
  TickToSqrtPrice t = Ok (mk r) → TickToSqrtPrice u = Ok (mk r') → r < r'.
Proof using L.
  intros Ht Hu Hlt Hr Hr'.
  cut (∀ n : nat, tick_in_range (t + 1 + Z.of_nat n) →
    ∀ v, TickToSqrtPrice (t + 1 + Z.of_nat n) = Ok (mk v) → r < v).
  { intros Hn. apply (Hn (Z.to_nat (u - t - 1))); rewrite Z2Nat.id by lia;
      replace (t + 1 + (u - t - 1)) with u by lia; done. }
  induction n as [|n IH]; intros Hin v Hv.
  - cbn [Z.of_nat] in *. rewrite Z.add_0_r in *. exact (sqrt_price_succ t r v Ht Hin Hr Hv).
  - rewrite Nat2Z.inj_succ in *.
    assert (tick_in_range (t + 1 + Z.of_nat n)) as Hin' by (unfold tick_in_range in *; lia).
    destruct (TickToSqrtPrice_spec (t + 1 + Z.of_nat n) Hin') as (w & Hw & _).
    apply Z.lt_trans with w; [by apply IH|].
    eapply (sqrt_price_succ (t + 1 + Z.of_nat n)); [done| |done|].
    + by replace (t + 1 + Z.of_nat n + 1) with (t + 1 + Z.succ (Z.of_nat n)) by lia.
    + by replace (t + 1 + Z.of_nat n + 1) with (t + 1 + Z.succ (Z.of_nat n)) by lia.
Qed.

Lemma sqrtPriceAt_Ok t r : sqrtPriceAt t = Ok r → TickToSqrtPrice t = Ok r.
Proof using. unfold sqrtPriceAt. by destruct (TickToSqrtPrice t). Qed.

(** The bucket returned by the search really contains the square root price. *)
Lemma CalculateSqrtPriceToTick_bucket s t :
  CalculateSqrtPriceToTick s = Ok t →
  MinCurrentTick - 1 ≤ t ≤ MaxTick ∧
  ∃ lo, TickToSqrtPrice t = Ok lo ∧ i lo ≤ i s ∧
    ((t = MaxTick ∧ s = lo) ∨ ∃ hi, TickToSqrtPrice (t + 1) = Ok hi ∧ i s < i hi).
Proof using.
  unfold CalculateSqrtPriceToTick. intros H.
  apply bind_Ok in H as (p & Hp & H). apply bind_Ok in H as (t0 & Ht0 & H).
  destruct (Z.ltb_spec t0 MinCurrentTick) as [|Hmin]; [discriminate|].
  unfold MinCurrentTick, MinInitializedTick, MinInitializedTickV2, MaxTick in *.
  destruct (Z.leb_spec t0 (-270000000)) as [|_]; [lia|].
  assert (∃ t1 oob, (if 342000000 - 1 <=? t0 then (342000000 - 2, true) else (t0, false)) = (t1, oob)
    ∧ -108000001 ≤ t1 ≤ 342000000 - 2 ∧ (oob = true → t1 = 342000000 - 2)) as (t1 & oob & E & Hr & Ho).
  { destruct (Z.leb_spec (342000000 - 1) t0); eexists _, _; (split; [reflexivity|]); lia. }
  rewrite E in H. clear E. apply bind_Ok in H as (s1 & Hs1%sqrtPriceAt_Ok & H).
  destruct (GTE s s1) eqn:G1.
  - apply GTE_iff in G1. apply bind_Ok in H as (s2 & Hs2%sqrtPriceAt_Ok & H).
    destruct (_ || _) eqn:Eb; [discriminate|]. apply orb_false_iff in Eb as [Eb1 Eb2].
    destruct (Equal s s2) eqn:Eq.
    + apply Equal_iff in Eq as ->. injection H as <-. split; [lia|].
      exists s2. split; [done|]. split; [done|]. left. split; [|done].
      destruct oob; [rewrite Ho; done|]. cbn [negb andb] in Eb1.
      by rewrite (proj2 (GTE_iff s2 s2)) in Eb1 by done.
    + injection H as <-. split; [lia|]. exists s1. split; [done|]. split; [done|]. right.
      exists s2. replace (t1 + 1 + 1) with (t1 + 2) by lia. split; [done|].
      destruct (Z.lt_ge_cases (i s) (i s2)) as [|Hge]; [done|]. exfalso.
      destruct oob; cbn [negb andb] in *.
      * destruct (Z.eq_dec (i s) (i s2)) as [Ei|].
        { destruct s, s2; cbn [i] in Ei; subst. by rewrite (proj2 (Equal_iff _ _)) in Eq. }
        by rewrite (proj2 (GT_iff _ _)) in Eb2 by lia.
      * by rewrite (proj2 (GTE_iff _ _)) in Eb1.
  - rewrite <- Bool.not_true_iff_false, GTE_iff in G1.
    apply bind_Ok in H as (s0 & Hs0%sqrtPriceAt_Ok & H). destruct (GTE s s0) eqn:G0.
    + apply GTE_iff in G0. injection H as <-. split; [lia|]. exists s0. split; [done|]. split; [done|].
      right. exists s1. split; [done|lia].
    + rewrite <- Bool.not_true_iff_false, GTE_iff in G0.
      apply bind_Ok in H as (sm & Hsm%sqrtPriceAt_Ok & H).
      destruct (LT s sm) eqn:Gm; [discriminate|]. injection H as <-.
      rewrite <- Bool.not_true_iff_false, LT_iff in Gm. split; [lia|].
      exists sm. split; [done|]. split; [lia|]. right. exists s0.
      replace (t1 - 1 + 1) with t1 by lia. split; [done|lia].
Qed.
End tick_sqrt.

(** C34. Every tick of the range has a square root price; square root prices are strictly
    increasing in the tick (also across the switch from 18-digit to 36-digit roots) and their
    squares are not below the price of the tick. *)
Theorem sqrt_price_strictly_increasing
    (D : sdk.LegacyDec) (L : sdk.LegacyDecLaws D) (t u : Z) :
  tick_in_range t → tick_in_range u → t < u →
  ∃ p r r', TickToPrice t = Ok p ∧ TickToSqrtPrice t = Ok r ∧ TickToSqrtPrice u = Ok r' ∧
    i r < i r' ∧ i p * P ≤ i r * i r.
Proof.
  intros Ht Hu Hlt. destruct (TickToSqrtPrice_spec t Ht) as (r & Hr & _).
  destruct (TickToSqrtPrice_spec u Hu) as (r' & Hr' & _).
  exists (mk (price t)), (mk r), (mk r'). split; [by apply TickToPrice_eq|].
  split; [done|]. split; [done|]. split; [exact (sqrt_price_mono t u r r' Ht Hu Hlt Hr Hr')|].
  exact (proj2 (sqrt_price_ge t r Ht Hr)).
Qed.

Lemma sqrt_price_strictly_increasing_witness :
  ∃ p r r', TickToPrice (-108000001) = Ok p ∧
    TickToSqrtPrice (D := sdk.ref_dec) (-108000001) = Ok r ∧
    TickToSqrtPrice (D := sdk.ref_dec) (-108000000) = Ok r' ∧ i r < i r' ∧ i p * P ≤ i r * i r.
Proof.
  apply (sqrt_price_strictly_increasing sdk.ref_dec sdk.ref_dec_laws (-108000001) (-108000000));
    [vm_compute; split; discriminate..|reflexivity].
Defined.

(** C35. [CalculateSqrtPriceToTick] is sound: the tick it returns is at or below the given square
    root price and the next tick is strictly above it (the maximum tick is returned only for exactly
    its own square root price); so on the square root price of a tick it can only return that
    tick. *)
Theorem sqrt_price_to_tick_bucket
    (D : sdk.LegacyDec) (L : sdk.LegacyDecLaws D) (s : BigDec.t) (t : Z) :
  CalculateSqrtPriceToTick s = Ok t →
  (∃ lo, TickToSqrtPrice t = Ok lo ∧ i lo ≤ i s ∧
    ((t = MaxTick ∧ s = lo) ∨ ∃ hi, TickToSqrtPrice (t + 1) = Ok hi ∧ i s < i hi)) ∧
  (∀ u, tick_in_range u → TickToSqrtPrice u = Ok s → t = u).
Proof.
  intros H. destruct (CalculateSqrtPriceToTick_bucket s t H) as (Hr & lo & Hlo & Hle & Hup).
  split; [by exists lo|]. intros u Hu Hs.
  assert (tick_in_range t) as Ht by
    (unfold tick_in_range, MinCurrentTick, MinInitializedTick, MinInitializedTickV2 in *; lia).
  destruct lo as [lo], s as [s]. cbn [i] in *.
  destruct (Z.lt_total t u) as [Hlt|[|Hlt]]; [|done|].
  - destruct Hup as [[-> [= ->]]|([hi] & Hhi & Hlt')].
    + unfold tick_in_range in Hu. lia.
    + cbn [i] in Hlt'. destruct (Z.eq_dec (t + 1) u) as [<-|].
      * rewrite Hs in Hhi. injection Hhi as ->. lia.
      * assert (tick_in_range (t + 1)) by (unfold tick_in_range in *; lia).
        pose proof (sqrt_price_mono (t + 1) u hi s ltac:(done) Hu ltac:(lia) Hhi Hs). lia.
  - pose proof (sqrt_price_mono u t s lo Hu Ht Hlt Hs Hlo). lia.
Qed.

Lemma sqrt_price_to_tick_bucket_witness :
  ∃ lo, TickToSqrtPrice (D := sdk.ref_dec) 0 = Ok lo ∧ i lo ≤ i (mk P).
Proof.
  assert (H : CalculateSqrtPriceToTick (D := sdk.ref_dec) (mk P) = Ok 0) by (vm_compute; reflexivity).
  destruct (sqrt_price_to_tick_bucket sdk.ref_dec sdk.ref_dec_laws (mk P) 0 H)
    as [(lo & H1 & H2 & _) _].
  exists lo. split; [exact H1|exact H2].
Defined.

Lemma RoundDownTickToSpacing_eq (tickIndex tickSpacing : Z) :
  0 < tickSpacing →
  let m := tickSpacing * (tickIndex / tickSpacing) in
  RoundDownTickToSpacing tickIndex tickSpacing =
    (if (MinInitializedTickV2 <=? m) && (m <=? MaxTick) then Ok m
     else Err "TickIndexNotWithinBoundariesError") ∧
  m ≤ tickIndex < m + tickSpacing.
Proof.
  intros Hs. cbv zeta. split; [|apply div_bounds; lia]. unfold RoundDownTickToSpacing.
  rewrite (proj2 (Z.eqb_neq _ _)) by lia.
  set (md := if Z.rem tickIndex tickSpacing <? 0 then _ else _).
  assert (md = tickIndex mod tickSpacing) as ->.
  { unfold md. pose proof (quot_rem_eq tickSpacing Hs tickIndex).
    pose proof (Z.rem_bound_abs tickIndex tickSpacing ltac:(lia)).
    destruct (Z.ltb_spec (Z.rem tickIndex tickSpacing) 0).
    - apply (Z.mod_unique_pos _ _ (Z.quot tickIndex tickSpacing - 1)); lia.
    - apply (Z.mod_unique_pos _ _ (Z.quot tickIndex tickSpacing)); lia. }
  pose proof (Z.div_mod tickIndex tickSpacing ltac:(lia)) as Hd.
  set (m := tickSpacing * (tickIndex / tickSpacing)) in *.
  assert ((if tickIndex mod tickSpacing =? 0 then tickIndex else tickIndex - tickIndex mod tickSpacing)
    = m) as -> by (destruct (Z.eqb_spec (tickIndex mod tickSpacing) 0); lia).
  destruct (Z.ltb_spec MaxTick m), (Z.ltb_spec m MinInitializedTickV2),
    (Z.leb_spec MinInitializedTickV2 m), (Z.leb_spec m MaxTick); try done; lia.
Qed.

(** [RoundDownTickToSpacing] returns the greatest multiple of the spacing not above the tick,
    and an error exactly when that multiple is outside the tick range. *)
Theorem round_down_tick_spec (tickIndex tickSpacing : Z) :
  0 < tickSpacing →
  let m := tickSpacing * (tickIndex / tickSpacing) in
  RoundDownTickToSpacing tickIndex tickSpacing =
    (if (MinInitializedTickV2 <=? m) && (m <=? MaxTick) then Ok m
     else Err "TickIndexNotWithinBoundariesError") ∧
  m ≤ tickIndex < m + tickSpacing.
Proof. exact (RoundDownTickToSpacing_eq tickIndex tickSpacing). Qed.

Lemma round_down_tick_spec_witness : RoundDownTickToSpacing (-17) 10 = Ok (-20).
Proof. apply (round_down_tick_spec (-17) 10). reflexivity. Defined.
End CLTickProps.
