(* ===== verification/CLSwapStrategy.v ===== *)
(** One step of a swap: x/concentrated-liquidity/swapstrategy.

    The interface [SwapStrategy] of the code is the record [SwapStrategy]; its two implementations
    are the modules [oneForZero] (price rising) and [zeroForOne] (price falling), and [New] chooses
    between them.  The two cached fields of the Go structs are never kept, because the methods that
    fill them have value receivers; the model recomputes them.  The tick iterator is in CLTickStore. *)
From stdpp Require Import prelude strings list.
From S2P Require Import Prelude.
From S2P Require Import GoBig.
From S2P Require Import SdkDec.
From S2P Require Import Decimal.
From S2P Require Import Sqrt.
From S2P Require Import CLMath.
From S2P Require Import CLTick.
Local Open Scope Z_scope.
Import CLConst CLMath.

Module SwapStrategy.
Section with_dec.
  Context {D : sdk.LegacyDec}.

Definition oneDec : Dec.t := Dec.mk Dec.one.
Definition zeroDec : Dec.t := Dec.mk 0.

(** *** Spread rewards (spread_rewards.go) *)

Definition computeSpreadRewardChargeFromAmountIn (amountIn spfOverOneMinusSpf : Dec.t)
    : outcome Dec.t := sdk.MulRoundUp amountIn spfOverOneMinusSpf.

(** The getter [SfOveroneMinSf] is a computation that is run only in the branch that calls it. *)
Definition computeSpreadRewardChargePerSwapStepOutGivenIn (hasReachedTarget : bool)
    (amountIn amountSpecifiedRemaining spreadFactor : Dec.t) (SfOveroneMinSf : outcome Dec.t)
    : outcome Dec.t :=
  if sdk.IsZero spreadFactor then Ok zeroDec
  else if sdk.IsNegative spreadFactor then Panic "spread factor must be non-negative"
  else
    spreadRewardChargeTotal ←
      (if hasReachedTarget then
         spf ← SfOveroneMinSf; computeSpreadRewardChargeFromAmountIn amountIn spf
       else sdk.Sub amountSpecifiedRemaining amountIn);
    if sdk.IsNegative spreadRewardChargeTotal
    then Panic "spread factor charge must be non-negative"
    else Ok spreadRewardChargeTotal.

(** *** The interface *)

(** The result of a step: next square root price, then two amounts and the charge, in the order the
    method returns them. *)
Definition stepResult : Type := BigDec.t * Dec.t * Dec.t * Dec.t.

Record SwapStrategy := {
  GetSqrtTargetPrice : BigDec.t → BigDec.t;
  ComputeSwapWithinBucketOutGivenIn : BigDec.t → BigDec.t → Dec.t → Dec.t → outcome stepResult;
  ComputeSwapWithinBucketInGivenOut : BigDec.t → BigDec.t → Dec.t → Dec.t → outcome stepResult;
  SetLiquidityDeltaSign : Dec.t → Dec.t;
  UpdateTickAfterCrossing : Z → Z;
  ValidateSqrtPrice : BigDec.t → BigDec.t → outcome unit;
  ZeroForOne : bool
}.

(** The fields of both strategy structs. *)
Record strategy := { sqrtPriceLimit : BigDec.t; spreadFactor : Dec.t }.

Definition getOneMinusSpreadFactor (s : strategy) : outcome Dec.t := sdk.Sub oneDec (spreadFactor s).
Definition getSpfOverOneMinusSpf (s : strategy) : outcome Dec.t :=
  d ← getOneMinusSpreadFactor s; sdk.QuoRoundUp (spreadFactor s) d.
End with_dec.
End SwapStrategy.

Import SwapStrategy.

Module oneForZero.
Section with_dec.
  Context {D : sdk.LegacyDec}.

Definition GetSqrtTargetPrice (s : strategy) (nextTickSqrtPrice : BigDec.t) : BigDec.t :=
  if BigDec.GT nextTickSqrtPrice (sqrtPriceLimit s) then sqrtPriceLimit s else nextTickSqrtPrice.

Definition ComputeSwapWithinBucketOutGivenIn (s : strategy)
    (sqrtPriceCurrent sqrtPriceTarget : BigDec.t) (liquidity amountOneInRemaining : Dec.t)
    : outcome stepResult :=
  amountOneIn ← CalcAmount1Delta liquidity sqrtPriceTarget sqrtPriceCurrent true;
  oneMinusTakerFee ← getOneMinusSpreadFactor s;
  let amountOneInRemainingLessSpreadReward :=
    BigDec.NewBigDecFromDecMulDec amountOneInRemaining oneMinusTakerFee in
  sqrtPriceNext ←
    (if BigDec.GTE amountOneInRemainingLessSpreadReward amountOneIn then Ok sqrtPriceTarget
     else GetNextSqrtPriceFromAmount1InRoundingDown sqrtPriceCurrent liquidity
            amountOneInRemainingLessSpreadReward);
  let hasReachedTarget := BigDec.Equal sqrtPriceTarget sqrtPriceNext in
  amountOneIn ←
    (if negb hasReachedTarget then CalcAmount1Delta liquidity sqrtPriceNext sqrtPriceCurrent true
     else Ok amountOneIn);
  amountZeroOut ← CalcAmount0Delta liquidity sqrtPriceNext sqrtPriceCurrent false;
  let amountInDecFinal := BigDec.DecRoundUp amountOneIn in
  spreadRewardChargeTotal ←
    computeSpreadRewardChargePerSwapStepOutGivenIn hasReachedTarget amountInDecFinal
      amountOneInRemaining (spreadFactor s) (getSpfOverOneMinusSpf s);
  Ok (sqrtPriceNext, amountInDecFinal, BigDec.ToDec amountZeroOut, spreadRewardChargeTotal).

Definition ComputeSwapWithinBucketInGivenOut (s : strategy)
    (sqrtPriceCurrent sqrtPriceTarget : BigDec.t) (liquidity amountZeroRemainingOut : Dec.t)
    : outcome stepResult :=
  liquidityBigDec ← BigDec.BigDecFromDec liquidity;
  amountZeroRemainingOutBigDec ← BigDec.BigDecFromDec amountZeroRemainingOut;
  amountZeroOut ← CalcAmount0Delta liquidity sqrtPriceTarget sqrtPriceCurrent false;
  sqrtPriceNext ←
    (if BigDec.GTE amountZeroRemainingOutBigDec amountZeroOut then Ok sqrtPriceTarget
     else GetNextSqrtPriceFromAmount0OutRoundingUp sqrtPriceCurrent liquidityBigDec
            amountZeroRemainingOut);
  let hasReachedTarget := BigDec.Equal sqrtPriceTarget sqrtPriceNext in
  amountZeroOut ←
    (if negb hasReachedTarget then CalcAmount0Delta liquidity sqrtPriceNext sqrtPriceCurrent false
     else Ok amountZeroOut);
  amountOneIn ← CalcAmount1Delta liquidity sqrtPriceNext sqrtPriceCurrent true;
  let amountOneInFinal := BigDec.DecRoundUp amountOneIn in
  spf ← getSpfOverOneMinusSpf s;
  spreadRewardChargeTotal ← computeSpreadRewardChargeFromAmountIn amountOneInFinal spf;
  let amountZeroOut :=
    if BigDec.GT amountZeroOut amountZeroRemainingOutBigDec then amountZeroRemainingOutBigDec
    else amountZeroOut in
  Ok (sqrtPriceNext, BigDec.ToDec amountZeroOut, amountOneInFinal, spreadRewardChargeTotal).

Definition SetLiquidityDeltaSign (deltaLiquidity : Dec.t) : Dec.t := deltaLiquidity.
Definition UpdateTickAfterCrossing (nextTick : Z) : Z := nextTick.

Definition ValidateSqrtPrice (sqrtPrice currentSqrtPrice : BigDec.t) : outcome unit :=
  maxSqrtPrice ← MaxSqrtPriceBigDec;
  if BigDec.LT sqrtPrice currentSqrtPrice || BigDec.GT sqrtPrice maxSqrtPrice
  then Err "SqrtPriceValidationError" else Ok tt.
End with_dec.
End oneForZero.

Module zeroForOne.
Section with_dec.
  Context {D : sdk.LegacyDec}.

Definition GetSqrtTargetPrice (s : strategy) (nextTickSqrtPrice : BigDec.t) : BigDec.t :=
  if BigDec.LT nextTickSqrtPrice (sqrtPriceLimit s) then sqrtPriceLimit s else nextTickSqrtPrice.

Definition ComputeSwapWithinBucketOutGivenIn (s : strategy)
    (sqrtPriceCurrent sqrtPriceTarget : BigDec.t) (liquidity amountZeroInRemaining : Dec.t)
    : outcome stepResult :=
  liquidityBigDec ← BigDec.BigDecFromDec liquidity;
  amountZeroIn ← CalcAmount0Delta liquidity sqrtPriceTarget sqrtPriceCurrent true;
  oneMinusTakerFee ← getOneMinusSpreadFactor s;
  let amountZeroInRemainingLessSpreadReward :=
    BigDec.NewBigDecFromDecMulDec amountZeroInRemaining oneMinusTakerFee in
  sqrtPriceNext ←
    (if BigDec.GTE amountZeroInRemainingLessSpreadReward amountZeroIn then Ok sqrtPriceTarget
     else GetNextSqrtPriceFromAmount0InRoundingUp sqrtPriceCurrent liquidityBigDec
            amountZeroInRemainingLessSpreadReward);
  let hasReachedTarget := BigDec.Equal sqrtPriceTarget sqrtPriceNext in
  amountZeroIn ←
    (if negb hasReachedTarget then CalcAmount0Delta liquidity sqrtPriceNext sqrtPriceCurrent true
     else Ok amountZeroIn);
  amountOneOut ← CalcAmount1Delta liquidity sqrtPriceNext sqrtPriceCurrent false;
  let amountZeroInFinal := BigDec.DecRoundUp amountZeroIn in
  spreadRewardChargeTotal ←
    computeSpreadRewardChargePerSwapStepOutGivenIn hasReachedTarget amountZeroInFinal
      amountZeroInRemaining (spreadFactor s) (getSpfOverOneMinusSpf s);
  Ok (sqrtPriceNext, amountZeroInFinal, BigDec.ToDec amountOneOut, spreadRewardChargeTotal).

Definition ComputeSwapWithinBucketInGivenOut (s : strategy)
    (sqrtPriceCurrent sqrtPriceTarget : BigDec.t) (liquidity amountOneRemainingOut : Dec.t)
    : outcome stepResult :=
  amountOneRemainingOutBigDec ← BigDec.BigDecFromDec amountOneRemainingOut;
  amountOneOut ← CalcAmount1Delta liquidity sqrtPriceTarget sqrtPriceCurrent false;
  sqrtPriceNext ←
    (if BigDec.GTE amountOneRemainingOutBigDec amountOneOut then Ok sqrtPriceTarget
     else GetNextSqrtPriceFromAmount1OutRoundingDown sqrtPriceCurrent liquidity
            amountOneRemainingOutBigDec);
  let hasReachedTarget := BigDec.Equal sqrtPriceTarget sqrtPriceNext in
  amountOneOut ←
    (if negb hasReachedTarget then CalcAmount1Delta liquidity sqrtPriceNext sqrtPriceCurrent false
     else Ok amountOneOut);
  amountZeroIn ← CalcAmount0Delta liquidity sqrtPriceNext sqrtPriceCurrent true;
  let amountZeroInFinal := BigDec.DecRoundUp amountZeroIn in
  spf ← getSpfOverOneMinusSpf s;
  spreadRewardChargeTotal ← computeSpreadRewardChargeFromAmountIn amountZeroInFinal spf;
  let amountOneOut :=
    if BigDec.GT amountOneOut amountOneRemainingOutBigDec then amountOneRemainingOutBigDec
    else amountOneOut in
  Ok (sqrtPriceNext, BigDec.ToDec amountOneOut, amountZeroInFinal, spreadRewardChargeTotal).

Definition SetLiquidityDeltaSign (deltaLiquidity : Dec.t) : Dec.t := sdk.Neg deltaLiquidity.
Definition UpdateTickAfterCrossing (nextTick : Z) : Z := nextTick - 1.

Definition ValidateSqrtPrice (sqrtPrice currentSqrtPrice : BigDec.t) : outcome unit :=
  minSqrtPrice ← MinSqrtPriceBigDec;
  if BigDec.GT sqrtPrice currentSqrtPrice || BigDec.LT sqrtPrice minSqrtPrice
  then Err "SqrtPriceValidationError" else Ok tt.
End with_dec.
End zeroForOne.

Module NewStrategy.
Section with_dec.
  Context {D : sdk.LegacyDec}.

Definition New (isZeroForOne : bool) (limit : BigDec.t) (factor : Dec.t) : SwapStrategy :=
  let s := {| sqrtPriceLimit := limit; spreadFactor := factor |} in
  if isZeroForOne then
    {| GetSqrtTargetPrice := zeroForOne.GetSqrtTargetPrice s;
       ComputeSwapWithinBucketOutGivenIn := zeroForOne.ComputeSwapWithinBucketOutGivenIn s;
       ComputeSwapWithinBucketInGivenOut := zeroForOne.ComputeSwapWithinBucketInGivenOut s;
       SetLiquidityDeltaSign := zeroForOne.SetLiquidityDeltaSign;
       UpdateTickAfterCrossing := zeroForOne.UpdateTickAfterCrossing;
       ValidateSqrtPrice := zeroForOne.ValidateSqrtPrice;
       ZeroForOne := true |}
  else
    {| GetSqrtTargetPrice := oneForZero.GetSqrtTargetPrice s;
       ComputeSwapWithinBucketOutGivenIn := oneForZero.ComputeSwapWithinBucketOutGivenIn s;
       ComputeSwapWithinBucketInGivenOut := oneForZero.ComputeSwapWithinBucketInGivenOut s;
       SetLiquidityDeltaSign := oneForZero.SetLiquidityDeltaSign;
       UpdateTickAfterCrossing := oneForZero.UpdateTickAfterCrossing;
       ValidateSqrtPrice := oneForZero.ValidateSqrtPrice;
       ZeroForOne := false |}.

Definition GetPriceLimit (isZeroForOne : bool) : outcome BigDec.t :=
  if isZeroForOne then MinSpotPriceBigDec else MaxSpotPriceBigDec.

Definition GetSqrtPriceLimit (priceLimit : BigDec.t) (isZeroForOne : bool) : outcome BigDec.t :=
  if BigDec.IsZero priceLimit then
    if isZeroForOne then MinSqrtPriceBigDec else MaxSqrtPriceBigDec
  else
    minV2 ← MinSpotPriceV2;
    maxP ← MaxSpotPriceBigDec;
    if BigDec.LT priceLimit minV2 || BigDec.GT priceLimit maxP then Err "PriceBoundError"
    else
      minP ← MinSpotPriceBigDec;
      if BigDec.GTE priceLimit minP then
        sqrtPriceLimit ← Sqrt.MonotonicSqrtMut (BigDec.ToDec priceLimit);
        BigDec.BigDecFromDecMut sqrtPriceLimit
      else Sqrt.MonotonicSqrtBigDec priceLimit.
End with_dec.
End NewStrategy.
