(* ===== verification/CLSwapStrategyProps.v ===== *)
(** One step of a swap never costs the pool and moves the price in the direction of the swap. *)
From stdpp Require Import prelude strings list.
From S2P Require Import Prelude.
From S2P Require Import GoBig.
From S2P Require Import SdkDec.
From S2P Require Import Decimal.
From S2P Require Import DecimalFacts.
From S2P Require Import CLMath.
From S2P Require Import CLMathProps.
From S2P Require Import CLSwapStrategy.
Local Open Scope Z_scope.
Import BigDec BigDecFacts CLMath CLMathProps SwapStrategy NewStrategy.

Module CLSwapStrategyProps.
Abbreviation PF := bigDecDecPrecisionFactorDiff.

(** *** The next price lies on the right side of the current one *)

Lemma next_0_in_le (cur L x r : t) :
  0 < i cur → 0 ≤ i L → 0 ≤ i x → P - 1 ≤ i cur * (i x * i cur / P) →
  GetNextSqrtPriceFromAmount0InRoundingUp cur L x = Ok r → i r ≤ i cur.
Proof.
  intros Hc HL Hx Hprod. unfold GetNextSqrtPriceFromAmount0InRoundingUp.
  destruct (IsZero x); [by intros [= <-]|]. intros H. inv_ok. pose proof P_pos.
  match goal with H : MulTruncate _ _ = Ok ?p |- _ =>
    apply MulTruncate_spec, is_trunc_floor in H as Hp; [|nia] end.
  match goal with H : AddMut _ _ = Ok _ |- _ => apply AddMut_spec in H as Hd end.
  match goal with H : MulRoundUp _ _ = Ok ?m |- _ => apply MulRoundUp_spec in H as Hm;
    assert (0 ≤ i m) by (eapply is_ceil_nonneg; [| |exact Hm]; nia) end.
  unfold is_floor, is_ceil in *. pose proof (div_bounds P P_pos (i x * i cur)).
  assert (i x * i cur / P = i x0) as Eq by nia. rewrite Eq in *.
  assert (1 < P) by done. assert (0 < i x0) by nia. assert (0 < i x1) by lia.
  match goal with H : QuoRoundUpMut _ _ = Ok _ |- _ =>
    apply QuoRoundUpMut_spec in H as Hq; [|lia..] end.
  unfold is_ceil in Hq. rewrite Hd in *.
  destruct (Z.le_gt_cases (i r) (i cur)) as [|Hgt]; [done|]. exfalso.
  assert ((i x0 + i L) * (i cur + 1) ≤ (i x0 + i L) * i r) by nia. nia.
Qed.

(** The product of price and amount is large enough for the bound above whenever the price is at
    least the minimum of the pools, 10^-6, and the amount at least 10^-24 tokens. *)
Lemma product_large (cur x : Z) :
  10 ^ 30 ≤ cur → 10 ^ 12 ≤ x → P - 1 ≤ cur * (x * cur / P).
Proof.
  intros Hc Hx. assert (10 ^ 6 ≤ x * cur / P) as Hq.
  { apply Z.div_le_lower_bound; [zconst|]. apply Z.le_trans with (10 ^ 12 * 10 ^ 30); [zconst|].
    apply Z.mul_le_mono_nonneg; [zconst|exact Hx|zconst|exact Hc]. }
  apply Z.le_trans with (10 ^ 30 * 10 ^ 6); [zconst|].
  apply Z.mul_le_mono_nonneg; [zconst|exact Hc|zconst|exact Hq].
Qed.

Lemma next_0_out_ge {D : sdk.LegacyDec} {Ls : sdk.LegacyDecLaws D} (cur L r : t) (a : Dec.t) :
  0 < i cur → 0 ≤ i L → 0 ≤ Dec.i a → i cur * Dec.i a ≤ i L * PD →
  GetNextSqrtPriceFromAmount0OutRoundingUp cur L a = Ok r → i cur ≤ i r.
Proof.
  intros Hc HL Ha Hpay. unfold GetNextSqrtPriceFromAmount0OutRoundingUp.
  destruct (sdk.IsZero a); [by intros [= <-]|]. intros H. inv_ok. pose proof P_pos. pose proof PD_pos.
  match goal with H : MulRoundUpDec _ _ = Ok ?p |- _ => apply MulRoundUpDec_spec in H as Hp;
    assert (0 ≤ i p) by (eapply is_ceil_nonneg; [| |exact Hp]; nia) end.
  match goal with H : Sub _ _ = Ok _ |- _ => apply Sub_spec in H as Hd end.
  match goal with H : MulRoundUp _ _ = Ok ?m |- _ => apply MulRoundUp_spec in H as Hm;
    assert (0 ≤ i m) by (eapply is_ceil_nonneg; [| |exact Hm]; nia) end.
  unfold is_ceil in *. assert (0 ≤ i x0) by nia.
  match goal with H : QuoRoundUpMut _ _ = Ok _ |- _ => rename H into Hq end.
  assert (0 < i x0).
  { assert (i x0 ≠ 0); [|lia]. intros E0. unfold QuoRoundUpMut, big.QuoRem in Hq.
    rewrite E0 in Hq. discriminate Hq. }
  apply QuoRoundUpMut_spec in Hq; [|lia..]. unfold is_ceil in Hq. rewrite Hd in *.
  destruct (Z.le_gt_cases (i cur) (i r)) as [|Hgt]; [done|]. exfalso.
  assert ((i L - i x) * i r ≤ (i L - i x) * (i cur - 1)) by nia. nia.
Qed.

(** *** What a step that returns has computed *)

Section inversion.
  Context {D : sdk.LegacyDec} {Ls : sdk.LegacyDecLaws D}.
  Context (s : strategy) (cur target next : t) (L rem ain aout ch : Dec.t).

Lemma ofz_out_inv :
  oneForZero.ComputeSwapWithinBucketOutGivenIn s cur target L rem = Ok (next, ain, aout, ch) →
  ∃ hi lo m, CalcAmount1Delta L next cur true = Ok hi ∧ ain = DecRoundUp hi ∧
    CalcAmount0Delta L next cur false = Ok lo ∧ aout = ToDec lo ∧ getOneMinusSpreadFactor s = Ok m ∧
    (next = target ∨
     GetNextSqrtPriceFromAmount1InRoundingDown cur L (NewBigDecFromDecMulDec rem m) = Ok next) ∧
    computeSpreadRewardChargePerSwapStepOutGivenIn (Equal target next) ain rem (spreadFactor s)
      (getSpfOverOneMinusSpf s) = Ok ch.
Proof using.
  unfold oneForZero.ComputeSwapWithinBucketOutGivenIn. intros H.
  apply bind_Ok in H as (a0 & Ha0 & H). apply bind_Ok in H as (m & Hm & H).
  apply bind_Ok in H as (nx & Hnx & H). apply bind_Ok in H as (hi & Hhi & H).
  apply bind_Ok in H as (lo & Hlo & H). apply bind_Ok in H as (c & Hch & H).
  injection H as -> <- <- ->. exists hi, lo, m.
  assert (CalcAmount1Delta L next cur true = Ok hi).
  { destruct (Equal target next) eqn:E; [|done]. apply Equal_iff in E as <-. by injection Hhi as <-. }
  split; [done|]. split; [done|]. split; [done|]. split; [done|]. split; [done|].
  split; [|done]. destruct (GTE _ _); [left|right; done]. by injection Hnx.
Qed.

Lemma zfo_out_inv :
  zeroForOne.ComputeSwapWithinBucketOutGivenIn s cur target L rem = Ok (next, ain, aout, ch) →
  ∃ hi lo m, CalcAmount0Delta L next cur true = Ok hi ∧ ain = DecRoundUp hi ∧
    CalcAmount1Delta L next cur false = Ok lo ∧ aout = ToDec lo ∧ getOneMinusSpreadFactor s = Ok m ∧
    (next = target ∨
     GetNextSqrtPriceFromAmount0InRoundingUp cur (mk (Dec.i L * PF)) (NewBigDecFromDecMulDec rem m)
       = Ok next) ∧
    computeSpreadRewardChargePerSwapStepOutGivenIn (Equal target next) ain rem (spreadFactor s)
      (getSpfOverOneMinusSpf s) = Ok ch.
Proof using.
  unfold zeroForOne.ComputeSwapWithinBucketOutGivenIn. rewrite BigDecFromDec_eq, bind_of_Ok. intros H.
  apply bind_Ok in H as (a0 & Ha0 & H). apply bind_Ok in H as (m & Hm & H).
  apply bind_Ok in H as (nx & Hnx & H). apply bind_Ok in H as (hi & Hhi & H).
  apply bind_Ok in H as (lo & Hlo & H). apply bind_Ok in H as (c & Hch & H).
  injection H as -> <- <- ->. exists hi, lo, m.
  assert (CalcAmount0Delta L next cur true = Ok hi).
  { destruct (Equal target next) eqn:E; [|done]. apply Equal_iff in E as <-. by injection Hhi as <-. }
  split; [done|]. split; [done|]. split; [done|]. split; [done|]. split; [done|].
  split; [|done]. destruct (GTE _ _); [left|right; done]. by injection Hnx.
Qed.

(** The amount paid out by an exact-out step is capped by the amount still wanted. *)
Definition capped (lo : t) : t :=
  if GT lo (mk (Dec.i rem * PF)) then mk (Dec.i rem * PF) else lo.

Lemma ofz_in_inv :
  oneForZero.ComputeSwapWithinBucketInGivenOut s cur target L rem = Ok (next, aout, ain, ch) →
  ∃ hi lo lo0 spf, CalcAmount1Delta L next cur true = Ok hi ∧ ain = DecRoundUp hi ∧
    CalcAmount0Delta L next cur false = Ok lo ∧ aout = ToDec (capped lo) ∧
    CalcAmount0Delta L target cur false = Ok lo0 ∧
    ((next = target ∧ i lo0 ≤ Dec.i rem * PF) ∨ (Dec.i rem * PF < i lo0 ∧
     GetNextSqrtPriceFromAmount0OutRoundingUp cur (mk (Dec.i L * PF)) rem = Ok next)) ∧
    getSpfOverOneMinusSpf s = Ok spf ∧ sdk.MulRoundUp ain spf = Ok ch.
Proof using.
  unfold oneForZero.ComputeSwapWithinBucketInGivenOut.
  rewrite !BigDecFromDec_eq, !bind_of_Ok. intros H.
  apply bind_Ok in H as (lo0 & Hlo0 & H). apply bind_Ok in H as (nx & Hnx & H).
  apply bind_Ok in H as (lo & Hlo & H). apply bind_Ok in H as (hi & Hhi & H).
  apply bind_Ok in H as (spf & Hspf & H). apply bind_Ok in H as (c & Hch & H).
  injection H as -> <- <- ->. exists hi, lo, lo0, spf.
  assert (CalcAmount0Delta L next cur false = Ok lo).
  { destruct (Equal target next) eqn:E; [|done]. apply Equal_iff in E as <-. by injection Hlo as <-. }
  do 5 (split; [done|]). split; [|done]. destruct (GTE _ _) eqn:G.
  - left. apply GTE_iff in G. by injection Hnx.
  - right. rewrite <- Bool.not_true_iff_false, GTE_iff in G. cbn [i] in G. split; [lia|done].
Qed.

Lemma zfo_in_inv :
  zeroForOne.ComputeSwapWithinBucketInGivenOut s cur target L rem = Ok (next, aout, ain, ch) →
  ∃ hi lo lo0 spf, CalcAmount0Delta L next cur true = Ok hi ∧ ain = DecRoundUp hi ∧
    CalcAmount1Delta L next cur false = Ok lo ∧ aout = ToDec (capped lo) ∧
    CalcAmount1Delta L target cur false = Ok lo0 ∧
    ((next = target ∧ i lo0 ≤ Dec.i rem * PF) ∨ (Dec.i rem * PF < i lo0 ∧
     GetNextSqrtPriceFromAmount1OutRoundingDown cur L (mk (Dec.i rem * PF)) = Ok next)) ∧
    getSpfOverOneMinusSpf s = Ok spf ∧ sdk.MulRoundUp ain spf = Ok ch.
Proof using.
  unfold zeroForOne.ComputeSwapWithinBucketInGivenOut.
  rewrite !BigDecFromDec_eq, !bind_of_Ok. intros H.
  apply bind_Ok in H as (lo0 & Hlo0 & H). apply bind_Ok in H as (nx & Hnx & H).
  apply bind_Ok in H as (lo & Hlo & H). apply bind_Ok in H as (hi & Hhi & H).
  apply bind_Ok in H as (spf & Hspf & H). apply bind_Ok in H as (c & Hch & H).
  injection H as -> <- <- ->. exists hi, lo, lo0, spf.
  assert (CalcAmount1Delta L next cur false = Ok lo).
  { destruct (Equal target next) eqn:E; [|done]. apply Equal_iff in E as <-. by injection Hlo as <-. }
  do 5 (split; [done|]). split; [|done]. destruct (GTE _ _) eqn:G.
  - left. apply GTE_iff in G. by injection Hnx.
  - right. rewrite <- Bool.not_true_iff_false, GTE_iff in G. cbn [i] in G. split; [lia|done].
Qed.
End inversion.

(** *** Direction of the price *)

(** An amount below the exact amount for the whole range leaves liquidity in the pool. *)
Lemma exact_pay a l c T lo pd pf :
  0 < pd → 0 < pf → 0 < c → 0 < T → 0 ≤ l → a * pf ≤ lo →
  lo * T * c * pd ≤ l * (T - c) * (pd * pf) * (pd * pf) → c * a ≤ l * pf * pd.
Proof.
  intros Hpd Hpf Hc HT Hl Ha Hex.
  assert (a * pf * (T * c * pd) ≤ lo * (T * c * pd)) as H1 by (apply Z.mul_le_mono_nonneg_r; nia).
  assert ((pf * pd) * (T * (c * a)) ≤ (pf * pd) * (l * (T - c) * (pd * pf))) as H2 by lia.
  apply Z.mul_le_mono_pos_l in H2; [|nia].
  assert (l * (T - c) * (pd * pf) ≤ T * (l * pf * pd)) as H3 by (assert (0 ≤ l * c * (pd * pf)) by nia; lia).
  apply (Z.mul_le_mono_pos_l _ _ T); lia.
Qed.

Section direction.
  Context {D : sdk.LegacyDec} {Ls : sdk.LegacyDecLaws D}.
  Context (s : strategy) (cur target next : t) (L rem ain aout ch : Dec.t).
  Context (HL : 0 ≤ Dec.i L) (Hr : 0 ≤ Dec.i rem) (Hc : 0 < i cur).

Lemma oneMinus_eq m : getOneMinusSpreadFactor s = Ok m → Dec.i m = Dec.one - Dec.i (spreadFactor s).
Proof using Ls. apply sdk.Sub_spec. Qed.

Lemma ofz_out_dir :
  Dec.i (spreadFactor s) ≤ Dec.one → i cur ≤ i target →
  oneForZero.ComputeSwapWithinBucketOutGivenIn s cur target L rem = Ok (next, ain, aout, ch) →
  i cur ≤ i next.
Proof using HL Hr Hc Ls.
  intros Hsf Ht H. apply ofz_out_inv in H as (hi & lo & m & _ & _ & _ & _ & Hm & [->|Hn] & _); [done|].
  apply oneMinus_eq in Hm. destruct (Z.eq_dec (Dec.i L) 0) as [E|].
  - unfold GetNextSqrtPriceFromAmount1InRoundingDown, QuoTruncateDec, big.Quo in Hn.
    rewrite E in Hn. discriminate Hn.
  - apply next_price_1_in in Hn; [lia..|]. cbn [NewBigDecFromDecMulDec i]. nia.
Qed.

Lemma zfo_out_dir :
  10 ^ 30 ≤ i cur → 2 ≤ Dec.i rem → Dec.i (spreadFactor s) + 5 * 10 ^ 11 ≤ Dec.one →
  i target ≤ i cur →
  zeroForOne.ComputeSwapWithinBucketOutGivenIn s cur target L rem = Ok (next, ain, aout, ch) →
  i next ≤ i cur.
Proof using HL Hc Ls.
  intros Hp Hrem Hsf Ht H.
  apply zfo_out_inv in H as (hi & lo & m & _ & _ & _ & _ & Hm & [->|Hn] & _); [done|].
  apply oneMinus_eq in Hm. eapply next_0_in_le; [done| | | |exact Hn]; cbn [NewBigDecFromDecMulDec i].
  - pose proof PF_pos. nia.
  - nia.
  - apply product_large; [done|]. nia.
Qed.

Lemma ofz_in_dir :
  i cur ≤ i target →
  oneForZero.ComputeSwapWithinBucketInGivenOut s cur target L rem = Ok (next, aout, ain, ch) →
  i cur ≤ i next.
Proof using HL Hr Hc Ls.
  intros Ht H.
  apply ofz_in_inv in H as (hi & lo & lo0 & spf & _ & _ & _ & _ & Hlo0 & [[-> _]|[Hlt Hn]] & _);
    [done|].
  apply amount0_down in Hlo0; [|done|lia|done]. destruct Hlo0 as [Hlo Hex].
  eapply next_0_out_ge; [done| | | |exact Hn]; cbn [i]; [pose proof PF_pos; nia|done|].
  unfold exact0_den, exact0_num in Hex. change P with (PD * PF) in Hex.
  replace (Z.abs (i cur - i target)) with (i target - i cur) in Hex by lia.
  eapply (exact_pay _ _ _ (i target) (i lo0)); [exact PD_pos|exact PF_pos|done|lia|done|lia|exact Hex].
Qed.

Lemma zfo_in_dir :
  i target ≤ i cur →
  zeroForOne.ComputeSwapWithinBucketInGivenOut s cur target L rem = Ok (next, aout, ain, ch) →
  i next ≤ i cur.
Proof using HL Hr Hc Ls.
  intros Ht H.
  apply zfo_in_inv in H as (hi & lo & lo0 & spf & _ & _ & _ & _ & Hlo0 & [[-> _]|[Hlt Hn]] & _);
    [done|].
  destruct (Z.eq_dec (Dec.i L) 0) as [E|].
  - unfold GetNextSqrtPriceFromAmount1OutRoundingDown, QuoByDecRoundUp, big.QuoRem in Hn.
    rewrite E in Hn. discriminate Hn.
  - apply next_price_1_out in Hn; [lia..|]. cbn [i]. pose proof PF_pos. nia.
Qed.
End direction.

(** *** Amounts and charges *)

(** The exact amounts of a move of the square root price from [cur] to [next] at liquidity [L] are
    [L * |next - cur|] of token 1 and [L * |next - cur| / (next * cur)] of token 0.  A step favours
    the pool when it takes at least the exact amount of the token going in, up to half of 10^-36
    tokens for token 1, and pays at most the exact amount of the token going out. *)
Definition step_favours_pool (zfo : bool) (L : Dec.t) (cur next : t) (ain aout : Dec.t) : Prop :=
  if zfo then
    exact0_num L next cur ≤ exact0_den next cur (Dec.i ain * PF) ∧
    PD * (Dec.i aout * PF) ≤ exact1 L next cur
  else
    2 * exact1 L next cur ≤ PD * (2 * (Dec.i ain * PF) + 1) ∧
    exact0_den next cur (Dec.i aout * PF) ≤ exact0_num L next cur.

Lemma whole_up hi k : i hi = k * P → Dec.i (DecRoundUp hi) = k * Dec.one ∧ Dec.i (DecRoundUp hi) * PF = i hi.
Proof.
  intros Hk. unfold DecRoundUp, incBasedOnRem. rewrite Sign_zero, Hk.
  replace (k * P) with (k * PD * PF) by (change P with (PD * PF); ring).
  rewrite Z.rem_mul, Z.quot_mul by (pose proof PF_pos; lia). cbn [Z.eqb Dec.i].
  change Dec.one with PD. lia.
Qed.

Lemma ToDec_down lo : 0 ≤ i lo → 0 ≤ Dec.i (ToDec lo) ∧ Dec.i (ToDec lo) * PF ≤ i lo.
Proof.
  intros H. pose proof (ToDec_spec lo H) as Hf. pose proof PF_pos.
  split; [eapply is_floor_nonneg; [| |exact Hf]; lia|]. unfold is_floor in Hf. lia.
Qed.

Lemma capped_le rem lo : 0 ≤ Dec.i rem → 0 ≤ i lo →
  0 ≤ i (capped rem lo) ≤ i lo ∧ i (capped rem lo) ≤ Dec.i rem * PF.
Proof.
  intros Hr Hl. unfold capped. pose proof PF_pos. destruct (GT _ _) eqn:E.
  - apply GT_iff in E. cbn [i] in *. nia.
  - rewrite <- Bool.not_true_iff_false, GT_iff in E. cbn [i] in *. lia.
Qed.

Section amounts.
  Context (L rem : Dec.t) (cur next : t) (HL : 0 ≤ Dec.i L) (Hc : 0 < i cur) (Hn : 0 < i next).

(** Rounding the two amounts of the step to the 18-digit type keeps them on the pool's side. *)
Lemma step_amounts_1_in hi lo out :
  CalcAmount1Delta L next cur true = Ok hi → CalcAmount0Delta L next cur false = Ok lo →
  0 ≤ i out ≤ i lo →
  step_favours_pool false L cur next (DecRoundUp hi) (ToDec out) ∧
  (∃ k, Dec.i (DecRoundUp hi) = k * Dec.one) ∧ 0 ≤ Dec.i (DecRoundUp hi) ∧ 0 ≤ Dec.i (ToDec out).
Proof using HL Hc Hn.
  intros Hhi Hlo Hout. destruct (amount1_up L next cur hi Hhi) as (m & k & [Hm _] & Hk & Hce).
  apply amount0_down in Hlo as [Hlo Hex]; [|done..].
  destruct (whole_up hi k Hk) as [Hw1 Hw2]. destruct (ToDec_down out ltac:(lia)) as [Hd1 Hd2].
  pose proof PD_pos. pose proof P_pos. unfold is_ceil in Hce.
  assert (0 ≤ exact1 L next cur) by (unfold exact1; nia).
  split; [split|].
  - rewrite Hw2, Hk. nia.
  - eapply Z.le_trans; [|exact Hex]. unfold exact0_den.
    rewrite <- !(Z.mul_assoc _ (i next)), <- !(Z.mul_assoc _ (i next * i cur)).
    apply Z.mul_le_mono_nonneg_r; nia.
  - split; [by exists k|]. split; [|done]. rewrite Hw1.
    assert (0 ≤ m) by nia. assert (0 ≤ k) by nia. unfold Dec.one. lia.
Qed.

Lemma step_amounts_0_in hi lo out :
  CalcAmount0Delta L next cur true = Ok hi → CalcAmount1Delta L next cur false = Ok lo →
  0 ≤ i out ≤ i lo →
  step_favours_pool true L cur next (DecRoundUp hi) (ToDec out) ∧
  (∃ k, Dec.i (DecRoundUp hi) = k * Dec.one) ∧ 0 ≤ Dec.i (DecRoundUp hi) ∧ 0 ≤ Dec.i (ToDec out).
Proof using HL Hc Hn.
  intros Hhi Hlo Hout. apply amount0_up in Hhi as [(k & Hk) Hex]; [|done..].
  apply amount1_down in Hlo; [|done]. unfold is_floor in Hlo.
  destruct (whole_up hi k Hk) as [Hw1 Hw2]. destruct (ToDec_down out ltac:(lia)) as [Hd1 Hd2].
  pose proof PD_pos. pose proof P_pos. split; [split|].
  - rewrite Hw2. exact Hex.
  - nia.
  - split; [by exists k|]. split; [|done]. rewrite Hw1.
    assert (0 ≤ exact0_num L next cur) by (unfold exact0_num; nia).
    assert (0 ≤ i hi). { unfold exact0_den in Hex. assert (0 < i next * i cur * PD) by nia. nia. }
    assert (0 ≤ k) by nia. unfold Dec.one. lia.
Qed.
End amounts.

(** Both kinds of step of both strategies, seen as one relation: the step consumes [ain], pays
    [aout] and charges [ch]. *)
Definition takes_step {D : sdk.LegacyDec} (zfo exactIn : bool) (limit : t) (sf : Dec.t)
    (cur target : t) (L rem : Dec.t) (next : t) (ain aout ch : Dec.t) : Prop :=
  if exactIn
  then ComputeSwapWithinBucketOutGivenIn (New zfo limit sf) cur target L rem
         = Ok (next, ain, aout, ch)
  else ComputeSwapWithinBucketInGivenOut (New zfo limit sf) cur target L rem
         = Ok (next, aout, ain, ch).

Section steps.
  Context {D : sdk.LegacyDec} {Ls : sdk.LegacyDecLaws D}.
  Context (zfo exactIn : bool) (limit : t) (sf : Dec.t) (cur target next : t).
  Context (L rem ain aout ch : Dec.t).
  Context (HL : 0 ≤ Dec.i L) (Hr : 0 ≤ Dec.i rem) (Hc : 0 < i cur).
  Context (Hstep : takes_step zfo exactIn limit sf cur target L rem next ain aout ch).

Lemma step_amounts :
  0 < i next →
  step_favours_pool zfo L cur next ain aout ∧ (∃ k, Dec.i ain = k * Dec.one) ∧
  0 ≤ Dec.i ain ∧ 0 ≤ Dec.i aout.
Proof using HL Hr Hc Hstep.
  intros Hn. unfold takes_step in Hstep. destruct zfo, exactIn; cbn in Hstep.
  - apply zfo_out_inv in Hstep as (hi & lo & m & Hhi & -> & Hlo & -> & _).
    eapply step_amounts_0_in; try done.
    pose proof (amount1_down L next cur HL lo Hlo) as Hf. unfold is_floor, exact1 in Hf.
    pose proof PD_pos. nia.
  - apply zfo_in_inv in Hstep as (hi & lo & lo0 & spf & Hhi & -> & Hlo & -> & _).
    eapply step_amounts_0_in; try done. apply capped_le; [done|].
    pose proof (amount1_down L next cur HL lo Hlo) as Hf. unfold is_floor, exact1 in Hf.
    pose proof PD_pos. nia.
  - apply ofz_out_inv in Hstep as (hi & lo & m & Hhi & -> & Hlo & -> & _).
    eapply step_amounts_1_in; try done.
    pose proof (amount0_down L next cur HL Hn Hc lo Hlo). lia.
  - apply ofz_in_inv in Hstep as (hi & lo & lo0 & spf & Hhi & -> & Hlo & -> & _).
    eapply step_amounts_1_in; try done. apply capped_le; [done|].
    by apply (amount0_down L next cur HL Hn Hc lo Hlo).
Qed.

Lemma step_out_capped : 0 < i next → exactIn = false → Dec.i aout ≤ Dec.i rem.
Proof using HL Hr Hc Hstep.
  intros Hn ->. unfold takes_step in Hstep. pose proof PF_pos.
  assert (∃ lo, 0 ≤ i lo ∧ aout = ToDec (capped rem lo)) as (lo & Hlo & ->).
  { destruct zfo; cbn in Hstep.
    - apply zfo_in_inv in Hstep as (hi & lo & lo0 & spf & Hhi & -> & Hlo & -> & _).
      exists lo. split; [|done].
      pose proof (amount1_down L next cur HL lo Hlo) as Hf. unfold is_floor, exact1 in Hf.
      pose proof PD_pos. nia.
    - apply ofz_in_inv in Hstep as (hi & lo & lo0 & spf & Hhi & -> & Hlo & -> & _).
      exists lo. split; [|done]. by apply (amount0_down L next cur HL Hn Hc lo Hlo). }
  destruct (capped_le rem lo Hr Hlo) as [[H0 _] H1].
  destruct (ToDec_down (capped rem lo) H0) as [_ H2]. nia.
Qed.

Lemma step_direction :
  (zfo = true → exactIn = true →
    10 ^ 30 ≤ i cur ∧ 2 ≤ Dec.i rem ∧ Dec.i sf + 5 * 10 ^ 11 ≤ Dec.one) →
  Dec.i sf ≤ Dec.one →
  if zfo then i target ≤ i cur → i next ≤ i cur else i cur ≤ i target → i cur ≤ i next.
Proof using HL Hr Hc Hstep Ls.
  intros Hz Hsf. unfold takes_step in Hstep. destruct zfo, exactIn; cbn in Hstep; intros Ht.
  - destruct (Hz eq_refl eq_refl) as (H1 & H2 & H3).
    exact (zfo_out_dir {| sqrtPriceLimit := limit; spreadFactor := sf |}
      cur target next L rem ain aout ch HL Hc H1 H2 H3 Ht Hstep).
  - exact (zfo_in_dir {| sqrtPriceLimit := limit; spreadFactor := sf |}
      cur target next L rem ain aout ch HL Hr Hc Ht Hstep).
  - exact (ofz_out_dir {| sqrtPriceLimit := limit; spreadFactor := sf |}
      cur target next L rem ain aout ch HL Hr Hc Hsf Ht Hstep).
  - exact (ofz_in_dir {| sqrtPriceLimit := limit; spreadFactor := sf |}
      cur target next L rem ain aout ch HL Hr Hc Ht Hstep).
Qed.

Lemma spf_spec spf :
  0 < Dec.i sf < Dec.one →
  getSpfOverOneMinusSpf {| sqrtPriceLimit := limit; spreadFactor := sf |} = Ok spf →
  Dec.i sf * Dec.one ≤ (Dec.one - Dec.i sf) * Dec.i spf.
Proof using Ls.
  intros Hsf H. unfold getSpfOverOneMinusSpf in H. apply bind_Ok in H as (m & Hm & H).
  apply (oneMinus_eq (Ls := Ls)) in Hm. cbn [spreadFactor] in *.
  apply sdk.QuoRoundUp_spec in H; rewrite ?Hm in *; lia.
Qed.

Lemma charge_from_amount spf :
  0 < Dec.i sf < Dec.one → 0 ≤ Dec.i ain →
  getSpfOverOneMinusSpf {| sqrtPriceLimit := limit; spreadFactor := sf |} = Ok spf →
  sdk.MulRoundUp ain spf = Ok ch → Dec.i sf * Dec.i ain ≤ (Dec.one - Dec.i sf) * Dec.i ch.
Proof using Ls.
  intros Hsf Ha Hspf Hm. apply spf_spec in Hspf; [|done]. apply sdk.MulRoundUp_spec in Hm as [Hm _].
  assert (0 < Dec.one) as H1 by done.
  apply (Z.mul_le_mono_pos_l _ _ Dec.one); [done|].
  assert (Dec.i sf * Dec.one * Dec.i ain ≤ (Dec.one - Dec.i sf) * Dec.i spf * Dec.i ain) by nia.
  assert ((Dec.one - Dec.i sf) * (Dec.i ain * Dec.i spf) ≤ (Dec.one - Dec.i sf) * (Dec.one * Dec.i ch))
    by (apply Z.mul_le_mono_nonneg_l; lia). lia.
Qed.

Lemma step_charge :
  0 < i next → 0 < Dec.i sf < Dec.one →
  if exactIn && negb (Equal target next) then Dec.i ain + Dec.i ch = Dec.i rem ∧ 0 ≤ Dec.i ch
  else Dec.i sf * Dec.i ain ≤ (Dec.one - Dec.i sf) * Dec.i ch.
Proof using HL Hr Hc Hstep Ls.
  intros Hn Hsf. pose proof (step_amounts Hn) as (_ & _ & Ha & _).
  destruct exactIn; cbn [andb].
  - assert (computeSpreadRewardChargePerSwapStepOutGivenIn (Equal target next) ain rem sf
      (getSpfOverOneMinusSpf {| sqrtPriceLimit := limit; spreadFactor := sf |}) = Ok ch) as H.
    { unfold takes_step in Hstep. destruct zfo; cbn in Hstep.
      - apply zfo_out_inv in Hstep as (hi & lo & m & _ & _ & _ & _ & _ & _ & H). exact H.
      - apply ofz_out_inv in Hstep as (hi & lo & m & _ & _ & _ & _ & _ & _ & H). exact H. }
    unfold computeSpreadRewardChargePerSwapStepOutGivenIn in H.
    rewrite sdk.IsZero_spec, sdk.IsNegative_spec in H.
    rewrite (proj2 (Z.eqb_neq _ _)), (proj2 (Z.ltb_ge _ _)) in H by lia.
    apply bind_Ok in H as (c & Hc' & H). rewrite sdk.IsNegative_spec in H.
    destruct (Z.ltb_spec (Dec.i c) 0) as [|Hnn]; [discriminate|]. injection H as ->.
    destruct (Equal target next); cbn [negb].
    + apply bind_Ok in Hc' as (spf & Hspf & Hm). by apply (charge_from_amount spf).
    + apply sdk.Sub_spec in Hc'. lia.
  - unfold takes_step in Hstep. destruct zfo; cbn in Hstep.
    + apply zfo_in_inv in Hstep as (hi & lo & lo0 & spf & _ & _ & _ & _ & _ & _ & Hspf & Hm).
      by apply (charge_from_amount spf).
    + apply ofz_in_inv in Hstep as (hi & lo & lo0 & spf & _ & _ & _ & _ & _ & _ & Hspf & Hm).
      by apply (charge_from_amount spf).
Qed.

(** With a given input the code itself checks that the charge is not negative. *)
Lemma step_charge_nonneg : exactIn = true → 0 ≤ Dec.i ch.
Proof using Hstep Ls.
  intros ->. assert (computeSpreadRewardChargePerSwapStepOutGivenIn (Equal target next) ain rem sf
    (getSpfOverOneMinusSpf {| sqrtPriceLimit := limit; spreadFactor := sf |}) = Ok ch) as H.
  { unfold takes_step in Hstep. destruct zfo; cbn in Hstep.
    - apply zfo_out_inv in Hstep as (hi & lo & m & _ & _ & _ & _ & _ & _ & H). exact H.
    - apply ofz_out_inv in Hstep as (hi & lo & m & _ & _ & _ & _ & _ & _ & H). exact H. }
  unfold computeSpreadRewardChargePerSwapStepOutGivenIn in H.
  destruct (sdk.IsZero sf); [by injection H as <-|]. destruct (sdk.IsNegative sf); [done|].
  apply bind_Ok in H as (c & _ & H). rewrite sdk.IsNegative_spec in H.
  destruct (Z.ltb_spec (Dec.i c) 0); [done|]. by injection H as <-.
Qed.
End steps.

(** *** Properties *)

(** C5. A swap step of either direction and kind takes whole tokens covering the exact amount of
    the move it makes (up to half of 10^-36 tokens for token 1) and pays at most the exact amount;
    an exact-out step never pays more than was asked for. *)
Theorem swap_step_favours_pool (D : sdk.LegacyDec) (Ls : sdk.LegacyDecLaws D)
    (zfo exactIn : bool) (limit : t) (sf : Dec.t) (cur target next : t) (L rem ain aout ch : Dec.t) :
  0 ≤ Dec.i L → 0 ≤ Dec.i rem → 0 < i cur → 0 < i next →
  takes_step zfo exactIn limit sf cur target L rem next ain aout ch →
  step_favours_pool zfo L cur next ain aout ∧ (∃ k, Dec.i ain = k * Dec.one) ∧
  0 ≤ Dec.i ain ∧ 0 ≤ Dec.i aout ∧ (exactIn = false → Dec.i aout ≤ Dec.i rem).
Proof.
  intros HL Hr Hc Hn H.
  destruct (step_amounts zfo exactIn limit sf cur target next L rem ain aout ch HL Hr Hc H Hn)
    as (H1 & H2 & H3 & H4).
  split; [done|]. split; [done|]. split; [done|]. split; [done|].
  exact (step_out_capped zfo exactIn limit sf cur target next L rem ain aout ch HL Hr Hc H Hn).
Qed.

(** The price moves in the direction of the swap, never beyond the current price: down when
    token 0 is sold and up when token 1 is sold.  Selling an exact amount of token 0 needs the pool's
    minimum price and a spread factor below 1 - 5*10^-7, without which the rounding up of the next
    price could push it above the current one. *)
Theorem swap_step_direction (D : sdk.LegacyDec) (Ls : sdk.LegacyDecLaws D)
    (zfo exactIn : bool) (limit : t) (sf : Dec.t) (cur target next : t) (L rem ain aout ch : Dec.t) :
  0 ≤ Dec.i L → 0 ≤ Dec.i rem → 0 < i cur → Dec.i sf ≤ Dec.one →
  (zfo = true → exactIn = true →
    10 ^ 30 ≤ i cur ∧ 2 ≤ Dec.i rem ∧ Dec.i sf + 5 * 10 ^ 11 ≤ Dec.one) →
  takes_step zfo exactIn limit sf cur target L rem next ain aout ch →
  if zfo then i target ≤ i cur → i next ≤ i cur else i cur ≤ i target → i cur ≤ i next.
Proof.
  intros HL Hr Hc Hsf Hz H.
  exact (step_direction zfo exactIn limit sf cur target next L rem ain aout ch HL Hr Hc H Hz Hsf).
Qed.

(** The spread charge of a step is at least the spread share of what the trader pays
    (charge / (amount in + charge) >= spread factor), and an exact-in step that stops before its
    target consumes exactly the amount that was left. *)
Theorem swap_step_spread_charge (D : sdk.LegacyDec) (Ls : sdk.LegacyDecLaws D)
    (zfo exactIn : bool) (limit : t) (sf : Dec.t) (cur target next : t) (L rem ain aout ch : Dec.t) :
  0 ≤ Dec.i L → 0 ≤ Dec.i rem → 0 < i cur → 0 < i next → 0 < Dec.i sf < Dec.one →
  takes_step zfo exactIn limit sf cur target L rem next ain aout ch →
  if exactIn && negb (Equal target next) then Dec.i ain + Dec.i ch = Dec.i rem ∧ 0 ≤ Dec.i ch
  else Dec.i sf * (Dec.i ain + Dec.i ch) ≤ Dec.one * Dec.i ch.
Proof.
  intros HL Hr Hc Hn Hsf H.
  pose proof (step_charge zfo exactIn limit sf cur target next L rem ain aout ch HL Hr Hc H Hn Hsf)
    as Hch.
  destruct (exactIn && negb (Equal target next)); [done|]. lia.
Qed.

(** A step from square root price 1 to 2 at liquidity 997, with 1000 tokens left and a spread factor
    of 0.003: the amount after the spread is exactly the 997 tokens the move needs. *)
Definition fit_step (rem : Dec.t) : outcome stepResult :=
  ComputeSwapWithinBucketOutGivenIn (New (D := sdk.ref_dec) false (mk (3 * P)) (Dec.mk (3 * 10 ^ 15)))
    (mk P) (mk (2 * P)) (Dec.mk (997 * Dec.one)) rem.

Lemma fit_step_eq :
  fit_step (Dec.mk (1000 * Dec.one)) =
  Ok (mk (2 * P), Dec.mk (997 * Dec.one), Dec.mk (498500000000000000000),
      Dec.mk 3000000000000000804).
Proof. vm_compute. reflexivity. Qed.

Lemma swap_step_favours_pool_witness :
  step_favours_pool false (Dec.mk (997 * Dec.one)) (mk P) (mk (2 * P)) (Dec.mk (997 * Dec.one))
    (Dec.mk 498500000000000000000).
Proof.
  apply (swap_step_favours_pool sdk.ref_dec sdk.ref_dec_laws false true (mk (3 * P))
    (Dec.mk (3 * 10 ^ 15)) (mk P) (mk (2 * P)) (mk (2 * P)) (Dec.mk (997 * Dec.one))
    (Dec.mk (1000 * Dec.one)) (Dec.mk (997 * Dec.one)) (Dec.mk 498500000000000000000)
    (Dec.mk 3000000000000000804)); [zconst|zconst|zconst|zconst|exact fit_step_eq].
Defined.

Lemma swap_step_direction_witness :
  i (mk P) ≤ i (mk (2 * P)) ∧
  (i (mk P) ≤ i (mk (2 * P)) → i (mk P) ≤ i (mk (2 * P))).
Proof.
  split; [zconst|].
  apply (swap_step_direction sdk.ref_dec sdk.ref_dec_laws false true (mk (3 * P))
    (Dec.mk (3 * 10 ^ 15)) (mk P) (mk (2 * P)) (mk (2 * P)) (Dec.mk (997 * Dec.one))
    (Dec.mk (1000 * Dec.one)) (Dec.mk (997 * Dec.one)) (Dec.mk 498500000000000000000)
    (Dec.mk 3000000000000000804)); [zconst|zconst|zconst|zconst|discriminate|exact fit_step_eq].
Defined.

Lemma swap_step_spread_charge_witness :
  3 * 10 ^ 15 * (997 * Dec.one + 3000000000000000804) ≤ Dec.one * 3000000000000000804.
Proof.
  apply (swap_step_spread_charge sdk.ref_dec sdk.ref_dec_laws false true (mk (3 * P))
    (Dec.mk (3 * 10 ^ 15)) (mk P) (mk (2 * P)) (mk (2 * P)) (Dec.mk (997 * Dec.one))
    (Dec.mk (1000 * Dec.one)) (Dec.mk (997 * Dec.one)) (Dec.mk 498500000000000000000)
    (Dec.mk 3000000000000000804)); [zconst|zconst|zconst|zconst|zconst|exact fit_step_eq].
Defined.

(** An exact-in step that reaches its target can consume more than the amount left: with 1000
    tokens left and exactly the 997 tokens the move needs after the spread of 0.003, amount and
    charge add up to 1000.000000000000000804 tokens. *)
Theorem exact_fit_step_overcharges :
  ∃ next ain aout ch, fit_step (Dec.mk (1000 * Dec.one)) = Ok (next, ain, aout, ch) ∧
    1000 * Dec.one < Dec.i ain + Dec.i ch.
Proof.
  eexists _, _, _, _. split; [exact fit_step_eq|]. zconst.
Qed.
End CLSwapStrategyProps.
