(* ===== verification/CLKeys.v ===== *)
(** Store keys of the concentrated-liquidity module: x/concentrated-liquidity/types/keys.go, and the
    reading of position keys in position.go.

    A byte string is a list of integers between 0 and 255; keys made with [fmt.Sprintf] are texts.
    The key-value store iterates in the lexicographic order of the keys. *)
From stdpp Require Import prelude strings list sorting.
From Stdlib Require Import Ascii.
From S2P Require Import Prelude.
From S2P Require Import GoBig.
From S2P Require Import Decimal.
From S2P Require Import DecimalText.
Local Open Scope Z_scope.
Import BigText.

Module CLKeys.
Definition bytes : Type := list Z.

Definition TickPrefix : bytes := [1].
Definition TickNegativePrefix : bytes := [5].
Definition TickPositivePrefix : bytes := [6].

(** [sdk.Uint64ToBigEndian] and [sdk.BigEndianToUint64]. *)
Fixpoint big_endian (k : nat) (n : Z) : bytes :=
  match k with
  | O => []
  | S k => (n / 256 ^ Z.of_nat k) mod 256 :: big_endian k n
  end.
Definition Uint64ToBigEndian (n : Z) : bytes := big_endian 8 n.
Definition BigEndianToUint64 (bz : bytes) : Z := fold_left (λ acc b, acc * 256 + b) bz 0.

(** Go's conversions between [int64] and [uint64]. *)
Definition to_uint64 (n : Z) : Z := n mod 2 ^ 64.
Definition to_int64 (n : Z) : Z := if n <? 2 ^ 63 then n else n - 2 ^ 64.

Definition TickIndexToBytes (tickIndex : Z) : bytes :=
  if tickIndex <? 0 then TickNegativePrefix ++ Uint64ToBigEndian (to_uint64 tickIndex)
  else TickPositivePrefix ++ Uint64ToBigEndian (to_uint64 tickIndex).

Definition TickIndexFromBytes (bz : bytes) : outcome Z :=
  match bz with
  | b0 :: rest =>
    if bool_decide (length rest = 8%nat) then
      let i := to_int64 (BigEndianToUint64 rest) in
      if (b0 =? 5) && (0 <=? i) then Err "InvalidTickIndexEncodingError"
      else if (b0 =? 6) && (i <? 0) then Err "InvalidTickIndexEncodingError"
      else Ok i
    else Err "InvalidTickIndexEncodingError"
  | [] => Err "InvalidTickIndexEncodingError"
  end.

Definition keyTickPrefixByPoolIdPrealloc (poolId : Z) : bytes := TickPrefix ++ Uint64ToBigEndian poolId.
Definition KeyTickPrefixByPoolId (poolId : Z) : bytes := keyTickPrefixByPoolIdPrealloc poolId.
Definition KeyTick (poolId tickIndex : Z) : bytes :=
  keyTickPrefixByPoolIdPrealloc poolId ++ TickIndexToBytes tickIndex.

(** Lexicographic order of byte strings. *)
Fixpoint bytes_lt (a b : bytes) : bool :=
  match a, b with
  | _, [] => false
  | [], _ :: _ => true
  | x :: a, y :: b => if x <? y then true else if x =? y then bytes_lt a b else false
  end.

(** *** Position keys *)

Definition sep : ascii := "|".
Definition PositionPrefix : chars := [ascii_of_nat 2].

(** [addr] is the hexadecimal text of the owner's address. *)
Definition KeyAddressAndPoolId (addr : chars) (poolId : Z) : chars :=
  PositionPrefix ++ sep :: addr ++ sep :: MarshalText poolId ++ [sep].
Definition KeyAddressPoolIdPositionId (addr : chars) (poolId positionId : Z) : chars :=
  PositionPrefix ++ sep :: addr ++ sep :: MarshalText poolId ++ sep :: MarshalText positionId.

(** Keys used as names in the accumulator store.  The separator there is "||". *)
Definition FormatUint (n : Z) : string := String.string_of_list_ascii (MarshalText n).
Definition byte_string (n : nat) : string := String (ascii_of_nat n) EmptyString.
Definition KeyPositionId (positionId : Z) : string := byte_string 8 +:+ FormatUint positionId.
Definition KeySpreadRewardPositionAccumulator (positionId : Z) : string :=
  String.concat "|" [byte_string 10; FormatUint positionId].
Definition KeySpreadRewardPoolAccumulator (poolId : Z) : string :=
  String.concat "/" [byte_string 11; FormatUint poolId].
Definition KeyUptimeAccumulator (poolId uptimeIndex : Z) : string :=
  String.concat "/" [byte_string 12; FormatUint poolId; FormatUint uptimeIndex].
(** The part of an incentive record's key after the pool's prefix. *)
Definition KeyIncentiveRecord_suffix (minUptimeIndex id : Z) : string :=
  FormatUint minUptimeIndex +:+ "|" +:+ FormatUint id +:+ "|".

(** [strconv.ParseUint(s, base, 64)] for bases 10 and 16. *)
Definition hex_val (c : ascii) : option Z :=
  let n := Z.of_nat (nat_of_ascii c) in
  if (48 <=? n) && (n <=? 57) then Some (n - 48)
  else if (97 <=? n) && (n <=? 102) then Some (n - 87)
  else if (65 <=? n) && (n <=? 70) then Some (n - 55)
  else None.
Fixpoint parse_base (base acc : Z) (s : chars) : option Z :=
  match s with
  | [] => Some acc
  | c :: s => match hex_val c with
              | Some d => if d <? base then parse_base base (acc * base + d) s else None
              | None => None
              end
  end.
Definition ParseUint (s : chars) (base : Z) : outcome Z :=
  match s with
  | [] => Err "invalid syntax"
  | _ => match parse_base base 0 s with
         | None => Err "invalid syntax"
         | Some n => if n <? 2 ^ 64 then Ok n else Err "value out of range"
         end
  end.

(** The loop of [GetAllPositionIdsForPoolId] over the keys the iterator yields. *)
Fixpoint collectPositionIds (keys : list chars) (poolId : Z) : outcome (list Z) :=
  match keys with
  | [] => Ok []
  | key :: keys =>
    match Split sep key with
    | [_; _; p; id] =>
      keyPoolId ← ParseUint p 16;
      positionId ← ParseUint id 10;
      rest ← collectPositionIds keys poolId;
      Ok (if (keyPoolId =? poolId) || (poolId =? 0) then positionId :: rest else rest)
    | _ => Err "invalid key format"
    end
  end.

(** [store] holds the keys in iteration order; the iterator yields those with the given prefix. *)
Definition GetAllPositionIdsForPoolId (store : list chars) (prefix : chars) (poolId : Z)
    : outcome (list Z) :=
  positionIds ← collectPositionIds (filter (λ k, prefix `prefix_of` k) store) poolId;
  Ok (merge_sort Z.le positionIds).

(** *** Tick keys *)

Lemma mod_split n (k : nat) :
  n mod 256 ^ Z.of_nat (S k) = (n / 256 ^ Z.of_nat k) mod 256 * 256 ^ Z.of_nat k + n mod 256 ^ Z.of_nat k.
Proof.
  rewrite Nat2Z.inj_succ, Z.pow_succ_r by lia. rewrite (Z.mul_comm 256), Z.rem_mul_r by lia. lia.
Qed.

Lemma big_endian_lt k n m :
  bytes_lt (big_endian k n) (big_endian k m) = (n mod 256 ^ Z.of_nat k <? m mod 256 ^ Z.of_nat k).
Proof.
  induction k as [|k IH]; [cbn; by rewrite !Z.mod_1_r|].
  cbn [big_endian bytes_lt]. rewrite IH, !mod_split.
  set (B := 256 ^ Z.of_nat k). assert (0 < B) by (apply Z.pow_pos_nonneg; lia).
  pose proof (Z.mod_pos_bound n B ltac:(done)). pose proof (Z.mod_pos_bound m B ltac:(done)).
  set (q := (n / B) mod 256). set (q' := (m / B) mod 256).
  destruct (Z.ltb_spec q q'), (Z.eqb_spec q q'); symmetry; rewrite ?Z.ltb_lt, ?Z.ltb_ge; try nia.
Qed.

Lemma fold_big_endian k n acc :
  fold_left (λ acc b, acc * 256 + b) (big_endian k n) acc
  = acc * 256 ^ Z.of_nat k + n mod 256 ^ Z.of_nat k.
Proof.
  revert acc. induction k as [|k IH]; intros acc; cbn [big_endian fold_left].
  - change (256 ^ Z.of_nat 0) with 1. rewrite Z.mod_1_r. lia.
  - rewrite IH, mod_split, Nat2Z.inj_succ, Z.pow_succ_r by lia. lia.
Qed.

Lemma length_big_endian k n : length (big_endian k n) = k.
Proof. induction k; [done|]. cbn [big_endian length]. by f_equal. Qed.

Definition int64 (n : Z) : Prop := - 2 ^ 63 ≤ n < 2 ^ 63.

Lemma to_uint64_eq n : int64 n → to_uint64 n = if n <? 0 then n + 2 ^ 64 else n.
Proof.
  unfold int64, to_uint64. intros H. destruct (Z.ltb_spec n 0).
  - rewrite <- (Z.mod_small (n + 2 ^ 64) (2 ^ 64)) by lia.
    replace (n + 2 ^ 64) with (n + 1 * 2 ^ 64) by lia. by rewrite Z_mod_plus_full.
  - apply Z.mod_small. lia.
Qed.

Lemma TickIndexToBytes_lt t u :
  int64 t → int64 u → bytes_lt (TickIndexToBytes t) (TickIndexToBytes u) = (t <? u).
Proof.
  intros Ht Hu. unfold TickIndexToBytes, Uint64ToBigEndian.
  assert (∀ a, int64 a → to_uint64 a mod 256 ^ Z.of_nat 8 = to_uint64 a) as Hm.
  { intros a Ha. change (256 ^ Z.of_nat 8) with (2 ^ 64). unfold to_uint64. by rewrite Z.mod_mod. }
  destruct (Z.ltb_spec t 0) as [Ht0|Ht0], (Z.ltb_spec u 0) as [Hu0|Hu0];
    cbn [app bytes_lt TickNegativePrefix TickPositivePrefix];
    change (5 <? 5) with false; change (5 =? 5) with true; change (6 <? 6) with false;
    change (6 =? 6) with true; change (5 <? 6) with true; change (6 <? 5) with false;
    change (6 =? 5) with false; cbv iota.
  - rewrite big_endian_lt, !Hm, !to_uint64_eq by done.
    rewrite (proj2 (Z.ltb_lt t 0)), (proj2 (Z.ltb_lt u 0)) by done.
    destruct (Z.ltb_spec t u); [apply Z.ltb_lt|apply Z.ltb_ge]; lia.
  - symmetry. apply Z.ltb_lt. lia.
  - symmetry. apply Z.ltb_ge. lia.
  - rewrite big_endian_lt, !Hm, !to_uint64_eq by done.
    by rewrite (proj2 (Z.ltb_ge t 0)), (proj2 (Z.ltb_ge u 0)) by done.
Qed.

Lemma TickIndex_roundtrip t : int64 t → TickIndexFromBytes (TickIndexToBytes t) = Ok t.
Proof.
  intros Ht. assert (to_int64 (BigEndianToUint64 (Uint64ToBigEndian (to_uint64 t))) = t) as Hr.
  { unfold BigEndianToUint64, Uint64ToBigEndian. rewrite fold_big_endian.
    change (256 ^ Z.of_nat 8) with (2 ^ 64). unfold to_uint64. rewrite Z.mod_mod by done.
    fold (to_uint64 t). rewrite to_uint64_eq by done. unfold to_int64, int64 in *.
    destruct (Z.ltb_spec t 0); [rewrite (proj2 (Z.ltb_ge _ _))|rewrite (proj2 (Z.ltb_lt _ _))]; lia. }
  unfold TickIndexToBytes. destruct (Z.ltb_spec t 0); cbn [app TickNegativePrefix TickPositivePrefix];
    unfold TickIndexFromBytes; rewrite bool_decide_true by apply length_big_endian; rewrite Hr; cbn.
  - by rewrite (proj2 (Z.leb_gt 0 t)).
  - by rewrite (proj2 (Z.ltb_ge t 0)).
Qed.

Lemma bytes_lt_app p a b : bytes_lt (p ++ a) (p ++ b) = bytes_lt a b.
Proof. induction p as [|x p IH]; [done|]. cbn [app bytes_lt]. by rewrite Z.ltb_irrefl, Z.eqb_refl. Qed.

(** The tick keys of one pool are iterated in the numeric order of the ticks, negative ticks
    included, and the tick is read back from its key. *)
Theorem tick_keys_in_order (poolId t u : Z) :
  int64 t → int64 u →
  bytes_lt (KeyTick poolId t) (KeyTick poolId u) = (t <? u) ∧
  TickIndexFromBytes (drop 9 (KeyTick poolId t)) = Ok t.
Proof.
  intros Ht Hu. unfold KeyTick. split; [rewrite bytes_lt_app; by apply TickIndexToBytes_lt|].
  rewrite drop_app_length' by done. by apply TickIndex_roundtrip.
Qed.

Lemma tick_keys_in_order_witness :
  bytes_lt (KeyTick 7 (-1)) (KeyTick 7 0) = true ∧ TickIndexFromBytes (drop 9 (KeyTick 7 (-1))) = Ok (-1).
Proof. apply (tick_keys_in_order 7 (-1) 0); zconst. Defined.

(** *** Position keys *)

Definition no_sep (s : chars) : Prop := Forall (λ c, c ≠ sep) s.

Lemma hex_val_digit d : 0 ≤ d < 10 → hex_val (digit d) = Some d.
Proof.
  intros H. assert (d = 0 ∨ d = 1 ∨ d = 2 ∨ d = 3 ∨ d = 4 ∨ d = 5 ∨ d = 6 ∨ d = 7 ∨ d = 8 ∨ d = 9)
    as Hd by lia.
  by repeat destruct Hd as [-> | Hd]; [vm_compute..|subst; vm_compute].
Qed.

Lemma MarshalText_no_sep n : 0 ≤ n → no_sep (MarshalText n).
Proof.
  intros Hn. destruct (BigDecText.MarshalText_digits n Hn) as (_ & Hd & _).
  eapply Forall_impl; [done|]. intros c (d & Hb & ->) E.
  pose proof (hex_val_digit d Hb) as Hv. rewrite E in Hv. vm_compute in Hv. discriminate.
Qed.

Lemma parse_base_app base acc a b :
  parse_base base acc (a ++ b) = parse_base base acc a ≫= λ x, parse_base base x b.
Proof.
  revert acc. induction a as [|c a IH]; intros acc; cbn [app parse_base]; [done|].
  destruct (hex_val c) as [d|]; [|done]. by destruct (d <? base).
Qed.

Lemma parse_base_digit base acc d :
  0 ≤ d < 10 → 10 ≤ base → parse_base base acc [digit d] = Some (acc * base + d).
Proof.
  intros Hd Hb. cbn [parse_base]. rewrite hex_val_digit by done. by rewrite (proj2 (Z.ltb_lt _ _)) by lia.
Qed.

(** A decimal text read in base 16 gives a larger number as soon as it has two digits. *)
Lemma parse16_digits fuel n :
  0 ≤ n < 10 ^ (Z.of_nat fuel + 1) →
  ∃ h, parse_base 16 0 (digits fuel n) = Some h ∧ n ≤ h ∧ (10 ≤ n → n < h) ∧ (n < 10 → h = n).
Proof.
  revert n. induction fuel as [|f IH]; intros n Hn; cbn [digits].
  - change (10 ^ (Z.of_nat 0 + 1)) with 10 in Hn. exists n. rewrite parse_base_digit by lia.
    split; [f_equal; lia|lia].
  - destruct (Z.ltb_spec n 10) as [Hlt|Hge].
    + exists n. rewrite parse_base_digit by lia. split; [f_equal; lia|lia].
    + destruct (IH (n / 10)) as (h & Hh & Hle & _); [by apply div10_bound|].
      exists (h * 16 + n mod 10). rewrite parse_base_app, Hh. cbn [mbind option_bind].
      rewrite parse_base_digit by (try apply Z.mod_pos_bound; lia).
      pose proof (Z.div_mod n 10 ltac:(lia)). pose proof (Z.mod_pos_bound n 10 ltac:(lia)).
      assert (1 ≤ n / 10) by (apply Z.div_le_lower_bound; lia). split; [done|lia].
Qed.

Lemma ParseUint16_decimal p n :
  0 ≤ p → ParseUint (MarshalText p) 16 = Ok n → p ≤ n ∧ (10 ≤ p → p < n).
Proof.
  intros Hp. unfold ParseUint, MarshalText. rewrite (proj2 (Z.ltb_ge p 0)) by done.
  pose proof (text_fuel p) as Hf. rewrite Z.abs_eq in * by done.
  destruct (parse16_digits _ _ Hf) as (h & Hh & Hle & Hlt & _).
  destruct (digits _ _) eqn:E; [done|]. rewrite Hh.
  destruct (h <? 2 ^ 64); [|done]. intros [= <-]. done.
Qed.

(** A key as [SetPosition] writes it. *)
Definition position_key (k : chars) : Prop :=
  ∃ addr p id, no_sep addr ∧ 0 ≤ p ∧ 0 ≤ id ∧ k = KeyAddressPoolIdPositionId addr p id.

Lemma PositionPrefix_no_sep : no_sep PositionPrefix.
Proof. constructor; [|done]. vm_compute. discriminate. Qed.

Lemma Split_position_key addr p id :
  no_sep addr → 0 ≤ p → 0 ≤ id →
  Split sep (KeyAddressPoolIdPositionId addr p id)
  = [PositionPrefix; addr; MarshalText p; MarshalText id].
Proof.
  intros Ha Hp Hid. unfold KeyAddressPoolIdPositionId.
  rewrite Split_sep by apply PositionPrefix_no_sep. rewrite Split_sep by done.
  rewrite Split_sep by (by apply MarshalText_no_sep).
  by rewrite Split_no_sep by (by apply MarshalText_no_sep).
Qed.

(** The keys under the prefix of a pool carry the decimal text of that pool's id. *)
Lemma prefixed_key addr p k :
  no_sep addr → 0 ≤ p → position_key k → KeyAddressAndPoolId addr p `prefix_of` k →
  ∃ id, Split sep k = [PositionPrefix; addr; MarshalText p; id].
Proof.
  intros Ha Hp (a & p' & id & Ha' & Hp' & Hid & Hk) [rest Hpre].
  pose proof (Split_position_key a p' id Ha' Hp' Hid) as Hs. rewrite <- Hk in Hs.
  exists (MarshalText id). rewrite Hs. rewrite Hpre in Hs. unfold KeyAddressAndPoolId in Hs.
  rewrite <- app_assoc in Hs. cbn [app] in Hs. rewrite <- app_assoc in Hs. cbn [app] in Hs.
  rewrite <- app_assoc in Hs. cbn [app] in Hs.
  change (ascii_of_nat 2 :: sep :: addr ++ sep :: MarshalText p ++ sep :: rest)
    with (PositionPrefix ++ sep :: addr ++ sep :: MarshalText p ++ sep :: rest) in Hs.
  rewrite Split_sep in Hs by apply PositionPrefix_no_sep. rewrite Split_sep in Hs by done.
  rewrite Split_sep in Hs by (by apply MarshalText_no_sep).
  injection Hs as Ea Ep _. by rewrite <- Ea, <- Ep.
Qed.

(** [GetAllPositionIdsForPoolId], and with it [GetUserPositions] for one pool, finds no position
    of a pool whose id has two digits or more: the id is written in decimal and read back in
    hexadecimal, so it never equals the id asked for. *)
Theorem position_ids_hex_mismatch (store : list chars) (addr : chars) (p : Z) (ids : list Z) :
  Forall position_key store → no_sep addr → 10 ≤ p →
  GetAllPositionIdsForPoolId store (KeyAddressAndPoolId addr p) p = Ok ids → ids = [].
Proof.
  intros Hs Ha Hp H. unfold GetAllPositionIdsForPoolId in H. apply bind_Ok in H as (l & Hl & H).
  injection H as <-. assert (l = []) as ->; [|done].
  assert (Forall (λ k, ∃ id, Split sep k = [PositionPrefix; addr; MarshalText p; id])
    (filter (λ k, KeyAddressAndPoolId addr p `prefix_of` k) store)) as Hf.
  { apply Forall_forall. intros k [Hk Hin]%list_elem_of_filter.
    apply prefixed_key; [done|lia| |done]. by eapply Forall_forall in Hs. }
  clear Hs. revert l Hl. induction Hf as [|k ks (id & Hk) Hf IH]; intros l Hl; cbn [collectPositionIds] in Hl.
  { by injection Hl. }
  rewrite Hk in Hl. apply bind_Ok in Hl as (n & Hn & Hl). apply bind_Ok in Hl as (i & Hi & Hl).
  apply bind_Ok in Hl as (r & Hr & Hl). injection Hl as <-.
  apply ParseUint16_decimal in Hn as [_ Hn]; [|lia]. specialize (Hn Hp).
  rewrite (proj2 (Z.eqb_neq n p)), (proj2 (Z.eqb_neq p 0)) by lia. cbn. by apply IH.
Qed.

Lemma position_ids_hex_mismatch_witness :
  GetAllPositionIdsForPoolId [KeyAddressPoolIdPositionId ["a"%char] 10 5]
    (KeyAddressAndPoolId ["a"%char] 10) 10 = Ok [] ∧
  GetAllPositionIdsForPoolId [KeyAddressPoolIdPositionId ["a"%char] 9 5]
    (KeyAddressAndPoolId ["a"%char] 9) 9 = Ok [5].
Proof.
  assert (no_sep ["a"%char]) as Ha by (constructor; [discriminate|constructor]).
  assert (Forall position_key [KeyAddressPoolIdPositionId ["a"%char] 10 5]) as Hs.
  { constructor; [|constructor]. exists ["a"%char], 10, 5.
    split; [exact Ha|]. split; [zconst|]. split; [zconst|reflexivity]. }
  assert (10 ≤ 10) as Hp by zconst.
  assert (∃ ids, GetAllPositionIdsForPoolId [KeyAddressPoolIdPositionId ["a"%char] 10 5]
    (KeyAddressAndPoolId ["a"%char] 10) 10 = Ok ids) as [ids Hids] by (eexists; vm_compute; reflexivity).
  split; [|vm_compute; reflexivity].
  rewrite Hids. f_equal. exact (position_ids_hex_mismatch _ _ _ _ Hs Ha Hp Hids).
Defined.
End CLKeys.
