(* ===== verification/KV.v ===== *)
(** Key-value stores with ordered keys: cosmossdk.io/store as the repository uses it, and the helpers of
    osmoutils/store_helper.go and osmoutils/encoding_helper.go.

    A key is a text, compared byte by byte as the store compares keys.  Values are the Go values that are
    marshalled into the store.  An iterator is the list of the entries it yields; none of the loops over
    one writes an entry that the loop still has to reach. *)
From stdpp Require Import prelude strings list gmap sorting.
From Stdlib Require Import Ascii.
From S2P Require Import Prelude.
From S2P Require Import GoBig.
From S2P Require Import DecimalText.
Local Open Scope Z_scope.
Import BigText.

Module KV.
Definition text (s : string) : chars := String.list_ascii_of_string s.
Definition byte (c : ascii) : Z := Z.of_nat (nat_of_ascii c).

(** Lexicographic order of byte strings. *)
Fixpoint key_lt (a b : chars) : bool :=
  match a, b with
  | _, [] => false
  | [], _ :: _ => true
  | x :: a, y :: b => if byte x <? byte y then true else if byte x =? byte y then key_lt a b else false
  end.
Definition in_range (keyStart keyEnd k : chars) : bool := negb (key_lt k keyStart) && key_lt k keyEnd.

Section store.
  Context {V : Type}.
Definition entry : Type := chars * V.
Definition entry_le (x y : entry) : Prop := key_lt y.1 x.1 = false.
#[global] Instance entry_le_dec : RelDecision entry_le.
Proof. intros x y. unfold entry_le. apply _. Defined.

Definition select (P : chars → bool) (m : gmap chars V) : list entry :=
  merge_sort entry_le (filter (λ x : entry, P x.1 = true) (map_to_list m)).
(** [store.Iterator(keyStart, keyEnd)], [store.ReverseIterator(keyStart, keyEnd)] and
    [KVStorePrefixIterator(store, prefix)]. *)
Definition Iterator (m : gmap chars V) (keyStart keyEnd : chars) : list entry :=
  select (in_range keyStart keyEnd) m.
Definition ReverseIterator (m : gmap chars V) (keyStart keyEnd : chars) : list entry :=
  reverse (Iterator m keyStart keyEnd).
Definition KVStorePrefixIterator (m : gmap chars V) (prefix : chars) : list entry :=
  select (λ k, bool_decide (prefix `prefix_of` k)) m.

(** *** store_helper.go *)

Definition makeIterator (m : gmap chars V) (keyStart keyEnd : chars) (reverse : bool) : list entry :=
  if reverse then ReverseIterator m keyStart keyEnd else Iterator m keyStart keyEnd.

Fixpoint gatherValuesFromIteratorWithKeyParser {T : Type} (iterator : list entry)
    (parse : chars → V → outcome T) (stopFn : chars → bool) : outcome (list T) :=
  match iterator with
  | [] => Ok []
  | (k, v) :: iterator =>
    if stopFn k then Ok [] else
    val ← parse k v;
    values ← gatherValuesFromIteratorWithKeyParser iterator parse stopFn;
    Ok (val :: values)
  end.
Definition noStopFn (_ : chars) : bool := false.
Definition gatherValuesFromIterator {T : Type} (iterator : list entry) (parseValue : V → outcome T)
    (stopFn : chars → bool) : outcome (list T) :=
  gatherValuesFromIteratorWithKeyParser iterator (λ _ v, parseValue v) stopFn.
Definition GatherValuesFromStore {T : Type} (m : gmap chars V) (keyStart keyEnd : chars)
    (parseValue : V → outcome T) : outcome (list T) :=
  gatherValuesFromIterator (Iterator m keyStart keyEnd) parseValue noStopFn.
Definition GatherValuesFromStorePrefixWithKeyParser {T : Type} (m : gmap chars V) (prefix : chars)
    (parse : chars → V → outcome T) : outcome (list T) :=
  gatherValuesFromIteratorWithKeyParser (KVStorePrefixIterator m prefix) parse noStopFn.
Definition GatherValuesFromStorePrefix {T : Type} (m : gmap chars V) (prefix : chars)
    (parseValue : V → outcome T) : outcome (list T) :=
  GatherValuesFromStorePrefixWithKeyParser m prefix (λ _ v, parseValue v).
Definition GetFirstValueInRange {T : Type} (m : gmap chars V) (keyStart keyEnd : chars)
    (reverseIterate : bool) (parseValue : V → outcome T) : outcome T :=
  match makeIterator m keyStart keyEnd reverseIterate with
  | [] => Err "No values in range"
  | (_, v) :: _ => parseValue v
  end.
End store.

(** *** encoding_helper.go *)

(** The [w] low decimal digits of a number. *)
Fixpoint fixed_digits (w : nat) (n : Z) : chars :=
  match w with
  | O => []
  | S w => digit (n / 10 ^ Z.of_nat w mod 10) :: fixed_digits w n
  end.
(** [%0.<w>d]: at least [w] digits. *)
Definition zero_padded (w : nat) (n : Z) : chars :=
  if n <? 10 ^ Z.of_nat w then fixed_digits w n else MarshalText n.
Definition FormatFixedLengthU64 (d : Z) : chars := zero_padded 20 d.

(** *** The order of keys *)

Lemma byte_inj x y : byte x = byte y → x = y.
Proof.
  intros H%Nat2Z.inj. rewrite <- (ascii_nat_embedding x), <- (ascii_nat_embedding y). by rewrite H.
Qed.

Lemma key_lt_irrefl a : key_lt a a = false.
Proof. induction a as [|x a IH]; cbn; [done|]. by rewrite Z.ltb_irrefl, Z.eqb_refl. Qed.

Lemma key_lt_cons x y a b :
  key_lt (x :: a) (y :: b) = true ↔ byte x < byte y ∨ x = y ∧ key_lt a b = true.
Proof.
  cbn. destruct (Z.ltb_spec (byte x) (byte y)); [split; [by left|done]|].
  destruct (Z.eqb_spec (byte x) (byte y)) as [E|E].
  - apply byte_inj in E as ->. split; [by right|intros [?|[_ ?]]; [lia|done]].
  - split; [done|]. intros [?|[-> _]]; [lia|done].
Qed.

Lemma key_lt_trans a b c : key_lt a b = true → key_lt b c = true → key_lt a c = true.
Proof.
  revert b c. induction a as [|x a IH]; intros [|y b] [|z c]; try done.
  rewrite !key_lt_cons. intros [H|[-> H]] [H'|[<- H']]; [left; lia|by left..|right; eauto].
Qed.

Lemma key_lt_total a b : key_lt a b = true ∨ a = b ∨ key_lt b a = true.
Proof.
  revert b. induction a as [|x a IH]; intros [|y b]; [by auto|by left|by auto|].
  rewrite !key_lt_cons.
  destruct (Z.lt_total (byte x) (byte y)) as [?|[E%byte_inj|?]]; [by auto| |by auto].
  subst y. destruct (IH b) as [?|[->|?]]; auto.
Qed.

Lemma key_lt_asym a b : key_lt a b = true → key_lt b a = false.
Proof.
  intros H. destruct (key_lt b a) eqn:E; [|done].
  pose proof (key_lt_trans _ _ _ H E) as H'. by rewrite key_lt_irrefl in H'.
Qed.

Lemma key_lt_false a b : key_lt a b = false ↔ a = b ∨ key_lt b a = true.
Proof.
  split.
  - intros H. destruct (key_lt_total a b) as [?|[?|?]]; [congruence|by left|by right].
  - intros [->|H]; [apply key_lt_irrefl|by apply key_lt_asym].
Qed.

Lemma key_lt_app p a b : key_lt (p ++ a) (p ++ b) = key_lt a b.
Proof. induction p as [|x p IH]; cbn; [done|]. by rewrite Z.ltb_irrefl, Z.eqb_refl. Qed.

(** Texts of one length are compared field by field. *)
Lemma key_lt_fields a b x y :
  length a = length b → key_lt (a ++ x) (b ++ y) = true ↔ key_lt a b = true ∨ a = b ∧ key_lt x y = true.
Proof.
  revert b. induction a as [|c a IH]; intros [|d b] Hl; try done.
  - cbn. split; [by right|by intros [?|[_ ?]]].
  - cbn [app]. rewrite !key_lt_cons, IH by (by injection Hl). split.
    + intros [?|[-> [?|[-> ?]]]]; auto.
    + intros [[?|[-> ?]]|[[= -> ->] ?]]; auto.
Qed.

(** The entries between a prefix and an extension of it are those with the prefix. *)
Lemma in_range_prefix p s k :
  in_range p (p ++ s) k = true ↔ ∃ x, k = p ++ x ∧ key_lt x s = true.
Proof.
  unfold in_range. rewrite andb_true_iff, negb_true_iff. split.
  - revert k. induction p as [|c p IH]; intros k [H1 H2]; [by exists k|].
    destruct k as [|d k]; [done|]. cbn [app] in H2.
    apply key_lt_false in H1. apply key_lt_cons in H2 as [H2|[-> H2]].
    + destruct H1 as [[= -> ->]|H1]; [lia|]. apply key_lt_cons in H1 as [?|[-> _]]; lia.
    + destruct (IH k) as (x & -> & Hx); [|by exists x]. split; [|done].
      apply key_lt_false. destruct H1 as [[= ->]|H1]; [by left|].
      apply key_lt_cons in H1 as [?|[_ ?]]; [lia|by right].
  - intros (x & -> & Hx). rewrite key_lt_app. split; [|done].
    rewrite <- (app_nil_r p) at 2. rewrite key_lt_app. by destruct x.
Qed.

(** *** Digits *)

Lemma byte_digit d : 0 ≤ d < 10 → byte (digit d) = 48 + d.
Proof.
  intros H. assert (d = 0 ∨ d = 1 ∨ d = 2 ∨ d = 3 ∨ d = 4 ∨ d = 5 ∨ d = 6 ∨ d = 7 ∨ d = 8 ∨ d = 9)
    as Hd by lia.
  by repeat destruct Hd as [-> | Hd]; [vm_compute..|subst; vm_compute].
Qed.

Lemma length_fixed_digits w n : length (fixed_digits w n) = w.
Proof. induction w; cbn; congruence. Qed.

Lemma fixed_digits_lt w n m :
  n mod 10 ^ Z.of_nat w < m mod 10 ^ Z.of_nat w → key_lt (fixed_digits w n) (fixed_digits w m) = true.
Proof.
  induction w as [|w IH]; [rewrite !Z.mod_1_r; lia|]. cbn [fixed_digits].
  rewrite Nat2Z.inj_succ, Z.pow_succ_r, (Z.mul_comm 10), !Z.rem_mul_r, key_lt_cons by lia.
  pose proof (Z.mod_pos_bound (n / 10 ^ Z.of_nat w) 10 ltac:(lia)) as Hn.
  pose proof (Z.mod_pos_bound (m / 10 ^ Z.of_nat w) 10 ltac:(lia)) as Hm.
  pose proof (Z.mod_pos_bound n (10 ^ Z.of_nat w) ltac:(lia)) as Hn'.
  pose proof (Z.mod_pos_bound m (10 ^ Z.of_nat w) ltac:(lia)) as Hm'.
  rewrite !byte_digit by done. intros H.
  destruct (Z.lt_total (n / 10 ^ Z.of_nat w mod 10) (m / 10 ^ Z.of_nat w mod 10)) as [?|[E|?]].
  - left. lia.
  - right. rewrite E in *. split; [done|]. apply IH. lia.
  - exfalso. nia.
Qed.

Lemma length_zero_padded w n : n < 10 ^ Z.of_nat w → length (zero_padded w n) = w.
Proof.
  intros H. unfold zero_padded. destruct (Z.ltb_spec n (10 ^ Z.of_nat w)); [|lia].
  apply length_fixed_digits.
Qed.

(** A field of fixed width is compared as a number. *)
Lemma zero_padded_lt w n m x y :
  0 ≤ n < 10 ^ Z.of_nat w → 0 ≤ m < 10 ^ Z.of_nat w → n < m ∨ n = m ∧ key_lt x y = true →
  key_lt (zero_padded w n ++ x) (zero_padded w m ++ y) = true.
Proof.
  intros Hn Hm H. rewrite key_lt_fields by (rewrite !length_zero_padded; lia).
  destruct H as [H|[-> H]]; [|by right]. left. unfold zero_padded.
  destruct (Z.ltb_spec n (10 ^ Z.of_nat w)), (Z.ltb_spec m (10 ^ Z.of_nat w)); try lia.
  apply fixed_digits_lt. by rewrite !Z.mod_small by lia.
Qed.

Lemma field_lt c w n m x y :
  0 ≤ n < 10 ^ Z.of_nat w → 0 ≤ m < 10 ^ Z.of_nat w → n < m ∨ n = m ∧ key_lt x y = true →
  key_lt (zero_padded w n ++ c :: x) (zero_padded w m ++ c :: y) = true.
Proof.
  intros Hn Hm H. apply zero_padded_lt; [done..|]. rewrite key_lt_cons.
  destruct H as [H|[-> H]]; [by left|right; split; [done|by right]].
Qed.

(** *** What the iterators yield *)

Section iterators.
  Context {V : Type}.
  Implicit Types (m : gmap chars V) (P : chars → bool).

#[export] Instance entry_le_total : Total (@entry_le V).
Proof.
  intros x y. unfold entry_le. destruct (key_lt y.1 x.1) eqn:E; [right; by apply key_lt_asym|by left].
Qed.

#[export] Instance entry_le_trans : Transitive (@entry_le V).
Proof.
  intros x y z. unfold entry_le. rewrite !key_lt_false. intros [E|H] [E'|H'].
  - left. congruence.
  - right. by rewrite E in H'.
  - right. by rewrite E'.
  - right. by eapply key_lt_trans.
Qed.

Lemma elem_of_select P m k v : (k, v) ∈ select P m ↔ P k = true ∧ m !! k = Some v.
Proof.
  unfold select. rewrite merge_sort_Permutation, list_elem_of_filter, elem_of_map_to_list. done.
Qed.

Lemma select_sorted P m : StronglySorted entry_le (select P m).
Proof. apply Sorted_StronglySorted, Sorted_merge_sort; apply _. Qed.

Lemma select_NoDup P m : NoDup (select P m).*1.
Proof.
  unfold select. rewrite merge_sort_Permutation.
  eapply sublist_NoDup; [apply (NoDup_fst_map_to_list m)|].
  apply fmap_sublist, sublist_filter.
Qed.

(** The last entry in a range, and the entries before it. *)
Lemma reverse_select_nil P m : reverse (select P m) = [] → ∀ k v, m !! k = Some v → P k = false.
Proof.
  intros H k v Hk. destruct (P k) eqn:E; [|done].
  assert ((k, v) ∈ reverse (select P m)) as Hin by (by rewrite elem_of_reverse, elem_of_select).
  rewrite H in Hin. by apply elem_of_nil in Hin.
Qed.

Lemma reverse_select_cons P m k v l :
  reverse (select P m) = (k, v) :: l →
  m !! k = Some v ∧ P k = true ∧
  (∀ k' v', m !! k' = Some v' → P k' = true → k' = k ∨ key_lt k' k = true) ∧
  (∀ k' v', (k', v') ∈ l ↔ m !! k' = Some v' ∧ P k' = true ∧ k' ≠ k).
Proof.
  intros H. assert (select P m = reverse l ++ [(k, v)]) as E.
  { rewrite <- (reverse_involutive (select P m)), H. by rewrite reverse_cons. }
  pose proof (select_sorted P m) as Hs. pose proof (select_NoDup P m) as Hn.
  assert (∀ k' v', m !! k' = Some v' ∧ P k' = true ↔ (k', v') ∈ l ∨ (k', v') = (k, v)) as Hin.
  { intros k' v'. rewrite (and_comm (m !! k' = _)), <- elem_of_select, E, elem_of_app,
      elem_of_reverse, list_elem_of_singleton. done. }
  rewrite E in Hs, Hn. destruct (proj2 (Hin k v) (or_intror eq_refl)) as [Hk Hp].
  rewrite fmap_app in Hn. apply NoDup_app in Hn as (_ & Hn & _).
  assert (∀ k' v', (k', v') ∈ l → k' ≠ k ∧ key_lt k' k = true) as Hl.
  { intros k' v' Hi. assert (k' ≠ k) as Hne.
    { intros ->. apply (Hn k); [|by left]. apply list_elem_of_fmap. exists (k, v').
      by rewrite elem_of_reverse. }
    split; [done|].
    apply (StronglySorted_app_1_elem_of _ _ _ (k', v') (k, v)) in Hs;
      [|by rewrite elem_of_reverse|by left].
    unfold entry_le in Hs. apply key_lt_false in Hs as [Hs|?]; [by destruct Hne|done]. }
  split; [done|]. split; [done|]. split.
  - intros k' v' H1 H2. destruct (proj1 (Hin k' v') (conj H1 H2)) as [Hi|[= -> ->]]; [|by left].
    right. by eapply Hl.
  - intros k' v'. split.
    + intros Hi. destruct (proj2 (Hin k' v') (or_introl Hi)). split; [done|]. split; [done|]. by eapply Hl.
    + intros (H1 & H2 & H3). by destruct (proj1 (Hin k' v') (conj H1 H2)) as [?|[= -> ->]].
Qed.
End iterators.
(** *** Texts in keys *)

(** Coin denoms do not contain the separator of keys. *)
Definition no_bar (l : chars) : Prop := Forall (λ c, c ≠ "|"%char) l.
Definition valid_denom (d : string) : Prop := no_bar (text d).

Lemma text_inj d e : text d = text e → d = e.
Proof.
  intros H. rewrite <- (String.string_of_list_ascii_of_string d).
  rewrite <- (String.string_of_list_ascii_of_string e). by unfold text in H; rewrite H.
Qed.

Lemma bar_split a b x y :
  no_bar a → no_bar b → a ++ "|"%char :: x = b ++ "|"%char :: y → a = b ∧ x = y.
Proof.
  intros Ha. revert b. induction Ha as [|c a Hc Ha IH]; intros b Hb; destruct Hb as [|d b Hd Hb]; cbn.
  - by intros [= ->].
  - intros [= E _]. by destruct Hd.
  - intros [= E _]. by destruct Hc.
  - intros [= -> H]. by destruct (IH b Hb H) as [-> ->].
Qed.

End KV.
