(* ===== verification/GoTime.v ===== *)
(** Times: what the repository uses of Go's [time.Time], and [FormatTimeString] of
    osmoutils/encoding_helper.go.

    A time is the number of nanoseconds since Go's zero time, 1 January of the year 1, in UTC.  The layout
    of [FormatTimeString] is [sdk.SortableTimeFormat], "2006-01-02T15:04:05.000000000". *)
From stdpp Require Import prelude strings list.
From Stdlib Require Import Ascii.
From S2P Require Import Prelude.
From S2P Require Import DecimalText.
From S2P Require Import KV.
Local Open Scope Z_scope.
Import BigText.
Import KV.

Module GoTime.
Definition second : Z := 10 ^ 9.
Definition day : Z := 86400 * second.
(** Milliseconds from the zero time to 1 January 1970. *)
Definition unixToInternalMs : Z := 62135596800 * 1000.
(** [t.UnixMilli()]: the nanoseconds within a second are not negative, so the division rounds down. *)
Definition UnixMilli (t : Z) : Z := t / 10 ^ 6 - unixToInternalMs.

(** *** The calendar *)

Definition leap (year : Z) : bool :=
  (year mod 4 =? 0) && (negb (year mod 100 =? 0) || (year mod 400 =? 0)).
Definition year_length (year : Z) : Z := if leap year then 366 else 365.
Definition month_lengths (year : Z) : list Z :=
  [31; if leap year then 29 else 28; 31; 30; 31; 30; 31; 31; 30; 31; 30; 31].
Definition year_lengths : list Z := map (λ i, year_length (Z.of_nat i)) (seq 1 400).
(** The days of 400 years. *)
Definition cycle : Z := 146097.
(** Which of several consecutive periods a day is in, and which day of the period. *)
Fixpoint locate (lengths : list Z) (n : Z) : Z * Z :=
  match lengths with
  | [] => (0, n)
  | l :: lengths => if n <? l then (0, n)
                    else let '(i, r) := locate lengths (n - l) in (i + 1, r)
  end.
Definition year_day (d : Z) : Z * Z :=
  let '(i, r) := locate year_lengths (d mod cycle) in (d / cycle * 400 + i + 1, r).
Definition month_day (year yday : Z) : Z * Z :=
  let '(i, r) := locate (month_lengths year) yday in (i + 1, r + 1).
Definition Year (t : Z) : Z := (year_day (t / day)).1.

(** *** The layout *)

Definition clock (n : Z) : chars :=
  let s := n / second in
  zero_padded 2 (s / 3600) ++ ":"%char :: zero_padded 2 (s / 60 mod 60) ++ ":"%char ::
  zero_padded 2 (s mod 60) ++ "."%char :: zero_padded 9 (n mod second).
Definition calendar (d : Z) : chars :=
  let '(year, yday) := year_day d in
  let '(month, mday) := month_day year yday in
  zero_padded 4 year ++ "-"%char :: zero_padded 2 month ++ "-"%char :: zero_padded 2 mday.
Definition FormatTimeString (t : Z) : chars := calendar (t / day) ++ "T"%char :: clock (t mod day).

Example FormatTimeString_ex :
  FormatTimeString ((719162 + 19723 + 59) * day + 3723 * second + 7) = text "2024-02-29T01:02:03.000000007" ∧
  FormatTimeString 0 = text "0001-01-01T00:00:00.000000000".
Proof. vm_compute. done. Qed.

(** The years the layout prints with four digits. *)
Definition printable (t : Z) : Prop := 0 ≤ t ∧ Year t < 10000.

(** *** The order of times *)

Lemma locate_range lengths n i r :
  Forall (λ l, 0 < l ≤ 366) lengths → 0 ≤ n < foldr Z.add 0 lengths → locate lengths n = (i, r) →
  0 ≤ i < Z.of_nat (length lengths) ∧ 0 ≤ r < 366 ∧ ∃ l, lengths !! Z.to_nat i = Some l ∧ r < l.
Proof.
  intros Hf. revert n i r. induction Hf as [|l ls Hl Hf IH]; intros n i r; cbn [foldr locate length]; [lia|].
  intros Hn. destruct (Z.ltb_spec n l).
  - intros [= <- <-]. split_and!; try lia. by exists l.
  - destruct (locate ls (n - l)) as [j s] eqn:E. intros [= <- <-].
    destruct (IH (n - l) j s ltac:(lia) E) as (? & ? & ? & ?). split_and!; try lia.
    replace (Z.to_nat (j + 1)) with (S (Z.to_nat j)) by lia. eauto.
Qed.

Lemma locate_lt lengths n m i r j s :
  Forall (λ l, 0 < l ≤ 366) lengths →
  n < m → 0 ≤ n → m < foldr Z.add 0 lengths → locate lengths n = (i, r) → locate lengths m = (j, s) →
  i < j ∨ i = j ∧ r < s.
Proof.
  intros Hf. revert n m i r j s. induction Hf as [|l ls Hl Hf IH]; intros n m i r j s;
    cbn [foldr locate]; intros Hnm Hn Hm; [lia|].
  destruct (Z.ltb_spec n l), (Z.ltb_spec m l); try lia.
  - intros [= <- <-] [= <- <-]. lia.
  - destruct (locate ls (m - l)) as [j' s'] eqn:E. intros [= <- <-] [= <- <-].
    destruct (locate_range ls (m - l) j' s' Hf ltac:(lia) E). lia.
  - destruct (locate ls (n - l)) as [i' r'] eqn:E, (locate ls (m - l)) as [j' s'] eqn:E'.
    intros [= <- <-] [= <- <-]. destruct (IH (n - l) (m - l) i' r' j' s'); try done; lia.
Qed.

Lemma year_lengths_ok : Forall (λ l, 0 < l ≤ 366) year_lengths ∧ foldr Z.add 0 year_lengths = cycle.
Proof.
  split; [|by vm_compute]. apply Forall_forall. intros l (n & -> & _)%list_elem_of_fmap.
  unfold year_length. destruct (leap _); lia.
Qed.

Lemma month_lengths_ok y : Forall (λ l, 0 < l ≤ 366) (month_lengths y) ∧
  foldr Z.add 0 (month_lengths y) = year_length y.
Proof.
  unfold month_lengths, year_length. destruct (leap y); (split; [repeat constructor; lia|done]).
Qed.

Lemma locate_year d i r :
  locate year_lengths (d mod cycle) = (i, r) →
  0 ≤ i < 400 ∧ 0 ≤ r < 366 ∧ ∃ l, year_lengths !! Z.to_nat i = Some l ∧ r < l.
Proof.
  intros E. destruct year_lengths_ok as [Hf Hs].
  pose proof (Z.mod_pos_bound d cycle ltac:(done)) as Hd. rewrite <- Hs in Hd at 2.
  apply (locate_range _ _ _ _ Hf Hd E).
Qed.

Lemma year_day_lt d e y r z s :
  d < e → year_day d = (y, r) → year_day e = (z, s) → y < z ∨ y = z ∧ r < s.
Proof.
  unfold year_day. intros Hde.
  destruct (locate year_lengths (d mod cycle)) as [i r'] eqn:E1.
  destruct (locate year_lengths (e mod cycle)) as [j s'] eqn:E2.
  intros [= <- <-] [= <- <-]. destruct year_lengths_ok as [Hf Hs].
  assert (0 < cycle) as Hc by done.
  pose proof (Z.mod_pos_bound d _ Hc). pose proof (Z.mod_pos_bound e _ Hc).
  destruct (locate_year _ _ _ E1) as [Hi _], (locate_year _ _ _ E2) as [Hj _].
  pose proof (Z.div_le_mono d e _ Hc ltac:(lia)).
  destruct (Z.eq_dec (d / cycle) (e / cycle)) as [Hq|]; [|lia]. rewrite Hq.
  pose proof (Z.div_mod d cycle ltac:(done)) as Hd. rewrite Hq in Hd.
  pose proof (Z.div_mod e cycle ltac:(done)) as He.
  destruct (locate_lt year_lengths (d mod cycle) (e mod cycle) i r' j s' Hf); try lia; done.
Qed.

Lemma year_day_range d y r : 0 ≤ d → year_day d = (y, r) → 1 ≤ y ∧ 0 ≤ r < year_length y.
Proof.
  unfold year_day. intros Hd. destruct (locate year_lengths (d mod cycle)) as [i r'] eqn:E.
  intros [= <- <-]. assert (0 < cycle) as Hc by done.
  destruct (locate_year _ _ _ E) as (Hi & Hr & l & Hl & Hrl).
  pose proof (Z.div_pos d _ Hd Hc). split; [lia|].
  unfold year_lengths in Hl. rewrite list_lookup_fmap, lookup_seq_lt in Hl by lia.
  cbn in Hl.
  apply (inj Some) in Hl. rewrite <- Hl in Hrl. clear Hl.
  replace (Z.of_nat (S (Z.to_nat i))) with (i + 1) in Hrl by lia.
  replace (year_length (d / cycle * 400 + i + 1)) with (year_length (i + 1)); [lia|].
  unfold year_length, leap.
  replace (d / cycle * 400 + i + 1) with (i + 1 + d / cycle * 100 * 4) at 1 by lia.
  replace (d / cycle * 400 + i + 1) with (i + 1 + d / cycle * 4 * 100) at 1 by lia.
  replace (d / cycle * 400 + i + 1) with (i + 1 + d / cycle * 400) at 1 by lia.
  by rewrite !Z.mod_add by lia.
Qed.

Lemma month_day_range y yd m d :
  0 ≤ yd < year_length y → month_day y yd = (m, d) → 1 ≤ m ≤ 12 ∧ 1 ≤ d ≤ 31.
Proof.
  unfold month_day. intros H. destruct (locate (month_lengths y) yd) as [i r] eqn:E. intros [= <- <-].
  destruct (month_lengths_ok y) as [Hf Hs].
  rewrite <- Hs in H. destruct (locate_range _ _ _ _ Hf H E) as (Hi & Hr & l & Hl & ?).
  assert (l ≤ 31) as Hl31.
  { eapply (Forall_lookup_1 (λ l, l ≤ 31)); [|exact Hl]. unfold month_lengths.
    repeat constructor; destruct (leap y); lia. }
  change (Z.of_nat (length (month_lengths y))) with 12 in Hi. lia.
Qed.

Lemma month_day_lt y rd re md dd me de :
  rd < re → 0 ≤ rd → re < year_length y → month_day y rd = (md, dd) → month_day y re = (me, de) →
  md < me ∨ md = me ∧ dd < de.
Proof.
  unfold month_day. intros H Hd He. destruct (month_lengths_ok y) as [Hf Hs].
  destruct (locate (month_lengths y) rd) as [i r] eqn:E, (locate (month_lengths y) re) as [j s] eqn:E'.
  intros [= <- <-] [= <- <-].
  destruct (locate_lt (month_lengths y) rd re i r j s Hf); try done; lia.
Qed.

Lemma calendar_lt d e x y :
  0 ≤ d → (year_day d).1 < 10000 → (year_day e).1 < 10000 →
  d < e ∨ d = e ∧ key_lt x y = true → key_lt (calendar d ++ x) (calendar e ++ y) = true.
Proof.
  intros Hd Hyd Hye H. assert (0 ≤ e) as He by lia. unfold calendar.
  destruct (year_day d) as [yd rd] eqn:Ed, (year_day e) as [ye re] eqn:Ee. cbn [fst] in *.
  destruct (year_day_range d yd rd Hd Ed) as [Hy1 Hr1], (year_day_range e ye re He Ee) as [Hy2 Hr2].
  destruct (month_day yd rd) as [md dd] eqn:Em, (month_day ye re) as [me de] eqn:En.
  destruct (month_day_range _ _ _ _ Hr1 Em), (month_day_range _ _ _ _ Hr2 En).
  assert (yd < ye ∨ yd = ye ∧ (md < me ∨ md = me ∧ (dd < de ∨ dd = de ∧ key_lt x y = true))) as HH.
  { destruct H as [H|[-> H]].
    - destruct (year_day_lt _ _ _ _ _ _ H Ed Ee) as [?|[-> Hr]]; [by left|right; split; [done|]].
      destruct (month_day_lt ye rd re md dd me de Hr ltac:(lia) ltac:(lia) Em En) as [?|[-> ?]];
        [by left|right; split; [done|by left]].
    - rewrite Ed in Ee. injection Ee as -> ->. rewrite Em in En. injection En as -> ->.
      do 2 (right; split; [done|]). by right. }
  rewrite <- !app_assoc. cbn [app]. rewrite <- !app_assoc.
  apply field_lt; [change (10 ^ Z.of_nat 4) with 10000; lia..|].
  destruct HH as [?|[-> HH]]; [by left|right; split; [done|]].
  apply field_lt; [change (10 ^ Z.of_nat 2) with 100; lia..|].
  destruct HH as [?|[-> HH]]; [by left|right; split; [done|]].
  by apply zero_padded_lt; [change (10 ^ Z.of_nat 2) with 100; lia..|].
Qed.

Lemma clock_lt n m : 0 ≤ n < day → 0 ≤ m < day → n < m → key_lt (clock n) (clock m) = true.
Proof.
  intros Hn Hm H. unfold clock.
  assert (∀ k, 0 ≤ k < day → 0 ≤ k / second < 86400) as Hs.
  { intros k Hk. split; [apply Z.div_pos; [lia|done]|]. apply Z.div_lt_upper_bound; [done|]. unfold day in Hk. lia. }
  pose proof (Hs n Hn) as Hsn. pose proof (Hs m Hm) as Hsm.
  pose proof (Z.div_mod n second ltac:(done)) as En. pose proof (Z.div_mod m second ltac:(done)) as Em.
  pose proof (Z.mod_pos_bound n second ltac:(done)). pose proof (Z.mod_pos_bound m second ltac:(done)).
  assert (n / second < m / second ∨ n / second = m / second ∧ n mod second < m mod second) as HH by nia.
  revert HH. generalize (n / second) (m / second) Hsn Hsm. intros q r Hq Hr HH.
  assert (q / 3600 < r / 3600 ∨ q / 3600 = r / 3600 ∧ (q / 60 mod 60 < r / 60 mod 60 ∨
    q / 60 mod 60 = r / 60 mod 60 ∧ (q mod 60 < r mod 60 ∨ q mod 60 = r mod 60 ∧
    n mod second < m mod second))) as HL.
  { clear En Em. Z.to_euclidean_division_equations. lia. }
  assert (0 ≤ q / 3600 < 100 ∧ 0 ≤ r / 3600 < 100) as HR.
  { clear En Em HL HH. Z.to_euclidean_division_equations. lia. }
  pose proof (λ k, Z.mod_pos_bound k 60 ltac:(done)) as H60.
  pose proof (H60 (q / 60)). pose proof (H60 (r / 60)). pose proof (H60 q). pose proof (H60 r). clear H60.
  apply field_lt; [change (10 ^ Z.of_nat 2) with 100; lia..|].
  destruct HL as [?|[-> HL]]; [by left|right; split; [done|]].
  apply field_lt; [change (10 ^ Z.of_nat 2) with 100; lia..|].
  destruct HL as [?|[-> HL]]; [by left|right; split; [done|]].
  apply field_lt; [change (10 ^ Z.of_nat 2) with 100; lia..|].
  destruct HL as [?|[-> HL]]; [by left|right; split; [done|]].
  rewrite <- (app_nil_r (zero_padded 9 (n mod _))), <- (app_nil_r (zero_padded 9 (m mod _))).
  by apply zero_padded_lt; [change (10 ^ Z.of_nat 9) with second; lia..|left].
Qed.

Lemma printable_le s t : 0 ≤ s ≤ t → printable t → printable s.
Proof.
  intros Hs [Ht Hy]. split; [lia|]. unfold Year in *.
  destruct (Z.eq_dec (s / day) (t / day)) as [->|Hne]; [done|].
  pose proof (Z.div_le_mono s t day ltac:(done) ltac:(lia)).
  destruct (year_day (s / day)) as [y r] eqn:E, (year_day (t / day)) as [z u] eqn:E'. cbn [fst] in *.
  destruct (year_day_lt (s / day) (t / day) y r z u ltac:(lia) E E'); lia.
Qed.

Lemma FormatTimeString_lt_1 s t :
  printable s → printable t → s < t → key_lt (FormatTimeString s) (FormatTimeString t) = true.
Proof.
  intros [Hs Hys] [Ht Hyt] H. unfold FormatTimeString, Year in *.
  pose proof (Z.div_mod s day ltac:(done)). pose proof (Z.div_mod t day ltac:(done)).
  pose proof (Z.mod_pos_bound s day ltac:(done)). pose proof (Z.mod_pos_bound t day ltac:(done)).
  pose proof (Z.div_pos s day Hs ltac:(done)).
  apply calendar_lt; [done..|].
  assert (s / day < t / day ∨ s / day = t / day ∧ s mod day < t mod day) as [?|[E ?]] by nia; [by left|].
  right. split; [done|]. rewrite key_lt_cons. right. split; [done|]. by apply clock_lt.
Qed.

(** The texts of times are ordered as the times. *)
Lemma FormatTimeString_lt s t :
  printable s → printable t → key_lt (FormatTimeString s) (FormatTimeString t) = true ↔ s < t.
Proof.
  intros Hs Ht. split; [|by apply FormatTimeString_lt_1]. intros H.
  destruct (Z.lt_total s t) as [?|[->|?]]; [done| |].
  - by rewrite key_lt_irrefl in H.
  - apply key_lt_asym in H. by rewrite FormatTimeString_lt_1 in H.
Qed.

Lemma FormatTimeString_inj s t :
  printable s → printable t → FormatTimeString s = FormatTimeString t → s = t.
Proof.
  intros Hs Ht H. destruct (Z.lt_total s t) as [Hl|[?|Hl]]; [|done|];
    apply FormatTimeString_lt_1 in Hl; try done; by rewrite H, key_lt_irrefl in Hl.
Qed.

Lemma length_FormatTimeString t : printable t → length (FormatTimeString t) = 29%nat.
Proof.
  intros [Ht Hy]. unfold FormatTimeString, Year, calendar, clock in *.
  pose proof (Z.div_pos t day Ht ltac:(done)) as Hd.
  destruct (year_day (t / day)) as [y yd] eqn:E. cbn [fst] in Hy.
  destruct (year_day_range _ _ _ Hd E) as [Hy1 Hr].
  destruct (month_day y yd) as [m d] eqn:Em. destruct (month_day_range _ _ _ _ Hr Em).
  pose proof (Z.mod_pos_bound t day ltac:(done)) as Hm. generalize dependent (t mod day). intros n Hn.
  assert (0 ≤ n / second < 86400) as Hs.
  { split; [apply Z.div_pos; [lia|done]|]. apply Z.div_lt_upper_bound; [done|]. unfold day in Hn. lia. }
  pose proof (Z.mod_pos_bound n second ltac:(done)) as [_ Hns].
  generalize dependent (n / second). intros q Hq.
  assert (q / 3600 < 100) by (Z.to_euclidean_division_equations; lia).
  pose proof (Z.mod_pos_bound (q / 60) 60 ltac:(done)). pose proof (Z.mod_pos_bound q 60 ltac:(done)).
  repeat (rewrite length_app || cbn [length]).
  rewrite !length_zero_padded; [done|..]; try exact Hns; try exact Hy;
    change (10 ^ Z.of_nat 2) with 100; lia.
Qed.

(** A text followed by a dot comes after every text of a time up to it. *)
Lemma FormatTimeString_le_dot s t :
  printable s → printable t →
  key_lt (FormatTimeString s) (FormatTimeString t ++ text ".") = true ↔ s ≤ t.
Proof.
  intros Hs Ht. rewrite <- (app_nil_r (FormatTimeString s)) at 1.
  rewrite key_lt_fields by (by rewrite !length_FormatTimeString). rewrite FormatTimeString_lt by done.
  split.
  - intros [?|[E%FormatTimeString_inj _]]; [lia| |done..]. by subst.
  - intros H. destruct (Z.eq_dec s t) as [->|]; [by right|left; lia].
Qed.
End GoTime.
