(* ===== verification/SigFig.v ===== *)
(** Rounding to significant figures: osmomath/sigfig_round.go.

    [d] is rounded after it has been scaled by the least power of ten that brings it to a tenth or more. *)
From stdpp Require Import prelude strings list.
From S2P Require Import Prelude.
From S2P Require Import SdkDec.
Local Open Scope Z_scope.

Module SigFig.
Section sigfig.
  Context {D : sdk.LegacyDec}.

Definition pointOne : outcome Dec.t := sdk.QuoInt64 (Dec.NewDec 1) 10.

(** [for ; dTimesK.LT(pointOne); k += 1]: a positive number needs at most 18 rounds; a negative one grows
    until the library reports an overflow. *)
Fixpoint scale_up (fuel : nat) (pointOne dTimesK : Dec.t) (k : Z) : outcome (Dec.t * Z) :=
  match fuel with
  | O => Panic "out of fuel"
  | S fuel =>
    if sdk.LT dTimesK pointOne then
      dTimesK ← sdk.MulInt64 dTimesK 10;
      scale_up fuel pointOne dTimesK (k + 1)
    else Ok (dTimesK, k)
  end.

Definition SigFigRound (d : Dec.t) (tenToSigFig : SdkInt.t) : outcome Dec.t :=
  if sdk.IsZero d then Ok d else
  p ← pointOne;
  '(dTimesK, k) ← scale_up 400 p d 0;
  dkSigFig ← sdk.MulInt dTimesK tenToSigFig;
  rounded ← sdk.RoundInt dkSigFig;
  let numerator := sdk.ToLegacyDec rounded in
  tenToK ← sdk.Power (Dec.NewDec 10) k;
  t ← sdk.TruncateInt tenToK;
  denominator ← sdk.IntMul tenToSigFig t;
  sdk.QuoInt numerator denominator.
End sigfig.

Section laws.
  Context {D : sdk.LegacyDec} {L : sdk.LegacyDecLaws D}.

(** The scaling multiplies by the power of ten it counts, which brings the number to a tenth. *)
Lemma scale_up_spec fuel p d k d' k' :
  scale_up fuel p d k = Ok (d', k') →
  k ≤ k' ∧ Dec.i d' = Dec.i d * 10 ^ (k' - k) ∧ Dec.i p ≤ Dec.i d' ∧
  (k' = k ∨ k < k' ∧ Dec.i d' < 10 * Dec.i p).
Proof using L.
  revert d k. induction fuel as [|fuel IH]; intros d k; cbn [scale_up]; [done|].
  rewrite sdk.LT_spec. destruct (Z.ltb_spec (Dec.i d) (Dec.i p)).
  - intros (e & He%sdk.MulInt64_spec & Hr)%bind_Ok. destruct (IH _ _ Hr) as (Hk & Hd & Hp & Hc).
    rewrite He in Hd. replace (k' - k) with (Z.succ (k' - (k + 1))) by lia.
    rewrite Z.pow_succ_r by lia. split; [lia|]. split; [lia|]. split; [done|]. right. split; [lia|].
    destruct Hc as [->|[_ Hc]]; [|lia].
    rewrite Z.sub_diag, Z.pow_0_r in Hd. lia.
  - intros [= <- <-]. rewrite Z.sub_diag, Z.pow_0_r. lia.
Qed.

(** Rounds are counted by the distance to a tenth. *)
Lemma scale_up_fuel n fuel p d k :
  0 < Dec.i d → Dec.i p ≤ Dec.i d * 10 ^ Z.of_nat n → (n < fuel)%nat →
  (∀ x, 0 < Dec.i x < Dec.i p → ∃ y, sdk.MulInt64 x 10 = Ok y) →
  ∃ r, scale_up fuel p d k = Ok r.
Proof using L.
  intros Hd Hn Hf Hmul. revert fuel d k Hd Hn Hf. induction n as [|n IH]; intros fuel d k Hd Hn Hf;
    (destruct fuel as [|fuel]; [lia|]); cbn [scale_up]; rewrite sdk.LT_spec.
  - rewrite Z.pow_0_r in Hn. destruct (Z.ltb_spec (Dec.i d) (Dec.i p)); [lia|by eexists].
  - destruct (Z.ltb_spec (Dec.i d) (Dec.i p)); [|by eexists].
    destruct (Hmul d ltac:(lia)) as [y Hy]. rewrite Hy. cbn [mbind outcome_bind].
    pose proof (sdk.MulInt64_spec _ _ _ Hy) as E. apply IH; [lia| |lia].
    rewrite E, <- Z.mul_assoc, <- Z.pow_succ_r, <- Nat2Z.inj_succ by lia. done.
Qed.
End laws.
End SigFig.
