(* ===== verification/GoState.v ===== *)
(** State-passing computations and what they leave unchanged.

    A keeper method reads and writes the module's store and returns a value, an error or panics:
    [M S A].  A call that does not return normally leaves no store, because the transaction that made
    it is rolled back by its caller. *)
From stdpp Require Import prelude strings list.
From S2P Require Import Prelude.

Definition M (S A : Type) : Type := S → outcome (A * S).

#[export] Instance M_ret {S} : MRet (M S) := fun A a s => Ok (a, s).
#[export] Instance M_bind {S} : MBind (M S) := fun A B f m s =>
  match m s with
  | Ok (a, s') => f a s'
  | Err e => Err e
  | Panic p => Panic p
  end.

Section operations.
  Context {S : Type}.

(** A call that does not touch the store. *)
Definition lift {A} (m : outcome A) : M S A := fun s =>
  match m with Ok a => Ok (a, s) | Err e => Err e | Panic p => Panic p end.
Definition gets {A} (f : S → A) : M S A := fun s => Ok (f s, s).
Definition modify (f : S → S) : M S unit := fun s => Ok (tt, f s).
Definition throw {A} (e : string) : M S A := fun _ => Err e.
Definition panic {A} (p : string) : M S A := fun _ => Panic p.
(** [if !b { return e }] *)
Definition require (b : bool) (e : string) : M S unit := if b then mret tt else throw e.
(** [ctx.CacheContext()]: the writes are dropped, the result is kept. *)
Definition cached {A} (m : M S A) : M S A := fun s =>
  match m s with Ok (a, _) => Ok (a, s) | Err e => Err e | Panic p => Panic p end.
(** [_ = f()] for a call that writes nothing when it fails. *)
Definition ignore_error (m : M S unit) : M S unit := fun s =>
  match m s with Err _ => Ok (tt, s) | r => r end.
(** A defer that turns a panic into an error. *)
Definition recover {A} (e : string) (m : outcome A) : outcome A :=
  match m with Panic _ => Err e | _ => m end.
Definition recovering {A} (e : string) (m : M S A) : M S A := fun s => recover e (m s).

(** [for _, x := range l] *)
Fixpoint for_each {A} (l : list A) (f : A → M S unit) : M S unit :=
  match l with
  | [] => mret tt
  | x :: l => f x ≫= fun _ => for_each l f
  end.
Fixpoint map_each {A B} (l : list A) (f : A → M S B) : M S (list B) :=
  match l with
  | [] => mret []
  | x :: l => f x ≫= fun y => map_each l f ≫= fun ys => mret (y :: ys)
  end.
Fixpoint fold_each {A B} (l : list A) (acc : B) (f : B → A → M S B) : M S B :=
  match l with
  | [] => mret acc
  | x :: l => f acc x ≫= fun acc => fold_each l acc f
  end.

(** *** Inversion *)

Lemma st_bind_Ok {A B} (m : M S A) (f : A → M S B) s b s' :
  (m ≫= f) s = Ok (b, s') ↔ ∃ a s1, m s = Ok (a, s1) ∧ f a s1 = Ok (b, s').
Proof.
  unfold mbind, M_bind. split.
  - destruct (m s) as [[a s1]| |] eqn:E; [|done..]. intros H. by exists a, s1.
  - by intros (a & s1 & -> & H).
Qed.

Lemma st_ret_Ok {A} (a b : A) s s' : (mret a : M S A) s = Ok (b, s') ↔ a = b ∧ s = s'.
Proof. unfold mret, M_ret. split; [by intros [= -> ->]|by intros [-> ->]]. Qed.

Lemma st_lift_Ok {A} (m : outcome A) s a s' : lift m s = Ok (a, s') ↔ m = Ok a ∧ s = s'.
Proof. unfold lift. destruct m; split; intros; destruct_and?; by simplify_eq. Qed.

Lemma st_gets_Ok {A} (f : S → A) s a s' : gets f s = Ok (a, s') ↔ a = f s ∧ s = s'.
Proof. unfold gets. split; intros; destruct_and?; by simplify_eq. Qed.

Lemma st_modify_Ok (f : S → S) s u s' : modify f s = Ok (u, s') ↔ s' = f s.
Proof. unfold modify. destruct u. split; intros; by simplify_eq. Qed.

Lemma st_require_Ok b e s u s' : require b e s = Ok (u, s') ↔ b = true ∧ s = s'.
Proof.
  unfold require. destruct u, b; [rewrite st_ret_Ok; split; by intros [_ ->]|].
  split; [done|by intros []].
Qed.

Lemma st_cached_Ok {A} (m : M S A) s a s' :
  cached m s = Ok (a, s') ↔ s = s' ∧ ∃ s1, m s = Ok (a, s1).
Proof.
  unfold cached. destruct (m s) as [[b s1]| |]; split; try done.
  - intros [= -> ->]. split; [done|by exists s1].
  - by intros [-> (s2 & [= -> ->])].
  - by intros [_ (s2 & ?)].
  - by intros [_ (s2 & ?)].
Qed.

Lemma st_recovering_Ok {A} e (m : M S A) s a s' : recovering e m s = Ok (a, s') ↔ m s = Ok (a, s').
Proof. unfold recovering, recover. by destruct (m s) as [[]| |]. Qed.

Lemma st_throw_Ok {A} e s (a : A) s' : throw e s = Ok (a, s') ↔ False.
Proof. done. Qed.

Lemma st_panic_Ok {A} e s (a : A) s' : panic e s = Ok (a, s') ↔ False.
Proof. done. Qed.

Lemma st_ignore_error_Ok (m : M S unit) s u s' :
  ignore_error m s = Ok (u, s') → m s = Ok (tt, s') ∨ s' = s.
Proof.
  unfold ignore_error. destruct (m s) as [[[] s1]| |]; [intros [= _ ->]; by left| |done].
  intros [= _ ->]. by right.
Qed.

(** *** Frames: a relation between the store before and after *)

Definition keeps {A} (R : S → S → Prop) (m : M S A) : Prop :=
  ∀ s a s', m s = Ok (a, s') → R s s'.

Section frames.
  Context (R : S → S → Prop) `{!PreOrder R}.

Lemma keeps_bind {A B} (m : M S A) (f : A → M S B) :
  keeps R m → (∀ a, keeps R (f a)) → keeps R (m ≫= f).
Proof using Type*.
  intros Hm Hf s b s' (a & s1 & H1 & H2)%st_bind_Ok. transitivity s1; [by eapply Hm|by eapply Hf].
Qed.

Lemma keeps_ret {A} (a : A) : keeps R (mret a : M S A).
Proof using Type*. intros s b s' [_ <-]%st_ret_Ok. done. Qed.

Lemma keeps_lift {A} (m : outcome A) : keeps R (lift m).
Proof using Type*. intros s b s' [_ <-]%st_lift_Ok. done. Qed.

Lemma keeps_gets {A} (f : S → A) : keeps R (gets f).
Proof using Type*. intros s b s' [_ <-]%st_gets_Ok. done. Qed.

Lemma keeps_require b e : keeps R (require b e).
Proof using Type*. intros s u s' [_ <-]%st_require_Ok. done. Qed.

Lemma keeps_throw {A} e : keeps R (throw e : M S A).
Proof using Type*. by intros s u s'. Qed.

Lemma keeps_panic {A} e : keeps R (panic e : M S A).
Proof using Type*. by intros s u s'. Qed.

Lemma keeps_cached {A} (m : M S A) : keeps R (cached m).
Proof using Type*. intros s a s' [<- _]%st_cached_Ok. done. Qed.

Lemma keeps_modify (f : S → S) : (∀ s, R s (f s)) → keeps R (modify f).
Proof using Type*. intros H s u s' ->%st_modify_Ok. apply H. Qed.

Lemma keeps_for_each {A} (l : list A) (f : A → M S unit) :
  (∀ x, keeps R (f x)) → keeps R (for_each l f).
Proof using Type*.
  intros H. induction l; cbn [for_each]; [apply keeps_ret|]. apply keeps_bind; [apply H|done].
Qed.

Lemma keeps_map_each {A B} (l : list A) (f : A → M S B) :
  (∀ x, keeps R (f x)) → keeps R (map_each l f).
Proof using Type*.
  intros H. induction l; cbn [map_each]; [apply keeps_ret|]. apply keeps_bind; [apply H|].
  intros y. apply keeps_bind; [done|]. intros. apply keeps_ret.
Qed.

Lemma keeps_fold_each {A B} (l : list A) (acc : B) (f : B → A → M S B) :
  (∀ b x, keeps R (f b x)) → keeps R (fold_each l acc f).
Proof using Type*.
  intros H. revert acc. induction l; intros acc; cbn [fold_each]; [apply keeps_ret|].
  apply keeps_bind; [apply H|done].
Qed.
End frames.
End operations.
#[global] Typeclasses Opaque M.

(** A computation on one component of a larger state. *)
Definition zoom {S T A} (get : S → T) (put : T → S → S) (m : M T A) : M S A := fun s =>
  match m (get s) with
  | Ok (a, t) => Ok (a, put t s)
  | Err e => Err e
  | Panic p => Panic p
  end.

Lemma st_zoom_Ok {S T A} (get : S → T) (put : T → S → S) (m : M T A) s a s' :
  zoom get put m s = Ok (a, s') ↔ ∃ t, m (get s) = Ok (a, t) ∧ s' = put t s.
Proof.
  unfold zoom. destruct (m (get s)) as [[b t]| |]; split; try done.
  - intros [= -> <-]. by exists t.
  - by intros (t' & [= -> ->] & ->).
  - by intros (? & ? & ?).
  - by intros (? & ? & ?).
Qed.

(** [inv_st] takes a normal run of a state-passing computation apart, step by step. *)
Ltac inv_st_step :=
  match goal with
  | H : (_ ≫= _) _ = Ok (_, _) |- _ => apply st_bind_Ok in H as (? & ? & ? & ?)
  | H : mret _ _ = Ok (_, _) |- _ => apply st_ret_Ok in H as [? ?]; subst
  | H : lift _ _ = Ok (_, _) |- _ => apply st_lift_Ok in H as [? ?]; subst
  | H : gets _ _ = Ok (_, _) |- _ => apply st_gets_Ok in H as [? ?]; subst
  | H : modify _ _ = Ok (_, _) |- _ => apply st_modify_Ok in H; subst
  | H : require _ _ _ = Ok (_, _) |- _ => apply st_require_Ok in H as [? ?]; subst
  | H : throw _ _ = Ok (_, _) |- _ => discriminate H
  | H : panic _ _ = Ok (_, _) |- _ => discriminate H
  end.
Ltac inv_st := repeat inv_st_step.

(** One step with chosen names: [run H as x s Hx] splits off the first call of the run [H]; the variants
    are for calls that leave the store alone. *)
Tactic Notation "run" hyp(H) "as" simple_intropattern(x) simple_intropattern(s) simple_intropattern(Hx) :=
  apply st_bind_Ok in H as (x & s & Hx & H).
Tactic Notation "run_lift" hyp(H) "as" simple_intropattern(x) simple_intropattern(Hx) :=
  let Hl := fresh in apply st_bind_Ok in H as (x & ? & Hl & H); apply st_lift_Ok in Hl as [Hx <-].
Tactic Notation "run_gets" hyp(H) :=
  let Hl := fresh in apply st_bind_Ok in H as (? & ? & Hl & H); apply st_gets_Ok in Hl as [-> <-].
Tactic Notation "run_require" hyp(H) "as" simple_intropattern(Hx) :=
  let Hl := fresh in apply st_bind_Ok in H as (? & ? & Hl & H); apply st_require_Ok in Hl as [Hx <-].
Tactic Notation "run_ret" hyp(H) :=
  apply st_ret_Ok in H as [<- <-].

Create HintDb keeps discriminated.
#[export] Hint Resolve keeps_ret keeps_lift keeps_gets keeps_require keeps_throw keeps_panic
  keeps_cached : keeps.

(** [keeps_tac] decomposes a computation; the calls it makes are found in the [keeps] database. *)
Ltac keeps_step :=
  first
    [ solve [eauto with keeps typeclass_instances]
    | apply keeps_bind; [typeclasses eauto| |intros ?]
    | apply keeps_for_each; [typeclasses eauto|intros ?]
    | apply keeps_map_each; [typeclasses eauto|intros ?]
    | apply keeps_fold_each; [typeclasses eauto|intros ? ?]
    | match goal with
      | |- keeps _ (match ?x with _ => _ end) => destruct x
      | |- keeps _ (let _ := _ in _) => cbv zeta
      end ].
Ltac keeps_tac := repeat keeps_step.
