(* ===== verification/ZSums.v ===== *)
(** Sums of integers over lists and finite maps. *)
From stdpp Require Import prelude list fin_maps gmap.
From S2P Require Import Prelude.
Local Open Scope Z_scope.

Fixpoint sumZ {A} (f : A → Z) (l : list A) : Z :=
  match l with [] => 0 | x :: l => f x + sumZ f l end.

Section sums.
  Context {A : Type}.
  Implicit Types (f g : A → Z) (l : list A).

Lemma sumZ_app f l k : sumZ f (l ++ k) = sumZ f l + sumZ f k.
Proof. induction l; cbn [sumZ app]; lia. Qed.

Lemma sumZ_perm f l k : l ≡ₚ k → sumZ f l = sumZ f k.
Proof. induction 1; cbn [sumZ]; lia. Qed.

Lemma sumZ_ext f g l : (∀ x, x ∈ l → f x = g x) → sumZ f l = sumZ g l.
Proof.
  induction l as [|x l IH]; [done|]. intros H. cbn [sumZ].
  rewrite (H x), IH; [done| |by left]. intros y Hy. apply H. by right.
Qed.

Lemma sumZ_add f g l : sumZ (λ x, f x + g x) l = sumZ f l + sumZ g l.
Proof. induction l; cbn [sumZ]; lia. Qed.

Lemma sumZ_scale c f l : sumZ (λ x, c * f x) l = c * sumZ f l.
Proof. induction l; cbn [sumZ]; lia. Qed.

Lemma sumZ_nonneg f l : (∀ x, x ∈ l → 0 ≤ f x) → 0 ≤ sumZ f l.
Proof.
  induction l as [|x l IH]; [done|]. intros H. cbn [sumZ].
  assert (0 ≤ f x) by (apply H; by left).
  assert (0 ≤ sumZ f l) by (apply IH; intros y Hy; apply H; by right). lia.
Qed.

Lemma sumZ_zero_inv f l :
  (∀ x, x ∈ l → 0 ≤ f x) → sumZ f l = 0 → ∀ x, x ∈ l → f x = 0.
Proof.
  induction l as [|y l IH]; [intros _ _ x Hx; by apply not_elem_of_nil in Hx|].
  intros H. cbn [sumZ]. intros H0.
  assert (0 ≤ f y) by (apply H; by left).
  assert (0 ≤ sumZ f l) by (apply sumZ_nonneg; intros z Hz; apply H; by right).
  intros x [->|Hx]%elem_of_cons; [lia|]. apply IH; [|lia|done].
  intros z Hz. apply H. by right.
Qed.
End sums.

(** The sum of [f k v] over the entries of a map. *)
Definition map_sum `{Countable K} {V} (f : K → V → Z) (m : gmap K V) : Z :=
  sumZ (λ kv, f kv.1 kv.2) (map_to_list m).

Section map_sums.
  Context `{Countable K} {V : Type}.
  Implicit Types (f g : K → V → Z) (m : gmap K V).

Lemma map_sum_empty f : map_sum f (∅ : gmap K V) = 0.
Proof. unfold map_sum. by rewrite map_to_list_empty. Qed.

Lemma map_sum_insert f m k v : m !! k = None → map_sum f (<[k:=v]> m) = f k v + map_sum f m.
Proof.
  intros Hk. unfold map_sum. rewrite (sumZ_perm _ _ _ (map_to_list_insert m k v Hk)). done.
Qed.

Lemma map_sum_delete f m k v : m !! k = Some v → map_sum f m = f k v + map_sum f (delete k m).
Proof.
  intros Hk. rewrite <- map_sum_insert by apply lookup_delete_eq. by rewrite insert_delete_id.
Qed.

Lemma map_sum_update f m k v w :
  m !! k = Some v → map_sum f (<[k:=w]> m) = map_sum f m - f k v + f k w.
Proof.
  intros Hk. rewrite (map_sum_delete f m k v Hk), <- insert_delete_eq.
  rewrite map_sum_insert by apply lookup_delete_eq. lia.
Qed.

(** Inserting, whatever was there before. *)
Lemma map_sum_insert_any f m k w :
  map_sum f (<[k:=w]> m) = map_sum f m - default 0 (f k <$> m !! k) + f k w.
Proof.
  destruct (m !! k) as [v|] eqn:E; cbn.
  - by apply map_sum_update.
  - rewrite map_sum_insert by done. lia.
Qed.

Lemma map_sum_delete_any f m k :
  map_sum f (delete k m) = map_sum f m - default 0 (f k <$> m !! k).
Proof.
  destruct (m !! k) as [v|] eqn:E; cbn.
  - rewrite (map_sum_delete f m k v E). lia.
  - rewrite delete_id by done. lia.
Qed.

Lemma map_sum_ext f g m : (∀ k v, m !! k = Some v → f k v = g k v) → map_sum f m = map_sum g m.
Proof.
  intros H1. apply sumZ_ext. intros [k v] Hkv%elem_of_map_to_list. by apply H1.
Qed.

Lemma map_sum_nonneg f m : (∀ k v, m !! k = Some v → 0 ≤ f k v) → 0 ≤ map_sum f m.
Proof. intros H1. apply sumZ_nonneg. intros [k v] Hkv%elem_of_map_to_list. by apply H1. Qed.

Lemma map_sum_zero_inv f m :
  (∀ k v, m !! k = Some v → 0 ≤ f k v) → map_sum f m = 0 → ∀ k v, m !! k = Some v → f k v = 0.
Proof.
  intros H1 H2 k v Hkv.
  apply (sumZ_zero_inv (λ kv, f kv.1 kv.2) (map_to_list m)) with (x := (k, v)).
  - intros [k' v'] Hkv'%elem_of_map_to_list. by apply H1.
  - done.
  - by apply elem_of_map_to_list.
Qed.

Lemma map_sum_add f g m : map_sum (λ k v, f k v + g k v) m = map_sum f m + map_sum g m.
Proof. apply (sumZ_add (λ kv, f kv.1 kv.2) (λ kv, g kv.1 kv.2)). Qed.
End map_sums.
