(* ===== verification/SdkCoins.v ===== *)
(** Coins of the Cosmos SDK, which are not part of the repository.

    [sdk.Coin], [sdk.DecCoin] and the slices [sdk.Coins], [sdk.DecCoins] are plain data that the code
    builds and iterates over; their methods are the operations of the class [CoinOps].  The class
    [CoinLaws] states the documented effect of the methods on the amount of each denomination. *)
From stdpp Require Import prelude strings list.
From S2P Require Import Prelude.
From S2P Require Import GoBig.
From S2P Require Import SdkDec.
From S2P Require Import ZSums.
Local Open Scope Z_scope.

Module coin.
Record Coin : Type := { Denom : string; Amount : SdkInt.t }.
Record DecCoin : Type := { DDenom : string; DAmount : Dec.t }.
Abbreviation Coins := (list Coin).
Abbreviation DecCoins := (list DecCoin).

(** The total amount of a denomination in a slice. *)
Definition amt (d : string) (c : Coins) : Z :=
  sumZ (λ x, if bool_decide (Denom x = d) then SdkInt.i (Amount x) else 0) c.
Definition damt (d : string) (c : DecCoins) : Z :=
  sumZ (λ x, if bool_decide (DDenom x = d) then Dec.i (DAmount x) else 0) c.

(** The methods.  Every one that builds coins panics on an invalid denomination, on a negative amount
    where the type forbids it, or on overflow. *)
Class CoinOps : Type := {
  NewCoin : string → SdkInt.t → outcome Coin;
  IsValid : Coin → bool;
  NewCoins : Coins → outcome Coins;
  Add : Coins → Coins → outcome Coins;
  IsZero : Coins → bool;
  AmountOf : Coins → string → outcome SdkInt.t;
  NewDecCoinFromDec : string → Dec.t → outcome DecCoin;
  NewDecCoinFromCoin : Coin → outcome DecCoin;
  NewDecCoins : DecCoins → outcome DecCoins;
  NewDecCoinsFromCoins : Coins → outcome DecCoins;
  DecAdd : DecCoins → DecCoins → outcome DecCoins;
  DecSub : DecCoins → DecCoins → outcome DecCoins;
  DecSafeSub : DecCoins → DecCoins → outcome (DecCoins * bool);
  MulDec : DecCoins → Dec.t → outcome DecCoins;
  QuoDecTruncate : DecCoins → Dec.t → outcome DecCoins;
  TruncateDecimal : DecCoins → outcome (Coins * DecCoins);
  DecIsZero : DecCoins → bool;
  IsAnyNegative : DecCoins → bool;
  MulDecTruncate : DecCoins → Dec.t → outcome DecCoins;
}.

(** What the methods do to each denomination.  [DecSub] panics rather than return a negative amount;
    [DecSafeSub] reports it.  Scaling rounds each coin, so its law is for slices that hold each
    denomination once, which is what the constructors return. *)
Definition dec_wf (c : DecCoins) : Prop := NoDup (DDenom <$> c).

Class CoinLaws (C : CoinOps) : Prop := {
  NewCoin_spec d a c : NewCoin d a = Ok c → c = {| Denom := d; Amount := a |} ∧ 0 ≤ SdkInt.i a;
  NewCoins_spec c r d : NewCoins c = Ok r → amt d r = amt d c;
  Add_spec a b r d : Add a b = Ok r → amt d r = amt d a + amt d b;
  IsZero_spec c d : IsZero c = true → amt d c = 0;
  AmountOf_spec c d r : AmountOf c d = Ok r → SdkInt.i r = amt d c;
  NewDecCoinFromDec_spec d a c :
    NewDecCoinFromDec d a = Ok c → c = {| DDenom := d; DAmount := a |} ∧ 0 ≤ Dec.i a;
  NewDecCoinFromCoin_spec c r :
    NewDecCoinFromCoin c = Ok r → DDenom r = Denom c ∧ Dec.i (DAmount r) = SdkInt.i (Amount c) * Dec.one;
  NewDecCoins_spec c r d : NewDecCoins c = Ok r → damt d r = damt d c;
  NewDecCoinsFromCoins_spec c r d : NewDecCoinsFromCoins c = Ok r → damt d r = amt d c * Dec.one;
  DecAdd_spec a b r d : DecAdd a b = Ok r → damt d r = damt d a + damt d b;
  DecSub_spec a b r d : DecSub a b = Ok r → damt d r = damt d a - damt d b ∧ 0 ≤ damt d r;
  DecSub_wf a b r : dec_wf a → dec_wf b → DecSub a b = Ok r → dec_wf r;
  DecSafeSub_spec a b r neg d : DecSafeSub a b = Ok (r, neg) → damt d r = damt d a - damt d b;
  MulDec_spec a x r d :
    dec_wf a → MulDec a x = Ok r → 2 * Z.abs (Dec.one * damt d r - damt d a * Dec.i x) ≤ Dec.one;
  QuoDecTruncate_spec a x r d :
    dec_wf a → 0 ≤ damt d a → 0 < Dec.i x → QuoDecTruncate a x = Ok r →
    Dec.i x * damt d r ≤ damt d a * Dec.one < Dec.i x * damt d r + Dec.i x;
  TruncateDecimal_spec a c dust d :
    TruncateDecimal a = Ok (c, dust) → damt d dust = damt d a - amt d c * Dec.one;
  DecIsZero_spec c d : DecIsZero c = true → damt d c = 0;
  MulDecTruncate_spec a x r d :
    dec_wf a → 0 ≤ damt d a * Dec.i x → MulDecTruncate a x = Ok r →
    Dec.one * damt d r ≤ damt d a * Dec.i x < Dec.one * damt d r + Dec.one;
}.

(** *** A reference instance *)

Fixpoint ref_dput (d : string) (a : Z) (l : DecCoins) : DecCoins :=
  match l with
  | [] => [{| DDenom := d; DAmount := Dec.mk a |}]
  | x :: l => if bool_decide (DDenom x = d)
              then {| DDenom := d; DAmount := Dec.mk (Dec.i (DAmount x) + a) |} :: l
              else x :: ref_dput d a l
  end.
Definition ref_dsum (s : Z) (a b : DecCoins) : DecCoins :=
  foldr (λ x l, ref_dput (DDenom x) (s * Dec.i (DAmount x)) l) a b.
Fixpoint ref_put (d : string) (a : Z) (l : Coins) : Coins :=
  match l with
  | [] => [{| Denom := d; Amount := SdkInt.mk a |}]
  | x :: l => if bool_decide (Denom x = d)
              then {| Denom := d; Amount := SdkInt.mk (SdkInt.i (Amount x) + a) |} :: l
              else x :: ref_put d a l
  end.
Definition ref_sum (a b : Coins) : Coins :=
  foldr (λ x l, ref_put (Denom x) (SdkInt.i (Amount x)) l) a b.

Definition dneg (c : DecCoins) : bool := existsb (λ x, Dec.i (DAmount x) <? 0) c.
Definition dzero (c : DecCoins) : bool := forallb (λ x, Dec.i (DAmount x) =? 0) c.
Definition izero (c : Coins) : bool := forallb (λ x, SdkInt.i (Amount x) =? 0) c.
(** Apply a function of the scaled amount to every coin. *)
Definition dmap (f : Z → Z) (c : DecCoins) : DecCoins :=
  (λ x, {| DDenom := DDenom x; DAmount := Dec.mk (f (Dec.i (DAmount x))) |}) <$> c.
Definition no_zero (c : DecCoins) : DecCoins := filter (λ x, Dec.i (DAmount x) ≠ 0) c.
Definition no_zero_int (c : Coins) : Coins := filter (λ x, SdkInt.i (Amount x) ≠ 0) c.

#[export] Instance ref_coins : CoinOps := {
  NewCoin d a := if SdkInt.i a <? 0 then Panic "negative coin amount"
                 else Ok {| Denom := d; Amount := a |};
  IsValid c := 0 <=? SdkInt.i (Amount c);
  NewCoins c := Ok (no_zero_int (ref_sum [] c));
  Add a b := Ok (no_zero_int (ref_sum a b));
  IsZero := izero;
  AmountOf c d := Ok (SdkInt.mk (amt d c));
  NewDecCoinFromDec d a := if Dec.i a <? 0 then Panic "negative coin amount"
                           else Ok {| DDenom := d; DAmount := a |};
  NewDecCoinFromCoin c :=
    Ok {| DDenom := Denom c; DAmount := Dec.mk (SdkInt.i (Amount c) * Dec.one) |};
  NewDecCoins c := Ok (no_zero (ref_dsum 1 [] c));
  NewDecCoinsFromCoins c :=
    Ok ((λ x, {| DDenom := Denom x; DAmount := Dec.mk (SdkInt.i (Amount x) * Dec.one) |}) <$> c);
  DecAdd a b := Ok (no_zero (ref_dsum 1 a b));
  DecSub a b := let r := no_zero (ref_dsum (-1) a b) in
                if dneg r then Panic "negative coin amount" else Ok r;
  DecSafeSub a b := let r := no_zero (ref_dsum (-1) a b) in Ok (r, dneg r);
  MulDec a x := Ok (dmap (λ n, sdk.ref_near (n * Dec.i x) Dec.one) a);
  QuoDecTruncate a x := if Dec.i x =? 0 then Panic "invalid zero decimal"
                        else Ok (dmap (λ n, Z.quot (n * Dec.one) (Dec.i x)) a);
  TruncateDecimal a :=
    Ok ((λ x, {| Denom := DDenom x; Amount := SdkInt.mk (Z.quot (Dec.i (DAmount x)) Dec.one) |}) <$> a,
        dmap (λ n, Z.rem n Dec.one) a);
  DecIsZero := dzero;
  IsAnyNegative := dneg;
  MulDecTruncate a x := Ok (dmap (λ n, Z.quot (n * Dec.i x) Dec.one) a);
}.

Lemma amt_app d a b : amt d (a ++ b) = amt d a + amt d b.
Proof. apply sumZ_app. Qed.
Lemma damt_app d a b : damt d (a ++ b) = damt d a + damt d b.
Proof. apply sumZ_app. Qed.

Lemma ref_dput_amt d e a l : damt d (ref_dput e a l) = damt d l + if bool_decide (e = d) then a else 0.
Proof.
  unfold damt. induction l as [|x l IH]; cbn [ref_dput sumZ DDenom DAmount Dec.i]; [lia|].
  destruct (bool_decide_reflect (DDenom x = e)) as [Hx|Hx]; cbn [sumZ DDenom DAmount Dec.i].
  - rewrite Hx. case_bool_decide; lia.
  - rewrite IH. lia.
Qed.

Lemma ref_put_amt d e a l : amt d (ref_put e a l) = amt d l + if bool_decide (e = d) then a else 0.
Proof.
  unfold amt. induction l as [|x l IH]; cbn [ref_put sumZ Denom Amount SdkInt.i]; [lia|].
  destruct (bool_decide_reflect (Denom x = e)) as [Hx|Hx]; cbn [sumZ Denom Amount SdkInt.i].
  - rewrite Hx. case_bool_decide; lia.
  - rewrite IH. lia.
Qed.

Lemma ref_dsum_amt d s a b : damt d (ref_dsum s a b) = damt d a + s * damt d b.
Proof.
  induction b as [|x b IH]; cbn [ref_dsum foldr]; [cbn [damt sumZ]; unfold damt; cbn [sumZ]; lia|].
  change (foldr _ a b) with (ref_dsum s a b). rewrite ref_dput_amt, IH.
  unfold damt. cbn [sumZ]. case_bool_decide; lia.
Qed.

Lemma ref_sum_amt d a b : amt d (ref_sum a b) = amt d a + amt d b.
Proof.
  induction b as [|x b IH]; cbn [ref_sum foldr]; [unfold amt; cbn [sumZ]; lia|].
  change (foldr _ a b) with (ref_sum a b). rewrite ref_put_amt, IH.
  unfold amt. cbn [sumZ]. case_bool_decide; lia.
Qed.

Lemma no_zero_amt d c : damt d (no_zero c) = damt d c.
Proof.
  unfold damt, no_zero. induction c as [|x c IH]; [done|]. rewrite filter_cons.
  case_decide as Hx; cbn [sumZ]; rewrite IH; [done|].
  case_bool_decide; lia.
Qed.

Lemma no_zero_int_amt d c : amt d (no_zero_int c) = amt d c.
Proof.
  unfold amt, no_zero_int. induction c as [|x c IH]; [done|]. rewrite filter_cons.
  case_decide as Hx; cbn [sumZ]; rewrite IH; [done|].
  case_bool_decide; lia.
Qed.

Lemma dneg_false d c : dneg c = false → 0 ≤ damt d c.
Proof.
  unfold dneg, damt. induction c as [|x c IH]; [done|]. cbn [existsb sumZ].
  rewrite orb_false_iff, Z.ltb_ge. intros [H1 H2]. specialize (IH H2). case_bool_decide; lia.
Qed.

Lemma dzero_amt d c : dzero c = true → damt d c = 0.
Proof.
  unfold dzero, damt. induction c as [|x c IH]; [done|]. cbn [forallb sumZ].
  rewrite andb_true_iff, Z.eqb_eq. intros [H1 H2]. rewrite (IH H2). case_bool_decide; lia.
Qed.

Lemma izero_amt d c : izero c = true → amt d c = 0.
Proof.
  unfold izero, amt. induction c as [|x c IH]; [done|]. cbn [forallb sumZ].
  rewrite andb_true_iff, Z.eqb_eq. intros [H1 H2]. rewrite (IH H2). case_bool_decide; lia.
Qed.

Lemma ref_dput_denoms d e a l : d ∈ (DDenom <$> ref_dput e a l) → d = e ∨ d ∈ (DDenom <$> l).
Proof.
  induction l as [|x l IH]; cbn [ref_dput fmap list_fmap DDenom].
  - intros ?%list_elem_of_singleton. by left.
  - destruct (bool_decide_reflect (DDenom x = e)); cbn [fmap list_fmap DDenom].
    + intros [->|?]%elem_of_cons; [by left|]. right. by right.
    + intros [->|?]%elem_of_cons; [right; by left|].
      destruct (IH ltac:(done)); [by left|]. right. by right.
Qed.

Lemma ref_dput_wf e a l : dec_wf l → dec_wf (ref_dput e a l).
Proof.
  unfold dec_wf. induction l as [|x l IH]; cbn [ref_dput fmap list_fmap DDenom].
  - intros _. apply NoDup_singleton.
  - rewrite NoDup_cons. intros [H1 H2].
    destruct (bool_decide_reflect (DDenom x = e)) as [He|He]; cbn [fmap list_fmap DDenom].
    + apply NoDup_cons. by rewrite <- He.
    + apply NoDup_cons. split; [|by apply IH]. intros [|]%ref_dput_denoms; congruence.
Qed.

Lemma ref_dsum_wf s a b : dec_wf a → dec_wf (ref_dsum s a b).
Proof. intros Ha. induction b; [done|]. cbn [ref_dsum foldr]. by apply ref_dput_wf. Qed.

Lemma no_zero_wf c : dec_wf c → dec_wf (no_zero c).
Proof.
  intros Hc. eapply sublist_NoDup; [exact Hc|]. apply fmap_sublist, sublist_filter.
Qed.

Lemma damt_absent d c : d ∉ (DDenom <$> c) → damt d c = 0.
Proof.
  unfold damt. induction c as [|x c IH]; [done|]. rewrite fmap_cons, not_elem_of_cons.
  intros [H1 H2]. cbn [sumZ]. rewrite (IH H2). case_bool_decide; [congruence|lia].
Qed.

Lemma dmap_denoms f c : DDenom <$> dmap f c = DDenom <$> c.
Proof. unfold dmap. induction c; [done|]. cbn in *. by f_equal. Qed.

Lemma dmap_amt f d c : f 0 = 0 → dec_wf c → damt d (dmap f c) = f (damt d c).
Proof.
  intros Hf. unfold dec_wf. induction c as [|x c IH]; [done|].
  rewrite fmap_cons, NoDup_cons. intros [Hx Hc]. unfold dmap in *. cbn [fmap list_fmap].
  unfold damt in *. cbn [sumZ DDenom DAmount Dec.i]. case_bool_decide as Hd.
  - rewrite Hd in Hx. apply damt_absent in Hx as H0. unfold damt in H0.
    by rewrite (IH Hc), H0, Hf, !Z.add_0_r.
  - rewrite (IH Hc). done.
Qed.

Lemma trunc_amt d c :
  damt d (dmap (λ n, Z.rem n Dec.one) c) =
  damt d c -
  amt d ((λ x, {| Denom := DDenom x; Amount := SdkInt.mk (Z.quot (Dec.i (DAmount x)) Dec.one) |}) <$> c)
  * Dec.one.
Proof.
  unfold damt, amt, dmap. induction c as [|x c IH]; [done|].
  cbn [fmap list_fmap sumZ DDenom DAmount Denom Amount Dec.i SdkInt.i] in *. rewrite IH.
  pose proof (quot_rem_eq Dec.one ltac:(done) (Dec.i (DAmount x))). case_bool_decide; lia.
Qed.

Lemma coins_to_dec d c :
  damt d ((λ x, {| DDenom := Denom x; DAmount := Dec.mk (SdkInt.i (Amount x) * Dec.one) |}) <$> c)
  = amt d c * Dec.one.
Proof.
  unfold damt, amt. induction c as [|x c IH]; [done|].
  cbn [fmap list_fmap sumZ DDenom DAmount Dec.i] in *. rewrite IH. case_bool_decide; lia.
Qed.

#[export] Instance ref_coins_laws : CoinLaws ref_coins.
Proof.
  assert (0 < Dec.one) as Hone by done. split; cbn -[Dec.one].
  - intros d a c. destruct (Z.ltb_spec (SdkInt.i a) 0); [done|]. by intros [= <-].
  - intros c r d [= <-]. rewrite no_zero_int_amt, ref_sum_amt. cbn. lia.
  - intros a b r d [= <-]. by rewrite no_zero_int_amt, ref_sum_amt.
  - intros c d. apply izero_amt.
  - by intros c d r [= <-].
  - intros d a c. destruct (Z.ltb_spec (Dec.i a) 0); [done|]. by intros [= <-].
  - by intros c r [= <-].
  - intros c r d [= <-]. rewrite no_zero_amt, ref_dsum_amt. cbn [damt sumZ]. lia.
  - intros c r d [= <-]. apply coins_to_dec.
  - intros a b r d [= <-]. rewrite no_zero_amt, ref_dsum_amt. lia.
  - intros a b r d. destruct (dneg _) eqn:E; [done|]. intros [= <-].
    pose proof (dneg_false d _ E). rewrite no_zero_amt, ref_dsum_amt in *. lia.
  - intros a b r Ha _. destruct (dneg _) eqn:E; [done|]. intros [= <-].
    by apply no_zero_wf, ref_dsum_wf.
  - intros a b r neg d [= <- <-]. rewrite no_zero_amt, ref_dsum_amt. lia.
  - intros a x r d Hwf [= <-]. rewrite dmap_amt by done. unfold sdk.ref_near.
    pose proof (div_bounds (2 * Dec.one) ltac:(lia) (2 * (damt d a * Dec.i x) + Dec.one)). lia.
  - intros a x r d Hwf Ha Hx. rewrite (proj2 (Z.eqb_neq _ _)) by lia. intros [= <-].
    rewrite dmap_amt by (try done; apply Z.quot_0_l; lia).
    destruct (quot_bounds (Dec.i x) ltac:(lia) (damt d a * Dec.one)) as [Hq _]. lia.
  - intros a c dust d [= <- <-]. apply trunc_amt.
  - intros c d. apply dzero_amt.
  - intros a x r d Hwf Ha [= <-]. rewrite dmap_amt by done.
    destruct (quot_bounds Dec.one ltac:(lia) (damt d a * Dec.i x)) as [Hq _]. lia.
Qed.
End coin.
