(* ===== verification/SumTree.v ===== *)
(** The sum tree: osmoutils/sumtree (tree.go, node.go), a B+ tree kept in a key-value store, each of
    whose branches holds the sums of its children.

    A node is stored under its level and its key.  A leaf message and a branch message hold children in
    the same field, so a leaf is a list of one child here.  A key may be nil, which iterators tell from
    the empty key; it becomes empty once it is stored.  Levels are numbers of 16 bits in the code; the
    theorems are about trees of fewer levels.  The recursion towards the root has the level of the root
    as its fuel.  Printing ([visualize]) is left out. *)
From stdpp Require Import prelude strings list gmap sorting.
From Stdlib Require Import Ascii.
From S2P Require Import Prelude.
From S2P Require Import GoBig.
From S2P Require Import DecimalText.
From S2P Require Import SdkDec.
From S2P Require Import GoState.
From S2P Require Import KV.
From S2P Require Import ZSums.
Local Open Scope Z_scope.

Module SumTree.

(** *** constants.go, tree.pb.go *)

Definition nodeKeyPrefix : BigText.chars := KV.text "node/".
Record Child := { Index : BigText.chars; Accumulation : SdkInt.t }.
Abbreviation Node := (list Child).
Abbreviation store := (gmap BigText.chars Node).

(** A []byte that may be nil. *)
Definition bytes : Type := option BigText.chars.
Definition raw (b : bytes) : BigText.chars := default [] b.
Record ptr := { level : nat; key : bytes }.

(** [binary.BigEndian.PutUint16], [Uint16] *)
Definition byte_of (n : Z) : ascii := ascii_of_nat (Z.to_nat (n mod 256)).
Definition PutUint16 (n : nat) : BigText.chars := [byte_of (Z.of_nat n / 256); byte_of (Z.of_nat n)].
Definition Uint16 (l : BigText.chars) : nat :=
  match l with hi :: lo :: _ => Z.to_nat (256 * KV.byte hi + KV.byte lo) | _ => 0%nat end.

Section tree.
  Context {D : sdk.LegacyDec} (m : nat).
Abbreviation K := (M store).

(** *** Keys and pointers *)

Definition nodeKey (level : nat) (key : BigText.chars) : BigText.chars := nodeKeyPrefix ++ PutUint16 level ++ key.
Definition leafKey : BigText.chars → BigText.chars := nodeKey 0.
Definition ptrKey (p : ptr) : BigText.chars := nodeKey (level p) (raw (key p)).
Definition exists_ (s : store) (p : ptr) : bool := bool_decide (is_Some (s !! ptrKey p)).
Definition existsPtr (s : store) (p : option ptr) : bool := match p with Some p => exists_ s p | None => false end.
Definition node (s : store) (p : ptr) : Node := default [] (s !! ptrKey p).
Definition set (p : ptr) (n : Node) : K unit := modify (insert (ptrKey p) n).
Definition create (p : ptr) (n : Node) : K unit := set p n.
Definition delete_ (p : ptr) : K unit := modify (delete (ptrKey p)).

(** The end of an iterator is the given key or the end of the level. *)
Definition ptrIterator (s : store) (level : nat) (begin : BigText.chars) (stop : bytes) : list (@KV.entry Node) :=
  match stop with
  | Some e => KV.Iterator s (nodeKey level begin) (nodeKey level e)
  | None =>
    KV.select (λ k, negb (KV.key_lt k (nodeKey level begin)) && bool_decide (nodeKey level [] `prefix_of` k)) s
  end.
(** [ptrIterator.ptr] *)
Definition iter_ptr (level : nat) (iter : list (@KV.entry Node)) : option ptr :=
  match iter with [] => None | (k, _) :: _ => Some {| level := level; key := Some (drop 7 k) |} end.

Definition leftSibling (s : store) (p : ptr) : option ptr :=
  iter_ptr (level p) (reverse (ptrIterator s (level p) [] (key p))).
Definition rightSibling (s : store) (p : ptr) : option ptr :=
  let iter := ptrIterator s (level p) (raw (key p)) None in
  iter_ptr (level p) (if exists_ s p then tail iter else iter).
Definition parent (s : store) (p : ptr) : ptr :=
  let up := {| level := S (level p); key := key p |} in
  if exists_ s up then up else
  match leftSibling s up with
  | Some q => if exists_ s q then q else {| level := S (level p); key := None |}
  | None => {| level := S (level p); key := None |}
  end.
Definition root (s : store) : option ptr :=
  match reverse (KV.KVStorePrefixIterator s nodeKeyPrefix) with
  | [] => None
  | (k, _) :: _ => Some {| level := Uint16 (drop 5 k); key := Some (drop 7 k) |}
  end.

(** *** Nodes *)

Fixpoint accumulateFrom (res : SdkInt.t) (n : Node) : outcome SdkInt.t :=
  match n with [] => Ok res | c :: n => res ← sdk.IntAdd res (Accumulation c); accumulateFrom res n end.
Definition accumulate (n : Node) : outcome SdkInt.t := accumulateFrom (SdkInt.mk 0) n.
Fixpoint find (n : Node) (key : BigText.chars) : nat * bool :=
  match n with
  | [] => (0%nat, false)
  | c :: n =>
    if bool_decide (Index c = key) then (0%nat, true)
    else if KV.key_lt key (Index c) then (0%nat, false)
    else let '(idx, found) := find n key in (S idx, found)
  end.
Definition setAcc (n : Node) (idx : nat) (acc : SdkInt.t) : Node :=
  match n !! idx with Some c => <[idx := {| Index := Index c; Accumulation := acc |}]> n | None => n end.
Definition insertAt (n : Node) (idx : nat) (c : Child) : Node := take idx n ++ c :: drop idx n.
Definition deleteAt (n : Node) (idx : nat) : Node := take idx n ++ drop (S idx) n.
Definition split (n : Node) (idx : nat) : Node * Node := (take idx n, drop idx n).
Definition merge (n n2 : Node) : Node := n ++ n2.

(** *** Updates *)

Fixpoint updateAccumulation (fuel : nat) (p : ptr) (c : Child) : K unit :=
  s ← gets id;
  if negb (exists_ s p) then mret tt else
  match fuel with
  | O => panic "out of fuel"
  | S fuel =>
    match find (node s p) (Index c) with
    | (_, false) => panic "non existing key pushed from the child"
    | (idx, true) =>
      let n := setAcc (node s p) idx (Accumulation c) in
      _ ← set p n;
      s ← gets id;
      acc ← lift (accumulate n);
      updateAccumulation fuel (parent s p) {| Index := raw (key p); Accumulation := acc |}
    end
  end.

Fixpoint push (fuel : nat) (p : ptr) (c : Child) : K unit :=
  s ← gets id;
  if negb (exists_ s p) then create p [c] else
  match fuel with
  | O => panic "out of fuel"
  | S fuel' =>
    match find (node s p) (Index c) with
    | (_, true) => updateAccumulation fuel p c
    | (idx, false) =>
      let cs := insertAt (node s p) idx c in
      let up := parent s p in
      if (m <? length cs)%nat then
        let at_ := (m / 2 + 1)%nat in
        let '(leftnode, rightnode) := split cs at_ in
        match cs !! at_ with
        | None => panic "index out of range"
        | Some mid =>
          _ ← create {| level := level p; key := Some (Index mid) |} rightnode;
          s ← gets id;
          if negb (exists_ s up) then
            leftsum ← lift (accumulate leftnode);
            rightsum ← lift (accumulate rightnode);
            _ ← create up [{| Index := raw (key p); Accumulation := leftsum |};
                           {| Index := Index mid; Accumulation := rightsum |}];
            set p leftnode
          else
            rightsum ← lift (accumulate rightnode);
            _ ← push fuel' up {| Index := Index mid; Accumulation := rightsum |};
            s ← gets id;
            leftsum ← lift (accumulate leftnode);
            _ ← updateAccumulation fuel' (parent s p) {| Index := raw (key p); Accumulation := leftsum |};
            set p leftnode
        end
      else
        sum ← lift (accumulate cs);
        _ ← updateAccumulation fuel' up {| Index := raw (key p); Accumulation := sum |};
        set p cs
    end
  end.

Fixpoint pull (fuel : nat) (p : ptr) (k : BigText.chars) : K unit :=
  s ← gets id;
  if negb (exists_ s p) then mret tt else
  match fuel with
  | O => panic "out of fuel"
  | S fuel =>
    match find (node s p) k with
    | (_, false) => panic "pulling non existing child"
    | (idx, true) =>
      match deleteAt (node s p) idx with
      | [] =>
        let lsib := leftSibling s p in
        let rsib := rightSibling s p in
        let up := parent s p in
        _ ← delete_ p;
        _ ← pull fuel up (raw (key p));
        s ← gets id;
        match lsib, rsib with
        | Some lsib, Some rsib =>
          if exists_ s lsib && exists_ s rsib then
            let up := parent s lsib in
            if bool_decide (raw (key up) = raw (key (parent s rsib))) then
              let leftnode := node s lsib in
              let rightnode := node s rsib in
              if (length leftnode + length rightnode <? m)%nat then
                _ ← set lsib (merge leftnode rightnode);
                _ ← delete_ rsib;
                _ ← pull fuel up (raw (key rsib));
                sum ← lift (accumulate leftnode);
                updateAccumulation fuel up {| Index := raw (key lsib); Accumulation := sum |}
              else mret tt
            else mret tt
          else mret tt
        | _, _ => mret tt
        end
      | n =>
        _ ← set p n;
        s ← gets id;
        sum ← lift (accumulate n);
        updateAccumulation fuel (parent s p) {| Index := raw (key p); Accumulation := sum |}
      end
    end
  end.

(** *** tree.go *)

(** Enough fuel to reach the root, and one more. *)
Definition climb (s : store) : nat := match root s with Some p => S (level p) | None => 1%nat end.

Definition Get (s : store) (k : BigText.chars) : outcome SdkInt.t :=
  match s !! leafKey k with
  | None => Ok (SdkInt.mk 0)
  | Some (c :: _) => Ok (Accumulation c)
  | Some [] => Panic "nil pointer dereference"
  end.
Definition Set_ (k : bytes) (acc : SdkInt.t) : K unit :=
  let p := {| level := 0; key := k |} in
  let leaf := {| Index := raw k; Accumulation := acc |} in
  _ ← set p [leaf];
  s ← gets id;
  push (climb s) (parent s p) leaf.
Definition Remove (k : bytes) : K unit :=
  let p := {| level := 0; key := k |} in
  s ← gets id;
  if negb (exists_ s p) then mret tt else
  let up := parent s p in
  _ ← delete_ p;
  pull (climb s) up (raw k).
Definition IsEmpty (s : store) : bool := negb (bool_decide (is_Some (s !! leafKey []))).
Definition NewTree : K unit :=
  s ← gets id; if IsEmpty s then Set_ None (SdkInt.mk 0) else mret tt.
Definition Increase (k : bytes) (amt : SdkInt.t) : K unit :=
  s ← gets id;
  value ← lift (Get s (raw k));
  sum ← lift (sdk.IntAdd value amt);
  Set_ k sum.
Definition Decrease (k : bytes) (amt : SdkInt.t) : K unit := Increase k (sdk.IntNeg amt).
Definition Clear : K unit := modify (λ _, ∅).

(** [accumulationSplit] of the node at a level and a key. *)
Fixpoint accumulationSplit (s : store) (level : nat) (pkey k : BigText.chars)
    : outcome (SdkInt.t * SdkInt.t * SdkInt.t) :=
  let zero := SdkInt.mk 0 in
  match level with
  | O =>
    match s !! leafKey pkey with
    | Some (c :: _) =>
      if KV.key_lt pkey k then Ok (Accumulation c, zero, zero)
      else if KV.key_lt k pkey then Ok (zero, zero, Accumulation c)
      else Ok (zero, Accumulation c, zero)
    | _ => Panic "nil pointer dereference"
    end
  | S level' =>
    let n := default [] (s !! nodeKey level pkey) in
    let '(idx, found) := find n k in
    match (if found then Some idx else match idx with O => None | S idx => Some idx end) with
    | None => Panic "index out of range [-1]"
    | Some idx =>
      match n !! idx with
      | None => Panic "index out of range"
      | Some c =>
        '(below, exact, above) ← accumulationSplit s level' (Index c) k;
        before ← accumulate (take idx n);
        below ← sdk.IntAdd below before;
        after ← accumulate (drop (S idx) n);
        above ← sdk.IntAdd above after;
        Ok (below, exact, above)
      end
    end
  end.
Definition SplitAcc (s : store) (k : BigText.chars) : outcome (SdkInt.t * SdkInt.t * SdkInt.t) :=
  match root s with
  | None => Panic "nil pointer dereference"
  | Some p => accumulationSplit s (level p) (raw (key p)) k
  end.
Definition SubsetAccumulation (s : store) (start stop : bytes) : outcome SdkInt.t :=
  match start, stop with
  | None, _ => '(below, exact, _) ← SplitAcc s (raw stop); sdk.IntAdd below exact
  | Some start, None => '(_, exact, above) ← SplitAcc s start; sdk.IntAdd exact above
  | Some start, Some stop =>
    '(_, leftexact, leftrest) ← SplitAcc s start;
    '(_, _, rightest) ← SplitAcc s stop;
    sum ← sdk.IntAdd leftexact leftrest;
    sdk.IntSub sum rightest
  end.
Definition TotalAccumulatedValue (s : store) : outcome SdkInt.t := SubsetAccumulation s None None.
Definition PrefixSum (s : store) (k : bytes) : outcome SdkInt.t := SubsetAccumulation s None k.
End tree.
End SumTree.
