(* ===== verification/SumTreeProps.v ===== *)
(** The sum tree of osmoutils/sumtree: the shape its nodes keep, and what it answers.

    Each level is related to the level below it ([branch]), and the levels above one to what that level
    stands for ([tower]); a push or an update of a sum towards the root is then an induction on the
    levels that are left.  Whatever was added to a tree, it answers with the sums of what was added to
    each range of keys, or fails as the SDK's integers do when a sum does not fit. *)
From stdpp Require Import prelude strings list gmap sorting.
From Stdlib Require Import Ascii.
From S2P Require Import Prelude.
From S2P Require Import GoBig.
From S2P Require Import DecimalText.
From S2P Require Import SdkDec.
From S2P Require Import GoState.
From S2P Require Import KV.
From S2P Require Import ZSums.
From S2P Require Import SumTree.
Local Open Scope Z_scope.

(** *** The order of keys, with a decision procedure *)

Definition klt (a b : BigText.chars) : Prop := KV.key_lt a b = true.
Definition kle (a b : BigText.chars) : Prop := KV.key_lt b a = false.
Lemma klt_irrefl a : klt a a → False.
Proof. unfold klt. by rewrite KV.key_lt_irrefl. Qed.
Lemma kle_refl a : kle a a.
Proof. apply KV.key_lt_irrefl. Qed.
Lemma klt_trans a b c : klt a b → klt b c → klt a c.
Proof. apply KV.key_lt_trans. Qed.
Lemma kle_cases a b : kle a b ↔ klt a b ∨ a = b.
Proof. unfold kle, klt. rewrite KV.key_lt_false. by split; intros [?|?]; auto. Qed.
Lemma klt_kle a b : klt a b → kle a b.
Proof. rewrite kle_cases. by left. Qed.
Lemma klt_not a b : klt a b → kle b a → False.
Proof. unfold klt, kle. congruence. Qed.
Lemma kle_lt_dec a b : kle a b ∨ klt b a.
Proof. unfold kle, klt. destruct (KV.key_lt b a); [by right|by left]. Qed.
Lemma kle_lt_trans a b c : kle a b → klt b c → klt a c.
Proof. intros [H| ->]%kle_cases; [by apply klt_trans|done]. Qed.
Lemma klt_le_trans a b c : klt a b → kle b c → klt a c.
Proof. intros H [H'| <-]%kle_cases; [by eapply klt_trans|done]. Qed.
Lemma kle_trans a b c : kle a b → kle b c → kle a c.
Proof. intros [H| ->]%kle_cases H'; [|done]. by eapply klt_kle, klt_le_trans. Qed.
Lemma kle_antisym a b : kle a b → kle b a → a = b.
Proof. intros [H| ->]%kle_cases H'; [|done]. by destruct (klt_not a b). Qed.
Lemma kle_nil a : kle [] a.
Proof. by destruct a. Qed.

(** Closes a goal that follows from comparisons among the hypotheses. *)
Ltac known P := lazymatch goal with H : P |- _ => fail | _ => idtac end.
Ltac korder_step :=
  match goal with
  | H : klt ?a ?a |- _ => exfalso; exact (klt_irrefl a H)
  | H : klt ?a ?b, H' : kle ?b ?a |- _ => exfalso; exact (klt_not a b H H')
  | H : klt ?a ?b, H' : klt ?b ?c |- _ => known (klt a c); pose proof (klt_trans a b c H H')
  | H : klt ?a ?b, H' : kle ?b ?c |- _ => known (klt a c); pose proof (klt_le_trans a b c H H')
  | H : kle ?a ?b, H' : klt ?b ?c |- _ => known (klt a c); pose proof (kle_lt_trans a b c H H')
  | H : kle ?a ?b, H' : kle ?b ?c |- _ => known (kle a c); pose proof (kle_trans a b c H H')
  end.
Ltac korder :=
  repeat match goal with H : ?a ≠ ?a |- _ => by destruct H end;
  subst; try done;
  lazymatch goal with
  | |- klt ?a ?b => let H := fresh in destruct (kle_lt_dec b a) as [H|H]; [|exact H]
  | |- kle ?a ?b => let H := fresh in destruct (kle_lt_dec a b) as [H|H]; [exact H|]
  | |- ?a = ?b => apply kle_antisym; korder
  | |- ?a ≠ ?b => intros ->
  | |- False => idtac
  end; repeat korder_step.

Module SumTreeProps.
Import SumTree.

(** *** Computations that fail only as the SDK's integers do *)

Section adds.
  Context {D : sdk.LegacyDec}.

(** [o] returns a value that satisfies [Q], or fails as a sum of two integers does. *)
Definition adds {A} (o : outcome A) (Q : A → Prop) : Prop :=
  match o with
  | Ok x => Q x
  | Err e => ∃ a b, sdk.IntAdd a b = Err e ∨ sdk.IntSub a b = Err e
  | Panic e => ∃ a b, sdk.IntAdd a b = Panic e ∨ sdk.IntSub a b = Panic e
  end.
Lemma adds_bind {A B} (o : outcome A) (f : A → outcome B) Q : adds o (λ x, adds (f x) Q) → adds (o ≫= f) Q.
Proof. by destruct o. Qed.
Lemma adds_mono {A} (o : outcome A) (Q Q' : A → Prop) : adds o Q → (∀ x, Q x → Q' x) → adds o Q'.
Proof. destruct o; cbn; auto. Qed.
Lemma adds_run {S A B} (o : M S A) (f : A → M S B) s Q :
  adds (o s) (λ '(x, s'), adds (f x s') Q) → adds ((o ≫= f) s) Q.
Proof. unfold mbind, M_bind. by destruct (o s) as [[x s']| |]. Qed.
Lemma adds_lift {S A} (o : outcome A) (s : S) Q : adds o (λ x, Q (x, s)) → adds (lift o s) Q.
Proof. by destruct o. Qed.

Context {L : sdk.LegacyDecLaws D}.
Lemma adds_add a b (Q : SdkInt.t → Prop) :
  Q (SdkInt.mk (SdkInt.i a + SdkInt.i b)) → adds (sdk.IntAdd a b) Q.
Proof.
  intros HQ. destruct (sdk.IntAdd a b) as [r| |] eqn:E; cbn; eauto.
  pose proof (sdk.IntAdd_spec _ _ _ E) as Hr. destruct r as [r]. cbn in Hr. by subst r.
Qed.
Lemma adds_sub a b (Q : SdkInt.t → Prop) :
  Q (SdkInt.mk (SdkInt.i a - SdkInt.i b)) → adds (sdk.IntSub a b) Q.
Proof.
  intros HQ. destruct (sdk.IntSub a b) as [r| |] eqn:E; cbn; eauto.
  pose proof (sdk.IntSub_spec _ _ _ E) as Hr. destruct r as [r]. cbn in Hr. by subst r.
Qed.

Definition total (n : Node) : Z := sumZ (λ c, SdkInt.i (Accumulation c)) n.
Lemma accumulateFrom_spec n res (Q : SdkInt.t → Prop) :
  Q (SdkInt.mk (SdkInt.i res + total n)) → adds (accumulateFrom res n) Q.
Proof.
  revert res. induction n as [|c n IH]; intros res; cbn [accumulateFrom total sumZ].
  - destruct res. cbn. by rewrite Z.add_0_r.
  - intros HQ. apply adds_bind, adds_add, IH. cbn. by rewrite <- Z.add_assoc.
Qed.
Lemma accumulate_spec n (Q : SdkInt.t → Prop) : Q (SdkInt.mk (total n)) → adds (accumulate n) Q.
Proof. intros HQ. by apply accumulateFrom_spec. Qed.
End adds.

(** *** Keys of nodes *)

(** A level of 16 bits. *)
Definition narrow (ℓ : nat) : Prop := Z.of_nat ℓ < 2 ^ 16.
Lemma byte_byte_of n : KV.byte (byte_of n) = n mod 256.
Proof.
  pose proof (Z.mod_pos_bound n 256 eq_refl). unfold KV.byte, byte_of.
  rewrite nat_ascii_embedding by lia. by rewrite Z2Nat.id by lia.
Qed.
Lemma PutUint16_lt a b : narrow b → (a < b)%nat → klt (PutUint16 a) (PutUint16 b).
Proof.
  unfold narrow, klt, PutUint16. intros Hb Hab. rewrite !KV.key_lt_cons, !byte_byte_of.
  rewrite !(Z.mod_small (_ / 256)) by (split; [apply Z.div_pos; lia|apply Z.div_lt_upper_bound; lia]).
  destruct (Z.lt_total (Z.of_nat a / 256) (Z.of_nat b / 256)) as [?|[E|?]]; [by left| |].
  - right. split; [by rewrite E|]. left.
    rewrite !Z.mod_eq by done. rewrite E. lia.
  - exfalso. pose proof (Z.div_le_mono (Z.of_nat a) (Z.of_nat b) 256). lia.
Qed.
Lemma PutUint16_inj a b : narrow a → narrow b → PutUint16 a = PutUint16 b → a = b.
Proof.
  intros Ha Hb E. destruct (Nat.lt_total a b) as [H|[?|H]]; [|done|].
  - apply (PutUint16_lt _ _ Hb) in H. rewrite E in H. by destruct (klt_irrefl _ H).
  - apply (PutUint16_lt _ _ Ha) in H. rewrite E in H. by destruct (klt_irrefl _ H).
Qed.
Lemma Uint16_Put a x : narrow a → Uint16 (PutUint16 a ++ x) = a.
Proof.
  unfold narrow. intros Ha. unfold PutUint16, Uint16. cbn [app]. rewrite !byte_byte_of.
  rewrite (Z.mod_small (_ / 256)) by (split; [apply Z.div_pos; lia|apply Z.div_lt_upper_bound; lia]).
  rewrite <- Z.div_mod by done. apply Nat2Z.id.
Qed.
Lemma nodeKey_inj a b x y : narrow a → narrow b → nodeKey a x = nodeKey b y ↔ a = b ∧ x = y.
Proof.
  intros Ha Hb. split; [|by intros [-> ->]]. unfold nodeKey. intros E%app_inv_head.
  apply app_inj_1 in E as [E ->]; [|done]. split; [|done]. by apply PutUint16_inj.
Qed.
Lemma nodeKey_split ℓ x : nodeKey ℓ x = nodeKey ℓ [] ++ x.
Proof. unfold nodeKey. by rewrite app_nil_r, <- !app_assoc. Qed.
Lemma nodeKey_lt a b x y : narrow b → (a < b)%nat → klt (nodeKey a x) (nodeKey b y).
Proof.
  intros Hb Hab. unfold klt, nodeKey. rewrite KV.key_lt_app, KV.key_lt_fields by done.
  left. by apply PutUint16_lt.
Qed.
Lemma nodeKey_same_lt ℓ x y : klt (nodeKey ℓ x) (nodeKey ℓ y) ↔ klt x y.
Proof. unfold klt. by rewrite (nodeKey_split ℓ x), (nodeKey_split ℓ y), KV.key_lt_app. Qed.
Lemma drop_nodeKey ℓ x : drop 7 (nodeKey ℓ x) = x.
Proof. done. Qed.

(** *** Nodes of a level *)

Definition at_ (s : store) (ℓ : nat) (k : BigText.chars) : option Node := s !! nodeKey ℓ k.
Definition has (s : store) (ℓ : nat) (k : BigText.chars) : Prop := is_Some (at_ s ℓ k).
Lemma at_insert s ℓ k n ℓ' k' :
  narrow ℓ → narrow ℓ' →
  at_ (<[nodeKey ℓ k := n]> s) ℓ' k' = if decide (ℓ' = ℓ ∧ k' = k) then Some n else at_ s ℓ' k'.
Proof.
  intros H H'. unfold at_. case_decide as E.
  - destruct E as [-> ->]. apply lookup_insert_eq.
  - apply lookup_insert_ne. rewrite nodeKey_inj by done. naive_solver.
Qed.
Lemma at_insert_level s ℓ k n k' :
  narrow ℓ → at_ (<[nodeKey ℓ k := n]> s) ℓ k' = if decide (k' = k) then Some n else at_ s ℓ k'.
Proof. intros H. rewrite at_insert by done. repeat case_decide; destruct_and?; (done || by destruct H0). Qed.
Lemma at_insert_other s ℓ k n ℓ' k' :
  narrow ℓ → narrow ℓ' → ℓ' ≠ ℓ → at_ (<[nodeKey ℓ k := n]> s) ℓ' k' = at_ s ℓ' k'.
Proof. intros H H' Hl. rewrite at_insert by done. rewrite decide_False; [done|]. by intros [-> _]. Qed.
Lemma exists_has s p : exists_ s p = true ↔ has s (level p) (raw (key p)).
Proof. unfold exists_, has, at_, ptrKey. by rewrite bool_decide_eq_true. Qed.

(** The node of a level in whose range a key falls. *)
Definition floor_ (s : store) (ℓ : nat) (k i : BigText.chars) : Prop :=
  has s ℓ k ∧ kle k i ∧ ∀ k', has s ℓ k' → kle k' i → kle k' k.
Lemma floor_unique s ℓ k k' i : floor_ s ℓ k i → floor_ s ℓ k' i → k = k'.
Proof. intros (H1 & H2 & H3) (H4 & H5 & H6). apply kle_antisym; auto. Qed.
Lemma floor_same s s' ℓ k i : (∀ k, has s' ℓ k ↔ has s ℓ k) → floor_ s' ℓ k i ↔ floor_ s ℓ k i.
Proof. intros Hs. unfold floor_. by repeat setoid_rewrite Hs. Qed.

(** The node of a level before a key, or the last one. *)
Definition before (k : bytes) (x : BigText.chars) : Prop := ∀ i, k = Some i → klt x i.
Lemma below_spec s ℓ k :
  ∃ P, ptrIterator s ℓ [] k = KV.select P s ∧
    ∀ a, P a = true ↔ ∃ x, a = nodeKey ℓ x ∧ before k x.
Proof.
  destruct k as [i|]; (eexists; split; [reflexivity|]); intros a.
  - rewrite (nodeKey_split ℓ i), KV.in_range_prefix. unfold before. split.
    + intros (x & -> & Hx). exists x. split; [symmetry; apply nodeKey_split|]. by intros ? [= <-].
    + intros (x & -> & Hx). exists x. split; [apply nodeKey_split|]. by apply Hx.
  - rewrite andb_true_iff, bool_decide_eq_true. split.
    + intros [_ [x ->]]. exists x. split; [symmetry; apply nodeKey_split|done].
    + intros (x & -> & _). split; [|exists x; apply nodeKey_split]. apply negb_true_iff.
      rewrite (nodeKey_split ℓ x). rewrite <- (app_nil_r (nodeKey ℓ [])) at 2. rewrite KV.key_lt_app. by destruct x.
Qed.
Lemma leftSibling_spec s ℓ k :
  match leftSibling s {| level := ℓ; key := k |} with
  | Some q => level q = ℓ ∧ has s ℓ (raw (key q)) ∧ before k (raw (key q)) ∧
      ∀ x, has s ℓ x → before k x → kle x (raw (key q))
  | None => ∀ x, has s ℓ x → ¬ before k x
  end.
Proof.
  unfold leftSibling. cbn [level key]. destruct (below_spec s ℓ k) as (P & -> & HP).
  destruct (reverse (KV.select P s)) as [|[a n] l] eqn:E; cbn [iter_ptr].
  - intros x [n Hx] Hb. pose proof (KV.reverse_select_nil _ _ E _ _ Hx) as HF.
    assert (P (nodeKey ℓ x) = true) by (apply HP; eauto). congruence.
  - apply KV.reverse_select_cons in E as (Ha & Hp & Hmax & _). apply HP in Hp as (y & -> & Hy).
    cbn [level key raw default]. rewrite drop_nodeKey. split; [done|]. split; [by exists n|]. split; [done|].
    intros x [n' Hx] Hb. destruct (Hmax _ _ Hx) as [E|E]; [apply HP; eauto| |].
    + rewrite (nodeKey_split ℓ x), (nodeKey_split ℓ y) in E. apply app_inv_head in E as ->. apply kle_refl.
    + apply klt_kle, (nodeKey_same_lt ℓ), E.
Qed.

(** What [parent] finds for the node at a key: the node above in whose range it falls, if there is any. *)
Definition parent_of (s : store) (ℓ : nat) (i : BigText.chars) (p : ptr) : Prop :=
  level p = S ℓ ∧ (has s (S ℓ) [] → floor_ s (S ℓ) (raw (key p)) i) ∧
  ((∀ k, ¬ has s (S ℓ) k) → raw (key p) = []).
Lemma parent_spec s p : parent_of s (level p) (raw (key p)) (parent s p).
Proof.
  destruct p as [ℓ k]. unfold parent. cbn [level key].
  destruct (exists_ s {| level := S ℓ; key := k |}) eqn:E.
  - apply exists_has in E. cbn [level key] in E. split; [done|]. split.
    + intros _. split; [done|]. split; [apply kle_refl|auto].
    + intros H. by destruct (H (raw k)).
  - assert (¬ has s (S ℓ) (raw k)) as Hno by (intros H; apply (exists_has s {| level := S ℓ; key := k |}) in H; congruence).
    pose proof (leftSibling_spec s (S ℓ) k) as HL.
    destruct (leftSibling s {| level := S ℓ; key := k |}) as [q|].
    + destruct HL as (Hq & Hh & Hb & Hmax). rewrite (proj2 (exists_has s q)) by (by rewrite Hq).
      split; [done|]. split; [|intros H; by destruct (H (raw (key q)))]. intros H0. split; [done|].
      destruct k as [i|]; [|done]. cbn [raw default] in *. split; [apply klt_kle, Hb; done|].
      intros x Hx Hxi. apply Hmax; [done|]. intros ? [= <-]. apply kle_cases in Hxi as [?| ->]; done.
    + split; [done|]. split; [|done]. intros H0. exfalso. apply (HL [] H0). intros i ->.
      cbn [raw default] in Hno. destruct (kle_cases [] i) as [[H| <-] _]; [apply kle_nil|done|done].
Qed.

(** *** Children *)

Definition entry_of (c : Child) : BigText.chars * Z := (Index c, SdkInt.i (Accumulation c)).
Definition sorted (n : Node) : Prop := StronglySorted (λ c d, klt (Index c) (Index d)) n.
Lemma sorted_app l r :
  sorted (l ++ r) ↔ sorted l ∧ sorted r ∧ ∀ c d, c ∈ l → d ∈ r → klt (Index c) (Index d).
Proof.
  unfold sorted. induction l as [|c l IH]; cbn [app].
  - split; [|by intros (_ & ? & _)]. intros H. split; [constructor|]. split; [done|]. intros ? ? H'. by apply elem_of_nil in H'.
  - split.
    + intros [H1 H2]%StronglySorted_inv. apply IH in H1 as (H3 & H4 & H5). rewrite Forall_app in H2.
      destruct H2 as [H2 H2']. rewrite Forall_forall in H2'. split; [by constructor|]. split; [done|].
      intros ? d [->|Hc]%elem_of_cons Hd; eauto.
    + intros ([H1 H2]%StronglySorted_inv & H3 & H4). constructor.
      * apply IH. split; [done|]. split; [done|]. intros ? ? ? ?. apply H4; [by right|done].
      * apply Forall_app. split; [done|]. apply Forall_forall. intros d Hd. apply H4; [by left|done].
Qed.
Lemma sorted_cons c r : sorted (c :: r) ↔ sorted r ∧ ∀ d, d ∈ r → klt (Index c) (Index d).
Proof.
  rewrite (sorted_app [c] r). split.
  - intros (_ & ? & H). split; [done|]. intros d Hd. apply H; [by left|done].
  - intros [? H]. split; [constructor; constructor|]. split; [done|].
    intros ? d ->%list_elem_of_singleton Hd. auto.
Qed.

Lemma sorted_inj n c d : sorted n → c ∈ n → d ∈ n → Index c = Index d → c = d.
Proof.
  induction n as [|x n IH]; [by intros _ H%elem_of_nil|].
  intros [Hs Hx]%sorted_cons [->|Hc]%elem_of_cons [->|Hd]%elem_of_cons E; [done| | |by apply IH];
    exfalso; [specialize (Hx _ Hd)|specialize (Hx _ Hc)]; rewrite E in Hx; by apply klt_irrefl in Hx.
Qed.
Lemma sorted_NoDup n : sorted n → NoDup n.
Proof.
  induction n as [|x n IH]; [constructor|]. intros [Hs Hx]%sorted_cons. constructor; [|by apply IH].
  intros H. exact (klt_irrefl _ (Hx x H)).
Qed.

(** Where a key is, or belongs, among the children. *)
Lemma find_spec n k :
  sorted n →
  match find n k with
  | (idx, true) => ∃ l c r, n = l ++ c :: r ∧ idx = length l ∧ Index c = k
  | (idx, false) => ∃ l r, n = l ++ r ∧ idx = length l ∧ (∀ c, c ∈ l → klt (Index c) k) ∧ ∀ c, c ∈ r → klt k (Index c)
  end.
Proof.
  induction n as [|c n IH]; intros Hs; cbn [find].
  - exists [], []. split; [done|]. split; [done|]. by split; intros ? H%elem_of_nil.
  - apply sorted_cons in Hs as [Hs Hc]. case_bool_decide as E; [by exists [], c, n|].
    destruct (KV.key_lt k (Index c)) eqn:Hk.
    + exists [], (c :: n). split; [done|]. split; [done|]. split; [by intros ? H%elem_of_nil|].
      intros d [->|Hd]%elem_of_cons; [done|]. specialize (Hc _ Hd). change (klt k (Index c)) in Hk. korder.
    + specialize (IH Hs). destruct (find n k) as [idx [|]].
      * destruct IH as (l & d & r & -> & -> & Hd). by exists (c :: l), d, r.
      * destruct IH as (l & r & -> & -> & Hl & Hr). exists (c :: l), r. split; [done|]. split; [done|]. split; [|done].
        intros d [->|Hd]%elem_of_cons; [|auto]. change (kle (Index c) k) in Hk.
        apply kle_cases in Hk as [Hk|Hk]; [done|]. by destruct E.
Qed.
Lemma total_app l r : total (l ++ r) = total l + total r.
Proof. apply sumZ_app. Qed.

(** *** Well-formed trees *)

(** What the nodes of a level stand for: the sums of what is below their keys. *)
Definition sums (s : store) (ℓ : nat) (k : BigText.chars) : option Z := total <$> at_ s ℓ k.
(** The children of a node are the keys of the level below that fall in its range, in order, with their sums;
    the first is the node's own key. *)
Definition node_ok (s : store) (ℓ : nat) (L : BigText.chars → option Z) (k : BigText.chars) (n : Node) : Prop :=
  sorted n ∧ (∃ c r, n = c :: r ∧ Index c = k) ∧
  ∀ i a, (i, a) ∈ entry_of <$> n ↔ L i = Some a ∧ floor_ s (S ℓ) k i.
Definition branch (s : store) (ℓ : nat) (L : BigText.chars → option Z) : Prop :=
  has s (S ℓ) [] ∧ ∀ k n, at_ s (S ℓ) k = Some n → node_ok s ℓ L k n.
(** The levels above [ℓ], up to the root at level [h], over what level [ℓ] stands for. *)
Inductive tower (s : store) : nat → (BigText.chars → option Z) → nat → Prop :=
| tower_top ℓ L :
    (∀ i, is_Some (L i) ↔ i = []) → (∀ ℓ' k, (ℓ < ℓ')%nat → narrow ℓ' → ¬ has s ℓ' k) → tower s ℓ L ℓ
| tower_up ℓ L h : branch s ℓ L → tower s (S ℓ) (sums s (S ℓ)) h → tower s ℓ L h.

Lemma tower_le s ℓ L h : tower s ℓ L h → (ℓ ≤ h)%nat.
Proof. induction 1; lia. Qed.
Lemma tower_top_inv s ℓ L :
  tower s ℓ L ℓ → (∀ i, is_Some (L i) ↔ i = []) ∧ ∀ ℓ' k, (ℓ < ℓ')%nat → narrow ℓ' → ¬ has s ℓ' k.
Proof. inversion 1 as [|? ? ? _ Ht]; subst; [done|]. apply tower_le in Ht. lia. Qed.
Lemma tower_ext s ℓ L L' h : tower s ℓ L h → (∀ i, L' i = L i) → tower s ℓ L' h.
Proof.
  intros [ℓ1 L1 H1 H2|ℓ1 L1 h1 [H1 H2] H3] HL.
  - apply tower_top; [|done]. intros i. by rewrite HL.
  - apply tower_up; [|done]. split; [done|]. intros k n Hk. destruct (H2 k n Hk) as (H4 & H5 & H6).
    split; [done|]. split; [done|]. intros i a. by rewrite HL.
Qed.

Definition agree_above (s s' : store) (ℓ : nat) : Prop :=
  ∀ ℓ' k, (ℓ < ℓ')%nat → narrow ℓ' → at_ s' ℓ' k = at_ s ℓ' k.
Definition agree_below (s s' : store) (ℓ : nat) : Prop :=
  ∀ ℓ' k, (ℓ' ≤ ℓ)%nat → narrow ℓ' → at_ s' ℓ' k = at_ s ℓ' k.
Definition same_nodes (s s' : store) : Prop := ∀ a, is_Some (s' !! a) ↔ is_Some (s !! a).
Lemma narrow_le a b : narrow b → (a ≤ b)%nat → narrow a.
Proof. unfold narrow. lia. Qed.

Lemma tower_frame s s' ℓ L h : tower s ℓ L h → narrow h → agree_above s s' ℓ → tower s' ℓ L h.
Proof.
  induction 1 as [ℓ L H1 H2|ℓ L h [H1 H2] Ht IH]; intros Hn Ha.
  - apply tower_top; [done|]. intros ℓ' k Hl Hn'. unfold has. rewrite Ha by done. by apply H2.
  - pose proof (tower_le _ _ _ _ Ht). pose proof (narrow_le _ _ Hn H).
    assert (∀ k, at_ s' (S ℓ) k = at_ s (S ℓ) k) as E by (intros k; apply Ha; [lia|done]).
    assert (∀ k, has s' (S ℓ) k ↔ has s (S ℓ) k) as E' by (intros k; unfold has; by rewrite E).
    apply tower_up.
    + split; [by apply E'|]. intros k n. rewrite E. intros Hk. destruct (H2 k n Hk) as (H4 & H5 & H6).
      split; [done|]. split; [done|]. intros i a. rewrite (floor_same s s') by done. apply H6.
    + eapply tower_ext; [apply IH|]; [done| |intros i; unfold sums; by rewrite E].
      intros ℓ' k Hl Hn'. apply Ha; [lia|done].
Qed.

Definition upd (L : BigText.chars → option Z) (i : BigText.chars) (a : Z) : BigText.chars → option Z :=
  λ j, if decide (j = i) then Some a else L j.
Lemma upd_eq L i a : upd L i a i = Some a.
Proof. unfold upd. by rewrite decide_True. Qed.
Lemma upd_ne L i a j : j ≠ i → upd L i a j = L j.
Proof. intros H. unfold upd. by rewrite decide_False. Qed.

(** The node of a level over two keys between which the level has no other. *)
Lemma floor_below s ℓ k k' i :
  (∀ x, has s (S ℓ) x → has s ℓ x) → floor_ s (S ℓ) k k' → floor_ s ℓ k' i → floor_ s (S ℓ) k i.
Proof.
  intros H (H1 & H2 & H3) (H4 & H5 & H6). split; [done|]. split; [korder|]. intros x Hx Hxi. apply H3; [done|].
  apply H6; [by apply H|done].
Qed.
Lemma tower_lt s ℓ L h : tower s ℓ L h → narrow (S ℓ) → has s (S ℓ) [] → (ℓ < h)%nat.
Proof.
  intros [ℓ1 L1 H1 H2|ℓ1 L1 h1 H1 H2] Hn H.
  - destruct (H2 (S ℓ1) [] ltac:(lia) Hn H).
  - apply tower_le in H2. lia.
Qed.

(** *** Updating a sum, up to the root *)

Section operations.
  Context {D : sdk.LegacyDec} {Laws : sdk.LegacyDecLaws D} (m : nat).

Lemma updateAccumulation_eq fuel p c s :
  updateAccumulation fuel p c s =
  if negb (exists_ s p) then Ok (tt, s) else
  match fuel with
  | O => Panic "out of fuel"
  | S fuel =>
    match find (node s p) (Index c) with
    | (_, false) => Panic "non existing key pushed from the child"
    | (idx, true) =>
      let n := setAcc (node s p) idx (Accumulation c) in
      let s' := <[ptrKey p := n]> s in
      (acc ← lift (accumulate n);
       updateAccumulation fuel (parent s' p) {| Index := raw (key p); Accumulation := acc |}) s'
    end
  end.
Proof.
  destruct fuel as [|fuel]; cbn [updateAccumulation]; unfold mbind at 1, M_bind at 1, gets at 1; cbn [Datatypes.id].
  - by destruct (exists_ s p).
  - destruct (exists_ s p); [|done]. cbn [negb]. by destruct (find (node s p) (Index c)) as [idx [|]].
Qed.

Lemma setAcc_at l c r acc :
  setAcc (l ++ c :: r) (length l) acc = l ++ {| Index := Index c; Accumulation := acc |} :: r.
Proof. unfold setAcc. rewrite list_lookup_middle by done. rewrite insert_app_r_alt, Nat.sub_diag by lia. done. Qed.

(** Changing the sum of one child of a node changes nothing else about it. *)
Lemma node_ok_update s s' ℓ L k l c c' r :
  (∀ k, has s' (S ℓ) k ↔ has s (S ℓ) k) → Index c' = Index c →
  node_ok s ℓ L k (l ++ c :: r) → node_ok s' ℓ (upd L (Index c) (SdkInt.i (Accumulation c'))) k (l ++ c' :: r).
Proof.
  intros Hh E (Hs & Hf & He). rewrite sorted_app, sorted_cons in Hs. destruct Hs as (H1 & [H2 H3] & H4).
  assert (floor_ s (S ℓ) k (Index c)) as Hfl.
  { apply (proj1 (He (Index c) (SdkInt.i (Accumulation c)))). rewrite fmap_app. apply elem_of_app. right. by left. }
  split; [|split].
  - rewrite sorted_app, sorted_cons. split; [done|]. split; [split; [done|by rewrite E]|].
    intros d e Hd [->|He']%elem_of_cons; [rewrite E|]; apply H4; (done || by left || by right).
  - destruct Hf as (c0 & r0 & Hn & Hk). destruct l as [|x l]; cbn in Hn |- *; injection Hn as <- <-; [|by eauto].
    exists c', r. split; [done|]. by rewrite E.
  - intros i a. rewrite (floor_same s s') by done. specialize (He i a). unfold upd.
    rewrite fmap_app, elem_of_app, fmap_cons, elem_of_cons in He |- *.
    case_decide as Ei.
    + subst i. split.
      * intros H. split; [|done]. destruct H as [H|[H|H]].
        -- apply list_elem_of_fmap in H as (d & [= Hd _] & Hin). exfalso.
           specialize (H4 d c Hin ltac:(by left)).
           apply (klt_irrefl (Index c)). by rewrite Hd at 1.
        -- by injection H as _ ->.
        -- apply list_elem_of_fmap in H as (d & [= Hd _] & Hin). exfalso. specialize (H3 d Hin).
           apply (klt_irrefl (Index c)). by rewrite Hd at 2.
      * intros [[= <-] _]. right. left. unfold entry_of. by rewrite E.
    + rewrite <- He. split; (intros [H|[H|H]]; [by left| |by right; right]).
      * unfold entry_of in H. rewrite E in H. congruence.
      * unfold entry_of in H. congruence.
Qed.

Lemma parent_top s ℓ i p :
  parent_of s ℓ i p → (∀ k, ¬ has s (S ℓ) k) → exists_ s p = false.
Proof.
  intros (Hp & _ & _) Hno. destruct (exists_ s p) eqn:E; [|done]. apply exists_has in E.
  rewrite Hp in E. by destruct (Hno (raw (key p))).
Qed.
Lemma has_set s ℓ k n ℓ' k' :
  narrow ℓ → narrow ℓ' → has (<[nodeKey ℓ k := n]> s) ℓ' k' ↔ ℓ' = ℓ ∧ k' = k ∨ has s ℓ' k'.
Proof.
  intros H H'. unfold has. rewrite at_insert by done. case_decide as E; [|naive_solver].
  split; [by left|]. intros _. by eexists.
Qed.

(** The other nodes do not notice. *)
Lemma node_ok_other s s' ℓ L k q n i a :
  (∀ k, has s' (S ℓ) k ↔ has s (S ℓ) k) → floor_ s (S ℓ) q i → k ≠ q →
  node_ok s ℓ L k n → node_ok s' ℓ (upd L i a) k n.
Proof.
  intros Hh Hq Hk (H1 & H2 & H3). split; [done|]. split; [done|]. intros j b. rewrite H3, (floor_same s s') by done.
  unfold upd. case_decide as E; [subst j|done]. split; intros [_ Hf]; destruct Hk; by eapply floor_unique.
Qed.
Lemma find_child s ℓ L k n i :
  node_ok s ℓ L k n → is_Some (L i) → floor_ s (S ℓ) k i →
  ∃ l c r, n = l ++ c :: r ∧ find n i = (length l, true) ∧ Index c = i.
Proof.
  intros (Hs & _ & He) [a Ha] Hf. pose proof (find_spec n i Hs) as Hfind.
  destruct (find n i) as [idx [|]].
  - destruct Hfind as (l & c & r & -> & -> & <-). by exists l, c, r.
  - destruct Hfind as (l & r & -> & _ & Hl & Hr). exfalso.
    assert ((i, a) ∈ entry_of <$> (l ++ r)) as Hin by (by apply He).
    apply list_elem_of_fmap in Hin as (c & [= E _] & [Hc|Hc]%elem_of_app).
    + apply (klt_irrefl i). rewrite E at 1. auto.
    + apply (klt_irrefl i). rewrite E at 2. auto.
Qed.

Lemma update_spec s ℓ L h :
  tower s ℓ L h → narrow (S h) → ∀ fuel p c,
  (h ≤ fuel + ℓ)%nat → parent_of s ℓ (Index c) p → is_Some (L (Index c)) →
  adds (updateAccumulation fuel p c s) (λ '(_, s'),
    same_nodes s s' ∧ agree_below s s' ℓ ∧ tower s' ℓ (upd L (Index c) (SdkInt.i (Accumulation c))) h).
Proof.
  intros Ht Hn. remember (h - ℓ)%nat as d eqn:Hd. revert s ℓ L Ht Hd. induction d as [|d IH]; intros s ℓ L Ht Hd fuel p c Hfu Hp HL;
    rewrite updateAccumulation_eq.
  - destruct Ht as [ℓ L H1 H2|ℓ L h H1 Ht]; [|apply tower_le in Ht; lia].
    rewrite (parent_top s ℓ _ p Hp) by (intros k; apply H2; [lia|done]). cbn. split; [done|]. split; [done|].
    apply tower_top; [|done]. intros i. unfold upd. case_decide as E; [|apply H1]. subst i. split; [intros _; by apply H1|by eexists].
  - destruct Ht as [ℓ L H1 H2|ℓ L h [H1 H2] Ht]; [lia|]. pose proof (tower_le _ _ _ _ Ht) as Hle.
    destruct fuel as [|fuel]; [lia|]. destruct Hp as (Hpl & Hfl & _). specialize (Hfl H1).
    destruct (proj1 Hfl) as [n Hn'].
    rewrite (proj2 (exists_has s p)) by (rewrite Hpl; by exists n). cbn [negb].
    assert (node s p = n) as -> by (unfold node, ptrKey; rewrite Hpl; unfold at_ in Hn'; by rewrite Hn').
    destruct (find_child _ _ _ _ _ _ (H2 _ _ Hn') HL Hfl) as (l & c0 & r & -> & -> & E).
    rewrite setAcc_at, E. cbv zeta. set (c' := {| Index := Index c; Accumulation := Accumulation c |}).
    assert (ptrKey p = nodeKey (S ℓ) (raw (key p))) as -> by (unfold ptrKey; by rewrite Hpl).
    set (s1 := <[nodeKey (S ℓ) (raw (key p)) := l ++ c' :: r]> s).
    assert (narrow (S ℓ)) as HnS by (eapply narrow_le; [exact Hn|lia]).
    assert (agree_above s s1 (S ℓ)) as Ha.
    { intros ℓ' k Hl Hn2. apply at_insert_other; (done || lia). }
    assert (same_nodes s s1) as Hsame.
    { intros a. unfold s1. destruct (decide (a = nodeKey (S ℓ) (raw (key p)))) as [->|Hne].
      - rewrite lookup_insert_eq. split; [intros _; by exists (l ++ c0 :: r)|by eexists].
      - by rewrite lookup_insert_ne. }
    apply adds_run, adds_lift, accumulate_spec.
    eapply adds_mono.
    { apply (IH s1 (S ℓ) (sums s (S ℓ))); [| |lia| |].
      - eapply tower_frame; [exact Ht|eapply narrow_le; [exact Hn|lia]|done].
      - lia.
      - rewrite <- Hpl. apply parent_spec.
      - unfold sums. cbn [Index]. rewrite Hn'. by eexists. }
    intros [[] s'] (Hs1 & Hs2 & Hs3). cbn [Index Accumulation SdkInt.i] in Hs3.
    assert (same_nodes s s') as Hss by (intros a; rewrite (Hs1 a); apply Hsame).
    assert (∀ k, at_ s' (S ℓ) k = if decide (k = raw (key p)) then Some (l ++ c' :: r) else at_ s (S ℓ) k) as Hat.
    { intros k. rewrite Hs2 by done. by apply at_insert_level. }
    split; [done|]. split.
    { intros ℓ' k Hl Hn2. rewrite Hs2 by (lia || done). apply at_insert_other; (done || lia). }
    apply tower_up.
    + split; [by apply Hss|]. intros k n. rewrite Hat. case_decide as Ek.
      * intros [= <-]. subst k.
        pose proof (node_ok_update s s' ℓ L (raw (key p)) l c0 c' r (λ k, Hss (nodeKey (S ℓ) k)) (eq_sym E) (H2 _ _ Hn')) as Hok.
        rewrite E in Hok. exact Hok.
      * intros Hk. eapply node_ok_other; [intros k'; apply Hss|exact Hfl|done|by apply H2].
    + eapply tower_ext; [exact Hs3|]. intros k. unfold sums, upd. rewrite Hat. by case_decide.
Qed.

(** *** Adding a child *)

Lemma set_then {B : Type} (p : ptr) (n : list Child) (f : unit → M store B) s : (set p n ≫= f) s = f tt (<[ptrKey p := n]> s).
Proof. done. Qed.
Lemma gets_then {A B : Type} (g : store → A) (f : A → M store B) s : (gets g ≫= f) s = f (g s) s.
Proof. done. Qed.
Lemma push_unfold fuel p c s :
  push m fuel p c s =
  if negb (exists_ s p) then create p [c] s else
  match fuel with
  | O => Panic "out of fuel"
  | S fuel' =>
    match find (node s p) (Index c) with
    | (_, true) => updateAccumulation fuel p c s
    | (idx, false) =>
      let cs := insertAt (node s p) idx c in
      let up := parent s p in
      if (m <? length cs)%nat then
        let at_ := (m / 2 + 1)%nat in
        match cs !! at_ with
        | None => Panic "index out of range"
        | Some mid =>
          let s := <[nodeKey (level p) (Index mid) := drop at_ cs]> s in
          if negb (exists_ s up) then
            (leftsum ← lift (accumulate (take at_ cs));
             rightsum ← lift (accumulate (drop at_ cs));
             _ ← create up [{| Index := raw (key p); Accumulation := leftsum |};
                            {| Index := Index mid; Accumulation := rightsum |}];
             set p (take at_ cs)) s
          else
            (rightsum ← lift (accumulate (drop at_ cs));
             _ ← push m fuel' up {| Index := Index mid; Accumulation := rightsum |};
             s ← gets id;
             leftsum ← lift (accumulate (take at_ cs));
             _ ← updateAccumulation fuel' (parent s p) {| Index := raw (key p); Accumulation := leftsum |};
             set p (take at_ cs)) s
        end
      else
        (sum ← lift (accumulate cs);
         _ ← updateAccumulation fuel' up {| Index := raw (key p); Accumulation := sum |};
         set p cs) s
    end
  end.
Proof.
  destruct fuel as [|fuel]; cbn [push]; unfold mbind at 1, M_bind at 1, gets at 1; cbn [Datatypes.id].
  - by destruct (exists_ s p).
  - destruct (exists_ s p); [|done]. cbn [negb]. destruct (find (node s p) (Index c)) as [idx [|]]; [done|].
    cbv zeta. cbn [split]. destruct (m <? _)%nat; [|done]. destruct (_ !! _) as [mid|]; [|done].
    unfold create. rewrite set_then. unfold ptrKey. cbn [level key raw default].
    rewrite gets_then. cbn [Datatypes.id]. by destruct (exists_ _ _).
Qed.

(** A new child in the range of a node. *)
Lemma node_ok_insert s ℓ L k l c r :
  node_ok s ℓ L k (l ++ r) → L (Index c) = None → floor_ s (S ℓ) k (Index c) →
  (∀ d, d ∈ l → klt (Index d) (Index c)) → (∀ d, d ∈ r → klt (Index c) (Index d)) →
  node_ok s ℓ (upd L (Index c) (SdkInt.i (Accumulation c))) k (l ++ c :: r) ∧ l ≠ [].
Proof.
  intros (Hs & (c0 & r0 & Hf & Hk) & He) HL Hfl Hl Hr. rewrite sorted_app in Hs. destruct Hs as (H1 & H2 & H3).
  assert (l ≠ []) as Hne.
  { intros ->. cbn in Hf. subst r. specialize (Hr c0 (ltac:(by left))). rewrite Hk in Hr.
    destruct Hfl as (_ & Hle & _). korder. }
  split; [|done]. split; [|split].
  - rewrite sorted_app, sorted_cons. split; [done|]. split; [done|].
    intros d e Hd [->|He']%elem_of_cons; [by apply Hl|by apply H3].
  - destruct l as [|x l]; [done|]. cbn in Hf. injection Hf as -> _. by exists c0, (l ++ c :: r).
  - intros i a. specialize (He i a). unfold upd. rewrite fmap_app, elem_of_app in He.
    rewrite fmap_app, elem_of_app, fmap_cons, elem_of_cons. case_decide as E.
    + subst i. split; [|intros [[= <-] _]; right; by left]. intros H. split; [|done].
      assert ((Index c, a) = entry_of c ∨ L (Index c) = Some a) as [[= ->]|?]; [|done|congruence].
      destruct H as [H|[H|H]]; [right; apply He; by left|by left|right; apply He; by right].
    + rewrite <- He. split; (intros [H|H]; [by left|]).
      * destruct H as [[= H _]|H]; [done|by right].
      * right. by right.
Qed.

(** A node that is split in two: the second half gets a key of its own. *)
Lemma floor_split s s' ℓ q k2 :
  (∀ k, has s' ℓ k ↔ has s ℓ k ∨ k = k2) → floor_ s ℓ q k2 → q ≠ k2 →
  (∀ i, floor_ s' ℓ q i ↔ floor_ s ℓ q i ∧ klt i k2) ∧
  (∀ i, floor_ s' ℓ k2 i ↔ floor_ s ℓ q i ∧ kle k2 i) ∧
  (∀ k i, k ≠ q → k ≠ k2 → floor_ s' ℓ k i ↔ floor_ s ℓ k i).
Proof.
  intros Hh (Hq1 & Hq2 & Hq3) Hne.
  assert (klt q k2) as Hlt by (apply kle_cases in Hq2 as [?|?]; done).
  assert (¬ has s ℓ k2) as Hno by (intros H; specialize (Hq3 _ H (kle_refl _)); korder).
  unfold floor_. setoid_rewrite Hh. split; [|split].
  - intros i. split.
    + intros (_ & H1 & H2). split; [split; [done|]; split; [done|]; intros k' Hk'; apply H2; by left|].
      destruct (kle_lt_dec k2 i) as [H|H]; [|done]. specialize (H2 k2 (or_intror eq_refl) H). korder.
    + intros ((_ & H1 & H2) & H3). split; [by left|]. split; [done|]. intros k' [Hk'| ->] Hle; [by apply H2|]. korder.
  - intros i. split.
    + intros (_ & H1 & H2). split; [|done]. split; [done|]. split; [korder|].
      intros k' Hk' Hle. apply Hq3; [done|]. apply H2; [by left|done].
    + intros ((_ & H1 & H2) & H3). split; [by right|]. split; [done|]. intros k' [Hk'| ->] Hle; [|apply kle_refl].
      specialize (H2 k' Hk' Hle). korder.
  - intros k i Hk Hk2. split.
    + intros ([H0|?] & H1 & H2); [|done]. split; [done|]. split; [done|]. intros k' Hk'. apply H2. by left.
    + intros (H0 & H1 & H2). split; [by left|]. split; [done|]. intros k' [Hk'| ->] Hle; [by apply H2|].
      destruct (kle_lt_dec k2 k) as [H|H]; [done|]. exfalso. apply Hk.
      assert (kle k q) by (apply Hq3; [done|by apply klt_kle]).
      assert (kle q k) by (apply H2; [done|korder]). by apply kle_antisym.
Qed.
Lemma node_ok_split s s' ℓ L q l mid r :
  (∀ k, has s' (S ℓ) k ↔ has s (S ℓ) k ∨ k = Index mid) → l ≠ [] → node_ok s ℓ L q (l ++ mid :: r) →
  node_ok s' ℓ L q l ∧ node_ok s' ℓ L (Index mid) (mid :: r) ∧
  (∀ k n, k ≠ q → k ≠ Index mid → node_ok s ℓ L k n → node_ok s' ℓ L k n) ∧
  floor_ s (S ℓ) q (Index mid) ∧ q ≠ Index mid.
Proof.
  intros Hh Hl (Hs & (c0 & r0 & Hf & Hk) & He). rewrite sorted_app in Hs. destruct Hs as (H1 & H2 & H3).
  assert (floor_ s (S ℓ) q (Index mid)) as Hfl.
  { apply (proj1 (He (Index mid) (SdkInt.i (Accumulation mid)))). rewrite fmap_app. apply elem_of_app. right. by left. }
  assert (q ≠ Index mid) as Hne.
  { destruct l as [|x l]; [done|]. cbn in Hf. injection Hf as -> _. rewrite <- Hk. intros E.
    apply (klt_irrefl (Index c0)). rewrite E at 2. apply H3; by left. }
  destruct (floor_split s s' (S ℓ) q (Index mid) Hh Hfl Hne) as (F1 & F2 & F3).
  assert (∀ i a, (i, a) ∈ entry_of <$> l → klt i (Index mid)) as Hlow.
  { intros i a (c & [= -> _] & Hc)%list_elem_of_fmap. apply H3; [done|by left]. }
  assert (∀ i a, (i, a) ∈ entry_of <$> mid :: r → kle (Index mid) i) as Hhigh.
  { intros i a (c & [= -> _] & [->|Hc]%elem_of_cons)%list_elem_of_fmap; [apply kle_refl|].
    apply sorted_cons in H2 as [_ H2]. by apply klt_kle, H2. }
  split; [|split; [|split; [|done]]].
  - split; [done|]. split.
    { destruct l as [|x l]; [done|]. cbn in Hf. injection Hf as -> _. by exists c0, l. }
    intros i a. specialize (He i a). rewrite fmap_app, elem_of_app in He.
    rewrite F1, (assoc (∧)), <- He. split.
    + intros H. split; [by left|]. by eapply Hlow.
    + intros [[H|H] Hlt]; [done|]. apply Hhigh in H. exfalso. korder.
  - split; [done|]. split; [by exists mid, r|].
    intros i a. specialize (He i a). rewrite fmap_app, elem_of_app in He.
    rewrite F2, (assoc (∧)), <- He. split.
    + intros H. split; [by right|]. by eapply Hhigh.
    + intros [[H|H] Hle]; [|done]. apply Hlow in H. exfalso. korder.
  - intros k n Hkq Hkm (G1 & G2 & G3). split; [done|]. split; [done|]. intros i a. rewrite G3. by rewrite F3.
Qed.

(** The store of a tree has no other keys. *)
Definition shaped (s : store) : Prop := ∀ a, is_Some (s !! a) → ∃ ℓ k, narrow ℓ ∧ a = nodeKey ℓ k.
Lemma shaped_insert s ℓ k n : shaped s → narrow ℓ → shaped (<[nodeKey ℓ k := n]> s).
Proof.
  intros H Hn a [x Hx]. destruct (decide (a = nodeKey ℓ k)) as [->|Hne]; [by eauto|].
  rewrite lookup_insert_ne in Hx by done. by eauto.
Qed.
Lemma shaped_same s s' : shaped s → same_nodes s s' → shaped s'.
Proof. intros H Hs a Ha. by apply H, Hs. Qed.
Lemma agree_above_insert s ℓ ℓ' k n : narrow ℓ → (ℓ ≤ ℓ')%nat → agree_above s (<[nodeKey ℓ k := n]> s) ℓ'.
Proof.
  intros Hn Hl l x Hx Hn'. apply at_insert_other; (done || lia).
Qed.
Lemma agree_below_insert s ℓ ℓ' k n : narrow ℓ → (ℓ' < ℓ)%nat → agree_below s (<[nodeKey ℓ k := n]> s) ℓ'.
Proof.
  intros Hn Hl l x Hx Hn'. apply at_insert_other; (done || lia).
Qed.
Lemma agree_below_trans s1 s2 s3 ℓ1 ℓ2 ℓ :
  agree_below s1 s2 ℓ1 → agree_below s2 s3 ℓ2 → (ℓ ≤ ℓ1)%nat → (ℓ ≤ ℓ2)%nat → agree_below s1 s3 ℓ.
Proof. intros H1 H2 Hl1 Hl2 l x Hx Hn. rewrite H2, H1 by (lia || done). done. Qed.

(** A key of a level is a key of the level below. *)
Lemma branch_has s ℓ L k : branch s ℓ L → has s (S ℓ) k → is_Some (L k).
Proof.
  intros [_ H] [n Hn]. destruct (H k n Hn) as (_ & (c & r & -> & Hc) & He).
  destruct (proj1 (He (Index c) (SdkInt.i (Accumulation c))) (ltac:(by left))) as [HL _].
  rewrite Hc in HL. by eexists.
Qed.
Lemma sums_has s ℓ k : is_Some (sums s ℓ k) ↔ has s ℓ k.
Proof. unfold sums, has. by rewrite fmap_is_Some. Qed.

(** A node is put in place once the levels above know its sum. *)
Lemma tower_set s s1 ℓ L q n h :
  narrow (S ℓ) → narrow h → agree_below s s1 (S ℓ) →
  tower s1 (S ℓ) (upd (sums s (S ℓ)) q (total n)) h → has s (S ℓ) [] →
  (∀ s', (∀ k, has s' (S ℓ) k ↔ has s (S ℓ) k ∨ k = q) →
    node_ok s' ℓ L q n ∧ ∀ k n', k ≠ q → at_ s (S ℓ) k = Some n' → node_ok s' ℓ L k n') →
  tower (<[nodeKey (S ℓ) q := n]> s1) ℓ L h.
Proof.
  intros HnS Hnh Hb Ht H0 Hok. set (s' := <[nodeKey (S ℓ) q := n]> s1).
  assert (∀ k, at_ s' (S ℓ) k = if decide (k = q) then Some n else at_ s (S ℓ) k) as Hat.
  { intros k. unfold s'. rewrite at_insert_level by done. by rewrite Hb. }
  assert (∀ k, has s' (S ℓ) k ↔ has s (S ℓ) k ∨ k = q) as Hh.
  { intros k. unfold has. rewrite Hat. case_decide.
    - split; [by right|]. intros _. by eexists.
    - split; [by left|]. by intros [?|?]. }
  destruct (Hok s' Hh) as [H1 H2]. apply tower_up.
  - split; [apply Hh; by left|]. intros k n'. rewrite Hat. case_decide as E; [|by apply H2].
    intros [= <-]. by subst k.
  - eapply tower_ext; [eapply tower_frame; [exact Ht|done|by apply agree_above_insert]|].
    intros k. unfold sums, upd. rewrite Hat. by case_decide.
Qed.

(** The root is split: the tree gets a level. *)
Lemma tower_grow s ℓ L q l mid r c1 c2 :
  narrow (S (S ℓ)) → tower s (S ℓ) (sums s (S ℓ)) (S ℓ) → has s (S ℓ) [] → has s (S ℓ) q →
  l ≠ [] → node_ok s ℓ L q (l ++ mid :: r) →
  (∀ k n', k ≠ q → at_ s (S ℓ) k = Some n' → node_ok s ℓ L k n') →
  entry_of c1 = (q, total l) → entry_of c2 = (Index mid, total (mid :: r)) →
  tower (<[nodeKey (S ℓ) q := l]> (<[nodeKey (S (S ℓ)) [] := [c1; c2]]>
    (<[nodeKey (S ℓ) (Index mid) := mid :: r]> s))) ℓ L (S (S ℓ)).
Proof.
  intros Hn2 Ht H0 Hq Hl Hok Hothers E1 E2.
  assert (narrow (S ℓ)) as Hn1 by (eapply narrow_le; [exact Hn2|lia]).
  destruct (tower_top_inv _ _ _ Ht) as [Htop Habove].
  assert (∀ k, has s (S ℓ) k ↔ k = []) as Hhas by (intros k; rewrite <- sums_has; apply Htop).
  assert (q = []) as -> by (by apply Hhas).
  set (s0 := <[nodeKey (S ℓ) (Index mid) := mid :: r]> s). set (s1 := <[nodeKey (S (S ℓ)) [] := [c1; c2]]> s0).
  set (s' := <[nodeKey (S ℓ) [] := l]> s1).
  assert (∀ k, at_ s' (S ℓ) k = if decide (k = []) then Some l else
    if decide (k = Index mid) then Some (mid :: r) else at_ s (S ℓ) k) as Hat.
  { intros k. unfold s', s1, s0. rewrite at_insert_level by done. rewrite at_insert_other by (done || lia).
    rewrite at_insert_level by done. by repeat case_decide. }
  assert (∀ k, at_ s' (S (S ℓ)) k = if decide (k = []) then Some [c1; c2] else None) as Hat2.
  { intros k. unfold s', s1, s0. rewrite at_insert_other by (done || lia). rewrite at_insert_level by done.
    repeat case_decide; try done. rewrite at_insert_other by (done || lia). apply eq_None_not_Some, Habove; (done || lia). }
  assert (∀ k, has s' (S ℓ) k ↔ has s (S ℓ) k ∨ k = Index mid) as Hh.
  { intros k. unfold has at 1. rewrite Hat. rewrite Hhas. repeat case_decide; try (split; [by auto|intros _; by eexists]).
    rewrite <- (Hhas k). split; [by left|]. by intros [?|?]. }
  destruct (node_ok_split s s' ℓ L [] l mid r Hh Hl Hok) as (K1 & K2 & K3 & _ & Hne).
  apply tower_up; [split|apply tower_up; [split|apply tower_top]].
  - apply Hh. left. by apply Hhas.
  - intros k n. rewrite Hat. repeat case_decide; subst; [by intros [= <-]|by intros [= <-]|]. intros Hk.
    apply K3; [done|done|]. by apply Hothers.
  - unfold has. rewrite Hat2. by eexists.
  - intros k n. rewrite Hat2. case_decide as Ek; [|done]. intros [= <-]. subst k.
    injection E1 as E1 E1'. injection E2 as E2 E2'. split; [|split].
    + apply (sorted_cons c1 [c2]). split; [constructor; constructor|]. intros d ->%list_elem_of_singleton.
      rewrite E1, E2. destruct (kle_cases [] (Index mid)) as [[H|H] _]; [apply kle_nil|done|done].
    + by exists c1, [c2].
    + intros i a. assert (floor_ s' (S (S ℓ)) [] i) as Hfl.
      { split; [unfold has; rewrite Hat2; by eexists|]. split; [apply kle_nil|]. intros k' [n Hk'] _.
        rewrite Hat2 in Hk'. case_decide; [subst; apply kle_refl|done]. }
      assert (sums s' (S ℓ) i = Some a ↔ (i, a) = entry_of c1 ∨ (i, a) = entry_of c2) as HE.
      { unfold sums, entry_of. rewrite Hat, E1, E1', E2, E2'. repeat case_decide; subst; cbn [fmap option_fmap option_map].
        - split; [intros [= <-]; by left|]. by intros [[= ->]|[= ? _]].
        - split; [intros [= <-]; by right|]. by intros [[= ? _]|[= ->]].
        - split; [|by intros [[= ? _]|[= ? _]]]. intros HH. destruct (at_ s (S ℓ) i) as [n|] eqn:Ei; [|done].
          assert (has s (S ℓ) i) as Hi by (by exists n). by apply Hhas in Hi. }
      rewrite HE. cbn [fmap list_fmap]. rewrite !elem_of_cons, elem_of_nil. tauto.
  - intros i. unfold sums. rewrite Hat2. case_decide; [|by split; [intros [? [=]]|]]. split; [done|]. intros _. by eexists.
  - intros ℓ' k Hl' Hn'. unfold has, s', s1, s0. rewrite !at_insert_other by (done || lia).
    apply Habove; (done || lia).
Qed.

(** What adding a child to the level [ℓ] of a tree leads to. *)
Definition grown (s : store) (ℓ : nat) (L : BigText.chars → option Z) (h : nat) (s' : store) : Prop :=
  shaped s' ∧ agree_below s s' ℓ ∧ ∃ h', (h ≤ h' ≤ S h)%nat ∧ tower s' ℓ L h'.
(** The node at [q] has become [cs], the others stay as they are. *)
Definition replaces (s : store) (ℓ : nat) (L : BigText.chars → option Z) (q : BigText.chars) (cs : Node) : Prop :=
  has s (S ℓ) [] ∧ has s (S ℓ) q ∧ node_ok s ℓ L q cs ∧
  ∀ k n, k ≠ q → at_ s (S ℓ) k = Some n → node_ok s ℓ L k n.

Lemma ptrKey_level p ℓ : level p = ℓ → ptrKey p = nodeKey ℓ (raw (key p)).
Proof. by intros <-. Qed.
Lemma node_ok_same s s' ℓ L k n : (∀ k, has s' (S ℓ) k ↔ has s (S ℓ) k) → node_ok s ℓ L k n → node_ok s' ℓ L k n.
Proof. intros Hh (H1 & H2 & H3). split; [done|]. split; [done|]. intros i a. by rewrite H3, (floor_same s s'). Qed.

(** The last steps of [push]: the sum of the node goes to the parent, then the node is put in place. *)
Lemma push_plain s0 s ℓ L h h' p cs fuel :
  tower s (S ℓ) (sums s (S ℓ)) h' → shaped s → narrow (S (S h)) → (h ≤ h' ≤ S h)%nat → (h' ≤ fuel + S ℓ)%nat →
  level p = S ℓ → replaces s ℓ L (raw (key p)) cs → agree_below s0 s ℓ →
  adds ((sum ← lift (accumulate cs);
         _ ← updateAccumulation fuel (parent s p) {| Index := raw (key p); Accumulation := sum |};
         set p cs) s) (λ '(_, s'), grown s0 ℓ L h s').
Proof.
  intros Ht Hsh Hn Hh Hf Hp (H0 & Hq & Hok & Hothers) Hb. pose proof (tower_le _ _ _ _ Ht) as Hle.
  assert (narrow (S h')) as Hnh by (eapply narrow_le; [exact Hn|lia]).
  assert (narrow (S ℓ)) as HnS by (eapply narrow_le; [exact Hn|lia]).
  apply adds_run, adds_lift, accumulate_spec, adds_run. eapply adds_mono.
  { apply (update_spec s (S ℓ) (sums s (S ℓ)) h'); [done|done|done| |by apply sums_has].
    rewrite <- Hp. apply parent_spec. }
  intros [[] s1] (Hs & Hb1 & Ht1). cbn [Index Accumulation SdkInt.i] in Ht1.
  unfold set, modify, adds. rewrite (ptrKey_level _ _ Hp). split; [|split; [|exists h'; split; [done|]]].
  - apply shaped_insert; [by eapply shaped_same|done].
  - eapply agree_below_trans; [exact Hb| |reflexivity|reflexivity].
    eapply agree_below_trans; [exact Hb1|by apply (agree_below_insert _ (S ℓ) ℓ); [|lia]|lia|done].
  - eapply tower_set; [done|eapply narrow_le; [exact Hnh|lia]|exact Hb1|exact Ht1|done|]. intros s' Hs'.
    assert (∀ k, has s' (S ℓ) k ↔ has s (S ℓ) k) as Hsame.
    { intros k. rewrite Hs'. split; [by intros [?| ->]|by left]. }
    split; [by eapply node_ok_same|]. intros k n Hk Hkn. eapply node_ok_same; [done|]. by apply Hothers.
Qed.

(** A node that is split below another: the new node goes to the parent first. *)
Lemma push_above s ℓ L h p l mid r fuel :
  tower s (S ℓ) (sums s (S ℓ)) h → branch s (S ℓ) (sums s (S ℓ)) → shaped s → narrow (S (S h)) →
  (S h ≤ fuel + S ℓ)%nat → level p = S ℓ → l ≠ [] → replaces s ℓ L (raw (key p)) (l ++ mid :: r) →
  let s0 := <[nodeKey (S ℓ) (Index mid) := mid :: r]> s in
  (∀ c, parent_of s0 (S ℓ) (Index c) (parent s p) → sums s (S ℓ) (Index c) = None →
    adds (push m fuel (parent s p) c s0) (λ '(_, s'),
      grown s0 (S ℓ) (upd (sums s (S ℓ)) (Index c) (SdkInt.i (Accumulation c))) h s')) →
  adds ((rightsum ← lift (accumulate (mid :: r));
         _ ← push m fuel (parent s p) {| Index := Index mid; Accumulation := rightsum |};
         s ← gets id;
         leftsum ← lift (accumulate l);
         _ ← updateAccumulation fuel (parent s p) {| Index := raw (key p); Accumulation := leftsum |};
         set p l) s0) (λ '(_, s'), grown s ℓ L h s').
Proof.
  intros Ht Hup Hsh Hn Hf Hp Hl (H0 & Hq & Hok & Hothers) s0 Hpush. pose proof (tower_le _ _ _ _ Ht) as Hle.
  assert (narrow (S ℓ)) as HnS by (eapply narrow_le; [exact Hn|lia]).
  assert (∀ k, at_ s0 (S ℓ) k = if decide (k = Index mid) then Some (mid :: r) else at_ s (S ℓ) k) as Hat.
  { intros k. by apply at_insert_level. }
  assert (∀ s', (∀ k, at_ s' (S ℓ) k = at_ s0 (S ℓ) k) → ∀ k, has s' (S ℓ) k ↔ has s (S ℓ) k ∨ k = Index mid) as Hh.
  { intros s' Hs' k. unfold has. rewrite Hs', Hat. case_decide.
    - split; [by right|]. intros _. by eexists.
    - split; [by left|]. by intros [?|?]. }
  destruct (node_ok_split s s0 ℓ L _ l mid r (Hh s0 (λ k, eq_refl)) Hl Hok) as (_ & _ & _ & Hfl & Hne).
  assert (¬ has s (S ℓ) (Index mid)) as Hno.
  { intros H. apply Hne. apply kle_antisym; [by apply Hfl|]. apply Hfl; [done|apply kle_refl]. }
  apply adds_run, adds_lift, accumulate_spec, adds_run. eapply adds_mono; [apply Hpush|].
  - pose proof (parent_spec s p) as (P1 & P2 & _). rewrite Hp in P1, P2. split; [done|].
    assert (∀ k, has s0 (S (S ℓ)) k ↔ has s (S (S ℓ)) k) as E.
    { intros k. unfold has, s0. rewrite at_insert_other; [done|done|eapply narrow_le; [exact Hn|lia]|lia]. }
    split.
    + intros _. rewrite (floor_same s) by done. apply (floor_below s (S ℓ) _ (raw (key p))); [|by apply P2, Hup|done].
      intros k Hk. apply sums_has. by eapply branch_has.
    + intros H. destruct (H []). apply E, Hup.
  - cbn [Index]. apply eq_None_not_Some. by rewrite sums_has.
  - intros [[] s2] (Hsh2 & Hb2 & h' & Hh' & Ht2). cbn [Index Accumulation SdkInt.i] in Ht2. rewrite gets_then. cbn [Datatypes.id].
    assert (∀ k, at_ s2 (S ℓ) k = at_ s0 (S ℓ) k) as Hat2 by (intros k; by apply Hb2).
    destruct (node_ok_split s s2 ℓ L _ l mid r (Hh s2 Hat2) Hl Hok) as (K1 & K2 & K3 & _).
    apply (push_plain s s2 ℓ L h h'); try done; try lia.
    + eapply tower_ext; [exact Ht2|]. intros k. unfold sums, upd. rewrite Hat2, Hat. by case_decide.
    + split; [apply Hh; [done|by left]|]. split; [apply Hh; [done|by left]|]. split; [done|].
      intros k n Hk. rewrite Hat2, Hat. case_decide as Ek; [intros [= <-]; by subst k|].
      intros Hkn. apply K3; [done|done|]. by apply Hothers.
    + eapply agree_below_trans; [by apply (agree_below_insert _ (S ℓ) ℓ); [|lia]|exact Hb2|lia|lia].
Qed.

Lemma cut_at at_ (cs : Node) :
  (1 ≤ at_)%nat → (at_ < length cs)%nat →
  ∃ l mid r, cs !! at_ = Some mid ∧ take at_ cs = l ∧ drop at_ cs = mid :: r ∧ cs = l ++ mid :: r ∧ l ≠ [].
Proof.
  intros H1 H2. destruct (lookup_lt_is_Some_2 cs at_ H2) as [mid Hm].
  exists (take at_ cs), mid, (drop (S at_) cs). rewrite (drop_S _ _ _ Hm). split; [done|]. split; [done|]. split; [done|].
  split; [by rewrite take_drop_middle|]. intros E. apply (f_equal length) in E. rewrite length_take in E. cbn in E. lia.
Qed.
Lemma push_spec s ℓ L h :
  tower s ℓ L h → shaped s → narrow (S (S h)) → (ℓ < h)%nat → ∀ fuel p c,
  (S h ≤ fuel + ℓ)%nat → parent_of s ℓ (Index c) p → L (Index c) = None →
  adds (push m fuel p c s) (λ '(_, s'), grown s ℓ (upd L (Index c) (SdkInt.i (Accumulation c))) h s').
Proof.
  intros Ht Hsh Hn Hlt. remember (h - ℓ)%nat as d eqn:Hd. revert s ℓ L Ht Hsh Hlt Hd.
  induction d as [|d IH]; intros s ℓ L Ht Hsh Hlt Hd fuel p c Hfu Hp HL; [lia|]. rewrite push_unfold.
  destruct Ht as [ℓ L H1 H2|ℓ L h [H1 H2] Ht]; [lia|].
  destruct fuel as [|fuel]; [lia|]. destruct Hp as (Hpl & Hfl & _). specialize (Hfl H1).
  destruct (proj1 Hfl) as [n Hn'].
  rewrite (proj2 (exists_has s p)) by (rewrite Hpl; by exists n). cbn [negb].
  assert (node s p = n) as -> by (unfold node; rewrite (ptrKey_level _ _ Hpl); unfold at_ in Hn'; by rewrite Hn').
  pose proof (H2 _ _ Hn') as Hok. pose proof (find_spec n (Index c) (proj1 Hok)) as Hfind.
  destruct (find n (Index c)) as [idx [|]].
  { exfalso. destruct Hfind as (l & d0 & r & -> & _ & E). destruct Hok as (_ & _ & He).
    destruct (proj1 (He (Index d0) (SdkInt.i (Accumulation d0)))) as [HL' _]; [|rewrite E in HL'; congruence].
    rewrite fmap_app. apply elem_of_app. right. by left. }
  destruct Hfind as (l & r & -> & -> & Hl & Hr).
  destruct (node_ok_insert s ℓ L _ l c r Hok HL Hfl Hl Hr) as [Hok' Hne].
  assert (insertAt (l ++ r) (length l) c = l ++ c :: r) as -> by (unfold insertAt; by rewrite take_app_length, drop_app_length).
  assert (replaces s ℓ (upd L (Index c) (SdkInt.i (Accumulation c))) (raw (key p)) (l ++ c :: r)) as Hrep.
  { split; [done|]. split; [by eexists|]. split; [done|]. intros k n Hk Hkn.
    eapply node_ok_other; [done|exact Hfl|done|by apply H2]. }
  assert (2 ≤ length (l ++ c :: r))%nat as Hlen by (rewrite length_app; destruct l; [done|cbn; lia]).
  cbv zeta. destruct (m <? length (l ++ c :: r))%nat eqn:Em.
  - destruct (cut_at (m / 2 + 1) (l ++ c :: r)) as (l' & mid & r' & -> & -> & -> & Ecs & Hl'); [lia| |].
    { apply Nat.ltb_lt in Em. destruct (decide (m = 0%nat)) as [->|]; [cbn; lia|].
      pose proof (Nat.div_lt m 2). lia. }
    rewrite Hpl. rewrite Ecs in Hrep.
    pose proof (parent_spec s p) as Pup. rewrite Hpl in Pup. pose proof (tower_le _ _ _ _ Ht) as Hle.
    assert (narrow (S ℓ)) as HnS by (eapply narrow_le; [exact Hn|lia]).
    assert (narrow (S (S ℓ))) as HnSS by (eapply narrow_le; [exact Hn|lia]).
    set (s0 := <[nodeKey (S ℓ) (Index mid) := mid :: r']> s).
    assert (exists_ s0 (parent s p) = exists_ s (parent s p)) as ->.
    { apply eq_iff_eq_true. rewrite !exists_has, (proj1 Pup). unfold has, s0. by rewrite at_insert_other by (done || lia). }
    inversion Ht as [? ? T1 T2|? ? ? T1 T2]; subst.
    + rewrite (parent_top s (S ℓ) _ _ Pup) by (intros k; apply T2; (done || lia)). cbn [negb].
      apply adds_run, adds_lift, accumulate_spec, adds_run, adds_lift, accumulate_spec.
      unfold create. rewrite set_then. unfold set, modify, adds.
      rewrite (ptrKey_level _ _ (proj1 Pup)), (ptrKey_level _ _ Hpl).
      assert (raw (key (parent s p)) = []) as -> by (apply Pup; intros k; apply T2; (done || lia)).
      destruct Hrep as (R1 & R2 & R3 & R4). split; [|split; [|exists (S (S ℓ))]].
      * by repeat apply shaped_insert.
      * intros l1 x Hl1 Hx. unfold s0. by rewrite !at_insert_other by (done || lia).
      * split; [lia|]. by apply tower_grow.
    + rewrite (proj2 (exists_has s (parent s p))).
      2:{ rewrite (proj1 Pup). by apply Pup, T1. }
      cbn [negb]. apply push_above; try done; try lia. intros c' Hc' Hs. apply IH; try done; try lia.
      * eapply tower_frame; [exact Ht| |by apply agree_above_insert]. eapply narrow_le; [exact Hn|lia].
      * by apply shaped_insert.
      * by eapply tower_lt; [exact Ht| |apply T1].
  - apply (push_plain s s ℓ _ h h); try done; try lia.
Qed.
End operations.
End SumTreeProps.
