(* ===== verification/SumTreeRefine.v ===== *)
(** The sum tree of osmoutils/sumtree as a client sees it: whatever was added to it, and in whatever order,
    it answers with the sums of what was added to each range of keys.

    The abstract state is the list of what was added to which key; the store of a tree stands for it when
    its leaves hold the sums per key and the levels above are well formed ([ok]). *)
From stdpp Require Import prelude strings list gmap sorting.
From Stdlib Require Import Ascii.
From S2P Require Import Prelude.
From S2P Require Import GoBig.
From S2P Require Import DecimalText.
From S2P Require Import SdkDec.
From S2P Require Import GoState.
From S2P Require Import KV.
From S2P Require Import ZSums.
From S2P Require Import SumTree.
From S2P Require Import SumTreeProps.
Local Open Scope Z_scope.

Module SumTreeRefine.
Import SumTree SumTreeProps.

(** *** Leaves *)

(** The leaves under the node of a level at a key, with their values, from left to right. *)
Fixpoint leaves (s : store) (ℓ : nat) (q : BigText.chars) : list (BigText.chars * Z) :=
  let n := default [] (at_ s ℓ q) in
  match ℓ with
  | O => (λ c, (q, SdkInt.i (Accumulation c))) <$> n
  | S ℓ => n ≫= λ c, leaves s ℓ (Index c)
  end.
Definition leafy (s : store) : Prop := ∀ k n, at_ s 0 k = Some n → ∃ a, n = [{| Index := k; Accumulation := a |}].
Definition sum_in (P : BigText.chars → bool) (es : list (BigText.chars * Z)) : Z :=
  sumZ (λ x, if P x.1 then x.2 else 0) es.
Definition lists (es : list (BigText.chars * Z)) (M : BigText.chars → option Z) : Prop :=
  NoDup es.*1 ∧ ∀ i a, (i, a) ∈ es ↔ M i = Some a.

(** A well-formed tree of which [h] is the level of the root. *)
Definition ok (s : store) (h : nat) : Prop :=
  (1 ≤ h)%nat ∧ shaped s ∧ leafy s ∧ tower s 0 (sums s 0) h.
(** The levels from [ℓ] up are well formed. *)
Definition levels (s : store) (h : nat) : Prop :=
  leafy s ∧ ∀ ℓ, (ℓ < h)%nat → branch s ℓ (sums s ℓ).

Lemma tower_levels s ℓ L h :
  tower s ℓ L h → (∀ i, L i = sums s ℓ i) → ∀ ℓ', (ℓ ≤ ℓ' < h)%nat → branch s ℓ' (sums s ℓ').
Proof.
  induction 1 as [ℓ L H1 H2|ℓ L h Hb Ht IH]; intros HL ℓ' Hl; [lia|].
  destruct (decide (ℓ' = ℓ)) as [->|]; [|by apply IH; [|lia]].
  destruct Hb as [H1 H2]. split; [done|]. intros k n Hk. destruct (H2 k n Hk) as (H3 & H4 & H5).
  split; [done|]. split; [done|]. intros i a. by rewrite H5, HL.
Qed.
Lemma tower_apex s ℓ L h :
  tower s ℓ L h → (∀ i, L i = sums s ℓ i) →
  (∀ k, has s h k ↔ k = []) ∧ ∀ ℓ' k, (h < ℓ')%nat → narrow ℓ' → ¬ has s ℓ' k.
Proof.
  induction 1 as [ℓ L H1 H2|ℓ L h Hb Ht IH]; intros HL; [|by apply IH].
  split; [|done]. intros k. by rewrite <- sums_has, <- HL.
Qed.
Lemma level_down s ℓ k : branch s ℓ (sums s ℓ) → has s (S ℓ) k → has s ℓ k.
Proof. intros Hb Hk. apply sums_has. by eapply branch_has. Qed.

(** The node of a level in whose range a leaf falls, in two steps. *)
Lemma floor_exists s ℓ i : has s (S ℓ) [] → ∃ k, floor_ s (S ℓ) k i.
Proof.
  intros H. destruct (parent_spec s {| level := ℓ; key := Some i |}) as (_ & H2 & _). eauto.
Qed.
Lemma floor_step s ℓ q i :
  branch s ℓ (sums s ℓ) → (ℓ = 0%nat → has s 0 i) → (ℓ ≠ 0%nat → has s ℓ []) →
  floor_ s (S ℓ) q i ↔ ∃ k, floor_ s (S ℓ) q k ∧ floor_ s ℓ k i.
Proof.
  intros Hb H0 H1. split.
  - intros (F1 & F2 & F3). assert (∃ k, floor_ s ℓ k i) as [k Hk].
    { destruct ℓ as [|ℓ]; [|by apply floor_exists, H1]. exists i. split; [by apply H0|]. split; [apply kle_refl|done]. }
    exists k. split; [|done]. destruct Hk as (K1 & K2 & K3). split; [done|]. split.
    + apply K3; [by eapply level_down|done].
    + intros x Hx Hxk. apply F3; [done|]. korder.
  - intros (k & F & K). eapply floor_below; [|done..]. intros x. by apply level_down.
Qed.

Lemma node_children s ℓ h q n :
  levels s h → (ℓ < h)%nat → at_ s (S ℓ) q = Some n →
  node_ok s ℓ (sums s ℓ) q n ∧ ∀ c, c ∈ n → sums s ℓ (Index c) = Some (SdkInt.i (Accumulation c)) ∧
    floor_ s (S ℓ) q (Index c).
Proof.
  intros [_ Hl] Hlt Hn. destruct (Hl ℓ Hlt) as [_ Hb]. specialize (Hb q n Hn). split; [done|].
  intros c Hc. destruct Hb as (_ & _ & He). apply He. by apply list_elem_of_fmap_2 with (f := entry_of).
Qed.
Lemma leaf_at s q : leafy s → has s 0 q → ∃ a, at_ s 0 q = Some [{| Index := q; Accumulation := a |}].
Proof. intros Hl [n Hn]. destruct (Hl q n Hn) as [a ->]. eauto. Qed.
Lemma leaves_leaf s q a : at_ s 0 q = Some [{| Index := q; Accumulation := a |}] → leaves s 0 q = [(q, SdkInt.i a)].
Proof. intros H. cbn [leaves]. by rewrite H. Qed.
Lemma leaves_node s ℓ q n : at_ s (S ℓ) q = Some n → leaves s (S ℓ) q = n ≫= λ c, leaves s ℓ (Index c).
Proof. intros H. cbn [leaves]. by rewrite H. Qed.
Lemma level_least s ℓ h : levels s h → (ℓ < h)%nat → has s ℓ [].
Proof.
  intros [_ Hl] Hlt. destruct (Hl ℓ Hlt) as [H ?]. eapply level_down; [|exact H]. by apply Hl.
Qed.

Lemma elem_of_leaves s h : levels s h → ∀ ℓ q i a, (ℓ ≤ h)%nat → has s ℓ q →
  (i, a) ∈ leaves s ℓ q ↔ sums s 0 i = Some a ∧ floor_ s ℓ q i.
Proof.
  intros Hs. induction ℓ as [|ℓ IH]; intros q i a Hl Hq.
  - destruct (leaf_at s q) as [a0 Ha]; [apply Hs|done|]. rewrite (leaves_leaf _ _ _ Ha), list_elem_of_singleton. split.
    + intros [= -> ->]. unfold sums. rewrite Ha. cbn. rewrite Z.add_0_r. split; [done|].
      split; [done|]. split; [apply kle_refl|done].
    + intros [Hi (_ & F2 & F3)]. assert (has s 0 i) as Hh by (apply sums_has; by eexists).
      assert (i = q) as -> by (apply kle_antisym; [by apply F3, kle_refl|done]).
      unfold sums in Hi. rewrite Ha in Hi. cbn in Hi. rewrite Z.add_0_r in Hi. congruence.
  - destruct Hq as [n Hn]. destruct (node_children s ℓ h q n Hs ltac:(lia) Hn) as [(_ & _ & He) Hc].
    rewrite (leaves_node _ _ _ _ Hn), list_elem_of_bind. split.
    + intros (c & Hi & Hin). destruct (Hc c Hin) as [H1 H2].
      apply IH in Hi as [Hi Hf]; [|lia|apply sums_has; by eexists]. split; [done|].
      eapply floor_below; [|exact H2|exact Hf]. intros x. apply level_down, Hs. lia.
    + intros [Hi Hf]. rewrite floor_step in Hf.
      2: { apply Hs. lia. }
      2: { intros _. apply sums_has. by eexists. }
      2: { intros _. eapply level_least; [exact Hs|lia]. }
      destruct Hf as (k & Hk & Hf).
      destruct (proj2 (sums_has s ℓ k) (proj1 Hf)) as [b Hb].
      pose proof (proj2 (He k b) (conj Hb Hk)) as (c & [= -> ->] & Hin)%list_elem_of_fmap.
      exists c. split; [|done]. apply IH; [lia|apply Hf|done].
Qed.
Lemma leaves_total s h : levels s h → ∀ ℓ q, (ℓ ≤ h)%nat → has s ℓ q → sums s ℓ q = Some (sumZ snd (leaves s ℓ q)).
Proof.
  intros Hs. induction ℓ as [|ℓ IH]; intros q Hl Hq.
  - destruct (leaf_at s q) as [a0 Ha]; [apply Hs|done|]. rewrite (leaves_leaf _ _ _ Ha). unfold sums. by rewrite Ha.
  - destruct Hq as [n Hn]. destruct (node_children s ℓ h q n Hs ltac:(lia) Hn) as [_ Hc].
    rewrite (leaves_node _ _ _ _ Hn). unfold sums. rewrite Hn. cbn [fmap option_fmap option_map]. f_equal.
    clear Hn. induction n as [|c n IHn]; [done|]. cbn [mbind list_bind total sumZ]. rewrite sumZ_app.
    unfold total in IHn. rewrite IHn by (intros d Hd; apply Hc; by right).
    destruct (Hc c ltac:(by left)) as [H1 _]. rewrite IH in H1; [|lia|apply sums_has; by eexists].
    by injection H1 as ->.
Qed.
Lemma leaves_NoDup s h : levels s h → ∀ ℓ q, (ℓ ≤ h)%nat → has s ℓ q → NoDup (leaves s ℓ q).
Proof.
  intros Hs. induction ℓ as [|ℓ IH]; intros q Hl Hq.
  - destruct (leaf_at s q) as [a0 Ha]; [apply Hs|done|]. rewrite (leaves_leaf _ _ _ Ha). apply NoDup_singleton.
  - destruct Hq as [n Hn]. destruct (node_children s ℓ h q n Hs ltac:(lia) Hn) as [(Hsort & _) Hc].
    rewrite (leaves_node _ _ _ _ Hn).
    assert (∀ c, c ∈ n → has s ℓ (Index c)) as Hh by (intros c H; apply sums_has; eexists; by apply Hc).
    apply NoDup_bind.
    + intros c d [i a] H1 H2 Hi Hj. apply (elem_of_leaves s h Hs) in Hi as [_ Hi]; [|lia|by apply Hh].
      apply (elem_of_leaves s h Hs) in Hj as [_ Hj]; [|lia|by apply Hh].
      by apply (sorted_inj n), (floor_unique _ _ _ _ _ Hi Hj).
    + intros c H. apply IH; [lia|by apply Hh].
    + by apply sorted_NoDup.
Qed.

(** *** Splitting the sums at a key *)

Lemma sum_in_app P l r : sum_in P (l ++ r) = sum_in P l + sum_in P r.
Proof. apply sumZ_app. Qed.
Lemma sum_in_all P es : (∀ x, x ∈ es → P x.1 = true) → sum_in P es = sumZ snd es.
Proof. intros H. apply sumZ_ext. intros x Hx. by rewrite H. Qed.
Lemma sum_in_zero P es : (∀ x, x ∈ es → x.2 = 0) → sum_in P es = 0.
Proof.
  intros H. unfold sum_in. rewrite (sumZ_ext _ (λ x, 0 * x.2)); [by rewrite (sumZ_scale 0)|].
  intros x Hx. rewrite (H x Hx). by destruct (P x.1).
Qed.
Lemma sum_in_none P es : (∀ x, x ∈ es → P x.1 = false) → sum_in P es = 0.
Proof.
  intros H. induction es as [|x es IH]; [done|]. unfold sum_in in *. cbn [sumZ].
  rewrite (H x) by (by left). rewrite IH; [done|]. intros y Hy. apply H. by right.
Qed.
Definition lower (k x : BigText.chars) : bool := KV.key_lt x k.
Definition equal (k x : BigText.chars) : bool := bool_decide (x = k).
Definition upper (k x : BigText.chars) : bool := KV.key_lt k x.
(** The three sums of a split. *)
Definition split_at (es : list (BigText.chars * Z)) (k : BigText.chars) (r : SdkInt.t * SdkInt.t * SdkInt.t) : Prop :=
  let '(below, exact_, above) := r in
  SdkInt.i below = sum_in (lower k) es ∧ SdkInt.i exact_ = sum_in (equal k) es ∧
  SdkInt.i above = sum_in (upper k) es.
Lemma one_side k x :
  (klt x k → lower k x = true ∧ equal k x = false ∧ upper k x = false) ∧
  (klt k x → lower k x = false ∧ equal k x = false ∧ upper k x = true).
Proof.
  unfold lower, equal, upper, klt. split; intros H; rewrite H;
    (split; [|split; [apply bool_decide_eq_false_2; intros ->; by apply klt_irrefl in H|]]); try done;
    apply not_true_is_false; intros H'; eapply klt_irrefl; by eapply klt_trans.
Qed.
Lemma split_at_around l mid r k b e a b' a' :
  split_at mid k (b, e, a) → (∀ x, x ∈ l → klt x.1 k) → (∀ x, x ∈ r → klt k x.1) →
  SdkInt.i b' = SdkInt.i b + sumZ snd l → SdkInt.i a' = SdkInt.i a + sumZ snd r →
  split_at (l ++ mid ++ r) k (b', e, a').
Proof.
  intros (Hb & He & Ha) Hl Hr Hb' Ha'. unfold split_at. rewrite !sum_in_app, Hb', Ha', Hb, He, Ha.
  rewrite (sum_in_all (lower k) l), (sum_in_none (lower k) r), (sum_in_none (equal k) l), (sum_in_none (equal k) r),
    (sum_in_none (upper k) l), (sum_in_all (upper k) r); [lia|..];
    intros x Hx; destruct (one_side k x.1) as [S1 S2];
    first [destruct (S1 (Hl x Hx)) as (? & ? & ?)|destruct (S2 (Hr x Hx)) as (? & ? & ?)]; done.
Qed.

Section operations.
  Context {D : sdk.LegacyDec} {Laws : sdk.LegacyDecLaws D} (m : nat).

(** The child in whose range the key falls. *)
Lemma find_range n q k :
  sorted n → (∃ c r, n = c :: r ∧ Index c = q) → kle q k →
  ∃ l c r, n = l ++ c :: r ∧ kle (Index c) k ∧ (∀ d, d ∈ r → klt k (Index d)) ∧
    let '(idx, found) := find n k in
    (if found then Some idx else match idx with O => None | S idx => Some idx end) = Some (length l).
Proof.
  intros Hs (c0 & r0 & Hf & Hq) Hk. pose proof (find_spec n k Hs) as H. destruct (find n k) as [idx [|]].
  - destruct H as (l & c & r & -> & -> & <-). exists l, c, r. split; [done|]. split; [apply kle_refl|]. split; [|done].
    rewrite sorted_app, sorted_cons in Hs. apply Hs.
  - destruct H as (l & r & -> & -> & Hl & Hr). destruct l as [|c l _] using rev_ind.
    + cbn in Hf. subst r. specialize (Hr c0 ltac:(by left)). rewrite Hq in Hr. exfalso. korder.
    + exists l, c, r. rewrite <- app_assoc. split; [done|]. split; [|split; [done|]].
      * apply klt_kle, Hl, elem_of_app. right. by left.
      * by rewrite length_app, Nat.add_comm.
Qed.

Lemma leaves_of_children s ℓ h cs :
  levels s h → (ℓ ≤ h)%nat → (∀ c, c ∈ cs → sums s ℓ (Index c) = Some (SdkInt.i (Accumulation c))) →
  sumZ snd (cs ≫= λ c, leaves s ℓ (Index c)) = total cs.
Proof.
  intros Hs Hl. induction cs as [|c cs IH]; intros Hc; [done|]. cbn [mbind list_bind total sumZ]. rewrite sumZ_app.
  unfold total in IH. rewrite IH by (intros d Hd; apply Hc; by right). specialize (Hc c (ltac:(by left))).
  rewrite (leaves_total s h Hs ℓ) in Hc; [|done|apply sums_has; by eexists]. by injection Hc as ->.
Qed.
Lemma split_spec s h k : levels s h → ∀ ℓ q, (ℓ ≤ h)%nat → has s ℓ q → (ℓ ≠ 0%nat → kle q k) →
  adds (accumulationSplit s ℓ q k) (split_at (leaves s ℓ q) k).
Proof.
  intros Hs. induction ℓ as [|ℓ IH]; intros q Hl Hq Hk; cbn [accumulationSplit].
  - destruct (leaf_at s q) as [a0 Ha]; [apply Hs|done|]. rewrite (leaves_leaf _ _ _ Ha).
    unfold at_ in Ha. unfold leafKey. rewrite Ha. unfold split_at, sum_in. cbn [sumZ fst snd Accumulation].
    destruct (one_side k q) as [H1 H2]. destruct (KV.key_lt q k) eqn:E1; [|destruct (KV.key_lt k q) eqn:E2].
    + destruct (H1 E1) as (-> & -> & ->). cbn. lia.
    + destruct (H2 E2) as (-> & -> & ->). cbn. lia.
    + apply KV.key_lt_false in E1 as [->|E1]; [|congruence]. unfold lower, equal, upper.
      rewrite !E2, bool_decide_eq_true_2 by done. cbn. lia.
  - destruct Hq as [n Hn]. destruct (node_children s ℓ h q n Hs ltac:(lia) Hn) as [Hok Hc].
    rewrite (leaves_node _ _ _ _ Hn). unfold at_ in Hn. rewrite Hn. cbn [default from_option]. unfold id.
    assert (∀ c x, c ∈ n → x ∈ leaves s ℓ (Index c) → floor_ s ℓ (Index c) x.1) as Hfl.
    { intros c [i a] H Hi. apply (elem_of_leaves s h Hs) in Hi; [by apply Hi|lia|]. apply sums_has. eexists. by apply Hc. }
    destruct Hok as (Hsort & Hfirst & _).
    destruct (find_range n q k Hsort Hfirst (Hk ltac:(done))) as (l & c & r & -> & Hck & Hr & Hfind).
    destruct (find (l ++ c :: r) k) as [idx found]. rewrite Hfind. clear Hfind.
    rewrite list_lookup_middle by done.
    assert (c ∈ l ++ c :: r) as Hin by (apply elem_of_app; right; by left).
    apply adds_bind. eapply adds_mono; [apply IH; [lia|apply sums_has; eexists; by apply Hc|done]|].
    intros [[b e] a] Hsplit. rewrite take_app_length.
    assert (drop (S (length l)) (l ++ c :: r) = r) as -> by (rewrite drop_app_ge, Nat.sub_succ_l, Nat.sub_diag by lia; done).
    apply adds_bind, accumulate_spec, adds_bind, adds_add, adds_bind, accumulate_spec, adds_bind, adds_add.
    rewrite bind_app, bind_cons. unfold adds.
    assert (∀ cs, (∀ d, d ∈ cs → d ∈ l ++ c :: r) → sumZ snd (cs ≫= λ c, leaves s ℓ (Index c)) = total cs) as Hsum.
    { intros cs Hcs. apply (leaves_of_children s ℓ h); [done|lia|]. intros d Hd. by apply Hc, Hcs. }
    eapply split_at_around; [exact Hsplit| | | |]; cbn [SdkInt.i].
    + intros x (d & Hx & Hd)%list_elem_of_bind. apply Hfl in Hx; [|apply elem_of_app; by left].
      destruct Hx as (_ & _ & Hx). rewrite sorted_app in Hsort. destruct Hsort as (_ & _ & Hsort).
      specialize (Hsort d c Hd ltac:(by left)). destruct (kle_lt_dec (Index c) x.1) as [H|H]; [|korder].
      apply Hx in H; [korder|]. apply sums_has. eexists. by apply Hc.
    + intros x (d & Hx & Hd)%list_elem_of_bind. apply Hfl in Hx; [|apply elem_of_app; right; by right].
      specialize (Hr d Hd). destruct Hx as (_ & Hx & _). korder.
    + rewrite Hsum; [done|]. intros d Hd. apply elem_of_app. by left.
    + rewrite Hsum; [done|]. intros d Hd. apply elem_of_app. right. by right.
Qed.
End operations.

(** *** The root, and setting a leaf *)

Lemma root_spec s h :
  shaped s → narrow h → (∀ k, has s h k ↔ k = []) → (∀ ℓ k, (h < ℓ)%nat → narrow ℓ → ¬ has s ℓ k) →
  root s = Some {| level := h; key := Some [] |}.
Proof.
  intros Hsh Hn Hh Ha. unfold root, KV.KVStorePrefixIterator.
  assert (has s h []) as [n Htop] by (by apply Hh).
  destruct (reverse _) as [|[a x] l] eqn:E.
  - pose proof (KV.reverse_select_nil _ _ E _ _ Htop) as HF. apply bool_decide_eq_false in HF.
    destruct HF. unfold nodeKey. by eexists.
  - apply KV.reverse_select_cons in E as (Hx & _ & Hmax & _).
    destruct (Hsh a) as (ℓ & k & Hl & ->); [by eexists|].
    assert (nodeKey h [] = nodeKey ℓ k ∨ klt (nodeKey h []) (nodeKey ℓ k)) as Hle.
    { apply (Hmax _ _ Htop). apply bool_decide_eq_true. unfold nodeKey. by eexists. }
    assert (ℓ = h) as ->.
    { destruct (Nat.lt_total ℓ h) as [H|[H|H]]; [|done|by destruct (Ha ℓ k H Hl (ex_intro _ x Hx))].
      pose proof (nodeKey_lt ℓ h k [] Hn H). exfalso. destruct Hle as [E|E]; [rewrite E in H0|]; korder. }
    assert (k = []) as -> by (apply Hh; by eexists).
    do 2 f_equal. change (drop 5 (nodeKey h [])) with (PutUint16 h ++ []). by rewrite Uint16_Put.
Qed.
Lemma climb_spec s h :
  shaped s → narrow h → (∀ k, has s h k ↔ k = []) → (∀ ℓ k, (h < ℓ)%nat → narrow ℓ → ¬ has s ℓ k) → climb s = S h.
Proof. intros H1 H2 H3 H4. unfold climb. by rewrite (root_spec s h). Qed.

Section operations.
  Context {D : sdk.LegacyDec} {Laws : sdk.LegacyDecLaws D} (m : nat).

(** A child that is there already only has its sum changed. *)
Lemma push_found s ℓ L h fuel p c :
  tower s ℓ L h → narrow (S h) → (ℓ < h)%nat → (h ≤ fuel + ℓ)%nat → parent_of s ℓ (Index c) p → is_Some (L (Index c)) →
  push m fuel p c s = updateAccumulation fuel p c s.
Proof.
  intros Ht Hn Hlt Hf (Hpl & Hfl & _) HL. rewrite push_unfold.
  destruct Ht as [ℓ L H1 H2|ℓ L h [H1 H2] Ht]; [lia|]. specialize (Hfl H1). destruct (proj1 Hfl) as [n Hn'].
  rewrite (proj2 (exists_has s p)) by (rewrite Hpl; by exists n). destruct fuel as [|fuel]; [lia|].
  assert (node s p = n) as -> by (unfold node; rewrite (ptrKey_level _ _ Hpl); unfold at_ in Hn'; by rewrite Hn').
  destruct (find_child _ _ _ _ _ _ (H2 _ _ Hn') HL Hfl) as (l & c0 & r & -> & Hfind & _).
  by rewrite Hfind.
Qed.
Lemma push_any s ℓ L h fuel p c :
  tower s ℓ L h → shaped s → narrow (S (S h)) → (ℓ < h)%nat → (S h ≤ fuel + ℓ)%nat → parent_of s ℓ (Index c) p →
  adds (push m fuel p c s) (λ '(_, s'), grown s ℓ (upd L (Index c) (SdkInt.i (Accumulation c))) h s').
Proof.
  intros Ht Hsh Hn Hlt Hf Hp. assert (narrow (S h)) as Hn' by (eapply narrow_le; [exact Hn|lia]).
  destruct (L (Index c)) as [b|] eqn:E; [|by apply push_spec].
  rewrite (push_found s ℓ L h) by (done || lia || by rewrite E; eexists).
  eapply adds_mono; [apply (update_spec s ℓ L h Ht Hn'); [lia|done|by rewrite E; eexists]|].
  intros [[] s'] (H1 & H2 & H3). split; [by eapply shaped_same|]. split; [done|]. exists h. split; [lia|done].
Qed.

Lemma Set_spec k acc s h :
  ok s h → narrow (S (S h)) →
  adds (Set_ m k acc s) (λ '(_, s'), ∃ h', (h ≤ h' ≤ S h)%nat ∧ ok s' h' ∧
    ∀ i, sums s' 0 i = upd (sums s 0) (raw k) (SdkInt.i acc) i).
Proof.
  intros (H1 & Hsh & Hl & Ht) Hn. unfold Set_. cbv zeta. rewrite set_then, gets_then. unfold ptrKey. cbn [level key id].
  set (leaf := {| Index := raw k; Accumulation := acc |}). set (s1 := <[nodeKey 0 (raw k) := [leaf]]> s).
  assert (narrow 0) as H0 by done. assert (narrow h) as Hnh by (eapply narrow_le; [exact Hn|lia]).
  assert (agree_above s s1 0) as Ha by (by apply agree_above_insert).
  assert (∀ i, at_ s1 0 i = if decide (i = raw k) then Some [leaf] else at_ s 0 i) as Hat by (intros i; by apply at_insert_level).
  destruct (tower_apex s 0 _ h Ht (λ i, eq_refl)) as [T1 T2].
  assert (shaped s1) as Hsh1 by (by apply shaped_insert).
  assert (climb s1 = S h) as ->.
  { apply climb_spec; [done|done| |]; unfold has.
    - intros i. rewrite Ha by (done || lia). apply T1.
    - intros ℓ i Hlt Hnl. rewrite Ha by (done || lia). by apply T2. }
  eapply adds_mono.
  - apply (push_any s1 0 (sums s 0) h); [by eapply tower_frame|done|done|lia|lia|]. apply (parent_spec s1 {| level := 0; key := k |}).
  - intros [[] s2] (Hsh2 & Hb & h' & Hh & Ht2). cbn [Index Accumulation leaf] in Ht2. exists h'. split; [done|].
    assert (∀ i, at_ s2 0 i = at_ s1 0 i) as Hat2 by (intros i; by apply Hb).
    assert (∀ i, sums s2 0 i = upd (sums s 0) (raw k) (SdkInt.i acc) i) as HM.
    { intros i. unfold sums, upd. rewrite Hat2, Hat. repeat case_decide; try done. cbn. by rewrite Z.add_0_r. }
    split; [|done]. split; [lia|]. split; [done|]. split; [|by eapply tower_ext].
    intros i n. rewrite Hat2, Hat. case_decide; [|apply Hl]. intros [= <-]. subst i. by exists acc.
Qed.
End operations.

(** *** The tree as a client sees it *)

Section client.
  Context {D : sdk.LegacyDec} (m : nat).
(** A new tree to which amounts are added, one after the other. *)
Fixpoint increases (ops : list (BigText.chars * SdkInt.t)) : M store unit :=
  match ops with [] => mret tt | (k, amt) :: ops => _ ← Increase m (Some k) amt; increases ops end.
Definition fill (ops : list (BigText.chars * SdkInt.t)) : M store unit := _ ← NewTree m; increases ops.
(** What was added to the keys that satisfy [P]. *)
Definition added (P : BigText.chars → bool) (ops : list (BigText.chars * SdkInt.t)) : Z :=
  sumZ (λ op, if P op.1 then SdkInt.i op.2 else 0) ops.
End client.

(** The abstract state: the leaves of the tree hold what was added to each key. *)
Definition holds (s : store) (ops : list (BigText.chars * SdkInt.t)) : Prop :=
  ∀ P es, lists es (sums s 0) → sum_in P es = added P ops.

Lemma lists_perm es es' M : es ≡ₚ es' → lists es M → lists es' M.
Proof. intros E [H1 H2]. split; [by rewrite <- E|]. intros i a. by rewrite <- E. Qed.
(** A list of what is stored after an update is one of what was before, but for an entry. *)
Lemma lists_upd es M k b :
  lists es (upd M k b) → ∃ es', es ≡ₚ (k, b) :: es' ∧ lists (match M k with Some a => (k, a) :: es' | None => es' end) M.
Proof.
  intros Hes. assert ((k, b) ∈ es) as Hin by (apply Hes; apply upd_eq).
  apply elem_of_Permutation in Hin as [es' E]. exists es'. split; [done|].
  pose proof (lists_perm _ _ _ E Hes) as [Hnd H]. rewrite fmap_cons in Hnd. apply NoDup_cons in Hnd as [Hk Hnd].
  cbn [fst] in Hk.
  assert (∀ i a, (i, a) ∈ es' ↔ i ≠ k ∧ M i = Some a) as Hes'.
  { intros i a. split.
    - intros Hi. assert (i ≠ k) as Hne by (intros ->; apply Hk, list_elem_of_fmap; by exists (k, a)).
      split; [done|]. rewrite <- (upd_ne M k b) by done. apply H. by right.
    - intros [Hne Hi]. rewrite <- (upd_ne M k b) in Hi by done. apply H in Hi as [[= -> _]|Hi]%elem_of_cons; done. }
  destruct (M k) as [a|] eqn:Ek; split.
  - by constructor.
  - intros i x. rewrite elem_of_cons, Hes'. destruct (decide (i = k)) as [->|Hne].
    + rewrite Ek. split; [by intros [[= ->]|[? _]]|]. intros [= ->]. by left.
    + split; [by intros [[= -> _]|[_ ?]]|]. intros Hi. by right.
  - done.
  - intros i x. rewrite Hes'. split; [by intros [_ ?]|]. intros Hi. split; [|done]. intros ->. congruence.
Qed.
Lemma sum_in_cons P x es : sum_in P (x :: es) = (if P x.1 then x.2 else 0) + sum_in P es.
Proof. done. Qed.
Lemma sum_in_perm P es es' : es ≡ₚ es' → sum_in P es = sum_in P es'.
Proof. apply sumZ_perm. Qed.
Lemma holds_increase s s' ops k amt :
  holds s ops → (∀ i, sums s' 0 i = upd (sums s 0) k (default 0 (sums s 0 k) + SdkInt.i amt) i) →
  holds s' (ops ++ [(k, amt)]).
Proof.
  intros Hh HM P es Hes. assert (lists es (upd (sums s 0) k (default 0 (sums s 0 k) + SdkInt.i amt))) as Hes'.
  { destruct Hes as [H1 H2]. split; [done|]. intros i a. by rewrite H2, HM. }
  apply lists_upd in Hes' as (r & E & Hr). apply (Hh P) in Hr. rewrite (sum_in_perm _ _ _ E), sum_in_cons.
  unfold added in *. rewrite sumZ_app, <- Hr. cbn [fst snd sumZ].
  destruct (sums s 0 k); cbn [default from_option id]; rewrite ?sum_in_cons; cbn [fst snd]; destruct (P k); unfold id; lia.
Qed.

Definition start : store :=
  <[nodeKey 1 [] := [{| Index := []; Accumulation := SdkInt.mk 0 |}]]>
    (<[nodeKey 0 [] := [{| Index := []; Accumulation := SdkInt.mk 0 |}]]> ∅).
Lemma NewTree_start `{D : sdk.LegacyDec} m : NewTree m ∅ = Ok (tt, start).
Proof. reflexivity. Qed.
Lemma start_at ℓ k :
  narrow ℓ → at_ start ℓ k = if decide (k = [] ∧ (ℓ ≤ 1)%nat) then Some [{| Index := []; Accumulation := SdkInt.mk 0 |}] else None.
Proof.
  intros Hn. unfold start. rewrite at_insert by done. case_decide as E1.
  - destruct E1 as [-> ->]. by rewrite decide_True.
  - rewrite at_insert by done. repeat case_decide; try done; [naive_solver lia|].
    assert (ℓ = 0 ∨ ℓ = 1)%nat as [-> | ->] by lia; naive_solver.
Qed.
Lemma start_ok : ok start 1 ∧ holds start [].
Proof.
  assert (∀ ℓ k, narrow ℓ → has start ℓ k ↔ k = [] ∧ (ℓ ≤ 1)%nat) as Hh.
  { intros ℓ k Hn. unfold has. rewrite start_at by done. case_decide; [|by split; [intros [? [=]]|]].
    split; [done|]. intros _. by eexists. }
  assert (∀ k, sums start 0 k = if decide (k = []) then Some 0 else None) as HM.
  { intros k. unfold sums. rewrite start_at by done. case_decide as E1; [destruct E1 as [-> _]; done|].
    case_decide; [|done]. subst k. destruct E1. split; [done|lia]. }
  assert (∀ ℓ k n, narrow ℓ → at_ start ℓ k = Some n → k = [] ∧ n = [{| Index := []; Accumulation := SdkInt.mk 0 |}]) as Hat.
  { intros ℓ k n Hn. rewrite start_at by done. case_decide as E; [|done]. intros [= <-]. by destruct E. }
  split; [split; [done|split; [|split]]|].
  - unfold start. by repeat apply shaped_insert; [intros a [? Ha]; rewrite lookup_empty in Ha|..].
  - intros k n [-> ->]%Hat; [by eexists|done].
  - apply tower_up; [split; [by apply Hh|]|apply tower_top].
    + intros k n [-> ->]%Hat; [|done]. split; [repeat constructor|]. split; [by eexists _, []|].
      intros i a. rewrite HM. cbn [fmap list_fmap]. rewrite list_elem_of_singleton. case_decide as E.
      * subst i. split; [|by intros [[= <-] _]]. intros [= ->]. split; [done|]. split; [by apply Hh|].
        split; [apply kle_nil|]. intros x [-> _]%Hh; [intros _; apply kle_refl|done].
      * split; [by intros [= -> _]|by intros [[=] _]].
    + intros i. rewrite sums_has, Hh by done. split; [by intros [? _]|]. intros ->. split; [done|lia].
    + intros ℓ k Hl Hn [_ ?]%Hh; [lia|done].
  - intros P es [_ He]. apply sum_in_zero. intros [i a] Hi. apply He in Hi. rewrite HM in Hi.
    case_decide; [|done]. by injection Hi as <-.
Qed.

Section refinement.
  Context {D : sdk.LegacyDec} {Laws : sdk.LegacyDecLaws D} (m : nat).

Lemma ok_levels s h : ok s h → levels s h.
Proof. intros (_ & _ & Hl & Ht). split; [done|]. intros ℓ Hlt. apply (tower_levels s 0 _ h Ht (λ i, eq_refl)). lia. Qed.
Lemma Get_spec s k : leafy s → Get s k = Ok (SdkInt.mk (default 0 (sums s 0 k))).
Proof.
  intros Hl. unfold Get, sums, leafKey. pose proof (Hl k) as Hk. unfold at_ in Hk |- *.
  destruct (s !! nodeKey 0 k) as [n|]; [|done]. destruct (Hk n eq_refl) as [[a] ->]. cbn. by rewrite Z.add_0_r.
Qed.
Lemma Increase_spec k amt ops s h :
  ok s h → holds s ops → narrow (S (S h)) →
  adds (Increase m (Some k) amt s) (λ '(_, s'), ∃ h', (h' ≤ S h)%nat ∧ ok s' h' ∧ holds s' (ops ++ [(k, amt)])).
Proof.
  intros Hok Hh Hn. unfold Increase. rewrite gets_then. cbn [id raw default from_option].
  apply adds_run. rewrite Get_spec by apply Hok. cbn [lift adds]. apply adds_run, adds_lift, adds_add.
  eapply adds_mono; [by apply (Set_spec m _ _ s h)|]. intros [[] s'] (h' & Hh' & Hok' & HM).
  exists h'. split; [lia|]. split; [done|]. by eapply holds_increase.
Qed.
Lemma increases_spec ops ops0 s h :
  ok s h → holds s ops0 → narrow (2 + h + length ops) →
  adds (increases m ops s) (λ '(_, s'), ∃ h', narrow h' ∧ ok s' h' ∧ holds s' (ops0 ++ ops)).
Proof.
  revert ops0 s h. induction ops as [|[k amt] ops IH]; intros ops0 s h Hok Hh Hn; cbn [increases].
  - exists h. rewrite app_nil_r. split; [|done]. eapply narrow_le; [exact Hn|lia].
  - apply adds_run. eapply adds_mono; [eapply Increase_spec; [done|done|]|].
    { eapply narrow_le; [exact Hn|]. cbn. lia. }
    intros [[] s'] (h' & Hle & Hok' & Hh'). rewrite cons_middle, app_assoc. eapply IH; [done|done|].
    eapply narrow_le; [exact Hn|]. cbn. lia.
Qed.
Lemma fill_spec ops :
  Z.of_nat (length ops) < 65000 → adds (fill m ops ∅) (λ '(_, s), ∃ h, narrow h ∧ ok s h ∧ holds s ops).
Proof.
  intros Hl. unfold fill. apply adds_run. rewrite NewTree_start. cbn [adds].
  destruct start_ok as [Hok Hh]. apply (increases_spec ops [] _ 1); [done|done|]. unfold narrow. lia.
Qed.

Lemma ok_leaves s h : narrow h → ok s h → lists (leaves s h []) (sums s 0).
Proof.
  intros Hn Hok. pose proof (ok_levels _ _ Hok) as Hs. destruct Hok as (H1 & Hsh & Hl & Ht).
  destruct (tower_apex s 0 _ h Ht (λ i, eq_refl)) as [T1 T2]. assert (has s h []) as H0 by (by apply T1).
  assert (∀ i a, (i, a) ∈ leaves s h [] ↔ sums s 0 i = Some a) as He.
  { intros i a. rewrite (elem_of_leaves s h Hs) by done. split; [by intros [? _]|]. intros Hi. split; [done|].
    split; [done|]. split; [apply kle_nil|]. intros x ->%T1 _. apply kle_refl. }
  split; [|done]. apply NoDup_fmap_fst; [|by eapply leaves_NoDup].
  intros i a b Ha Hb. apply He in Ha, Hb. congruence.
Qed.
Definition split_of (ops : list (BigText.chars * SdkInt.t)) (k : BigText.chars) (r : SdkInt.t * SdkInt.t * SdkInt.t) : Prop :=
  let '(below, exact_, above) := r in
  SdkInt.i below = added (lower k) ops ∧ SdkInt.i exact_ = added (equal k) ops ∧ SdkInt.i above = added (upper k) ops.
Lemma SplitAcc_spec s h ops k : narrow h → ok s h → holds s ops → adds (SplitAcc s k) (split_of ops k).
Proof.
  intros Hn Hok Hh. pose proof (ok_levels _ _ Hok) as Hs. pose proof Hok as Hok'.
  destruct Hok as (H1 & Hsh & Hl & Ht). destruct (tower_apex s 0 _ h Ht (λ i, eq_refl)) as [T1 T2].
  unfold SplitAcc. rewrite (root_spec s h) by done. cbn [level key raw default from_option id].
  assert (has s h []) as H0 by (by apply T1).
  eapply adds_mono; [apply (split_spec s h k Hs h []); [done|done|intros _; apply kle_nil]|].
  pose proof (ok_leaves s h Hn Hok') as Hls.
  intros [[b e] a] (Hb & He & Ha). rewrite !(Hh _ _ Hls) in *. done.
Qed.

Lemma sum_in_equal es M k : lists es M → sum_in (equal k) es = default 0 (M k).
Proof.
  intros [Hnd He]. destruct (M k) as [a|] eqn:Ek.
  - apply He, elem_of_Permutation in Ek as [r E]. rewrite (sum_in_perm _ _ _ E), sum_in_cons. cbn [fst snd].
    unfold equal at 1. rewrite bool_decide_eq_true_2 by done. rewrite sum_in_none; [cbn; lia|].
    intros x Hx. apply bool_decide_eq_false_2. intros <-. rewrite E, fmap_cons in Hnd. apply NoDup_cons in Hnd as [Hnd _].
    apply Hnd, list_elem_of_fmap. by exists x.
  - apply sum_in_none. intros [i a] Hi. apply bool_decide_eq_false_2. intros E. cbn in E. subst i.
    apply He in Hi. congruence.
Qed.
Lemma added_or P Q R ops :
  (∀ x, R x = P x || Q x) → (∀ x, P x && Q x = false) → added R ops = added P ops + added Q ops.
Proof.
  intros HR HD. unfold added. rewrite <- sumZ_add. apply sumZ_ext. intros [x a] _. cbn [fst snd].
  specialize (HD x). rewrite HR. destruct (P x), (Q x); (done || cbn; lia).
Qed.
Lemma key_sides k x :
  negb (KV.key_lt k x) = lower k x || equal k x ∧ lower k x && equal k x = false ∧
  negb (KV.key_lt x k) = equal k x || upper k x ∧ equal k x && upper k x = false.
Proof.
  destruct (one_side k x) as [H1 H2]. destruct (kle_lt_dec x k) as [[H|H]%kle_cases|H].
  - destruct (H1 H) as (E1 & E2 & E3). rewrite E1, E2, E3. unfold lower, upper in E1, E3. by rewrite E1, E3.
  - subst x. unfold lower, upper, equal. rewrite KV.key_lt_irrefl. by rewrite bool_decide_eq_true_2.
  - destruct (H2 H) as (E1 & E2 & E3). rewrite E1, E2, E3. unfold lower, upper in E1, E3. by rewrite E1, E3.
Qed.
(** The keys from [start] to [stop], both included; none is no bound. *)
Definition within (start stop : bytes) (x : BigText.chars) : bool :=
  match start with Some a => negb (KV.key_lt x a) | None => true end &&
  match stop with Some b => negb (KV.key_lt b x) | None => true end.
Lemma within_upper a b : kle a b →
  (∀ x, within (Some a) None x = within (Some a) (Some b) x || upper b x) ∧
  ∀ x, within (Some a) (Some b) x && upper b x = false.
Proof.
  intros Hab. unfold within, upper. split; intros x; destruct (KV.key_lt b x) eqn:E; cbn [negb];
    rewrite ?andb_true_r, ?andb_false_r, ?orb_false_r; try done.
  assert (KV.key_lt x a = false) as ->; [|done]. change (kle a x). change (klt b x) in E. korder.
Qed.

(** C17. A tree to which amounts were added answers with the sums of what was added: at a key, on the two sides
    of a key, up to a key, from a key on, and between two keys, both included; or it fails because a sum does
    not fit the SDK's integers.  The total value, which asks for the range without bounds, is only what
    was added to the empty key. *)
Theorem tree_adds_up ops :
  Z.of_nat (length ops) < 65000 →
  adds (fill m ops ∅) (λ '(_, s),
    (∀ k, Get s k = Ok (SdkInt.mk (added (equal k) ops)) ∧ adds (SplitAcc s k) (split_of ops k) ∧
      adds (PrefixSum s (Some k)) (λ r, SdkInt.i r = added (within None (Some k)) ops) ∧
      adds (SubsetAccumulation s (Some k) None) (λ r, SdkInt.i r = added (within (Some k) None) ops)) ∧
    (∀ a b, kle a b →
      adds (SubsetAccumulation s (Some a) (Some b)) (λ r, SdkInt.i r = added (within (Some a) (Some b)) ops)) ∧
    adds (TotalAccumulatedValue s) (λ r, SdkInt.i r = added (equal []) ops)).
Proof.
  intros Hl. eapply adds_mono; [by apply fill_spec|]. intros [[] s] (h & Hn & Hok & Hh).
  assert (∀ k, adds (SplitAcc s k) (split_of ops k)) as Hsplit by (intros k; by eapply SplitAcc_spec).
  assert (∀ k, adds (SubsetAccumulation s None k) (λ r, SdkInt.i r = added (within None (Some (raw k))) ops)) as Hpre.
  { intros k. apply adds_bind. eapply adds_mono; [apply Hsplit|]. intros [[b e] a] (Hb & He & _).
    apply adds_add. cbn [SdkInt.i]. rewrite Hb, He. symmetry. apply added_or; intros x; apply (key_sides (raw k) x). }
  split; [|split].
  - intros k. split; [|split; [apply Hsplit|split; [apply (Hpre (Some k))|]]].
    + rewrite Get_spec by apply Hok. rewrite <- (Hh _ _ (ok_leaves _ _ Hn Hok)).
      by rewrite (sum_in_equal _ _ _ (ok_leaves _ _ Hn Hok)).
    + apply adds_bind. eapply adds_mono; [apply Hsplit|]. intros [[b e] a] (_ & He & Ha).
      apply adds_add. cbn [SdkInt.i]. rewrite Ha, He. symmetry. apply added_or; intros x; unfold within;
        rewrite ?andb_true_r; apply (key_sides k x).
  - intros a b Hab. apply adds_bind. eapply adds_mono; [apply Hsplit|]. intros [[b1 e1] a1] (_ & He1 & Ha1).
    apply adds_bind. eapply adds_mono; [apply Hsplit|]. intros [[b2 e2] a2] (_ & _ & Ha2).
    apply adds_bind, adds_add, adds_sub. cbn [SdkInt.i].
    rewrite He1, Ha1, Ha2, <- (added_or (equal a) (upper a) (within (Some a) None)).
    + rewrite (added_or (within (Some a) (Some b)) (upper b) (within (Some a) None)); [lia|apply (within_upper a b Hab)..].
    + intros x. unfold within. rewrite andb_true_r. apply (key_sides a x).
    + intros x. apply (key_sides a x).
  - eapply adds_mono; [apply (Hpre None)|]. intros r ->. cbn [raw default from_option].
    apply sumZ_ext. intros [x v] _. cbn [fst snd]. unfold within. by destruct x.
Qed.
End refinement.

(** *** Examples *)

#[local] Existing Instance sdk.ref_dec.
#[local] Existing Instance sdk.ref_dec_laws.
Definition demo_key (n : nat) : BigText.chars := PutUint16 n.
Definition demo_ops : list (BigText.chars * SdkInt.t) := (λ n, (demo_key n, SdkInt.mk (Z.of_nat n))) <$> seq 1 12.
Definition demo_runs {A} (m : nat) (o : M store A) : outcome A :=
  '(x, _) ← (_ ← fill m demo_ops; o) ∅; Ok x.

Lemma tree_adds_up_witness :
  demo_runs 3 (s ← gets id; lift (SubsetAccumulation s (Some (demo_key 3)) (Some (demo_key 7)))) = Ok (SdkInt.mk 25) ∧
  adds (fill 3 demo_ops ∅) (λ '(_, s),
    adds (SubsetAccumulation s (Some (demo_key 3)) (Some (demo_key 7))) (λ r, SdkInt.i r = 25)).
Proof.
  split; [vm_compute; reflexivity|].
  eapply adds_mono; [apply (tree_adds_up 3 demo_ops); vm_compute; reflexivity|].
  intros [[] s] (_ & H & _). apply (H (demo_key 3) (demo_key 7)). vm_compute. reflexivity.
Defined.

(** Without its first child a node keeps its key, and a query between the two has no child to go to. *)
Lemma removed_first_child :
  demo_runs 3 (_ ← Remove 3 (Some (demo_key 4)); s ← gets id; lift (SplitAcc s (demo_key 4)))
  = Panic "index out of range [-1]".
Proof. vm_compute. reflexivity. Qed.
(** After two nodes are merged their parent has the sum of the left one only: of the leaves below the
    tenth, 1, 6, 7 and 9 are left, but not counted. *)
Lemma merged_sum_lost :
  demo_runs 5 (_ ← Remove 5 (Some (demo_key 2)); _ ← Remove 5 (Some (demo_key 8)); _ ← Remove 5 (Some (demo_key 3));
               _ ← Remove 5 (Some (demo_key 4)); _ ← Remove 5 (Some (demo_key 5));
               s ← gets id; lift (SplitAcc s (demo_key 10)))
  = Ok (SdkInt.mk (1 + 9), SdkInt.mk 10, SdkInt.mk (11 + 12)).
Proof. vm_compute. reflexivity. Qed.
End SumTreeRefine.
