(* ===== verification/Accum.v ===== *)
(** Accumulators: osmoutils/accum (accum.go, accum_helpers.go, options.go, prefix.go).

    An accumulator is a global value per share with a total of shares; a position records its shares,
    the value at which it was last settled and what it has earned so far.  The store holds the
    accumulators under their names and the positions under pairs of names.  An [AccumulatorObject] is
    the caller's copy of an accumulator: the methods with a pointer receiver return the updated copy.
    Decoding a stored record never fails, because only these functions write them. *)
From stdpp Require Import prelude strings list gmap.
From Stdlib Require Import Ascii.
From S2P Require Import Prelude.
From S2P Require Import GoState.
From S2P Require Import SdkDec.
From S2P Require Import SdkCoins.
Local Open Scope Z_scope.

Module Accum.
Inductive Options : Type := mkOptions.

(** accum.proto's [AccumulatorContent] and [Record]. *)
Record AccumulatorContent := { AccumValue : coin.DecCoins; TotalShares : Dec.t }.
Record PositionRecord := {
  NumShares : Dec.t;
  AccumValuePerShare : coin.DecCoins;
  UnclaimedRewardsTotal : coin.DecCoins;
  POptions : option Options
}.

Record accumStore := {
  accumulators : gmap string AccumulatorContent;
  records : gmap (string * string) PositionRecord
}.

Record AccumulatorObject := {
  name : string;
  valuePerShare : coin.DecCoins;
  totalShares : Dec.t
}.

Definition with_shares (a : AccumulatorObject) (n : Dec.t) : AccumulatorObject :=
  {| name := name a; valuePerShare := valuePerShare a; totalShares := n |}.

Section with_coins.
  Context {D : sdk.LegacyDec} {C : coin.CoinOps}.

Definition put_accumulator (n : string) (c : AccumulatorContent) (s : accumStore) : accumStore :=
  {| accumulators := <[n := c]> (accumulators s); records := records s |}.
Definition put_record (k : string * string) (r : PositionRecord) (s : accumStore) : accumStore :=
  {| accumulators := accumulators s; records := <[k := r]> (records s) |}.
Definition del_record (k : string * string) (s : accumStore) : accumStore :=
  {| accumulators := accumulators s; records := delete k (records s) |}.

(** [strings.Contains(name, "||")] *)
Fixpoint contains_separator (s : string) : bool :=
  match s with
  | String "|" (String "|" _) => true
  | String _ s => contains_separator s
  | EmptyString => false
  end.

Definition zeroDec : Dec.t := Dec.mk 0.

(** *** Accumulators *)

Definition setAccumulator (accum : AccumulatorObject) (value : coin.DecCoins) (shares : Dec.t)
    : M accumStore unit :=
  _ ← require (negb (contains_separator (name accum))) "Accumulator name cannot contain '||'";
  modify (put_accumulator (name accum) {| AccumValue := value; TotalShares := shares |}).

Definition MakeAccumulator (accumName : string) : M accumStore unit :=
  has ← gets (λ s, accumulators s !! accumName);
  _ ← require (negb (bool_decide (is_Some has))) "Accumulator with given name already exists in store";
  initAccumValue ← lift (coin.NewDecCoins []);
  let newAccum :=
    {| name := accumName; valuePerShare := initAccumValue; totalShares := zeroDec |} in
  setAccumulator newAccum initAccumValue zeroDec.

Definition MakeAccumulatorWithValueAndShare (accumName : string) (accumValue : coin.DecCoins)
    (shares : Dec.t) : M accumStore unit :=
  has ← gets (λ s, accumulators s !! accumName);
  _ ← require (negb (bool_decide (is_Some has))) "Accumulator with given name already exists in store";
  setAccumulator {| name := accumName; valuePerShare := accumValue; totalShares := shares |}
    accumValue shares.

Definition OverwriteAccumulatorUnsafe (accumName : string) (accumValue : coin.DecCoins)
    (shares : Dec.t) : M accumStore unit :=
  has ← gets (λ s, accumulators s !! accumName);
  _ ← require (bool_decide (is_Some has)) "Accumulator with given name does not exist in store";
  setAccumulator {| name := accumName; valuePerShare := accumValue; totalShares := shares |}
    accumValue shares.

Definition GetAccumulator (accumName : string) : M accumStore AccumulatorObject :=
  found ← gets (λ s, accumulators s !! accumName);
  match found with
  | None => throw "AccumDoesNotExistError"
  | Some c => mret {| name := accumName; valuePerShare := AccumValue c; totalShares := TotalShares c |}
  end.

Definition AddToAccumulator (accum : AccumulatorObject) (amt : coin.DecCoins)
    : M accumStore AccumulatorObject :=
  value ← lift (coin.DecAdd (valuePerShare accum) amt);
  let accum := {| name := name accum; valuePerShare := value; totalShares := totalShares accum |} in
  _ ← ignore_error (setAccumulator accum value (totalShares accum));
  mret accum.

(** *** Positions *)

Definition GetPosition (accum : AccumulatorObject) (posName : string)
    : M accumStore PositionRecord :=
  found ← gets (λ s, records s !! (name accum, posName));
  match found with
  | None => throw "NoPositionError"
  | Some position => mret position
  end.

Definition HasPosition (accum : AccumulatorObject) (posName : string) : M accumStore bool :=
  gets (λ s, bool_decide (is_Some (records s !! (name accum, posName)))).

Definition GetPositionSize (accum : AccumulatorObject) (posName : string) : M accumStore Dec.t :=
  position ← GetPosition accum posName; mret (NumShares position).

(** [MustSet] panics only when a value cannot be encoded. *)
Definition initOrUpdatePosition (accum : AccumulatorObject) (accumulatorValuePerShare : coin.DecCoins)
    (index : string) (numShareUnits : Dec.t) (unclaimedRewardsTotal : coin.DecCoins)
    (options : option Options) : M accumStore unit :=
  modify (put_record (name accum, index)
    {| NumShares := numShareUnits; AccumValuePerShare := accumulatorValuePerShare;
       UnclaimedRewardsTotal := unclaimedRewardsTotal; POptions := options |}).

Definition GetTotalRewards (accum : AccumulatorObject) (position : PositionRecord)
    : outcome coin.DecCoins :=
  diff ← coin.DecSub (valuePerShare accum) (AccumValuePerShare position);
  accumulatorRewards ← coin.MulDec diff (NumShares position);
  coin.DecAdd (UnclaimedRewardsTotal position) accumulatorRewards.

Definition NewPositionIntervalAccumulation (accum : AccumulatorObject) (posName : string)
    (numShareUnits : Dec.t) (intervalAccumulationPerShare : coin.DecCoins) (options : option Options)
    : M accumStore AccumulatorObject :=
  unclaimed ← lift (coin.NewDecCoins []);
  _ ← initOrUpdatePosition accum intervalAccumulationPerShare posName numShareUnits unclaimed options;
  updatedAccum ← GetAccumulator (name accum);
  shares ← lift (sdk.Add (totalShares updatedAccum) numShareUnits);
  let accum := with_shares accum shares in
  _ ← setAccumulator accum (valuePerShare accum) (totalShares accum);
  mret accum.

Definition NewPosition (accum : AccumulatorObject) (posName : string) (numShareUnits : Dec.t)
    (options : option Options) : M accumStore AccumulatorObject :=
  NewPositionIntervalAccumulation accum posName numShareUnits (valuePerShare accum) options.

Definition AddToPositionIntervalAccumulation (accum : AccumulatorObject) (posName : string)
    (newShares : Dec.t) (intervalAccumulationPerShare : coin.DecCoins)
    : M accumStore AccumulatorObject :=
  _ ← require (sdk.IsPositive newShares)
        "Attempted to add zero or negative number of shares to a position";
  position ← GetPosition accum posName;
  unclaimedRewards ← lift (GetTotalRewards accum position);
  oldNumShares ← GetPositionSize accum posName;
  shares ← lift (sdk.Add oldNumShares newShares);
  _ ← initOrUpdatePosition accum intervalAccumulationPerShare posName shares unclaimedRewards
        (POptions position);
  updatedAccum ← GetAccumulator (name accum);
  total ← lift (sdk.Add (totalShares updatedAccum) newShares);
  let accum := with_shares accum total in
  _ ← setAccumulator accum (valuePerShare accum) (totalShares accum);
  mret accum.

Definition AddToPosition (accum : AccumulatorObject) (posName : string) (newShares : Dec.t)
    : M accumStore AccumulatorObject :=
  AddToPositionIntervalAccumulation accum posName newShares (valuePerShare accum).

Definition RemoveFromPositionIntervalAccumulation (accum : AccumulatorObject) (posName : string)
    (numSharesToRemove : Dec.t) (intervalAccumulationPerShare : coin.DecCoins)
    : M accumStore AccumulatorObject :=
  _ ← require (sdk.IsPositive numSharesToRemove) "Attempted to remove no/negative shares";
  position ← GetPosition accum posName;
  _ ← require (negb (sdk.GT numSharesToRemove (NumShares position)))
        "Attempted to remove more shares than exist in the position";
  unclaimedRewards ← lift (GetTotalRewards accum position);
  oldNumShares ← GetPositionSize accum posName;
  shares ← lift (sdk.Sub oldNumShares numSharesToRemove);
  _ ← initOrUpdatePosition accum intervalAccumulationPerShare posName shares unclaimedRewards
        (POptions position);
  updatedAccum ← GetAccumulator (name accum);
  total ← lift (sdk.Sub (totalShares updatedAccum) numSharesToRemove);
  let accum := with_shares accum total in
  _ ← setAccumulator accum (valuePerShare accum) (totalShares accum);
  mret accum.

Definition RemoveFromPosition (accum : AccumulatorObject) (posName : string)
    (numSharesToRemove : Dec.t) : M accumStore AccumulatorObject :=
  RemoveFromPositionIntervalAccumulation accum posName numSharesToRemove (valuePerShare accum).

Definition UpdatePositionIntervalAccumulation (accum : AccumulatorObject) (posName : string)
    (numShares : Dec.t) (intervalAccumulationPerShare : coin.DecCoins)
    : M accumStore AccumulatorObject :=
  _ ← require (negb (sdk.IsZero numShares)) "ZeroSharesError";
  if sdk.IsNegative numShares then
    RemoveFromPositionIntervalAccumulation accum posName (sdk.Neg numShares)
      intervalAccumulationPerShare
  else AddToPositionIntervalAccumulation accum posName numShares intervalAccumulationPerShare.

Definition UpdatePosition (accum : AccumulatorObject) (posName : string) (numShares : Dec.t)
    : M accumStore AccumulatorObject :=
  UpdatePositionIntervalAccumulation accum posName numShares (valuePerShare accum).

Definition SetPositionIntervalAccumulation (accum : AccumulatorObject) (posName : string)
    (intervalAccumulationPerShare : coin.DecCoins) : M accumStore unit :=
  position ← GetPosition accum posName;
  initOrUpdatePosition accum intervalAccumulationPerShare posName (NumShares position)
    (UnclaimedRewardsTotal position) (POptions position).

Definition deletePosition (accum : AccumulatorObject) (posName : string) : M accumStore unit :=
  modify (del_record (name accum, posName)).

Definition ClaimRewards (accum : AccumulatorObject) (posName : string)
    : M accumStore (coin.Coins * coin.DecCoins) :=
  position ← GetPosition accum posName;
  totalRewards ← lift (GetTotalRewards accum position);
  '(truncatedRewardsTotal, dust) ← lift (coin.TruncateDecimal totalRewards);
  _ ← (if sdk.IsZero (NumShares position) then deletePosition accum posName
       else
         unclaimed ← lift (coin.NewDecCoins []);
         initOrUpdatePosition accum (valuePerShare accum) posName (NumShares position) unclaimed
           (POptions position));
  mret (truncatedRewardsTotal, dust).

Definition DeletePosition (accum : AccumulatorObject) (posName : string)
    : M accumStore (coin.DecCoins * AccumulatorObject) :=
  position ← GetPosition accum posName;
  '(remainingRewards, dust) ← ClaimRewards accum posName;
  _ ← modify (del_record (name accum, posName));
  total ← lift (sdk.Sub (totalShares accum) (NumShares position));
  let accum := with_shares accum total in
  _ ← setAccumulator accum (valuePerShare accum) (totalShares accum);
  remaining ← lift (coin.NewDecCoinsFromCoins remainingRewards);
  rewards ← lift (coin.DecAdd remaining dust);
  mret (rewards, accum).

Definition AddToUnclaimedRewards (accum : AccumulatorObject) (posName : string)
    (rewardsToAddTotal : coin.DecCoins) : M accumStore unit :=
  position ← GetPosition accum posName;
  _ ← require (negb (coin.IsAnyNegative rewardsToAddTotal)) "NegativeRewardsAdditionError";
  total ← lift (coin.DecAdd (UnclaimedRewardsTotal position) rewardsToAddTotal);
  initOrUpdatePosition accum (AccumValuePerShare position) posName (NumShares position) total
    (POptions position).
End with_coins.
End Accum.
