(* ===== verification/AccumProps.v ===== *)
(** Accumulators keep their books: over every history of a store of them the total of shares is the sum over the
    positions and what was lost by overwriting positions or setting totals; and what the positions are owed
    changes with each operation by what is added, claimed, credited or returned, up to rounding. *)
From stdpp Require Import prelude strings list gmap.
From S2P Require Import Prelude.
From S2P Require Import GoState.
From S2P Require Import ZSums.
From S2P Require Import SdkDec.
From S2P Require Import SdkCoins.
From S2P Require Import Accum.
Local Open Scope Z_scope.
Import Accum.

Module AccumProps.

(** *** The two book-keeping quantities *)

Definition of_accum (n : string) (f : PositionRecord → Z) (k : string * string)
    (r : PositionRecord) : Z := if bool_decide (k.1 = n) then f r else 0.

(** The shares of all positions of an accumulator. *)
Definition position_shares (n : string) (s : accumStore) : Z :=
  map_sum (of_accum n (λ r, Dec.i (NumShares r))) (records s).

(** The books of an accumulator are balanced when the stored total is that sum; an accumulator that does
    not exist has no total. *)
Definition total (n : string) (s : accumStore) : Z :=
  default 0 ((λ c, Dec.i (TotalShares c)) <$> accumulators s !! n).
Definition balanced (n : string) (s : accumStore) : Prop := total n s = position_shares n s.

(** What a position is owed of denomination [d] when the value per share is [v], in units of
    10^-36 tokens: its unclaimed rewards and its shares times the growth since it was settled. *)
Definition owed_to (d : string) (v : coin.DecCoins) (r : PositionRecord) : Z :=
  Dec.one * coin.damt d (UnclaimedRewardsTotal r) +
  Dec.i (NumShares r) * (coin.damt d v - coin.damt d (AccumValuePerShare r)).

Definition owed (d : string) (v : coin.DecCoins) (n : string) (s : accumStore) : Z :=
  map_sum (of_accum n (owed_to d v)) (records s).

Lemma of_accum_self n p f r : of_accum n f (n, p) r = f r.
Proof. unfold of_accum. by rewrite bool_decide_true. Qed.

(** Writing or deleting one record changes a sum by that record alone. *)
Definition before (n p : string) (f : PositionRecord → Z) (s : accumStore) : Z :=
  default 0 (f <$> records s !! (n, p)).

Lemma of_accum_other m n p f r : m ≠ n → of_accum n f (m, p) r = 0.
Proof. intros. unfold of_accum. by rewrite bool_decide_false. Qed.

Lemma sum_put n m p f r s :
  map_sum (of_accum n f) (records (put_record (m, p) r s))
  = map_sum (of_accum n f) (records s) + if decide (m = n) then f r - before m p f s else 0.
Proof.
  cbn [put_record records]. rewrite map_sum_insert_any. unfold before.
  destruct (decide (m = n)) as [->|Hn].
  - rewrite of_accum_self. destruct (records s !! (n, p)); cbn; [rewrite of_accum_self|]; lia.
  - rewrite of_accum_other by done.
    destruct (records s !! (m, p)); cbn; [rewrite of_accum_other by done|]; lia.
Qed.

Lemma sum_del n m p f s :
  map_sum (of_accum n f) (records (del_record (m, p) s))
  = map_sum (of_accum n f) (records s) - if decide (m = n) then before m p f s else 0.
Proof.
  cbn [del_record records]. rewrite map_sum_delete_any. unfold before.
  destruct (decide (m = n)) as [->|Hn].
  - destruct (records s !! (n, p)); cbn; [rewrite of_accum_self|]; lia.
  - destruct (records s !! (m, p)); cbn; [rewrite of_accum_other by done|]; lia.
Qed.

Section ops.
  Context {D : sdk.LegacyDec} {Ls : sdk.LegacyDecLaws D}.
  Context {C : coin.CoinOps} {Lc : coin.CoinLaws C}.
  Implicit Types (s : accumStore) (accum : AccumulatorObject).

(** *** The effect of each operation on the store *)

Lemma setAccumulator_Ok accum v n s u s' :
  setAccumulator accum v n s = Ok (u, s') →
  s' = put_accumulator (name accum) {| AccumValue := v; TotalShares := n |} s.
Proof. unfold setAccumulator. intros. by inv_st. Qed.

Lemma GetPosition_Ok accum p s r s' :
  GetPosition accum p s = Ok (r, s') → s' = s ∧ records s !! (name accum, p) = Some r.
Proof.
  unfold GetPosition. intros H. inv_st. destruct (records x0 !! _) eqn:E; by inv_st.
Qed.

Lemma GetAccumulator_Ok n s accum s' :
  GetAccumulator n s = Ok (accum, s') →
  s' = s ∧ accumulators s !! n =
    Some {| AccumValue := valuePerShare accum; TotalShares := totalShares accum |} ∧ name accum = n.
Proof.
  unfold GetAccumulator. intros H. inv_st. destruct (accumulators x0 !! n) as [[]|] eqn:E; by inv_st.
Qed.

Lemma initOrUpdatePosition_Ok accum v p n un o s u s' :
  initOrUpdatePosition accum v p n un o s = Ok (u, s') →
  s' = put_record (name accum, p) {| NumShares := n; AccumValuePerShare := v;
         UnclaimedRewardsTotal := un; POptions := o |} s.
Proof. unfold initOrUpdatePosition. intros. by inv_st. Qed.

(** The rewards of a position, up to half a unit of the last place of the 18-digit type. *)
Lemma GetTotalRewards_Ok accum r t d :
  coin.dec_wf (valuePerShare accum) → coin.dec_wf (AccumValuePerShare r) →
  GetTotalRewards accum r = Ok t →
  2 * Z.abs (Dec.one * coin.damt d t - owed_to d (valuePerShare accum) r) ≤ Dec.one.
Proof using Lc.
  intros Hv Hr H. unfold GetTotalRewards in H. inv_ok.
  assert (coin.dec_wf x) as Hwf by (eapply coin.DecSub_wf; [| |eassumption]; done).
  destruct (coin.DecSub_spec _ _ _ d H) as [Hx _].
  pose proof (coin.MulDec_spec _ _ _ d Hwf H0) as Hm. rewrite Hx in Hm.
  rewrite (coin.DecAdd_spec _ _ _ d H1). unfold owed_to.
  replace (Dec.one * (coin.damt d (UnclaimedRewardsTotal r) + coin.damt d x0) -
    (Dec.one * coin.damt d (UnclaimedRewardsTotal r) +
     Dec.i (NumShares r) * (coin.damt d (valuePerShare accum) - coin.damt d (AccumValuePerShare r))))
    with (Dec.one * coin.damt d x0 -
      (coin.damt d (valuePerShare accum) - coin.damt d (AccumValuePerShare r)) * Dec.i (NumShares r))
    by ring. done.
Qed.

(** Takes the run of an operation apart into the reads and writes it makes. *)
Ltac inv_acc := inv_st; repeat match goal with
  | H : GetPosition _ _ _ = Ok (_, _) |- _ => apply GetPosition_Ok in H as [? ?]; subst
  | H : GetAccumulator _ _ = Ok (_, _) |- _ => apply GetAccumulator_Ok in H as (? & ? & ?); subst
  | H : setAccumulator _ _ _ _ = Ok (_, _) |- _ => apply setAccumulator_Ok in H; subst
  | H : initOrUpdatePosition _ _ _ _ _ _ _ = Ok (_, _) |- _ =>
      apply initOrUpdatePosition_Ok in H; subst
  | H : sdk.Add _ _ = Ok _ |- _ => apply sdk.Add_spec in H
  | H : sdk.Sub _ _ = Ok _ |- _ => apply sdk.Sub_spec in H
  | H1 : ?m !! ?k = Some ?a, H2 : ?m !! ?k = Some ?b |- _ =>
      assert (b = a) by congruence; clear H2; subst b
  end.

(** Creating a position and changing its shares: both write the record and then the accumulator,
    with the total read back from the store. *)
Definition settled accum p (sh : Dec.t) (w un : coin.DecCoins) o (tot : Dec.t) s : accumStore :=
  put_accumulator (name accum) {| AccumValue := valuePerShare accum; TotalShares := tot |}
    (put_record (name accum, p) {| NumShares := sh; AccumValuePerShare := w;
       UnclaimedRewardsTotal := un; POptions := o |} s).

Lemma New_Ok accum p n w o s accum' s' :
  NewPositionIntervalAccumulation accum p n w o s = Ok (accum', s') →
  ∃ c tot un, s' = settled accum p n w un o tot s ∧ accum' = with_shares accum tot ∧
    accumulators s !! name accum = Some c ∧ Dec.i tot = Dec.i (TotalShares c) + Dec.i n ∧
    (∀ d, coin.damt d un = 0).
Proof using Ls Lc.
  unfold NewPositionIntervalAccumulation. intros H. inv_acc.
  eexists _, _, _. split; [reflexivity|]. split; [reflexivity|]. split; [eassumption|].
  split; [eassumption|]. intros d. by rewrite (coin.NewDecCoins_spec _ _ d H).
Qed.

Lemma Update_Ok accum p delta w s accum' s' :
  UpdatePositionIntervalAccumulation accum p delta w s = Ok (accum', s') →
  ∃ c r sh un tot, s' = settled accum p sh w un (POptions r) tot s ∧ accum' = with_shares accum tot ∧
    accumulators s !! name accum = Some c ∧ records s !! (name accum, p) = Some r ∧
    GetTotalRewards accum r = Ok un ∧ Dec.i sh = Dec.i (NumShares r) + Dec.i delta ∧
    Dec.i tot = Dec.i (TotalShares c) + Dec.i delta ∧ Dec.i delta ≠ 0 ∧
    (Dec.i delta < 0 → 0 ≤ Dec.i sh).
Proof using Ls.
  unfold UpdatePositionIntervalAccumulation. intros H. inv_st.
  rewrite sdk.IsZero_spec, negb_true_iff, Z.eqb_neq in H. rewrite sdk.IsNegative_spec in H0.
  destruct (Z.ltb_spec (Dec.i delta) 0) as [Hneg|Hpos].
  - unfold RemoveFromPositionIntervalAccumulation, GetPositionSize in H0. inv_acc.
    rewrite sdk.GT_spec, negb_true_iff, Z.ltb_ge, sdk.Neg_spec in *.
    eexists _, _, _, _, _. split; [reflexivity|]. split; [reflexivity|].
    split; [eassumption|]. split; [eassumption|]. split; [eassumption|].
    cbn [TotalShares with_shares totalShares]. split_and!; lia.
  - unfold AddToPositionIntervalAccumulation, GetPositionSize in H0. inv_acc.
    eexists _, _, _, _, _. split; [reflexivity|]. split; [reflexivity|].
    split; [eassumption|]. split; [eassumption|]. split; [eassumption|].
    cbn [TotalShares with_shares totalShares]. split_and!; lia.
Qed.

Lemma Claim_Ok accum p s c dust s' :
  ClaimRewards accum p s = Ok ((c, dust), s') →
  ∃ r t un, records s !! (name accum, p) = Some r ∧ GetTotalRewards accum r = Ok t ∧
    (∀ d, coin.damt d dust = coin.damt d t - coin.amt d c * Dec.one) ∧ (∀ d, coin.damt d un = 0) ∧
    s' = if Dec.i (NumShares r) =? 0 then del_record (name accum, p) s
         else put_record (name accum, p) {| NumShares := NumShares r;
                AccumValuePerShare := valuePerShare accum; UnclaimedRewardsTotal := un;
                POptions := POptions r |} s.
Proof using Ls Lc.
  unfold ClaimRewards. intros H. inv_acc. destruct x3 as [c' dust']. inv_st.
  rewrite sdk.IsZero_spec in *.
  assert (∀ d, coin.damt d dust' = coin.damt d x1 - coin.amt d c' * Dec.one) as Hd.
  { intros d. eapply coin.TruncateDecimal_spec; eassumption. }
  destruct (Z.eqb_spec (Dec.i (NumShares x)) 0) as [E|E].
  - unfold deletePosition in *. inv_st. simplify_eq. eexists _, _, []. split; [eassumption|].
    split; [eassumption|]. split; [done|]. split; [done|]. by rewrite E.
  - inv_acc. simplify_eq. eexists _, _, _. split; [eassumption|]. split; [eassumption|].
    split; [done|]. rewrite (proj2 (Z.eqb_neq _ _) E). split; [|reflexivity].
    intros d. erewrite coin.NewDecCoins_spec by eassumption. done.
Qed.

(** The record is gone, whatever claiming did to it. *)
Lemma Delete_Ok accum p s rewards accum' s' :
  DeletePosition accum p s = Ok ((rewards, accum'), s') →
  ∃ r t tot, records s !! (name accum, p) = Some r ∧ GetTotalRewards accum r = Ok t ∧
    (∀ d, coin.damt d rewards = coin.damt d t) ∧ accum' = with_shares accum tot ∧
    Dec.i tot = Dec.i (totalShares accum) - Dec.i (NumShares r) ∧
    records s' = delete (name accum, p) (records s) ∧
    accumulators s' = <[name accum := {| AccumValue := valuePerShare accum; TotalShares := tot |}]> (accumulators s).
Proof using Ls Lc.
  unfold DeletePosition. intros H. run H as r s1 Hr. apply GetPosition_Ok in Hr as [-> Hr].
  run H as [c dust] s1 Hc. apply Claim_Ok in Hc as (r' & t & un & Hr' & Ht & Hd & _ & ->).
  assert (r' = r) as -> by congruence. run H as u s2 Hs2. apply st_modify_Ok in Hs2 as ->.
  run_lift H as tot Htot. run H as u2 s3 Hs3. apply setAccumulator_Ok in Hs3 as ->. run_lift H as rem Hrem.
  run_lift H as rew Hrew. apply st_ret_Ok in H as [[= <- <-] <-]. apply sdk.Sub_spec in Htot.
  exists r, t, tot. split_and!; try done.
  - intros d. rewrite (coin.DecAdd_spec _ _ _ d Hrew), (coin.NewDecCoinsFromCoins_spec _ _ d Hrem), Hd. lia.
  - destruct (_ =? 0); cbn; [by rewrite delete_delete_eq|by rewrite delete_insert_eq].
  - by destruct (_ =? 0).
Qed.
Lemma Unclaimed_Ok accum p amt s u s' :
  AddToUnclaimedRewards accum p amt s = Ok (u, s') →
  ∃ r un, records s !! (name accum, p) = Some r ∧
    (∀ d, coin.damt d un = coin.damt d (UnclaimedRewardsTotal r) + coin.damt d amt) ∧
    s' = put_record (name accum, p) {| NumShares := NumShares r; AccumValuePerShare := AccumValuePerShare r;
           UnclaimedRewardsTotal := un; POptions := POptions r |} s.
Proof using Lc.
  unfold AddToUnclaimedRewards. intros H. run H as r s1 Hr. apply GetPosition_Ok in Hr as [-> Hr].
  run_require H as Hneg. run_lift H as un Hun. apply initOrUpdatePosition_Ok in H as ->.
  exists r, un. split_and!; try done. intros d. by apply coin.DecAdd_spec.
Qed.

(** Setting an accumulator from outside. *)
Lemma absent n s : negb (bool_decide (is_Some (accumulators s !! n))) = true → total n s = 0.
Proof using. intros H%negb_true_iff%bool_decide_eq_false%eq_None_not_Some. unfold total. by rewrite H. Qed.
Lemma Make_Ok n s u s' :
  MakeAccumulator n s = Ok (u, s') →
  total n s = 0 ∧ ∃ v, s' = put_accumulator n {| AccumValue := v; TotalShares := zeroDec |} s.
Proof. unfold MakeAccumulator. intros H. inv_acc. split; [by apply absent|]. eexists. reflexivity. Qed.
Lemma Make_with_Ok n v sh s u s' :
  MakeAccumulatorWithValueAndShare n v sh s = Ok (u, s') →
  total n s = 0 ∧ s' = put_accumulator n {| AccumValue := v; TotalShares := sh |} s.
Proof. unfold MakeAccumulatorWithValueAndShare. intros H. inv_acc. split; [by apply absent|done]. Qed.
Lemma Overwrite_Ok n v sh s u s' :
  OverwriteAccumulatorUnsafe n v sh s = Ok (u, s') →
  s' = put_accumulator n {| AccumValue := v; TotalShares := sh |} s.
Proof. unfold OverwriteAccumulatorUnsafe. intros H. by inv_acc. Qed.

(** *** Steps *)

(** The caller's copy agrees with the stored accumulator. *)
Definition current accum s : Prop :=
  accumulators s !! name accum =
    Some {| AccumValue := valuePerShare accum; TotalShares := totalShares accum |}.

(** One operation on an accumulator, with what it adds to (or, negative, takes from) the amount owed
    of denomination [d], in units of 10^-36, and how many shares it leaves in the total that no position
    has.  A position settled at value [w] instead of the current one is owed the difference: that is how
    the module credits only the growth inside a range.  A new position over an existing one drops the
    old one's record, but not its shares. *)
Inductive accum_step (d : string) (a : AccumulatorObject) (s : accumStore)
    : AccumulatorObject → accumStore → Z → Z → Prop :=
| step_add amt a' s' :
    AddToAccumulator a amt s = Ok (a', s') →
    accum_step d a s a' s' (coin.damt d amt * Dec.i (totalShares a)) 0
| step_new p n w o a' s' :
    NewPositionIntervalAccumulation a p n w o s = Ok (a', s') →
    accum_step d a s a' s' (Dec.i n * (coin.damt d (valuePerShare a) - coin.damt d w)
      - before (name a) p (owed_to d (valuePerShare a)) s) (before (name a) p (λ r, Dec.i (NumShares r)) s)
| step_update p r delta w a' s' :
    records s !! (name a, p) = Some r → coin.dec_wf (AccumValuePerShare r) →
    UpdatePositionIntervalAccumulation a p delta w s = Ok (a', s') →
    accum_step d a s a' s' ((Dec.i (NumShares r) + Dec.i delta) *
      (coin.damt d (valuePerShare a) - coin.damt d w)) 0
| step_set p r w s' :
    records s !! (name a, p) = Some r →
    SetPositionIntervalAccumulation a p w s = Ok (tt, s') →
    accum_step d a s a s' (Dec.i (NumShares r) * (coin.damt d (AccumValuePerShare r) - coin.damt d w)) 0
| step_claim p r c dust s' :
    records s !! (name a, p) = Some r → coin.dec_wf (AccumValuePerShare r) →
    ClaimRewards a p s = Ok ((c, dust), s') →
    accum_step d a s a s' (- (Dec.one * (coin.amt d c * Dec.one + coin.damt d dust))) 0
| step_delete p r rewards a' s' :
    records s !! (name a, p) = Some r → coin.dec_wf (AccumValuePerShare r) →
    DeletePosition a p s = Ok ((rewards, a'), s') →
    accum_step d a s a' s' (- (Dec.one * coin.damt d rewards)) 0
| step_unclaimed p amt s' :
    AddToUnclaimedRewards a p amt s = Ok (tt, s') →
    accum_step d a s a s' (Dec.one * coin.damt d amt) 0.

Lemma before_lookup n p f r s : records s !! (n, p) = Some r → before n p f s = f r.
Proof. unfold before. by intros ->. Qed.

Lemma before_fresh n p f s : records s !! (n, p) = None → before n p f s = 0.
Proof. unfold before. by intros ->. Qed.

Lemma records_settled accum p sh w un o tot s :
  records (settled accum p sh w un o tot s) =
  records (put_record (name accum, p) {| NumShares := sh; AccumValuePerShare := w;
       UnclaimedRewardsTotal := un; POptions := o |} s).
Proof. done. Qed.

(** A settled record and a moved total. *)
Lemma settled_total accum p sh w un o tot s n :
  total n (settled accum p sh w un o tot s) = if decide (name accum = n) then Dec.i tot else total n s.
Proof.
  unfold total. cbn. destruct (decide (name accum = n)) as [<-|Hn]; [by rewrite lookup_insert_eq|].
  by rewrite lookup_insert_ne.
Qed.
Lemma settled_shares accum p sh w un o tot s n :
  position_shares n (settled accum p sh w un o tot s) = position_shares n s +
    if decide (name accum = n) then Dec.i sh - before (name accum) p (λ r, Dec.i (NumShares r)) s else 0.
Proof. unfold position_shares. by rewrite records_settled, sum_put. Qed.
Lemma total_of a s n : current a s → name a = n → total n s = Dec.i (totalShares a).
Proof. unfold current, total. intros Hc <-. by rewrite Hc. Qed.

Lemma AddToAccumulator_Ok a amt s a' s' :
  current a s → AddToAccumulator a amt s = Ok (a', s') →
  records s' = records s ∧ name a' = name a ∧ totalShares a' = totalShares a ∧
  (∀ d, coin.damt d (valuePerShare a') = coin.damt d (valuePerShare a) + coin.damt d amt) ∧
  (accumulators s' = accumulators s ∨
   accumulators s' = <[name a := {| AccumValue := valuePerShare a'; TotalShares := totalShares a |}]>
     (accumulators s)).
Proof using Lc.
  unfold AddToAccumulator. intros Hcur H. inv_st.
  match goal with H : coin.DecAdd _ _ = Ok ?v |- _ => assert (∀ d, coin.damt d v =
    coin.damt d (valuePerShare a) + coin.damt d amt) as Hd by (intros d; eapply coin.DecAdd_spec; eassumption) end.
  match goal with H : ignore_error _ _ = Ok _ |- _ => apply st_ignore_error_Ok in H as [H|H] end.
  - inv_acc. split_and!; try done. by right.
  - subst. split_and!; try done. by left.
Qed.

(** Writing a record with as many shares as before changes nothing here. *)
Lemma put_same_shares n m p r r' s :
  records s !! (m, p) = Some r → NumShares r' = NumShares r →
  total n (put_record (m, p) r' s) = total n s ∧ position_shares n (put_record (m, p) r' s) = position_shares n s.
Proof.
  intros Hr E. split; [done|]. unfold position_shares. rewrite sum_put, (before_lookup _ _ _ r) by done. rewrite E.
  destruct (decide _); lia.
Qed.
Lemma step_shares d a s a' s' flow lost n :
  current a s → accum_step d a s a' s' flow lost →
  total n s' - position_shares n s' = total n s - position_shares n s + if decide (name a = n) then lost else 0.
Proof using Ls Lc.
  intros Hcur Hs. pose proof (total_of a s n Hcur) as Ht.
  destruct Hs as [amt a' s' H|p m w o a' s' H|p r delta w a' s' Hr Hwf H|
    p r w s' Hr H|p r c dust s' Hr Hwf H|p r rewards a' s' Hr Hwf H|p amt s' H].
  - destruct (AddToAccumulator_Ok _ _ _ _ _ Hcur H) as (Hr & _ & _ & _ & [He|He]).
    + unfold total, position_shares. rewrite Hr, He. destruct (decide _); lia.
    + unfold position_shares. rewrite Hr. unfold total in *. rewrite He.
      destruct (decide (name a = n)) as [<-|Hne]; [rewrite lookup_insert_eq, Ht by done; cbn; lia|].
      rewrite lookup_insert_ne by done. lia.
  - apply New_Ok in H as (c & tot & un & -> & -> & Hc & Hm & _). unfold current in Hcur.
    rewrite Hcur in Hc. injection Hc as <-. cbn in Hm.
    rewrite settled_total, settled_shares. destruct (decide _) as [E|]; [rewrite Ht by done|]; lia.
  - apply Update_Ok in H as (c & r' & sh & un & tot & -> & -> & Hc & Hr' & _ & Hsh & Hm & _).
    assert (r' = r) as -> by congruence. unfold current in Hcur. rewrite Hcur in Hc. injection Hc as <-. cbn in Hm.
    rewrite settled_total, settled_shares, (before_lookup _ _ _ r) by done.
    destruct (decide _) as [E|]; [rewrite Ht by done|]; lia.
  - unfold SetPositionIntervalAccumulation in H. inv_acc.
    edestruct (put_same_shares n (name a) p r) as [-> ->]; [done|reflexivity|]. destruct (decide _); lia.
  - apply Claim_Ok in H as (r' & t & un & Hr' & _ & _ & _ & ->). assert (r' = r) as -> by congruence.
    destruct (Z.eqb_spec (Dec.i (NumShares r)) 0) as [E|E].
    + change (total n (del_record (name a, p) s)) with (total n s). unfold position_shares.
      rewrite sum_del, (before_lookup _ _ _ r) by done. destruct (decide _); lia.
    + edestruct (put_same_shares n (name a) p r) as [-> ->]; [done|reflexivity|]. destruct (decide _); lia.
  - apply Delete_Ok in H as (r' & t & tot & Hr' & _ & _ & -> & Hm & Er & Ea). assert (r' = r) as -> by congruence.
    unfold position_shares. rewrite Er. change (delete (name a, p) (records s)) with (records (del_record (name a, p) s)). rewrite sum_del, (before_lookup _ _ _ r) by done.
    unfold total in *. rewrite Ea. destruct (decide (name a = n)) as [<-|Hne].
    + rewrite lookup_insert_eq, Ht by done. cbn. lia.
    + rewrite lookup_insert_ne by done. lia.
  - apply Unclaimed_Ok in H as (r & un & Hr & _ & ->).
    edestruct (put_same_shares n (name a) p r) as [-> ->]; [done|reflexivity|]. destruct (decide _); lia.
Qed.

(** Moving the value moves what is owed by the shares. *)
Lemma owed_value d v v' n s :
  owed d v' n s = owed d v n s + (coin.damt d v' - coin.damt d v) * position_shares n s.
Proof.
  unfold owed, position_shares, map_sum. rewrite <- sumZ_scale, <- sumZ_add. apply sumZ_ext.
  intros [k r] _. cbn [fst snd]. unfold of_accum, owed_to. case_bool_decide; ring.
Qed.

Lemma owed_put d v n p r s :
  owed d v n (put_record (n, p) r s) = owed d v n s + owed_to d v r - before n p (owed_to d v) s.
Proof. unfold owed. rewrite sum_put, decide_True by done. lia. Qed.

Lemma step_owed d a s a' s' flow lost :
  current a s → balanced (name a) s → coin.dec_wf (valuePerShare a) → accum_step d a s a' s' flow lost →
  2 * Z.abs (owed d (valuePerShare a') (name a) s' - owed d (valuePerShare a) (name a) s - flow)
  ≤ Dec.one.
Proof using Ls Lc.
  intros Hcur Hb Hv Hs. assert (0 < Dec.one) as Hone by done.
  destruct Hs as [amt a' s' H|p m w o a' s' H|p r delta w a' s' Hr Hwf H|
    p r w s' Hr H|p r c dust s' Hr Hwf H|p r rewards a' s' Hr Hwf H|p amt s' H].
  - destruct (AddToAccumulator_Ok _ _ _ _ _ Hcur H) as (Hr & _ & _ & Hd & _).
    unfold balanced in Hb. rewrite (total_of a s) in Hb by done.
    rewrite (owed_value d (valuePerShare a) (valuePerShare a')), Hd.
    unfold owed, position_shares in *. rewrite Hr, Hb.
    replace (_ - _ - _) with 0 by ring. cbn. lia.
  - apply New_Ok in H as (c & tot & un & -> & -> & _ & _ & Hun).
    unfold owed at 1. rewrite records_settled.
    fold (owed d (valuePerShare (with_shares a tot)) (name a) (put_record (name a, p)
      {| NumShares := m; AccumValuePerShare := w; UnclaimedRewardsTotal := un; POptions := o |} s)).
    rewrite owed_put. unfold owed_to at 1.
    cbn [NumShares AccumValuePerShare UnclaimedRewardsTotal with_shares valuePerShare]. rewrite Hun.
    replace (_ - _ - _) with 0 by ring. cbn. lia.
  - apply Update_Ok in H as (c & r' & sh & un & tot & -> & -> & _ & Hr' & Hun & Hsh & _).
    assert (r' = r) as -> by congruence. apply (GetTotalRewards_Ok a r un d Hv Hwf) in Hun.
    unfold owed at 1. rewrite records_settled.
    fold (owed d (valuePerShare (with_shares a tot)) (name a) (put_record (name a, p)
      {| NumShares := sh; AccumValuePerShare := w; UnclaimedRewardsTotal := un;
         POptions := POptions r |} s)).
    rewrite owed_put, (before_lookup _ _ _ r) by done. cbn [with_shares valuePerShare].
    unfold owed_to at 1. cbn [NumShares AccumValuePerShare UnclaimedRewardsTotal].
    rewrite Hsh. replace (_ - _ - _) with
      (Dec.one * coin.damt d un - owed_to d (valuePerShare a) r) by ring. done.
  - unfold SetPositionIntervalAccumulation in H. inv_acc.
    rewrite owed_put, (before_lookup _ _ _ r) by done. unfold owed_to.
    cbn [NumShares AccumValuePerShare UnclaimedRewardsTotal].
    replace (_ - _ - _) with 0 by ring. cbn. lia.
  - apply Claim_Ok in H as (r' & t & un & Hr' & Ht & Hd & Hun & ->).
    assert (r' = r) as -> by congruence. apply (GetTotalRewards_Ok a r t d Hv Hwf) in Ht.
    specialize (Hd d). destruct (Z.eqb_spec (Dec.i (NumShares r)) 0) as [E|E].
    + unfold owed. rewrite sum_del, decide_True, (before_lookup _ _ _ r) by done.
      replace (_ - _ - _ - _) with (Dec.one * coin.damt d t - owed_to d (valuePerShare a) r) by lia.
      done.
    + rewrite owed_put, (before_lookup _ _ _ r) by done. unfold owed_to at 1.
      cbn [NumShares AccumValuePerShare UnclaimedRewardsTotal]. rewrite Hun.
      replace (_ - _ - _) with (Dec.one * coin.damt d t - owed_to d (valuePerShare a) r) by lia. done.
  - apply Delete_Ok in H as (r' & t & tot & Hr' & Ht & Hd & -> & _ & Er & _).
    assert (r' = r) as -> by congruence. apply (GetTotalRewards_Ok a r t d Hv Hwf) in Ht. specialize (Hd d).
    cbn [with_shares valuePerShare]. unfold owed. rewrite Er. change (delete (name a, p) (records s)) with (records (del_record (name a, p) s)).
    rewrite sum_del, decide_True, (before_lookup _ _ _ r) by done. rewrite Hd.
    replace (_ - _ - _ - _) with (Dec.one * coin.damt d t - owed_to d (valuePerShare a) r) by lia. done.
  - apply Unclaimed_Ok in H as (r & un & Hr & Hd & ->). rewrite owed_put, (before_lookup _ _ _ r) by done. unfold owed_to.
    cbn [NumShares AccumValuePerShare UnclaimedRewardsTotal]. rewrite Hd. replace (_ - _ - _) with 0 by ring. cbn. lia.
Qed.
End ops.

(** *** Histories of a store of accumulators *)

Definition empty_store : accumStore := {| accumulators := ∅; records := ∅ |}.
Definition plus_at (n : string) (x : Z) (l : string → Z) (m : string) : Z := l m + if decide (n = m) then x else 0.

(** Any operation, on an accumulator as it is stored.  [lost] says how many shares of each accumulator no
    position has: those of positions that were created anew, and what the two operations that set a
    total (used by genesis and migrations) make of it. *)
Inductive history {D : sdk.LegacyDec} {C : coin.CoinOps} : accumStore → (string → Z) → Prop :=
| history_empty : history empty_store (λ _, 0)
| history_make s lost n u s' : history s lost → MakeAccumulator n s = Ok (u, s') → history s' lost
| history_make_with s lost n v sh u s' :
    history s lost → MakeAccumulatorWithValueAndShare n v sh s = Ok (u, s') →
    history s' (plus_at n (Dec.i sh) lost)
| history_overwrite s lost n v sh u s' :
    history s lost → OverwriteAccumulatorUnsafe n v sh s = Ok (u, s') →
    history s' (plus_at n (Dec.i sh - total n s) lost)
| history_step s lost d a a' s' flow unheld :
    history s lost → current a s → accum_step d a s a' s' flow unheld →
    history s' (plus_at (name a) unheld lost).

Lemma set_total n m v sh s :
  total m (put_accumulator n {| AccumValue := v; TotalShares := sh |} s) = if decide (n = m) then Dec.i sh else total m s.
Proof.
  unfold total. cbn. destruct (decide (n = m)) as [<-|Hn]; [by rewrite lookup_insert_eq|]. by rewrite lookup_insert_ne.
Qed.

(** *** Properties *)

(** C6. Over every history of a store of accumulators, the total of shares of an accumulator is the sum of the
    shares of its positions, and [lost]: zero, unless a total was set from outside, or a position was created
    under the name of an existing one, whose shares then stay in the total.  The operations are those that create
    accumulators, add rewards, create, change, move, claim and delete positions, and add to unclaimed rewards, each on an
    object that agrees with the store. *)
Theorem accum_shares_balanced (D : sdk.LegacyDec) (Ls : sdk.LegacyDecLaws D) (C : coin.CoinOps)
    (Lc : coin.CoinLaws C) (s : accumStore) (lost : string → Z) (n : string) :
  history s lost → total n s = position_shares n s + lost n.
Proof.
  induction 1 as [|s lost m u s' _ IH H|s lost m v sh u s' _ IH H|s lost m v sh u s' _ IH H|s lost d a a' s' flow unheld _ IH Hc Hs].
  - unfold position_shares. cbn. by rewrite map_sum_empty.
  - apply Make_Ok in H as [H0 [v ->]]. rewrite set_total. change (position_shares n (put_accumulator m _ s)) with (position_shares n s).
    destruct (decide (m = n)) as [->|]; [cbn; lia|done].
  - apply Make_with_Ok in H as [H0 ->]. rewrite set_total. change (position_shares n (put_accumulator m _ s)) with (position_shares n s).
    unfold plus_at. destruct (decide (m = n)) as [->|]; lia.
  - apply Overwrite_Ok in H as ->. rewrite set_total. change (position_shares n (put_accumulator m _ s)) with (position_shares n s).
    unfold plus_at. destruct (decide (m = n)) as [->|]; lia.
  - unfold plus_at. pose proof (step_shares d a s a' s' flow unheld n Hc Hs). lia.
Qed.

(** C7. What all positions of a balanced accumulator are owed changes, with each operation, by its flow, up to half a unit
    of 10^-18 tokens: it grows by an amount added times the total of shares, and by what is added to a position's unclaimed
    rewards; it falls by what is claimed, or returned when a position is deleted; changing a position's shares or creating
    one adds its shares times the growth that it is credited with ([v - w] for a position settled at [w] when the value is [v]), and
    creating one anew drops what the old one was owed. *)
Theorem accum_rewards_conserved (D : sdk.LegacyDec) (Ls : sdk.LegacyDecLaws D) (C : coin.CoinOps)
    (Lc : coin.CoinLaws C) (d : string) (a a' : AccumulatorObject) (s s' : accumStore) (flow unheld : Z) :
  current a s → balanced (name a) s → coin.dec_wf (valuePerShare a) →
  accum_step d a s a' s' flow unheld →
  2 * Z.abs (owed d (valuePerShare a') (name a) s' - owed d (valuePerShare a) (name a) s - flow)
  ≤ Dec.one.
Proof. exact (step_owed d a s a' s' flow unheld). Qed.

#[local] Existing Instances sdk.ref_dec coin.ref_coins.

(** One position with three shares in an accumulator whose value is then raised by half a token. *)
Definition example_step : outcome (AccumulatorObject * accumStore * (AccumulatorObject * accumStore)) :=
  let three := Dec.mk (3 * Dec.one) in
  let half := [{| coin.DDenom := "uosmo"; coin.DAmount := Dec.mk (5 * 10 ^ 17) |}] in
  match MakeAccumulator "acc" {| accumulators := ∅; records := ∅ |} with
  | Ok (_, s0) =>
    match (a ← GetAccumulator "acc"; a ← NewPosition a "pos" three None; AddToAccumulator a half) s0
    with
    | Ok (a, s) =>
      match UpdatePositionIntervalAccumulation a "pos" (Dec.mk (2 * Dec.one)) (valuePerShare a) s with
      | Ok r => Ok (a, s, r)
      | _ => Panic ""
      end
    | _ => Panic ""
    end
  | _ => Panic ""
  end.
Definition example_result : AccumulatorObject * accumStore * (AccumulatorObject * accumStore) :=
  Eval vm_compute in
  match example_step with Ok r => r
  | _ => ({| name := ""; valuePerShare := []; totalShares := Dec.mk 0 |},
          {| accumulators := ∅; records := ∅ |},
          ({| name := ""; valuePerShare := []; totalShares := Dec.mk 0 |},
          {| accumulators := ∅; records := ∅ |})) end.

Definition example_record : PositionRecord :=
  {| NumShares := Dec.mk (3 * Dec.one); AccumValuePerShare := []; UnclaimedRewardsTotal := [];
     POptions := None |}.

Definition run {B} (m : M accumStore B) (s : accumStore) : accumStore := match m s with Ok (_, s') => s' | _ => s end.
Definition made : accumStore := run (MakeAccumulator "acc") empty_store.
Definition acc0 : AccumulatorObject := {| name := "acc"; valuePerShare := []; totalShares := Dec.mk 0 |}.
Definition open (n : Z) : M accumStore AccumulatorObject := NewPosition acc0 "pos" (Dec.mk n) None.
Definition acc1 (n : Z) : AccumulatorObject := {| name := "acc"; valuePerShare := []; totalShares := Dec.mk n |}.

(** A position of three shares is created anew with two: the accumulator counts five. *)
Definition opened : accumStore := run (open (3 * Dec.one)) made.
Definition reopened : accumStore := run (NewPosition (acc1 (3 * Dec.one)) "pos" (Dec.mk (2 * Dec.one)) None) opened.
Lemma made_history : history opened (plus_at "acc" 0 (λ _, 0)).
Proof.
  apply (history_step made (λ _, 0) "uosmo" acc0 (acc1 (3 * Dec.one)) opened 0 0).
  - apply (history_make empty_store (λ _, 0) "acc" tt); [apply history_empty|by vm_compute].
  - by vm_compute.
  - apply (step_new "uosmo" acc0 made "pos" (Dec.mk (3 * Dec.one)) [] None). by vm_compute.
Qed.
Lemma reopened_history : history reopened (plus_at "acc" (3 * Dec.one) (plus_at "acc" 0 (λ _, 0))).
Proof.
  apply (history_step opened _ "uosmo" (acc1 (3 * Dec.one)) (acc1 (5 * Dec.one)) reopened 0 (3 * Dec.one)); [apply made_history|by vm_compute|].
  apply (step_new "uosmo" (acc1 (3 * Dec.one)) opened "pos" (Dec.mk (2 * Dec.one)) [] None). by vm_compute.
Qed.
Lemma accum_shares_balanced_witness :
  total "acc" opened = position_shares "acc" opened ∧
  5 * Dec.one = position_shares "acc" reopened + 3 * Dec.one.
Proof.
  split.
  - rewrite (accum_shares_balanced sdk.ref_dec sdk.ref_dec_laws coin.ref_coins coin.ref_coins_laws opened _ "acc" made_history).
    by vm_compute.
  - exact (accum_shares_balanced sdk.ref_dec sdk.ref_dec_laws coin.ref_coins coin.ref_coins_laws reopened _ "acc" reopened_history).
Defined.

Lemma accum_rewards_conserved_witness :
  2 * Z.abs (owed "uosmo" (valuePerShare example_result.2.1) "acc" example_result.2.2
    - owed "uosmo" (valuePerShare example_result.1.1) "acc" example_result.1.2
    - (3 * Dec.one + 2 * Dec.one) * (coin.damt "uosmo" (valuePerShare example_result.1.1) -
        coin.damt "uosmo" (valuePerShare example_result.1.1))) ≤ Dec.one.
Proof.
  apply (accum_rewards_conserved sdk.ref_dec sdk.ref_dec_laws coin.ref_coins coin.ref_coins_laws
    "uosmo" example_result.1.1 example_result.2.1 example_result.1.2 example_result.2.2 _ 0).
  - vm_compute. reflexivity.
  - vm_compute. reflexivity.
  - apply NoDup_singleton.
  - apply (step_update "uosmo" example_result.1.1 example_result.1.2 "pos" example_record
      (Dec.mk (2 * Dec.one)) (valuePerShare example_result.1.1));
      [vm_compute; reflexivity|apply NoDup_nil_2|vm_compute; reflexivity].
Defined.
End AccumProps.
