(* ===== verification/CLPool.v ===== *)
(** The concentrated-liquidity pool object: x/concentrated-liquidity/model/pool.go.

    The getters of the code are the fields of the record.  An address in the pool is kept as its
    bech32 text, as in the code; decoding it belongs to the Cosmos SDK. *)
From stdpp Require Import prelude strings list.
From S2P Require Import Prelude.
From S2P Require Import GoBig.
From S2P Require Import SdkDec.
From S2P Require Import Decimal.
From S2P Require Import DecimalPow.
From S2P Require Import CLMath.
From S2P Require Import CLTick.
From S2P Require Import CLKeys.
Local Open Scope Z_scope.
Import CLConst CLMath CLTick.

(** Account addresses are byte strings.  Their text form and the addresses derived from pool ids are
    computed by the Cosmos SDK. *)
Module addr.
Definition AccAddress : Type := string.
Class Addresses : Type := {
  AddressString : AccAddress → string;
  AccAddressFromBech32 : string → outcome AccAddress;
  NewPoolAddress : Z → AccAddress;
  NewModuleAddressWithPrefix : string → string → CLKeys.bytes → AccAddress;
}.
(** Text addresses read back. *)
Class AddressLaws (A : Addresses) : Prop := {
  from_to_bech32 a : AccAddressFromBech32 (AddressString a) = Ok a;
}.
End addr.

Module Pool.
Record Pool := {
  Address : string;
  IncentivesAddress : string;
  SpreadRewardsAddress : string;
  Id : Z;
  CurrentTickLiquidity : Dec.t;
  Token0 : string;
  Token1 : string;
  CurrentSqrtPrice : BigDec.t;
  CurrentTick : Z;
  TickSpacing : Z;
  PoolExponentAtPriceOne : Z;
  SpreadFactor : Dec.t;
  LastLiquidityUpdate : Z
}.

Definition one : Dec.t := Dec.mk Dec.one.
Definition zero : Dec.t := Dec.mk 0.

(** Setters. *)
Definition with_liquidity (l : Dec.t) (p : Pool) : Pool :=
  {| Address := Address p; IncentivesAddress := IncentivesAddress p;
     SpreadRewardsAddress := SpreadRewardsAddress p; Id := Id p; CurrentTickLiquidity := l;
     Token0 := Token0 p; Token1 := Token1 p; CurrentSqrtPrice := CurrentSqrtPrice p;
     CurrentTick := CurrentTick p; TickSpacing := TickSpacing p;
     PoolExponentAtPriceOne := PoolExponentAtPriceOne p; SpreadFactor := SpreadFactor p;
     LastLiquidityUpdate := LastLiquidityUpdate p |}.
Definition SetCurrentSqrtPrice (newSqrtPrice : BigDec.t) (p : Pool) : Pool :=
  {| Address := Address p; IncentivesAddress := IncentivesAddress p;
     SpreadRewardsAddress := SpreadRewardsAddress p; Id := Id p;
     CurrentTickLiquidity := CurrentTickLiquidity p;
     Token0 := Token0 p; Token1 := Token1 p; CurrentSqrtPrice := newSqrtPrice;
     CurrentTick := CurrentTick p; TickSpacing := TickSpacing p;
     PoolExponentAtPriceOne := PoolExponentAtPriceOne p; SpreadFactor := SpreadFactor p;
     LastLiquidityUpdate := LastLiquidityUpdate p |}.
Definition SetCurrentTick (newTick : Z) (p : Pool) : Pool :=
  {| Address := Address p; IncentivesAddress := IncentivesAddress p;
     SpreadRewardsAddress := SpreadRewardsAddress p; Id := Id p;
     CurrentTickLiquidity := CurrentTickLiquidity p;
     Token0 := Token0 p; Token1 := Token1 p; CurrentSqrtPrice := CurrentSqrtPrice p;
     CurrentTick := newTick; TickSpacing := TickSpacing p;
     PoolExponentAtPriceOne := PoolExponentAtPriceOne p; SpreadFactor := SpreadFactor p;
     LastLiquidityUpdate := LastLiquidityUpdate p |}.
Definition SetTickSpacing (tickSpacing : Z) (p : Pool) : Pool :=
  {| Address := Address p; IncentivesAddress := IncentivesAddress p;
     SpreadRewardsAddress := SpreadRewardsAddress p; Id := Id p;
     CurrentTickLiquidity := CurrentTickLiquidity p;
     Token0 := Token0 p; Token1 := Token1 p; CurrentSqrtPrice := CurrentSqrtPrice p;
     CurrentTick := CurrentTick p; TickSpacing := tickSpacing;
     PoolExponentAtPriceOne := PoolExponentAtPriceOne p; SpreadFactor := SpreadFactor p;
     LastLiquidityUpdate := LastLiquidityUpdate p |}.
Definition SetLastLiquidityUpdate (newTime : Z) (p : Pool) : Pool :=
  {| Address := Address p; IncentivesAddress := IncentivesAddress p;
     SpreadRewardsAddress := SpreadRewardsAddress p; Id := Id p;
     CurrentTickLiquidity := CurrentTickLiquidity p;
     Token0 := Token0 p; Token1 := Token1 p; CurrentSqrtPrice := CurrentSqrtPrice p;
     CurrentTick := CurrentTick p; TickSpacing := TickSpacing p;
     PoolExponentAtPriceOne := PoolExponentAtPriceOne p; SpreadFactor := SpreadFactor p;
     LastLiquidityUpdate := newTime |}.

Section with_dec.
  Context {D : sdk.LegacyDec} {A : addr.Addresses}.

Definition NewConcentratedLiquidityPool (poolId : Z) (denom0 denom1 : string) (tickSpacing : Z)
    (spreadFactor : Dec.t) : outcome Pool :=
  if String.eqb denom0 denom1 then Err "MatchingDenomError"
  else if sdk.IsNegative spreadFactor || sdk.GTE spreadFactor one then Err "InvalidSpreadFactorError"
  else Ok {|
    Address := addr.AddressString (addr.NewPoolAddress poolId);
    IncentivesAddress := addr.AddressString (addr.NewModuleAddressWithPrefix
      "concentratedliquidity" "incentives" (CLKeys.Uint64ToBigEndian poolId));
    SpreadRewardsAddress := addr.AddressString (addr.NewModuleAddressWithPrefix
      "concentratedliquidity" "spreadRewards" (CLKeys.Uint64ToBigEndian poolId));
    Id := poolId;
    CurrentSqrtPrice := BigDec.ZeroBigDec;
    CurrentTick := 0;
    CurrentTickLiquidity := zero;
    Token0 := denom0;
    Token1 := denom1;
    TickSpacing := tickSpacing;
    PoolExponentAtPriceOne := ExponentAtPriceOne;
    SpreadFactor := spreadFactor;
    LastLiquidityUpdate := 0
  |}.

(** [if err != nil { panic(...) }] *)
Definition or_panic {A} (m : outcome A) (msg : string) : outcome A :=
  match m with Err _ => Panic msg | _ => m end.
Definition GetAddress (p : Pool) : outcome addr.AccAddress :=
  or_panic (addr.AccAddressFromBech32 (Address p)) "could not bech32 decode address of pool".
Definition GetIncentivesAddress (p : Pool) : outcome addr.AccAddress :=
  or_panic (addr.AccAddressFromBech32 (IncentivesAddress p))
    "could not bech32 decode incentive address of pool".
Definition GetSpreadRewardsAddress (p : Pool) : outcome addr.AccAddress :=
  or_panic (addr.AccAddressFromBech32 (SpreadRewardsAddress p))
    "could not bech32 decode spread factor address of pool".

Definition SpotPrice (p : Pool) (quoteAssetDenom baseAssetDenom : string) : outcome BigDec.t :=
  if negb (String.eqb baseAssetDenom (Token0 p)) && negb (String.eqb baseAssetDenom (Token1 p))
  then Err "base asset denom is not in pool"
  else if negb (String.eqb quoteAssetDenom (Token0 p)) && negb (String.eqb quoteAssetDenom (Token1 p))
  then Err "quote asset denom is not in pool"
  else
    priceSquared ← BigDecPow.PowerInteger (CurrentSqrtPrice p) 2;
    if String.eqb baseAssetDenom (Token0 p) then BigDec.BigDecFromDecMut (BigDec.ToDec priceSquared)
    else
      q ← BigDec.QuoMut BigDec.OneBigDec priceSquared;
      BigDec.BigDecFromDecMut (BigDec.ToDec q).

Definition UpdateLiquidity (newLiquidity : Dec.t) (p : Pool) : outcome Pool :=
  l ← sdk.Add (CurrentTickLiquidity p) newLiquidity; Ok (with_liquidity l p).

Definition IsCurrentTickInRange (p : Pool) (lowerTick upperTick : Z) : bool :=
  (lowerTick <=? CurrentTick p) && (CurrentTick p <? upperTick).

(** The boolean tells whether the position was active. *)
Definition UpdateLiquidityIfActivePosition (lowerTick upperTick : Z) (liquidityDelta : Dec.t)
    (p : Pool) : outcome (bool * Pool) :=
  if IsCurrentTickInRange p lowerTick upperTick then
    l ← sdk.Add (CurrentTickLiquidity p) liquidityDelta; Ok (true, with_liquidity l p)
  else Ok (false, p).

Definition CalcActualAmounts (p : Pool) (lowerTick upperTick : Z) (liquidityDelta : Dec.t)
    : outcome (Dec.t * Dec.t) :=
  if sdk.IsZero liquidityDelta then Err "ErrZeroLiquidity"
  else
    '(sqrtPriceLowerTick, sqrtPriceUpperTick) ← TicksToSqrtPrice lowerTick upperTick;
    let roundUp := sdk.IsPositive liquidityDelta in
    '(actualAmountDenom0, actualAmountDenom1) ←
      (if IsCurrentTickInRange p lowerTick upperTick then
         a0 ← CalcAmount0Delta liquidityDelta (CurrentSqrtPrice p) sqrtPriceUpperTick roundUp;
         a1 ← CalcAmount1Delta liquidityDelta (CurrentSqrtPrice p) sqrtPriceLowerTick roundUp;
         Ok (a0, a1)
       else if CurrentTick p <? lowerTick then
         a0 ← CalcAmount0Delta liquidityDelta sqrtPriceLowerTick sqrtPriceUpperTick roundUp;
         Ok (a0, BigDec.ZeroBigDec)
       else
         a1 ← CalcAmount1Delta liquidityDelta sqrtPriceLowerTick sqrtPriceUpperTick roundUp;
         Ok (BigDec.ZeroBigDec, a1));
    if roundUp then Ok (BigDec.DecRoundUp actualAmountDenom0, BigDec.DecRoundUp actualAmountDenom1)
    else Ok (BigDec.ToDec actualAmountDenom0, BigDec.ToDec actualAmountDenom1).

Definition ApplySwap (newLiquidity : Dec.t) (newCurrentTick : Z) (newCurrentSqrtPrice : BigDec.t)
    (p : Pool) : outcome Pool :=
  if sdk.IsNegative newLiquidity then Err "NegativeLiquidityError"
  else if BigDec.IsNegative newCurrentSqrtPrice then Err "SqrtPriceNegativeError"
  else if (newCurrentTick <? MinCurrentTick) || (MaxTick <? newCurrentTick)
  then Err "TickIndexNotWithinBoundariesError"
  else Ok (SetCurrentSqrtPrice newCurrentSqrtPrice
             (SetCurrentTick newCurrentTick (with_liquidity newLiquidity p))).

Definition GetPoolDenoms (p : Pool) : list string := [Token0 p; Token1 p].
End with_dec.
End Pool.
