(* ===== verification/CLStore.v ===== *)
(** The state of the concentrated-liquidity module and everything outside it that it calls:
    keeper.go, store.go, total_liquidity.go, pool_hooks.go, the stored messages of model/ and
    types/, and the interfaces of types/expected_keepers.go and types/listeners.go.

    The key-value store is a record with one finite map (or set) per key prefix.  A stored message
    always decodes, because only the functions modelled here write it.  Times are nanoseconds since
    Go's zero time, durations nanoseconds. *)
From stdpp Require Import prelude strings list gmap sorting.
From S2P Require Import Prelude.
From S2P Require Import GoBig.
From S2P Require Import GoState.
From S2P Require Import SdkDec.
From S2P Require Import SdkCoins.
From S2P Require Import Decimal.
From S2P Require Import DecimalText.
From S2P Require Import CLTick.
From S2P Require Import CLKeys.
From S2P Require Import Accum.
From S2P Require Import CLPool.
Local Open Scope Z_scope.

Module CLStore.
(** *** Stored messages *)

(** [UptimeTrackers.List] holds one [UptimeGrowthOutside] per supported uptime. *)
Record TickInfo := {
  LiquidityGross : Dec.t;
  LiquidityNet : Dec.t;
  SpreadRewardGrowthOppositeDirectionOfLastTraversal : coin.DecCoins;
  UptimeTrackers : list coin.DecCoins
}.

Record Position := {
  PositionId : Z;
  PAddress : string;
  PoolId : Z;
  LowerTick : Z;
  UpperTick : Z;
  JoinTime : Z;
  Liquidity : Dec.t
}.

Record IncentiveRecordBody := {
  RemainingCoin : coin.DecCoin;
  EmissionRate : Dec.t;
  StartTime : Z
}.
Record IncentiveRecord := {
  IncentiveId : Z;
  IPoolId : Z;
  RecordBody : IncentiveRecordBody;
  MinUptime : Z
}.

Record Params := {
  AuthorizedTickSpacing : list Z;
  AuthorizedSpreadFactors : list Dec.t;
  AuthorizedQuoteDenoms : list string;
  AuthorizedUptimes : list Z;
  IsPermissionlessPoolCreationEnabled : bool;
  UnrestrictedPoolCreatorWhitelist : list string
}.

(** *** The outside world

    [World] is the state of all other modules; the block time is fixed during a transaction. *)
Inductive lock_result : Type :=
| LockFound (EndTime : Z)
| LockNotFound
| LockError (e : string).

Class Block : Type := { BlockTime : Z }.

Class Env : Type := {
  World : Type;
  SendCoins : addr.AccAddress → addr.AccAddress → coin.Coins → World → outcome World;
  HasBalance : World → addr.AccAddress → coin.Coin → bool;
  GetBalance : World → addr.AccAddress → string → coin.Coin;
  MintCoins : string → coin.Coins → World → outcome World;
  GetLockByID : World → Z → lock_result;
  CreateLockNoSend : addr.AccAddress → coin.Coins → Z → World → outcome (Z * World);
  BeginForceUnlock : Z → coin.Coins → World → outcome (Z * World);
  GetModuleAccountAddress : string → addr.AccAddress;
  GetParams : World → Params;
  PoolManagerQuoteDenoms : World → list string;
}.

Section store.
  Context {D : sdk.LegacyDec} {C : coin.CoinOps} {A : addr.Addresses} {E : Env}.

(** *** The store *)

Record store := {
  pools : gmap Z Pool.Pool;
  ticks : gmap (Z * Z) TickInfo;
  positions : gmap Z Position;
  addressPoolPosition : gset (addr.AccAddress * Z * Z);
  poolPosition : gset (Z * Z);
  positionToLock : gmap Z Z;
  lockToPosition : gmap Z Z;
  fullRangeLiquidity : gmap Z Dec.t;
  denomLiquidity : gmap string SdkInt.t;
  incentiveRecords : gmap (Z * nat * Z) IncentiveRecordBody;
  accums : Accum.accumStore;
  nextPositionId : Z;
  nextIncentiveRecordId : Z;
  incentiveThreshold : option Z;
  spreadThreshold : option Z;
  hookContracts : gmap (Z * string) string;
  world : World
}.

Definition set_pools f (s : store) : store :=
  {| pools := f (pools s); ticks := ticks s; positions := positions s;
     addressPoolPosition := addressPoolPosition s; poolPosition := poolPosition s;
     positionToLock := positionToLock s; lockToPosition := lockToPosition s;
     fullRangeLiquidity := fullRangeLiquidity s; denomLiquidity := denomLiquidity s;
     incentiveRecords := incentiveRecords s; accums := accums s; nextPositionId := nextPositionId s;
     nextIncentiveRecordId := nextIncentiveRecordId s; incentiveThreshold := incentiveThreshold s;
     spreadThreshold := spreadThreshold s; hookContracts := hookContracts s; world := world s |}.
Definition set_ticks f (s : store) : store :=
  {| pools := pools s; ticks := f (ticks s); positions := positions s;
     addressPoolPosition := addressPoolPosition s; poolPosition := poolPosition s;
     positionToLock := positionToLock s; lockToPosition := lockToPosition s;
     fullRangeLiquidity := fullRangeLiquidity s; denomLiquidity := denomLiquidity s;
     incentiveRecords := incentiveRecords s; accums := accums s; nextPositionId := nextPositionId s;
     nextIncentiveRecordId := nextIncentiveRecordId s; incentiveThreshold := incentiveThreshold s;
     spreadThreshold := spreadThreshold s; hookContracts := hookContracts s; world := world s |}.
(** The position, its owner's index and its pool's index. *)
Definition set_positions fp fa fq (s : store) : store :=
  {| pools := pools s; ticks := ticks s; positions := fp (positions s);
     addressPoolPosition := fa (addressPoolPosition s); poolPosition := fq (poolPosition s);
     positionToLock := positionToLock s; lockToPosition := lockToPosition s;
     fullRangeLiquidity := fullRangeLiquidity s; denomLiquidity := denomLiquidity s;
     incentiveRecords := incentiveRecords s; accums := accums s; nextPositionId := nextPositionId s;
     nextIncentiveRecordId := nextIncentiveRecordId s; incentiveThreshold := incentiveThreshold s;
     spreadThreshold := spreadThreshold s; hookContracts := hookContracts s; world := world s |}.
Definition set_locks fl fp (s : store) : store :=
  {| pools := pools s; ticks := ticks s; positions := positions s;
     addressPoolPosition := addressPoolPosition s; poolPosition := poolPosition s;
     positionToLock := fl (positionToLock s); lockToPosition := fp (lockToPosition s);
     fullRangeLiquidity := fullRangeLiquidity s; denomLiquidity := denomLiquidity s;
     incentiveRecords := incentiveRecords s; accums := accums s; nextPositionId := nextPositionId s;
     nextIncentiveRecordId := nextIncentiveRecordId s; incentiveThreshold := incentiveThreshold s;
     spreadThreshold := spreadThreshold s; hookContracts := hookContracts s; world := world s |}.
Definition set_totals ff fd (s : store) : store :=
  {| pools := pools s; ticks := ticks s; positions := positions s;
     addressPoolPosition := addressPoolPosition s; poolPosition := poolPosition s;
     positionToLock := positionToLock s; lockToPosition := lockToPosition s;
     fullRangeLiquidity := ff (fullRangeLiquidity s); denomLiquidity := fd (denomLiquidity s);
     incentiveRecords := incentiveRecords s; accums := accums s; nextPositionId := nextPositionId s;
     nextIncentiveRecordId := nextIncentiveRecordId s; incentiveThreshold := incentiveThreshold s;
     spreadThreshold := spreadThreshold s; hookContracts := hookContracts s; world := world s |}.
(** Reward state: incentive records and accumulators. *)
Definition set_rewards fi fa (s : store) : store :=
  {| pools := pools s; ticks := ticks s; positions := positions s;
     addressPoolPosition := addressPoolPosition s; poolPosition := poolPosition s;
     positionToLock := positionToLock s; lockToPosition := lockToPosition s;
     fullRangeLiquidity := fullRangeLiquidity s; denomLiquidity := denomLiquidity s;
     incentiveRecords := fi (incentiveRecords s); accums := fa (accums s);
     nextPositionId := nextPositionId s;
     nextIncentiveRecordId := nextIncentiveRecordId s; incentiveThreshold := incentiveThreshold s;
     spreadThreshold := spreadThreshold s; hookContracts := hookContracts s; world := world s |}.
Definition set_ids fp fi (s : store) : store :=
  {| pools := pools s; ticks := ticks s; positions := positions s;
     addressPoolPosition := addressPoolPosition s; poolPosition := poolPosition s;
     positionToLock := positionToLock s; lockToPosition := lockToPosition s;
     fullRangeLiquidity := fullRangeLiquidity s; denomLiquidity := denomLiquidity s;
     incentiveRecords := incentiveRecords s; accums := accums s;
     nextPositionId := fp (nextPositionId s);
     nextIncentiveRecordId := fi (nextIncentiveRecordId s);
     incentiveThreshold := incentiveThreshold s;
     spreadThreshold := spreadThreshold s; hookContracts := hookContracts s; world := world s |}.
(** Migration thresholds and hook contracts. *)
Definition set_config fi fs fh (s : store) : store :=
  {| pools := pools s; ticks := ticks s; positions := positions s;
     addressPoolPosition := addressPoolPosition s; poolPosition := poolPosition s;
     positionToLock := positionToLock s; lockToPosition := lockToPosition s;
     fullRangeLiquidity := fullRangeLiquidity s; denomLiquidity := denomLiquidity s;
     incentiveRecords := incentiveRecords s; accums := accums s;
     nextPositionId := nextPositionId s; nextIncentiveRecordId := nextIncentiveRecordId s;
     incentiveThreshold := fi (incentiveThreshold s); spreadThreshold := fs (spreadThreshold s);
     hookContracts := fh (hookContracts s); world := world s |}.
Definition set_world w (s : store) : store :=
  {| pools := pools s; ticks := ticks s; positions := positions s;
     addressPoolPosition := addressPoolPosition s; poolPosition := poolPosition s;
     positionToLock := positionToLock s; lockToPosition := lockToPosition s;
     fullRangeLiquidity := fullRangeLiquidity s; denomLiquidity := denomLiquidity s;
     incentiveRecords := incentiveRecords s; accums := accums s; nextPositionId := nextPositionId s;
     nextIncentiveRecordId := nextIncentiveRecordId s; incentiveThreshold := incentiveThreshold s;
     spreadThreshold := spreadThreshold s; hookContracts := hookContracts s; world := w |}.

(** A call on the accumulator store or on the outside world. *)
Definition on_accums {B} (m : M Accum.accumStore B) : M store B :=
  zoom accums (λ a, set_rewards id (λ _, a)) m.
Definition on_world {B} (m : World → outcome (B * World)) : M store B := zoom world set_world m.
Definition on_bank (m : World → outcome World) : M store unit :=
  on_world (λ w, w' ← m w; Ok (tt, w')).

(** *** pool.go: reading and writing pools *)

Definition getPoolById (poolId : Z) : M store Pool.Pool :=
  found ← gets (λ s, pools s !! poolId);
  match found with
  | None => throw "PoolNotFoundError"
  | Some pool => mret pool
  end.

Definition setPool (pool : Pool.Pool) : M store unit :=
  modify (set_pools (insert (Pool.Id pool) pool)).

(** *** position.go: reading positions *)

Definition hasPosition (positionId : Z) : M store bool :=
  gets (λ s, bool_decide (is_Some (positions s !! positionId))).

Definition GetPosition (positionId : Z) : M store Position :=
  found ← gets (λ s, positions s !! positionId);
  match found with
  | None => throw "PositionIdNotFoundError"
  | Some position => mret position
  end.

Definition GetPositionLiquidity (positionId : Z) : M store Dec.t :=
  position ← GetPosition positionId; mret (Liquidity position).

(** *** keeper.go: counters *)

(** Counters are [uint64]. *)
Definition wrap64 (n : Z) : Z := n mod 2 ^ 64.
Definition GetNextPositionId : M store Z := gets nextPositionId.
Definition SetNextPositionId (positionId : Z) : M store unit :=
  modify (set_ids (λ _, positionId) id).
Definition GetNextIncentiveRecordId : M store Z := gets nextIncentiveRecordId.
Definition SetNextIncentiveRecordId (i : Z) : M store unit := modify (set_ids id (λ _, i)).
Definition getNextPositionIdAndIncrement : M store Z :=
  nextPositionId ← GetNextPositionId;
  _ ← SetNextPositionId (wrap64 (nextPositionId + 1));
  mret nextPositionId.

(** *** Migration thresholds (incentives.go, spread_rewards.go) *)

Definition SetIncentivePoolIDMigrationThreshold (poolIDThreshold : Z) : M store unit :=
  modify (set_config (λ _, Some poolIDThreshold) id id).
Definition GetIncentivePoolIDMigrationThreshold : M store Z :=
  bz ← gets incentiveThreshold;
  match bz with
  | None => throw "incentive accumulator migration threshold not found"
  | Some threshold => mret threshold
  end.
Definition SetSpreadFactorPoolIDMigrationThreshold (poolIDThreshold : Z) : M store unit :=
  modify (set_config id (λ _, Some poolIDThreshold) id).
Definition GetSpreadFactorPoolIDMigrationThreshold : M store Z :=
  bz ← gets spreadThreshold;
  match bz with
  | None => throw "spread reward accumulator migration threshold not found"
  | Some threshold => mret threshold
  end.

(** *** total_liquidity.go *)

Definition setDenomLiquidity (denom : string) (amount : SdkInt.t) : M store unit :=
  modify (set_totals id (insert denom amount)).
Definition setTotalLiquidity (coins : coin.Coins) : M store unit :=
  for_each coins (λ c, setDenomLiquidity (coin.Denom c) (coin.Amount c)).
Definition GetDenomLiquidity (denom : string) : M store SdkInt.t :=
  gets (λ s, default (SdkInt.mk 0) (denomLiquidity s !! denom)).

Definition RecordTotalLiquidityIncrease (coins : coin.Coins) : M store unit :=
  for_each coins (λ c,
    amount ← GetDenomLiquidity (coin.Denom c);
    amount ← lift (sdk.IntAdd amount (coin.Amount c));
    setDenomLiquidity (coin.Denom c) amount).
Definition RecordTotalLiquidityDecrease (coins : coin.Coins) : M store unit :=
  for_each coins (λ c,
    amount ← GetDenomLiquidity (coin.Denom c);
    amount ← lift (sdk.IntSub amount (coin.Amount c));
    setDenomLiquidity (coin.Denom c) amount).

(** The iteration order of the store: the denominations in the order of their texts. *)
Definition GetTotalLiquidity : M store coin.Coins :=
  entries ← gets (λ s, merge_sort (λ x y, String.leb x.1 y.1) (map_to_list (denomLiquidity s)));
  fold_each entries ([] : coin.Coins) (λ coins kv,
    c ← lift (coin.NewCoin kv.1 kv.2);
    lift (coin.Add coins [c])).

(** *** pool_hooks.go *)

(** The messages the module sends to the contract registered for an action. *)
Inductive hookMsg : Type :=
| CreatePositionMsg (owner : addr.AccAddress) (tokensProvided : coin.Coins)
    (amount0Min amount1Min : SdkInt.t) (lowerTick upperTick : Z)
| WithdrawPositionMsg (owner : addr.AccAddress) (positionId : Z) (amountToWithdraw : Dec.t)
| SwapExactAmountInMsg (sender : addr.AccAddress) (tokenIn : coin.Coin) (tokenOutDenom : string)
    (tokenOutMinAmount : SdkInt.t) (spreadFactor : Dec.t)
| SwapExactAmountOutMsg (sender : addr.AccAddress) (tokenInDenom : string)
    (tokenInMaxAmount : SdkInt.t) (tokenOut : coin.Coin) (spreadFactor : Dec.t).

(** Contracts and listeners are other code: they may read the module's state and change the world, and
    a contract may call the module back. *)
Class Hooks : Type := {
  Sudo : addr.AccAddress → string → Z → hookMsg → M store unit;
  AfterConcentratedPoolCreated : addr.AccAddress → Z → M store unit;
  AfterInitialPoolPositionCreated : addr.AccAddress → Z → M store unit;
  AfterLastPoolPositionRemoved : addr.AccAddress → Z → M store unit;
  AfterConcentratedPoolSwap : addr.AccAddress → Z → coin.Coins → coin.Coins → M store unit;
}.

Definition BeforeActionPrefix (action : string) : string := "before" +:+ action.
Definition AfterActionPrefix (action : string) : string := "after" +:+ action.
Definition GetAllActionPrefixes : list string :=
  concat ((λ p, [BeforeActionPrefix p; AfterActionPrefix p]) <$>
    ["CreatePosition"; "WithdrawPosition"; "SwapExactAmountIn"; "SwapExactAmountOut"]).

Definition getPoolHookContract (poolId : Z) (actionPrefix : string) : M store string :=
  gets (λ s, default "" (hookContracts s !! (poolId, actionPrefix))).

Definition setPoolHookContract (poolID : Z) (actionPrefix cosmwasmAddress : string) : M store unit :=
  _ ← require (existsb (String.eqb actionPrefix) GetAllActionPrefixes) "InvalidActionPrefixError";
  if String.eqb cosmwasmAddress "" then modify (set_config id id (delete (poolID, actionPrefix)))
  else
    _ ← lift (addr.AccAddressFromBech32 cosmwasmAddress);
    modify (set_config id id (insert (poolID, actionPrefix) cosmwasmAddress)).

(** A panic of the contract, running out of gas included, becomes an error. *)
Definition recovered {B} (e : string) (m : M store B) : M store B := λ s, recover e (m s).

Context {H : Hooks}.

Definition callPoolActionListener (msg : hookMsg) (poolId : Z) (actionPrefix : string) : M store unit :=
  recovered "ContractHookOutOfGasError" (
    cosmwasmAddress ← getPoolHookContract poolId actionPrefix;
    if String.eqb cosmwasmAddress "" then mret tt
    else
      cwAddr ← lift (addr.AccAddressFromBech32 cosmwasmAddress);
      Sudo cwAddr actionPrefix poolId msg).

Definition BeforeCreatePosition (poolId : Z) (owner : addr.AccAddress) (tokensProvided : coin.Coins)
    (amount0Min amount1Min : SdkInt.t) (lowerTick upperTick : Z) : M store unit :=
  callPoolActionListener (CreatePositionMsg owner tokensProvided amount0Min amount1Min lowerTick upperTick)
    poolId (BeforeActionPrefix "CreatePosition").
Definition AfterCreatePosition (poolId : Z) (owner : addr.AccAddress) (tokensProvided : coin.Coins)
    (amount0Min amount1Min : SdkInt.t) (lowerTick upperTick : Z) : M store unit :=
  callPoolActionListener (CreatePositionMsg owner tokensProvided amount0Min amount1Min lowerTick upperTick)
    poolId (AfterActionPrefix "CreatePosition").
Definition BeforeWithdrawPosition (poolId : Z) (owner : addr.AccAddress) (positionId : Z)
    (amountToWithdraw : Dec.t) : M store unit :=
  callPoolActionListener (WithdrawPositionMsg owner positionId amountToWithdraw)
    poolId (BeforeActionPrefix "WithdrawPosition").
Definition AfterWithdrawPosition (poolId : Z) (owner : addr.AccAddress) (positionId : Z)
    (amountToWithdraw : Dec.t) : M store unit :=
  callPoolActionListener (WithdrawPositionMsg owner positionId amountToWithdraw)
    poolId (AfterActionPrefix "WithdrawPosition").
Definition BeforeSwapExactAmountIn (poolId : Z) (sender : addr.AccAddress) (tokenIn : coin.Coin)
    (tokenOutDenom : string) (tokenOutMinAmount : SdkInt.t) (spreadFactor : Dec.t) : M store unit :=
  callPoolActionListener (SwapExactAmountInMsg sender tokenIn tokenOutDenom tokenOutMinAmount spreadFactor)
    poolId (BeforeActionPrefix "SwapExactAmountIn").
Definition AfterSwapExactAmountIn (poolId : Z) (sender : addr.AccAddress) (tokenIn : coin.Coin)
    (tokenOutDenom : string) (tokenOutMinAmount : SdkInt.t) (spreadFactor : Dec.t) : M store unit :=
  callPoolActionListener (SwapExactAmountInMsg sender tokenIn tokenOutDenom tokenOutMinAmount spreadFactor)
    poolId (AfterActionPrefix "SwapExactAmountIn").
Definition BeforeSwapExactAmountOut (poolId : Z) (sender : addr.AccAddress) (tokenInDenom : string)
    (tokenInMaxAmount : SdkInt.t) (tokenOut : coin.Coin) (spreadFactor : Dec.t) : M store unit :=
  callPoolActionListener (SwapExactAmountOutMsg sender tokenInDenom tokenInMaxAmount tokenOut spreadFactor)
    poolId (BeforeActionPrefix "SwapExactAmountOut").
Definition AfterSwapExactAmountOut (poolId : Z) (sender : addr.AccAddress) (tokenInDenom : string)
    (tokenInMaxAmount : SdkInt.t) (tokenOut : coin.Coin) (spreadFactor : Dec.t) : M store unit :=
  callPoolActionListener (SwapExactAmountOutMsg sender tokenInDenom tokenInMaxAmount tokenOut spreadFactor)
    poolId (AfterActionPrefix "SwapExactAmountOut").
End store.
End CLStore.
