(* ===== verification/CLRewards.v ===== *)
(** Pool-wide reward state of the concentrated-liquidity module: incentives.go and spread_rewards.go,
    the parts that do not involve a position.

    A pool has one accumulator of spread rewards and one per supported uptime, and a list of incentive
    records that emit into the uptime accumulators.  Telemetry, logs and events are left out. *)
From stdpp Require Import prelude strings list gmap sorting.
From S2P Require Import Prelude.
From S2P Require Import GoBig.
From S2P Require Import GoState.
From S2P Require Import SdkDec.
From S2P Require Import SdkCoins.
From S2P Require Import CLKeys.
From S2P Require Import Accum.
From S2P Require Import CLPool.
From S2P Require Import CLStore.
Local Open Scope Z_scope.
Import CLStore.

Module CLRewards.
Abbreviation AccumulatorObject := Accum.AccumulatorObject.

(** types/constants.go: one nanosecond, one minute, one hour, one day, one week, two weeks. *)
Definition SupportedUptimes : list Z :=
  let minute := 60 * 10 ^ 9 in let hour := 60 * minute in
  [1; minute; hour; hour * 24; hour * 24 * 7; hour * 24 * 7 * 2].

(** types/migration.go *)
Definition MigratedIncentiveAccumulatorPoolIDs : list Z := [1423; 1213; 1298; 1297; 1292; 1431].
Definition MigratedSpreadFactorAccumulatorPoolIDsV25 : list Z :=
  [1260; 1264; 1477; 1134; 1261; 1281; 1423].
Definition MigratedIncentiveAccumulatorPoolIDsV24 : list Z := [1281; 1276; 1275; 1260].

Section rewards.
  Context {D : sdk.LegacyDec} {C : coin.CoinOps} {A : addr.Addresses} {E : Env} {T : Block}.
  Abbreviation K := (M store).

Definition NewDec (n : Z) : Dec.t := Dec.mk (n * Dec.one).
Definition perUnitLiqScalingFactor : outcome Dec.t := sdk.Mul (NewDec (10 ^ 15)) (NewDec (10 ^ 12)).
Definition oneDecScalingFactor : Dec.t := NewDec 1.
Definition oneDec : Dec.t := NewDec 1.
Definition dec1e9 : Dec.t := NewDec (10 ^ 9).
Definition emptyCoins : coin.DecCoins := [].

(** [time.Time.Sub] saturates at the limits of [int64]. *)
Definition time_sub (t u : Z) : Z := Z.max (- 2 ^ 63) (Z.min (2 ^ 63 - 1) (t - u)).

(** *** Accumulators *)

Definition createSpreadRewardAccumulator (poolId : Z) : K unit :=
  on_accums (Accum.MakeAccumulator (CLKeys.KeySpreadRewardPoolAccumulator poolId)).

Definition GetSpreadRewardAccumulator (poolId : Z) : K AccumulatorObject :=
  on_accums (Accum.GetAccumulator (CLKeys.KeySpreadRewardPoolAccumulator poolId)).

Definition uptimeIndices : list nat := seq 0 (length SupportedUptimes).

Definition createUptimeAccumulators (poolId : Z) : K unit :=
  for_each uptimeIndices (λ uptimeIndex,
    on_accums (Accum.MakeAccumulator (CLKeys.KeyUptimeAccumulator poolId (Z.of_nat uptimeIndex)))).

Definition GetUptimeAccumulators (poolId : Z) : K (list AccumulatorObject) :=
  map_each uptimeIndices (λ uptimeIndex,
    on_accums (Accum.GetAccumulator (CLKeys.KeyUptimeAccumulator poolId (Z.of_nat uptimeIndex)))).

Definition GetUptimeAccumulatorValues (poolId : Z) : K (list coin.DecCoins) :=
  uptimeAccums ← GetUptimeAccumulators poolId;
  mret (Accum.valuePerShare <$> uptimeAccums).

(** *** Scaling *)

Definition getIncentiveScalingFactorForPool (poolID : Z) : K Dec.t :=
  migrationThreshold ← GetIncentivePoolIDMigrationThreshold;
  if migrationThreshold <? poolID then lift perUnitLiqScalingFactor
  else if bool_decide (poolID ∈ MigratedIncentiveAccumulatorPoolIDs) then lift perUnitLiqScalingFactor
  else if bool_decide (poolID ∈ MigratedIncentiveAccumulatorPoolIDsV24) then lift perUnitLiqScalingFactor
  else mret oneDecScalingFactor.

Definition getSpreadFactorScalingFactorForPool (poolID : Z) : K Dec.t :=
  migrationThreshold ← GetSpreadFactorPoolIDMigrationThreshold;
  if migrationThreshold <? poolID then lift perUnitLiqScalingFactor
  else if bool_decide (poolID ∈ MigratedSpreadFactorAccumulatorPoolIDsV25)
  then lift perUnitLiqScalingFactor
  else mret oneDecScalingFactor.

Definition scaleUpTotalEmittedAmount (totalEmittedAmount scalingFactor : Dec.t) : outcome Dec.t :=
  recover "IncentiveScalingFactorOverflowError" (sdk.MulTruncate totalEmittedAmount scalingFactor).

Definition scaleDownIncentiveAmount (incentiveAmount : SdkInt.t) (scalingFactor : Dec.t)
    : outcome SdkInt.t :=
  q ← sdk.QuoTruncate (sdk.ToLegacyDec incentiveAmount) scalingFactor; sdk.TruncateInt q.

Definition scaleDownSpreadRewardAmount (incentiveAmount : SdkInt.t) (scalingFactor : Dec.t)
    : outcome SdkInt.t :=
  q ← sdk.QuoTruncate (sdk.ToLegacyDec incentiveAmount) scalingFactor; sdk.TruncateInt q.

Definition computeTotalIncentivesToEmit (timeElapsedSeconds emissionRate : Dec.t) : outcome Dec.t :=
  recover "IncentiveEmissionOvrflowError" (sdk.MulTruncate timeElapsedSeconds emissionRate).

(** *** Incentive records *)

Definition findUptimeIndex (uptime : Z) : outcome nat :=
  match list_find (λ e, e = uptime) SupportedUptimes with
  | None => Err "InvalidUptimeIndexError"
  | Some (index, _) => Ok index
  end.

Definition setIncentiveRecord (incentiveRecord : IncentiveRecord) : K unit :=
  uptimeIndex ← lift (findUptimeIndex (MinUptime incentiveRecord));
  let key := (IPoolId incentiveRecord, uptimeIndex, IncentiveId incentiveRecord) in
  let incentiveRecordBody := RecordBody incentiveRecord in
  let amount := coin.DAmount (RemainingCoin incentiveRecordBody) in
  has ← gets (λ s, bool_decide (is_Some (incentiveRecords s !! key)));
  if has && sdk.IsZero amount then modify (set_rewards (delete key) id)
  else if sdk.IsPositive amount then modify (set_rewards (insert key incentiveRecordBody) id)
  else mret tt.

Definition setMultipleIncentiveRecords (records : list IncentiveRecord) : K unit :=
  for_each records setIncentiveRecord.

(** [ParseFullIncentiveRecordFromBz]: the record of a stored key and body. *)
Definition parseIncentiveRecord (kv : Z * nat * Z * IncentiveRecordBody) : IncentiveRecord :=
  let '(poolId, uptimeIndex, i, body) := kv in
  {| IncentiveId := i; IPoolId := poolId; RecordBody := body;
     MinUptime := default 0 (SupportedUptimes !! uptimeIndex) |}.

(** The stored records that satisfy [P], in the order of their keys. *)
Definition recordsWhere (P : Z * nat * Z → bool) (s : store) : list IncentiveRecord :=
  let suffix (kv : Z * nat * Z * IncentiveRecordBody) :=
    CLKeys.KeyIncentiveRecord_suffix (Z.of_nat kv.1.1.2) kv.1.2 in
  parseIncentiveRecord <$>
    merge_sort (λ x y, String.leb (suffix x) (suffix y))
      (filter (λ kv, P kv.1) (map_to_list (incentiveRecords s))).

Definition GetAllIncentiveRecordsForPool (poolId : Z) : K (list IncentiveRecord) :=
  gets (recordsWhere (λ k, k.1.1 =? poolId)).

Definition getAllIncentiveRecordsForUptime (poolId minUptime : Z) : K (list IncentiveRecord) :=
  _ ← getPoolById poolId;
  uptimeIndex ← lift (findUptimeIndex minUptime);
  gets (recordsWhere (λ k, (k.1.1 =? poolId) && Nat.eqb k.1.2 uptimeIndex)).

Definition GetIncentiveRecord (poolId minUptime incentiveRecordId : Z) : K IncentiveRecord :=
  uptimeIndex ← lift (findUptimeIndex minUptime);
  found ← gets (λ s, incentiveRecords s !! (poolId, uptimeIndex, incentiveRecordId));
  match found with
  | None => throw "IncentiveRecordNotFoundError"
  | Some body => mret {| IPoolId := poolId; MinUptime := minUptime;
                         IncentiveId := incentiveRecordId; RecordBody := body |}
  end.

(** *** Emission *)

Definition with_remaining (amount : Dec.t) (r : IncentiveRecord) : IncentiveRecord :=
  {| IncentiveId := IncentiveId r; IPoolId := IPoolId r; MinUptime := MinUptime r;
     RecordBody := {| RemainingCoin :=
         {| coin.DDenom := coin.DDenom (RemainingCoin (RecordBody r)); coin.DAmount := amount |};
       EmissionRate := EmissionRate (RecordBody r); StartTime := StartTime (RecordBody r) |} |}.

(** The body of the loop: the coins to add so far and the record as the copy will hold it. *)
Definition emitRecord (accumUptime : Z) (liquidityInAccum timeElapsed incentiveScalingFactorForPool : Dec.t)
    (incentivesToAddToCurAccum : coin.DecCoins) (incentiveRecord : IncentiveRecord)
    : outcome (coin.DecCoins * IncentiveRecord) :=
  let incentiveRecordBody := RecordBody incentiveRecord in
  let skip := Ok (incentivesToAddToCurAccum, incentiveRecord) in
  if negb (StartTime incentiveRecordBody <? BlockTime) || negb (MinUptime incentiveRecord =? accumUptime)
  then skip
  else match computeTotalIncentivesToEmit timeElapsed (EmissionRate incentiveRecordBody) with
  | Panic p => Panic p
  | Err _ => skip
  | Ok totalEmittedAmount =>
    match scaleUpTotalEmittedAmount totalEmittedAmount incentiveScalingFactorForPool with
    | Panic p => Panic p
    | Err _ => skip
    | Ok scaledTotalEmittedAmount =>
      incentivesPerLiquidity ← sdk.QuoTruncate scaledTotalEmittedAmount liquidityInAccum;
      let denom := coin.DDenom (RemainingCoin incentiveRecordBody) in
      emittedIncentivesPerLiquidity ← coin.NewDecCoinFromDec denom incentivesPerLiquidity;
      let remainingRewards := coin.DAmount (RemainingCoin incentiveRecordBody) in
      if sdk.LTE totalEmittedAmount remainingRewards then
        toAdd ← coin.DecAdd incentivesToAddToCurAccum [emittedIncentivesPerLiquidity];
        remainingRewards ← sdk.Sub remainingRewards totalEmittedAmount;
        Ok (toAdd, with_remaining remainingRewards incentiveRecord)
      else
        match scaleUpTotalEmittedAmount remainingRewards incentiveScalingFactorForPool with
        | Panic p => Panic p
        | Err _ => skip
        | Ok remainingRewardsScaled =>
          remainingIncentivesPerLiquidity ← sdk.QuoTruncate remainingRewardsScaled liquidityInAccum;
          emitted ← coin.NewDecCoinFromDec denom remainingIncentivesPerLiquidity;
          toAdd ← coin.DecAdd incentivesToAddToCurAccum [emitted];
          Ok (toAdd, with_remaining (NewDec 0) incentiveRecord)
        end
    end
  end.

Fixpoint emitRecords (accumUptime : Z) (liquidityInAccum timeElapsed factor : Dec.t)
    (toAdd : coin.DecCoins) (records : list IncentiveRecord)
    : outcome (coin.DecCoins * list IncentiveRecord) :=
  match records with
  | [] => Ok (toAdd, [])
  | r :: records =>
    '(toAdd, r) ← emitRecord accumUptime liquidityInAccum timeElapsed factor toAdd r;
    '(toAdd, records) ← emitRecords accumUptime liquidityInAccum timeElapsed factor toAdd records;
    Ok (toAdd, r :: records)
  end.

Definition calcAccruedIncentivesForAccum (accumUptime : Z) (liquidityInAccum timeElapsed : Dec.t)
    (poolIncentiveRecords : list IncentiveRecord) (incentiveScalingFactorForPool : Dec.t)
    : outcome (coin.DecCoins * list IncentiveRecord) :=
  if negb (sdk.IsPositive liquidityInAccum) || negb (sdk.IsPositive timeElapsed)
  then Err "QualifyingLiquidityOrTimeElapsedNotPositiveError"
  else
    incentivesToAddToCurAccum ← coin.NewDecCoins [];
    emitRecords accumUptime liquidityInAccum timeElapsed incentiveScalingFactorForPool
      incentivesToAddToCurAccum poolIncentiveRecords.

(** The loop over the uptime accumulators: the updated copies and the updated records. *)
Fixpoint emitToAccums (uptimes : list Z) (uptimeAccums : list AccumulatorObject)
    (qualifyingLiquidity timeElapsedSec factor : Dec.t) (poolIncentiveRecords : list IncentiveRecord)
    : K (list AccumulatorObject * list IncentiveRecord) :=
  match uptimeAccums, uptimes with
  | [], _ => mret ([], poolIncentiveRecords)
  | _ :: _, [] => panic "index out of range"
  | a :: uptimeAccums, curUptimeDuration :: uptimes =>
    '(incentivesToAddToCurAccum, updatedPoolRecords) ←
      lift (calcAccruedIncentivesForAccum curUptimeDuration qualifyingLiquidity timeElapsedSec
              poolIncentiveRecords factor);
    a ← on_accums (Accum.AddToAccumulator a incentivesToAddToCurAccum);
    '(uptimeAccums, records) ←
      emitToAccums uptimes uptimeAccums qualifyingLiquidity timeElapsedSec factor updatedPoolRecords;
    mret (a :: uptimeAccums, records)
  end.

(** The pool object and the accumulator objects belong to the caller and are updated in place. *)
Definition updateGivenPoolUptimeAccumulatorsToNow (pool : Pool.Pool)
    (uptimeAccums : list AccumulatorObject) : K (Pool.Pool * list AccumulatorObject) :=
  let timeElapsedNanoSec := NewDec (time_sub BlockTime (Pool.LastLiquidityUpdate pool)) in
  timeElapsedSec ← lift (sdk.Quo timeElapsedNanoSec dec1e9);
  if sdk.IsZero timeElapsedSec then mret (pool, uptimeAccums)
  else if sdk.IsNegative timeElapsedSec then throw "TimeElapsedNotPositiveError"
  else
    let poolId := Pool.Id pool in
    poolIncentiveRecords ← GetAllIncentiveRecordsForPool poolId;
    incentiveScalingFactorForPool ← getIncentiveScalingFactorForPool poolId;
    let qualifyingLiquidity := Pool.CurrentTickLiquidity pool in
    '(uptimeAccums, poolIncentiveRecords) ←
      (if negb (sdk.LT qualifyingLiquidity oneDec) then
         emitToAccums SupportedUptimes uptimeAccums qualifyingLiquidity timeElapsedSec
           incentiveScalingFactorForPool poolIncentiveRecords
       else mret (uptimeAccums, poolIncentiveRecords));
    _ ← setMultipleIncentiveRecords poolIncentiveRecords;
    let pool := Pool.SetLastLiquidityUpdate BlockTime pool in
    _ ← setPool pool;
    mret (pool, uptimeAccums).

Definition updatePoolUptimeAccumulatorsToNowWithPool (pool : Pool.Pool) : K Pool.Pool :=
  uptimeAccums ← GetUptimeAccumulators (Pool.Id pool);
  '(pool, _) ← updateGivenPoolUptimeAccumulatorsToNow pool uptimeAccums;
  mret pool.

Definition UpdatePoolUptimeAccumulatorsToNow (poolId : Z) : K unit :=
  pool ← getPoolById poolId;
  _ ← updatePoolUptimeAccumulatorsToNowWithPool pool;
  mret tt.

(** *** Initial values of a tick's trackers *)

Definition getInitialUptimeGrowthOppositeDirectionOfLastTraversalForTick (pool : Pool.Pool) (tick : Z)
    : K (list coin.DecCoins) :=
  if tick <=? Pool.CurrentTick pool then GetUptimeAccumulatorValues (Pool.Id pool)
  else mret ((λ _, emptyCoins) <$> SupportedUptimes).

Definition getInitialSpreadRewardGrowthOppositeDirectionOfLastTraversalForTick (pool : Pool.Pool)
    (tick : Z) : K coin.DecCoins :=
  if tick <=? Pool.CurrentTick pool then
    spreadRewardAccumulator ← GetSpreadRewardAccumulator (Pool.Id pool);
    mret (Accum.valuePerShare spreadRewardAccumulator)
  else mret emptyCoins.

(** *** Creating incentives *)

(** Gas costs are left out. *)
Definition CreateIncentive (poolId : Z) (sender : addr.AccAddress) (incentiveCoin : coin.Coin)
    (emissionRate : Dec.t) (startTime minUptime : Z) : K IncentiveRecord :=
  pool ← getPoolById poolId;
  _ ← require (negb (negb (coin.IsValid incentiveCoin) || sdk.IntIsZero (coin.Amount incentiveCoin)))
        "InvalidIncentiveCoinError";
  _ ← require (negb (startTime <? BlockTime)) "StartTimeTooEarlyError";
  _ ← require (sdk.IsPositive emissionRate) "NonPositiveEmissionRateError";
  authorizedUptimes ← gets (λ s, AuthorizedUptimes (GetParams (world s)));
  _ ← require (bool_decide (minUptime ∈ authorizedUptimes)) "InvalidMinUptimeError";
  senderHasBalance ← gets (λ s, HasBalance (world s) sender incentiveCoin);
  _ ← require senderHasBalance "IncentiveInsufficientBalanceError";
  _ ← UpdatePoolUptimeAccumulatorsToNow poolId;
  incentiveRecordId ← GetNextIncentiveRecordId;
  _ ← SetNextIncentiveRecordId (wrap64 (incentiveRecordId + 1));
  remaining ← lift (coin.NewDecCoinFromCoin incentiveCoin);
  let incentiveRecord :=
    {| IPoolId := poolId; MinUptime := minUptime; IncentiveId := incentiveRecordId;
       RecordBody := {| RemainingCoin := remaining; EmissionRate := emissionRate;
                        StartTime := startTime |} |} in
  _ ← getAllIncentiveRecordsForUptime poolId minUptime;
  _ ← setIncentiveRecord incentiveRecord;
  incentivesAddress ← lift (Pool.GetIncentivesAddress pool);
  coins ← lift (coin.NewCoins [incentiveCoin]);
  _ ← on_bank (SendCoins sender incentivesAddress coins);
  mret incentiveRecord.
End rewards.
End CLRewards.
