(* ===== verification/CLTickStore.v ===== *)
(** Initialized ticks: x/concentrated-liquidity/tick.go and the iterators of swapstrategy.

    A tick's entry holds the gross and net liquidity of the positions that end there, and its reward
    trackers.  An iterator over the ticks of a pool is the list of the entries it has not passed yet;
    a swap writes only entries it has already read. *)
From stdpp Require Import prelude strings list gmap sorting.
From S2P Require Import Prelude.
From S2P Require Import GoBig.
From S2P Require Import GoState.
From S2P Require Import SdkDec.
From S2P Require Import SdkCoins.
From S2P Require Import Decimal.
From S2P Require Import CLTick.
From S2P Require Import Accum.
From S2P Require Import CLPool.
From S2P Require Import CLStore.
From S2P Require Import CLRewards.
Local Open Scope Z_scope.
Import CLConst CLTick CLStore CLRewards.

Module CLTickStore.
Section ticks.
  Context {D : sdk.LegacyDec} {C : coin.CoinOps} {A : addr.Addresses} {E : Env} {T : Block}.
  Abbreviation K := (M store).

Definition zeroDec : Dec.t := Dec.mk 0.

(** *** The entry of a tick *)

Definition makeInitialTickInfo (poolId tickIndex : Z) : K TickInfo :=
  pool ← getPoolById poolId;
  initialSpreadRewardGrowth ←
    getInitialSpreadRewardGrowthOppositeDirectionOfLastTraversalForTick pool tickIndex;
  pool ← updatePoolUptimeAccumulatorsToNowWithPool pool;
  initialUptimeTrackers ←
    getInitialUptimeGrowthOppositeDirectionOfLastTraversalForTick pool tickIndex;
  mret {| LiquidityGross := zeroDec; LiquidityNet := zeroDec;
          SpreadRewardGrowthOppositeDirectionOfLastTraversal := initialSpreadRewardGrowth;
          UptimeTrackers := initialUptimeTrackers |}.

Definition GetTickInfo (poolId tickIndex : Z) : K TickInfo :=
  found ← gets (λ s, ticks s !! (poolId, tickIndex));
  match found with
  | None => makeInitialTickInfo poolId tickIndex
  | Some tickStruct => mret tickStruct
  end.

Definition SetTickInfo (poolId tickIndex : Z) (tickInfo : TickInfo) : K unit :=
  modify (set_ticks (insert (poolId, tickIndex) tickInfo)).

Definition RemoveTickInfo (poolId tickIndex : Z) : K unit :=
  modify (set_ticks (delete (poolId, tickIndex))).

Definition with_tick_liquidity (gross net : Dec.t) (t : TickInfo) : TickInfo :=
  {| LiquidityGross := gross; LiquidityNet := net;
     SpreadRewardGrowthOppositeDirectionOfLastTraversal :=
       SpreadRewardGrowthOppositeDirectionOfLastTraversal t;
     UptimeTrackers := UptimeTrackers t |}.

(** Gas costs are left out. *)
Definition initOrUpdateTick (poolId tickIndex : Z) (liquidityDelta : Dec.t) (upper : bool) : K bool :=
  tickInfo ← GetTickInfo poolId tickIndex;
  let liquidityBefore := LiquidityGross tickInfo in
  liquidityAfter ← lift (sdk.Add liquidityBefore liquidityDelta);
  liquidityNet ← lift (if upper then sdk.Sub (LiquidityNet tickInfo) liquidityDelta
                       else sdk.Add (LiquidityNet tickInfo) liquidityDelta);
  let tickInfo := with_tick_liquidity liquidityAfter liquidityNet tickInfo in
  let tickIsEmpty := sdk.IsZero (LiquidityGross tickInfo) && sdk.IsZero (LiquidityNet tickInfo) in
  _ ← SetTickInfo poolId tickIndex tickInfo;
  mret tickIsEmpty.

(** The trackers are flipped for the accumulators given; an index beyond the trackers panics. *)
Fixpoint flipTrackers (uptimeAccums : list AccumulatorObject) (trackers : list coin.DecCoins)
    : outcome (list coin.DecCoins) :=
  match uptimeAccums, trackers with
  | [], _ => Ok trackers
  | _ :: _, [] => Panic "index out of range"
  | a :: uptimeAccums, t :: trackers =>
    t ← coin.DecSub (Accum.valuePerShare a) t;
    trackers ← flipTrackers uptimeAccums trackers;
    Ok (t :: trackers)
  end.

Definition crossTick (poolId tickIndex : Z) (tickInfo : TickInfo)
    (swapStateSpreadRewardGrowth : coin.DecCoin) (spreadRewardAccumValue : coin.DecCoins)
    (uptimeAccums : list AccumulatorObject) : K unit :=
  total ← lift (coin.DecAdd spreadRewardAccumValue [swapStateSpreadRewardGrowth]);
  growth ← lift (coin.DecSub total (SpreadRewardGrowthOppositeDirectionOfLastTraversal tickInfo));
  updatedUptimeTrackers ← lift (flipTrackers uptimeAccums (UptimeTrackers tickInfo));
  SetTickInfo poolId tickIndex
    {| LiquidityGross := LiquidityGross tickInfo; LiquidityNet := LiquidityNet tickInfo;
       SpreadRewardGrowthOppositeDirectionOfLastTraversal := growth;
       UptimeTrackers := updatedUptimeTrackers |}.

(** *** Ranges *)

(** [int64(tickSpacing)], and Go's truncated remainder, which panics on zero. *)
Definition rem64 (tick tickSpacing : Z) : outcome Z :=
  let sp := int64_of_uint64 tickSpacing in
  if sp =? 0 then Panic "integer divide by zero" else Ok (Z.rem tick sp).

Definition validateTickRangeIsValid (tickSpacing lowerTick upperTick : Z) : outcome unit :=
  rl ← rem64 lowerTick tickSpacing;
  bad ← (if negb (rl =? 0) then Ok true
         else ru ← rem64 upperTick tickSpacing; Ok (negb (ru =? 0)));
  _ ← guard_err (negb bad) "TickSpacingError";
  _ ← guard_err (negb ((lowerTick <? MinInitializedTick) || (MaxTick <=? lowerTick))) "InvalidTickError";
  _ ← guard_err (negb ((MaxTick <? upperTick) || (upperTick <=? MinInitializedTick))) "InvalidTickError";
  guard_err (negb (upperTick <=? lowerTick)) "InvalidLowerUpperTickError".

Definition roundTickToCanonicalPriceTick (lowerTick upperTick : Z)
    (sqrtPriceTickLower sqrtPriceTickUpper : BigDec.t) (tickSpacing : Z) : outcome (Z * Z) :=
  newLowerTick ← SqrtPriceToTickRoundDownSpacing sqrtPriceTickLower tickSpacing;
  newUpperTick ← SqrtPriceToTickRoundDownSpacing sqrtPriceTickUpper tickSpacing;
  _ ← (if negb (lowerTick =? newLowerTick) || negb (upperTick =? newUpperTick)
       then validateTickRangeIsValid tickSpacing newLowerTick newUpperTick
       else Ok tt);
  Ok (newLowerTick, newUpperTick).

(** *** Iteration *)

(** The entries of a pool in increasing order of ticks, which is the order of their keys. *)
Definition tick_le (x y : Z * TickInfo) : Prop := x.1 ≤ y.1.
#[export] Instance tick_le_dec : RelDecision tick_le := λ x y, Z.le_dec x.1 y.1.
Definition pool_ticks (poolId : Z) (s : store) : list (Z * TickInfo) :=
  merge_sort tick_le
    ((λ kv, (kv.1.2, kv.2)) <$> filter (λ kv, kv.1.1 = poolId) (map_to_list (ticks s))).

Definition GetAllInitializedTicksForPool (poolId : Z) : K (list (Z * TickInfo)) :=
  gets (pool_ticks poolId).

(** [InitializeNextTickIterator] of the two strategies. *)
Definition oneForZero_iterator (poolId currentTickIndex : Z) (s : store) : list (Z * TickInfo) :=
  filter (λ kv, currentTickIndex < kv.1) (pool_ticks poolId s).
Definition zeroForOne_iterator (poolId currentTickIndex : Z) (s : store) : list (Z * TickInfo) :=
  reverse (filter (λ kv, kv.1 ≤ currentTickIndex) (pool_ticks poolId s)).
Definition InitializeNextTickIterator (zeroForOne : bool) (poolId currentTickIndex : Z)
    : K (list (Z * TickInfo)) :=
  gets (if zeroForOne then zeroForOne_iterator poolId currentTickIndex
        else oneForZero_iterator poolId currentTickIndex).
End ticks.
End CLTickStore.
