(* ===== verification/CLClaims.v ===== *)
(** Rewards of positions: the parts of incentives.go and spread_rewards.go that settle, claim and
    redeposit what a position has earned, with osmoutils/coin_helper.go.

    A position's record in an accumulator holds the growth inside its range at its last settlement.
    Before it is settled again the growth outside the range is added to it, so that the difference to
    the global value is the growth inside since then.  Events and logs are left out. *)
From stdpp Require Import prelude strings list gmap.
From S2P Require Import Prelude.
From S2P Require Import GoBig.
From S2P Require Import GoState.
From S2P Require Import SdkDec.
From S2P Require Import SdkCoins.
From S2P Require Import CLKeys.
From S2P Require Import Accum.
From S2P Require Import CLPool.
From S2P Require Import CLStore.
From S2P Require Import CLRewards.
From S2P Require Import CLTickStore.
Local Open Scope Z_scope.
Import CLStore CLRewards CLTickStore.

Module CoinArrays.
Section arrays.
  Context {C : coin.CoinOps}.
Fixpoint sub_each (a b : list coin.DecCoins) : outcome (list coin.DecCoins) :=
  match a, b with
  | x :: a, y :: b => r ← coin.DecSub x y; rs ← sub_each a b; Ok (r :: rs)
  | _, _ => Ok []
  end.
Definition SubDecCoinArrays (a b : list coin.DecCoins) : outcome (list coin.DecCoins) :=
  if negb (Nat.eqb (length a) (length b)) then Err "DecCoin arrays must be of equal length to be subtracted"
  else sub_each a b.

Fixpoint safe_sub_each (a b : list coin.DecCoins) : outcome (list coin.DecCoins) :=
  match a, b with
  | x :: a, y :: b => '(r, _) ← coin.DecSafeSub x y; rs ← safe_sub_each a b; Ok (r :: rs)
  | _, _ => Ok []
  end.
Definition SafeSubDecCoinArrays (a b : list coin.DecCoins) : outcome (list coin.DecCoins) :=
  if negb (Nat.eqb (length a) (length b)) then Err "DecCoin arrays must be of equal length to be subtracted"
  else safe_sub_each a b.

Fixpoint add_each (a b : list coin.DecCoins) : outcome (list coin.DecCoins) :=
  match a, b with
  | x :: a, y :: b => r ← coin.DecAdd x y; rs ← add_each a b; Ok (r :: rs)
  | _, _ => Ok []
  end.
Definition AddDecCoinArrays (a b : list coin.DecCoins) : outcome (list coin.DecCoins) :=
  if negb (Nat.eqb (length a) (length b)) then Err "DecCoin arrays must be of equal length to be added"
  else add_each a b.
End arrays.
End CoinArrays.
Import CoinArrays.

Module CLClaims.
Section claims.
  Context {D : sdk.LegacyDec} {C : coin.CoinOps} {A : addr.Addresses} {E : Env} {T : Block}.
  Abbreviation K := (M store).

(** *** Growth inside and outside a range *)

Definition calculateSpreadRewardGrowth (targetTick : Z) (ticksGrowth : coin.DecCoins) (currentTick : Z)
    (spreadRewardsGrowthGlobal : coin.DecCoins) (isUpperTick : bool) : outcome coin.DecCoins :=
  if (isUpperTick && (targetTick <=? currentTick)) || (negb isUpperTick && (currentTick <? targetTick))
  then coin.DecSub spreadRewardsGrowthGlobal ticksGrowth
  else Ok ticksGrowth.

Definition getSpreadRewardGrowthOutside (poolId lowerTick upperTick : Z) : K coin.DecCoins :=
  pool ← getPoolById poolId;
  let currentTick := Pool.CurrentTick pool in
  lowerTickInfo ← GetTickInfo poolId lowerTick;
  upperTickInfo ← GetTickInfo poolId upperTick;
  poolSpreadRewardAccumulator ← GetSpreadRewardAccumulator poolId;
  let poolSpreadRewardGrowth := Accum.valuePerShare poolSpreadRewardAccumulator in
  above ← lift (calculateSpreadRewardGrowth upperTick
    (SpreadRewardGrowthOppositeDirectionOfLastTraversal upperTickInfo) currentTick
    poolSpreadRewardGrowth true);
  below ← lift (calculateSpreadRewardGrowth lowerTick
    (SpreadRewardGrowthOppositeDirectionOfLastTraversal lowerTickInfo) currentTick
    poolSpreadRewardGrowth false);
  lift (coin.DecAdd above below).

Definition GetUptimeGrowthInsideRange (poolId lowerTick upperTick : Z) : K (list coin.DecCoins) :=
  pool ← getPoolById poolId;
  globalUptimeValues ← GetUptimeAccumulatorValues poolId;
  let currentTick := Pool.CurrentTick pool in
  lowerTickInfo ← GetTickInfo poolId lowerTick;
  upperTickInfo ← GetTickInfo poolId upperTick;
  let lowerTickUptimeValues := UptimeTrackers lowerTickInfo in
  let upperTickUptimeValues := UptimeTrackers upperTickInfo in
  if currentTick <? lowerTick then
    lift (SafeSubDecCoinArrays lowerTickUptimeValues upperTickUptimeValues)
  else if currentTick <? upperTick then
    globalMinusUpper ← lift (SubDecCoinArrays globalUptimeValues upperTickUptimeValues);
    lift (SafeSubDecCoinArrays globalMinusUpper lowerTickUptimeValues)
  else lift (SafeSubDecCoinArrays upperTickUptimeValues lowerTickUptimeValues).

Definition GetUptimeGrowthOutsideRange (poolId lowerTick upperTick : Z) : K (list coin.DecCoins) :=
  globalUptimeValues ← GetUptimeAccumulatorValues poolId;
  uptimeGrowthInside ← GetUptimeGrowthInsideRange poolId lowerTick upperTick;
  lift (SubDecCoinArrays globalUptimeValues uptimeGrowthInside).

(** *** Settling a position's record *)

Definition updatePositionToInitValuePlusGrowthOutside (accumulator : AccumulatorObject)
    (positionKey : string) (growthOutside : coin.DecCoins) : M Accum.accumStore unit :=
  position ← Accum.GetPosition accumulator positionKey;
  intervalAccumulationOutside ← lift (coin.DecAdd (Accum.AccumValuePerShare position) growthOutside);
  Accum.SetPositionIntervalAccumulation accumulator positionKey intervalAccumulationOutside.

Definition initOrUpdatePositionSpreadRewardAccumulator (poolId lowerTick upperTick positionId : Z)
    (liquidityDelta : Dec.t) : K unit :=
  spreadRewardAccumulator ← GetSpreadRewardAccumulator poolId;
  let positionKey := CLKeys.KeySpreadRewardPositionAccumulator positionId in
  hasPosition ← on_accums (Accum.HasPosition spreadRewardAccumulator positionKey);
  spreadRewardGrowthOutside ← getSpreadRewardGrowthOutside poolId lowerTick upperTick;
  '(spreadRewardGrowthInside, _) ←
    lift (coin.DecSafeSub (Accum.valuePerShare spreadRewardAccumulator) spreadRewardGrowthOutside);
  if negb hasPosition then
    _ ← require (sdk.IsPositive liquidityDelta) "NonPositiveLiquidityForNewPositionError";
    _ ← on_accums (Accum.NewPositionIntervalAccumulation spreadRewardAccumulator positionKey
          liquidityDelta spreadRewardGrowthInside None);
    mret tt
  else
    _ ← on_accums (updatePositionToInitValuePlusGrowthOutside spreadRewardAccumulator positionKey
          spreadRewardGrowthOutside);
    _ ← on_accums (Accum.UpdatePositionIntervalAccumulation spreadRewardAccumulator positionKey
          liquidityDelta spreadRewardGrowthInside);
    mret tt.

(** The loop over the uptime accumulators; the two growth arrays are indexed along with them. *)
Fixpoint settleUptimes (positionName : string) (liquidity liquidityDelta : Dec.t)
    (uptimeAccumulators : list AccumulatorObject) (inside outside : list coin.DecCoins) : K unit :=
  match uptimeAccumulators with
  | [] => mret tt
  | curUptimeAccum :: uptimeAccumulators =>
    recordExists ← on_accums (Accum.HasPosition curUptimeAccum positionName);
    _ ← (if negb recordExists then
           _ ← require (sdk.IsPositive liquidityDelta) "NonPositiveLiquidityForNewPositionError";
           match inside with
           | [] => panic "index out of range"
           | growthInside :: _ =>
             _ ← on_accums (Accum.NewPositionIntervalAccumulation curUptimeAccum positionName
                   liquidity growthInside (Some Accum.mkOptions));
             mret tt
           end
         else
           match inside, outside with
           | growthInside :: _, growthOutside :: _ =>
             _ ← on_accums (updatePositionToInitValuePlusGrowthOutside curUptimeAccum positionName
                   growthOutside);
             _ ← on_accums (Accum.UpdatePositionIntervalAccumulation curUptimeAccum positionName
                   liquidityDelta growthInside);
             mret tt
           | _, _ => panic "index out of range"
           end);
    settleUptimes positionName liquidity liquidityDelta uptimeAccumulators (tail inside) (tail outside)
  end.

Definition initOrUpdatePositionUptimeAccumulators (poolId : Z) (liquidity : Dec.t)
    (lowerTick upperTick : Z) (liquidityDelta : Dec.t) (positionId : Z) : K unit :=
  _ ← UpdatePoolUptimeAccumulatorsToNow poolId;
  uptimeAccumulators ← GetUptimeAccumulators poolId;
  globalUptimeGrowthInsideRange ← GetUptimeGrowthInsideRange poolId lowerTick upperTick;
  globalUptimeGrowthOutsideRange ← GetUptimeGrowthOutsideRange poolId lowerTick upperTick;
  settleUptimes (CLKeys.KeyPositionId positionId) liquidity liquidityDelta uptimeAccumulators
    globalUptimeGrowthInsideRange globalUptimeGrowthOutsideRange.

(** *** Claiming *)

Definition updateAccumAndClaimRewards (accum : AccumulatorObject) (positionKey : string)
    (growthOutside : coin.DecCoins) : M Accum.accumStore (coin.Coins * coin.DecCoins) :=
  _ ← updatePositionToInitValuePlusGrowthOutside accum positionKey growthOutside;
  '(incentivesClaimedCurrAccum, dust) ← Accum.ClaimRewards accum positionKey;
  hasPosition ← Accum.HasPosition accum positionKey;
  _ ← (if (hasPosition : bool) then
         '(currentGrowthInsideForPosition, _) ←
           lift (coin.DecSafeSub (Accum.valuePerShare accum) growthOutside);
         Accum.SetPositionIntervalAccumulation accum positionKey currentGrowthInsideForPosition
       else mret tt);
  mret (incentivesClaimedCurrAccum, dust).

Definition moveRewardsToNewPositionAndDeleteOldAcc (accum : AccumulatorObject)
    (oldPositionName newPositionName : string) (growthOutside : coin.DecCoins)
    : M Accum.accumStore unit :=
  _ ← require (negb (String.eqb oldPositionName newPositionName)) "ModifySamePositionAccumulatorError";
  hasPosition ← Accum.HasPosition accum oldPositionName;
  _ ← require (S := Accum.accumStore) hasPosition "position does not exist";
  _ ← updatePositionToInitValuePlusGrowthOutside accum oldPositionName growthOutside;
  '(unclaimedRewards, accum) ← Accum.DeletePosition accum oldPositionName;
  _ ← Accum.AddToUnclaimedRewards accum newPositionName unclaimedRewards;
  currentGrowthInsideForPosition ← lift (coin.DecSub (Accum.valuePerShare accum) growthOutside);
  Accum.SetPositionIntervalAccumulation accum newPositionName currentGrowthInsideForPosition.

(** Scaled-down claims; the loop keeps the coins that are not zero. *)
Fixpoint scaleDownClaims (coins : coin.Coins) (factor : Dec.t) (claimed : coin.Coins)
    : outcome coin.Coins :=
  match coins with
  | [] => Ok claimed
  | c :: coins =>
    scaledCoinAmt ← scaleDownSpreadRewardAmount (coin.Amount c) factor;
    claimed ← (if sdk.IntIsZero scaledCoinAmt then Ok claimed
               else n ← coin.NewCoin (coin.Denom c) scaledCoinAmt; Ok (claimed ++ [n]));
    scaleDownClaims coins factor claimed
  end.

Definition prepareClaimableSpreadRewards (positionId : Z) : K coin.Coins :=
  position ← GetPosition positionId;
  spreadRewardAccumulator ← GetSpreadRewardAccumulator (PoolId position);
  let positionKey := CLKeys.KeySpreadRewardPositionAccumulator positionId in
  hasPosition ← on_accums (Accum.HasPosition spreadRewardAccumulator positionKey);
  _ ← require hasPosition "SpreadRewardPositionNotFoundError";
  spreadRewardGrowthOutside ←
    getSpreadRewardGrowthOutside (PoolId position) (LowerTick position) (UpperTick position);
  '(spreadRewardsClaimedScaled, forfeitedDustScaled) ←
    on_accums (updateAccumAndClaimRewards spreadRewardAccumulator positionKey spreadRewardGrowthOutside);
  spreadFactorScalingFactor ← getSpreadFactorScalingFactorForPool (PoolId position);
  '(spreadRewardsClaimed, forfeitedDust) ←
    (if sdk.Equal spreadFactorScalingFactor oneDec then
       mret (spreadRewardsClaimedScaled, forfeitedDustScaled)
     else
       claimed ← lift (scaleDownClaims spreadRewardsClaimedScaled spreadFactorScalingFactor []);
       mret (claimed, []));
  _ ← (if negb (coin.DecIsZero forfeitedDust) then
         spreadRewardAccumulator ← GetSpreadRewardAccumulator (PoolId position);
         let totalSharesRemaining := Accum.totalShares spreadRewardAccumulator in
         if negb (sdk.IsZero totalSharesRemaining) then
           forfeitedDustPerShareScaled ←
             lift (coin.QuoDecTruncate forfeitedDust totalSharesRemaining);
           _ ← on_accums (Accum.AddToAccumulator spreadRewardAccumulator forfeitedDustPerShareScaled);
           mret tt
         else mret tt
       else mret tt);
  mret spreadRewardsClaimed.

Definition GetClaimableSpreadRewards (positionId : Z) : K coin.Coins :=
  cached (prepareClaimableSpreadRewards positionId).

Definition collectSpreadRewards (sender : addr.AccAddress) (positionId : Z) : K coin.Coins :=
  position ← GetPosition positionId;
  _ ← require (String.eqb (addr.AddressString sender) (PAddress position)) "NotPositionOwnerError";
  spreadRewardsClaimed ← prepareClaimableSpreadRewards positionId;
  if coin.IsZero spreadRewardsClaimed then mret []
  else
    pool ← getPoolById (PoolId position);
    from ← lift (Pool.GetSpreadRewardsAddress pool);
    _ ← on_bank (SendCoins from sender spreadRewardsClaimed);
    mret spreadRewardsClaimed.

(** Scaled-down incentives; the loop keeps the positive coins. *)
Fixpoint scaleDownIncentives (coins : coin.Coins) (factor : Dec.t) (collected : coin.Coins)
    : outcome coin.Coins :=
  match coins with
  | [] => Ok collected
  | c :: coins =>
    amount ← scaleDownIncentiveAmount (coin.Amount c) factor;
    let c := {| coin.Denom := coin.Denom c; coin.Amount := amount |} in
    scaleDownIncentives coins factor
      (if sdk.IntIsPositive amount then collected ++ [c] else collected)
  end.

(** The loop over the uptime accumulators: collected, forfeited, and the scaled forfeits by uptime. *)
Fixpoint claimUptimes (positionName : string) (positionAge : Z) (incentiveScalingFactor : Dec.t)
    (uptimes : list Z) (uptimeAccumulators : list AccumulatorObject) (outside : list coin.DecCoins)
    (collected forfeited : coin.Coins) : K (coin.Coins * coin.Coins * list coin.Coins) :=
  match uptimeAccumulators, uptimes with
  | [], _ => mret (collected, forfeited, (λ _, []) <$> uptimes)
  | _ :: _, [] => panic "index out of range"
  | uptimeAccum :: uptimeAccumulators, supportedUptime :: uptimes =>
    hasPosition ← on_accums (Accum.HasPosition uptimeAccum positionName);
    '(collected, forfeited, scaledForfeited) ←
      (if (hasPosition : bool) then
         match outside with
         | [] => panic "index out of range"
         | growthOutside :: _ =>
           '(collectedScaled, _) ←
             on_accums (updateAccumAndClaimRewards uptimeAccum positionName growthOutside);
           collectedForUptime ← lift (scaleDownIncentives collectedScaled incentiveScalingFactor []);
           if positionAge <? supportedUptime then
             forfeited ← lift (coin.Add forfeited collectedForUptime);
             mret (collected, forfeited, collectedScaled)
           else
             collected ← lift (coin.Add collected collectedForUptime);
             mret (collected, forfeited, [])
         end
       else mret (collected, forfeited, []));
    '(collected, forfeited, rest) ←
      claimUptimes positionName positionAge incentiveScalingFactor uptimes uptimeAccumulators
        (tail outside) collected forfeited;
    mret (collected, forfeited, scaledForfeited :: rest)
  end.

Definition prepareClaimAllIncentivesForPosition (positionId : Z)
    : K (coin.Coins * coin.Coins * list coin.Coins) :=
  position ← GetPosition positionId;
  _ ← UpdatePoolUptimeAccumulatorsToNow (PoolId position);
  let positionAge := time_sub BlockTime (JoinTime position) in
  _ ← require (negb (positionAge <? 0)) "NegativeDurationError";
  uptimeAccumulators ← GetUptimeAccumulators (PoolId position);
  uptimeGrowthOutside ←
    GetUptimeGrowthOutsideRange (PoolId position) (LowerTick position) (UpperTick position);
  incentiveScalingFactor ← getIncentiveScalingFactorForPool (PoolId position);
  claimUptimes (CLKeys.KeyPositionId positionId) positionAge incentiveScalingFactor
    SupportedUptimes uptimeAccumulators uptimeGrowthOutside [] [].

Definition GetClaimableIncentives (positionId : Z) : K (coin.Coins * coin.Coins) :=
  '(collectedIncentives, forfeitedIncentives, _) ←
    cached (prepareClaimAllIncentivesForPosition positionId);
  mret (collectedIncentives, forfeitedIncentives).

Definition collectIncentives (sender : addr.AccAddress) (positionId : Z)
    : K (coin.Coins * coin.Coins * list coin.Coins) :=
  position ← GetPosition positionId;
  _ ← require (String.eqb (addr.AddressString sender) (PAddress position)) "NotPositionOwnerError";
  '(collected, forfeited, scaled) ← prepareClaimAllIncentivesForPosition (PositionId position);
  if coin.IsZero collected && coin.IsZero forfeited then mret (collected, forfeited, scaled)
  else
    pool ← getPoolById (PoolId position);
    _ ← (if negb (coin.IsZero collected) then
           from ← lift (Pool.GetIncentivesAddress pool);
           on_bank (SendCoins from sender collected)
         else mret tt);
    mret (collected, forfeited, scaled).

(** *** Redepositing forfeits *)

Definition redepositUptime (activeLiquidity : Dec.t) (curUptimeForfeited : coin.Coins)
    : outcome coin.DecCoins :=
  start ← coin.NewDecCoins [];
  foldl (λ acc forfeitedCoin,
    acc ← acc;
    forfeitedAmountPerLiquidity ←
      sdk.QuoTruncate (sdk.ToLegacyDec (coin.Amount forfeitedCoin)) activeLiquidity;
    decCoinToAdd ← coin.NewDecCoinFromDec (coin.Denom forfeitedCoin) forfeitedAmountPerLiquidity;
    coin.DecAdd acc [decCoinToAdd]) (Ok start) curUptimeForfeited.

Definition redepositForfeitedIncentives (poolId : Z) (sender : addr.AccAddress)
    (scaledForfeitedIncentivesByUptime : list coin.Coins) (totalForefeitedIncentives : coin.Coins)
    : K unit :=
  _ ← require (Nat.eqb (length scaledForfeitedIncentivesByUptime) (length SupportedUptimes))
        "InvalidForfeitedIncentivesLengthError";
  pool ← getPoolById poolId;
  let activeLiquidity := Pool.CurrentTickLiquidity pool in
  if sdk.LT activeLiquidity oneDec then
    from ← lift (Pool.GetIncentivesAddress pool);
    on_bank (SendCoins from sender totalForefeitedIncentives)
  else
    uptimeAccums ← GetUptimeAccumulators poolId;
    for_each (zip uptimeAccums scaledForfeitedIncentivesByUptime) (λ '(acc, curUptimeForfeited),
      if coin.IsZero curUptimeForfeited then mret tt
      else
        incentivesToAddToCurAccum ← lift (redepositUptime activeLiquidity curUptimeForfeited);
        _ ← on_accums (Accum.AddToAccumulator acc incentivesToAddToCurAccum);
        mret tt).
End claims.
End CLClaims.
