(* ===== verification/CLPosition.v ===== *)
(** Positions: x/concentrated-liquidity/position.go, with isLockMature of lp.go.

    Creating positions is in CLLp, which these operations serve.  Pagination and gas are left out. *)
From stdpp Require Import prelude strings list gmap.
From S2P Require Import Prelude.
From S2P Require Import GoBig.
From S2P Require Import GoState.
From S2P Require Import SdkDec.
From S2P Require Import SdkCoins.
From S2P Require Import CLTick.
From S2P Require Import CLKeys.
From S2P Require Import CLPool.
From S2P Require Import CLStore.
From S2P Require Import CLRewards.
From S2P Require Import CLTickStore.
From S2P Require Import CLClaims.
Local Open Scope Z_scope.
Import CLConst CLStore CLRewards CLTickStore CLClaims.

Module CLPosition.
Section positions.
  Context {D : sdk.LegacyDec} {C : coin.CoinOps} {A : addr.Addresses} {E : Env} {T : Block}.
  Abbreviation K := (M store).

Definition noUnderlyingLockId : Z := 0.

(** *** Links between positions and locks *)

Definition GetLockIdFromPositionId (positionId : Z) : K Z :=
  value ← gets (λ s, positionToLock s !! positionId);
  match value with
  | None => throw "PositionIdToLockNotFoundError"
  | Some lockId => mret lockId
  end.

Definition GetPositionIdToLockId (underlyingLockId : Z) : K Z :=
  value ← gets (λ s, lockToPosition s !! underlyingLockId);
  match value with
  | None => throw "LockIdToPositionIdNotFoundError"
  | Some positionId => mret positionId
  end.

Definition setPositionIdToLock (positionId underlyingLockId : Z) : K unit :=
  modify (set_locks (insert positionId underlyingLockId) (insert underlyingLockId positionId)).

Definition RemovePositionIdForLockId (positionId underlyingLockId : Z) : K unit :=
  modify (set_locks (delete positionId) (delete underlyingLockId)).

Definition isLockMature (underlyingLockId : Z) : K bool :=
  lock ← gets (λ s, GetLockByID (world s) underlyingLockId);
  match lock with
  | LockNotFound => mret true
  | LockError e => throw e
  | LockFound EndTime =>
    if EndTime =? 0 then mret false else mret (EndTime <? BlockTime)
  end.

(** A missing link is not an error: the position has no active lock. *)
Definition PositionHasActiveUnderlyingLock (positionId : Z) : K (bool * Z) :=
  value ← gets (λ s, positionToLock s !! positionId);
  match value with
  | None => mret (false, 0)
  | Some lockId =>
    lockIsMature ← isLockMature lockId;
    mret (negb lockIsMature, lockId)
  end.

Definition positionHasActiveUnderlyingLockAndUpdate (positionId : Z) : K (bool * Z) :=
  '(hasActiveUnderlyingLock, lockId) ← PositionHasActiveUnderlyingLock positionId;
  if hasActiveUnderlyingLock && (lockId =? 0) then throw "PositionIdToLockNotFoundError"
  else if negb hasActiveUnderlyingLock && negb (lockId =? 0) then
    _ ← RemovePositionIdForLockId positionId lockId;
    mret (false, 0)
  else mret (hasActiveUnderlyingLock, lockId).

(** *** Liquidity over the full range *)

Definition GetFullRangeLiquidityInPool (poolId : Z) : K Dec.t :=
  found ← gets (λ s, fullRangeLiquidity s !! poolId);
  match found with
  | None => throw "no full range liquidity"
  | Some l => mret l
  end.

Definition updateFullRangeLiquidityInPool (poolId : Z) (liquidity : Dec.t) : K unit :=
  found ← gets (λ s, fullRangeLiquidity s !! poolId);
  let currentTotalFullRangeLiquidity := default zeroDec found in
  newTotalFullRangeLiquidity ← lift (sdk.Add currentTotalFullRangeLiquidity liquidity);
  modify (set_totals (insert poolId newTotalFullRangeLiquidity) id).

(** *** Writing and deleting a position *)

Definition HasAnyPositionForPool (poolId : Z) : K bool :=
  gets (λ s, bool_decide (filter (λ k, k.1 = poolId) (poolPosition s) ≠ ∅)).

Definition SetPosition (poolId : Z) (owner : addr.AccAddress) (lowerTick upperTick joinTime : Z)
    (liquidity : Dec.t) (positionId underlyingLockId : Z) : K unit :=
  let position :=
    {| PositionId := positionId; PoolId := poolId; PAddress := addr.AddressString owner;
       LowerTick := lowerTick; UpperTick := upperTick; JoinTime := joinTime;
       Liquidity := liquidity |} in
  _ ← modify (set_positions (insert positionId position) id id);
  _ ← modify (set_positions id (union {[(owner, poolId, positionId)]}) id);
  _ ← modify (set_positions id id (union {[(poolId, positionId)]}));
  '(positionHasUnderlyingLock, _) ← positionHasActiveUnderlyingLockAndUpdate positionId;
  _ ← (if negb positionHasUnderlyingLock && negb (underlyingLockId =? 0)
       then setPositionIdToLock positionId underlyingLockId
       else mret tt);
  if (lowerTick =? MinInitializedTick) && (upperTick =? MaxTick)
  then updateFullRangeLiquidityInPool poolId liquidity
  else mret tt.

Definition deletePosition (positionId : Z) (owner : addr.AccAddress) (poolId : Z) : K unit :=
  has ← hasPosition positionId;
  _ ← require has "PositionIdNotFoundError";
  _ ← modify (set_positions (delete positionId) id id);
  has ← gets (λ s, bool_decide ((poolId, positionId) ∈ poolPosition s));
  _ ← require has "PoolPositionIdNotFoundError";
  _ ← modify (set_positions id id (λ q, q ∖ {[(poolId, positionId)]}));
  has ← gets (λ s, bool_decide ((owner, poolId, positionId) ∈ addressPoolPosition s));
  _ ← require has "AddressPoolPositionIdNotFoundError";
  _ ← modify (set_positions id (λ a, a ∖ {[(owner, poolId, positionId)]}) id);
  lock ← gets (λ s, positionToLock s !! positionId);
  match lock with
  | None => mret tt
  | Some underlyingLockId =>
    modify (set_locks (delete positionId) (delete underlyingLockId))
  end.

Definition getOrInitPosition (positionId : Z) : K Dec.t :=
  has ← hasPosition positionId;
  if (has : bool) then GetPositionLiquidity positionId else mret zeroDec.

Definition initOrUpdatePosition (poolId : Z) (owner : addr.AccAddress) (lowerTick upperTick : Z)
    (liquidityDelta : Dec.t) (joinTime positionId : Z) : K unit :=
  liquidity ← getOrInitPosition positionId;
  liquidity ← lift (sdk.Add liquidity liquidityDelta);
  _ ← require (negb (sdk.IsNegative liquidity)) "NegativeLiquidityError";
  _ ← initOrUpdatePositionUptimeAccumulators poolId liquidity lowerTick upperTick liquidityDelta
        positionId;
  SetPosition poolId owner lowerTick upperTick joinTime liquidity positionId noUnderlyingLockId.

(** *** Transfers *)

(** [osmoassert.Uint64ArrayValuesAreUnique] *)
Definition ValuesAreUnique (ids : list Z) : bool := bool_decide (NoDup ids).

Definition transferPosition (isGovModuleSender : bool) (sender recipient : addr.AccAddress)
    (positionId : Z) : K unit :=
  position ← GetPosition positionId;
  _ ← require (isGovModuleSender || String.eqb (PAddress position) (addr.AddressString sender))
        "PositionOwnerMismatchError";
  '(positionHasActiveUnderlyingLock, _) ← positionHasActiveUnderlyingLockAndUpdate positionId;
  _ ← require (negb positionHasActiveUnderlyingLock) "LockNotMatureError";
  positionOwnerAddr ←
    lift (Pool.or_panic (addr.AccAddressFromBech32 (PAddress position)) "MustAccAddressFromBech32");
  _ ← deletePosition positionId positionOwnerAddr (PoolId position);
  anyPositionsRemainingInPool ← HasAnyPositionForPool (PoolId position);
  _ ← require anyPositionsRemainingInPool "LastPositionTransferError";
  SetPosition (PoolId position) recipient (LowerTick position) (UpperTick position)
    (JoinTime position) (Liquidity position) (PositionId position) 0.

Definition transferPositions (positionIds : list Z) (sender recipient : addr.AccAddress) : K unit :=
  _ ← require (ValuesAreUnique positionIds) "DuplicatePositionIdsError";
  let isGovModuleSender := bool_decide (sender = GetModuleAccountAddress "gov") in
  for_each positionIds (transferPosition isGovModuleSender sender recipient).

(** *** The value of positions *)

Definition CalculateUnderlyingAssetsFromPosition (position : Position) (pool : Pool.Pool)
    : outcome (coin.Coin * coin.Coin) :=
  let token0 := Pool.Token0 pool in
  let token1 := Pool.Token1 pool in
  if sdk.IsZero (Liquidity position) then
    c0 ← coin.NewCoin token0 (SdkInt.mk 0);
    c1 ← coin.NewCoin token1 (SdkInt.mk 0);
    Ok (c0, c1)
  else
    '(asset0, asset1) ←
      Pool.CalcActualAmounts pool (LowerTick position) (UpperTick position) (Liquidity position);
    amount0 ← sdk.TruncateInt asset0;
    coin0 ← coin.NewCoin token0 amount0;
    amount1 ← sdk.TruncateInt asset1;
    coin1 ← coin.NewCoin token1 amount1;
    Ok (coin0, coin1).

Definition UnderlyingPositionsValue (positionIds : list Z) : K coin.Coins :=
  fold_each positionIds ([] : coin.Coins) (λ underlyingAssets positionId,
    position ← GetPosition positionId;
    pool ← getPoolById (PoolId position);
    '(asset0, asset1) ← lift (Pool.CalcActualAmounts pool (LowerTick position) (UpperTick position)
      (Liquidity position));
    amount0 ← lift (sdk.TruncateInt asset0);
    coin0 ← lift (coin.NewCoin (Pool.Token0 pool) amount0);
    amount1 ← lift (sdk.TruncateInt asset1);
    coin1 ← lift (coin.NewCoin (Pool.Token1 pool) amount1);
    lift (coin.Add underlyingAssets [coin0; coin1])).
End positions.
End CLPosition.
