(* ===== verification/CLLp.v ===== *)
(** Providing and withdrawing liquidity: x/concentrated-liquidity/lp.go and the parts of position.go
    that create positions.  Events and gas are left out. *)
From stdpp Require Import prelude strings list gmap.
From S2P Require Import Prelude.
From S2P Require Import GoBig.
From S2P Require Import GoState.
From S2P Require Import SdkDec.
From S2P Require Import SdkCoins.
From S2P Require Import Decimal.
From S2P Require Import Sqrt.
From S2P Require Import CLMath.
From S2P Require Import CLTick.
From S2P Require Import CLPool.
From S2P Require Import CLStore.
From S2P Require Import CLRewards.
From S2P Require Import CLTickStore.
From S2P Require Import CLClaims.
From S2P Require Import CLPosition.
Local Open Scope Z_scope.
Import CLConst CLMath CLTick CLStore CLRewards CLTickStore CLClaims CLPosition.

Module CLLp.
Section lp.
  Context {D : sdk.LegacyDec} {C : coin.CoinOps} {A : addr.Addresses} {E : Env} {T : Block} {H : Hooks}.
  Abbreviation K := (M store).

Record UpdatePositionData := {
  Amount0 : SdkInt.t;
  Amount1 : SdkInt.t;
  LowerTickIsEmpty : bool;
  UpperTickIsEmpty : bool
}.

Record CreatePositionData := {
  CID : Z;
  CAmount0 : SdkInt.t;
  CAmount1 : SdkInt.t;
  CLiquidity : Dec.t;
  CLowerTick : Z;
  CUpperTick : Z
}.

Definition zeroInt : SdkInt.t := SdkInt.mk 0.

(** *** Updating a position *)

Definition validatePositionUpdateById (positionId : Z) (updateInitiator : addr.AccAddress)
    (lowerTickGiven upperTickGiven : Z) (liquidityDeltaGiven : Dec.t) (joinTimeGiven poolIdGiven : Z)
    : K unit :=
  _ ← require (negb (positionId =? 0)) "ErrZeroPositionId";
  has ← hasPosition positionId;
  if (has : bool) then
    position ← GetPosition positionId;
    _ ← require (String.eqb (PAddress position) (addr.AddressString updateInitiator))
          "PositionOwnerMismatchError";
    _ ← require (LowerTick position =? lowerTickGiven) "LowerTickMismatchError";
    _ ← require (UpperTick position =? upperTickGiven) "UpperTickMismatchError";
    _ ← require (negb (sdk.IsNegative liquidityDeltaGiven &&
                       sdk.LT (Liquidity position) (sdk.Abs liquidityDeltaGiven)))
          "LiquidityWithdrawalError";
    _ ← require (JoinTime position =? joinTimeGiven) "JoinTimeMismatchError";
    require (PoolId position =? poolIdGiven) "PositionsNotInSamePoolError"
  else mret tt.

Definition UpdatePosition (poolId : Z) (owner : addr.AccAddress) (lowerTick upperTick : Z)
    (liquidityDelta : Dec.t) (joinTime positionId : Z) : K UpdatePositionData :=
  _ ← validatePositionUpdateById positionId owner lowerTick upperTick liquidityDelta joinTime poolId;
  lowerTickIsEmpty ← initOrUpdateTick poolId lowerTick liquidityDelta false;
  upperTickIsEmpty ← initOrUpdateTick poolId upperTick liquidityDelta true;
  _ ← initOrUpdatePosition poolId owner lowerTick upperTick liquidityDelta joinTime positionId;
  pool ← getPoolById poolId;
  '(actualAmount0, actualAmount1) ←
    lift (Pool.CalcActualAmounts pool lowerTick upperTick liquidityDelta);
  '(_, pool) ← lift (Pool.UpdateLiquidityIfActivePosition lowerTick upperTick liquidityDelta pool);
  _ ← setPool pool;
  _ ← initOrUpdatePositionSpreadRewardAccumulator poolId lowerTick upperTick positionId liquidityDelta;
  amount0 ← lift (sdk.TruncateInt actualAmount0);
  amount1 ← lift (sdk.TruncateInt actualAmount1);
  mret {| Amount0 := amount0; Amount1 := amount1; LowerTickIsEmpty := lowerTickIsEmpty;
          UpperTickIsEmpty := upperTickIsEmpty |}.

Definition sendCoinsBetweenPoolAndUser (denom0 denom1 : string) (amount0 amount1 : SdkInt.t)
    (sender receiver : addr.AccAddress) : K unit :=
  _ ← require (negb (sdk.IntIsNegative amount0)) "Amount0IsNegativeError";
  _ ← require (negb (sdk.IntIsNegative amount1)) "Amount1IsNegativeError";
  coin1 ← lift (coin.NewCoin denom1 amount1);
  coin0 ← lift (coin.NewCoin denom0 amount0);
  finalCoinsToSend ← lift (coin.NewCoins [coin1; coin0]);
  on_bank (SendCoins sender receiver finalCoinsToSend).

(** [if amount.IsPositive() { coins = coins.Add(sdk.NewCoin(denom, amount)) }] *)
Definition addIfPositive (coins : coin.Coins) (denom : string) (amount : SdkInt.t)
    : outcome coin.Coins :=
  if sdk.IntIsPositive amount then
    c ← coin.NewCoin denom amount; coin.Add coins [c]
  else Ok coins.

(** *** Pool initialization *)

(** The pool object of the caller is updated and written. *)
Definition initializeInitialPositionForPool (pool : Pool.Pool) (amount0Desired amount1Desired : SdkInt.t)
    : K Pool.Pool :=
  _ ← require (negb (negb (sdk.IntGT amount0Desired zeroInt) || negb (sdk.IntGT amount1Desired zeroInt)))
        "InitialLiquidityZeroError";
  initialSpotPrice ← lift (sdk.Quo (sdk.ToLegacyDec amount1Desired) (sdk.ToLegacyDec amount0Desired));
  initialCurSqrtPrice ← lift (Sqrt.MonotonicSqrtMut initialSpotPrice);
  initialCurSqrtPriceBigDec ← lift (BigDec.BigDecFromDecMut initialCurSqrtPrice);
  initialTick ←
    lift (SqrtPriceToTickRoundDownSpacing initialCurSqrtPriceBigDec (Pool.TickSpacing pool));
  let pool := Pool.SetCurrentTick initialTick
                (Pool.SetCurrentSqrtPrice initialCurSqrtPriceBigDec pool) in
  _ ← setPool pool;
  mret pool.

Definition uninitializePool (poolId : Z) : K unit :=
  pool ← getPoolById poolId;
  hasAnyPosition ← HasAnyPositionForPool poolId;
  _ ← require (negb hasAnyPosition) "UninitializedPoolWithLiquidityError";
  setPool (Pool.SetCurrentTick 0 (Pool.SetCurrentSqrtPrice BigDec.ZeroBigDec pool)).

(** pool.go *)
Definition PoolHasPosition (pool : Pool.Pool) : bool :=
  negb (BigDec.IsZero (Pool.CurrentSqrtPrice pool) && (Pool.CurrentTick pool =? 0)).

(** *** Creating a position *)

Definition CreatePosition (poolId : Z) (owner : addr.AccAddress) (tokensProvided : coin.Coins)
    (amount0Min amount1Min : SdkInt.t) (lowerTick upperTick : Z) : K CreatePositionData :=
  let joinTime := BlockTime in
  pool ← getPoolById poolId;
  let token0 := Pool.Token0 pool in
  let token1 := Pool.Token1 pool in
  _ ← require (forallb (λ token, String.eqb (coin.Denom token) token0 ||
                                 String.eqb (coin.Denom token) token1) tokensProvided)
        "token provided is not one of the pool tokens";
  _ ← lift (validateTickRangeIsValid (Pool.TickSpacing pool) lowerTick upperTick);
  amount0Desired ← lift (coin.AmountOf tokensProvided token0);
  amount1Desired ← lift (coin.AmountOf tokensProvided token1);
  _ ← require (negb (sdk.IntIsZero amount0Desired && sdk.IntIsZero amount1Desired))
        "cannot create a position with zero amounts of both pool tokens";
  _ ← require (negb (sdk.IntIsNegative amount0Min)) "NotPositiveRequireAmountError";
  _ ← require (negb (sdk.IntIsNegative amount1Min)) "NotPositiveRequireAmountError";
  '(sqrtPriceLowerTick, sqrtPriceUpperTick) ← lift (TicksToSqrtPrice lowerTick upperTick);
  '(lowerTick, upperTick) ←
    lift (roundTickToCanonicalPriceTick lowerTick upperTick sqrtPriceLowerTick sqrtPriceUpperTick
            (Pool.TickSpacing pool));
  let hasPositions := PoolHasPosition pool in
  _ ← BeforeCreatePosition poolId owner tokensProvided amount0Min amount1Min lowerTick upperTick;
  positionId ← getNextPositionIdAndIncrement;
  pool ← (if negb hasPositions
          then initializeInitialPositionForPool pool amount0Desired amount1Desired
          else mret pool);
  liquidityDelta ←
    lift (GetLiquidityFromAmounts (Pool.CurrentSqrtPrice pool) sqrtPriceLowerTick sqrtPriceUpperTick
            amount0Desired amount1Desired);
  _ ← require (negb (sdk.IsZero liquidityDelta)) "failed to translate amounts to positive liquidity";
  updateData ← UpdatePosition poolId owner lowerTick upperTick liquidityDelta joinTime positionId;
  _ ← require (negb (sdk.IntLT (Amount0 updateData) amount0Min)) "InsufficientLiquidityCreatedError";
  _ ← require (negb (sdk.IntLT (Amount1 updateData) amount1Min)) "InsufficientLiquidityCreatedError";
  poolAddress ← lift (Pool.GetAddress pool);
  _ ← sendCoinsBetweenPoolAndUser token0 token1 (Amount0 updateData) (Amount1 updateData) owner
        poolAddress;
  _ ← (if negb hasPositions then AfterInitialPoolPositionCreated owner poolId else mret tt);
  tokensAdded ← lift (addIfPositive [] token0 (Amount0 updateData));
  tokensAdded ← lift (addIfPositive tokensAdded token1 (Amount1 updateData));
  _ ← RecordTotalLiquidityIncrease tokensAdded;
  _ ← AfterCreatePosition poolId owner tokensProvided amount0Min amount1Min lowerTick upperTick;
  mret {| CID := positionId; CAmount0 := Amount0 updateData; CAmount1 := Amount1 updateData;
          CLiquidity := liquidityDelta; CLowerTick := lowerTick; CUpperTick := upperTick |}.

(** *** Withdrawing *)

(** The last position of the pool and of its ticks. *)
Definition removeWithdrawnPosition (owner : addr.AccAddress) (positionId poolId pool_id : Z) : K unit :=
  _ ← collectSpreadRewards owner positionId;
  _ ← deletePosition positionId owner poolId;
  anyPositionsRemainingInPool ← HasAnyPositionForPool poolId;
  if negb anyPositionsRemainingInPool then
    _ ← uninitializePool pool_id;
    AfterLastPoolPositionRemoved owner pool_id
  else mret tt.

Definition WithdrawPosition (owner : addr.AccAddress) (positionId : Z)
    (requestedLiquidityAmountToWithdraw : Dec.t) : K (SdkInt.t * SdkInt.t) :=
  position ← GetPosition positionId;
  _ ← require (String.eqb (addr.AddressString owner) (PAddress position)) "NotPositionOwnerError";
  _ ← require (negb (sdk.IsNegative requestedLiquidityAmountToWithdraw)) "InsufficientLiquidityError";
  '(positionHasActiveUnderlyingLock, _) ← positionHasActiveUnderlyingLockAndUpdate positionId;
  _ ← require (negb positionHasActiveUnderlyingLock) "LockNotMatureError";
  pool ← getPoolById (PoolId position);
  _ ← require (negb (sdk.GT requestedLiquidityAmountToWithdraw (Liquidity position)))
        "InsufficientLiquidityError";
  _ ← BeforeWithdrawPosition (PoolId position) owner positionId requestedLiquidityAmountToWithdraw;
  '(_, totalForefeitedIncentives, scaledForfeitedIncentivesByUptime) ←
    collectIncentives owner positionId;
  let liquidityDelta := sdk.Neg requestedLiquidityAmountToWithdraw in
  updateData ← UpdatePosition (PoolId position) owner (LowerTick position) (UpperTick position)
    liquidityDelta (JoinTime position) positionId;
  poolAddress ← lift (Pool.GetAddress pool);
  _ ← sendCoinsBetweenPoolAndUser (Pool.Token0 pool) (Pool.Token1 pool)
        (sdk.IntAbs (Amount0 updateData)) (sdk.IntAbs (Amount1 updateData)) poolAddress owner;
  _ ← redepositForfeitedIncentives (PoolId position) owner scaledForfeitedIncentivesByUptime
        totalForefeitedIncentives;
  _ ← (if sdk.Equal requestedLiquidityAmountToWithdraw (Liquidity position)
       then removeWithdrawnPosition owner positionId (PoolId position) (Pool.Id pool)
       else mret tt);
  _ ← (if LowerTickIsEmpty updateData then RemoveTickInfo (PoolId position) (LowerTick position)
       else mret tt);
  _ ← (if UpperTickIsEmpty updateData then RemoveTickInfo (PoolId position) (UpperTick position)
       else mret tt);
  tokensRemoved ← lift (addIfPositive [] (Pool.Token0 pool) (Amount0 updateData));
  tokensRemoved ← lift (addIfPositive tokensRemoved (Pool.Token1 pool) (Amount1 updateData));
  _ ← RecordTotalLiquidityDecrease tokensRemoved;
  _ ← AfterWithdrawPosition (PoolId position) owner positionId requestedLiquidityAmountToWithdraw;
  mret (sdk.IntNeg (Amount0 updateData), sdk.IntNeg (Amount1 updateData)).

(** *** Adding to a position *)

Definition addToPosition (owner : addr.AccAddress) (positionId : Z)
    (amount0Added amount1Added amount0MinGiven amount1MinGiven : SdkInt.t)
    : K (Z * SdkInt.t * SdkInt.t) :=
  position ← GetPosition positionId;
  _ ← require (String.eqb (addr.AddressString owner) (PAddress position)) "NotPositionOwnerError";
  _ ← require (negb (sdk.IntIsNegative amount0Added || sdk.IntIsNegative amount1Added))
        "NegativeAmountAddedError";
  _ ← require (negb (sdk.IntIsZero amount0Added && sdk.IntIsZero amount1Added)) "ErrZeroLiquidity";
  '(positionHasUnderlyingLock, _) ← positionHasActiveUnderlyingLockAndUpdate positionId;
  _ ← require (negb positionHasUnderlyingLock) "PositionSuperfluidStakedError";
  '(amount0Withdrawn, amount1Withdrawn) ← WithdrawPosition owner positionId (Liquidity position);
  pool ← getPoolById (PoolId position);
  _ ← require (PoolHasPosition pool) "AddToLastPositionInPoolError";
  amount0Desired ← lift (sdk.IntAdd amount0Withdrawn amount0Added);
  amount1Desired ← lift (sdk.IntAdd amount1Withdrawn amount1Added);
  coin0 ← lift (coin.NewCoin (Pool.Token0 pool) amount0Desired);
  coin1 ← lift (coin.NewCoin (Pool.Token1 pool) amount1Desired);
  tokensProvided ← lift (coin.NewCoins [coin0; coin1]);
  minimumAmount0 ← (if negb (sdk.IntIsZero amount0MinGiven)
                    then lift (sdk.IntAdd amount0Withdrawn amount0MinGiven)
                    else mret amount0Withdrawn);
  minimumAmount1 ← (if negb (sdk.IntIsZero amount1MinGiven)
                    then lift (sdk.IntAdd amount1Withdrawn amount1MinGiven)
                    else mret amount1Withdrawn);
  newPositionData ← CreatePosition (PoolId position) owner tokensProvided minimumAmount0 minimumAmount1
    (LowerTick position) (UpperTick position);
  mret (CID newPositionData, CAmount0 newPositionData, CAmount1 newPositionData).

(** *** Full-range positions (position.go) *)

Definition CreateFullRangePosition (poolId : Z) (owner : addr.AccAddress) (coins : coin.Coins)
    : K CreatePositionData :=
  _ ← require (Nat.eqb (length coins) 2) "NumCoinsError";
  concentratedPool ← getPoolById poolId;
  amount0 ← lift (coin.AmountOf coins (Pool.Token0 concentratedPool));
  _ ← require (negb (sdk.IntLTE amount0 zeroInt)) "Amount0IsNegativeError";
  amount1 ← lift (coin.AmountOf coins (Pool.Token1 concentratedPool));
  _ ← require (negb (sdk.IntLTE amount1 zeroInt)) "Amount1IsNegativeError";
  CreatePosition (Pool.Id concentratedPool) owner coins zeroInt zeroInt MinInitializedTick MaxTick.

Definition GetConcentratedLockupDenomFromPoolId (poolId : Z) : string :=
  "cl/pool/" +:+ CLKeys.CLKeys.FormatUint poolId.

Definition mintSharesAndLock (concentratedPoolId positionId : Z) (owner : addr.AccAddress)
    (remainingLockDuration : Z) : K (Z * coin.Coins) :=
  position ← GetPosition positionId;
  _ ← require (negb (negb (LowerTick position =? MinInitializedTick) ||
                     negb (UpperTick position =? MaxTick))) "PositionNotFullRangeError";
  amount ← lift (sdk.TruncateInt (Liquidity position));
  share ← lift (coin.NewCoin (GetConcentratedLockupDenomFromPoolId concentratedPoolId) amount);
  underlyingLiquidityTokenized ← lift (coin.NewCoins [share]);
  _ ← on_bank (MintCoins "lockup" underlyingLiquidityTokenized);
  lockId ← on_world (CreateLockNoSend owner underlyingLiquidityTokenized remainingLockDuration);
  _ ← setPositionIdToLock positionId lockId;
  mret (lockId, underlyingLiquidityTokenized).

Definition CreateFullRangePositionLocked (clPoolId : Z) (owner : addr.AccAddress) (coins : coin.Coins)
    (remainingLockDuration : Z) : K (CreatePositionData * Z) :=
  positionData ← CreateFullRangePosition clPoolId owner coins;
  '(concentratedLockId, _) ←
    mintSharesAndLock clPoolId (CID positionData) owner remainingLockDuration;
  mret (positionData, concentratedLockId).

Definition CreateFullRangePositionUnlocking (clPoolId : Z) (owner : addr.AccAddress)
    (coins : coin.Coins) (remainingLockDuration : Z) : K (CreatePositionData * Z) :=
  positionData ← CreateFullRangePosition clPoolId owner coins;
  '(concentratedLockId, underlyingLiquidityTokenized) ←
    mintSharesAndLock clPoolId (CID positionData) owner remainingLockDuration;
  concentratedLockID ← on_world (BeginForceUnlock concentratedLockId underlyingLiquidityTokenized);
  mret (positionData, concentratedLockID).
End lp.
End CLLp.
