(* ===== verification/CLSwaps.v ===== *)
(** Swaps: x/concentrated-liquidity/swaps.go.

    The loops of the code have no bound of their own; here they take fuel, and CLSwapsTerm shows how
    much is enough.  Logs, telemetry, events and gas are left out.

    The pool object [p] of a swap shares the big integer of its liquidity with the swap state
    ([newSwapState] copies the pointer and [AddMut] writes through it), so crossing a tick also changes
    the liquidity of [p].  The accumulator objects exist only when accumulators are updated:
    [updateAccumulators] is the presence of the pair of spread reward accumulator and scaling factor. *)
From stdpp Require Import prelude strings list gmap.
From S2P Require Import Prelude.
From S2P Require Import GoBig.
From S2P Require Import GoState.
From S2P Require Import SdkDec.
From S2P Require Import SdkCoins.
From S2P Require Import Decimal.
From S2P Require Import CLMath.
From S2P Require Import CLTick.
From S2P Require Import CLSwapStrategy.
From S2P Require Import Accum.
From S2P Require Import CLPool.
From S2P Require Import CLStore.
From S2P Require Import CLRewards.
From S2P Require Import CLTickStore.
From S2P Require Import CLPosition.
From S2P Require Import CLLp.
Local Open Scope Z_scope.
Import CLConst CLTick SwapStrategy NewStrategy CLStore CLRewards CLTickStore CLPosition CLLp.

Module CLSwaps.
Section swaps.
  Context {D : sdk.LegacyDec} {C : coin.CoinOps} {A : addr.Addresses} {E : Env} {T : Block} {H : Hooks}.
  Abbreviation K := (M store).

(** *** State of a swap *)

Record SwapState := {
  amountSpecifiedRemaining : Dec.t;
  amountCalculated : Dec.t;
  sqrtPrice : BigDec.t;
  tick : Z;
  liquidity : Dec.t;
  globalSpreadRewardGrowthPerUnitLiquidity : Dec.t;
  globalSpreadRewardGrowth : Dec.t;
  swapStrategy : SwapStrategy
}.

Record SwapResult := { AmountIn : SdkInt.t; AmountOut : SdkInt.t; SpreadRewards : Dec.t }.
Record SwapDetails := { Sender : addr.AccAddress; TokenIn : coin.Coin; TokenOut : coin.Coin }.
Record PoolUpdates := { NewCurrentTick : Z; NewLiquidity : Dec.t; NewSqrtPrice : BigDec.t }.

Definition swapNoProgressLimit : Z := 100.
Definition smallestDec : Dec.t := Dec.mk 1.
Definition unboundedPriceLimit : BigDec.t := BigDec.ZeroBigDec.

Definition newSwapState (specifiedAmount : SdkInt.t) (p : Pool.Pool) (strategy : SwapStrategy)
    : SwapState :=
  {| amountSpecifiedRemaining := sdk.ToLegacyDec specifiedAmount;
     amountCalculated := zeroDec;
     sqrtPrice := Pool.CurrentSqrtPrice p;
     tick := Pool.CurrentTick p;
     liquidity := Pool.CurrentTickLiquidity p;
     globalSpreadRewardGrowthPerUnitLiquidity := zeroDec;
     globalSpreadRewardGrowth := zeroDec;
     swapStrategy := strategy |}.

Definition with_growth (perUnit total : Dec.t) (ss : SwapState) : SwapState :=
  {| amountSpecifiedRemaining := amountSpecifiedRemaining ss;
     amountCalculated := amountCalculated ss; sqrtPrice := sqrtPrice ss; tick := tick ss;
     liquidity := liquidity ss; globalSpreadRewardGrowthPerUnitLiquidity := perUnit;
     globalSpreadRewardGrowth := total; swapStrategy := swapStrategy ss |}.
Definition with_amounts (remaining calculated : Dec.t) (price : BigDec.t) (ss : SwapState) : SwapState :=
  {| amountSpecifiedRemaining := remaining; amountCalculated := calculated; sqrtPrice := price;
     tick := tick ss; liquidity := liquidity ss;
     globalSpreadRewardGrowthPerUnitLiquidity := globalSpreadRewardGrowthPerUnitLiquidity ss;
     globalSpreadRewardGrowth := globalSpreadRewardGrowth ss; swapStrategy := swapStrategy ss |}.
Definition with_tick (t : Z) (l : Dec.t) (ss : SwapState) : SwapState :=
  {| amountSpecifiedRemaining := amountSpecifiedRemaining ss;
     amountCalculated := amountCalculated ss; sqrtPrice := sqrtPrice ss; tick := t; liquidity := l;
     globalSpreadRewardGrowthPerUnitLiquidity := globalSpreadRewardGrowthPerUnitLiquidity ss;
     globalSpreadRewardGrowth := globalSpreadRewardGrowth ss; swapStrategy := swapStrategy ss |}.

(** The returned growth per unit is used by telemetry only. *)
Definition updateSpreadRewardGrowthGlobal (ss : SwapState) (spreadRewardChargeTotal scalingFactor : Dec.t)
    : outcome (Dec.t * SwapState) :=
  spreadRewardChargeTotalScaled ←
    (if negb (sdk.Equal scalingFactor oneDecScalingFactor)
     then scaleUpTotalEmittedAmount spreadRewardChargeTotal scalingFactor
     else Ok spreadRewardChargeTotal);
  total ← sdk.Add (globalSpreadRewardGrowth ss) spreadRewardChargeTotal;
  if sdk.IsZero (liquidity ss) then
    Ok (zeroDec, with_growth (globalSpreadRewardGrowthPerUnitLiquidity ss) total ss)
  else
    accrued ← sdk.QuoTruncate spreadRewardChargeTotalScaled (liquidity ss);
    perUnit ← sdk.Add (globalSpreadRewardGrowthPerUnitLiquidity ss) accrued;
    Ok (accrued, with_growth perUnit total ss).

(** *** Checks *)

Definition getZeroForOne (inDenom asset0 : string) : bool := String.eqb inDenom asset0.

Definition checkDenomValidity (inDenom outDenom asset0 asset1 : string) : outcome unit :=
  if negb (String.eqb outDenom asset0) && negb (String.eqb outDenom asset1)
  then Err "TokenOutDenomNotInPoolError"
  else if negb (String.eqb inDenom asset0) && negb (String.eqb inDenom asset1)
  then Err "TokenInDenomNotInPoolError"
  else if String.eqb outDenom inDenom then Err "DenomDuplicatedError"
  else Ok tt.

Definition validateSwapProgressAndAmountConsumption (computedSqrtPrice sqrtPriceStart : BigDec.t)
    (amountIn amountOut : Dec.t) : outcome unit :=
  guard_err (negb (BigDec.Equal computedSqrtPrice sqrtPriceStart &&
                   negb (sdk.IsZero amountIn && sdk.IsZero amountOut)))
    "SwapNoProgressWithConsumptionError".

Definition edgeCaseInequalityBasedOnSwapStrategy (isZeroForOne : bool)
    (nextInitializedTickSqrtPrice computedSqrtPrice : BigDec.t) : bool :=
  if isZeroForOne then BigDec.GT nextInitializedTickSqrtPrice computedSqrtPrice
  else BigDec.LT nextInitializedTickSqrtPrice computedSqrtPrice.

(** *** Setting up *)

Definition getPoolForSwap (poolId : Z) : K Pool.Pool :=
  p ← getPoolById poolId;
  _ ← require (PoolHasPosition p) "NoSpotPriceWhenNoLiquidityError";
  mret p.

Definition swapSetup (poolId : Z) (tokenInDenom tokenOutDenom : string) (getAccumulators : bool)
    : K (Pool.Pool * option AccumulatorObject) :=
  pool ← getPoolForSwap poolId;
  _ ← lift (checkDenomValidity tokenInDenom tokenOutDenom (Pool.Token0 pool) (Pool.Token1 pool));
  if getAccumulators then
    spreadAccum ← GetSpreadRewardAccumulator poolId;
    mret (pool, Some spreadAccum)
  else mret (pool, None).

Definition setupSwapStrategy (p : Pool.Pool) (spreadFactor : Dec.t) (tokenInDenom : string)
    (priceLimit : BigDec.t) : outcome (SwapStrategy * BigDec.t) :=
  let zeroForOne := getZeroForOne tokenInDenom (Pool.Token0 p) in
  sqrtPriceLimit ←
    match GetSqrtPriceLimit priceLimit zeroForOne with
    | Err _ => Err "SqrtRootCalculationError"
    | r => r
    end;
  let strategy := New zeroForOne sqrtPriceLimit spreadFactor in
  let curSqrtPrice := Pool.CurrentSqrtPrice p in
  _ ← ValidateSqrtPrice strategy sqrtPriceLimit curSqrtPrice;
  Ok (strategy, sqrtPriceLimit).

(** *** One iteration *)

Definition iterator : Type := list (Z * TickInfo).

(** The next initialized tick with its entry, its square root price, and the target price. *)
Definition iteratorToNextInitializedTickSqrtPriceTarget (nextInitTickIter : iterator)
    (swapstrat : SwapStrategy) : outcome (Z * BigDec.t * BigDec.t) :=
  match nextInitTickIter with
  | [] => Err "RanOutOfTicksForPoolError"
  | (nextInitializedTick, _) :: _ =>
    match TickToSqrtPrice nextInitializedTick with
    | Panic p => Panic p
    | Err _ => Err "could not convert next tick to nextSqrtPrice"
    | Ok nextInitializedTickSqrtPrice =>
      Ok (nextInitializedTick, nextInitializedTickSqrtPrice,
          GetSqrtTargetPrice swapstrat nextInitializedTickSqrtPrice)
    end
  end.

(** [updateAccumulators] is [Some]; the uptime accumulators are fetched at every crossing, because the
    assignment to the parameter [uptimeAccums] does not reach the caller. *)
Definition swapCrossTickLogic (swapState : SwapState) (strategy : SwapStrategy)
    (nextInitializedTick : Z) (nextTickIter : iterator) (p : Pool.Pool)
    (spreadRewardAccum : option AccumulatorObject) (tokenInDenom : string)
    : K (SwapState * iterator * Pool.Pool) :=
  match nextTickIter with
  | [] => panic "iterator is invalid"
  | (_, nextInitializedTickInfo) :: rest =>
    p ←
      match spreadRewardAccum with
      | None => mret p
      | Some acc =>
        uptimeAccums ← GetUptimeAccumulators (Pool.Id p);
        '(p, uptimeAccums) ← updateGivenPoolUptimeAccumulatorsToNow p uptimeAccums;
        let spreadRewardGrowth :=
          {| coin.DDenom := tokenInDenom;
             coin.DAmount := globalSpreadRewardGrowthPerUnitLiquidity swapState |} in
        _ ← crossTick (Pool.Id p) nextInitializedTick nextInitializedTickInfo spreadRewardGrowth
              (Accum.valuePerShare acc) uptimeAccums;
        mret p
      end;
    let liquidityNet := SetLiquidityDeltaSign (swapStrategy swapState)
                          (LiquidityNet nextInitializedTickInfo) in
    newLiquidity ← lift (sdk.Add (liquidity swapState) liquidityNet);
    mret (with_tick (UpdateTickAfterCrossing strategy nextInitializedTick) newLiquidity swapState,
          rest, Pool.with_liquidity newLiquidity p)
  end.

(** The variables of the loops. *)
Record loopState := {
  lstate : SwapState;
  literator : iterator;
  lpool : Pool.Pool;
  lnoProgress : Z
}.

(** What one iteration of either loop does after the step has been computed: the price reached, the
    amounts of the step, and what they do to the amounts remaining and calculated. *)
Definition swapStep (exactIn : bool) (strategy : SwapStrategy) (nextInitializedTick : Z)
    (nextInitializedTickSqrtPrice computedSqrtPrice : BigDec.t)
    (amountIn amountOut spreadRewardCharge : Dec.t) (tokenInDenom : string)
    (accums : option (AccumulatorObject * Dec.t)) (l : loopState) : K loopState :=
  let swapState := lstate l in
  let sqrtPriceStart := sqrtPrice swapState in
  _ ← lift (validateSwapProgressAndAmountConsumption computedSqrtPrice sqrtPriceStart amountIn amountOut);
  swapState ←
    match accums with
    | None => mret swapState
    | Some (_, scalingFactor) =>
      '(_, ss) ← lift (updateSpreadRewardGrowthGlobal swapState spreadRewardCharge scalingFactor);
      mret ss
    end;
  inWithCharge ← lift (sdk.Add amountIn spreadRewardCharge);
  remaining ← lift (sdk.Sub (amountSpecifiedRemaining swapState)
                      (if exactIn then inWithCharge else amountOut));
  calculated ← lift (sdk.Add (amountCalculated swapState)
                       (if exactIn then amountOut else inWithCharge));
  let swapState := with_amounts remaining calculated computedSqrtPrice swapState in
  '(swapState, iter, p) ←
    (if BigDec.Equal nextInitializedTickSqrtPrice computedSqrtPrice then
       swapCrossTickLogic swapState strategy nextInitializedTick (literator l) (lpool l)
         (fst <$> accums) tokenInDenom
     else if edgeCaseInequalityBasedOnSwapStrategy (ZeroForOne strategy)
               nextInitializedTickSqrtPrice computedSqrtPrice
     then throw "ComputedSqrtPriceInequalityError"
     else if negb (BigDec.Equal sqrtPriceStart computedSqrtPrice) then
       newTick ← lift (CalculateSqrtPriceToTick computedSqrtPrice);
       mret (with_tick newTick (liquidity swapState) swapState, literator l, lpool l)
     else mret (swapState, literator l, lpool l));
  if sdk.IsZero (if exactIn then amountIn else amountOut) then
    _ ← require (negb (swapNoProgressLimit <=? lnoProgress l)) "SwapNoProgressError";
    mret {| lstate := swapState; literator := iter; lpool := p; lnoProgress := lnoProgress l + 1 |}
  else mret {| lstate := swapState; literator := iter; lpool := p; lnoProgress := lnoProgress l |}.

(** The body of the loop of [computeOutAmtGivenIn] (exact in) and of [computeInAmtGivenOut]. *)
Definition swapIteration (exactIn : bool) (strategy : SwapStrategy) (tokenInDenom : string)
    (accums : option (AccumulatorObject * Dec.t)) (l : loopState) : K loopState :=
  let swapState := lstate l in
  '(nextInitializedTick, nextInitializedTickSqrtPrice, sqrtPriceTarget) ←
    lift (iteratorToNextInitializedTickSqrtPriceTarget (literator l) strategy);
  if exactIn then
    '(computedSqrtPrice, amountIn, amountOut, spreadRewardCharge) ←
      lift (ComputeSwapWithinBucketOutGivenIn strategy (sqrtPrice swapState) sqrtPriceTarget
              (liquidity swapState) (amountSpecifiedRemaining swapState));
    swapStep exactIn strategy nextInitializedTick nextInitializedTickSqrtPrice computedSqrtPrice
      amountIn amountOut spreadRewardCharge tokenInDenom accums l
  else
    '(computedSqrtPrice, amountOut, amountIn, spreadRewardChargeTotal) ←
      lift (ComputeSwapWithinBucketInGivenOut strategy (sqrtPrice swapState) sqrtPriceTarget
              (liquidity swapState) (amountSpecifiedRemaining swapState));
    swapStep exactIn strategy nextInitializedTick nextInitializedTickSqrtPrice computedSqrtPrice
      amountIn amountOut spreadRewardChargeTotal tokenInDenom accums l.

Definition keepSwapping (sqrtPriceLimit : BigDec.t) (ss : SwapState) : bool :=
  sdk.GT (amountSpecifiedRemaining ss) smallestDec && negb (BigDec.Equal (sqrtPrice ss) sqrtPriceLimit).

Fixpoint swapLoop (fuel : nat) (exactIn : bool) (strategy : SwapStrategy) (sqrtPriceLimit : BigDec.t)
    (tokenInDenom : string) (accums : option (AccumulatorObject * Dec.t)) (l : loopState)
    : K loopState :=
  if keepSwapping sqrtPriceLimit (lstate l) then
    match fuel with
    | O => panic "out of fuel"
    | S fuel =>
      l ← swapIteration exactIn strategy tokenInDenom accums l;
      swapLoop fuel exactIn strategy sqrtPriceLimit tokenInDenom accums l
    end
  else mret l.

(** *** Computing a swap *)

Definition poolUpdatesOf (ss : SwapState) : PoolUpdates :=
  {| NewCurrentTick := tick ss; NewLiquidity := liquidity ss; NewSqrtPrice := sqrtPrice ss |}.

(** Both functions up to the end of the loop. *)
Definition runSwap (fuel : nat) (exactIn : bool) (poolId : Z) (specified : SdkInt.t)
    (tokenInDenom tokenOutDenom : string) (spreadFactor : Dec.t) (priceLimit : BigDec.t)
    (updateAccumulators : bool) : K (SwapState * option AccumulatorObject) :=
  '(p, spreadRewardAccumulator) ← swapSetup poolId tokenInDenom tokenOutDenom updateAccumulators;
  '(strategy, sqrtPriceLimit) ← lift (setupSwapStrategy p spreadFactor tokenInDenom priceLimit);
  accums ←
    match spreadRewardAccumulator with
    | None => mret None
    | Some acc =>
      scalingFactor ← getSpreadFactorScalingFactorForPool poolId;
      mret (Some (acc, scalingFactor))
    end;
  let swapState := newSwapState specified p strategy in
  nextInitTickIter ← InitializeNextTickIterator (ZeroForOne strategy) poolId (tick swapState);
  l ← swapLoop fuel exactIn strategy sqrtPriceLimit tokenInDenom accums
        {| lstate := swapState; literator := nextInitTickIter; lpool := p; lnoProgress := 0 |};
  mret (lstate l, spreadRewardAccumulator).

(** The growth is added to the pool's accumulator at the end. *)
Definition addSpreadRewards (spreadRewardAccumulator : option AccumulatorObject)
    (growth : outcome coin.DecCoins) : K unit :=
  match spreadRewardAccumulator with
  | None => mret tt
  | Some acc =>
    coins ← lift growth;
    _ ← on_accums (Accum.AddToAccumulator acc coins);
    mret tt
  end.

Definition computeOutAmtGivenIn (fuel : nat) (poolId : Z) (tokenInMin : coin.Coin)
    (tokenOutDenom : string) (spreadFactor : Dec.t) (priceLimit : BigDec.t)
    (updateAccumulators : bool) : K (SwapResult * PoolUpdates) :=
  '(swapState, spreadRewardAccumulator) ←
    runSwap fuel true poolId (coin.Amount tokenInMin) (coin.Denom tokenInMin) tokenOutDenom
      spreadFactor priceLimit updateAccumulators;
  _ ← require (negb (sdk.IsNegative (amountSpecifiedRemaining swapState)))
        "OverChargeSwapOutGivenInError";
  _ ← addSpreadRewards spreadRewardAccumulator
        (coin.NewDecCoins [{| coin.DDenom := coin.Denom tokenInMin;
           coin.DAmount := globalSpreadRewardGrowthPerUnitLiquidity swapState |}]);
  consumed ← lift (sdk.Sub (sdk.ToLegacyDec (coin.Amount tokenInMin))
                     (amountSpecifiedRemaining swapState));
  consumedUp ← lift (sdk.Ceil consumed);
  amountIn ← lift (sdk.TruncateInt consumedUp);
  amountOut ← lift (sdk.TruncateInt (amountCalculated swapState));
  mret ({| AmountIn := amountIn; AmountOut := amountOut;
           SpreadRewards := globalSpreadRewardGrowth swapState |}, poolUpdatesOf swapState).

Definition computeInAmtGivenOut (fuel : nat) (desiredTokenOut : coin.Coin) (tokenInDenom : string)
    (spreadFactor : Dec.t) (priceLimit : BigDec.t) (poolId : Z) (updateAccumulators : bool)
    : K (SwapResult * PoolUpdates) :=
  '(swapState, spreadRewardAccumulator) ←
    runSwap fuel false poolId (coin.Amount desiredTokenOut) tokenInDenom (coin.Denom desiredTokenOut)
      spreadFactor priceLimit updateAccumulators;
  _ ← require (negb (sdk.IsNegative (amountSpecifiedRemaining swapState)))
        "over charged problem swap in given out";
  _ ← addSpreadRewards spreadRewardAccumulator
        (c ← coin.NewDecCoinFromDec tokenInDenom (globalSpreadRewardGrowthPerUnitLiquidity swapState);
         coin.NewDecCoins [c]);
  calculatedUp ← lift (sdk.Ceil (amountCalculated swapState));
  amountIn ← lift (sdk.TruncateInt calculatedUp);
  paid ← lift (sdk.Sub (sdk.ToLegacyDec (coin.Amount desiredTokenOut))
                 (amountSpecifiedRemaining swapState));
  amountOut ← lift (sdk.TruncateInt paid);
  mret ({| AmountIn := amountIn; AmountOut := amountOut;
           SpreadRewards := globalSpreadRewardGrowth swapState |}, poolUpdatesOf swapState).

(** *** Settling a swap *)

(** [if err != nil { return types.SomeError{Err: err} }] *)
Definition or_err {B} (m : K B) (e : string) : K B := λ s,
  match m s with Err _ => Err e | r => r end.

Definition updatePoolForSwap (pool : Pool.Pool) (swapDetails : SwapDetails) (poolUpdates : PoolUpdates)
    (totalSpreadFactors : Dec.t) : K unit :=
  let poolId := Pool.Id pool in
  pool ← getPoolById poolId;
  totalUp ← lift (sdk.Ceil totalSpreadFactors);
  totalInt ← lift (sdk.TruncateInt totalUp);
  spreadFactorsRoundedUp ← lift (coin.NewCoin (coin.Denom (TokenIn swapDetails)) totalInt);
  tokenInAmount ← lift (sdk.IntSub (coin.Amount (TokenIn swapDetails))
                          (coin.Amount spreadFactorsRoundedUp));
  let tokenIn := {| coin.Denom := coin.Denom (TokenIn swapDetails); coin.Amount := tokenInAmount |} in
  let sender := Sender swapDetails in
  poolAddress ← lift (Pool.GetAddress pool);
  _ ← or_err (on_bank (SendCoins sender poolAddress [tokenIn])) "InsufficientUserBalanceError";
  _ ← (if negb (sdk.IntIsZero (coin.Amount spreadFactorsRoundedUp)) then
         spreadRewardsAddress ← lift (Pool.GetSpreadRewardsAddress pool);
         or_err (on_bank (SendCoins sender spreadRewardsAddress [spreadFactorsRoundedUp]))
           "InsufficientUserBalanceError"
       else mret tt);
  poolAddress ← lift (Pool.GetAddress pool);
  _ ← or_err (on_bank (SendCoins poolAddress sender [TokenOut swapDetails]))
        "InsufficientPoolBalanceError";
  pool ← lift (Pool.ApplySwap (NewLiquidity poolUpdates) (NewCurrentTick poolUpdates)
                 (NewSqrtPrice poolUpdates) pool);
  _ ← setPool pool;
  AfterConcentratedPoolSwap sender poolId [tokenIn] [TokenOut swapDetails].

Definition swapOutAmtGivenIn (fuel : nat) (sender : addr.AccAddress) (pool : Pool.Pool)
    (tokenIn : coin.Coin) (tokenOutDenom : string) (spreadFactor : Dec.t) (priceLimit : BigDec.t)
    : K (coin.Coin * coin.Coin * PoolUpdates) :=
  '(swapResult, poolUpdates) ←
    computeOutAmtGivenIn fuel (Pool.Id pool) tokenIn tokenOutDenom spreadFactor priceLimit true;
  tokenIn ← lift (coin.NewCoin (coin.Denom tokenIn) (AmountIn swapResult));
  tokenOut ← lift (coin.NewCoin tokenOutDenom (AmountOut swapResult));
  _ ← require (sdk.IntIsPositive (coin.Amount tokenOut)) "InvalidAmountCalculatedError";
  _ ← updatePoolForSwap pool {| Sender := sender; TokenIn := tokenIn; TokenOut := tokenOut |}
        poolUpdates (SpreadRewards swapResult);
  mret (tokenIn, tokenOut, poolUpdates).

Definition swapInAmtGivenOut (fuel : nat) (sender : addr.AccAddress) (pool : Pool.Pool)
    (desiredTokenOut : coin.Coin) (tokenInDenom : string) (spreadFactor : Dec.t)
    (priceLimit : BigDec.t) : K (coin.Coin * coin.Coin * PoolUpdates) :=
  '(swapResult, poolUpdates) ←
    computeInAmtGivenOut fuel desiredTokenOut tokenInDenom spreadFactor priceLimit (Pool.Id pool) true;
  tokenIn ← lift (coin.NewCoin tokenInDenom (AmountIn swapResult));
  tokenOut ← lift (coin.NewCoin (coin.Denom desiredTokenOut) (AmountOut swapResult));
  _ ← require (sdk.IntIsPositive (coin.Amount tokenIn)) "InvalidAmountCalculatedError";
  _ ← updatePoolForSwap pool {| Sender := sender; TokenIn := tokenIn; TokenOut := tokenOut |}
        poolUpdates (SpreadRewards swapResult);
  mret (tokenIn, tokenOut, poolUpdates).

Definition SwapExactAmountIn (fuel : nat) (sender : addr.AccAddress) (pool : Pool.Pool)
    (tokenIn : coin.Coin) (tokenOutDenom : string) (tokenOutMinAmount : SdkInt.t)
    (spreadFactor : Dec.t) : K SdkInt.t :=
  _ ← require (negb (String.eqb (coin.Denom tokenIn) tokenOutDenom)) "DenomDuplicatedError";
  _ ← BeforeSwapExactAmountIn (Pool.Id pool) sender tokenIn tokenOutDenom tokenOutMinAmount spreadFactor;
  let zeroForOne := getZeroForOne (coin.Denom tokenIn) (Pool.Token0 pool) in
  priceLimit ← lift (GetPriceLimit zeroForOne);
  '(tokenIn, tokenOut, _) ←
    swapOutAmtGivenIn fuel sender pool tokenIn tokenOutDenom spreadFactor priceLimit;
  let tokenOutAmount := coin.Amount tokenOut in
  _ ← require (negb (sdk.IntLT tokenOutAmount tokenOutMinAmount)) "AmountLessThanMinError";
  coinsIn ← lift (coin.NewCoins [tokenIn]);
  _ ← RecordTotalLiquidityIncrease coinsIn;
  coinsOut ← lift (coin.NewCoins [tokenOut]);
  _ ← RecordTotalLiquidityDecrease coinsOut;
  _ ← AfterSwapExactAmountIn (Pool.Id pool) sender tokenIn tokenOutDenom tokenOutMinAmount spreadFactor;
  mret tokenOutAmount.

Definition SwapExactAmountOut (fuel : nat) (sender : addr.AccAddress) (pool : Pool.Pool)
    (tokenInDenom : string) (tokenInMaxAmount : SdkInt.t) (tokenOut : coin.Coin)
    (spreadFactor : Dec.t) : K SdkInt.t :=
  _ ← require (negb (String.eqb (coin.Denom tokenOut) tokenInDenom)) "DenomDuplicatedError";
  _ ← BeforeSwapExactAmountOut (Pool.Id pool) sender tokenInDenom tokenInMaxAmount tokenOut spreadFactor;
  let zeroForOne := getZeroForOne tokenInDenom (Pool.Token0 pool) in
  priceLimit ← lift (GetPriceLimit zeroForOne);
  '(tokenIn, tokenOut, _) ←
    swapInAmtGivenOut fuel sender pool tokenOut tokenInDenom spreadFactor priceLimit;
  let tokenInAmount := coin.Amount tokenIn in
  _ ← require (negb (sdk.IntGT tokenInAmount tokenInMaxAmount)) "AmountGreaterThanMaxError";
  coinsIn ← lift (coin.NewCoins [tokenIn]);
  _ ← RecordTotalLiquidityIncrease coinsIn;
  coinsOut ← lift (coin.NewCoins [tokenOut]);
  _ ← RecordTotalLiquidityDecrease coinsOut;
  _ ← AfterSwapExactAmountOut (Pool.Id pool) sender tokenInDenom tokenInMaxAmount tokenOut spreadFactor;
  mret tokenInAmount.

(** *** Estimates *)

Definition CalcOutAmtGivenIn (fuel : nat) (pool : Pool.Pool) (tokenIn : coin.Coin)
    (tokenOutDenom : string) (spreadFactor : Dec.t) : K coin.Coin :=
  '(swapResult, _) ←
    cached (computeOutAmtGivenIn fuel (Pool.Id pool) tokenIn tokenOutDenom spreadFactor
              unboundedPriceLimit false);
  lift (coin.NewCoin tokenOutDenom (AmountOut swapResult)).

Definition CalcInAmtGivenOut (fuel : nat) (pool : Pool.Pool) (tokenOut : coin.Coin)
    (tokenInDenom : string) (spreadFactor : Dec.t) : K coin.Coin :=
  '(swapResult, _) ←
    cached (computeInAmtGivenOut fuel tokenOut tokenInDenom spreadFactor unboundedPriceLimit
              (Pool.Id pool) false);
  lift (coin.NewCoin tokenInDenom (AmountIn swapResult)).

(** The loop of [ComputeMaxInAmtGivenMaxTicksCrossed]; it writes nothing.  The swap state's price is
    overwritten before it is compared with the computed one, so its tick is never recomputed. *)
Fixpoint maxTicksLoop (i : nat) (swapStrategy : SwapStrategy) (nextInitTickIter : iterator)
    (swapState : SwapState) (totalTokenOut : Dec.t) : outcome (SwapState * Dec.t) :=
  match i, nextInitTickIter with
  | O, _ => Ok (swapState, totalTokenOut)
  | _, [] => Ok (swapState, totalTokenOut)
  | S i, (_, nextInitializedTickInfo) :: rest =>
    '(nextInitializedTick, nextInitializedTickSqrtPrice, sqrtPriceTarget) ←
      iteratorToNextInitializedTickSqrtPriceTarget nextInitTickIter swapStrategy;
    '(computedSqrtPrice, amountOut, amountIn, spreadRewardChargeTotal) ←
      ComputeSwapWithinBucketInGivenOut swapStrategy (sqrtPrice swapState) sqrtPriceTarget
        (liquidity swapState) (amountSpecifiedRemaining swapState);
    remaining ← sdk.Sub (amountSpecifiedRemaining swapState) amountOut;
    inWithCharge ← sdk.Add amountIn spreadRewardChargeTotal;
    calculated ← sdk.Add (amountCalculated swapState) inWithCharge;
    let swapState := with_amounts remaining calculated computedSqrtPrice swapState in
    totalTokenOut ← sdk.Add totalTokenOut amountOut;
    '(swapState, iter) ←
      (if BigDec.Equal nextInitializedTickSqrtPrice computedSqrtPrice then
         let liquidityNet :=
           SetLiquidityDeltaSign swapStrategy (LiquidityNet nextInitializedTickInfo) in
         newLiquidity ← sdk.Add (liquidity swapState) liquidityNet;
         Ok (with_tick (UpdateTickAfterCrossing swapStrategy nextInitializedTick) newLiquidity swapState,
             rest)
       else if edgeCaseInequalityBasedOnSwapStrategy (ZeroForOne swapStrategy)
                 nextInitializedTickSqrtPrice computedSqrtPrice
       then Err "ComputedSqrtPriceInequalityError"
       else if negb (BigDec.Equal (sqrtPrice swapState) computedSqrtPrice) then
         newTick ← CalculateSqrtPriceToTick computedSqrtPrice;
         Ok (with_tick newTick (liquidity swapState) swapState, nextInitTickIter)
       else Ok (swapState, nextInitTickIter));
    if sdk.IsZero amountOut then Ok (swapState, totalTokenOut)
    else maxTicksLoop i swapStrategy iter swapState totalTokenOut
  end.

Definition ComputeMaxInAmtGivenMaxTicksCrossed (poolId : Z) (tokenInDenom : string)
    (maxTicksCrossed : nat) : K (coin.Coin * coin.Coin) :=
  p ← getPoolForSwap poolId;
  _ ← require (String.eqb tokenInDenom (Pool.Token0 p) || String.eqb tokenInDenom (Pool.Token1 p))
        "TokenInDenomNotInPoolError";
  let tokenOutDenom :=
    if String.eqb tokenInDenom (Pool.Token0 p) then Pool.Token1 p else Pool.Token0 p in
  '(strategy, _) ← lift (setupSwapStrategy p (Pool.SpreadFactor p) tokenInDenom BigDec.ZeroBigDec);
  poolAddress ← lift (Pool.GetAddress p);
  balance ← gets (λ s, GetBalance (world s) poolAddress tokenOutDenom);
  let swapState := newSwapState (coin.Amount balance) p strategy in
  nextInitTickIter ← InitializeNextTickIterator (ZeroForOne strategy) poolId (tick swapState);
  '(swapState, totalTokenOut) ←
    lift (maxTicksLoop maxTicksCrossed strategy nextInitTickIter swapState zeroDec);
  calculatedUp ← lift (sdk.Ceil (amountCalculated swapState));
  maxAmt ← lift (sdk.TruncateInt calculatedUp);
  maxTokenIn ← lift (coin.NewCoin tokenInDenom maxAmt);
  totalOut ← lift (sdk.TruncateInt totalTokenOut);
  resultingTokenOut ← lift (coin.NewCoin tokenOutDenom totalOut);
  mret (maxTokenIn, resultingTokenOut).
End swaps.
End CLSwaps.
