(* ===== verification/CLPools.v ===== *)
(** Pools: the rest of x/concentrated-liquidity/pool.go, and the message server's entry points.

    Creating and configuring pools, prices, balances, position lists, and the migrations that scale
    the reward accumulators of a pool. *)
From stdpp Require Import prelude strings list gmap sorting.
From S2P Require Import Prelude.
From S2P Require Import GoBig.
From S2P Require Import GoState.
From S2P Require Import SdkDec.
From S2P Require Import SdkCoins.
From S2P Require Import Decimal.
From S2P Require Import CLTick.
From S2P Require Import CLKeys.
From S2P Require Import Accum.
From S2P Require Import CLPool.
From S2P Require Import CLStore.
From S2P Require Import CLRewards.
From S2P Require Import CLTickStore.
From S2P Require Import CLClaims.
From S2P Require Import CLPosition.
From S2P Require Import CLLp.
Local Open Scope Z_scope.
Import CLConst CLStore CLRewards CLTickStore CLClaims CLPosition CLLp.

Module CLPools.
Section pools.
  Context {D : sdk.LegacyDec} {C : coin.CoinOps} {A : addr.Addresses} {E : Env} {T : Block} {H : Hooks}.
  Abbreviation K := (M store).

(** *** Parameters *)

Definition validateTickSpacing (params : Params) (tickSpacing : Z) : bool :=
  existsb (λ authorizedTick, tickSpacing =? authorizedTick) (AuthorizedTickSpacing params).

Definition validateTickSpacingUpdate (pool : Pool.Pool) (params : Params) (newTickSpacing : Z) : bool :=
  let currentTickSpacing := Pool.TickSpacing pool in
  existsb (λ authorizedTick, (newTickSpacing =? authorizedTick) && (newTickSpacing <? currentTickSpacing))
    (AuthorizedTickSpacing params).

Definition validateSpreadFactor (params : Params) (spreadFactor : Dec.t) : bool :=
  existsb (λ authorizedSpreadFactor, sdk.Equal spreadFactor authorizedSpreadFactor)
    (AuthorizedSpreadFactors params).

Definition validateAuthorizedQuoteDenoms (denom1 : string) (authorizedQuoteDenoms : list string) : bool :=
  existsb (λ authorizedQuoteDenom, String.eqb denom1 authorizedQuoteDenom) authorizedQuoteDenoms.

(** *** Creating a pool *)

Definition whitelisted (creatorAddress : addr.AccAddress) (whitelist : list string) : outcome bool :=
  foldl (λ acc address,
    bypass ← acc;
    a ← Pool.or_panic (addr.AccAddressFromBech32 address) "MustAccAddressFromBech32";
    Ok (bypass || String.eqb a creatorAddress)) (Ok false) whitelist.

Definition InitializePool (concentratedPool : Pool.Pool) (creatorAddress : addr.AccAddress) : K unit :=
  params ← gets (λ s, GetParams (world s));
  let poolId := Pool.Id concentratedPool in
  authorizedQuoteDenoms ← gets (λ s, PoolManagerQuoteDenoms (world s));
  bypassRestrictions ←
    (if String.eqb creatorAddress (GetModuleAccountAddress "poolmanager") then mret true
     else lift (whitelisted creatorAddress (UnrestrictedPoolCreatorWhitelist params)));
  _ ← (if negb bypassRestrictions then
         _ ← require (IsPermissionlessPoolCreationEnabled params) "ErrPermissionlessPoolCreationDisabled";
         _ ← require (validateTickSpacing params (Pool.TickSpacing concentratedPool))
               "UnauthorizedTickSpacingError";
         _ ← require (validateSpreadFactor params (Pool.SpreadFactor concentratedPool))
               "UnauthorizedSpreadFactorError";
         require (validateAuthorizedQuoteDenoms (Pool.Token1 concentratedPool) authorizedQuoteDenoms)
           "UnauthorizedQuoteDenomError"
       else mret tt);
  _ ← createSpreadRewardAccumulator poolId;
  _ ← createUptimeAccumulators poolId;
  _ ← setPool (Pool.SetLastLiquidityUpdate BlockTime concentratedPool);
  AfterConcentratedPoolCreated creatorAddress poolId.

(** *** Queries *)

Definition CalculateSpotPrice (poolId : Z) (quoteAssetDenom baseAssetDenom : string) : K BigDec.t :=
  concentratedPool ← getPoolById poolId;
  _ ← require (PoolHasPosition concentratedPool) "NoSpotPriceWhenNoLiquidityError";
  price ← lift (Pool.SpotPrice concentratedPool quoteAssetDenom baseAssetDenom);
  _ ← require (negb (BigDec.IsZero price)) "PriceBoundError";
  maxPrice ← lift MaxSpotPriceBigDec;
  minPrice ← lift MinSpotPriceBigDec;
  _ ← require (negb (BigDec.GT price maxPrice || BigDec.LT price minPrice)) "PriceBoundError";
  mret price.

Definition GetTotalPoolLiquidity (poolId : Z) : K coin.Coins :=
  pool ← getPoolById poolId;
  address ← lift (Pool.GetAddress pool);
  token0Bal ← gets (λ s, GetBalance (world s) address (Pool.Token0 pool));
  token1Bal ← gets (λ s, GetBalance (world s) address (Pool.Token1 pool));
  lift (coin.NewCoins [token0Bal; token1Bal]).

(** The keys of the index end in the big-endian position id, so they are met in increasing order. *)
Definition GetPositionIDsByPoolID (poolID : Z) : K (list Z) :=
  gets (λ s, merge_sort Z.le (snd <$> filter (λ k, k.1 = poolID) (elements (poolPosition s)))).

(** *** Governance: tick spacings *)

Definition DecreaseConcentratedPoolTickSpacing (records : list (Z * Z)) : K unit :=
  for_each records (λ '(poolId, newTickSpacing),
    pool ← getPoolById poolId;
    params ← gets (λ s, GetParams (world s));
    _ ← require (validateTickSpacingUpdate pool params newTickSpacing) "tick spacing is not valid";
    setPool (Pool.SetTickSpacing newTickSpacing pool)).

(** *** Migrations to scaled accumulators *)

Definition scaleUp (value : coin.DecCoins) : outcome coin.DecCoins :=
  factor ← perUnitLiqScalingFactor; coin.MulDecTruncate value factor.

(** The value of a position's record in an accumulator. *)
Definition scalePosition (accum : AccumulatorObject) (positionKey error : string)
    : M Accum.accumStore unit :=
  hasPosition ← Accum.HasPosition accum positionKey;
  _ ← require (S := Accum.accumStore) hasPosition error;
  positionSnapshot ← Accum.GetPosition accum positionKey;
  newValue ← lift (scaleUp (Accum.AccumValuePerShare positionSnapshot));
  Accum.SetPositionIntervalAccumulation accum positionKey newValue.

Definition with_growth_outside (t : TickInfo) (g : coin.DecCoins) (u : list coin.DecCoins) : TickInfo :=
  {| LiquidityGross := LiquidityGross t; LiquidityNet := LiquidityNet t;
     SpreadRewardGrowthOppositeDirectionOfLastTraversal := g; UptimeTrackers := u |}.

Fixpoint scaleTrackers (l : list coin.DecCoins) : outcome (list coin.DecCoins) :=
  match l with
  | [] => Ok []
  | t :: l => t ← scaleUp t; l ← scaleTrackers l; Ok (t :: l)
  end.

Definition MigrateIncentivesAccumulatorToScalingFactor (poolId : Z) : K unit :=
  uptimeAccums ← GetUptimeAccumulators poolId;
  positionIDs ← GetPositionIDsByPoolID poolId;
  _ ← for_each (zip uptimeIndices uptimeAccums) (λ '(uptimeIndex, uptimeAccum),
        value ← lift (scaleUp (Accum.valuePerShare uptimeAccum));
        _ ← on_accums (Accum.OverwriteAccumulatorUnsafe
              (CLKeys.KeyUptimeAccumulator poolId (Z.of_nat uptimeIndex)) value
              (Accum.totalShares uptimeAccum));
        for_each positionIDs (λ positionID,
          on_accums (scalePosition uptimeAccum (CLKeys.KeyPositionId positionID)
            "position ID not found in uptime accumulator")));
  poolTicks ← GetAllInitializedTicksForPool poolId;
  for_each poolTicks (λ '(tickIndex, info),
    trackers ← lift (scaleTrackers (UptimeTrackers info));
    SetTickInfo poolId tickIndex
      (with_growth_outside info (SpreadRewardGrowthOppositeDirectionOfLastTraversal info) trackers)).

Definition MigrateSpreadFactorAccumulatorToScalingFactor (poolId : Z) : K unit :=
  spreadRewardAccumulator ← GetSpreadRewardAccumulator poolId;
  value ← lift (scaleUp (Accum.valuePerShare spreadRewardAccumulator));
  _ ← on_accums (Accum.OverwriteAccumulatorUnsafe (CLKeys.KeySpreadRewardPoolAccumulator poolId) value
        (Accum.totalShares spreadRewardAccumulator));
  positionIDs ← GetPositionIDsByPoolID poolId;
  _ ← for_each positionIDs (λ positionId,
        on_accums (scalePosition spreadRewardAccumulator
          (CLKeys.KeySpreadRewardPositionAccumulator positionId) "SpreadRewardPositionNotFoundError"));
  poolTicks ← GetAllInitializedTicksForPool poolId;
  for_each poolTicks (λ '(tickIndex, info),
    growth ← lift (scaleUp (SpreadRewardGrowthOppositeDirectionOfLastTraversal info));
    SetTickInfo poolId tickIndex (with_growth_outside info growth (UptimeTrackers info))).

(** *** The message server (msg_server.go) *)

Definition MsgCreatePosition (Sender : string) (PoolId : Z) (TokensProvided : coin.Coins)
    (TokenMinAmount0 TokenMinAmount1 : SdkInt.t) (LowerTick UpperTick : Z) : K CreatePositionData :=
  sender ← lift (addr.AccAddressFromBech32 Sender);
  CreatePosition PoolId sender TokensProvided TokenMinAmount0 TokenMinAmount1 LowerTick UpperTick.

(** An absent minimum is zero. *)
Definition MsgAddToPosition (Sender : string) (PositionId : Z) (Amount0 Amount1 : SdkInt.t)
    (TokenMinAmount0 TokenMinAmount1 : option SdkInt.t) : K (Z * SdkInt.t * SdkInt.t) :=
  sender ← lift (addr.AccAddressFromBech32 Sender);
  addToPosition sender PositionId Amount0 Amount1 (default zeroInt TokenMinAmount0)
    (default zeroInt TokenMinAmount1).

Definition MsgWithdrawPosition (Sender : string) (PositionId : Z) (LiquidityAmount : Dec.t)
    : K (SdkInt.t * SdkInt.t) :=
  sender ← lift (addr.AccAddressFromBech32 Sender);
  WithdrawPosition sender PositionId LiquidityAmount.

Definition MsgCollectSpreadRewards (Sender : string) (PositionIds : list Z) : K coin.Coins :=
  sender ← lift (addr.AccAddressFromBech32 Sender);
  start ← lift (coin.NewCoins []);
  fold_each PositionIds start (λ totalCollectedSpreadRewards positionId,
    collectedFees ← collectSpreadRewards sender positionId;
    lift (coin.Add totalCollectedSpreadRewards collectedFees)).

Definition MsgCollectIncentives (Sender : string) (PositionIds : list Z) : K (coin.Coins * coin.Coins) :=
  sender ← lift (addr.AccAddressFromBech32 Sender);
  start ← lift (coin.NewCoins []);
  fold_each PositionIds (start, start) (λ totals positionId,
    '(collectedIncentives, forfeitedIncentives, _) ← collectIncentives sender positionId;
    collected ← lift (coin.Add totals.1 collectedIncentives);
    forfeited ← lift (coin.Add totals.2 forfeitedIncentives);
    mret (collected, forfeited)).

Definition MsgTransferPositions (Sender : string) (PositionIds : list Z) (NewOwner : string) : K unit :=
  sender ← lift (addr.AccAddressFromBech32 Sender);
  newOwner ← lift (addr.AccAddressFromBech32 NewOwner);
  transferPositions PositionIds sender newOwner.
End pools.
End CLPools.
