(* ===== verification/CLView.v ===== *)
(** The part of the concentrated-liquidity state that liquidity accounting depends on, and which
    operations leave it unchanged.

    [view_of] keeps pools up to the time of their last reward update, the two liquidity sums of every
    tick, the positions, the index of a pool's positions and the identifier of the next position.
    Reward accounting, locks, totals, incentive records and the bank do not change it. *)
From stdpp Require Import prelude strings list gmap.
From S2P Require Import Prelude.
From S2P Require Import GoBig.
From S2P Require Import GoState.
From S2P Require Import SdkDec.
From S2P Require Import SdkCoins.
From S2P Require Import Decimal.
From S2P Require Import CLTick.
From S2P Require Import Accum.
From S2P Require Import CLPool.
From S2P Require Import CLStore.
From S2P Require Import CLRewards.
From S2P Require Import CLTickStore.
From S2P Require Import CLClaims.
From S2P Require Import CLPosition.
From S2P Require Import CLLp.
Local Open Scope Z_scope.
Import CLConst CLStore CLRewards CLTickStore CLClaims CLPosition CLLp.

Module CLView.
Definition pool_core (p : Pool.Pool) : Pool.Pool := Pool.SetLastLiquidityUpdate 0 p.
Definition tick_core (t : TickInfo) : Z * Z := (Dec.i (LiquidityGross t), Dec.i (LiquidityNet t)).

Record view := {
  vpools : gmap Z Pool.Pool;
  vticks : gmap (Z * Z) (Z * Z);
  vpositions : gmap Z Position;
  vindex : gset (Z * Z);
  vnext : Z
}.

Section frames.
  Context {D : sdk.LegacyDec} {C : coin.CoinOps} {A : addr.Addresses} {E : Env} {T : Block}.
  Implicit Types (s : store).

Definition view_of (s : store) : view :=
  {| vpools := pool_core <$> pools s; vticks := tick_core <$> ticks s;
     vpositions := positions s; vindex := poolPosition s; vnext := nextPositionId s |}.

(** The view is unchanged. *)
Definition eqv (s s' : store) : Prop := view_of s = view_of s'.
#[export] Instance eqv_preorder : PreOrder eqv.
Proof. split; [done|]. intros x y z. unfold eqv. congruence. Qed.

(** Pools are stored under their own identifiers. *)
Definition ids_ok (v : view) : Prop := ∀ k p, vpools v !! k = Some p → Pool.Id p = k.
Definition same (s s' : store) : Prop := ids_ok (view_of s) → eqv s s'.
#[export] Instance same_preorder : PreOrder same.
Proof.
  split; [done|]. intros x y z H1 H2 Hi. pose proof (H1 Hi) as Hxy. unfold eqv in *.
  rewrite Hxy. apply H2. by rewrite <- Hxy.
Qed.

Lemma keeps_eqv_same {B} (m : M store B) : keeps eqv m → keeps same m.
Proof. intros H s b s' E1 _. by eapply H. Qed.

(** *** Primitive writes outside the view *)

Lemma keeps_set_locks f g : keeps eqv (modify (set_locks f g)).
Proof. apply (keeps_modify _). intros s. by unfold eqv. Qed.
Lemma keeps_set_totals f g : keeps eqv (modify (set_totals f g)).
Proof. apply (keeps_modify _). intros s. by unfold eqv. Qed.
Lemma keeps_set_rewards f g : keeps eqv (modify (set_rewards f g)).
Proof. apply (keeps_modify _). intros s. by unfold eqv. Qed.
Lemma keeps_set_ids g : keeps eqv (modify (set_ids id g)).
Proof. apply (keeps_modify _). intros s. by unfold eqv. Qed.
Lemma keeps_set_config f g h : keeps eqv (modify (set_config f g h)).
Proof. apply (keeps_modify _). intros s. by unfold eqv. Qed.
Lemma keeps_on_accums {B} (m : M Accum.accumStore B) : keeps eqv (on_accums m).
Proof. intros s b s1 (t & _ & ->)%st_zoom_Ok. by unfold eqv. Qed.
Lemma keeps_on_world {B} (m : World → outcome (B * World)) : keeps eqv (on_world m).
Proof. intros s b s1 (t & _ & ->)%st_zoom_Ok. by unfold eqv. Qed.
Lemma keeps_on_bank m : keeps eqv (on_bank m).
Proof. apply keeps_on_world. Qed.
End frames.

#[export] Hint Resolve eqv_preorder same_preorder : keeps.
#[export] Hint Resolve keeps_set_locks keeps_set_totals keeps_set_rewards keeps_set_ids keeps_set_config
  keeps_on_accums keeps_on_world keeps_on_bank : keeps.
#[export] Hint Resolve keeps_eqv_same | 5 : keeps.

(** Unfolds the head of the computation and decomposes it. *)
Ltac frame f := intros; unfold f; keeps_tac.

Section rewards.
  Context {D : sdk.LegacyDec} {C : coin.CoinOps} {A : addr.Addresses} {E : Env} {T : Block}.

(** *** Reads and reward accounting *)

Lemma keeps_getPoolById p : keeps eqv (getPoolById p).
Proof. frame @getPoolById. Qed.
Lemma keeps_hasPosition p : keeps eqv (hasPosition p).
Proof. frame @hasPosition. Qed.
Lemma keeps_GetPosition p : keeps eqv (GetPosition p).
Proof. frame @GetPosition. Qed.
Lemma keeps_GetSpread p : keeps eqv (GetSpreadRewardAccumulator p).
Proof. frame @GetSpreadRewardAccumulator. Qed.
Lemma keeps_GetUptime p : keeps eqv (GetUptimeAccumulators p).
Proof. frame @GetUptimeAccumulators. Qed.
#[local] Hint Resolve keeps_getPoolById keeps_hasPosition keeps_GetPosition keeps_GetSpread
  keeps_GetUptime : keeps.
Lemma keeps_GetUptimeValues p : keeps eqv (GetUptimeAccumulatorValues p).
Proof. frame @GetUptimeAccumulatorValues. Qed.
Lemma keeps_incentive_threshold : keeps eqv GetIncentivePoolIDMigrationThreshold.
Proof. frame @GetIncentivePoolIDMigrationThreshold. Qed.
Lemma keeps_spread_threshold : keeps eqv GetSpreadFactorPoolIDMigrationThreshold.
Proof. frame @GetSpreadFactorPoolIDMigrationThreshold. Qed.
#[local] Hint Resolve keeps_GetUptimeValues keeps_incentive_threshold keeps_spread_threshold : keeps.
Lemma keeps_incentive_factor p : keeps eqv (getIncentiveScalingFactorForPool p).
Proof. frame @getIncentiveScalingFactorForPool. Qed.
Lemma keeps_spread_factor p : keeps eqv (getSpreadFactorScalingFactorForPool p).
Proof. frame @getSpreadFactorScalingFactorForPool. Qed.
Lemma keeps_setIncentiveRecord r : keeps eqv (setIncentiveRecord r).
Proof. frame @setIncentiveRecord. Qed.
Lemma keeps_allRecords p : keeps eqv (GetAllIncentiveRecordsForPool p).
Proof. frame @GetAllIncentiveRecordsForPool. Qed.
#[local] Hint Resolve keeps_incentive_factor keeps_spread_factor keeps_setIncentiveRecord
  keeps_allRecords : keeps.
Lemma keeps_setMultiple r : keeps eqv (setMultipleIncentiveRecords r).
Proof. frame @setMultipleIncentiveRecords. Qed.
Lemma keeps_emitToAccums us accs q t f rs : keeps eqv (emitToAccums us accs q t f rs).
Proof.
  revert us rs. induction accs as [|a accs IH]; intros [|u us] rs; cbn [emitToAccums]; keeps_tac.
Qed.
Lemma keeps_initialUptime p t :
  keeps eqv (getInitialUptimeGrowthOppositeDirectionOfLastTraversalForTick p t).
Proof. frame @getInitialUptimeGrowthOppositeDirectionOfLastTraversalForTick. Qed.
Lemma keeps_initialSpread p t :
  keeps eqv (getInitialSpreadRewardGrowthOppositeDirectionOfLastTraversalForTick p t).
Proof. frame @getInitialSpreadRewardGrowthOppositeDirectionOfLastTraversalForTick. Qed.
#[local] Hint Resolve keeps_setMultiple keeps_emitToAccums keeps_initialUptime keeps_initialSpread : keeps.

(** *** Updating a pool's reward accumulators *)

Definition put_pool (p : Pool.Pool) (v : view) : view :=
  {| vpools := <[Pool.Id p := pool_core p]> (vpools v); vticks := vticks v;
     vpositions := vpositions v; vindex := vindex v; vnext := vnext v |}.

Lemma view_setPool p s : view_of (set_pools (insert (Pool.Id p) p) s) = put_pool p (view_of s).
Proof. unfold view_of, put_pool. cbn. by rewrite fmap_insert. Qed.

Lemma setPool_Ok p s u s' : setPool p s = Ok (u, s') → view_of s' = put_pool p (view_of s).
Proof. unfold setPool. intros ->%st_modify_Ok. apply view_setPool. Qed.

Lemma put_pool_id p v : vpools v !! Pool.Id p = Some (pool_core p) → put_pool p v = v.
Proof. intros H. unfold put_pool. destruct v. cbn in *. by rewrite insert_id. Qed.

Lemma core_update t p : pool_core (Pool.SetLastLiquidityUpdate t p) = pool_core p.
Proof. done. Qed.
Lemma put_pool_update t p v : put_pool (Pool.SetLastLiquidityUpdate t p) v = put_pool p v.
Proof. done. Qed.

(** A new position takes the next identifier. *)
Definition advance (v : view) : view :=
  {| vpools := vpools v; vticks := vticks v; vpositions := vpositions v; vindex := vindex v;
     vnext := wrap64 (vnext v + 1) |}.

Lemma nextPosition_Ok s k s' :
  getNextPositionIdAndIncrement s = Ok (k, s') → k = nextPositionId s ∧ view_of s' = advance (view_of s).
Proof.
  unfold getNextPositionIdAndIncrement, GetNextPositionId, SetNextPositionId. intros H. by inv_st.
Qed.

(** Only the time of the update changes in the pool object; the store gets the object. *)
Lemma update_given_view pool accs s pool' accs' s' :
  updateGivenPoolUptimeAccumulatorsToNow pool accs s = Ok ((pool', accs'), s') →
  pool_core pool' = pool_core pool ∧
  (view_of s' = view_of s ∨ view_of s' = put_pool pool (view_of s)).
Proof.
  unfold updateGivenPoolUptimeAccumulatorsToNow. intros H. inv_st_step.
  match goal with H : lift _ _ = _ |- _ => apply st_lift_Ok in H as [_ ->] end.
  destruct (sdk.IsZero _); [inv_st; simplify_eq; by split; [|left]|].
  destruct (sdk.IsNegative _); [done|].
  inv_st_step. inv_st_step. inv_st_step.
  match goal with H : context [let '(_, _) := ?q in _] |- _ => destruct q as [accs1 recs1] end.
  inv_st_step. inv_st_step. inv_st_step. simplify_eq. split; [apply core_update|]. right.
  repeat match goal with
  | H : GetAllIncentiveRecordsForPool _ _ = _ |- _ => apply keeps_allRecords in H
  | H : getIncentiveScalingFactorForPool _ _ = _ |- _ => apply keeps_incentive_factor in H
  | H : setMultipleIncentiveRecords _ _ = _ |- _ => apply keeps_setMultiple in H
  | H : setPool _ _ = _ |- _ => apply setPool_Ok in H
  | H : (if _ then _ else _) _ = Ok (_, _) |- _ =>
      destruct (negb _); [apply keeps_emitToAccums in H|inv_st; simplify_eq]
  end; unfold eqv in *; rewrite put_pool_update in *; congruence.
Qed.

Lemma getPoolById_Ok p s pool s' :
  getPoolById p s = Ok (pool, s') ↔ s = s' ∧ pools s !! p = Some pool.
Proof.
  unfold getPoolById. rewrite st_bind_Ok. setoid_rewrite st_gets_Ok.
  split.
  - intros (q & s1 & [-> ->] & H). destruct (pools s1 !! p) as [pool'|]; [|done].
    apply st_ret_Ok in H as [-> ->]. done.
  - intros [-> H]. exists (Some pool), s'. by rewrite H.
Qed.

Lemma view_pool s p pool : pools s !! p = Some pool → vpools (view_of s) !! p = Some (pool_core pool).
Proof. intros H. cbn. by rewrite lookup_fmap, H. Qed.

(** A pool object that agrees with the store leaves the view unchanged. *)
Lemma update_given_same pool accs s r s' :
  vpools (view_of s) !! Pool.Id pool = Some (pool_core pool) →
  updateGivenPoolUptimeAccumulatorsToNow pool accs s = Ok (r, s') →
  eqv s s' ∧ pool_core r.1 = pool_core pool.
Proof.
  intros Hp. destruct r as [pool' accs']. intros [H1 H2]%update_given_view. split; [|done].
  unfold eqv. rewrite put_pool_id in H2 by done. by destruct H2.
Qed.

Lemma update_with_pool_same pool s r s' :
  vpools (view_of s) !! Pool.Id pool = Some (pool_core pool) →
  updatePoolUptimeAccumulatorsToNowWithPool pool s = Ok (r, s') → eqv s s' ∧ pool_core r = pool_core pool.
Proof.
  intros Hp. unfold updatePoolUptimeAccumulatorsToNowWithPool. intros H. inv_st_step. inv_st_step.
  match goal with H : context [let '(_, _) := ?q in _] |- _ => destruct q as [p1 accs1] end.
  inv_st_step. subst. apply keeps_GetUptime in H.
  match goal with H : updateGivenPoolUptimeAccumulatorsToNow _ _ _ = _ |- _ =>
    apply update_given_same in H as [H0 Hc] end; [|by rewrite <- H].
  split; [by etransitivity|done].
Qed.

Lemma pool_in_view s p pool :
  ids_ok (view_of s) → pools s !! p = Some pool →
  Pool.Id pool = p ∧ vpools (view_of s) !! Pool.Id pool = Some (pool_core pool).
Proof.
  intros Hi Hp%view_pool. pose proof (Hi _ _ Hp) as Hid. cbn in Hid. by rewrite Hid.
Qed.

Lemma keeps_UpdatePool p : keeps same (UpdatePoolUptimeAccumulatorsToNow p).
Proof.
  intros s u s' H Hi. unfold UpdatePoolUptimeAccumulatorsToNow in H. inv_st_step. inv_st_step.
  inv_st_step. subst. apply getPoolById_Ok in H as [-> Hp]. apply pool_in_view in Hp as [Hid Hv]; [|done].
  match goal with H : updatePoolUptimeAccumulatorsToNowWithPool _ _ = _ |- _ =>
    by apply update_with_pool_same in H as [H _] end.
Qed.

Lemma keeps_makeInitialTickInfo p t : keeps same (makeInitialTickInfo p t).
Proof.
  intros s u s' H Hi. unfold makeInitialTickInfo in H. inv_st.
  apply getPoolById_Ok in H as [-> Hp]. apply pool_in_view in Hp as [Hid Hv]; [|done].
  repeat match goal with
  | H : getInitialUptimeGrowthOppositeDirectionOfLastTraversalForTick _ _ _ = _ |- _ =>
      apply keeps_initialUptime in H
  | H : getInitialSpreadRewardGrowthOppositeDirectionOfLastTraversalForTick _ _ _ = _ |- _ =>
      apply keeps_initialSpread in H
  | H : updatePoolUptimeAccumulatorsToNowWithPool _ _ = _ |- _ =>
      apply update_with_pool_same in H as [H _]; [|unfold eqv in *; congruence]
  end. unfold eqv in *; congruence.
Qed.
End rewards.

#[export] Hint Resolve keeps_getPoolById keeps_hasPosition keeps_GetPosition keeps_GetSpread
  keeps_GetUptime keeps_GetUptimeValues keeps_incentive_factor keeps_spread_factor keeps_setIncentiveRecord
  keeps_allRecords keeps_setMultiple keeps_emitToAccums keeps_initialUptime keeps_initialSpread
  keeps_UpdatePool keeps_makeInitialTickInfo : keeps.

Section claims.
  Context {D : sdk.LegacyDec} {C : coin.CoinOps} {A : addr.Addresses} {E : Env} {T : Block}.

(** *** Settling and claiming rewards *)

Lemma keeps_GetTickInfo p t : keeps same (GetTickInfo p t).
Proof. frame @GetTickInfo. Qed.
#[local] Hint Resolve keeps_GetTickInfo : keeps.
Lemma keeps_growthOutside p l u : keeps same (getSpreadRewardGrowthOutside p l u).
Proof. frame @getSpreadRewardGrowthOutside. Qed.
Lemma keeps_uptimeInside p l u : keeps same (GetUptimeGrowthInsideRange p l u).
Proof. frame @GetUptimeGrowthInsideRange. Qed.
#[local] Hint Resolve keeps_growthOutside keeps_uptimeInside : keeps.
Lemma keeps_uptimeOutside p l u : keeps same (GetUptimeGrowthOutsideRange p l u).
Proof. frame @GetUptimeGrowthOutsideRange. Qed.
#[local] Hint Resolve keeps_uptimeOutside : keeps.
Lemma keeps_spreadAccumulator p l u i d :
  keeps same (initOrUpdatePositionSpreadRewardAccumulator p l u i d).
Proof. frame @initOrUpdatePositionSpreadRewardAccumulator. Qed.
Lemma keeps_settleUptimes n l d accs i o : keeps eqv (settleUptimes n l d accs i o).
Proof. revert i o. induction accs as [|a accs IH]; intros i o; cbn [settleUptimes]; keeps_tac. Qed.
#[local] Hint Resolve keeps_settleUptimes : keeps.
Lemma keeps_uptimeAccumulators p l lo hi d i :
  keeps same (initOrUpdatePositionUptimeAccumulators p l lo hi d i).
Proof. frame @initOrUpdatePositionUptimeAccumulators. Qed.
Lemma keeps_prepareSpread i : keeps same (prepareClaimableSpreadRewards i).
Proof. frame @prepareClaimableSpreadRewards. Qed.
#[local] Hint Resolve keeps_prepareSpread : keeps.
Lemma keeps_collectSpreadRewards a i : keeps same (collectSpreadRewards a i).
Proof. frame @collectSpreadRewards. Qed.
Lemma keeps_claimUptimes n age f us accs o c fo : keeps eqv (claimUptimes n age f us accs o c fo).
Proof.
  revert us o c fo. induction accs as [|a accs IH]; intros [|u us] o c fo; cbn [claimUptimes]; keeps_tac.
Qed.
#[local] Hint Resolve keeps_claimUptimes : keeps.
Lemma keeps_prepareIncentives i : keeps same (prepareClaimAllIncentivesForPosition i).
Proof. frame @prepareClaimAllIncentivesForPosition. Qed.
#[local] Hint Resolve keeps_prepareIncentives : keeps.
Lemma keeps_collectIncentives a i : keeps same (collectIncentives a i).
Proof. frame @collectIncentives. Qed.
Lemma keeps_redeposit p a sc t : keeps same (redepositForfeitedIncentives p a sc t).
Proof. frame @redepositForfeitedIncentives. Qed.

(** *** Locks, totals and transfers *)

Lemma keeps_lockActive i : keeps eqv (PositionHasActiveUnderlyingLock i).
Proof. unfold PositionHasActiveUnderlyingLock, isLockMature. keeps_tac. Qed.
#[local] Hint Resolve keeps_lockActive : keeps.
Lemma keeps_lockUpdate i : keeps eqv (positionHasActiveUnderlyingLockAndUpdate i).
Proof. unfold positionHasActiveUnderlyingLockAndUpdate, RemovePositionIdForLockId. keeps_tac. Qed.
Lemma keeps_fullRange p l : keeps eqv (updateFullRangeLiquidityInPool p l).
Proof. frame @updateFullRangeLiquidityInPool. Qed.
Lemma keeps_totalIncrease c : keeps eqv (RecordTotalLiquidityIncrease c).
Proof. unfold RecordTotalLiquidityIncrease, GetDenomLiquidity, setDenomLiquidity. keeps_tac. Qed.
Lemma keeps_totalDecrease c : keeps eqv (RecordTotalLiquidityDecrease c).
Proof. unfold RecordTotalLiquidityDecrease, GetDenomLiquidity, setDenomLiquidity. keeps_tac. Qed.
Lemma keeps_createSpread p : keeps eqv (createSpreadRewardAccumulator p).
Proof. frame @createSpreadRewardAccumulator. Qed.
Lemma keeps_createUptime p : keeps eqv (createUptimeAccumulators p).
Proof. frame @createUptimeAccumulators. Qed.
Lemma keeps_HasAny p : keeps eqv (HasAnyPositionForPool p).
Proof. frame @HasAnyPositionForPool. Qed.
Lemma keeps_sendCoins d0 d1 a0 a1 x y : keeps eqv (sendCoinsBetweenPoolAndUser d0 d1 a0 a1 x y).
Proof. frame @sendCoinsBetweenPoolAndUser. Qed.
Lemma keeps_setPositionIdToLock i l : keeps eqv (setPositionIdToLock i l).
Proof. frame @setPositionIdToLock. Qed.
End claims.

#[export] Hint Resolve keeps_GetTickInfo keeps_growthOutside keeps_uptimeInside keeps_uptimeOutside
  keeps_spreadAccumulator keeps_settleUptimes keeps_uptimeAccumulators keeps_prepareSpread
  keeps_collectSpreadRewards keeps_claimUptimes keeps_prepareIncentives keeps_collectIncentives
  keeps_redeposit keeps_lockActive keeps_lockUpdate keeps_fullRange keeps_totalIncrease keeps_totalDecrease
  keeps_createSpread keeps_createUptime keeps_HasAny keeps_sendCoins
  keeps_setPositionIdToLock : keeps.

(** *** Contracts and listeners

    They belong to other code.  The invariant of the module needs that they do not change its pools,
    ticks and positions. *)
Class QuietHooks {D : sdk.LegacyDec} {E : Env} (H : Hooks) : Prop := {
  Sudo_quiet a x p m : keeps eqv (Sudo a x p m);
  AfterConcentratedPoolCreated_quiet a p : keeps eqv (AfterConcentratedPoolCreated a p);
  AfterInitialPoolPositionCreated_quiet a p : keeps eqv (AfterInitialPoolPositionCreated a p);
  AfterLastPoolPositionRemoved_quiet a p : keeps eqv (AfterLastPoolPositionRemoved a p);
  AfterConcentratedPoolSwap_quiet a p c d : keeps eqv (AfterConcentratedPoolSwap a p c d);
}.
#[export] Hint Resolve AfterConcentratedPoolCreated_quiet AfterInitialPoolPositionCreated_quiet
  AfterLastPoolPositionRemoved_quiet AfterConcentratedPoolSwap_quiet : keeps.

Section hooks.
  Context {D : sdk.LegacyDec} {C : coin.CoinOps} {A : addr.Addresses} {E : Env} {T : Block}.
  Context {H : Hooks} {Q : QuietHooks H}.

Lemma keeps_listener m p a : keeps eqv (callPoolActionListener m p a).
Proof using Q.
  intros s u s' Hr. unfold callPoolActionListener, recovered, recover in Hr.
  match type of Hr with (match ?m s with _ => _ end = _) =>
    assert (keeps eqv m) as Hk; [|destruct (m s) as [[]| |] eqn:Em; simplify_eq; by eapply Hk] end.
  unfold getPoolHookContract. keeps_tac. apply Sudo_quiet.
Qed.
End hooks.
#[export] Hint Resolve keeps_listener : keeps.
End CLView.
