(* ===== verification/CLInv.v ===== *)
(** The liquidity invariant of the concentrated-liquidity module, on views (CLView).

    Every tick's gross and net liquidity are the sums over the positions that end there; a pool's
    active liquidity is the sum over the positions whose range holds its tick; position ticks are valid
    multiples of the pool's spacing; and the pool's tick and square root price agree on every such
    multiple.  The steps on views are those of the operations. *)
From stdpp Require Import prelude strings list gmap.
From S2P Require Import Prelude.
From S2P Require Import GoBig.
From S2P Require Import SdkDec.
From S2P Require Import SdkCoins.
From S2P Require Import Decimal.
From S2P Require Import CLTick.
From S2P Require Import CLPool.
From S2P Require Import ZSums.
From S2P Require Import CLStore.
From S2P Require Import CLView.
Local Open Scope Z_scope.
Import CLConst CLTick CLStore CLView.

Module CLInv.
(** *** Sums over positions *)

Definition liq (q : Position) : Z := Dec.i (Liquidity q).
Definition old_liq (m : gmap Z Position) (k : Z) : Z := default 0 (liq <$> m !! k).
Definition b2z (b : bool) : Z := if b then 1 else 0.
(** How often a position ends at a tick, with signs, and whether its range holds a tick. *)
Definition gross_at (p t : Z) (q : Position) : Z :=
  b2z (PoolId q =? p) * (b2z (LowerTick q =? t) + b2z (UpperTick q =? t)).
Definition net_at (p t : Z) (q : Position) : Z :=
  b2z (PoolId q =? p) * (b2z (LowerTick q =? t) - b2z (UpperTick q =? t)).
Definition covers (p c : Z) (q : Position) : Z :=
  b2z (PoolId q =? p) * b2z ((LowerTick q <=? c) && (c <? UpperTick q)).

Definition pos_sum (f : Position → Z) (m : gmap Z Position) : Z := map_sum (λ _ q, f q * liq q) m.
Definition vtick (v : view) (p t : Z) : Z * Z := default (0, 0) (vticks v !! (p, t)).

(** *** Steps *)

Definition add_tick (p t dgross dnet : Z) (v : view) : view :=
  {| vpools := vpools v;
     vticks := <[(p, t) := ((vtick v p t).1 + dgross, (vtick v p t).2 + dnet)]> (vticks v);
     vpositions := vpositions v; vindex := vindex v; vnext := vnext v |}.
Definition remove_tick (p t : Z) (v : view) : view :=
  {| vpools := vpools v; vticks := delete (p, t) (vticks v);
     vpositions := vpositions v; vindex := vindex v; vnext := vnext v |}.
Definition put_position (q : Position) (v : view) : view :=
  {| vpools := vpools v; vticks := vticks v;
     vpositions := <[PositionId q := q]> (vpositions v);
     vindex := {[(PoolId q, PositionId q)]} ∪ vindex v; vnext := vnext v |}.
Definition remove_position (k p : Z) (v : view) : view :=
  {| vpools := vpools v; vticks := vticks v; vpositions := delete k (vpositions v);
     vindex := vindex v ∖ {[(p, k)]}; vnext := vnext v |}.

(** The position of an owner, written out. *)
Definition position_of {D : sdk.LegacyDec} {A : addr.Addresses} (k : Z) (owner : addr.AccAddress)
    (p lo hi joined l : Z) : Position :=
  {| PositionId := k; PAddress := addr.AddressString owner; PoolId := p; LowerTick := lo;
     UpperTick := hi; JoinTime := joined; Liquidity := Dec.mk l |}.

(** *** The effect of an operation on the positions

    [k] stands for an identifier, [d] for an amount of liquidity in units of 10^-18. *)
Definition with_liq (l : Z) (q : Position) : Position :=
  {| PositionId := PositionId q; PAddress := PAddress q; PoolId := PoolId q; LowerTick := LowerTick q;
     UpperTick := UpperTick q; JoinTime := JoinTime q; Liquidity := Dec.mk l |}.
Definition with_owner (o : string) (q : Position) : Position :=
  {| PositionId := PositionId q; PAddress := o; PoolId := PoolId q; LowerTick := LowerTick q;
     UpperTick := UpperTick q; JoinTime := JoinTime q; Liquidity := Liquidity q |}.

Definition same_book (v v' : view) : Prop := vpositions v' = vpositions v ∧ vnext v' = vnext v.
#[export] Instance same_book_preorder : PreOrder same_book.
Proof. split; [done|]. intros x y z [] []. split; congruence. Qed.

Section effects.
  Context {D : sdk.LegacyDec} {C : coin.CoinOps} {A : addr.Addresses} {E : Env}.

(** The next identifier gets [d] liquidity of a position of [owner]. *)
Definition opened (owner : addr.AccAddress) (d : Z) (v v' : view) : Prop :=
  let k := vnext v in
  let l := old_liq (vpositions v) k + d in
  k ≠ 0 ∧ d ≠ 0 ∧ 0 ≤ l ∧ vnext v' = wrap64 (k + 1) ∧
  ∃ p lo hi joined, lo < hi ∧ vpositions v' = <[k := position_of k owner p lo hi joined l]> (vpositions v).
(** [d] is taken out of a position of [owner]; without liquidity the position is gone. *)
Definition withdrawn (owner : addr.AccAddress) (k d : Z) (v v' : view) : Prop :=
  ∃ q, vpositions v !! k = Some q ∧ PAddress q = addr.AddressString owner ∧ 0 ≤ d ≤ liq q ∧
    vnext v' = vnext v ∧
    vpositions v' = if d =? liq q then delete k (vpositions v)
                    else <[k := with_liq (liq q - d) q]> (vpositions v).
(** The governance module may move any position. *)
Definition transferred (sender recipient : addr.AccAddress) (k : Z) (v v' : view) : Prop :=
  ∃ q, vpositions v !! k = Some q ∧
    (sender = GetModuleAccountAddress "gov" ∨ PAddress q = addr.AddressString sender) ∧
    vnext v' = vnext v ∧
    vpositions v' = <[k := with_owner (addr.AddressString recipient) q]> (vpositions v).
End effects.

(** *** Positions with the same pool and range *)

Definition same_range (q r : Position) : Prop :=
  PoolId q = PoolId r ∧ LowerTick q = LowerTick r ∧ UpperTick q = UpperTick r.
(** Weights that depend on the pool and range only. *)
Definition by_range (f : Position → Z) : Prop := ∀ q r, same_range q r → f q = f r.
Lemma by_range_gross p t : by_range (gross_at p t).
Proof. intros q r (E1 & E2 & E3). unfold gross_at. by rewrite E1, E2, E3. Qed.
Lemma by_range_net p t : by_range (net_at p t).
Proof. intros q r (E1 & E2 & E3). unfold net_at. by rewrite E1, E2, E3. Qed.
Lemma by_range_covers p t : by_range (covers p t).
Proof. intros q r (E1 & E2 & E3). unfold covers. by rewrite E1, E2, E3. Qed.

Lemma pos_sum_put f m q :
  by_range f → (∀ r, m !! PositionId q = Some r → same_range r q) →
  pos_sum f (<[PositionId q := q]> m) = pos_sum f m + f q * (liq q - old_liq m (PositionId q)).
Proof.
  intros Hf Hr. unfold pos_sum, old_liq. rewrite map_sum_insert_any.
  destruct (m !! PositionId q) as [r|] eqn:Er; cbn [fmap option_fmap option_map default].
  - rewrite (Hf r q) by by apply Hr. unfold id. lia.
  - lia.
Qed.

Lemma pos_sum_remove f m k : old_liq m k = 0 → pos_sum f (delete k m) = pos_sum f m.
Proof.
  unfold pos_sum, old_liq. rewrite map_sum_delete_any. destruct (m !! k) as [r|]; cbn; unfold id; [|lia].
  intros ->. lia.
Qed.

(** *** The invariant *)

(** The ticks a pool with this spacing can have positions on. *)
Definition valid_tick (sp t : Z) : Prop := t mod sp = 0 ∧ MinInitializedTick ≤ t ≤ MaxTick.

Section inv.
  Context {D : sdk.LegacyDec}.

(** The pool's tick is at or above a usable tick exactly when its price is. *)
Definition price_ok (sp c : Z) (price : BigDec.t) : Prop :=
  ∀ t r, valid_tick sp t → TickToSqrtPrice t = Ok r →
    (t ≤ c → BigDec.i r ≤ BigDec.i price) ∧ (c < t → BigDec.i price ≤ BigDec.i r).

Definition position_ok (v : view) (k : Z) (q : Position) : Prop :=
  PositionId q = k ∧ 0 ≤ liq q ∧ LowerTick q < UpperTick q ∧ (PoolId q, k) ∈ vindex v ∧
  ∃ pool, vpools v !! PoolId q = Some pool ∧ 0 < BigDec.i (Pool.CurrentSqrtPrice pool) ∧
    valid_tick (Pool.TickSpacing pool) (LowerTick q) ∧ valid_tick (Pool.TickSpacing pool) (UpperTick q).

Definition pool_ok (v : view) (p : Z) (pool : Pool.Pool) : Prop :=
  Pool.Id pool = p ∧ 0 < Pool.TickSpacing pool < 2 ^ 63 ∧
  Dec.i (Pool.CurrentTickLiquidity pool) = pos_sum (covers p (Pool.CurrentTick pool)) (vpositions v) ∧
  (0 < BigDec.i (Pool.CurrentSqrtPrice pool) ∨
   BigDec.i (Pool.CurrentSqrtPrice pool) = 0 ∧ Pool.CurrentTick pool = 0) ∧
  (0 < BigDec.i (Pool.CurrentSqrtPrice pool) →
   price_ok (Pool.TickSpacing pool) (Pool.CurrentTick pool) (Pool.CurrentSqrtPrice pool)).

Definition tick_ok (v : view) (p t : Z) : Prop :=
  vtick v p t = (pos_sum (gross_at p t) (vpositions v), pos_sum (net_at p t) (vpositions v)).

(** Stored ticks are usable ticks of a pool. *)
Definition stored_tick_ok (v : view) (p t : Z) : Prop :=
  ∃ pool, vpools v !! p = Some pool ∧ valid_tick (Pool.TickSpacing pool) t.

Record inv (v : view) : Prop := {
  inv_pools k pool : vpools v !! k = Some pool → pool_ok v k pool;
  inv_positions k q : vpositions v !! k = Some q → position_ok v k q;
  inv_ticks p t : tick_ok v p t;
  inv_stored p t : is_Some (vticks v !! (p, t)) → stored_tick_ok v p t
}.

Lemma inv_ids_ok v : inv v → ids_ok v.
Proof. intros Hv k p Hp. by apply (inv_pools v Hv). Qed.

(** *** Updating a position *)

(** What [UpdatePosition] does to the view: both ticks, the position, and the liquidity of the pool
    when the range holds its tick. *)
Definition update_view (p : Z) (q : Position) (d : Z) (pool : Pool.Pool) (v : view) : view :=
  put_pool pool (put_position q
    (add_tick p (UpperTick q) d (- d) (add_tick p (LowerTick q) d d v))).

Lemma vtick_add p t dg dn v p' t' :
  vtick (add_tick p t dg dn v) p' t' =
  if bool_decide ((p', t') = (p, t)) then ((vtick v p t).1 + dg, (vtick v p t).2 + dn)
  else vtick v p' t'.
Proof.
  unfold vtick at 1. cbn [vticks add_tick]. case_bool_decide as Hd.
  - injection Hd as -> ->. by rewrite lookup_insert_eq.
  - by rewrite lookup_insert_ne by congruence.
Qed.

Lemma inv_update v p q d pool pool' :
  inv v → vpools v !! p = Some pool → 0 < BigDec.i (Pool.CurrentSqrtPrice pool) →
  PoolId q = p → LowerTick q < UpperTick q →
  valid_tick (Pool.TickSpacing pool) (LowerTick q) → valid_tick (Pool.TickSpacing pool) (UpperTick q) →
  (∀ r, vpositions v !! PositionId q = Some r → same_range r q) →
  liq q = old_liq (vpositions v) (PositionId q) + d → 0 ≤ liq q →
  pool_core pool' = pool' →
  Pool.with_liquidity (Pool.CurrentTickLiquidity pool) pool' = pool →
  Dec.i (Pool.CurrentTickLiquidity pool') =
    Dec.i (Pool.CurrentTickLiquidity pool) + covers p (Pool.CurrentTick pool) q * d →
  inv (update_view p q d pool' v).
Proof.
  intros Hv Hp Hprice Hqp Hlu Hvl Hvu Hr Hd Hq Hcore Hwith Hl.
  pose proof (inv_pools v Hv p pool Hp) as (Hid & Hsp & Hact & Hpr0 & Hpr).
  assert (∀ f, by_range f → pos_sum f (<[PositionId q := q]> (vpositions v)) =
            pos_sum f (vpositions v) + f q * d) as Hsum.
  { intros f Hf. rewrite pos_sum_put by done. rewrite Hd. lia. }
  assert (vpools (update_view p q d pool' v) = <[p := pool']> (vpools v)) as Hpools.
  { cbn. rewrite Hcore. f_equal. rewrite <- Hid, <- Hwith. done. }
  assert (vpools (update_view p q d pool' v) !! p = Some pool') as Hp' by
    (by rewrite Hpools, lookup_insert_eq).
  assert (Pool.TickSpacing pool' = Pool.TickSpacing pool ∧ Pool.CurrentTick pool' = Pool.CurrentTick pool
    ∧ Pool.CurrentSqrtPrice pool' = Pool.CurrentSqrtPrice pool ∧ Pool.Id pool' = Pool.Id pool)
    as (Esp & Ect & Epr & Eid) by (rewrite <- Hwith; done).
  split.
  - intros k pl Hk. rewrite Hpools in Hk. unfold pool_ok. cbn [vpositions update_view put_pool put_position].
    rewrite Hsum by apply by_range_covers. destruct (Z.eq_dec k p) as [->|Hne].
    + rewrite lookup_insert_eq in Hk. injection Hk as <-. rewrite Esp, Ect, Epr, Eid.
      split; [done|]. split; [done|]. split; [lia|]. done.
    + rewrite lookup_insert_ne in Hk by done. destruct (inv_pools v Hv k pl Hk) as (E1 & E2 & E3 & E4).
      split; [done|]. split; [done|]. split; [|done]. unfold covers at 2.
      rewrite (proj2 (Z.eqb_neq _ _)) by lia. cbn [b2z]. lia.
  - intros k r Hk. cbn [vpositions update_view put_pool put_position] in Hk.
    unfold position_ok. cbn [vindex update_view put_pool put_position add_tick].
    assert (vpools (update_view p q d pool' v) = <[p := pool']> (vpools v)) as -> by done.
    destruct (Z.eq_dec k (PositionId q)) as [->|Hne].
    + rewrite lookup_insert_eq in Hk. injection Hk as <-.
      split; [done|]. split; [done|]. split; [done|]. split; [set_solver|].
      exists pool'. rewrite Hqp, lookup_insert_eq, Esp, Epr. done.
    + rewrite lookup_insert_ne in Hk by done.
      destruct (inv_positions v Hv k r Hk) as (E1 & E2 & E3 & E4 & pl & E5 & E6 & E7 & E8).
      split; [done|]. split; [done|]. split; [done|]. split; [set_solver|].
      destruct (Z.eq_dec (PoolId r) p) as [Ep|Hnp].
      * rewrite Ep in *. exists pool'. rewrite lookup_insert_eq, Esp, Epr. assert (pl = pool) as -> by congruence. done.
      * exists pl. by rewrite lookup_insert_ne.
  - intros p1 t1. unfold tick_ok. cbn [vpositions update_view put_pool put_position].
    rewrite (Hsum _ (by_range_gross _ _)), (Hsum _ (by_range_net _ _)).
    change (vtick (update_view p q d pool' v) p1 t1) with
      (vtick (add_tick p (UpperTick q) d (- d) (add_tick p (LowerTick q) d d v)) p1 t1).
    rewrite !vtick_add. pose proof (inv_ticks v Hv p1 t1) as Ht. unfold tick_ok in Ht.
    unfold gross_at at 2, net_at at 2. rewrite Hqp.
    destruct (bool_decide_reflect ((p1, t1) = (p, UpperTick q))) as [[= -> ->]|Hn1].
    + rewrite (bool_decide_eq_false_2 _) by (intros [=]; lia).
      rewrite Ht, Z.eqb_refl, (Z.eqb_refl (UpperTick q)), (proj2 (Z.eqb_neq (LowerTick q) _)) by lia.
      cbn [fst snd b2z]. f_equal; lia.
    + destruct (bool_decide_reflect ((p1, t1) = (p, LowerTick q))) as [[= -> ->]|Hn2].
      * rewrite Ht, Z.eqb_refl, (Z.eqb_refl (LowerTick q)), (proj2 (Z.eqb_neq (UpperTick q) _)) by lia.
        cbn [fst snd b2z]. f_equal; lia.
      * rewrite Ht. destruct (Z.eqb_spec p p1) as [->|]; [|cbn [b2z]; f_equal; lia].
        rewrite !(proj2 (Z.eqb_neq _ _)) by congruence. cbn [b2z]. f_equal; lia.
  - intros p1 t1 Hs. unfold stored_tick_ok.
    assert (vpools (update_view p q d pool' v) = <[p := pool']> (vpools v)) as -> by done.
    cbn [vticks update_view put_pool put_position add_tick] in Hs.
    assert ((p1 = p ∧ valid_tick (Pool.TickSpacing pool) t1) ∨ is_Some (vticks v !! (p1, t1))) as Hc.
    { rewrite !lookup_insert_is_Some in Hs. destruct Hs as [[= <- <-]|[_ [[= <- <-]|[_ Hs]]]];
        [by left|by left|by right]. }
    destruct Hc as [[-> Hvt]|Hs'].
    + exists pool'. by rewrite lookup_insert_eq, Esp.
    + destruct (inv_stored v Hv p1 t1 Hs') as (pl & Hpl & Hvt).
      destruct (Z.eq_dec p1 p) as [->|Hne].
      * exists pool'. rewrite lookup_insert_eq, Esp. split; [done|]. by assert (pl = pool) as -> by congruence.
      * exists pl. by rewrite lookup_insert_ne.
Qed.

(** *** The other steps *)

(** A new pool, or other values for the price, tick, liquidity and spacing of a pool; the usable ticks
    stay usable. *)
Lemma inv_put_pool_finer v pool' :
  inv v → pool_ok v (Pool.Id pool') pool' →
  (∀ pool t, vpools v !! Pool.Id pool' = Some pool → valid_tick (Pool.TickSpacing pool) t →
    valid_tick (Pool.TickSpacing pool') t) →
  (∀ k q, vpositions v !! k = Some q → PoolId q = Pool.Id pool' →
    0 < BigDec.i (Pool.CurrentSqrtPrice pool')) →
  inv (put_pool pool' v).
Proof.
  intros Hv Hok Hsp Hpos. set (p := Pool.Id pool') in *. split.
  - intros k pl. cbn [vpools put_pool]. intros Hk. destruct (Z.eq_dec k p) as [->|Hne].
    + rewrite lookup_insert_eq in Hk. by injection Hk as <-.
    + rewrite lookup_insert_ne in Hk by done. by apply (inv_pools v Hv).
  - intros k q Hk. destruct (inv_positions v Hv k q Hk) as (E1 & E2 & E3 & E4 & pl & E5 & E6 & E7 & E8).
    do 4 (split; [done|]). cbn [vpools put_pool]. destruct (Z.eq_dec (PoolId q) p) as [Ep|Hne].
    + rewrite Ep in *. exists (pool_core pool'). rewrite lookup_insert_eq.
      split; [done|]. change (Pool.TickSpacing (pool_core pool')) with (Pool.TickSpacing pool').
      split; [by eapply Hpos|]. split; by eapply Hsp.
    + exists pl. by rewrite lookup_insert_ne.
  - exact (inv_ticks v Hv).
  - intros p1 t1 Hs. destruct (inv_stored v Hv p1 t1 Hs) as (pl & Hpl & Hvt).
    unfold stored_tick_ok. cbn [vpools put_pool]. destruct (Z.eq_dec p1 p) as [->|Hne].
    + exists (pool_core pool'). rewrite lookup_insert_eq. split; [done|].
      change (Pool.TickSpacing (pool_core pool')) with (Pool.TickSpacing pool'). by eapply Hsp.
    + exists pl. by rewrite lookup_insert_ne.
Qed.
Lemma inv_put_pool v pool' :
  inv v → pool_ok v (Pool.Id pool') pool' →
  (∀ pool, vpools v !! Pool.Id pool' = Some pool → Pool.TickSpacing pool' = Pool.TickSpacing pool) →
  (∀ k q, vpositions v !! k = Some q → PoolId q = Pool.Id pool' →
    0 < BigDec.i (Pool.CurrentSqrtPrice pool')) →
  inv (put_pool pool' v).
Proof. intros Hv Hok Hsp Hpos. apply inv_put_pool_finer; [done..| |done]. intros pool t Hpool. by rewrite (Hsp pool). Qed.

Lemma pos_sum_none f m : (∀ k q, m !! k = Some q → f q * liq q = 0) → pos_sum f m = 0.
Proof.
  intros H. unfold pos_sum. rewrite (map_sum_ext _ (λ _ _, 0)) by done.
  unfold map_sum. induction (map_to_list m); cbn; lia.
Qed.

(** Without positions a pool's price and tick are free. *)
Lemma inv_put_empty v pool' :
  inv v → 0 < Pool.TickSpacing pool' < 2 ^ 63 → Dec.i (Pool.CurrentTickLiquidity pool') = 0 →
  (∀ pool, vpools v !! Pool.Id pool' = Some pool → Pool.TickSpacing pool' = Pool.TickSpacing pool) →
  (∀ k q, vpositions v !! k = Some q → PoolId q ≠ Pool.Id pool') →
  0 < BigDec.i (Pool.CurrentSqrtPrice pool') ∨
    BigDec.i (Pool.CurrentSqrtPrice pool') = 0 ∧ Pool.CurrentTick pool' = 0 →
  (0 < BigDec.i (Pool.CurrentSqrtPrice pool') →
    price_ok (Pool.TickSpacing pool') (Pool.CurrentTick pool') (Pool.CurrentSqrtPrice pool')) →
  inv (put_pool pool' v).
Proof.
  intros Hv Hsp Hl Hsame Hpos H0 Hpr. apply inv_put_pool; [done| |done|].
  - split; [done|]. split; [done|]. split; [|done]. rewrite Hl. symmetry. apply pos_sum_none.
    intros k q Hk. unfold covers. rewrite (proj2 (Z.eqb_neq _ _)) by by eapply Hpos. done.
  - intros k q Hk Hq. by destruct (Hpos k q).
Qed.

Lemma inv_advance v : inv v → inv (advance v).
Proof. intros [Hp Hq Ht Hs]. by split. Qed.

Lemma inv_remove_tick v p t : inv v → vtick v p t = (0, 0) → inv (remove_tick p t v).
Proof.
  intros Hv Ht. split; [exact (inv_pools v Hv)|exact (inv_positions v Hv)| |].
  - intros p1 t1. unfold tick_ok, vtick. cbn [vticks vpositions remove_tick].
    destruct (decide ((p1, t1) = (p, t))) as [[= -> ->]|Hne].
    + rewrite lookup_delete_eq. cbn. pose proof (inv_ticks v Hv p t) as H0. unfold tick_ok in H0. congruence.
    + rewrite lookup_delete_ne by congruence. apply (inv_ticks v Hv).
  - intros p1 t1 Hs. cbn [vticks remove_tick] in Hs. apply (inv_stored v Hv).
    destruct (decide ((p1, t1) = (p, t))) as [[= -> ->]|Hne].
    + rewrite lookup_delete_eq in Hs. by destruct Hs.
    + by rewrite lookup_delete_ne in Hs by congruence.
Qed.

Lemma inv_remove_position v k q :
  inv v → vpositions v !! k = Some q → liq q = 0 → inv (remove_position k (PoolId q) v).
Proof.
  intros Hv Hk Hq.
  assert (old_liq (vpositions v) k = 0) as Hold by (unfold old_liq; by rewrite Hk).
  split.
  - intros k1 pl Hk1. destruct (inv_pools v Hv k1 pl Hk1) as (E1 & E2 & E3 & E4).
    split; [done|]. split; [done|]. split; [|done]. cbn [vpositions remove_position].
    by rewrite pos_sum_remove.
  - intros k1 r Hk1. cbn [vpositions remove_position] in Hk1.
    apply lookup_delete_Some in Hk1 as [Hne Hk1].
    destruct (inv_positions v Hv k1 r Hk1) as (E1 & E2 & E3 & E4 & E5).
    do 3 (split; [done|]). split; [|done]. cbn [vindex remove_position]. set_solver.
  - intros p1 t1. unfold tick_ok. cbn [vpositions remove_position]. rewrite !pos_sum_remove by done.
    apply (inv_ticks v Hv).
  - exact (inv_stored v Hv).
Qed.

(** A position is written anew with the same liquidity and range, for instance to change its owner. *)
Lemma inv_rewrite_position v q r :
  inv v → vpositions v !! PositionId q = Some r → same_range r q → liq q = liq r →
  inv (put_position q (remove_position (PositionId q) (PoolId q) v)).
Proof.
  intros Hv Hr Hs Hl. pose proof Hs as (Es1 & Es2 & Es3).
  assert (vpositions (put_position q (remove_position (PositionId q) (PoolId q) v)) =
    <[PositionId q := q]> (vpositions v)) as Hm by (cbn; by rewrite insert_delete_eq).
  assert (∀ f, by_range f → pos_sum f (<[PositionId q := q]> (vpositions v)) =
            pos_sum f (vpositions v)) as Hsum.
  { intros f Hf. rewrite pos_sum_put; [unfold old_liq; rewrite Hr; cbn; unfold id; lia|done|].
    intros r'. rewrite Hr. by intros [= <-]. }
  split.
  - intros k pl Hk. destruct (inv_pools v Hv k pl Hk) as (E1 & E2 & E3 & E4).
    split; [done|]. split; [done|]. split; [|done]. by rewrite Hm, Hsum by apply by_range_covers.
  - intros k x Hk. rewrite Hm in Hk. destruct (Z.eq_dec k (PositionId q)) as [->|Hne].
    + rewrite lookup_insert_eq in Hk. injection Hk as <-.
      destruct (inv_positions v Hv _ r Hr) as (E1 & E2 & E3 & E4 & E5).
      rewrite Es1, Es2, Es3 in *. split; [done|]. split; [by rewrite Hl|]. split; [done|].
      split; [cbn; set_solver|done].
    + rewrite lookup_insert_ne in Hk by done.
      destruct (inv_positions v Hv k x Hk) as (E1 & E2 & E3 & E4 & E5).
      do 3 (split; [done|]). split; [cbn; set_solver|done].
  - intros p1 t1. unfold tick_ok. rewrite Hm, (Hsum _ (by_range_gross _ _)), (Hsum _ (by_range_net _ _)).
    apply (inv_ticks v Hv).
  - exact (inv_stored v Hv).
Qed.
End inv.
End CLInv.
