(* ===== verification/CLLpProps.v ===== *)
(** The operations on liquidity (CLTickStore, CLPosition, CLLp, CLPools) as steps on views, and the
    preservation of the liquidity invariant by each of them. *)
From stdpp Require Import prelude strings list gmap relations.
From S2P Require Import Prelude.
From S2P Require Import GoBig.
From S2P Require Import GoState.
From S2P Require Import SdkDec.
From S2P Require Import SdkCoins.
From S2P Require Import Decimal.
From S2P Require Import DecimalFacts.
From S2P Require Import CLMath.
From S2P Require Import CLTick.
From S2P Require Import CLTickProps.
From S2P Require Import CLKeys.
From S2P Require Import CLPool.
From S2P Require Import CLStore.
From S2P Require Import CLRewards.
From S2P Require Import CLTickStore.
From S2P Require Import CLClaims.
From S2P Require Import CLPosition.
From S2P Require Import CLLp.
From S2P Require Import CLPools.
From S2P Require Import CLView.
From S2P Require Import CLInv.
Local Open Scope Z_scope.
Import CLConst CLTick CLStore CLRewards CLTickStore CLClaims CLPosition CLLp CLView CLInv.

Module CLLpProps.
Section lp.
  Context {D : sdk.LegacyDec} {Ls : sdk.LegacyDecLaws D} {C : coin.CoinOps} {A : addr.Addresses}
    {E : Env} {T : Block} {H : Hooks} {Q : QuietHooks H}.

(** Uses the frame lemma of a computation on a run of it. *)
Lemma run_same {B} (m : M store B) s b s' :
  keeps same m → m s = Ok (b, s') → ids_ok (view_of s) → view_of s' = view_of s.
Proof using. intros Hk Hm Hi. symmetry. by apply (Hk s b s' Hm). Qed.
Lemma run_eqv {B} (m : M store B) s b s' : keeps eqv m → m s = Ok (b, s') → view_of s' = view_of s.
Proof using. intros Hk Hm. symmetry. by apply (Hk s b s' Hm). Qed.

(** *** Ticks *)

Lemma GetTickInfo_view p t s info s' :
  GetTickInfo p t s = Ok (info, s') → ids_ok (view_of s) →
  view_of s' = view_of s ∧ tick_core info = vtick (view_of s) p t.
Proof using.
  intros Hr Hi. split; [eapply run_same; [apply keeps_GetTickInfo|done..]|].
  unfold GetTickInfo in Hr. run_gets Hr.
  unfold vtick. cbn [view_of vticks]. rewrite lookup_fmap.
  destruct (ticks s !! (p, t)) as [ti|]; [by run_ret Hr|].
  unfold makeInitialTickInfo in Hr. run Hr as pool s1 H1. run Hr as g s2 H2. run Hr as pool' s3 H3.
  run Hr as u s4 H4. by run_ret Hr.
Qed.

Lemma initOrUpdateTick_view p t d upper s e s' :
  initOrUpdateTick p t d upper s = Ok (e, s') → ids_ok (view_of s) →
  let v := view_of s in
  let dn := if upper then - Dec.i d else Dec.i d in
  view_of s' = add_tick p t (Dec.i d) dn v ∧
  (e = true → vtick (view_of s') p t = (0, 0)).
Proof using Ls.
  intros Hr Hi. cbv zeta. unfold initOrUpdateTick in Hr. run Hr as ti s1 Hti.
  destruct (GetTickInfo_view _ _ _ _ _ Hti Hi) as [Hv Ht].
  run_lift Hr as g Hg. apply sdk.Add_spec in Hg. run_lift Hr as n Hn.
  run Hr as u s2 Hset. apply st_modify_Ok in Hset as ->. run_ret Hr.
  assert (tick_core (with_tick_liquidity g n ti) =
    ((vtick (view_of s) p t).1 + Dec.i d,
     (vtick (view_of s) p t).2 + (if upper then - Dec.i d else Dec.i d))) as Hcore.
  { rewrite <- Ht. unfold tick_core. cbn. f_equal; [done|].
    destruct upper; [apply sdk.Sub_spec in Hn|apply sdk.Add_spec in Hn]; lia. }
  split.
  - unfold add_tick. rewrite <- Hcore, <- Hv. unfold view_of. cbn. by rewrite fmap_insert.
  - rewrite !sdk.IsZero_spec. intros [H1%Z.eqb_eq H2%Z.eqb_eq]%andb_true_iff.
    unfold vtick. cbn. rewrite fmap_insert, lookup_insert_eq. unfold tick_core. cbn in *.
    unfold id. congruence.
Qed.

(** *** Positions *)

Lemma SetPosition_view p owner lo hi jt l k lock s u s' :
  SetPosition p owner lo hi jt l k lock s = Ok (u, s') →
  view_of s' = put_position {| PositionId := k; PAddress := addr.AddressString owner; PoolId := p;
    LowerTick := lo; UpperTick := hi; JoinTime := jt; Liquidity := l |} (view_of s).
Proof using.
  unfold SetPosition. intros Hr. run Hr as u1 s1 H1. apply st_modify_Ok in H1 as ->.
  run Hr as u2 s2 H2. apply st_modify_Ok in H2 as ->. run Hr as u3 s3 H3. apply st_modify_Ok in H3 as ->.
  eapply run_eqv in Hr; [rewrite Hr; done|]. keeps_tac.
Qed.

Lemma hasPosition_Ok k s b s' :
  hasPosition k s = Ok (b, s') → s = s' ∧ b = bool_decide (is_Some (positions s !! k)).
Proof using. unfold hasPosition. by intros [-> ->]%st_gets_Ok. Qed.

Lemma GetPosition_stored k s q s' : GetPosition k s = Ok (q, s') → s = s' ∧ positions s !! k = Some q.
Proof using.
  unfold GetPosition. intros Hr. run_gets Hr. destruct (positions s !! k); [by run_ret Hr|done].
Qed.

Lemma getOrInitPosition_Ok k s l s' :
  getOrInitPosition k s = Ok (l, s') → s = s' ∧ Dec.i l = old_liq (positions s) k.
Proof using.
  unfold getOrInitPosition, old_liq. intros Hr. run Hr as b s1 Hb. apply hasPosition_Ok in Hb as [<- ->].
  case_bool_decide as Hk.
  - unfold GetPositionLiquidity in Hr. run Hr as q s2 Hq. apply GetPosition_stored in Hq as [<- Hq].
    run_ret Hr. by rewrite Hq.
  - run_ret Hr. apply eq_None_not_Some in Hk. by rewrite Hk.
Qed.

Lemma initOrUpdatePosition_view p owner lo hi d jt k s u s' :
  initOrUpdatePosition p owner lo hi d jt k s = Ok (u, s') → ids_ok (view_of s) →
  let l := old_liq (positions s) k + Dec.i d in
  0 ≤ l ∧ view_of s' = put_position (position_of k owner p lo hi jt l) (view_of s).
Proof using Ls.
  unfold initOrUpdatePosition. intros Hr Hi. run Hr as l s1 H1.
  apply getOrInitPosition_Ok in H1 as [<- Hl]. run_lift Hr as l' Hl'. apply sdk.Add_spec in Hl'.
  run_require Hr as Hn. rewrite sdk.IsNegative_spec, negb_true_iff, Z.ltb_ge in Hn.
  run Hr as u2 s2 H2. eapply run_same in H2; [|apply keeps_uptimeAccumulators|done].
  apply SetPosition_view in Hr. rewrite H2 in Hr.
  cbv zeta. rewrite <- Hl, <- Hl'. split; [lia|]. rewrite Hr. by destruct l'.
Qed.

Lemma validatePositionUpdateById_Ok k owner lo hi d jt p s u s' :
  validatePositionUpdateById k owner lo hi d jt p s = Ok (u, s') →
  s = s' ∧ k ≠ 0 ∧ ∀ r, positions s !! k = Some r →
    PAddress r = addr.AddressString owner ∧ PoolId r = p ∧ LowerTick r = lo ∧ UpperTick r = hi.
Proof using.
  unfold validatePositionUpdateById. intros Hr. run_require Hr as Hk.
  rewrite negb_true_iff, Z.eqb_neq in Hk.
  run Hr as b s1 Hb. apply hasPosition_Ok in Hb as [<- ->]. case_bool_decide as Hs.
  - run Hr as q s2 Hq. apply GetPosition_stored in Hq as [<- Hq]. run_require Hr as H1. run_require Hr as H2.
    run_require Hr as H3. run_require Hr as H4. run_require Hr as H5. apply st_require_Ok in Hr as [H6 <-].
    split; [done|]. split; [done|]. intros r. rewrite Hq. intros [= <-].
    apply String.eqb_eq in H1. apply Z.eqb_eq in H2, H3, H6. done.
  - run_ret Hr. split; [done|]. split; [done|]. intros r Hrk. rewrite Hrk in Hs. by destruct Hs.
Qed.

(** *** UpdatePosition *)

Lemma UpdateLiquidity_Ok lo hi d pool b pool' :
  Pool.UpdateLiquidityIfActivePosition lo hi d pool = Ok (b, pool') →
  ∃ l, pool' = Pool.with_liquidity l pool ∧
    Dec.i l = Dec.i (Pool.CurrentTickLiquidity pool) +
      (if (lo <=? Pool.CurrentTick pool) && (Pool.CurrentTick pool <? hi) then Dec.i d else 0).
Proof using Ls.
  unfold Pool.UpdateLiquidityIfActivePosition, Pool.IsCurrentTickInRange.
  destruct (_ && _).
  - intros (l & Hl%sdk.Add_spec & [= <- <-])%bind_Ok. by exists l.
  - intros [= <- <-]. exists (Pool.CurrentTickLiquidity pool). split; [by destruct pool|lia].
Qed.

(** Where a position can be: a pool with a price and two of its usable ticks. *)
Definition placeable (v : view) (p lo hi : Z) : Prop :=
  lo < hi ∧ ∃ pool, vpools v !! p = Some pool ∧ 0 < BigDec.i (Pool.CurrentSqrtPrice pool) ∧
    valid_tick (Pool.TickSpacing pool) lo ∧ valid_tick (Pool.TickSpacing pool) hi.

Lemma UpdatePosition_inv p owner lo hi d jt k s r s' :
  UpdatePosition p owner lo hi d jt k s = Ok (r, s') →
  inv (view_of s) → placeable (view_of s) p lo hi →
  inv (view_of s') ∧
  (LowerTickIsEmpty r = true → vtick (view_of s') p lo = (0, 0)) ∧
  (UpperTickIsEmpty r = true → vtick (view_of s') p hi = (0, 0)) ∧
  let l := old_liq (positions s) k + Dec.i d in
  k ≠ 0 ∧ 0 ≤ l ∧ vnext (view_of s') = vnext (view_of s) ∧
  vpositions (view_of s') = <[k := position_of k owner p lo hi jt l]> (vpositions (view_of s)).
Proof using Ls.
  intros Hr Hv (Hlu & pool & Hp & Hprice & Hvl & Hvh). pose proof (inv_ids_ok _ Hv) as Hi.
  unfold UpdatePosition in Hr. run Hr as u0 s0 H0.
  apply validatePositionUpdateById_Ok in H0 as (<- & Hk & Hold).
  run Hr as e1 s1 H1. apply initOrUpdateTick_view in H1 as [V1 E1]; [|done].
  run Hr as e2 s2 H2. apply initOrUpdateTick_view in H2 as [V2 E2]; [|by rewrite V1].
  rewrite V1 in V2. run Hr as u3 s3 H3. apply initOrUpdatePosition_view in H3; [|by rewrite V2].
  destruct H3 as (Q6 & V3). rewrite V2 in V3.
  assert (positions s2 = positions s) as Hpos2 by exact (f_equal vpositions V2). rewrite Hpos2 in Q6, V3.
  set (q := position_of k owner p lo hi jt _) in V3.
  run Hr as pool3 s4 H4. apply getPoolById_Ok in H4 as [<- Hpool3].
  assert (pool_core pool3 = pool) as Hcore3.
  { apply view_pool in Hpool3. rewrite V3 in Hpool3. cbn in Hpool3. cbn in Hp. congruence. }
  run_lift Hr as amounts Ha. destruct amounts as [a0 a1]. run_lift Hr as upd Hu. destruct upd as [b pool4].
  apply UpdateLiquidity_Ok in Hu as (l & -> & Hl).
  run Hr as u5 s5 H5. apply setPool_Ok in H5. run Hr as u6 s6 H6.
  assert (inv (view_of s5)) as Hv5.
  { rewrite H5, V3. subst pool.
    replace (put_pool (Pool.with_liquidity l pool3) _) with
      (update_view p q (Dec.i d) (pool_core (Pool.with_liquidity l pool3)) (view_of s)).
    2:{ done. }
    apply (inv_update _ _ _ _ (pool_core pool3)); try done.
    - intros r0 Hr0. apply Hold in Hr0 as (_ & R1 & R2 & R3). by repeat split; cbn; congruence.
    - cbn. rewrite Hl. unfold covers. cbn [PoolId LowerTick UpperTick q position_of]. rewrite Z.eqb_refl. cbn [pool_core Pool.CurrentTick Pool.SetLastLiquidityUpdate].
      destruct (_ && _); cbn [b2z]; lia. }
  eapply run_same in H6; [|apply keeps_spreadAccumulator|by apply inv_ids_ok].
  run_lift Hr as x0 Hx0. run_lift Hr as x1 Hx1. run_ret Hr. rewrite H6. split; [done|].
  cbn [LowerTickIsEmpty UpperTickIsEmpty].
  assert (∀ t, vtick (view_of s5) p t = vtick (view_of s2) p t) as Ht.
  { intros t. rewrite H5, V3, V2. done. }
  split; [|split].
  - intros He. rewrite Ht, V2, vtick_add, bool_decide_eq_false_2 by (intros [=]; lia).
    specialize (E1 He). by rewrite V1 in E1.
  - intros He. rewrite Ht. by apply E2.
  - split; [done|]. split; [done|]. by rewrite H5, V3.
Qed.

(** *** Usable ticks and the initial price *)

Lemma validateTickRangeIsValid_Ok sp lo hi u :
  0 < sp < 2 ^ 63 → validateTickRangeIsValid sp lo hi = Ok u →
  lo < hi ∧ valid_tick sp lo ∧ valid_tick sp hi.
Proof using.
  intros Hsp Hr. unfold validateTickRangeIsValid in Hr.
  assert (∀ t, rem64 t sp = Ok (Z.rem t sp)) as Hrem.
  { intros t. unfold rem64, int64_of_uint64. rewrite (proj2 (Z.ltb_lt _ _)) by lia.
    by rewrite (proj2 (Z.eqb_neq _ _)) by lia. }
  rewrite !Hrem, bind_of_Ok in Hr. apply bind_Ok in Hr as (bad & Hbad & Hr).
  apply bind_Ok in Hr as (? & Hb%guard_err_Ok & Hr). rewrite negb_true_iff in Hb. subst bad.
  apply bind_Ok in Hr as (? & H1%guard_err_Ok & Hr). apply bind_Ok in Hr as (? & H2%guard_err_Ok & Hr).
  apply guard_err_Ok in Hr. rewrite negb_true_iff, orb_false_iff, Z.ltb_ge, Z.leb_gt in H1, H2.
  rewrite negb_true_iff, Z.leb_gt in Hr.
  destruct (Z.eqb_spec (Z.rem lo sp) 0) as [Hlo|]; cbn [negb] in Hbad; [|discriminate].
  rewrite bind_of_Ok in Hbad. injection Hbad as Hhi%negb_false_iff%Z.eqb_eq.
  split; [lia|]. unfold valid_tick. rewrite <- !Z.rem_mod_eq_0 by lia. lia.
Qed.

Lemma roundTick_Ok lo hi a b sp lo' hi' :
  0 < sp < 2 ^ 63 → lo < hi → valid_tick sp lo → valid_tick sp hi →
  roundTickToCanonicalPriceTick lo hi a b sp = Ok (lo', hi') →
  lo' < hi' ∧ valid_tick sp lo' ∧ valid_tick sp hi'.
Proof using.
  intros Hsp Hlt Hl Hh Hr. unfold roundTickToCanonicalPriceTick in Hr.
  apply bind_Ok in Hr as (l & _ & Hr). apply bind_Ok in Hr as (h & _ & Hr).
  apply bind_Ok in Hr as (u & Hv & [= <- <-]).
  destruct (Z.eqb_spec lo l) as [<-|]; [destruct (Z.eqb_spec hi h) as [<-|]|]; cbn in Hv; try done;
    by apply validateTickRangeIsValid_Ok in Hv.
Qed.

(** The bucket of a price and the multiple of the spacing below it. *)
Lemma valid_in_range sp t : valid_tick sp t → CLTickProps.tick_in_range t.
Proof using.
  unfold valid_tick, CLTickProps.tick_in_range, MinInitializedTick, MinInitializedTickV2. lia.
Qed.

Lemma sqrt_price_mono_le t u r r' :
  CLTickProps.tick_in_range t → CLTickProps.tick_in_range u → t ≤ u →
  TickToSqrtPrice t = Ok r → TickToSqrtPrice u = Ok r' → BigDec.i r ≤ BigDec.i r'.
Proof using Ls.
  intros Ht Hu Hle Hr Hr'. destruct r as [r], r' as [r']. cbn [BigDec.i].
  destruct (Z.eq_dec t u) as [<-|]; [assert (r = r') by congruence; lia|].
  pose proof (CLTickProps.sqrt_price_mono t u r r' Ht Hu ltac:(lia) Hr Hr'). lia.
Qed.

Lemma bucket_price_ok s t :
  CalculateSqrtPriceToTick s = Ok t →
  0 < BigDec.i s ∧ CLTickProps.tick_in_range t ∧
  ∀ u r, CLTickProps.tick_in_range u → TickToSqrtPrice u = Ok r →
    (u ≤ t → BigDec.i r ≤ BigDec.i s) ∧ (t < u → BigDec.i s < BigDec.i r).
Proof using Ls.
  intros (Hr & lo & Hlo & Hle & Hup)%CLTickProps.CalculateSqrtPriceToTick_bucket.
  assert (CLTickProps.tick_in_range t) as Ht by
    (unfold CLTickProps.tick_in_range, MinCurrentTick, MinInitializedTick, MinInitializedTickV2 in *; lia).
  split; [|split; [done|]].
  - destruct lo as [lo]. destruct (CLTickProps.sqrt_price_ge t lo Ht Hlo) as [H0 Hsq].
    pose proof (CLTickProps.price_bounds t Ht). cbn [BigDec.i] in Hle.
    assert (lo ≠ 0); [|lia]. intros ->.
    assert (0 < CLTickProps.price t * BigDecFacts.P) by (apply Z.mul_pos_pos; [lia|zconst]). lia.
  - intros u r Hu Hur. split.
    + intros Hut. pose proof (sqrt_price_mono_le u t r lo Hu Ht Hut Hur Hlo). lia.
    + intros Htu. destruct Hup as [[-> _]|(hi & Hhi & Hlt)].
      { unfold CLTickProps.tick_in_range in Hu. lia. }
      assert (CLTickProps.tick_in_range (t + 1)) as Ht1 by (unfold CLTickProps.tick_in_range in *; lia).
      pose proof (sqrt_price_mono_le (t + 1) u hi r Ht1 Hu ltac:(lia) Hhi Hur). lia.
Qed.

Lemma rounded_price_ok sp s c :
  0 < sp < 2 ^ 63 → SqrtPriceToTickRoundDownSpacing s sp = Ok c → 0 < BigDec.i s ∧ price_ok sp c s.
Proof using Ls.
  intros Hsp Hr. unfold SqrtPriceToTickRoundDownSpacing in Hr. apply bind_Ok in Hr as (t & Ht & Hr).
  apply bucket_price_ok in Ht as (Hs & Ht & Hb). split; [done|].
  unfold int64_of_uint64 in Hr. rewrite (proj2 (Z.ltb_lt _ _)) in Hr by lia.
  destruct (CLTickProps.RoundDownTickToSpacing_eq t sp ltac:(lia)) as [Heq Hm]. rewrite Heq in Hr.
  destruct (_ && _); [|discriminate]. injection Hr as <-.
  intros u r Hu Hur. destruct (Hb u r (valid_in_range sp u Hu) Hur) as [H1 H2]. split.
  - intros. apply H1. lia.
  - intros Hlt. enough (t < u) by (specialize (H2 ltac:(done)); lia).
    destruct Hu as [Hu _]. pose proof (Z.div_mod u sp ltac:(lia)).
    assert (t / sp < u / sp) by nia. nia.
Qed.

Lemma initializeInitialPosition_view pool a0 a1 s pool' s' :
  0 < Pool.TickSpacing pool < 2 ^ 63 →
  initializeInitialPositionForPool pool a0 a1 s = Ok (pool', s') →
  ∃ price c, pool' = Pool.SetCurrentTick c (Pool.SetCurrentSqrtPrice price pool) ∧
    0 < BigDec.i price ∧ price_ok (Pool.TickSpacing pool) c price ∧
    view_of s' = put_pool pool' (view_of s).
Proof using Ls.
  intros Hsp Hr. unfold initializeInitialPositionForPool in Hr. run_require Hr as H1.
  run_lift Hr as spot Hspot. run_lift Hr as root Hroot. run_lift Hr as price Hprice.
  run_lift Hr as c Hc. apply rounded_price_ok in Hc as [Hp Hok]; [|done].
  run Hr as u s1 Hset. apply setPool_Ok in Hset. run_ret Hr. by exists price, c.
Qed.

(** *** Creating a position *)

Lemma pool_has_position p pool s :
  inv (view_of s) → pools s !! p = Some pool →
  pool_ok (view_of s) p (pool_core pool) ∧
  (PoolHasPosition pool = true → 0 < BigDec.i (Pool.CurrentSqrtPrice pool)) ∧
  (PoolHasPosition pool = false →
    Dec.i (Pool.CurrentTickLiquidity pool) = 0 ∧
    ∀ k q, vpositions (view_of s) !! k = Some q → PoolId q ≠ p).
Proof using.
  intros Hv Hp%view_pool. pose proof (inv_pools _ Hv p _ Hp) as Hok. split; [done|].
  destruct Hok as (Hid & Hsp & Hl & Hpr & Hok). unfold PoolHasPosition, BigDec.IsZero, big.Sign.
  change (Pool.CurrentSqrtPrice (pool_core pool)) with (Pool.CurrentSqrtPrice pool) in *.
  change (Pool.CurrentTick (pool_core pool)) with (Pool.CurrentTick pool) in *.
  change (Pool.CurrentTickLiquidity (pool_core pool)) with (Pool.CurrentTickLiquidity pool) in *.
  destruct Hpr as [Hpr|[Hpr Ht]].
  - split; [done|]. rewrite (proj2 (Z.eqb_neq _ _)) by lia. done.
  - rewrite Hpr, Ht. split; [done|]. intros _.
    assert (∀ k q, positions s !! k = Some q → PoolId q ≠ p) as Hnone.
    { intros k q Hk <-. destruct (inv_positions _ Hv k q Hk) as (_ & _ & _ & _ & pl & E1 & E2 & _).
      assert (pl = pool_core pool) as -> by congruence. cbn in E2. lia. }
    split; [|done]. rewrite Hl. apply pos_sum_none. intros k q Hk. unfold covers.
    rewrite (proj2 (Z.eqb_neq _ _)) by by eapply Hnone. done.
Qed.

Lemma inv_initialized s p pool price c :
  inv (view_of s) → pools s !! p = Some pool → PoolHasPosition pool = false →
  0 < BigDec.i price → price_ok (Pool.TickSpacing pool) c price →
  inv (put_pool (Pool.SetCurrentTick c (Pool.SetCurrentSqrtPrice price pool)) (view_of s)).
Proof using.
  intros Hv Hp Hh H0 Hok. destruct (pool_has_position p pool s Hv Hp) as ((Hid & Hsp & _) & _ & Hn).
  destruct (Hn Hh) as [Hl Hnone]. cbn in Hid, Hsp. apply inv_put_empty; try done.
  - intros pl. cbn [Pool.Id Pool.SetCurrentTick Pool.SetCurrentSqrtPrice]. rewrite Hid.
    apply view_pool in Hp. rewrite Hp. by intros [= <-].
  - cbn. by rewrite Hid.
  - by left.
Qed.

(** The pool the position goes to, initialized when it had none. *)
Lemma ensure_initialized s p pool a0 a1 pool' s' :
  inv (view_of s) → vpools (view_of s) !! p = Some (pool_core pool) →
  (if negb (PoolHasPosition pool) then initializeInitialPositionForPool pool a0 a1 else mret pool) s =
    Ok (pool', s') →
  inv (view_of s') ∧ same_book (view_of s) (view_of s') ∧ ∃ pl, vpools (view_of s') !! p = Some pl ∧
    0 < BigDec.i (Pool.CurrentSqrtPrice pl) ∧ Pool.TickSpacing pl = Pool.TickSpacing pool.
Proof using Ls.
  intros Hv Hp Hr.
  assert (∃ pool1, pools s !! p = Some pool1 ∧ pool_core pool1 = pool_core pool) as (pool1 & Hp1 & Hc).
  { cbn in Hp. rewrite lookup_fmap in Hp. destruct (pools s !! p) as [pl|]; [|done].
    exists pl. split; [done|]. by apply (inj Some) in Hp. }
  assert (PoolHasPosition pool1 = PoolHasPosition pool) as Hh.
  { unfold PoolHasPosition. apply (f_equal Pool.CurrentSqrtPrice) in Hc as H1.
    apply (f_equal Pool.CurrentTick) in Hc as H2. cbn in H1, H2. by rewrite H1, H2. }
  destruct (pool_has_position p pool1 s Hv Hp1) as ((Hid & Hsp & _) & Hyes & _).
  assert (Pool.TickSpacing pool1 = Pool.TickSpacing pool) as Esp by exact (f_equal Pool.TickSpacing Hc).
  cbn in Hid, Hsp. rewrite Hh in Hyes. destruct (PoolHasPosition pool) eqn:Eh; cbn [negb] in Hr.
  - run_ret Hr. split; [done|]. split; [done|]. exists (pool_core pool1). rewrite Hc. split; [by rewrite Hp|].
    rewrite <- Hc. split; [by apply Hyes|done].
  - apply initializeInitialPosition_view in Hr as (price & c & -> & H0 & Hok & Hv'); [|by rewrite <- Esp].
    rewrite Hv'. rewrite <- Esp in Hok.
    replace (put_pool _ (view_of s)) with
      (put_pool (Pool.SetCurrentTick c (Pool.SetCurrentSqrtPrice price pool1)) (view_of s)).
    2:{ unfold put_pool. apply (f_equal Pool.Id) in Hc as Hids. cbn in Hids. cbn. rewrite Hids. f_equal.
        f_equal. unfold pool_core in *. destruct pool, pool1. cbn in *. by simplify_eq. }
    split; [apply (inv_initialized s p); [done..|by rewrite Hh|done|done]|]. split; [done|].
    eexists. cbn [vpools put_pool Pool.Id Pool.SetCurrentTick Pool.SetCurrentSqrtPrice].
    rewrite Hid, lookup_insert_eq. split; [done|]. split; [done|exact Esp].
Qed.

Lemma CreatePosition_inv p owner toks m0 m1 lo hi s r s' :
  CreatePosition p owner toks m0 m1 lo hi s = Ok (r, s') → inv (view_of s) →
  inv (view_of s') ∧ opened owner (Dec.i (CLiquidity r)) (view_of s) (view_of s').
Proof using Ls Q.
  intros Hr Hv. unfold CreatePosition in Hr. run Hr as pool s0 Hpool.
  apply getPoolById_Ok in Hpool as [<- Hpool].
  destruct (pool_has_position p pool s Hv Hpool) as ((Hid & Hsp & _) & _). cbn in Hid, Hsp.
  run_require Hr as Hden. run_lift Hr as u Hrange. run_lift Hr as a0 Ha0. run_lift Hr as a1 Ha1.
  run_require Hr as Hz. run_require Hr as Hm0. run_require Hr as Hm1. run_lift Hr as prices Hprices.
  destruct prices as [pl pu]. run_lift Hr as rounded Hround. destruct rounded as [lo' hi'].
  apply validateTickRangeIsValid_Ok in Hrange as (Hlt & Hvl & Hvh); [|done].
  apply roundTick_Ok in Hround as (Hlt' & Hvl' & Hvh'); [|done..].
  run Hr as u1 s1 H1. eapply run_eqv in H1; [|apply keeps_listener].
  run Hr as k s2 H2. apply nextPosition_Ok in H2 as [-> H2]. rewrite H1 in H2.
  run Hr as pool' s3 H3. apply (ensure_initialized s2 p) in H3 as (Hv3 & [Hb3 Hn3] & pl3 & Hp3 & H0 & Esp);
    [|rewrite H2; by apply inv_advance|rewrite H2; by apply view_pool].
  run_lift Hr as l Hl. run_require Hr as Hnz. rewrite sdk.IsZero_spec, negb_true_iff, Z.eqb_neq in Hnz.
  run Hr as data s4 H4.
  apply UpdatePosition_inv in H4 as (Hv4 & _ & _ & Hk & Hl0 & Hn4 & Hb4); [|done|].
  2:{ split; [done|]. exists pl3. by rewrite Esp. }
  run_require Hr as A1. run_require Hr as A2. run_lift Hr as address Ha. run Hr as u5 s5 H5.
  eapply run_eqv in H5; [|by keeps_tac]. run Hr as u6 s6 H6. eapply run_eqv in H6; [|by keeps_tac].
  run_lift Hr as t0 Ht0. run_lift Hr as t1 Ht1. run Hr as u7 s7 H7. eapply run_eqv in H7; [|by keeps_tac].
  run Hr as u8 s8 H8. eapply run_eqv in H8; [|by keeps_tac]. run_ret Hr.
  assert (view_of s8 = view_of s4) as -> by congruence. split; [done|].
  rewrite H2 in Hb3, Hn3. assert (positions s3 = positions s) as Hs3 by exact Hb3.
  assert (nextPositionId s1 = nextPositionId s) as Hs2 by exact (f_equal vnext H1).
  rewrite Hs3, Hs2 in *. split; [done|]. split; [done|]. split; [done|].
  split; [by rewrite Hn4, Hn3|]. exists p, lo', hi', (BlockTime). split; [done|]. rewrite Hb4, Hb3. done.
Qed.

(** *** Withdrawing *)

Lemma deletePosition_view k owner p s u s' :
  deletePosition k owner p s = Ok (u, s') → view_of s' = remove_position k p (view_of s).
Proof using.
  unfold deletePosition. intros Hr. run Hr as b s1 Hb. apply hasPosition_Ok in Hb as [<- ->].
  run_require Hr as H1. run Hr as u1 s1 H2. apply st_modify_Ok in H2 as ->.
  run_gets Hr. run_require Hr as H3. run Hr as u2 s2 H4. apply st_modify_Ok in H4 as ->.
  run_gets Hr. run_require Hr as H5. run Hr as u3 s3 H6. apply st_modify_Ok in H6 as ->.
  run_gets Hr. eapply run_eqv in Hr; [rewrite Hr; done|]. keeps_tac.
Qed.

Lemma HasAny_false p s s' :
  HasAnyPositionForPool p s = Ok (false, s') → s = s' ∧ ∀ k, (p, k) ∉ poolPosition s.
Proof using.
  unfold HasAnyPositionForPool. intros [Hb ->]%st_gets_Ok. split; [done|]. intros k Hk.
  symmetry in Hb. apply bool_decide_eq_false in Hb. apply Hb.
  intros Hf. apply (not_elem_of_empty (C:=gset (Z * Z)) (p, k)). rewrite <- Hf. by apply elem_of_filter.
Qed.

Lemma uninitializePool_inv p s u s' :
  uninitializePool p s = Ok (u, s') → inv (view_of s) →
  inv (view_of s') ∧ vticks (view_of s') = vticks (view_of s) ∧ same_book (view_of s) (view_of s').
Proof using.
  unfold uninitializePool. intros Hr Hv. run Hr as pool s1 H1. apply getPoolById_Ok in H1 as [<- Hp].
  run Hr as b s1 H2. destruct b; [by run_require Hr as Hb|].
  apply HasAny_false in H2 as [<- Hnone]. run_require Hr as Hb. apply setPool_Ok in Hr. rewrite Hr.
  split; [|done]. apply view_pool in Hp. destruct (inv_pools _ Hv p _ Hp) as (Hid & Hsp & Hl & _).
  cbn in Hid, Hsp.
  assert (∀ k q, positions s !! k = Some q → PoolId q ≠ p) as Hno.
  { intros k q Hk <-. destruct (inv_positions _ Hv k q Hk) as (_ & _ & _ & Hin & _).
    by eapply Hnone. }
  apply inv_put_empty; cbn [Pool.Id Pool.SetCurrentTick Pool.SetCurrentSqrtPrice Pool.CurrentTickLiquidity
    Pool.TickSpacing Pool.CurrentTick Pool.CurrentSqrtPrice]; try done.
  - change (Pool.CurrentTickLiquidity pool) with (Pool.CurrentTickLiquidity (pool_core pool)).
    rewrite Hl. apply pos_sum_none. intros k q Hk. unfold covers.
    rewrite (proj2 (Z.eqb_neq _ _)) by by eapply Hno. done.
  - intros pl. rewrite Hid, Hp. by intros [= <-].
  - rewrite Hid. exact Hno.
  - by right.
Qed.

Lemma removeWithdrawnPosition_inv owner k p p' s u s' q :
  removeWithdrawnPosition owner k p p' s = Ok (u, s') → inv (view_of s) →
  positions s !! k = Some q → PoolId q = p → liq q = 0 →
  inv (view_of s') ∧ vticks (view_of s') = vticks (view_of s) ∧
  vpositions (view_of s') = delete k (positions s) ∧ vnext (view_of s') = nextPositionId s.
Proof using Q.
  unfold removeWithdrawnPosition. intros Hr Hv Hk <- Hq. run Hr as c s1 H1.
  eapply run_same in H1; [|apply keeps_collectSpreadRewards|by apply inv_ids_ok].
  run Hr as u2 s2 H2. apply deletePosition_view in H2. rewrite H1 in H2.
  assert (inv (view_of s2)) as Hv2 by (rewrite H2; by apply inv_remove_position).
  run Hr as b s3 H3. eapply run_eqv in H3 as H3'; [|apply keeps_HasAny].
  destruct b; cbn [negb] in Hr.
  - run_ret Hr. rewrite H3'. split; [done|by rewrite H2].
  - run Hr as u4 s4 H4. apply uninitializePool_inv in H4 as (Hv4 & Ht4 & Hb4 & Hn4); [|by rewrite H3'].
    eapply run_eqv in Hr; [|apply AfterLastPoolPositionRemoved_quiet]. rewrite Hr. split; [done|].
    split; [by rewrite Ht4, H3', H2|]. by rewrite Hb4, Hn4, H3', H2.
Qed.

Lemma RemoveTickInfo_view p t s u s' :
  RemoveTickInfo p t s = Ok (u, s') → view_of s' = remove_tick p t (view_of s).
Proof using.
  unfold RemoveTickInfo. intros ->%st_modify_Ok. unfold view_of, remove_tick. cbn.
  by rewrite fmap_delete.
Qed.

(** Removing a tick when it is flagged empty. *)
Lemma remove_if_empty (b : bool) p t s u s' :
  (if b then RemoveTickInfo p t else mret tt) s = Ok (u, s') → inv (view_of s) →
  (b = true → vtick (view_of s) p t = (0, 0)) →
  inv (view_of s') ∧ same_book (view_of s) (view_of s') ∧
  ∀ t', vtick (view_of s) p t' = (0, 0) → vtick (view_of s') p t' = (0, 0).
Proof using.
  intros Hr Hv Hb. destruct b; [|by run_ret Hr].
  apply RemoveTickInfo_view in Hr. rewrite Hr. split; [apply inv_remove_tick; by try apply Hb|].
  split; [done|].
  intros t' Ht'. unfold vtick. cbn [vticks remove_tick]. destruct (decide (t' = t)) as [->|Hne].
  - by rewrite lookup_delete_eq.
  - rewrite lookup_delete_ne by congruence. exact Ht'.
Qed.

Lemma position_of_stored k owner q l :
  PositionId q = k → addr.AddressString owner = PAddress q →
  position_of k owner (PoolId q) (LowerTick q) (UpperTick q) (JoinTime q) l = with_liq l q.
Proof using. intros <- E1. unfold position_of. by rewrite E1. Qed.

Lemma old_liq_stored m k q : m !! k = Some q → old_liq m k = liq q.
Proof using. unfold old_liq. by intros ->. Qed.

Lemma withdrawn_same owner k d v v1 v2 :
  withdrawn owner k d v v1 → same_book v1 v2 → withdrawn owner k d v v2.
Proof using. intros (q & H1 & H2 & H3 & H4 & H5) [E1 E2]. exists q. by rewrite E1, E2. Qed.

Lemma WithdrawPosition_inv owner k amount s r s' :
  WithdrawPosition owner k amount s = Ok (r, s') → inv (view_of s) →
  inv (view_of s') ∧ withdrawn owner k (Dec.i amount) (view_of s) (view_of s').
Proof using Ls Q.
  unfold WithdrawPosition. intros Hr Hv. run Hr as q s0 Hq. apply GetPosition_stored in Hq as [<- Hq].
  pose proof (inv_positions _ Hv k q Hq) as (Hid & Hliq & Hlt & _ & pl & Hpl).
  run_require Hr as Ho. run_require Hr as Hn. run Hr as lock s1 H1.
  eapply run_eqv in H1; [|apply keeps_lockUpdate]. destruct lock as [active lockId].
  run_require Hr as Hlock. run Hr as pool s2 H2. apply getPoolById_Ok in H2 as [<- Hpool].
  run_require Hr as Hle. run Hr as u3 s3 H3. eapply run_eqv in H3; [|apply keeps_listener].
  run Hr as inc s4 H4. rewrite H1 in H3.
  eapply run_same in H4; [|apply keeps_collectIncentives|rewrite H3; by apply inv_ids_ok].
  rewrite H3 in H4. destruct inc as [[collected forfeited] scaled].
  run Hr as data s5 H5.
  assert (positions s4 = positions s) as Hpos by exact (f_equal vpositions H4).
  apply UpdatePosition_inv in H5 as (Hv5 & El & Eu & _ & Hl5 & Hn5 & Hb5);
    [|by rewrite H4|rewrite H4; split; [done|by exists pl]].
  apply String.eqb_eq in Ho. rewrite sdk.IsNegative_spec, negb_true_iff, Z.ltb_ge in Hn.
  rewrite sdk.Neg_spec, Hpos in *. rewrite (old_liq_stored _ k q Hq) in *.
  rewrite (position_of_stored k owner q), H4 in Hb5 by done. set (q5 := with_liq _ q) in Hb5.
  run_lift Hr as address Ha. run Hr as u6 s6 H6. eapply run_eqv in H6; [|apply keeps_sendCoins].
  run Hr as u7 s7 H7. eapply run_same in H7; [|apply keeps_redeposit|rewrite H6; by apply inv_ids_ok].
  rewrite H6 in H7. run Hr as u8 s8 H8.
  assert (inv (view_of s8) ∧ vticks (view_of s8) = vticks (view_of s5) ∧
    withdrawn owner k (Dec.i amount) (view_of s) (view_of s8)) as (Hv8 & Ht8 & Hw8).
  { rewrite <- H7 in Hv5, Hb5, Hn5 |- *. rewrite H4 in Hn5. unfold withdrawn.
    rewrite sdk.Equal_spec in H8. destruct (Z.eqb_spec (Dec.i amount) (liq q)) as [Ee|Ee].
    - rewrite (proj2 (Z.eqb_eq _ _)) in H8 by exact Ee.
      apply (removeWithdrawnPosition_inv _ _ _ _ _ _ _ q5) in H8 as (Hv8 & Ht8 & Hb8 & Hn8); [|done|..].
      + do 2 (split; [done|]). exists q. rewrite (proj2 (Z.eqb_eq _ _) Ee), Hb8, Hn8.
        change (positions s7) with (vpositions (view_of s7)). rewrite Hb5, delete_insert_eq.
        split; [exact Hq|]. split; [done|]. split; [lia|]. by split.
      + change (positions s7) with (vpositions (view_of s7)). by rewrite Hb5, lookup_insert_eq.
      + done.
      + change (liq q + - Dec.i amount = 0). lia.
    - rewrite (proj2 (Z.eqb_neq _ _)) in H8 by exact Ee. run_ret H8. do 2 (split; [done|]).
      exists q. rewrite (proj2 (Z.eqb_neq _ _) Ee), Hb5. split; [exact Hq|]. split; [done|]. split; [lia|].
      split; [done|]. unfold q5. by rewrite Z.add_opp_r. }
  assert (∀ t, vtick (view_of s8) (PoolId q) t = vtick (view_of s5) (PoolId q) t) as Ht
    by (intros t; unfold vtick; by rewrite Ht8).
  run Hr as u9 s9 H9. apply remove_if_empty in H9 as (Hv9 & Hb9 & Hz9); [|done|by rewrite Ht].
  run Hr as u10 s10 H10. apply remove_if_empty in H10 as (Hv10 & Hb10 & _); [|done|].
  2:{ intros Hb. apply Hz9. rewrite Ht. by apply Eu. }
  eapply run_eqv in Hr; [rewrite Hr; split; [done|]|by keeps_tac].
  eapply withdrawn_same; [exact Hw8|]. by etransitivity.
Qed.

(** *** The other operations on positions *)

Lemma addToPosition_inv owner k a0 a1 m0 m1 s r s' :
  addToPosition owner k a0 a1 m0 m1 s = Ok (r, s') → inv (view_of s) →
  inv (view_of s') ∧ ∃ v d d', withdrawn owner k d (view_of s) v ∧ opened owner d' v (view_of s').
Proof using Ls Q.
  unfold addToPosition. intros Hr Hv. run Hr as q s0 Hq. apply GetPosition_stored in Hq as [<- Hq].
  run_require Hr as H1. run_require Hr as H2. run_require Hr as H3. run Hr as lock s1 H4.
  eapply run_eqv in H4; [|apply keeps_lockUpdate]. destruct lock as [active lockId].
  run_require Hr as H5. run Hr as w s2 H6. apply WithdrawPosition_inv in H6 as [Hv6 Hw6]; [|by rewrite H4].
  rewrite H4 in Hw6.
  destruct w as [w0 w1]. run Hr as pool s3 H7. apply getPoolById_Ok in H7 as [<- Hpool].
  run_require Hr as H8. run_lift Hr as d0 Hd0. run_lift Hr as d1 Hd1. run_lift Hr as c0 Hc0.
  run_lift Hr as c1 Hc1. run_lift Hr as toks Ht. run Hr as min0 s4 Hm0. run Hr as min1 s5 Hm1.
  eapply run_eqv in Hm0, Hm1; [|by keeps_tac..].
  run Hr as data s6 H9. apply CreatePosition_inv in H9 as [Hv9 Ho9]; [|by rewrite Hm1, Hm0].
  run_ret Hr. split; [done|]. rewrite Hm1, Hm0 in Ho9. by eexists _, _, _.
Qed.

Lemma CreateFullRangePosition_inv p owner coins s r s' :
  CreateFullRangePosition p owner coins s = Ok (r, s') → inv (view_of s) →
  inv (view_of s') ∧ opened owner (Dec.i (CLiquidity r)) (view_of s) (view_of s').
Proof using Ls Q.
  unfold CreateFullRangePosition. intros Hr Hv. run_require Hr as H1. run Hr as pool s0 H2.
  apply getPoolById_Ok in H2 as [<- Hpool]. run_lift Hr as a0 Ha0. run_require Hr as H3.
  run_lift Hr as a1 Ha1. run_require Hr as H4. by apply CreatePosition_inv in Hr.
Qed.

Lemma transferPosition_inv b sender recipient k s u s' :
  transferPosition b sender recipient k s = Ok (u, s') → inv (view_of s) →
  (b = true → sender = GetModuleAccountAddress "gov") →
  inv (view_of s') ∧ transferred sender recipient k (view_of s) (view_of s').
Proof using.
  unfold transferPosition. intros Hr Hv Hgov. run Hr as q s0 Hq. apply GetPosition_stored in Hq as [<- Hq].
  destruct (inv_positions _ Hv k q Hq) as (Hid & _).
  run_require Hr as H1. run Hr as lock s1 H2. eapply run_eqv in H2; [|apply keeps_lockUpdate].
  destruct lock as [active lockId]. run_require Hr as H3. run_lift Hr as owner Ho.
  run Hr as u2 s2 H4. apply deletePosition_view in H4. rewrite H2 in H4.
  run Hr as any s3 H5. eapply run_eqv in H5; [|apply keeps_HasAny]. run_require Hr as H6.
  apply SetPosition_view in Hr. rewrite Hr, H5, H4. rewrite <- Hid in *. split.
  - eapply (inv_rewrite_position _ {| PositionId := PositionId q; PoolId := PoolId q |}); try done.
  - exists q. split; [exact Hq|]. split; [|split; [done|by cbn; rewrite insert_delete_eq]].
    apply orb_true_iff in H1 as [H1|H1%String.eqb_eq]; [left; by apply Hgov|by right].
Qed.

Lemma transferPositions_inv ks sender recipient s u s' :
  transferPositions ks sender recipient s = Ok (u, s') → inv (view_of s) →
  inv (view_of s') ∧
  rtc (λ v v', ∃ k, transferred sender recipient k v v') (view_of s) (view_of s').
Proof using.
  unfold transferPositions. intros Hr Hv. run_require Hr as H1. clear H1. revert s Hr Hv.
  induction ks as [|k ks IH]; intros s Hr Hv; cbn [for_each] in Hr; [by run_ret Hr|].
  run Hr as u1 s1 H2. apply transferPosition_inv in H2 as [Hv2 Ht2]; [|done|apply bool_decide_eq_true].
  destruct (IH s1 Hr Hv2) as [Hv' Ht']. split; [done|]. eapply rtc_l; [by exists k|done].
Qed.
End lp.
End CLLpProps.
