(* ===== verification/CLIter.v ===== *)
(** The tick iterator of a swap, and how the liquidity of a pool changes from tick to tick. *)
From stdpp Require Import prelude strings list gmap sorting.
From S2P Require Import Prelude.
From S2P Require Import GoBig.
From S2P Require Import GoState.
From S2P Require Import SdkDec.
From S2P Require Import SdkCoins.
From S2P Require Import Decimal.
From S2P Require Import CLTick.
From S2P Require Import CLPool.
From S2P Require Import ZSums.
From S2P Require Import CLStore.
From S2P Require Import CLTickStore.
From S2P Require Import CLView.
From S2P Require Import CLInv.
Local Open Scope Z_scope.
Import CLConst CLTick CLStore CLTickStore CLView CLInv.

Module CLIter.
(** *** Sorted lists *)

Lemma StronglySorted_snoc {A} (R : A → A → Prop) l x :
  StronglySorted R l → Forall (λ y, R y x) l → StronglySorted R (l ++ [x]).
Proof.
  induction 1 as [|y l Hs IH Hy]; intros Hx; cbn; [by repeat constructor|].
  inversion_clear Hx. constructor; [by apply IH|]. apply Forall_app. by split; [|constructor].
Qed.

Lemma StronglySorted_reverse {A} (R : A → A → Prop) l :
  StronglySorted R l → StronglySorted (flip R) (reverse l).
Proof.
  induction 1 as [|y l Hs IH Hy]; [constructor|]. rewrite reverse_cons.
  apply StronglySorted_snoc; [done|]. by apply Forall_reverse.
Qed.

Lemma StronglySorted_filter' {A} (R : A → A → Prop) (P : A → Prop) `{∀ x, Decision (P x)} l :
  StronglySorted R l → StronglySorted R (filter P l).
Proof.
  induction 1 as [|y l Hs IH Hy]; [constructor|]. rewrite filter_cons. case_decide; [|done].
  constructor; [done|]. rewrite Forall_forall in *. intros x [_ Hx]%list_elem_of_filter. by apply Hy.
Qed.

(** *** The iterator *)

Section iterators.
  Context {D : sdk.LegacyDec} {C : coin.CoinOps} {A : addr.Addresses} {E : Env} {T : Block}.
  Implicit Types (s : store) (it : list (Z * TickInfo)).

Lemma elem_of_pool_ticks p s t info : (t, info) ∈ pool_ticks p s ↔ ticks s !! (p, t) = Some info.
Proof.
  unfold pool_ticks. rewrite (merge_sort_Permutation tick_le), list_elem_of_fmap. split.
  - intros ([[p' t'] i'] & [= -> ->] & [Hp Hin]%list_elem_of_filter). cbn in Hp. subst p'.
    by apply elem_of_map_to_list in Hin.
  - intros Ht. exists (p, t, info). split; [done|]. apply list_elem_of_filter. split; [done|].
    by apply elem_of_map_to_list.
Qed.

#[export] Instance tick_le_total : Total tick_le.
Proof. intros x y. unfold tick_le. lia. Qed.
#[export] Instance tick_le_trans : Transitive tick_le.
Proof. intros x y z. unfold tick_le. lia. Qed.

Definition tick_lt (x y : Z * TickInfo) : Prop := x.1 < y.1.

Lemma sorted_strict l : StronglySorted tick_le l → NoDup l.*1 → StronglySorted tick_lt l.
Proof.
  induction 1 as [|x l Hs IH Hx]; [constructor|]. rewrite fmap_cons, NoDup_cons.
  intros [Hn Hd]. constructor; [by apply IH|]. rewrite Forall_forall in *. intros y Hy.
  specialize (Hx y Hy). unfold tick_le, tick_lt in *.
  assert (x.1 ≠ y.1); [|lia]. intros Heq. apply Hn. rewrite Heq. by apply list_elem_of_fmap_2.
Qed.

Lemma pool_ticks_sorted p s : StronglySorted tick_lt (pool_ticks p s).
Proof.
  apply sorted_strict; [apply (StronglySorted_merge_sort tick_le)|].
  unfold pool_ticks. rewrite (merge_sort_Permutation tick_le).
  set (l := map_to_list (ticks s)).
  assert (NoDup (l.*1)) as Hd by apply NoDup_fst_map_to_list.
  induction l as [|[[p' t'] i'] l IH]; [constructor|]. rewrite fmap_cons, NoDup_cons in Hd.
  destruct Hd as [Hn Hd]. rewrite filter_cons. cbn [fst]. case_decide as Hp; [|by apply IH].
  subst p'. rewrite !fmap_cons, NoDup_cons. split; [|by apply IH]. cbn [fst snd].
  intros ([t1 i1] & Ht & Hin)%list_elem_of_fmap. cbn in Ht. subst t1.
  apply list_elem_of_fmap in Hin as ([[p2 t2] i2] & [= -> ->] & [Hp2 Hin]%list_elem_of_filter).
  cbn in Hp2. subst p2. apply Hn. change (p, t2, i').1 with (p, t2, i2).1. by apply list_elem_of_fmap_2.
Qed.

(** On which side of the pool's tick the iterator of a direction works. *)
Definition side (zfo : bool) (c t : Z) : Prop := if zfo then t ≤ c else c < t.
Definition before (zfo : bool) (x y : Z * TickInfo) : Prop := if zfo then y.1 < x.1 else x.1 < y.1.

(** The iterator holds the stored ticks on its side, nearest first. *)
Definition iter_ok (zfo : bool) (v : view) (p c : Z) it : Prop :=
  StronglySorted (before zfo) it ∧
  (∀ t info, (t, info) ∈ it → vticks v !! (p, t) = Some (tick_core info) ∧ side zfo c t) ∧
  (∀ t, is_Some (vticks v !! (p, t)) → side zfo c t → ∃ info, (t, info) ∈ it).

Lemma InitializeNextTickIterator_ok zfo p c s it s' :
  InitializeNextTickIterator zfo p c s = Ok (it, s') → s = s' ∧ iter_ok zfo (view_of s) p c it.
Proof.
  unfold InitializeNextTickIterator. intros [-> ->]%st_gets_Ok. split; [done|].
  assert (∀ t, is_Some (vticks (view_of s') !! (p, t)) → ∃ info, ticks s' !! (p, t) = Some info) as Hsome.
  { intros t. cbn. rewrite lookup_fmap, fmap_is_Some. by intros [x Hx]; exists x. }
  assert (∀ t info, ticks s' !! (p, t) = Some info →
    vticks (view_of s') !! (p, t) = Some (tick_core info)) as Hcore.
  { intros t info Ht. cbn. by rewrite lookup_fmap, Ht. }
  pose proof (pool_ticks_sorted p s') as Hs.
  destruct zfo; unfold zeroForOne_iterator, oneForZero_iterator; split_and!.
  - apply (StronglySorted_reverse tick_lt), StronglySorted_filter', Hs.
  - intros t info. rewrite elem_of_reverse, list_elem_of_filter, elem_of_pool_ticks.
    intros [Hc Ht]. split; [by apply Hcore|done].
  - intros t (info & Ht)%Hsome Hc. exists info.
    by rewrite elem_of_reverse, list_elem_of_filter, elem_of_pool_ticks.
  - apply StronglySorted_filter', Hs.
  - intros t info. rewrite list_elem_of_filter, elem_of_pool_ticks.
    intros [Hc Ht]. split; [by apply Hcore|done].
  - intros t (info & Ht)%Hsome Hc. exists info. by rewrite list_elem_of_filter, elem_of_pool_ticks.
Qed.

(** No stored tick separates two ticks of a pool. *)
Definition no_tick_between (v : view) (p c c' : Z) : Prop :=
  ∀ t, is_Some (vticks v !! (p, t)) → ¬ (Z.min c c' < t ≤ Z.max c c').

Lemma iter_ok_move zfo v p c c' it :
  iter_ok zfo v p c it → no_tick_between v p c c' → iter_ok zfo v p c' it.
Proof.
  intros (H1 & H2 & H3) Hn. split; [done|]. split.
  - intros t info Hin. destruct (H2 t info Hin) as [Ht Hs]. split; [done|].
    assert (is_Some (vticks v !! (p, t))) as Hsome by by eexists. specialize (Hn t Hsome).
    destruct zfo; cbn in *; lia.
  - intros t Ht Hs. apply H3; [done|]. specialize (Hn t Ht). destruct zfo; cbn in *; lia.
Qed.

(** Passing the head. *)
Definition past (zfo : bool) (t : Z) : Z := if zfo then t - 1 else t.

Lemma iter_ok_tail zfo v p c t info it :
  iter_ok zfo v p c ((t, info) :: it) → iter_ok zfo v p (past zfo t) it.
Proof.
  intros (H1 & H2 & H3). inversion_clear H1 as [|? ? Hs Hh]. rewrite Forall_forall in Hh.
  split; [done|]. split.
  - intros u i Hin. destruct (H2 u i) as [Hu Hsu]; [by right|]. split; [done|].
    specialize (Hh _ Hin). unfold before in Hh. destruct zfo; cbn in *; lia.
  - intros u Hu Hsu. destruct (H2 t info) as [Ht Hst]; [by left|].
    destruct (H3 u Hu) as [i Hi]; [destruct zfo; cbn in *; lia|].
    apply elem_of_cons in Hi as [[= -> ->]|Hi]; [destruct zfo; cbn in *; lia|]. by exists i.
Qed.

Lemma iter_head zfo v p c t info it :
  iter_ok zfo v p c ((t, info) :: it) →
  vticks v !! (p, t) = Some (tick_core info) ∧ side zfo c t ∧
  ∀ u, is_Some (vticks v !! (p, u)) → side zfo c u → if zfo then u ≤ t else t ≤ u.
Proof.
  intros (H1 & H2 & H3). destruct (H2 t info) as [Ht Hst]; [by left|]. split; [done|]. split; [done|].
  intros u Hu Hsu. destruct (H3 u Hu Hsu) as [i Hi]. inversion_clear H1 as [|? ? Hs Hh].
  apply elem_of_cons in Hi as [[= -> ->]|Hi]; [destruct zfo; lia|].
  rewrite Forall_forall in Hh. specialize (Hh _ Hi). unfold before in Hh. destruct zfo; cbn in Hh; lia.
Qed.
End iterators.

(** *** Liquidity along the ticks *)

Section liquidity.
  Context {D : sdk.LegacyDec}.

Lemma liq_nonneg v k q : inv v → vpositions v !! k = Some q → 0 ≤ liq q.
Proof. intros Hv Hk. by destruct (inv_positions v Hv k q Hk) as (_ & H & _). Qed.

Lemma pos_sum_nonneg v f : inv v → (∀ q, 0 ≤ f q) → 0 ≤ pos_sum f (vpositions v).
Proof.
  intros Hv Hf. unfold pos_sum. apply map_sum_nonneg. intros k q Hk.
  apply Z.mul_nonneg_nonneg; [apply Hf|by eapply liq_nonneg].
Qed.

Lemma b2z_nonneg b : 0 ≤ b2z b.
Proof. by destruct b. Qed.
Lemma covers_nonneg p c q : 0 ≤ covers p c q.
Proof. apply Z.mul_nonneg_nonneg; apply b2z_nonneg. Qed.

(** The ends of a position with liquidity are stored. *)
Lemma ends_stored v k q t :
  inv v → vpositions v !! k = Some q → liq q ≠ 0 → t = LowerTick q ∨ t = UpperTick q →
  is_Some (vticks v !! (PoolId q, t)).
Proof.
  intros Hv Hk Hq Ht. destruct (vticks v !! (PoolId q, t)) eqn:Es; [by eexists|]. exfalso.
  pose proof (inv_ticks v Hv (PoolId q) t) as Hok. unfold tick_ok, vtick in Hok. rewrite Es in Hok.
  cbn in Hok. injection Hok as Hg _.
  assert (∀ p t q, 0 ≤ gross_at p t q) as Hnn.
  { intros p u r. unfold gross_at. destruct (_ =? _), (_ =? _), (_ =? _); cbn; lia. }
  assert (gross_at (PoolId q) t q * liq q = 0) as H0.
  { refine (map_sum_zero_inv (λ _ r, gross_at (PoolId q) t r * liq r) (vpositions v) _ _ k q Hk); [|done].
    intros k' q' Hk'. apply Z.mul_nonneg_nonneg; [apply Hnn|by eapply liq_nonneg]. }
  apply Z.mul_eq_0 in H0 as [H0|]; [|done]. unfold gross_at in H0. rewrite Z.eqb_refl in H0.
  destruct Ht as [->| ->]; rewrite Z.eqb_refl in H0; destruct (_ =? _) in H0; cbn in H0; lia.
Qed.

(** From [c] up to [t] with no stored tick strictly between, the active liquidity changes by the net
    liquidity of [t]. *)
Lemma covers_step v p c t :
  inv v → c < t → (∀ u, is_Some (vticks v !! (p, u)) → ¬ (c < u < t)) →
  pos_sum (covers p t) (vpositions v) =
  pos_sum (covers p c) (vpositions v) + pos_sum (net_at p t) (vpositions v).
Proof.
  intros Hv Hct Hno. unfold pos_sum. rewrite <- map_sum_add. apply map_sum_ext. intros k q Hk.
  rewrite <- Z.mul_add_distr_r. destruct (Z.eq_dec (liq q) 0) as [->|Hq]; [lia|]. f_equal.
  unfold covers, net_at. destruct (Z.eqb_spec (PoolId q) p) as [Ep|]; [|done]. cbn [b2z].
  destruct (inv_positions v Hv k q Hk) as (_ & _ & Hlu & _).
  pose proof (Hno (LowerTick q)) as Hl. pose proof (Hno (UpperTick q)) as Hu. rewrite <- Ep in Hl, Hu.
  specialize (Hl (ends_stored v k q _ Hv Hk Hq (or_introl eq_refl))).
  specialize (Hu (ends_stored v k q _ Hv Hk Hq (or_intror eq_refl))).
  destruct (Z.leb_spec (LowerTick q) t), (Z.ltb_spec t (UpperTick q)), (Z.leb_spec (LowerTick q) c),
    (Z.ltb_spec c (UpperTick q)), (Z.eqb_spec (LowerTick q) t), (Z.eqb_spec (UpperTick q) t);
    cbn [andb b2z]; lia.
Qed.

Lemma unstored_net v p t : inv v → ¬ is_Some (vticks v !! (p, t)) → pos_sum (net_at p t) (vpositions v) = 0.
Proof.
  intros Hv Hn. pose proof (inv_ticks v Hv p t) as Hok. unfold tick_ok, vtick in Hok.
  rewrite <- eq_None_not_Some in Hn. rewrite Hn in Hok. cbn in Hok. by injection Hok as _ Hok.
Qed.

Lemma covers_same v p c c' :
  inv v → no_tick_between v p c c' →
  pos_sum (covers p c') (vpositions v) = pos_sum (covers p c) (vpositions v).
Proof.
  intros Hv Hn.
  assert (∀ a b, a < b → (∀ u, is_Some (vticks v !! (p, u)) → ¬ (a < u ≤ b)) →
    pos_sum (covers p b) (vpositions v) = pos_sum (covers p a) (vpositions v)) as Hup.
  { intros a b Hab Hno. rewrite (covers_step v p a b Hv Hab), unstored_net; [lia|done|..].
    - intros Hb. apply (Hno b Hb). lia.
    - intros u Hu. specialize (Hno u Hu). lia. }
  destruct (Z.lt_total c c') as [Hlt|[->|Hlt]]; [|done|].
  - apply Hup; [done|]. intros u Hu. specialize (Hn u Hu). lia.
  - symmetry. apply Hup; [done|]. intros u Hu. specialize (Hn u Hu). lia.
Qed.

(** Passing a stored tick in either direction. *)
Lemma covers_cross zfo v p c t :
  inv v → side zfo c t →
  (∀ u, is_Some (vticks v !! (p, u)) → side zfo c u → if zfo then u ≤ t else t ≤ u) →
  pos_sum (covers p (past zfo t)) (vpositions v) =
  pos_sum (covers p c) (vpositions v) +
    (if zfo then -1 else 1) * pos_sum (net_at p t) (vpositions v).
Proof.
  intros Hv Hs Hnear. destruct zfo; cbn [side past] in *.
  - assert (pos_sum (covers p t) (vpositions v) = pos_sum (covers p c) (vpositions v)) as H2.
    { apply covers_same; [done|]. intros u Hu. specialize (Hnear u Hu). lia. }
    assert (pos_sum (covers p t) (vpositions v) =
      pos_sum (covers p (t - 1)) (vpositions v) + pos_sum (net_at p t) (vpositions v)) as H3.
    { apply covers_step; [done|lia|]. intros u Hu. lia. }
    lia.
  - rewrite (covers_step v p c t Hv Hs); [lia|]. intros u Hu Hb. specialize (Hnear u Hu). lia.
Qed.
End liquidity.
End CLIter.
