(* ===== verification/CLSwapsInv.v ===== *)
(** The invariant of the swap loop (CLSwaps): along a swap the running liquidity is the liquidity of the
    positions around the running tick, and tick and price agree. *)
From stdpp Require Import prelude strings list gmap sorting.
From S2P Require Import Prelude.
From S2P Require Import GoBig.
From S2P Require Import GoState.
From S2P Require Import SdkDec.
From S2P Require Import SdkCoins.
From S2P Require Import Decimal.
From S2P Require Import DecimalFacts.
From S2P Require Import CLMath.
From S2P Require Import CLTick.
From S2P Require Import CLTickProps.
From S2P Require Import CLSwapStrategy.
From S2P Require Import CLSwapStrategyProps.
From S2P Require Import Accum.
From S2P Require Import CLPool.
From S2P Require Import CLStore.
From S2P Require Import CLRewards.
From S2P Require Import CLTickStore.
From S2P Require Import CLLp.
From S2P Require Import CLSwaps.
From S2P Require Import CLView.
From S2P Require Import CLInv.
From S2P Require Import CLLpProps.
From S2P Require Import CLIter.
Local Open Scope Z_scope.
Import CLConst CLTick SwapStrategy NewStrategy CLStore CLRewards CLTickStore CLLp CLSwaps CLView CLInv
  CLSwapStrategyProps
  CLLpProps CLIter.

Module CLSwapsInv.
Section loop.
  Context {D : sdk.LegacyDec} {Ls : sdk.LegacyDecLaws D} {C : coin.CoinOps} {A : addr.Addresses}
    {E : Env} {T : Block} {H : Hooks}.
  (** The view and the pool when the swap starts. *)
  Context (v : view) (p : Z) (pool0 : Pool.Pool) (zfo : bool) (limit : BigDec.t) (sf : Dec.t).
  Context (Hv : inv v) (Hp : vpools v !! p = Some pool0).
  Abbreviation sp := (Pool.TickSpacing pool0).
  Abbreviation strat := (New zfo limit sf).

(** During the swap the store differs from the start in the stored liquidity of the pool at most. *)
Definition store_ok (s : store) : Prop :=
  vticks (view_of s) = vticks v ∧ vpositions (view_of s) = vpositions v ∧
  vindex (view_of s) = vindex v ∧ vnext (view_of s) = vnext v ∧
  ∃ x, vpools (view_of s) = <[p := Pool.with_liquidity x pool0]> (vpools v).

Lemma store_ok_start s : view_of s = v → store_ok s.
Proof using Hp.
  intros E1. unfold store_ok. rewrite E1. do 4 (split; [done|]). exists (Pool.CurrentTickLiquidity pool0).
  rewrite insert_id; [done|]. rewrite Hp. by destruct pool0.
Qed.

Lemma store_ok_eqv s s' : view_of s' = view_of s → store_ok s → store_ok s'.
Proof using. unfold store_ok. by intros ->. Qed.

Lemma pool0_id : Pool.Id pool0 = p.
Proof using Hv Hp. by destruct (inv_pools v Hv p pool0 Hp). Qed.

Lemma store_ok_put pl s s' l :
  pool_core pl = Pool.with_liquidity l pool0 → view_of s' = put_pool pl (view_of s) →
  store_ok s → store_ok s'.
Proof using Hv Hp.
  intros Hc Hput (E1 & E2 & E3 & E5 & x & E4). unfold store_ok. rewrite Hput.
  cbn [vticks vpositions vindex vpools vnext put_pool]. rewrite E1, E2, E3, E5.
  do 4 (split; [done|]). exists l. rewrite E4, Hc.
  assert (Pool.Id pl = p) as ->; [|by rewrite insert_insert_eq].
  apply (f_equal Pool.Id) in Hc. cbn in Hc. by rewrite Hc, pool0_id.
Qed.

Lemma swap_update_given pl accs l s r s' :
  updateGivenPoolUptimeAccumulatorsToNow pl accs s = Ok (r, s') →
  pool_core pl = Pool.with_liquidity l pool0 → store_ok s →
  store_ok s' ∧ pool_core r.1 = Pool.with_liquidity l pool0.
Proof using Hv Hp.
  destruct r as [pl' accs']. intros [H1 H2]%update_given_view Hc Hs. split; [|by rewrite <- Hc].
  destruct H2 as [H2|H2]; [by eapply store_ok_eqv|by eapply store_ok_put].
Qed.

Lemma crossTick_view k t info g val accs s u s' :
  crossTick k t info g val accs s = Ok (u, s') →
  vticks (view_of s) !! (k, t) = Some (tick_core info) → view_of s' = view_of s.
Proof using.
  unfold crossTick. intros Hr Ht. run_lift Hr as total H1. run_lift Hr as growth H2.
  run_lift Hr as trackers H3. apply st_modify_Ok in Hr as ->. unfold view_of in *. cbn in *.
  rewrite fmap_insert, insert_id; [done|]. exact Ht.
Qed.

Lemma cross_step ss t info it pl acc denom s ss' it' pl' s' :
  swapCrossTickLogic ss strat t ((t, info) :: it) pl acc denom s = Ok ((ss', it', pl'), s') →
  swapStrategy ss = strat → store_ok s → pool_core pl = Pool.with_liquidity (liquidity ss) pool0 →
  vticks v !! (p, t) = Some (tick_core info) →
  store_ok s' ∧ it' = it ∧ ∃ l, ss' = with_tick (past zfo t) l ss ∧
    Dec.i l = Dec.i (liquidity ss) + (if zfo then -1 else 1) * Dec.i (LiquidityNet info) ∧
    pool_core pl' = Pool.with_liquidity l pool0.
Proof using Hv Hp Ls.
  unfold swapCrossTickLogic. intros Hr Hstr Hs Hc Ht. run Hr as pl1 s1 H1.
  assert (store_ok s1 ∧ pool_core pl1 = Pool.with_liquidity (liquidity ss) pool0) as [Hs1 Hc1].
  { destruct acc as [acc|]; [|by run_ret H1].
    run H1 as accs s2 H2. eapply run_eqv in H2; [|apply keeps_GetUptime].
    eapply store_ok_eqv in Hs as Hs2; [|exact H2].
    run H1 as r s3 H3. eapply swap_update_given in H3 as [Hs3 Hc3]; [|done..].
    destruct r as [pl2 accs2]. cbn [fst] in Hc3. run H1 as u s4 H4.
    apply crossTick_view in H4.
    - run_ret H1. split; [by eapply store_ok_eqv|done].
    - destruct Hs3 as (-> & _). apply (f_equal Pool.Id) in Hc3. cbn in Hc3.
      by rewrite Hc3, pool0_id. }
  run_lift Hr as l Hl. apply sdk.Add_spec in Hl.
  apply st_ret_Ok in Hr as [[= <- <- <-] <-]. split; [done|]. split; [done|].
  exists l. split; [by destruct zfo|]. split.
  - rewrite Hl, Hstr. destruct zfo; cbn.
    + unfold zeroForOne.SetLiquidityDeltaSign. rewrite sdk.Neg_spec. lia.
    + unfold oneForZero.SetLiquidityDeltaSign. lia.
  - change (pool_core (Pool.with_liquidity l pl1)) with (Pool.with_liquidity l (pool_core pl1)).
    by rewrite Hc1.
Qed.

(** *** The invariant *)

Record loop_inv (l : loopState) (s : store) : Prop := {
  li_store : store_ok s;
  li_pool : pool_core (lpool l) = Pool.with_liquidity (liquidity (lstate l)) pool0;
  li_liquidity : Dec.i (liquidity (lstate l)) = pos_sum (covers p (tick (lstate l))) (vpositions v);
  li_price : 0 < BigDec.i (sqrtPrice (lstate l));
  li_price_ok : price_ok sp (tick (lstate l)) (sqrtPrice (lstate l));
  li_iter : iter_ok zfo v p (tick (lstate l)) (literator l);
  li_strategy : swapStrategy (lstate l) = strat
}.

(** Moving the price inside a bucket, to a tick computed from it. *)
Lemma move_inside c price cp t info it r c' :
  price_ok sp c price → iter_ok zfo v p c ((t, info) :: it) →
  TickToSqrtPrice t = Ok r → CalculateSqrtPriceToTick cp = Ok c' →
  (if zfo then BigDec.i r < BigDec.i cp < BigDec.i price else BigDec.i price < BigDec.i cp < BigDec.i r) →
  no_tick_between v p c c' ∧ price_ok sp c' cp ∧ 0 < BigDec.i cp.
Proof using Hv Hp Ls.
  intros Hpr Hit Ht (Hcp & Hrange & Hb)%bucket_price_ok Hdir.
  apply iter_head in Hit as (Hst & Hside & Hnear).
  assert (∀ u, is_Some (vticks v !! (p, u)) →
    valid_tick sp u ∧ ∃ ru, TickToSqrtPrice u = Ok ru) as Hstored.
  { intros u Hu. destruct (inv_stored v Hv p u Hu) as (pl & Hpl & Hvt).
    assert (pl = pool0) as -> by congruence. split; [done|].
    destruct (CLTickProps.TickToSqrtPrice_spec u (valid_in_range _ u Hvt)) as (ru & Hru & _).
    by exists (BigDec.mk ru). }
  split; [|split; [|done]].
  - intros u Hu Hbetween. destruct (Hstored u Hu) as (Hvu & ru & Hru).
    destruct (Hpr u ru Hvu Hru) as [P1 P2].
    destruct (Hb u ru (valid_in_range _ u Hvu) Hru) as [B1 B2].
    assert (valid_tick sp t ∧ ∃ rt, TickToSqrtPrice t = Ok rt) as [Hvt _] by (apply Hstored; by eexists).
    destruct (Hb t r (valid_in_range _ t Hvt) Ht) as [T1 T2].
    specialize (Hnear u Hu). destruct zfo; cbn [side] in *; lia.
  - intros u ru Hvu Hru. destruct (Hb u ru (valid_in_range _ u Hvu) Hru) as [B1 B2].
    split; [exact B1|]. intros Hlt. specialize (B2 Hlt). lia.
Qed.

(** At the square root price of the tick that is passed. *)
Lemma price_ok_past t r : valid_tick sp t → TickToSqrtPrice t = Ok r → price_ok sp (past zfo t) r.
Proof using Ls.
  intros Hvt Ht u ru Hvu Hru. apply valid_in_range in Hvt, Hvu. split; intros Hle.
  - apply (sqrt_price_mono_le u t); try done. destruct zfo; cbn in Hle; lia.
  - apply (sqrt_price_mono_le t u); try done. destruct zfo; cbn in Hle; lia.
Qed.

Lemma swapStep_inv exactIn t info it r cp ain aout ch denom accs l s l' s' :
  swapStep exactIn strat t r cp ain aout ch denom accs l s = Ok (l', s') →
  loop_inv l s → literator l = (t, info) :: it → TickToSqrtPrice t = Ok r → 0 < BigDec.i r →
  (if zfo then BigDec.i cp ≤ BigDec.i (sqrtPrice (lstate l))
   else BigDec.i (sqrtPrice (lstate l)) ≤ BigDec.i cp) →
  loop_inv l' s'.
Proof using Hv Hp Ls.
  intros Hr [S1 S2 S3 S4 S5 S6 S7] Hl Ht Hr0 Hdir. unfold swapStep in Hr. rewrite Hl in *.
  set (ss := lstate l) in *.
  run_lift Hr as u H1. run Hr as ss1 s1 H2.
  assert (s1 = s ∧ tick ss1 = tick ss ∧ liquidity ss1 = liquidity ss ∧ swapStrategy ss1 = swapStrategy ss)
    as (-> & T1 & T2 & T3).
  { destruct accs as [[acc factor]|]; [|by run_ret H2].
    run_lift H2 as g Hg. destruct g as [accrued ss2]. run_ret H2. split; [done|].
    unfold updateSpreadRewardGrowthGlobal in Hg.
    apply bind_Ok in Hg as (sc & _ & Hg). apply bind_Ok in Hg as (tot & _ & Hg).
    destruct (sdk.IsZero _); [by injection Hg as <- <-|].
    apply bind_Ok in Hg as (acr & _ & Hg). apply bind_Ok in Hg as (pu & _ & Hg). by injection Hg as <- <-. }
  run_lift Hr as inCharge H3. run_lift Hr as remaining H4. run_lift Hr as calculated H5.
  set (ss3 := with_amounts remaining calculated cp ss1) in *.
  run Hr as q s2 H6. destruct q as [[ss4 it4] pl4].
  destruct (iter_head _ _ _ _ _ _ _ S6) as (Hst & Hside & Hnear).
  assert (valid_tick sp t) as Hvt.
  { destruct (inv_stored v Hv p t) as (pl & Hpl & Hvt); [by eexists|]. by assert (pl = pool0) as -> by congruence. }
  assert (loop_inv {| lstate := ss4; literator := it4; lpool := pl4; lnoProgress := lnoProgress l |} s2)
    as [U1 U2 U3 U4 U5 U6 U7].
  { destruct (BigDec.Equal r cp) eqn:Eq.
    - apply BigDecFacts.Equal_iff in Eq as <-.
      apply cross_step in H6 as (Hs2 & -> & lq & -> & Hlq & Hc); [|by rewrite <- S7, <- T3|done|
        by cbn; rewrite T2|done].
      split; cbn; try done.
      + rewrite Hlq. cbn [liquidity ss3 with_amounts]. rewrite T2, S3.
        rewrite (covers_cross zfo v p (tick ss) t Hv Hside Hnear). f_equal. f_equal.
        pose proof (inv_ticks v Hv p t) as Hok. unfold tick_ok, vtick in Hok. rewrite Hst in Hok.
        cbn in Hok. by injection Hok as _ ->.
      + by apply price_ok_past.
      + by eapply iter_ok_tail.
      + by rewrite <- S7, <- T3.
    - destruct (edgeCaseInequalityBasedOnSwapStrategy _ _ _) eqn:Ee; [done|].
      assert (if zfo then BigDec.i r < BigDec.i cp else BigDec.i cp < BigDec.i r) as Hr1.
      { assert (BigDec.i r ≠ BigDec.i cp) as Hne.
        { intros Hi. apply Bool.not_true_iff_false in Eq. apply Eq. apply BigDecFacts.Equal_iff.
          destruct r, cp. cbn in Hi. by subst. }
        unfold edgeCaseInequalityBasedOnSwapStrategy in Ee. replace (ZeroForOne strat) with zfo in Ee by by destruct zfo.
        destruct zfo; apply Bool.not_true_iff_false in Ee; [rewrite BigDecFacts.GT_iff in Ee|
          rewrite BigDecFacts.LT_iff in Ee]; lia. }
      destruct (BigDec.Equal (sqrtPrice ss) cp) eqn:Es; cbn [negb] in H6.
      + apply BigDecFacts.Equal_iff in Es as Ep. apply st_ret_Ok in H6 as [[= <- <- <-] <-]. subst ss3. rewrite <- Ep.
        split; cbn; rewrite ?T1, ?T2, ?T3; done.
      + run_lift H6 as c' Hc'. apply st_ret_Ok in H6 as [[= <- <- <-] <-]. subst ss3.
        assert (BigDec.i (sqrtPrice ss) ≠ BigDec.i cp) as Hne.
        { intros Hi. apply Bool.not_true_iff_false in Es. apply Es. apply BigDecFacts.Equal_iff.
          destruct (sqrtPrice ss), cp. cbn in Hi. by subst. }
        destruct (move_inside (tick ss) (sqrtPrice ss) cp t info it r c') as (Hn & Hpok & Hcp);
          [done..|destruct zfo; lia|].
        split; cbn; rewrite ?T2, ?T3; try done.
        * by rewrite S3, (covers_same v p (tick ss) c').
        * by eapply iter_ok_move. }
  destruct (sdk.IsZero _); [run_require Hr as H7|]; run_ret Hr; by split.
Qed.

(** *** The loop *)

(** The limit lies beyond every usable tick, as it does when no limit is given. *)
Definition limit_beyond : Prop :=
  ∀ t r, valid_tick sp t → TickToSqrtPrice t = Ok r →
    if zfo then BigDec.i limit ≤ BigDec.i r else BigDec.i r ≤ BigDec.i limit.

Lemma valid_price_bound t r :
  valid_tick sp t → TickToSqrtPrice t = Ok r → 10 ^ 30 ≤ BigDec.i r.
Proof using Ls.
  intros Hvt Ht. apply valid_in_range in Hvt as Hrange. destruct r as [r]. cbn [BigDec.i].
  destruct (CLTickProps.sqrt_price_ge t r Hrange Ht) as [H0 Hsq].
  assert (10 ^ 24 ≤ CLTickProps.price t) as Hprice.
  { apply CLTickProps.price_ge_v1; [done|]. by destruct Hvt as [_ [? _]]. }
  assert (10 ^ 24 * BigDecFacts.P ≤ r * r) as Hsq' by (pose proof BigDecFacts.P_pos; nia).
  change (10 ^ 24 * BigDecFacts.P) with (10 ^ 30 * 10 ^ 30) in Hsq'.
  destruct (Z.le_gt_cases (10 ^ 30) r) as [|Hlt]; [done|]. nia.
Qed.

(** The next tick of an iteration and its price, which is the target. *)
Lemma iteration_target l s t r target :
  loop_inv l s → limit_beyond →
  iteratorToNextInitializedTickSqrtPriceTarget (literator l) strat = Ok (t, r, target) →
  target = r ∧ TickToSqrtPrice t = Ok r ∧ 10 ^ 30 ≤ BigDec.i r ∧
  (∃ info it, literator l = (t, info) :: it) ∧
  (if zfo then BigDec.i r ≤ BigDec.i (sqrtPrice (lstate l))
   else BigDec.i (sqrtPrice (lstate l)) ≤ BigDec.i r).
Proof using Hv Hp Ls.
  intros [S1 S2 S3 S4 S5 S6 S7] Hlim Hr. unfold iteratorToNextInitializedTickSqrtPriceTarget in Hr.
  destruct (literator l) as [|[t1 info] it]; [done|].
  destruct (TickToSqrtPrice t1) as [r1| |] eqn:Ht; [|done..].
  destruct (iter_head _ _ _ _ _ _ _ S6) as (Hst & Hside & _).
  destruct (inv_stored v Hv p t1) as (pl & Hpl & Hvt); [by eexists|].
  assert (pl = pool0) as -> by congruence.
  pose proof (Hlim t1 r1 Hvt Ht) as Hl. destruct (S5 t1 r1 Hvt Ht) as [P1 P2].
  assert (GetSqrtTargetPrice strat r1 = r1) as Hg.
  { destruct zfo; cbn.
    - unfold zeroForOne.GetSqrtTargetPrice. cbn.
      destruct (BigDec.LT r1 limit) eqn:El; [|done]. apply BigDecFacts.LT_iff in El. lia.
    - unfold oneForZero.GetSqrtTargetPrice. cbn.
      destruct (BigDec.GT r1 limit) eqn:El; [|done]. apply BigDecFacts.GT_iff in El. lia. }
  rewrite Hg in Hr. injection Hr as <- <- <-.
  split; [done|]. split; [done|]. split; [by eapply valid_price_bound|]. split; [by eexists _, _|].
  destruct zfo; cbn in Hside; [by apply P1|by apply P2].
Qed.

Context (Hsf : 0 ≤ Dec.i sf ∧ Dec.i sf + 5 * 10 ^ 11 ≤ Dec.one) (Hlim : limit_beyond).

Lemma liquidity_nonneg l s : loop_inv l s → 0 ≤ Dec.i (liquidity (lstate l)).
Proof using Hv.
  intros Hl. rewrite (li_liquidity _ _ Hl). apply pos_sum_nonneg; [done|]. intros. apply covers_nonneg.
Qed.

Lemma keepSwapping_true ss : keepSwapping limit ss = true → 2 ≤ Dec.i (amountSpecifiedRemaining ss).
Proof using Ls.
  unfold keepSwapping. rewrite andb_true_iff, sdk.GT_spec. intros [H1%Z.ltb_lt _]. cbn in H1. lia.
Qed.

(** What one iteration does: a step of the strategy, then the bookkeeping. *)
Lemma swapIteration_step exactIn denom accs l s l' s' :
  swapIteration exactIn strat denom accs l s = Ok (l', s') → loop_inv l s →
  keepSwapping limit (lstate l) = true →
  ∃ t r info it cp ain aout ch,
    literator l = (t, info) :: it ∧ TickToSqrtPrice t = Ok r ∧ 0 < BigDec.i r ∧
    takes_step zfo exactIn limit sf (sqrtPrice (lstate l)) r (liquidity (lstate l))
      (amountSpecifiedRemaining (lstate l)) cp ain aout ch ∧
    (if zfo then BigDec.i cp ≤ BigDec.i (sqrtPrice (lstate l))
     else BigDec.i (sqrtPrice (lstate l)) ≤ BigDec.i cp) ∧
    swapStep exactIn strat t r cp ain aout ch denom accs l s = Ok (l', s').
Proof using Hv Hp Ls Hsf Hlim.
  intros Hr Hl Hk. pose proof (keepSwapping_true _ Hk) as Hrem.
  pose proof (liquidity_nonneg l s Hl) as HL. pose proof (li_price _ _ Hl) as Hprice.
  unfold swapIteration in Hr. run_lift Hr as next Hnext. destruct next as [[t r] target].
  destruct (iteration_target l s t r target Hl Hlim Hnext) as (-> & Ht & Hr30 & (info & it & Hit) & Hrdir).
  assert (∀ cp ain aout ch,
    takes_step zfo exactIn limit sf (sqrtPrice (lstate l)) r (liquidity (lstate l))
      (amountSpecifiedRemaining (lstate l)) cp ain aout ch →
    if zfo then BigDec.i cp ≤ BigDec.i (sqrtPrice (lstate l))
    else BigDec.i (sqrtPrice (lstate l)) ≤ BigDec.i cp) as Hdir.
  { intros cp ain aout ch Hst.
    pose proof (CLSwapStrategyProps.step_direction zfo exactIn limit sf (sqrtPrice (lstate l)) r cp
      (liquidity (lstate l)) (amountSpecifiedRemaining (lstate l)) ain aout ch HL ltac:(lia) Hprice Hst)
      as Hd.
    assert (0 < Dec.one) by done.
    destruct zfo; apply Hd; try done; lia. }
  destruct exactIn; run_lift Hr as res Hres; destruct res as [[[cp x] y] ch].
  - exists t, r, info, it, cp, x, y, ch. split; [done|]. split; [done|]. split; [lia|].
    split; [exact Hres|]. split; [|done]. by eapply (Hdir cp x y ch).
  - exists t, r, info, it, cp, y, x, ch. split; [done|]. split; [done|]. split; [lia|].
    split; [exact Hres|]. split; [|done]. by eapply (Hdir cp y x ch).
Qed.

Lemma swapIteration_inv exactIn denom accs l s l' s' :
  swapIteration exactIn strat denom accs l s = Ok (l', s') → loop_inv l s →
  keepSwapping limit (lstate l) = true → loop_inv l' s'.
Proof using Hv Hp Ls Hsf Hlim.
  intros Hr Hl Hk.
  destruct (swapIteration_step _ _ _ _ _ _ _ Hr Hl Hk)
    as (t & r & info & it & cp & ain & aout & ch & Hit & Ht & Hr0 & _ & Hdir & Hs).
  by eapply swapStep_inv.
Qed.

Lemma swapLoop_inv fuel exactIn denom accs l s l' s' :
  swapLoop fuel exactIn strat limit denom accs l s = Ok (l', s') → loop_inv l s → loop_inv l' s'.
Proof using Hv Hp Ls Hsf Hlim.
  revert l s. induction fuel as [|fuel IH]; intros l s Hr Hl; cbn [swapLoop] in Hr;
    destruct (keepSwapping limit (lstate l)) eqn:Hk; try (by run_ret Hr); [done|].
  run Hr as l1 s1 H1. apply swapIteration_inv in H1; [|done..]. by apply (IH l1 s1).
Qed.
End loop.
End CLSwapsInv.
