(* ===== verification/CLSwapsProps.v ===== *)
(** Swaps as a whole (CLSwaps): what precedes the loop, and a swap keeps the liquidity invariant. *)
From stdpp Require Import prelude strings list gmap sorting.
From S2P Require Import Prelude.
From S2P Require Import GoBig.
From S2P Require Import GoState.
From S2P Require Import SdkDec.
From S2P Require Import SdkCoins.
From S2P Require Import Decimal.
From S2P Require Import DecimalFacts.
From S2P Require Import Sqrt.
From S2P Require Import CLMath.
From S2P Require Import CLTick.
From S2P Require Import CLTickProps.
From S2P Require Import CLSwapStrategy.
From S2P Require Import CLSwapStrategyProps.
From S2P Require Import Accum.
From S2P Require Import CLPool.
From S2P Require Import CLStore.
From S2P Require Import CLRewards.
From S2P Require Import CLTickStore.
From S2P Require Import CLLp.
From S2P Require Import CLSwaps.
From S2P Require Import CLView.
From S2P Require Import CLInv.
From S2P Require Import CLLpProps.
From S2P Require Import CLIter.
From S2P Require Import CLSwapsInv.
Local Open Scope Z_scope.
Import CLConst CLTick SwapStrategy NewStrategy CLStore CLRewards CLTickStore CLLp CLSwaps CLView CLInv
  CLSwapStrategyProps CLLpProps CLIter CLSwapsInv.

Module CLSwapsProps.
(** *** The limit of a swap without a price limit *)

Section limits.
  Context {D : sdk.LegacyDec} {Ls : sdk.LegacyDecLaws D}.

Lemma sqrt_const (n r : Z) :
  0 ≤ n → Sqrt.sqrt_up n Sqrt.tenTo18 = Ok r → Sqrt.MonotonicSqrtMut (Dec.mk n) = Ok (Dec.mk r).
Proof using Ls.
  intros Hn Hr. unfold Sqrt.MonotonicSqrtMut. rewrite sdk.IsNegative_spec. cbn [Dec.i].
  by rewrite (proj2 (Z.ltb_ge _ _)), Hr by lia.
Qed.

(** No price limit, or the extreme one of the direction. *)
Definition unlimited (priceLimit : BigDec.t) (zfo : bool) : Prop :=
  BigDec.IsZero priceLimit = true ∨ GetPriceLimit zfo = Ok priceLimit.

Lemma unlimited_value priceLimit zfo limit :
  unlimited priceLimit zfo → GetSqrtPriceLimit priceLimit zfo = Ok limit →
  limit = BigDec.mk (if zfo then 10 ^ 30 else 10 ^ 55).
Proof using Ls.
  assert (MinSqrtPriceBigDec = Ok (BigDec.mk (10 ^ 30))) as Hmin.
  { unfold MinSqrtPriceBigDec, MinSqrtPrice, Sqrt.MustMonotonicSqrt, Sqrt.MonotonicSqrt, MinSpotPrice.
    rewrite (sqrt_const (10 ^ 6) (10 ^ 12)) by (try lia; vm_compute; done). by vm_compute. }
  assert (MaxSqrtPriceBigDec = Ok (BigDec.mk (10 ^ 55))) as Hmax.
  { unfold MaxSqrtPriceBigDec, MaxSqrtPrice, Sqrt.MustMonotonicSqrt, Sqrt.MonotonicSqrt, MaxSpotPrice.
    rewrite (sqrt_const (10 ^ 38 * 10 ^ 18) (10 ^ 37)) by (try lia; vm_compute; done). by vm_compute. }
  unfold unlimited, GetSqrtPriceLimit. intros Hu. destruct (BigDec.IsZero priceLimit) eqn:Ez.
  - rewrite Hmin, Hmax. destruct zfo; by intros [= <-].
  - destruct Hu as [|Hu]; [done|]. unfold GetPriceLimit in Hu.
    rewrite CLTickProps.MinSpotPriceBigDec_eq, CLTickProps.MaxSpotPriceBigDec_eq in *.
    rewrite CLTickProps.MinSpotPriceV2_eq, !bind_of_Ok.
    destruct zfo; injection Hu as <-.
    + replace (_ || _) with false by (vm_compute; done).
      replace (BigDec.GTE _ _) with true by (vm_compute; done).
      replace (BigDec.ToDec _) with (Dec.mk (10 ^ 6)) by (vm_compute; done).
      rewrite (sqrt_const (10 ^ 6) (10 ^ 12)) by (try lia; vm_compute; done).
      rewrite bind_of_Ok, BigDecFacts.BigDecFromDecMut_eq. intros [= <-]. f_equal.
    + replace (_ || _) with false by (vm_compute; done).
      replace (BigDec.GTE _ _) with true by (vm_compute; done).
      replace (BigDec.ToDec _) with (Dec.mk (10 ^ 38 * 10 ^ 18)) by (vm_compute; done).
      rewrite (sqrt_const (10 ^ 38 * 10 ^ 18) (10 ^ 37)) by (try lia; vm_compute; done).
      rewrite bind_of_Ok, BigDecFacts.BigDecFromDecMut_eq. intros [= <-]. f_equal.
Qed.

Lemma valid_price_upper sp t r :
  valid_tick sp t → TickToSqrtPrice t = Ok r → BigDec.i r ≤ 10 ^ 55.
Proof using Ls.
  intros Hvt Ht. apply valid_in_range in Hvt as Hrange.
  destruct (CLTickProps.TickToSqrtPrice_spec t Hrange) as (r' & Hr' & Hs).
  rewrite Ht in Hr'. injection Hr' as ->. cbn [BigDec.i].
  rewrite (proj2 (Z.leb_le _ _)) in Hs by by destruct Hvt as [_ [? _]].
  destruct Hs as (s & m & -> & Hm & Hs). pose proof (CLTickProps.price_bounds t Hrange) as [_ Hb].
  enough (s ≤ 10 ^ 37) by lia. eapply CLTickProps.sqrt_bound; [exact Hs|done|].
  change (10 ^ 37 * 10 ^ 37) with (10 ^ 74). lia.
Qed.

Lemma unlimited_beyond priceLimit zfo limit pool0 :
  unlimited priceLimit zfo → GetSqrtPriceLimit priceLimit zfo = Ok limit → limit_beyond pool0 zfo limit.
Proof using Ls.
  intros Hu ->%unlimited_value; [|done]. intros t r Hvt Ht. destruct zfo; cbn [BigDec.i].
  - by eapply valid_price_bound.
  - by eapply valid_price_upper.
Qed.
End limits.

(** *** A swap keeps the invariant *)

Section swaps.
  Context {D : sdk.LegacyDec} {Ls : sdk.LegacyDecLaws D} {C : coin.CoinOps} {A : addr.Addresses}
    {E : Env} {T : Block} {H : Hooks} {Q : QuietHooks H}.

(** Spread factors the loop is proved for: at least 0 and at most 1 - 5*10^-7. *)
Definition spread_ok (sf : Dec.t) : Prop := 0 ≤ Dec.i sf ∧ Dec.i sf + 5 * 10 ^ 11 ≤ Dec.one.

(** The start of the loop of a swap. *)
Record swap_start (exactIn : bool) (p : Z) (specified : SdkInt.t) (inDenom : string) (sf : Dec.t)
    (priceLimit : BigDec.t) (s : store) (limit : BigDec.t) (zfo : bool) (pool0 : Pool.Pool)
    (l : loopState) (s1 : store) : Prop := {
  ss_pool : vpools (view_of s) !! p = Some pool0;
  ss_direction : zfo = getZeroForOne inDenom (Pool.Token0 pool0);
  ss_limit : GetSqrtPriceLimit priceLimit zfo = Ok limit;
  ss_view : view_of s1 = view_of s;
  ss_inv : loop_inv (view_of s) p pool0 zfo limit sf l s1;
  ss_remaining : Dec.i (amountSpecifiedRemaining (lstate l)) = SdkInt.i specified * Dec.one;
  ss_calculated : Dec.i (amountCalculated (lstate l)) = 0;
  ss_progress : lnoProgress l = 0
}.

(** Everything [runSwap] does before the loop. *)
Definition swap_prep (p : Z) (specified : SdkInt.t) (inDenom outDenom : string)
    (sf : Dec.t) (priceLimit : BigDec.t) (upd : bool)
    : M store (option AccumulatorObject * SwapStrategy * BigDec.t * option (AccumulatorObject * Dec.t) *
               loopState) :=
  '(pool, acc) ← swapSetup p inDenom outDenom upd;
  '(strategy, limit) ← lift (setupSwapStrategy pool sf inDenom priceLimit);
  accs ← match acc with
         | None => mret None
         | Some a => factor ← getSpreadFactorScalingFactorForPool p; mret (Some (a, factor))
         end;
  let ss := newSwapState specified pool strategy in
  it ← InitializeNextTickIterator (ZeroForOne strategy) p (tick ss);
  mret (acc, strategy, limit, accs, {| lstate := ss; literator := it; lpool := pool; lnoProgress := 0 |}).

Lemma runSwap_split fuel exactIn p specified inDenom outDenom sf priceLimit upd s :
  runSwap fuel exactIn p specified inDenom outDenom sf priceLimit upd s =
  (swap_prep p specified inDenom outDenom sf priceLimit upd ≫= λ q,
     let '(acc, strategy, limit, accs, l) := q in
     l' ← swapLoop fuel exactIn strategy limit inDenom accs l; mret (lstate l', acc)) s.
Proof using.
  unfold runSwap, swap_prep, mbind, M_bind. destruct (swapSetup _ _ _ _ s) as [[[pool acc] s1]| |]; [|done..].
  destruct (lift _ s1) as [[[strategy limit] s2]| |]; [|done..].
  destruct acc as [a|].
  - destruct (getSpreadFactorScalingFactorForPool p s2) as [[factor s3]| |]; [|done..].
    unfold mret, M_ret. cbv beta iota zeta.
    by destruct (InitializeNextTickIterator _ _ _ _) as [[it s4]| |].
  - unfold mret, M_ret. cbv beta iota zeta.
    by destruct (InitializeNextTickIterator _ _ _ _) as [[it s4]| |].
Qed.

Lemma swap_prep_start (exactIn : bool) p specified inDenom outDenom sf priceLimit upd s acc strategy limit accs l s1 :
  swap_prep p specified inDenom outDenom sf priceLimit upd s
    = Ok ((acc, strategy, limit, accs, l), s1) →
  inv (view_of s) →
  ∃ zfo pool0, swap_start exactIn p specified inDenom sf priceLimit s limit zfo pool0 l s1 ∧
    strategy = New zfo limit sf.
Proof using Ls.
  unfold swap_prep. intros Hr Hv. run Hr as setup s2 H1. destruct setup as [pool a].
  unfold swapSetup in H1. run H1 as pool1 s3 H2. unfold getPoolForSwap in H2.
  run H2 as pool2 s4 H3. apply getPoolById_Ok in H3 as [<- Hpool]. run_require H2 as Hhas. run_ret H2.
  run_lift H1 as u Hden.
  assert (pool = pool2 ∧ view_of s2 = view_of s) as [-> Hs1].
  { destruct upd; [run H1 as b s4 H3; eapply run_eqv in H3; [|apply keeps_GetSpread]|];
      by apply st_ret_Ok in H1 as [[= <- <-] <-]. }
  run_lift Hr as q Hq. destruct q as [strat limit0]. unfold setupSwapStrategy in Hq.
  set (zfo := getZeroForOne inDenom (Pool.Token0 pool2)) in *.
  apply bind_Ok in Hq as (limit1 & Hl & Hq). apply bind_Ok in Hq as (u1 & _ & [= <- <-]).
  assert (GetSqrtPriceLimit priceLimit zfo = Ok limit1) as Hlimit by
    (destruct (GetSqrtPriceLimit priceLimit zfo); [done|discriminate|done]).
  run Hr as accs0 s4 H4.
  assert (view_of s4 = view_of s) as Hs4.
  { destruct a as [a|]; [run H4 as f s5 H5; eapply run_eqv in H5; [|apply keeps_spread_factor]|];
      run_ret H4; congruence. }
  run Hr as it s5 H5. apply InitializeNextTickIterator_ok in H5 as [<- Hit]. rewrite Hs4 in Hit.
  replace (ZeroForOne (New zfo limit1 sf)) with zfo in Hit by by destruct zfo.
  apply st_ret_Ok in Hr as [[= <- <- <- <- <-] <-].
  destruct (pool_has_position p pool2 s Hv Hpool) as ((Hid & Hsp & Hliq & _ & Hpok) & Hpos & _).
  specialize (Hpos Hhas). cbn in Hpok, Hliq, Hsp.
  exists zfo, (pool_core pool2). split; [|done].
  split; cbn; try done.
  - by rewrite lookup_fmap, Hpool.
  - split; cbn; try done; [|by apply Hpok].
    apply store_ok_start; [|exact Hs4]. by apply view_pool.
  - by rewrite sdk.ToLegacyDec_spec.
Qed.

Lemma runSwap_start fuel exactIn p specified inDenom outDenom sf priceLimit upd s r s' :
  runSwap fuel exactIn p specified inDenom outDenom sf priceLimit upd s = Ok (r, s') →
  inv (view_of s) →
  ∃ limit zfo pool0 l s1 accs l',
    swap_start exactIn p specified inDenom sf priceLimit s limit zfo pool0 l s1 ∧
    swapLoop fuel exactIn (New zfo limit sf) limit inDenom accs l s1 = Ok (l', s') ∧ r.1 = lstate l'.
Proof using Ls.
  rewrite runSwap_split. intros Hr Hv. run Hr as q s1 Hq. destruct q as [[[[acc strategy] limit] accs] l].
  apply (swap_prep_start exactIn) in Hq as (zfo & pool0 & Hstart & ->); [|done].
  run Hr as l' s2 Hl. apply st_ret_Ok in Hr as [<- <-].
  by exists limit, zfo, pool0, l, s1, accs, l'.
Qed.

Lemma runSwap_inv fuel exactIn p specified inDenom outDenom sf priceLimit upd s r s' :
  runSwap fuel exactIn p specified inDenom outDenom sf priceLimit upd s = Ok (r, s') →
  inv (view_of s) → spread_ok sf →
  (∀ pool, vpools (view_of s) !! p = Some pool →
    unlimited priceLimit (getZeroForOne inDenom (Pool.Token0 pool))) →
  ∃ pool0 zfo limit l, vpools (view_of s) !! p = Some pool0 ∧ lstate l = r.1 ∧
    loop_inv (view_of s) p pool0 zfo limit sf l s'.
Proof using Ls.
  intros Hr Hv Hsf Hu. eapply runSwap_start in Hr; [|done].
  destruct Hr as (limit & zfo & pool0 & l & s1 & accs & l' & [B1 B2 B3 B4 B5 B6 B7 B8] & Hloop & Hres).
  specialize (Hu pool0 B1). rewrite <- B2 in Hu.
  pose proof (unlimited_beyond priceLimit zfo limit pool0 Hu B3) as Hlim.
  exists pool0, zfo, limit, l'. split; [done|]. split; [done|]. by eapply swapLoop_inv.
Qed.

Lemma keeps_or_err {B} (m : M store B) e : keeps eqv m → keeps eqv (or_err m e).
Proof using.
  intros Hm s b s' Hr. unfold or_err in Hr. destruct (m s) as [[b1 s1]| |] eqn:Em; [|done..].
  rewrite <- Em in Hr. by apply (Hm s b s').
Qed.

Lemma ApplySwap_Ok l c price pool pool' :
  Pool.ApplySwap l c price pool = Ok pool' →
  pool' = Pool.SetCurrentSqrtPrice price (Pool.SetCurrentTick c (Pool.with_liquidity l pool)).
Proof using.
  unfold Pool.ApplySwap. destruct (sdk.IsNegative l); [done|].
  destruct (BigDec.IsNegative price); [done|]. destruct (_ || _); [done|]. by intros [= <-].
Qed.

(** The pool takes over liquidity, tick and price of the swap state. *)
Lemma apply_swap_inv v pool0 zfo limit sf l s1 pool details tot s2 u s' :
  inv v → vpools v !! Pool.Id pool = Some pool0 →
  loop_inv v (Pool.Id pool) pool0 zfo limit sf l s1 → view_of s2 = view_of s1 →
  updatePoolForSwap pool details (poolUpdatesOf (lstate l)) tot s2 = Ok (u, s') →
  inv (view_of s') ∧ same_book v (view_of s').
Proof using Ls Q.
  intros Hv Hp [S1 S2 S3 S4 S5 S6 S7] Hs2 Hr. set (p := Pool.Id pool) in *.
  eapply store_ok_eqv in S1; [|exact Hs2]. destruct S1 as (V1 & V2 & V3 & V5 & x & V4).
  unfold updatePoolForSwap in Hr. fold p in Hr. run Hr as pool1 s0 H0.
  apply getPoolById_Ok in H0 as [<- Hpool1]. apply view_pool in Hpool1. rewrite V4 in Hpool1.
  rewrite lookup_insert_eq in Hpool1. apply (inj Some) in Hpool1.
  run_lift Hr as tu Htu. run_lift Hr as ti Hti. run_lift Hr as c Hc. run_lift Hr as tin Htin.
  run_lift Hr as pa Hpa. run Hr as u1 s3 H1. run Hr as u2 s4 H2. run_lift Hr as pa2 Hpa2.
  run Hr as u3 s5 H3. run_lift Hr as pool2 Happ. apply ApplySwap_Ok in Happ. run Hr as u4 s6 H4.
  eapply run_eqv in Hr; [|apply AfterConcentratedPoolSwap_quiet]. apply setPool_Ok in H4.
  eapply run_eqv in H1; [|apply keeps_or_err, keeps_on_bank].
  eapply run_eqv in H2; [|destruct (negb _); [|apply keeps_ret; typeclasses eauto];
    apply keeps_bind; [typeclasses eauto|apply keeps_lift; typeclasses eauto|];
    intros; apply keeps_or_err, keeps_on_bank].
  eapply run_eqv in H3; [|apply keeps_or_err, keeps_on_bank].
  assert (view_of s' = put_pool pool2 v) as ->.
  { rewrite Hr, H4, H3, H2, H1. unfold put_pool. rewrite V1, V2, V3, V4, V5. f_equal.
    assert (Pool.Id pool2 = p) as ->; [|by rewrite insert_insert_eq].
    subst pool2. apply (f_equal Pool.Id) in Hpool1. cbn in Hpool1 |- *. rewrite <- Hpool1.
    by destruct (inv_pools v Hv p pool0 Hp). }
  split; [|done]. destruct (inv_pools v Hv p pool0 Hp) as (Hid & Hsp & _).
  assert (Pool.Id pool2 = p ∧ Pool.TickSpacing pool2 = Pool.TickSpacing pool0) as [Hid2 Hsp2].
  { subst pool2. cbn. split; [apply (f_equal Pool.Id) in Hpool1|apply (f_equal Pool.TickSpacing) in Hpool1];
      cbn in Hpool1; by rewrite <- Hpool1. }
  apply inv_put_pool; [done| | |].
  - rewrite Hid2. split; [done|]. rewrite Hsp2. split; [done|]. subst pool2. cbn. split; [exact S3|].
    split; [by left|]. intros _. exact S5.
  - rewrite Hid2, Hsp2. intros pl. rewrite Hp. by intros [= <-].
  - intros k q _ _. subst pool2. exact S4.
Qed.

Lemma addSpreadRewards_eqv acc g : keeps eqv (addSpreadRewards acc g).
Proof using. unfold addSpreadRewards. keeps_tac. Qed.

Lemma computeOut_inv fuel p tokenIn outDenom sf priceLimit upd s r s' :
  computeOutAmtGivenIn fuel p tokenIn outDenom sf priceLimit upd s = Ok (r, s') →
  inv (view_of s) → spread_ok sf →
  (∀ pool, vpools (view_of s) !! p = Some pool →
    unlimited priceLimit (getZeroForOne (coin.Denom tokenIn) (Pool.Token0 pool))) →
  ∃ pool0 zfo limit l s1, vpools (view_of s) !! p = Some pool0 ∧
    loop_inv (view_of s) p pool0 zfo limit sf l s1 ∧ view_of s' = view_of s1 ∧
    r.2 = poolUpdatesOf (lstate l).
Proof using Ls.
  unfold computeOutAmtGivenIn. intros Hr Hv Hsf Hu. run Hr as q s1 H1.
  eapply runSwap_inv in H1; [|done..]. destruct H1 as (pool0 & zfo & limit & l & Hp & Hl & Hinv).
  destruct q as [ss acc]. cbn in Hl. subst ss. run_require Hr as H2. run Hr as u s2 H3.
  eapply run_eqv in H3; [|apply addSpreadRewards_eqv].
  run_lift Hr as c1 H4. run_lift Hr as c2 H5. run_lift Hr as c3 H6. run_lift Hr as c4 H7.
  apply st_ret_Ok in Hr as [<- <-]. by exists pool0, zfo, limit, l, s1.
Qed.

Lemma computeIn_inv fuel tokenOut inDenom sf priceLimit p upd s r s' :
  computeInAmtGivenOut fuel tokenOut inDenom sf priceLimit p upd s = Ok (r, s') →
  inv (view_of s) → spread_ok sf →
  (∀ pool, vpools (view_of s) !! p = Some pool →
    unlimited priceLimit (getZeroForOne inDenom (Pool.Token0 pool))) →
  ∃ pool0 zfo limit l s1, vpools (view_of s) !! p = Some pool0 ∧
    loop_inv (view_of s) p pool0 zfo limit sf l s1 ∧ view_of s' = view_of s1 ∧
    r.2 = poolUpdatesOf (lstate l).
Proof using Ls.
  unfold computeInAmtGivenOut. intros Hr Hv Hsf Hu. run Hr as q s1 H1.
  eapply runSwap_inv in H1; [|done..]. destruct H1 as (pool0 & zfo & limit & l & Hp & Hl & Hinv).
  destruct q as [ss acc]. cbn in Hl. subst ss. run_require Hr as H2. run Hr as u s2 H3.
  eapply run_eqv in H3; [|apply addSpreadRewards_eqv].
  run_lift Hr as c1 H4. run_lift Hr as c2 H5. run_lift Hr as c3 H6. run_lift Hr as c4 H7.
  apply st_ret_Ok in Hr as [<- <-]. by exists pool0, zfo, limit, l, s1.
Qed.

(** The caller passes the stored pool. *)
Definition is_stored (pool : Pool.Pool) (v : view) : Prop :=
  vpools v !! Pool.Id pool = Some (pool_core pool).

Lemma SwapExactAmountIn_inv fuel sender pool tokenIn outDenom outMin sf s r s' :
  SwapExactAmountIn fuel sender pool tokenIn outDenom outMin sf s = Ok (r, s') →
  inv (view_of s) → is_stored pool (view_of s) → spread_ok sf →
  inv (view_of s') ∧ same_book (view_of s) (view_of s').
Proof using Ls Q.
  unfold SwapExactAmountIn. intros Hr Hv Hst Hsf. run_require Hr as H1. run Hr as u1 s1 H2.
  eapply run_eqv in H2; [|apply keeps_listener]. run_lift Hr as priceLimit Hpl.
  run Hr as q s2 H3. unfold swapOutAmtGivenIn in H3. run H3 as q1 s3 H4.
  apply computeOut_inv in H4; [|by rewrite H2|done|].
  2:{ intros pl. rewrite H2, Hst. intros [= <-]. right. exact Hpl. }
  destruct H4 as (pool0 & zfo & limit & l & s4 & Hp & Hinv & Hs3 & Hupd). rewrite H2 in *.
  destruct q1 as [res upd]. cbn in Hupd. subst upd. run_lift H3 as cin Hcin. run_lift H3 as cout Hcout.
  run_require H3 as H5. run H3 as u2 s5 H6. eapply (apply_swap_inv (view_of s) pool0 zfo limit sf l s4) in H6; [|done..].
  apply st_ret_Ok in H3 as [<- <-]. eapply run_eqv in Hr; [by rewrite Hr|]. keeps_tac.
Qed.

Lemma SwapExactAmountOut_inv fuel sender pool inDenom inMax tokenOut sf s r s' :
  SwapExactAmountOut fuel sender pool inDenom inMax tokenOut sf s = Ok (r, s') →
  inv (view_of s) → is_stored pool (view_of s) → spread_ok sf →
  inv (view_of s') ∧ same_book (view_of s) (view_of s').
Proof using Ls Q.
  unfold SwapExactAmountOut. intros Hr Hv Hst Hsf. run_require Hr as H1. run Hr as u1 s1 H2.
  eapply run_eqv in H2; [|apply keeps_listener]. run_lift Hr as priceLimit Hpl.
  run Hr as q s2 H3. unfold swapInAmtGivenOut in H3. run H3 as q1 s3 H4.
  apply computeIn_inv in H4; [|by rewrite H2|done|].
  2:{ intros pl. rewrite H2, Hst. intros [= <-]. right. exact Hpl. }
  destruct H4 as (pool0 & zfo & limit & l & s4 & Hp & Hinv & Hs3 & Hupd). rewrite H2 in *.
  destruct q1 as [res upd]. cbn in Hupd. subst upd. run_lift H3 as cin Hcin. run_lift H3 as cout Hcout.
  run_require H3 as H5. run H3 as u2 s5 H6. eapply (apply_swap_inv (view_of s) pool0 zfo limit sf l s4) in H6; [|done..].
  apply st_ret_Ok in H3 as [<- <-]. eapply run_eqv in Hr; [by rewrite Hr|]. keeps_tac.
Qed.
End swaps.
End CLSwapsProps.
