(* ===== verification/CLDemo.v ===== *)
(** The concentrated-liquidity module run on concrete inputs: the reference decimals and coins of SdkDec
    and SdkCoins, a bank that pays everything, no locks, no contracts and no listeners. *)
From stdpp Require Import prelude strings list gmap.
From S2P Require Import Prelude.
From S2P Require Import GoBig.
From S2P Require Import GoState.
From S2P Require Import SdkDec.
From S2P Require Import SdkCoins.
From S2P Require Import Decimal.
From S2P Require Import Accum.
From S2P Require Import CLPool.
From S2P Require Import CLStore.
From S2P Require Import CLLp.
From S2P Require Import CLPools.
From S2P Require Import CLSwaps.
From S2P Require Import CLView.
Local Open Scope Z_scope.
Import CLStore CLLp CLPools CLSwaps CLView.

Module CLDemo.
#[local] Existing Instances sdk.ref_dec coin.ref_coins.

Definition demo_addresses : addr.Addresses := {|
  addr.AddressString a := a;
  addr.AccAddressFromBech32 a := Ok a;
  addr.NewPoolAddress _ := "pool"%string;
  addr.NewModuleAddressWithPrefix m p _ := String.append m p
|}.
#[local] Existing Instance demo_addresses.

Definition spread : Dec.t := Dec.mk (3 * 10 ^ 15).
Definition demo_params : Params := {|
  AuthorizedTickSpacing := [10; 100]; AuthorizedSpreadFactors := [spread];
  AuthorizedQuoteDenoms := ["usdc"%string]; AuthorizedUptimes := [1];
  IsPermissionlessPoolCreationEnabled := true; UnrestrictedPoolCreatorWhitelist := []
|}.

Definition demo_env : Env := {|
  World := unit;
  SendCoins _ _ _ w := Ok w;
  HasBalance _ _ _ := true;
  GetBalance _ _ d := {| coin.Denom := d; coin.Amount := SdkInt.mk 0 |};
  MintCoins _ _ w := Ok w;
  GetLockByID _ _ := LockNotFound;
  CreateLockNoSend _ _ _ w := Ok (1, w);
  BeginForceUnlock _ _ w := Ok (1, w);
  GetModuleAccountAddress m := m;
  GetParams _ := demo_params;
  PoolManagerQuoteDenoms _ := ["usdc"%string]
|}.
#[local] Existing Instance demo_env.
Definition demo_block : Block := {| BlockTime := 10 ^ 9 |}.
#[local] Existing Instance demo_block.

Definition demo_hooks : Hooks := {|
  Sudo _ _ _ _ := mret tt;
  AfterConcentratedPoolCreated _ _ := mret tt;
  AfterInitialPoolPositionCreated _ _ := mret tt;
  AfterLastPoolPositionRemoved _ _ := mret tt;
  AfterConcentratedPoolSwap _ _ _ _ := mret tt
|}.
#[local] Existing Instance demo_hooks.

#[export] Instance demo_quiet : QuietHooks demo_hooks.
Proof. split; intros; apply keeps_ret; typeclasses eauto. Qed.

(** *** A run: a pool, a position, a swap, a second position, a swap that crosses a tick *)

Definition demo_empty : store := {|
  pools := ∅; ticks := ∅; positions := ∅; addressPoolPosition := ∅; poolPosition := ∅;
  positionToLock := ∅; lockToPosition := ∅; fullRangeLiquidity := ∅; denomLiquidity := ∅;
  incentiveRecords := ∅; accums := {| Accum.accumulators := ∅; Accum.records := ∅ |};
  nextPositionId := 1; nextIncentiveRecordId := 1; incentiveThreshold := Some 0;
  spreadThreshold := Some 0; hookContracts := ∅; world := tt
|}.

Definition after {B} (m : M store B) (s : store) : store :=
  match m s with Ok (_, s') => s' | _ => s end.

Definition coins (d : string) (n : Z) : coin.Coin := {| coin.Denom := d; coin.Amount := SdkInt.mk n |}.
Definition demo_pool : Pool.Pool := {|
  Pool.Address := "pool"; Pool.IncentivesAddress := "concentratedliquidityincentives";
  Pool.SpreadRewardsAddress := "concentratedliquidityspreadRewards"; Pool.Id := 1;
  Pool.CurrentTickLiquidity := Dec.mk 0; Pool.Token0 := "eth"; Pool.Token1 := "usdc";
  Pool.CurrentSqrtPrice := BigDec.mk 0; Pool.CurrentTick := 0; Pool.TickSpacing := 100;
  Pool.PoolExponentAtPriceOne := -6; Pool.SpreadFactor := spread; Pool.LastLiquidityUpdate := 0
|}.
Lemma demo_pool_new : Pool.NewConcentratedLiquidityPool 1 "eth" "usdc" 100 spread = Ok demo_pool.
Proof. by vm_compute. Qed.
Definition stored_pool (s : store) : Pool.Pool := default demo_pool (pools s !! 1).

Abbreviation create_pool := (InitializePool demo_pool "alice").
Abbreviation add_position lo hi :=
  (MsgCreatePosition "alice" 1 [coins "eth" (10 ^ 6); coins "usdc" (5 * 10 ^ 9)] (SdkInt.mk 0)
    (SdkInt.mk 0) lo hi).
Abbreviation swap s inDenom outDenom n :=
  (SwapExactAmountIn 20 "bob" (stored_pool s) (coins inDenom n) outDenom (SdkInt.mk 0) spread).
Abbreviation finer := (DecreaseConcentratedPoolTickSpacing [(1, 10)]).
Definition liquidity_of (s : store) (k : Z) : Dec.t :=
  match positions s !! k with Some q => Liquidity q | None => Dec.mk 0 end.
Abbreviation withdraw s k := (MsgWithdrawPosition "alice" k (liquidity_of s k)).
End CLDemo.
