(* ===== verification/CLReach.v ===== *)
(** Reachable states of the concentrated-liquidity module: its entry points as a step relation, and
    the invariant every reachable state satisfies.  One entry point is guarded, the proposal that
    decreases tick spacings: it must find the pools' ticks in agreement with their prices on the finer grid.
    The code does not see to that, and [spacing_breaks_books] is a run without it. *)
From stdpp Require Import prelude strings list gmap relations.
From S2P Require Import Prelude.
From S2P Require Import GoBig.
From S2P Require Import GoState.
From S2P Require Import SdkDec.
From S2P Require Import SdkCoins.
From S2P Require Import Decimal.
From S2P Require Import CLTick.
From S2P Require Import ZSums.
From S2P Require Import CLPool.
From S2P Require Import CLStore.
From S2P Require Import CLRewards.
From S2P Require Import CLTickStore.
From S2P Require Import CLClaims.
From S2P Require Import CLPosition.
From S2P Require Import CLLp.
From S2P Require Import CLPools.
From S2P Require Import CLSwaps.
From S2P Require Import CLView.
From S2P Require Import CLInv.
From S2P Require Import CLLpProps.
From S2P Require Import CLSwapsInv.
From S2P Require Import CLSwapsProps.
From S2P Require Import CLDemo.
Local Open Scope Z_scope.
Import CLConst CLTick CLStore CLRewards CLTickStore CLClaims CLPosition CLLp CLPools CLSwaps CLView CLInv
  CLLpProps CLSwapsProps CLDemo.

Module CLReach.
Section reach.
  Context {D : sdk.LegacyDec} {C : coin.CoinOps} {A : addr.Addresses} {E : Env} {T : Block} {H : Hooks}.

(** A pool fresh from its constructor, with a spacing that is a positive [int64]. *)
Definition new_pool (pool : Pool.Pool) (s : store) : Prop :=
  (∃ k d0 d1 spacing sf, Pool.NewConcentratedLiquidityPool k d0 d1 spacing sf = Ok pool) ∧
  pools s !! Pool.Id pool = None ∧ 0 < Pool.TickSpacing pool < 2 ^ 63.

(** On a grid of spacing [sp] the tick of a pool agrees with its price: no point of the grid is between it
    and the tick of the price, or the price is exactly a tick's and was reached from above.  A pool
    without positions has no price. *)
Definition tick_settled (sp : Z) (pool : Pool.Pool) : bool :=
  (BigDec.i (Pool.CurrentSqrtPrice pool) =? 0) ||
  match CalculateSqrtPriceToTick (Pool.CurrentSqrtPrice pool) with
  | Ok t => (Pool.CurrentTick pool / sp =? t / sp) ||
      ((Pool.CurrentTick pool =? t - 1) &&
       match TickToSqrtPrice t with
       | Ok r => BigDec.i r =? BigDec.i (Pool.CurrentSqrtPrice pool) | _ => false end)
  | _ => false
  end.
(** Each pool of a proposal is so when its turn comes, and gets a divisor of its spacing. *)
Fixpoint spacings_settled (s : store) (records : list (Z * Z)) : bool :=
  match records with
  | [] => true
  | (p, sp) :: records =>
    match pools s !! p with
    | Some pool => (0 <? sp) && (Pool.TickSpacing pool mod sp =? 0) && tick_settled sp pool &&
        spacings_settled (set_pools (insert (Pool.Id pool) (Pool.SetTickSpacing sp pool)) s) records
    | None => true
    end
  end.

(** What the outside can make the module do: the handlers of its messages and of its proposal, and the
    calls of other modules that create pools, full-range positions and incentives, withdraw, and swap.  [who]
    is the account the step is made for, the signer of a message.  A swap is given the stored pool and a spread
    factor the loop is proved for. *)
Definition signer (sender : string) (who : addr.AccAddress) : Prop :=
  addr.AccAddressFromBech32 sender = Ok who.

Inductive cl_step (who : addr.AccAddress) (s : store) : store → Prop :=
| StepInitializePool pool u s' :
    new_pool pool s → InitializePool pool who s = Ok (u, s') → cl_step who s s'
| StepCreatePosition sender p toks m0 m1 lo hi r s' :
    signer sender who →
    MsgCreatePosition sender p toks m0 m1 lo hi s = Ok (r, s') → cl_step who s s'
| StepAddToPosition sender k a0 a1 m0 m1 r s' :
    signer sender who →
    MsgAddToPosition sender k a0 a1 m0 m1 s = Ok (r, s') → cl_step who s s'
| StepWithdrawPosition sender k l r s' :
    signer sender who → MsgWithdrawPosition sender k l s = Ok (r, s') → cl_step who s s'
| StepTransferPositions sender ks owner u s' :
    signer sender who → MsgTransferPositions sender ks owner s = Ok (u, s') → cl_step who s s'
| StepCollectSpreadRewards sender ks r s' :
    signer sender who → MsgCollectSpreadRewards sender ks s = Ok (r, s') → cl_step who s s'
| StepCollectIncentives sender ks r s' :
    signer sender who → MsgCollectIncentives sender ks s = Ok (r, s') → cl_step who s s'
| StepCreateIncentive p c rate start uptime r s' :
    CreateIncentive p who c rate start uptime s = Ok (r, s') → cl_step who s s'
| StepFullRangeLocked p coins d r s' :
    CreateFullRangePositionLocked p who coins d s = Ok (r, s') → cl_step who s s'
| StepFullRangeUnlocking p coins d r s' :
    CreateFullRangePositionUnlocking p who coins d s = Ok (r, s') → cl_step who s s'
| StepFullRange p coins r s' : CreateFullRangePosition p who coins s = Ok (r, s') → cl_step who s s'
| StepKeeperWithdraw k l r s' : WithdrawPosition who k l s = Ok (r, s') → cl_step who s s'
| StepSwapExactAmountIn fuel pool tokenIn outDenom outMin sf r s' :
    is_stored pool (view_of s) → spread_ok sf →
    SwapExactAmountIn fuel who pool tokenIn outDenom outMin sf s = Ok (r, s') → cl_step who s s'
| StepSwapExactAmountOut fuel pool inDenom inMax tokenOut sf r s' :
    is_stored pool (view_of s) → spread_ok sf →
    SwapExactAmountOut fuel who pool inDenom inMax tokenOut sf s = Ok (r, s') → cl_step who s s'
| StepDecreaseTickSpacing records u s' :
    spacings_settled s records = true →
    DecreaseConcentratedPoolTickSpacing records s = Ok (u, s') → cl_step who s s'.

(** A module without pools. *)
Definition initial (s : store) : Prop :=
  pools s = ∅ ∧ ticks s = ∅ ∧ positions s = ∅ ∧ poolPosition s = ∅ ∧ 0 ≤ nextPositionId s < 2 ^ 64.

Lemma initial_inv s : initial s → inv (view_of s).
Proof.
  intros (E1 & E2 & E3 & E4 & _). split.
  - intros k pl. cbn. by rewrite E1, fmap_empty.
  - intros k q. cbn. by rewrite E3.
  - intros p t. unfold tick_ok, vtick. cbn. rewrite E2, E3, fmap_empty. unfold pos_sum.
    by rewrite !map_sum_empty.
  - intros p t. cbn. rewrite E2, fmap_empty. by intros [? ?].
Qed.

Section preserved.
  Context {Ls : sdk.LegacyDecLaws D} {Q : QuietHooks H}.

Lemma NewPool_Ok k d0 d1 spacing sf pool :
  Pool.NewConcentratedLiquidityPool k d0 d1 spacing sf = Ok pool →
  Dec.i (Pool.CurrentTickLiquidity pool) = 0 ∧ BigDec.i (Pool.CurrentSqrtPrice pool) = 0 ∧
  Pool.CurrentTick pool = 0.
Proof using.
  unfold Pool.NewConcentratedLiquidityPool. destruct (String.eqb _ _); [done|].
  destruct (_ || _); [done|]. by intros [= <-].
Qed.

Lemma InitializePool_inv pool creator s u s' :
  InitializePool pool creator s = Ok (u, s') → new_pool pool s → inv (view_of s) →
  inv (view_of s') ∧ same_book (view_of s) (view_of s').
Proof using Q Ls.
  intros Hr ((k & d0 & d1 & spacing & sf & Hpool) & Hnew & Hsp) Hv.
  apply NewPool_Ok in Hpool. unfold InitializePool in Hr. run_gets Hr. run_gets Hr. run Hr as bypass s1 H1. eapply run_eqv in H1; [|by keeps_tac].
  run Hr as u1 s2 H2. eapply run_eqv in H2; [|by keeps_tac].
  run Hr as u3 s3 H3. eapply run_eqv in H3; [|apply keeps_createSpread].
  run Hr as u4 s4 H4. eapply run_eqv in H4; [|apply keeps_createUptime].
  run Hr as u5 s5 H5. apply setPool_Ok in H5.
  eapply run_eqv in Hr; [|apply AfterConcentratedPoolCreated_quiet].
  rewrite Hr, H5, H4, H3, H2, H1. split; [|done]. destruct Hpool as (Hl & Hp & Ht).
  apply inv_put_empty; try done; cbn; try congruence.
  - intros pl. by rewrite lookup_fmap, Hnew.
  - intros j q Hj Hq. destruct (inv_positions _ Hv j q Hj) as (_ & _ & _ & _ & pl & Hpl & _).
    cbn in Hpl. by rewrite lookup_fmap, Hq, Hnew in Hpl.
  - by right.
  - rewrite Hp. lia.
Qed.

(** A pool that is settled on the finer grid keeps the books when its spacing is decreased to it. *)
Lemma tick_settled_price_ok sp pool :
  0 < sp → tick_settled sp pool = true → 0 < BigDec.i (Pool.CurrentSqrtPrice pool) →
  price_ok sp (Pool.CurrentTick pool) (Pool.CurrentSqrtPrice pool).
Proof using Ls.
  unfold tick_settled. intros Hsp Hs Hpr. rewrite (proj2 (Z.eqb_neq _ _)) in Hs by lia. cbn [orb] in Hs.
  destruct (CalculateSqrtPriceToTick _) as [t| |] eqn:Et; [|done..].
  intros u r Hu Hr. pose proof (valid_in_range sp u Hu) as Hur.
  destruct (bucket_price_ok _ _ Et) as (_ & Htr & Hb). destruct (Hb u r Hur Hr) as [B1 B2].
  apply orb_true_iff in Hs as [Hs%Z.eqb_eq|[Hc%Z.eqb_eq Hs]%andb_true_iff].
  - assert (∀ x, u ≤ x ↔ u / sp ≤ x / sp) as Hgrid.
    { intros x. split; [by apply Z.div_le_mono|]. destruct Hu as [Hu _]. pose proof (Z.div_mod u sp ltac:(lia)).
      pose proof (Z.div_mod x sp ltac:(lia)). pose proof (Z.mod_pos_bound x sp Hsp). nia. }
    rewrite Z.lt_nge, Hgrid, Hs, <- Hgrid, <- Z.lt_nge. split; [exact B1|]. intros Hlt. by apply Z.lt_le_incl, B2.
  - destruct (TickToSqrtPrice t) as [rt| |] eqn:Ert; [|done..]. apply Z.eqb_eq in Hs. rewrite Hc, <- Hs. split; intros Hlt.
    + apply (sqrt_price_mono_le u t); [done..|lia|done|done].
    + apply (sqrt_price_mono_le t u); [done..|lia|done|done].
Qed.
Lemma inv_finer v pool sp :
  inv v → vpools v !! Pool.Id pool = Some (pool_core pool) → 0 < sp → Pool.TickSpacing pool mod sp = 0 →
  tick_settled sp pool = true → inv (put_pool (Pool.SetTickSpacing sp pool) v).
Proof using Ls.
  intros Hv Hp Hsp Hdiv Hs. pose proof (inv_pools v Hv _ _ Hp) as (_ & [H0 H1] & Hl & Hpr & _). cbn in H0, H1, Hl, Hpr.
  apply inv_put_pool_finer; [done| | |].
  - split; [done|]. cbn. split.
    { split; [done|]. apply Z.mod_divide in Hdiv; [|lia]. apply Z.divide_pos_le in Hdiv; lia. }
    split; [done|]. split; [done|]. by apply tick_settled_price_ok.
  - cbn. rewrite Hp. intros pl t [= <-] [Ht Hr]. split; [|done]. cbn in Ht |- *.
    apply Z.mod_divide in Ht, Hdiv; [|lia..]. apply Z.mod_divide; [lia|]. by transitivity (Pool.TickSpacing pool).
  - intros k q Hk Hq. cbn in Hq |- *. destruct (inv_positions v Hv k q Hk) as (_ & _ & _ & _ & pl & Hpl & H2 & _).
    rewrite Hq, Hp in Hpl. by injection Hpl as <-.
Qed.
Lemma DecreaseTickSpacing_inv records s u s' :
  DecreaseConcentratedPoolTickSpacing records s = Ok (u, s') → spacings_settled s records = true → inv (view_of s) →
  inv (view_of s') ∧ same_book (view_of s) (view_of s').
Proof using Ls.
  unfold DecreaseConcentratedPoolTickSpacing. revert s. induction records as [|[p sp] records IH]; intros s Hr Hs Hv; cbn [for_each] in Hr.
  { by run_ret Hr. }
  run Hr as u1 s1 H1. run H1 as pool s2 Hg. apply getPoolById_Ok in Hg as [<- Hp]. run_gets H1. run_require H1 as Hval.
  unfold setPool in H1. apply st_modify_Ok in H1 as ->. cbn [spacings_settled] in Hs. rewrite Hp in Hs.
  apply andb_true_iff in Hs as [[[H0%Z.ltb_lt Hd%Z.eqb_eq]%andb_true_iff Ht]%andb_true_iff Hs].
  apply view_pool in Hp as Hpv. pose proof (inv_pools _ Hv _ _ Hpv) as (Hid & _). cbn in Hid.
  assert (view_of (set_pools (insert (Pool.Id (Pool.SetTickSpacing sp pool)) (Pool.SetTickSpacing sp pool)) s) =
    put_pool (Pool.SetTickSpacing sp pool) (view_of s)) as Ev by apply (view_setPool (Pool.SetTickSpacing sp pool)).
  destruct (IH _ Hr Hs) as [I1 I2]; [rewrite Ev; apply inv_finer; by rewrite ?Hid|]. split; [done|].
  etransitivity; [|exact I2]. by rewrite Ev.
Qed.

Lemma keeps_CreateIncentive p sender c rate start uptime :
  keeps same (CreateIncentive p sender c rate start uptime).
Proof using.
  unfold CreateIncentive, GetNextIncentiveRecordId, SetNextIncentiveRecordId,
    getAllIncentiveRecordsForUptime. keeps_tac.
Qed.

Lemma keeps_mintSharesAndLock p k owner d : keeps eqv (mintSharesAndLock p k owner d).
Proof using. unfold mintSharesAndLock. keeps_tac. Qed.

#[local] Ltac rewrite_signer H Hw :=
  let a := fresh in let Ha := fresh in
  run_lift H as a Ha; unfold signer in Hw; rewrite Hw in Ha; injection Ha as <-.

(** What a step made for [who] may do to the positions. *)
Inductive book_step (who : addr.AccAddress) (v v' : view) : Prop :=
| BookSame : same_book v v' → book_step who v v'
| BookOpen d : opened who d v v' → book_step who v v'
| BookWithdraw k d : withdrawn who k d v v' → book_step who v v'
| BookMove recipient k : transferred who recipient k v v' → book_step who v v'.

Lemma cl_step_effect who s s' :
  cl_step who s s' → inv (view_of s) →
  inv (view_of s') ∧ rtc (book_step who) (view_of s) (view_of s').
Proof using Q Ls.
  intros Hstep Hv. destruct Hstep as
    [pool u s' Hn Hr|sender p toks m0 m1 lo hi r s' Hw Hr|sender k a0 a1 m0 m1 r s' Hw Hr
    |sender k l r s' Hw Hr|sender ks owner u s' Hw Hr|sender ks r s' Hw Hr|sender ks r s' Hw Hr
    |p c rate start uptime r s' Hr|p coins d r s' Hr|p coins d r s' Hr|p coins r s' Hr|k l r s' Hr
    |fuel pool tokenIn outDenom outMin sf r s' Hst Hsf Hr
    |fuel pool inDenom inMax tokenOut sf r s' Hst Hsf Hr|records u s' Hs Hr].
  - apply InitializePool_inv in Hr as [Hv' Hb]; [|done..]. split; [done|]. by apply rtc_once, BookSame.
  - unfold MsgCreatePosition in Hr. rewrite_signer Hr Hw. apply CreatePosition_inv in Hr as [Hv' Hb]; [|done].
    split; [done|]. by eapply rtc_once, BookOpen.
  - unfold MsgAddToPosition in Hr. rewrite_signer Hr Hw.
    apply addToPosition_inv in Hr as (Hv' & v & d & d' & H1 & H2); [|done]. split; [done|].
    eapply rtc_l; [by eapply BookWithdraw|]. by eapply rtc_once, BookOpen.
  - unfold MsgWithdrawPosition in Hr. rewrite_signer Hr Hw.
    apply WithdrawPosition_inv in Hr as [Hv' Hb]; [|done]. split; [done|]. by eapply rtc_once, BookWithdraw.
  - unfold MsgTransferPositions in Hr. rewrite_signer Hr Hw. run_lift Hr as b Hb.
    apply transferPositions_inv in Hr as [Hv' Ht]; [|done]. split; [done|].
    eapply (rtc_congruence id); [|exact Ht]. intros x y (k & Hk). by eapply BookMove.
  - eapply run_same in Hr; [by rewrite Hr| |by apply inv_ids_ok].
    unfold MsgCollectSpreadRewards. keeps_tac.
  - eapply run_same in Hr; [by rewrite Hr| |by apply inv_ids_ok].
    unfold MsgCollectIncentives. keeps_tac.
  - eapply run_same in Hr; [by rewrite Hr|apply keeps_CreateIncentive|by apply inv_ids_ok].
  - unfold CreateFullRangePositionLocked in Hr. run Hr as data s1 H1.
    apply CreateFullRangePosition_inv in H1 as [Hv1 Hb1]; [|done].
    eapply run_eqv in Hr; [rewrite Hr; split; [done|by eapply rtc_once, BookOpen]|].
    pose proof keeps_mintSharesAndLock. keeps_tac.
  - unfold CreateFullRangePositionUnlocking in Hr. run Hr as data s1 H1.
    apply CreateFullRangePosition_inv in H1 as [Hv1 Hb1]; [|done].
    eapply run_eqv in Hr; [rewrite Hr; split; [done|by eapply rtc_once, BookOpen]|].
    pose proof keeps_mintSharesAndLock. keeps_tac.
  - apply CreateFullRangePosition_inv in Hr as [Hv' Hb]; [|done]. split; [done|]. by eapply rtc_once, BookOpen.
  - apply WithdrawPosition_inv in Hr as [Hv' Hb]; [|done]. split; [done|]. by eapply rtc_once, BookWithdraw.
  - apply SwapExactAmountIn_inv in Hr as [Hv' Hb]; [|done..]. split; [done|]. by apply rtc_once, BookSame.
  - apply SwapExactAmountOut_inv in Hr as [Hv' Hb]; [|done..]. split; [done|]. by apply rtc_once, BookSame.
  - apply DecreaseTickSpacing_inv in Hr as [Hv' Hb]; [|done..]. split; [done|]. by apply rtc_once, BookSame.
Qed.

End preserved.
End reach.

(** *** Histories of the module

    The steps above happen in blocks of any time, with any listeners that leave the module's view
    alone; in between, everything outside the module (balances, parameters, locks) may change. *)
Section history.
  Context {D : sdk.LegacyDec} {C : coin.CoinOps} {A : addr.Addresses} {E : Env}.

Inductive block_step (allowed : addr.AccAddress → Prop) (s : store) : store → Prop :=
| InBlock (T : Block) (H : Hooks) (Q : QuietHooks H) who s' :
    allowed who → cl_step who s s' → block_step allowed s s'
| OtherModules w : block_step allowed s (set_world w s).
(** Anyone may act. *)
Definition history_step : store → store → Prop := block_step (λ _, True).

Lemma history_extend allowed s s' : rtc (block_step allowed) s s' → rtc history_step s s'.
Proof.
  apply (rtc_congruence id). intros x y [T H Q who y' _ Hxy|w]; [by eapply InBlock|apply OtherModules].
Qed.

Lemma history_inv (Ls : sdk.LegacyDecLaws D) s0 s :
  initial s0 → rtc history_step s0 s → inv (view_of s).
Proof.
  intros H0%initial_inv Hr. induction Hr as [|x y z Hxy _ IH]; [done|]. apply IH.
  destruct Hxy as [T H Q who y _ Hxy|w]; [|done]. by apply cl_step_effect in Hxy as [].
Qed.

(** Besides, x/superfluid slashes the position behind a lock (keeper/slash.go): it takes liquidity out of the
    stored position, whoever holds it, and leaves it there with what remains. *)
Inductive module_step (s : store) : store → Prop :=
| InHistory s' : history_step s s' → module_step s s'
| Slashed (T : Block) k q owner slashed r s' :
    positions s !! k = Some q → addr.AccAddressFromBech32 (PAddress q) = Ok owner → 0 ≤ Dec.i slashed →
    UpdatePosition (PoolId q) owner (LowerTick q) (UpperTick q) (sdk.Neg slashed) (JoinTime q) k s = Ok (r, s') →
    module_step s s'.
Lemma module_inv (Ls : sdk.LegacyDecLaws D) s0 s :
  initial s0 → rtc module_step s0 s → inv (view_of s).
Proof.
  intros H0%initial_inv Hr. induction Hr as [|x y z Hxy _ IH]; [done|]. apply IH.
  destruct Hxy as [y [T H Q who y' _ Hxy|w]|T k q owner sl r y Hq _ _ Hr]; [by apply cl_step_effect in Hxy as []|done|].
  apply UpdatePosition_inv in Hr as [Hy _]; [done|done|].
  destruct (inv_positions _ H0 k q Hq) as (_ & _ & Hlt & _ & pl & Hpl). split; [done|]. by exists pl.
Qed.
End history.

(** *** The run of CLDemo as a history *)

#[local] Existing Instances sdk.ref_dec coin.ref_coins demo_addresses demo_env demo_block demo_hooks.

Definition final {B} (o : outcome (B * store)) : option store :=
  match o with Ok (_, s) => Some s | _ => None end.
Lemma run_final {B} (m : M store B) s s' : final (m s) = Some s' → ∃ r, m s = Ok (r, s').
Proof. destruct (m s) as [[r s1]| |]; [intros [= <-]; by exists r|done..]. Qed.
Tactic Notation "run_demo" constr(m) constr(s) constr(s') "as" ident(r) ident(Hr) :=
  destruct (run_final m s s') as (r & Hr); [vm_cast_no_check (eq_refl (Some s'))|].

Definition demo1 : store := Eval vm_compute in after create_pool demo_empty.
Definition demo2 : store := Eval vm_compute in after (add_position 30500000 31500000) demo1.
(** A proposal: ticks that are multiples of ten may be used from now on. *)
Definition demo_finer : store := Eval vm_compute in after finer demo2.
Definition demo3 : store := Eval vm_compute in after (add_position 31000000 31100000) demo_finer.
(** Selling 1000 eth moves the price below tick 31000000, where the second position ends. *)
Definition demo4 : store := Eval vm_compute in after (swap demo3 "eth" "usdc" 1000) demo3.

(** Alice takes her second position out. *)
Definition demo5 : store := Eval vm_compute in after (withdraw demo4 2) demo4.

Abbreviation demo_step := (cl_step (T := demo_block) (H := demo_hooks)).
Lemma step_pool : demo_step "alice" demo_empty demo1.
Proof.
  run_demo create_pool demo_empty demo1 as r Hr. apply (StepInitializePool _ _ demo_pool r); [|exact Hr].
  split; [|split; [reflexivity|cbn [Pool.TickSpacing demo_pool]; lia]].
  exists 1, "eth"%string, "usdc"%string, 100, spread. apply demo_pool_new.
Qed.
Lemma step_position1 : demo_step "alice" demo1 demo2.
Proof. run_demo (add_position 30500000 31500000) demo1 demo2 as r Hr. by eapply StepCreatePosition. Qed.
Lemma step_finer : demo_step "gov" demo2 demo_finer.
Proof. run_demo finer demo2 demo_finer as r Hr. eapply StepDecreaseTickSpacing; [|exact Hr]. by vm_compute. Qed.
Lemma step_position2 : demo_step "alice" demo_finer demo3.
Proof. run_demo (add_position 31000000 31100000) demo_finer demo3 as r Hr. by eapply StepCreatePosition. Qed.
Lemma step_swap : demo_step "bob" demo3 demo4.
Proof.
  run_demo (swap demo3 "eth" "usdc" 1000) demo3 demo4 as r Hr.
  apply (StepSwapExactAmountIn _ _ 20 (stored_pool demo3) (coins "eth" 1000) "usdc" (SdkInt.mk 0)
    spread r); [vm_compute; reflexivity|split; vm_compute; discriminate|exact Hr].
Qed.
Lemma step_withdraw : demo_step "alice" demo4 demo5.
Proof. run_demo (withdraw demo4 2) demo4 demo5 as r Hr. by eapply StepWithdrawPosition. Qed.

Lemma in_demo_block allowed who s s' :
  allowed who → demo_step who s s' → block_step allowed s s'.
Proof. apply (InBlock _ _ demo_block demo_hooks demo_quiet who). Qed.
Lemma demo_history3 : rtc history_step demo_empty demo3.
Proof.
  eapply rtc_l; [eapply in_demo_block, step_pool; done|].
  eapply rtc_l; [eapply in_demo_block, step_position1; done|].
  eapply rtc_l; [eapply in_demo_block, step_finer; done|].
  eapply rtc_once, in_demo_block, step_position2; done.
Qed.
Lemma demo_in_module s s' : rtc (history_step (E := demo_env)) s s' → rtc (module_step (E := demo_env)) s s'.
Proof. apply (rtc_congruence id). intros x y. apply InHistory. Qed.
Lemma demo_history : rtc history_step demo_empty demo4.
Proof. eapply rtc_r; [apply demo_history3|]. eapply in_demo_block, step_swap; done. Qed.

(** *** A spacing that is decreased too early

    The first position is made at a price of 5000.05, which is tick 31000050; the pool's tick is rounded
    down to its spacing, 31000000.  The spacing is decreased, the tick stays, and a position is made
    between the two.  It is below the price, but the pool takes it to be above.  A sale then moves
    the price down to tick 31000022, in the range of that position, and the tick of the pool is computed from the price; the
    liquidity of the position is never added. *)
Definition early1 : store := Eval vm_compute in
  after (MsgCreatePosition "alice" 1 [coins "eth" (10 ^ 6); coins "usdc" (5000050 * 10 ^ 3)] (SdkInt.mk 0) (SdkInt.mk 0)
    30500000 31500000) demo1.
Definition early2 : store := Eval vm_compute in after finer early1.
Definition early3 : store := Eval vm_compute in after (add_position 31000010 31000040) early2.
Definition early4 : store := Eval vm_compute in after (swap early3 "eth" "usdc" 54) early3.
Lemma spacing_breaks_books :
  final (finer early1) = Some early2 ∧ final (add_position 31000010 31000040 early2) = Some early3 ∧
  final (swap early3 "eth" "usdc" 54 early3) = Some early4 ∧
  spacings_settled early1 [(1, 10)] = false ∧ Pool.CurrentTick (stored_pool early4) = 31000022 ∧
  Dec.i (Pool.CurrentTickLiquidity (stored_pool early4)) <
    map_sum (λ _ q, covers 1 (Pool.CurrentTick (stored_pool early4)) q * Dec.i (Liquidity q)) (positions early4).
Proof. split_and!; by vm_compute. Qed.

(** *** The property *)

(** C1. In every state the module can reach from an empty one, the books agree: the liquidity a pool swaps against is the sum
    of the liquidity of exactly the positions whose range holds its current tick; a tick's gross liquidity is the sum of
    the positions ending at it, and its net liquidity the sum of those starting minus those ending
    there (so a tick where a position with liquidity ends is stored); the ticks of
    positions are ordered multiples of the pool's spacing within the supported range.  Reachable is what any sequence of these gives, in blocks of any
    time: the message handlers; new pools; full-range positions, withdrawals, incentives and slashings that other modules ask for; swaps,
    given the stored pool and a spread factor from 0 to 1 - 5 * 10^-7; changes of anything outside the module; and the proposal that decreases tick
    spacings, if it gives divisors of the old spacings and finds each pool's tick in agreement with its price on the new grid, which the code does not check and
    without which the books can break.  Listeners and hook contracts are any that leave pools, ticks and positions alone. *)
Theorem liquidity_invariant (D : sdk.LegacyDec) (Ls : sdk.LegacyDecLaws D) (C : coin.CoinOps)
    (A : addr.Addresses) (E : Env) (s0 s : store) (p : Z) (pool : Pool.Pool) :
  initial s0 → rtc module_step s0 s → pools s !! p = Some pool →
  Dec.i (Pool.CurrentTickLiquidity pool) =
    map_sum (λ _ q, covers p (Pool.CurrentTick pool) q * Dec.i (Liquidity q)) (positions s) ∧
  (∀ t, default (0, 0) (tick_core <$> ticks s !! (p, t)) =
    (map_sum (λ _ q, gross_at p t q * Dec.i (Liquidity q)) (positions s),
     map_sum (λ _ q, net_at p t q * Dec.i (Liquidity q)) (positions s))) ∧
  (∀ k q, positions s !! k = Some q → PoolId q = p →
    0 ≤ Dec.i (Liquidity q) ∧ LowerTick q < UpperTick q ∧
    valid_tick (Pool.TickSpacing pool) (LowerTick q) ∧ valid_tick (Pool.TickSpacing pool) (UpperTick q)).
Proof.
  intros H0 Hr Hp. pose proof (module_inv Ls _ _ H0 Hr) as [Ip Iq It _].
  apply view_pool in Hp. split; [apply (Ip _ _ Hp)|]. split.
  - intros t. rewrite <- lookup_fmap. apply (It p t).
  - intros k q Hq Hpq. destruct (Iq k q Hq) as (_ & Hl & Hlu & _ & pl & Hpl & _ & H1 & H2).
    rewrite Hpq, Hp in Hpl. apply (inj Some) in Hpl as <-. done.
Qed.

(** After the run, the pool's liquidity is that of the first position alone. *)
Lemma liquidity_invariant_witness :
  Dec.i (Pool.CurrentTickLiquidity (stored_pool demo4)) =
  map_sum (λ _ q, covers 1 (Pool.CurrentTick (stored_pool demo4)) q * Dec.i (Liquidity q))
    (positions demo4).
Proof.
  apply (liquidity_invariant sdk.ref_dec sdk.ref_dec_laws coin.ref_coins demo_addresses demo_env
    demo_empty demo4 1 (stored_pool demo4)).
  - done.
  - apply demo_in_module, demo_history.
  - by vm_compute.
Defined.
End CLReach.
