(* ===== verification/CLLedger.v ===== *)
(** An abstract specification of the concentrated-liquidity module as a custodian: a ledger of who
    holds how much liquidity where.  Every step of the module is a run of ledger steps made for the
    account that acts, so a position only changes by an act of its holder or of governance. *)
From stdpp Require Import prelude strings list gmap relations.
From S2P Require Import Prelude.
From S2P Require Import GoBig.
From S2P Require Import GoState.
From S2P Require Import SdkDec.
From S2P Require Import SdkCoins.
From S2P Require Import Decimal.
From S2P Require Import CLPool.
From S2P Require Import CLStore.
From S2P Require Import CLLp.
From S2P Require Import CLView.
From S2P Require Import CLInv.
From S2P Require Import CLDemo.
From S2P Require Import CLReach.
Local Open Scope Z_scope.
Import CLStore CLLp CLView CLInv CLDemo CLReach.

Module CLLedger.
(** *** The specification *)

(** A range of a pool. *)
Record range := { in_pool : Z; from_tick : Z; to_tick : Z }.
(** [amount] counts liquidity in units of 10^-18. *)
Record entry := { holder : string; place : range; since : Z; amount : Z }.
(** [next] numbers the next entry, as a [uint64]; it wraps to 0, which is not a valid number. *)
Record ledger := { book : gmap Z entry; next : Z }.

Definition with_amount (a : Z) (e : entry) : entry :=
  {| holder := holder e; place := place e; since := since e; amount := a |}.
Definition with_holder (o : string) (e : entry) : entry :=
  {| holder := o; place := place e; since := since e; amount := amount e |}.

(** The steps the account [who] can make; [gov] when it is the governance module. *)
Inductive ledger_step (gov : Prop) (who : string) (l : ledger) : ledger → Prop :=
| Open e :
    next l ≠ 0 → book l !! next l = None → holder e = who → 0 < amount e →
    from_tick (place e) < to_tick (place e) →
    ledger_step gov who l {| book := <[next l := e]> (book l); next := (next l + 1) mod 2 ^ 64 |}
| Take k e d :
    book l !! k = Some e → holder e = who → 0 ≤ d < amount e →
    ledger_step gov who l {| book := <[k := with_amount (amount e - d) e]> (book l); next := next l |}
| Close k e :
    book l !! k = Some e → holder e = who →
    ledger_step gov who l {| book := delete k (book l); next := next l |}
| Hand k e recipient :
    book l !! k = Some e → gov ∨ holder e = who →
    ledger_step gov who l {| book := <[k := with_holder recipient e]> (book l); next := next l |}.

(** Numbers in use lie below the next one, until numbers run out. *)
Definition fresh (l : ledger) : Prop :=
  0 ≤ next l < 2 ^ 64 ∧ (next l ≠ 0 → ∀ k, is_Some (book l !! k) → k < next l).

Lemma fresh_step gov who l l' : ledger_step gov who l l' → fresh l → fresh l'.
Proof.
  intros Hs [Hn Hb]. destruct Hs as [e H0 H1 H2 H3 H4|k e d H1 H2 H3|k e H1 H2|k e o H1 H2]; unfold fresh; cbn.
  - split; [apply Z.mod_pos_bound; done|]. intros H5 k. rewrite lookup_insert_is_Some.
    assert ((next l + 1) mod 2 ^ 64 = next l + 1) as ->.
    { destruct (Z.eq_dec (next l + 1) (2 ^ 64)) as [E1|]; [by rewrite E1 in H5|]. apply Z.mod_small. lia. }
    intros [->|[_ Hk]]; [lia|]. specialize (Hb H0 k Hk). lia.
  - split; [done|]. intros H5 j. rewrite lookup_insert_is_Some. intros [->|[_ Hk]]; by apply Hb.
  - split; [done|]. intros H5 j [x [_ Hk]%lookup_delete_Some]. by apply Hb.
  - split; [done|]. intros H5 j. rewrite lookup_insert_is_Some. intros [->|[_ Hk]]; by apply Hb.
Qed.

(** What others do leaves an entry alone. *)
Lemma entry_untouched gov who l l' k e :
  ledger_step gov who l l' → ¬ gov → holder e ≠ who → book l !! k = Some e → book l' !! k = Some e.
Proof.
  intros Hs Hg Hw Hk.
  destruct Hs as [e' H0 H1 H2 H3 H4|k' e' d H1 H2 H3|k' e' H1 H2|k' e' o H1 H2]; cbn.
  - rewrite lookup_insert_ne by congruence. done.
  - rewrite lookup_insert_ne by (intros ->; congruence). done.
  - rewrite lookup_delete_ne by (intros ->; congruence). done.
  - rewrite lookup_insert_ne; [done|]. intros ->. destruct H2 as [|H2]; [done|congruence].
Qed.

(** *** The module refines it *)

Definition entry_of (q : Position) : entry :=
  {| holder := PAddress q; since := JoinTime q; amount := liq q;
     place := {| in_pool := PoolId q; from_tick := LowerTick q; to_tick := UpperTick q |} |}.
Definition ledger_of_view (v : view) : ledger :=
  {| book := entry_of <$> vpositions v; next := vnext v |}.

Section refines.
  Context {D : sdk.LegacyDec} {C : coin.CoinOps} {A : addr.Addresses} {E : Env}.

Definition ledger_of (s : store) : ledger := ledger_of_view (view_of s).
Definition is_gov (who : addr.AccAddress) : Prop := who = GetModuleAccountAddress "gov".
(** The ledger steps made for an account. *)
Definition acts (who : addr.AccAddress) : ledger → ledger → Prop :=
  ledger_step (is_gov who) (addr.AddressString who).

Lemma book_of_view v k q :
  vpositions v !! k = Some q → book (ledger_of_view v) !! k = Some (entry_of q).
Proof. intros H. cbn. by rewrite lookup_fmap, H. Qed.

Lemma ledger_eq b n b' n' : b = b' → n = n' → {| book := b; next := n |} = {| book := b'; next := n' |}.
Proof. by intros -> ->. Qed.

Lemma book_step_refines who v v' :
  book_step who v v' → fresh (ledger_of_view v) → rtc (acts who) (ledger_of_view v) (ledger_of_view v').
Proof.
  intros Hs [Hn Hf]. destruct Hs as [[Hb Hn']|d Ho|k d Hw|recipient k Hm].
  - unfold ledger_of_view. by rewrite Hb, Hn'.
  - destruct Ho as (H0 & Hd & Hl & Hn' & p & lo & hi & jt & Hlt & Hb).
    assert (vpositions v !! vnext v = None) as Hnone.
    { destruct (vpositions v !! vnext v) as [q|] eqn:Eq; [|done]. apply book_of_view in Eq.
      specialize (Hf H0 (vnext v) ltac:(by eexists)). cbn in Hf. lia. }
    unfold old_liq in *. rewrite Hnone in *. cbn in Hl, Hb.
    apply rtc_once. unfold ledger_of_view at 2. rewrite Hb, Hn', fmap_insert. unfold wrap64.
    apply (Open _ _ (ledger_of_view v)); cbn; try done; [by rewrite lookup_fmap, Hnone|unfold liq; cbn; lia].
  - destruct Hw as (q & Hq & Ho & Hd & Hn' & Hb). apply book_of_view in Hq as Hk. apply rtc_once.
    unfold ledger_of_view at 2. rewrite Hb, Hn'. destruct (Z.eqb_spec d (liq q)) as [->|Hne].
    + rewrite fmap_delete. by eapply (Close _ _ (ledger_of_view v)).
    + rewrite fmap_insert. apply (Take _ _ (ledger_of_view v) k (entry_of q) d); [done..|cbn; lia].
  - destruct Hm as (q & Hq & Ho & Hn' & Hb). apply book_of_view in Hq as Hk. apply rtc_once.
    unfold ledger_of_view at 2. rewrite Hb, Hn', fmap_insert.
    by apply (Hand _ _ (ledger_of_view v) k (entry_of q) (addr.AddressString recipient)).
Qed.

Lemma fresh_acts who l l' : rtc (acts who) l l' → fresh l → fresh l'.
Proof. induction 1; [done|]. intros. by eapply IHrtc, fresh_step. Qed.

Lemma book_steps_refine who v v' :
  rtc (book_step who) v v' → fresh (ledger_of_view v) → rtc (acts who) (ledger_of_view v) (ledger_of_view v').
Proof.
  induction 1 as [|x y z Hxy _ IH]; [done|]. intros Hf. pose proof (book_step_refines _ _ _ Hxy Hf) as H1.
  etransitivity; [exact H1|]. by eapply IH, fresh_acts.
Qed.

Context (Ls : sdk.LegacyDecLaws D).

(** A step of the module from a sound state, and the states it leads to. *)
Definition sound (s : store) : Prop := inv (view_of s) ∧ fresh (ledger_of s).

Lemma cl_step_refines {T : Block} {H : Hooks} (Q : QuietHooks H) who s s' :
  cl_step who s s' → sound s → sound s' ∧ rtc (acts who) (ledger_of s) (ledger_of s').
Proof using Ls.
  intros Hs [Hv Hf]. destruct (cl_step_effect who s s' Hs Hv) as [Hv' Hb].
  apply book_steps_refine in Hb; [|done]. split; [|done]. split; [done|]. by eapply fresh_acts.
Qed.

Lemma sound_initial s : initial s → sound s.
Proof using.
  intros Hs. split; [by apply initial_inv|]. destruct Hs as (_ & _ & E1 & _ & Hn). split; [done|].
  intros _ k. cbn. rewrite E1, fmap_empty, lookup_empty. by intros [].
Qed.

Lemma sound_history allowed s s' : rtc (block_step allowed) s s' → sound s → sound s'.
Proof using Ls.
  induction 1 as [|x y z Hxy _ IH]; [done|]. intros Hs. apply IH.
  destruct Hxy as [T H Q who y _ Hxy|w]; [|done]. by eapply cl_step_refines.
Qed.

(** Along a history in which neither its holder nor governance acts, an entry stays. *)
Lemma entry_stays (o : string) s s' k e :
  rtc (block_step (λ who, addr.AddressString who ≠ o ∧ ¬ is_gov who)) s s' → sound s →
  holder e = o → book (ledger_of s) !! k = Some e → book (ledger_of s') !! k = Some e.
Proof using Ls.
  intros Hr Hs Ho. induction Hr as [|x y z Hxy _ IH]; [done|]. intros Hk.
  destruct Hxy as [T H Q who y [Hne Hg] Hxy|w]; [|by apply IH].
  apply (cl_step_refines Q) in Hxy as [Hy Hrun]; [|done]. apply IH; [done|].
  clear -Hrun Hk Ho Hne Hg. induction Hrun as [|a b c Hab _ IH]; [done|]. apply IH.
  eapply entry_untouched; [exact Hab|done|congruence|done].
Qed.
End refines.

(** *** Properties *)

#[local] Existing Instances sdk.ref_dec coin.ref_coins demo_addresses demo_env demo_block demo_hooks.

(** C2. The module refines the ledger: it starts as the empty ledger, and in every reachable state each
    of its entry points, made for the account [who] in any block, amounts to ledger steps of that
    account: it opens an entry with positive liquidity under the next number, which no entry has,
    takes no more out of its own entries than they hold (closing them when nothing is left), or hands one
    over (any entry, if it is the governance module).  The proposal that decreases tick spacings is
    guarded as in CLReach; slashings by x/superfluid, which no account makes for itself, are not among the entry points here. *)
Theorem ledger_refinement (D : sdk.LegacyDec) (Ls : sdk.LegacyDecLaws D) (C : coin.CoinOps)
    (A : addr.Addresses) (E : Env) (T : Block) (H : Hooks) (Q : QuietHooks H)
    (who : addr.AccAddress) (s0 s s' : store) :
  initial s0 → rtc history_step s0 s → cl_step who s s' →
  book (ledger_of s0) = ∅ ∧ rtc (acts who) (ledger_of s) (ledger_of s') ∧
  (next (ledger_of s) ≠ 0 → ∀ k, is_Some (book (ledger_of s) !! k) → k < next (ledger_of s)).
Proof.
  intros H0 Hr Hs. assert (sound s) as Hsound by (eapply sound_history; [done..|by apply sound_initial]).
  split; [|split].
  - destruct H0 as (_ & _ & E1 & _). cbn. by rewrite E1, fmap_empty.
  - by apply (cl_step_refines Ls Q).
  - by apply Hsound.
Qed.

(** Alice's withdrawal of her second position, after Bob's swap. *)
Lemma ledger_refinement_witness : rtc (acts (E := demo_env) "alice"%string) (ledger_of demo4) (ledger_of demo5).
Proof.
  apply (ledger_refinement sdk.ref_dec sdk.ref_dec_laws coin.ref_coins demo_addresses demo_env demo_block
    demo_hooks demo_quiet "alice"%string demo_empty demo4 demo5).
  - done.
  - apply demo_history.
  - apply step_withdraw.
Defined.


End CLLedger.
