(* ===== verification/CLSwapsTerm.v ===== *)
(** The loops of a swap end (CLSwaps): runs of the loop without a bound, how far each iteration gets,
    and how many there can be. *)
From stdpp Require Import prelude strings list gmap sorting.
From S2P Require Import Prelude.
From S2P Require Import GoBig.
From S2P Require Import GoState.
From S2P Require Import SdkDec.
From S2P Require Import SdkCoins.
From S2P Require Import Decimal.
From S2P Require Import CLTick.
From S2P Require Import CLSwapStrategy.
From S2P Require Import CLSwapStrategyProps.
From S2P Require Import Accum.
From S2P Require Import CLPool.
From S2P Require Import CLStore.
From S2P Require Import CLRewards.
From S2P Require Import CLTickStore.
From S2P Require Import CLSwaps.
From S2P Require Import CLView.
From S2P Require Import CLInv.
From S2P Require Import CLLpProps.
From S2P Require Import CLIter.
From S2P Require Import CLSwapsInv.
From S2P Require Import CLSwapsProps.
From S2P Require Import CLDemo.
From S2P Require Import CLReach.
Local Open Scope Z_scope.
Import CLConst CLTick SwapStrategy NewStrategy CLStore CLRewards CLTickStore CLSwaps CLView CLInv
  CLSwapStrategyProps CLLpProps CLIter CLSwapsInv CLSwapsProps CLDemo CLReach.

Module CLSwapsTerm.
Section runs.
  Context {D : sdk.LegacyDec} {C : coin.CoinOps} {A : addr.Addresses} {E : Env} {T : Block}.
  Context (exactIn : bool) (strategy : SwapStrategy) (limit : BigDec.t) (denom : string)
    (accs : option (AccumulatorObject * Dec.t)).

(** The loop of the code, without fuel: [loop_run l s n r] is a run of [n] iterations that leaves the
    loop with the result [r], an error or a panic included. *)
Inductive loop_run : loopState → store → nat → outcome (loopState * store) → Prop :=
| run_done l s : keepSwapping limit (lstate l) = false → loop_run l s 0 (Ok (l, s))
| run_fails l s r :
    keepSwapping limit (lstate l) = true → swapIteration exactIn strategy denom accs l s = r →
    (∀ x, r ≠ Ok x) → loop_run l s 1 r
| run_step l s l1 s1 n r :
    keepSwapping limit (lstate l) = true →
    swapIteration exactIn strategy denom accs l s = Ok (l1, s1) →
    loop_run l1 s1 n r → loop_run l s (S n) r.

(** With fuel for its iterations the function gives the result of the run. *)
Lemma loop_run_fuel l s n r fuel :
  loop_run l s n r → (n ≤ fuel)%nat → swapLoop fuel exactIn strategy limit denom accs l s = r.
Proof.
  intros Hr. revert fuel. induction Hr as [l s Hk|l s r Hk Hi Hf|l s l1 s1 n r Hk Hi _ IH]; intros fuel Hn.
  - destruct fuel; cbn [swapLoop]; by rewrite Hk.
  - destruct fuel as [|fuel]; [lia|]. cbn [swapLoop]. rewrite Hk. unfold mbind, M_bind.
    rewrite Hi. destruct r as [x| |]; [by destruct (Hf x)|done..].
  - destruct fuel as [|fuel]; [lia|]. cbn [swapLoop]. rewrite Hk. unfold mbind, M_bind.
    rewrite Hi. apply IH. lia.
Qed.
End runs.

Section progress.
  Context {D : sdk.LegacyDec} {Ls : sdk.LegacyDecLaws D} {C : coin.CoinOps} {A : addr.Addresses}
    {E : Env} {T : Block}.

(** What a step does to the counters of the loop. *)
Lemma swapStep_effect exactIn strat t r cp ain aout ch denom accs l s l' s' :
  swapStep exactIn strat t r cp ain aout ch denom accs l s = Ok (l', s') →
  sqrtPrice (lstate l') = cp ∧
  Dec.i (amountSpecifiedRemaining (lstate l')) =
    Dec.i (amountSpecifiedRemaining (lstate l)) - (if exactIn then Dec.i ain + Dec.i ch else Dec.i aout) ∧
  Dec.i (amountCalculated (lstate l')) =
    Dec.i (amountCalculated (lstate l)) + (if exactIn then Dec.i aout else Dec.i ain + Dec.i ch) ∧
  (if Dec.i (if exactIn then ain else aout) =? 0
   then lnoProgress l' = lnoProgress l + 1 ∧ lnoProgress l < swapNoProgressLimit
   else lnoProgress l' = lnoProgress l).
Proof using Ls.
  unfold swapStep. intros Hr. run_lift Hr as u H1. run Hr as ss1 s1 H2.
  assert (amountSpecifiedRemaining ss1 = amountSpecifiedRemaining (lstate l) ∧
    amountCalculated ss1 = amountCalculated (lstate l)) as [E1 E2].
  { destruct accs as [[acc factor]|]; [|by run_ret H2].
    run_lift H2 as g Hg. destruct g as [accrued ss2]. run_ret H2.
    unfold updateSpreadRewardGrowthGlobal in Hg.
    apply bind_Ok in Hg as (sc & _ & Hg). apply bind_Ok in Hg as (tot & _ & Hg).
    destruct (sdk.IsZero _); [by injection Hg as <- <-|].
    apply bind_Ok in Hg as (acr & _ & Hg). apply bind_Ok in Hg as (pu & _ & Hg). by injection Hg as <- <-. }
  run_lift Hr as inCharge H3. run_lift Hr as remaining H4. run_lift Hr as calculated H5.
  apply sdk.Add_spec in H3, H5. apply sdk.Sub_spec in H4. rewrite E1 in H4. rewrite E2 in H5.
  run Hr as q s2 H6. destruct q as [[ss4 it4] pl4].
  assert (amountSpecifiedRemaining ss4 = remaining ∧ amountCalculated ss4 = calculated ∧
    sqrtPrice ss4 = cp) as (F1 & F2 & F3).
  { destruct (BigDec.Equal r cp).
    - unfold swapCrossTickLogic in H6. destruct (literator l) as [|[t1 info] rest]; [done|].
      run H6 as p1 s3 H7. run_lift H6 as nl H8. by apply st_ret_Ok in H6 as [[= <- _ _] _].
    - destruct (edgeCaseInequalityBasedOnSwapStrategy _ _ _); [done|].
      destruct (negb _); [run_lift H6 as nt H7|]; by apply st_ret_Ok in H6 as [[= <- _ _] _]. }
  rewrite sdk.IsZero_spec in Hr.
  assert (∀ n, lstate l' = ss4 ∧ lnoProgress l' = n →
    sqrtPrice (lstate l') = cp ∧
    Dec.i (amountSpecifiedRemaining (lstate l')) =
      Dec.i (amountSpecifiedRemaining (lstate l)) - (if exactIn then Dec.i ain + Dec.i ch else Dec.i aout) ∧
    Dec.i (amountCalculated (lstate l')) =
      Dec.i (amountCalculated (lstate l)) + (if exactIn then Dec.i aout else Dec.i ain + Dec.i ch) ∧
    lnoProgress l' = n) as Hfin.
  { intros n [-> Hn]. rewrite F1, F2, F3, H4, H5. destruct exactIn; by rewrite H3. }
  destruct (_ =? 0).
  - run_require Hr as H7. run_ret Hr. apply negb_true_iff, Z.leb_gt in H7.
    destruct (Hfin (lnoProgress l + 1)) as (G0 & G1 & G2 & G3); [done|]. done.
  - run_ret Hr. by apply Hfin.
Qed.

(** The iterations that can still follow: by the amount remaining, then by the idle ones allowed, and
    one that fails. *)
Definition amount_steps (exactIn : bool) (rem : Z) : Z :=
  if rem <=? 1 then 0 else if exactIn then rem / Dec.one + 1 else rem.
Definition steps_left (exactIn : bool) (l : loopState) : Z :=
  amount_steps exactIn (Dec.i (amountSpecifiedRemaining (lstate l))) + (swapNoProgressLimit - lnoProgress l) + 1.

Lemma amount_steps_mono exactIn a b : a ≤ b → amount_steps exactIn a ≤ amount_steps exactIn b.
Proof using.
  intros Hab. assert (0 < Dec.one) by done. unfold amount_steps.
  destruct (Z.leb_spec a 1), (Z.leb_spec b 1), exactIn; try lia.
  - assert (0 ≤ b / Dec.one) by (apply Z.div_pos; lia). lia.
  - assert (a / Dec.one ≤ b / Dec.one) by (apply Z.div_le_mono; lia). lia.
Qed.
Lemma amount_steps_less (exactIn : bool) b d :
  1 < b → (if exactIn then Dec.one else 1) ≤ d → amount_steps exactIn (b - d) + 1 ≤ amount_steps exactIn b.
Proof using.
  intros Hb Hd. assert (0 < Dec.one) by done. unfold amount_steps. rewrite (proj2 (Z.leb_gt b 1)) by done.
  destruct exactIn, (Z.leb_spec (b - d) 1); try lia.
  - assert (0 ≤ b / Dec.one) by (apply Z.div_pos; lia). lia.
  - assert ((b - d) / Dec.one ≤ (b + (-1) * Dec.one) / Dec.one) as H1 by (apply Z.div_le_mono; lia).
    rewrite Z.div_add in H1 by lia. lia.
Qed.

  Context (v : view) (p : Z) (pool0 : Pool.Pool) (zfo : bool) (limit : BigDec.t) (sf : Dec.t).
  Context (Hv : inv v) (Hp : vpools v !! p = Some pool0) (Hsf : spread_ok sf)
    (Hlim : limit_beyond pool0 zfo limit).
  Context (exactIn : bool) (denom : string) (accs : option (AccumulatorObject * Dec.t)).

Lemma iteration_progress l s l' s' :
  swapIteration exactIn (New zfo limit sf) denom accs l s = Ok (l', s') →
  loop_inv v p pool0 zfo limit sf l s → keepSwapping limit (lstate l) = true →
  lnoProgress l ≤ swapNoProgressLimit →
  steps_left exactIn l' + 1 ≤ steps_left exactIn l ∧ lnoProgress l' ≤ swapNoProgressLimit.
Proof using Hv Hp Ls Hsf Hlim.
  intros Hr Hl Hk Hnp. pose proof (keepSwapping_true limit _ Hk) as Hrem.
  pose proof (liquidity_nonneg v p pool0 zfo limit sf Hv l s Hl) as HL.
  destruct (swapIteration_step v p pool0 zfo limit sf Hv Hp Hsf Hlim exactIn denom accs l s l' s' Hr Hl Hk)
    as (t & r & info & it & cp & ain & aout & ch & Hit & Ht & Hr0 & Hstep & Hdir & Hs).
  pose proof (li_price _ _ _ _ _ _ _ _ Hl) as Hprice.
  pose proof (swapStep_inv v p pool0 zfo limit sf Hv Hp exactIn t info it r cp ain aout ch denom accs l s
    l' s' Hs Hl Hit Ht Hr0 Hdir) as Hl'.
  apply swapStep_effect in Hs as (Ecp & E1 & _ & E3).
  pose proof (li_price _ _ _ _ _ _ _ _ Hl') as Hcp. rewrite Ecp in Hcp.
  pose proof (step_amounts zfo exactIn limit sf (sqrtPrice (lstate l)) r cp (liquidity (lstate l))
    (amountSpecifiedRemaining (lstate l)) ain aout ch HL ltac:(lia) Hprice Hstep Hcp)
    as (_ & (k & Hk1) & Hain & Haout).
  pose proof (step_charge_nonneg zfo exactIn limit sf (sqrtPrice (lstate l)) r cp (liquidity (lstate l))
    (amountSpecifiedRemaining (lstate l)) ain aout ch Hstep) as Hch.
  unfold steps_left. rewrite E1. assert (0 < Dec.one) as Hone by done.
  destruct (Z.eqb_spec (Dec.i (if exactIn then ain else aout)) 0) as [Hz|Hnz].
  - destruct E3 as [-> Hlt]. split; [|lia].
    assert (∀ a, a ≤ Dec.i (amountSpecifiedRemaining (lstate l)) →
      amount_steps exactIn a ≤ amount_steps exactIn (Dec.i (amountSpecifiedRemaining (lstate l))))
      as Hmono by (intros; by apply amount_steps_mono).
    pose proof (Hmono (Dec.i (amountSpecifiedRemaining (lstate l)) -
      (if exactIn then Dec.i ain + Dec.i ch else Dec.i aout))) as Hm.
    destruct exactIn; [specialize (Hch eq_refl)|]; lia.
  - rewrite E3. split; [|done].
    pose proof (amount_steps_less exactIn (Dec.i (amountSpecifiedRemaining (lstate l)))
      (if exactIn then Dec.i ain + Dec.i ch else Dec.i aout) ltac:(lia)) as Hless.
    destruct exactIn; [specialize (Hch eq_refl)|]; [|lia].
    assert (1 ≤ k) by nia. assert (Dec.one ≤ Dec.i ain) by nia. lia.
Qed.

Lemma loop_terminates l s :
  loop_inv v p pool0 zfo limit sf l s → lnoProgress l ≤ swapNoProgressLimit →
  ∃ n r, loop_run exactIn (New zfo limit sf) limit denom accs l s n r ∧ Z.of_nat n ≤ steps_left exactIn l.
Proof using Hv Hp Ls Hsf Hlim.
  remember (Z.to_nat (steps_left exactIn l)) as m eqn:Hm. revert l s Hm.
  induction m as [m IH] using lt_wf_ind. intros l s Hm Hl Hnp.
  assert (1 ≤ steps_left exactIn l) as Hpos.
  { unfold steps_left, amount_steps. pose proof (Z.div_pos (Dec.i (amountSpecifiedRemaining (lstate l))) Dec.one).
    assert (0 < Dec.one) by done. destruct (Z.leb_spec (Dec.i (amountSpecifiedRemaining (lstate l))) 1), exactIn; lia. }
  destruct (keepSwapping limit (lstate l)) eqn:Hk.
  2:{ exists 0%nat, (Ok (l, s)). split; [by apply run_done|lia]. }
  destruct (swapIteration exactIn (New zfo limit sf) denom accs l s) as [[l1 s1]|e|e] eqn:Hi.
  - destruct (iteration_progress l s l1 s1 Hi Hl Hk Hnp) as [Hless Hnp1].
    apply (swapIteration_inv v p pool0 zfo limit sf Hv Hp Hsf Hlim) in Hi as Hl1; [|done..].
    destruct (IH (Z.to_nat (steps_left exactIn l1)) ltac:(lia) l1 s1 eq_refl Hl1 Hnp1) as (n & r & Hrun & Hn).
    exists (S n), r. split; [by eapply run_step|lia].
  - exists 1%nat, (Err e). split; [by apply run_fails|lia].
  - exists 1%nat, (Panic e). split; [by apply run_fails|lia].
Qed.
End progress.

(** *** Whole swaps *)

Section swap.
  Context {D : sdk.LegacyDec} {Ls : sdk.LegacyDecLaws D} {C : coin.CoinOps} {A : addr.Addresses}
    {E : Env} {T : Block}.

Definition swap_result : Type := outcome (SwapState * option AccumulatorObject * store).
Definition finish (acc : option AccumulatorObject) (r : outcome (loopState * store)) : swap_result :=
  match r with
  | Ok (l, s) => Ok (lstate l, acc, s)
  | Err e => Err e
  | Panic e => Panic e
  end.

(** [swap_run ... n r]: the computation of a swap, its loop running without a bound, makes [n]
    iterations and ends with [r]. *)
Definition swap_run (exactIn : bool) (p : Z) (specified : SdkInt.t) (inDenom outDenom : string)
    (sf : Dec.t) (priceLimit : BigDec.t) (upd : bool) (s : store) (n : nat) (r : swap_result) : Prop :=
  match swap_prep p specified inDenom outDenom sf priceLimit upd s with
  | Ok ((acc, strategy, limit, accs, l), s1) =>
    ∃ r', loop_run exactIn strategy limit inDenom accs l s1 n r' ∧ r = finish acc r'
  | Err e => n = 0%nat ∧ r = Err e
  | Panic e => n = 0%nat ∧ r = Panic e
  end.

Lemma swap_run_fuel exactIn p specified inDenom outDenom sf priceLimit upd s n r fuel :
  swap_run exactIn p specified inDenom outDenom sf priceLimit upd s n r → (n ≤ fuel)%nat →
  runSwap fuel exactIn p specified inDenom outDenom sf priceLimit upd s = r.
Proof using.
  rewrite runSwap_split. unfold swap_run, mbind, M_bind.
  destruct (swap_prep _ _ _ _ _ _ _ s) as [[[[[[acc strategy] limit] accs] l] s1]| |];
    [|by intros [_ ->]..].
  intros (r' & Hr & ->) Hn. rewrite (loop_run_fuel _ _ _ _ _ _ _ _ _ _ Hr Hn).
  by destruct r' as [[l' s']| |].
Qed.

Definition iteration_bound (exactIn : bool) (specified : SdkInt.t) : Z :=
  if exactIn then Z.max 0 (SdkInt.i specified) + 102 else Z.max 0 (SdkInt.i specified) * Dec.one + 102.

Lemma swap_terminates_at exactIn p specified inDenom outDenom sf priceLimit upd s :
  inv (view_of s) → spread_ok sf →
  (∀ pool, pools s !! p = Some pool → unlimited priceLimit (getZeroForOne inDenom (Pool.Token0 pool))) →
  ∃ n r, swap_run exactIn p specified inDenom outDenom sf priceLimit upd s n r ∧
    Z.of_nat n ≤ iteration_bound exactIn specified.
Proof using Ls.
  intros Hv Hsf Hu. unfold swap_run. assert (0 ≤ iteration_bound exactIn specified) as Hb.
  { assert (0 < Dec.one) by done. unfold iteration_bound. destruct exactIn; nia. }
  destruct (swap_prep _ _ _ _ _ _ _ s) as [[[[[[acc strategy] limit] accs] l] s1]|e|e] eqn:Hprep;
    [|exists 0%nat, (Err e); split; [done|lia]|exists 0%nat, (Panic e); split; [done|lia]].
  apply (swap_prep_start exactIn) in Hprep as (zfo & pool0 & [B1 B2 B3 B4 B5 B6 B7 B8] & ->); [|done].
  assert (unlimited priceLimit zfo) as Hun.
  { cbn in B1. rewrite lookup_fmap in B1. destruct (pools s !! p) as [pl|] eqn:Epl; [|done].
    cbn in B1. apply (inj Some) in B1. rewrite B2, <- B1. exact (Hu pl eq_refl). }
  pose proof (unlimited_beyond priceLimit zfo limit pool0 Hun B3) as Hlim.
  destruct (loop_terminates (view_of s) p pool0 zfo limit sf Hv B1 Hsf Hlim exactIn inDenom accs l s1 B5)
    as (n & r & Hrun & Hn); [rewrite B8; done|].
  exists n, (finish acc r). split; [by exists r|].
  unfold steps_left in Hn. rewrite B6, B8 in Hn. unfold iteration_bound, amount_steps in *.
  assert (0 < Dec.one) by done. change swapNoProgressLimit with 100 in Hn.
  destruct (Z.leb_spec (SdkInt.i specified * Dec.one) 1); [destruct exactIn; lia|].
  destruct exactIn; [rewrite Z.div_mul in Hn by lia; lia|nia].
Qed.
End swap.

(** C4. A swap without a price limit, computed from any reachable state of the module, ends: with a
    given input after at most that many iterations plus 102, with a given output after at most its
    amount in units of 10^-18 plus 102; and any fuel above the number of iterations gives the result
    the unbounded loop has. *)
Theorem swap_terminates (D : sdk.LegacyDec) (Ls : sdk.LegacyDecLaws D) (C : coin.CoinOps)
    (A : addr.Addresses) (E : Env) (T : Block) (s0 s : store) (exactIn : bool) (p : Z)
    (specified : SdkInt.t) (inDenom outDenom : string) (sf : Dec.t) (priceLimit : BigDec.t) (upd : bool) :
  initial s0 → rtc history_step s0 s → spread_ok sf →
  (∀ pool, pools s !! p = Some pool → unlimited priceLimit (getZeroForOne inDenom (Pool.Token0 pool))) →
  ∃ n r, swap_run exactIn p specified inDenom outDenom sf priceLimit upd s n r ∧
    Z.of_nat n ≤ iteration_bound exactIn specified ∧
    ∀ fuel, (n ≤ fuel)%nat →
      runSwap fuel exactIn p specified inDenom outDenom sf priceLimit upd s = r.
Proof.
  intros H0 Hr Hsf Hu. pose proof (history_inv Ls _ _ H0 Hr) as Hv.
  destruct (swap_terminates_at exactIn p specified inDenom outDenom sf priceLimit upd s Hv Hsf Hu)
    as (n & r & Hrun & Hn).
  exists n, r. split; [done|]. split; [done|]. intros fuel. by apply swap_run_fuel.
Qed.

(** Selling 1000 eth in the run of CLDemo: at most 1102 iterations (two, in fact). *)
#[local] Existing Instances sdk.ref_dec coin.ref_coins demo_addresses demo_env demo_block demo_hooks.
Lemma swap_terminates_witness :
  ∃ n r, swap_run true 1 (SdkInt.mk 1000) "eth" "usdc" spread unboundedPriceLimit true demo3 n r ∧
    Z.of_nat n ≤ 1102 ∧
    ∀ fuel, (n ≤ fuel)%nat →
      runSwap fuel true 1 (SdkInt.mk 1000) "eth" "usdc" spread unboundedPriceLimit true demo3 = r.
Proof.
  apply (swap_terminates sdk.ref_dec sdk.ref_dec_laws coin.ref_coins demo_addresses demo_env demo_block
    demo_empty demo3 true 1 (SdkInt.mk 1000) "eth" "usdc" spread unboundedPriceLimit true).
  - done.
  - apply demo_history3.
  - split; vm_compute; discriminate.
  - intros pool _. left. reflexivity.
Defined.
End CLSwapsTerm.
