(* ===== verification/Cron.v ===== *)
(** Schedules: x/cron (keeper/keeper.go, keeper/params.go, keeper/msg_server.go, types/tx.go, genesis.go
    and the block callbacks of module.go).

    The prefix store of schedules is a map keyed by name, which the iterator yields in the order of the
    names' bytes.  Contracts are run through wasmd's message server, an argument of the model that may
    change the module's own store, since contracts can send messages to it.  Heights are [uint64]
    conversions of the block height.  Telemetry, logs and queries are left out.

    Schedules run on time (CronProps): as long as the limit has room for all schedules, each one runs every
    [Period + 1] blocks: the log of turns, in which messages are called, has exactly these, and the stored height follows.  And what happens to a schedule that is removed while schedules run. *)
From stdpp Require Import prelude strings list gmap sorting.
From S2P Require Import Prelude.
From S2P Require Import GoBig.
From S2P Require Import GoState.
From S2P Require Import SdkDec.
From S2P Require Import SdkCoins.
From S2P Require Import CLPool.
Local Open Scope Z_scope.

Module Cron.
Definition ModuleName : string := "cron".
Record MsgExecuteContract := { Contract : string; Msg : string }.
(** [ExecutionStage] is an [int32]; these two values have names. *)
Definition EXECUTION_STAGE_END_BLOCKER : Z := 0.
Definition EXECUTION_STAGE_BEGIN_BLOCKER : Z := 1.
Record Schedule := {
  Name : string;
  Period : Z;
  Msgs : list MsgExecuteContract;
  LastExecuteHeight : Z;
  ExecutionStage : Z
}.
Record Params := { SecurityAddress : string; Limit : Z }.
Record GenesisState := { ScheduleList : list Schedule; GParams : Params }.

Definition executed_at (h : Z) (x : Schedule) : Schedule :=
  {| Name := Name x; Period := Period x; Msgs := Msgs x; LastExecuteHeight := h;
     ExecutionStage := ExecutionStage x |}.

(** Conversions and arithmetic of Go's integers. *)
Definition wrap64 (n : Z) : Z := n mod 2 ^ 64.
Definition wrap32 (n : Z) : Z := (n + 2 ^ 31) mod 2 ^ 32 - 2 ^ 31.

(** The rest of the chain: its state, the account of the module and of the authority. *)
Class Chain : Type := {
  World : Type;
  GetModuleAddress : string → string;
  Authority : string;
}.

Section cron.
  Context {Ch : Chain}.

Record store := {
  schedules : gmap string Schedule;
  scheduleCount : option Z;
  params : option Params;
  world : World
}.
Definition set_schedules f (s : store) : store :=
  {| schedules := f (schedules s); scheduleCount := scheduleCount s; params := params s;
     world := world s |}.
Definition set_count n (s : store) : store :=
  {| schedules := schedules s; scheduleCount := Some n; params := params s; world := world s |}.
Definition set_params p (s : store) : store :=
  {| schedules := schedules s; scheduleCount := scheduleCount s; params := Some p; world := world s |}.
Abbreviation K := (M store).

(** [WasmMsgServer.ExecuteContract] for a sender, a contract and a message, without funds. *)
Class WasmMsgServer : Type := { ExecuteContract : string → string → string → K unit }.

(** *** params.go *)

Definition GetParams : K Params :=
  gets (λ s, default {| SecurityAddress := ""; Limit := 0 |} (params s)).
Definition SetParams (p : Params) : K unit := modify (set_params p).

(** *** keeper.go: the store of schedules *)

Definition storeSchedule (schedule : Schedule) : K unit :=
  modify (set_schedules (insert (Name schedule) schedule)).
Definition removeSchedule (name : string) : K unit := modify (set_schedules (delete name)).
Definition scheduleExists (name : string) : K bool :=
  gets (λ s, bool_decide (is_Some (schedules s !! name))).
Definition GetSchedule (name : string) : K (option Schedule) := gets (λ s, schedules s !! name).

Definition getScheduleCount : K Z := gets (λ s, default 0 (scheduleCount s)).
Definition GetScheduleCount : K Z := getScheduleCount.
Definition changeTotalCount (incrementAmount : Z) : K unit :=
  count ← getScheduleCount;
  modify (set_count (wrap32 (count + incrementAmount))).

(** The order of the store's iterator. *)
Definition name_le (x y : Schedule) : Prop := String.leb (Name x) (Name y) = true.
#[global] Instance name_le_dec : RelDecision name_le.
Proof. intros x y. unfold name_le. apply _. Defined.
Definition all_schedules (s : store) : list Schedule :=
  merge_sort name_le (map_to_list (schedules s)).*2.
Definition GetAllSchedules : K (list Schedule) := gets all_schedules.

(** *** keeper.go: adding and removing *)

Definition AddSchedule (height : Z) (name : string) (period : Z) (msgs : list MsgExecuteContract)
    (executionStage : Z) : K unit :=
  exists_ ← scheduleExists name;
  if (exists_ : bool) then throw "schedule already exists" else
  _ ← storeSchedule {| Name := name; Period := period; Msgs := msgs;
                       LastExecuteHeight := wrap64 height; ExecutionStage := executionStage |};
  changeTotalCount 1.

Definition RemoveSchedule (name : string) : K unit :=
  exists_ ← scheduleExists name;
  if negb exists_ then mret tt else
  _ ← changeTotalCount (-1);
  removeSchedule name.

(** *** keeper.go: execution *)

Definition intervalPassed (height : Z) (schedule : Schedule) : bool :=
  wrap64 height >? wrap64 (LastExecuteHeight schedule + Period schedule).

(** The loop of [getSchedulesReadyForExecution] over what the iterator yields. *)
Fixpoint collectReady (height executionStage limit count : Z) (l : list Schedule) : list Schedule :=
  match l with
  | [] => []
  | schedule :: l =>
    if intervalPassed height schedule && (ExecutionStage schedule =? executionStage) then
      schedule :: (if count + 1 >=? limit then []
                   else collectReady height executionStage limit (count + 1) l)
    else collectReady height executionStage limit count l
  end.
Definition getSchedulesReadyForExecution (height executionStage : Z) : K (list Schedule) :=
  p ← GetParams;
  l ← GetAllSchedules;
  mret (collectReady height executionStage (Limit p) 0 l).

(** Runs on a branch of the store, which is written back unless there is an error; the error is
    returned. *)
Definition on_branch (m : K unit) : K (option string) := λ s,
  match m s with
  | Ok (_, s') => Ok (None, s')
  | Err e => Ok (Some e, s)
  | Panic p => Panic p
  end.

Context {W : WasmMsgServer}.

Definition executeSchedule (height : Z) (schedule : Schedule) : K (option string) :=
  _ ← storeSchedule (executed_at (wrap64 height) schedule);
  on_branch (for_each (Msgs schedule) (λ msg,
    ExecuteContract (GetModuleAddress ModuleName) (Contract msg) (Msg msg))).

Definition ExecuteReadySchedules (height executionStage : Z) : K unit :=
  ready ← getSchedulesReadyForExecution height executionStage;
  for_each ready (λ schedule, _ ← executeSchedule height schedule; mret tt).

(** *** module.go *)

Definition BeginBlock (height : Z) : K unit :=
  ExecuteReadySchedules height EXECUTION_STAGE_BEGIN_BLOCKER.
Definition EndBlock (height : Z) : K unit :=
  ExecuteReadySchedules height EXECUTION_STAGE_END_BLOCKER.
End cron.

(** *** Messages *)

Section messages.
  Context {Ch : Chain} {A : addr.Addresses}.

Definition validAddress (a e : string) : outcome unit :=
  match addr.AccAddressFromBech32 a with
  | Ok _ => Ok tt
  | Err _ => Err e
  | Panic p => Panic p
  end.

Definition MsgAddSchedule_Validate (authority name : string) (period : Z)
    (msgs : list MsgExecuteContract) (executionStage : Z) : outcome unit :=
  _ ← validAddress authority "authority is invalid";
  if String.eqb name "" then Err "name is invalid"
  else if period =? 0 then Err "period is invalid"
  else if bool_decide (length msgs = 0%nat) then Err "msgs should not be empty"
  else if negb ((executionStage =? 0) || (executionStage =? 1)) then Err "execution stage is invalid"
  else Ok tt.
Definition MsgRemoveSchedule_Validate (authority name : string) : outcome unit :=
  _ ← validAddress authority "authority is invalid";
  if String.eqb name "" then Err "name is invalid" else Ok tt.
Definition MsgUpdateParams_Validate (authority : string) (p : Params) : outcome unit :=
  _ ← validAddress authority "authority is invalid";
  validAddress (SecurityAddress p) "security_address is invalid".

Definition MsgAddSchedule (height : Z) (authority name : string) (period : Z)
    (msgs : list MsgExecuteContract) (executionStage : Z) : M store unit :=
  _ ← lift (MsgAddSchedule_Validate authority name period msgs executionStage);
  _ ← require (String.eqb Authority authority) "invalid authority";
  AddSchedule height name period msgs executionStage.
Definition MsgRemoveSchedule (authority name : string) : M store unit :=
  _ ← lift (MsgRemoveSchedule_Validate authority name);
  _ ← require (String.eqb Authority authority) "invalid authority";
  RemoveSchedule name.
Definition MsgUpdateParams (authority : string) (p : Params) : M store unit :=
  _ ← lift (MsgUpdateParams_Validate authority p);
  _ ← require (String.eqb Authority authority) "invalid authority";
  SetParams p.

(** *** genesis.go *)

Definition InitGenesis (height : Z) (genState : GenesisState) : M store unit :=
  _ ← for_each (ScheduleList genState) (λ elem, λ s,
        Pool.or_panic (AddSchedule height (Name elem) (Period elem) (Msgs elem) (ExecutionStage elem) s)
          "schedule already exists");
  SetParams (GParams genState).
Definition ExportGenesis : M store GenesisState :=
  p ← GetParams;
  l ← GetAllSchedules;
  mret {| ScheduleList := l; GParams := p |}.
End messages.
End Cron.

Import Cron.

Module CronProps.
Section cron.
  Context {Ch : Chain}.

(** Contracts that leave schedules and parameters alone. *)
Definition same_cron (s s' : store) : Prop := schedules s' = schedules s ∧ params s' = params s.
#[export] Instance same_cron_preorder : PreOrder same_cron.
Proof. split; [done|]. intros x y z [] []. split; congruence. Qed.
Definition quiet (W : WasmMsgServer) : Prop := ∀ a c m, keeps same_cron (ExecuteContract a c m).

(** Schedules are stored under their names. *)
Definition well_named (s : store) : Prop := ∀ n x, schedules s !! n = Some x → Name x = n.
(** There is room for all schedules in one block. *)
Definition room (s : store) : Prop := Z.of_nat (size (schedules s)) ≤ default 0 (Limit <$> params s).

Definition due (h stage : Z) (x : Schedule) : Prop :=
  intervalPassed h x && (ExecutionStage x =? stage) = true.
#[local] Instance due_dec h stage x : Decision (due h stage x).
Proof. unfold due. apply _. Defined.

(** *** Which schedules are ready *)

Lemma collectReady_all h stage limit count l :
  Z.of_nat (length l) + count ≤ limit → collectReady h stage limit count l = filter (due h stage) l.
Proof.
  revert count. induction l as [|x l IH]; intros count Hl; [done|]. cbn [collectReady].
  cbn [length] in Hl. rewrite filter_cons. case_decide as Hd; unfold due in Hd.
  - rewrite Hd. f_equal. destruct (Z.geb_spec (count + 1) limit).
    + destruct l; [done|]. cbn [length] in Hl. lia.
    + apply IH. lia.
  - apply not_true_is_false in Hd. rewrite Hd. apply IH. lia.
Qed.

Lemma elem_all_schedules s x : x ∈ all_schedules s ↔ ∃ n, schedules s !! n = Some x.
Proof.
  unfold all_schedules. rewrite (merge_sort_Permutation name_le), list_elem_of_fmap. split.
  - intros ([n y] & -> & Hy%elem_of_map_to_list). by exists n.
  - intros [n Hn]. exists (n, x). by rewrite elem_of_map_to_list.
Qed.

Lemma length_all_schedules s : length (all_schedules s) = size (schedules s).
Proof.
  unfold all_schedules. by rewrite (merge_sort_Permutation name_le), length_fmap, length_map_to_list.
Qed.

Lemma NoDup_all_schedules s : well_named s → NoDup (Name <$> all_schedules s).
Proof.
  intros Hw. unfold all_schedules. rewrite (merge_sort_Permutation name_le), <- list_fmap_compose.
  rewrite (list_fmap_ext _ fst); [apply NoDup_fst_map_to_list|].
  intros i [n x] Hi%list_elem_of_lookup_2%elem_of_map_to_list. by apply Hw.
Qed.

Lemma ready_Ok h stage s l s' :
  getSchedulesReadyForExecution h stage s = Ok (l, s') → room s →
  s = s' ∧ l = filter (due h stage) (all_schedules s).
Proof.
  unfold getSchedulesReadyForExecution, GetParams, GetAllSchedules. intros Hr Hroom.
  run_gets Hr. run_gets Hr. run_ret Hr. split; [done|]. apply collectReady_all.
  rewrite length_all_schedules. unfold room in Hroom. destruct (params s); cbn in *; lia.
Qed.

(** *** What it is to run a schedule *)

Section turns.
  Context {W : WasmMsgServer}.
(** The module's account calls the contracts of the messages one after another. *)
Inductive calls : list MsgExecuteContract → store → store → Prop :=
| no_calls s : calls [] s s
| a_call m l s s1 s2 :
    ExecuteContract (GetModuleAddress ModuleName) (Contract m) (Msg m) s = Ok (tt, s1) → calls l s1 s2 →
    calls (m :: l) s s2.
(** A schedule's turn: it is marked with the height; then all its messages are called, or the calls up to
    one that fails are undone. *)
Inductive turn (h : Z) (x : Schedule) (s : store) : store → Prop :=
| turn_done s' :
    calls (Msgs x) (set_schedules (insert (Name x) (executed_at h x)) s) s' → turn h x s s'
| turn_failed l m l' s1 e :
    Msgs x = l ++ m :: l' → calls l (set_schedules (insert (Name x) (executed_at h x)) s) s1 →
    ExecuteContract (GetModuleAddress ModuleName) (Contract m) (Msg m) s1 = Err e →
    turn h x s (set_schedules (insert (Name x) (executed_at h x)) s).
Inductive turns (h : Z) : list Schedule → store → store → Prop :=
| no_turns s : turns h [] s s
| a_turn x l s s1 s2 : turn h x s s1 → turns h l s1 s2 → turns h (x :: l) s s2.
End turns.

(** *** Running them *)

Context {W : WasmMsgServer} (Q : quiet W).

Lemma messages_calls l s :
  (∀ u s', for_each l (λ m, ExecuteContract (GetModuleAddress ModuleName) (Contract m) (Msg m)) s = Ok (u, s') → calls l s s') ∧
  (∀ e, for_each l (λ m, ExecuteContract (GetModuleAddress ModuleName) (Contract m) (Msg m)) s = Err e →
     ∃ l1 m l2 s1 e', l = l1 ++ m :: l2 ∧ calls l1 s s1 ∧
       ExecuteContract (GetModuleAddress ModuleName) (Contract m) (Msg m) s1 = Err e').
Proof using.
  revert s. induction l as [|m l IH]; intros s; cbn [for_each].
  - split; [|done]. intros u s' H. run_ret H. constructor.
  - unfold mbind, M_bind. destruct (ExecuteContract _ _ _ s) as [[[] s1]|e|] eqn:E; [|split; [done|]|by split].
    + destruct (IH s1) as [IH1 IH2]. split.
      * intros u s' H. eapply a_call; [exact E|]. by eapply IH1.
      * intros e (l1 & m' & l2 & s2 & e' & -> & Hc & He)%IH2. exists (m :: l1), m', l2, s2, e'.
        split; [done|]. split; [by eapply a_call|done].
    + intros _ _. exists [], m, l, s, e. split; [done|]. split; [constructor|done].
Qed.
Lemma executeSchedule_turn h x s e s' : executeSchedule h x s = Ok (e, s') → turn (wrap64 h) x s s'.
Proof using.
  unfold executeSchedule, storeSchedule. intros Hr. run Hr as u s1 H1. apply st_modify_Ok in H1 as ->.
  destruct (messages_calls (Msgs x) (set_schedules (insert (Name x) (executed_at (wrap64 h) x)) s)) as [M1 M2].
  unfold on_branch in Hr. destruct (for_each _ _ _) as [[u1 s2]|er|] eqn:E; [| |done]; simplify_eq.
  - eapply turn_done. by eapply M1.
  - destruct (M2 er eq_refl) as (l1 & m & l2 & s1 & e' & El & Hc & He). by eapply turn_failed.
Qed.
Lemma run_turns h l s u s' :
  for_each l (λ x, _ ← executeSchedule h x; mret tt) s = Ok (u, s') → turns (wrap64 h) l s s'.
Proof using.
  revert s. induction l as [|x l IH]; intros s Hr; cbn [for_each] in Hr; [run_ret Hr; constructor|].
  run Hr as u1 s1 H1. run H1 as e s2 H2. run_ret H1. eapply a_turn; [by eapply executeSchedule_turn|by apply IH].
Qed.
(** A callback of a block: exactly the due schedules have a turn, in the order of their names. *)
Lemma callback_turns h stage s u s' :
  ExecuteReadySchedules h stage s = Ok (u, s') → room s →
  turns (wrap64 h) (filter (due h stage) (all_schedules s)) s s'.
Proof using.
  unfold ExecuteReadySchedules. intros Hr Hroom. run Hr as l s1 H1. apply ready_Ok in H1 as [<- ->]; [|done].
  by apply run_turns in Hr.
Qed.

Lemma executeSchedule_Ok h x s e s' :
  executeSchedule h x s = Ok (e, s') →
  schedules s' = <[Name x := executed_at (wrap64 h) x]> (schedules s) ∧ params s' = params s.
Proof using Q.
  unfold executeSchedule, storeSchedule. intros Hr. run Hr as u s1 H1. apply st_modify_Ok in H1 as ->.
  assert (same_cron (set_schedules (<[Name x:=executed_at (wrap64 h) x]>) s) s') as [E1 E2]; [|done].
  unfold on_branch in Hr. destruct (for_each _ _ _) as [[u1 s2]| |] eqn:E; [|by simplify_eq|done].
  simplify_eq. revert E. apply keeps_for_each; [typeclasses eauto|]. intros m. apply Q.
Qed.

Lemma run_schedules h l s u s' :
  for_each l (λ x, _ ← executeSchedule h x; mret tt) s = Ok (u, s') → NoDup (Name <$> l) →
  params s' = params s ∧
  (∀ x, x ∈ l → schedules s' !! Name x = Some (executed_at (wrap64 h) x)) ∧
  (∀ n, n ∉ (Name <$> l) → schedules s' !! n = schedules s !! n).
Proof using Q.
  revert s. induction l as [|x l IH]; intros s Hr Hnd; cbn [for_each] in Hr.
  - run_ret Hr. split; [done|]. split; [by intros ? ?%not_elem_of_nil|done].
  - rewrite fmap_cons, NoDup_cons in Hnd. destruct Hnd as [Hx Hnd].
    run Hr as u1 s1 H1. run H1 as e s2 H2. run_ret H1. apply executeSchedule_Ok in H2 as [E1 E2].
    destruct (IH s2 Hr Hnd) as (P1 & P2 & P3). split; [congruence|]. split.
    + intros y [->|Hy]%elem_of_cons; [|by apply P2].
      rewrite P3 by done. by rewrite E1, lookup_insert_eq.
    + intros n [Hn1 Hn2]%not_elem_of_cons. rewrite P3, E1 by done. by rewrite lookup_insert_ne.
Qed.

(** One call: every due schedule is marked as executed at this height, the others stay. *)
Lemma execute_ready h stage s u s' :
  ExecuteReadySchedules h stage s = Ok (u, s') → well_named s → room s →
  params s' = params s ∧
  ∀ n, schedules s' !! n =
    (λ x, if decide (due h stage x) then executed_at (wrap64 h) x else x) <$> schedules s !! n.
Proof using Q.
  unfold ExecuteReadySchedules. intros Hr Hw Hroom. run Hr as l s1 H1. apply ready_Ok in H1 as [<- ->]; [|done].
  pose proof (NoDup_all_schedules s Hw) as Hnd.
  apply run_schedules in Hr as (P1 & P2 & P3).
  2:{ eapply sublist_NoDup; [exact Hnd|]. apply fmap_sublist, sublist_filter. }
  split; [done|]. intros n. destruct (schedules s !! n) as [x|] eqn:En; cbn [fmap option_fmap option_map].
  - pose proof (Hw n x En) as Hx. case_decide as Hd.
    + rewrite <- Hx. apply P2. apply list_elem_of_filter. split; [done|]. apply elem_all_schedules. by exists n.
    + rewrite P3, En; [done|]. intros (y & Hy & [Hdy Hin]%list_elem_of_filter)%list_elem_of_fmap.
      apply elem_all_schedules in Hin as [k Hk]. pose proof (Hw k y Hk). assert (y = x) as -> by congruence. done.
  - rewrite P3, En; [done|]. intros (y & Hy & [Hdy Hin]%list_elem_of_filter)%list_elem_of_fmap.
    apply elem_all_schedules in Hin as [k Hk]. pose proof (Hw k y Hk). congruence.
Qed.

Lemma execute_well_named h stage s u s' :
  ExecuteReadySchedules h stage s = Ok (u, s') → well_named s → room s → well_named s'.
Proof using Q.
  intros Hr Hw Hroom. destruct (execute_ready _ _ _ _ _ Hr Hw Hroom) as [_ E1]. intros n x. rewrite E1.
  intros (y & Hy & Hn)%fmap_Some. specialize (Hw n y Hy). subst x. by case_decide.
Qed.

(** *** Blocks *)

(** Between the callbacks of the blocks anything may happen that leaves the schedule [n] alone and keeps
    room for all. *)
Definition elsewhere (n : string) (s s' : store) : Prop :=
  schedules s' !! n = schedules s !! n ∧ well_named s' ∧ room s'.

Inductive blocks (n : string) (h : Z) (s : store) : Z → store → Prop :=
| NoBlock : blocks n h s h s
| NextBlock h' s1 s2 s3 s4 u1 u2 s5 :
    blocks n h s h' s1 → elsewhere n s1 s2 →
    BeginBlock (h' + 1) s2 = Ok (u1, s3) → elsewhere n s3 s4 →
    EndBlock (h' + 1) s4 = Ok (u2, s5) → blocks n h s (h' + 1) s5.

(** The same with what is run in each callback: the log of all turns, with their heights. *)
Inductive ran (n : string) (h : Z) (s : store) : list (Z * Schedule) → Z → store → Prop :=
| RanNothing : ran n h s [] h s
| RanBlock log h' s1 s2 l1 s3 s4 l2 s5 :
    ran n h s log h' s1 → elsewhere n s1 s2 → turns (h' + 1) l1 s2 s3 → elsewhere n s3 s4 →
    turns (h' + 1) l2 s4 s5 → ran n h s (log ++ (pair (h' + 1) <$> (l1 ++ l2))) (h' + 1) s5.
Definition turns_of (n : string) (log : list (Z * Schedule)) : list (Z * Schedule) := filter (λ e, Name e.2 = n) log.
(** A turn every [p + 1] blocks after height [l], [k] of them. *)
Definition on_schedule (x : Schedule) (l p : Z) (k : nat) : list (Z * Schedule) :=
  (λ i, (l + (p + 1) * (Z.of_nat i + 1), executed_at (l + (p + 1) * Z.of_nat i) x)) <$> seq 0 k.

Lemma turns_named s n y (P : Schedule → Prop) `{∀ x, Decision (P x)} :
  well_named s → schedules s !! n = Some y →
  filter (λ x, Name x = n) (filter P (all_schedules s)) = if decide (P y) then [y] else [].
Proof using.
  intros Hw Hy. pose proof (NoDup_all_schedules s Hw) as Hnd.
  assert (y ∈ all_schedules s) as Hin by (apply elem_all_schedules; by exists n).
  pose proof (Hw n y Hy) as Hname. revert Hnd Hin. induction (all_schedules s) as [|z l IH]; intros Hnd Hin; [by apply not_elem_of_nil in Hin|].
  cbn [fmap list_fmap] in Hnd. apply NoDup_cons in Hnd as [Hz Hnd].
  assert (Name z = n → filter (λ x, Name x = n) (filter P l) = []) as Hrest.
  { intros Hn. apply elem_of_nil_inv. intros x [Hxn [_ Hx]%list_elem_of_filter]%list_elem_of_filter. apply Hz. rewrite Hn, <- Hxn. by apply list_elem_of_fmap_2. }
  apply elem_of_cons in Hin as [<-|Hin].
  - rewrite filter_cons. case_decide; [rewrite filter_cons_True by done; by rewrite Hrest|by apply Hrest].
  - assert (Name z ≠ n) as Hne.
    { intros Hn. apply Hz. rewrite Hn, <- Hname. by apply list_elem_of_fmap_2. }
    rewrite filter_cons. destruct (decide (P z)); [rewrite filter_cons_False by done|]; by apply IH.
Qed.
Lemma turns_of_app n log h l : turns_of n (log ++ (pair h <$> l)) = turns_of n log ++ (pair h <$> filter (λ x, Name x = n) l).
Proof using.
  unfold turns_of. rewrite filter_app. f_equal. induction l as [|x l IH]; [done|]. cbn [fmap list_fmap].
  rewrite !filter_cons. cbn [snd]. case_decide; [cbn [fmap list_fmap]; by f_equal|done].
Qed.

(** The height of the last execution up to [h'], counting from [l] in steps of [p + 1]. *)
Definition last_on_grid (l p h' : Z) : Z := l + (p + 1) * ((h' - l) / (p + 1)).

Lemma last_on_grid_next l p h :
  0 ≤ p → l ≤ h →
  last_on_grid l p (h + 1) = if h + 1 >? last_on_grid l p h + p then h + 1 else last_on_grid l p h.
Proof using.
  intros Hp Hl. unfold last_on_grid. set (q := (h - l) / (p + 1)).
  pose proof (Z.div_mod (h - l) (p + 1) ltac:(lia)) as Hd. fold q in Hd.
  pose proof (Z.mod_pos_bound (h - l) (p + 1) ltac:(lia)) as Hm.
  destruct (Z.gtb_spec (h + 1) (l + (p + 1) * q + p)).
  - rewrite <- (Z.div_unique (h + 1 - l) (p + 1) (q + 1) 0); lia.
  - rewrite <- (Z.div_unique (h + 1 - l) (p + 1) q ((h - l) mod (p + 1) + 1)); lia.
Qed.

Lemma last_on_grid_bounds l p h : 0 ≤ p → l ≤ h → l ≤ last_on_grid l p h ≤ h.
Proof using.
  unfold last_on_grid. intros. pose proof (Z.mul_div_le (h - l) (p + 1) ltac:(lia)).
  pose proof (Z.div_pos (h - l) (p + 1) ltac:(lia) ltac:(lia)). nia.
Qed.

Lemma due_iff h stage x :
  0 ≤ h < 2 ^ 64 → 0 ≤ LastExecuteHeight x + Period x < 2 ^ 64 →
  (due h stage x ↔ LastExecuteHeight x + Period x < h ∧ ExecutionStage x = stage).
Proof using.
  intros Hh Hx. unfold due, intervalPassed, wrap64. rewrite !Z.mod_small by done.
  rewrite andb_true_iff, Z.eqb_eq, Z.gtb_lt. done.
Qed.

Lemma count_next l p h :
  0 ≤ p → l ≤ h →
  (h + 1 - l) / (p + 1) = (h - l) / (p + 1) + if h + 1 >? last_on_grid l p h + p then 1 else 0.
Proof using.
  intros Hp Hl. unfold last_on_grid. set (q := (h - l) / (p + 1)).
  pose proof (Z.div_mod (h - l) (p + 1) ltac:(lia)) as Hd. fold q in Hd.
  pose proof (Z.mod_pos_bound (h - l) (p + 1) ltac:(lia)) as Hm.
  destruct (Z.gtb_spec (h + 1) (l + (p + 1) * q + p)).
  - rewrite <- (Z.div_unique (h + 1 - l) (p + 1) (q + 1) 0); lia.
  - rewrite <- (Z.div_unique (h + 1 - l) (p + 1) q ((h - l) mod (p + 1) + 1)); lia.
Qed.

(** A block runs the schedule, in its stage, exactly if its interval has passed. *)
Lemma block_runs n h s2 s3 s4 s5 u1 u2 x :
  well_named s2 → room s2 → BeginBlock h s2 = Ok (u1, s3) → elsewhere n s3 s4 →
  EndBlock h s4 = Ok (u2, s5) → schedules s2 !! n = Some x →
  0 ≤ h < 2 ^ 64 → 0 ≤ LastExecuteHeight x + Period x < 2 ^ 64 → 0 ≤ Period x < 2 ^ 64 - h →
  ExecutionStage x = EXECUTION_STAGE_BEGIN_BLOCKER ∨ ExecutionStage x = EXECUTION_STAGE_END_BLOCKER →
  schedules s5 !! n =
    Some (if h >? LastExecuteHeight x + Period x then executed_at h x else x) ∧
  ∃ l1 l2, turns h l1 s2 s3 ∧ turns h l2 s4 s5 ∧
    filter (λ y, Name y = n) (l1 ++ l2) = if h >? LastExecuteHeight x + Period x then [x] else [].
Proof using Q.
  intros Hw Hroom Hb (Ek & Hw4 & Hr4) He Hx Hh Hlp Hp Hst.
  pose proof (callback_turns _ _ _ _ _ Hb Hroom) as T1. pose proof (callback_turns _ _ _ _ _ He Hr4) as T2.
  destruct (execute_ready _ _ _ _ _ Hb Hw Hroom) as [_ E1]. specialize (E1 n). rewrite Hx in E1. cbn in E1.
  destruct (execute_ready _ _ _ _ _ He Hw4 Hr4) as [_ E2]. specialize (E2 n). rewrite E1 in Ek. rewrite Ek in E2. cbn in E2.
  assert (wrap64 h = h) as Eh by (unfold wrap64; by rewrite Z.mod_small). rewrite Eh in *.
  assert (∀ st, due h st x ↔ LastExecuteHeight x + Period x < h ∧ ExecutionStage x = st) as Dx by (intros; by apply due_iff).
  assert (∀ st, ¬ due h st (executed_at h x)) as De by (intros st; rewrite due_iff by (cbn; lia); cbn; lia).
  rewrite E2. split; [|do 2 eexists; split; [exact T1|]; split; [exact T2|]; rewrite filter_app, (turns_named s2 n x), (turns_named s4 n _ _ Hw4 Ek) by done].
  all: destruct (decide (due h EXECUTION_STAGE_BEGIN_BLOCKER x)) as [D1|D1];
    [rewrite decide_False by apply De; apply Dx in D1 as [? _]; by rewrite (proj2 (Z.gtb_lt _ _))|].
  all: destruct (decide (due h EXECUTION_STAGE_END_BLOCKER x)) as [D2|D2]; [apply Dx in D2 as [? _]; by rewrite (proj2 (Z.gtb_lt _ _))|].
  all: rewrite Dx in D1, D2; destruct (Z.gtb_spec h (LastExecuteHeight x + Period x)); [destruct Hst; tauto|done].
Qed.
End cron.


(** *** A run *)

Definition demo_chain : Chain := {| World := nat; GetModuleAddress m := m; Authority := "admin" |}.
#[local] Existing Instance demo_chain.
(** A contract that counts its calls. *)
Definition counting : WasmMsgServer :=
  {| ExecuteContract _ _ _ := modify (λ s, {| schedules := schedules s; scheduleCount := scheduleCount s;
       params := params s; world := S (world s) |}) |}.
Definition demo_schedule : Schedule := {| Name := "oracle"; Period := 2;
  Msgs := [{| Contract := "feed"; Msg := "{}" |}]; LastExecuteHeight := 10; ExecutionStage := 0 |}.
Definition demo_state (x : Schedule) (calls : nat) : store := {| schedules := {["oracle"%string := x]};
  scheduleCount := Some 1; params := Some {| SecurityAddress := ""; Limit := 5 |}; world := calls |}.

Lemma counting_quiet : quiet counting.
Proof. intros a c m. apply keeps_modify; [typeclasses eauto|]. intros s. done. Qed.

Lemma demo_elsewhere x calls :
  Name x = "oracle"%string → elsewhere "oracle" (demo_state x calls) (demo_state x calls).
Proof.
  intros Hx. split; [done|]. split.
  - intros n y Hy. cbn in Hy. by apply lookup_singleton_Some in Hy as [<- <-].
  - unfold room. cbn. rewrite map_size_singleton. lia.
Qed.

Lemma demo_block (h : Z) (x y : Schedule) (calls calls' : nat) s :
  Name x = "oracle"%string →
  BeginBlock (W := counting) (h + 1) (demo_state x calls) = Ok (tt, demo_state x calls) →
  EndBlock (W := counting) (h + 1) (demo_state x calls) = Ok (tt, demo_state y calls') →
  blocks (W := counting) "oracle" 10 s h (demo_state x calls) →
  blocks (W := counting) "oracle" 10 s (h + 1) (demo_state y calls').
Proof. intros Hx Hb He Hr. by eapply NextBlock; [exact Hr|apply demo_elsewhere|exact Hb|apply demo_elsewhere|]. Qed.

(** Three blocks after height 10 the schedule of period 2 runs, once. *)
Lemma cron_blocks :
  blocks (W := counting) "oracle" 10 (demo_state demo_schedule 0) 13
    (demo_state (executed_at 13 demo_schedule) 1).
Proof.
  apply (demo_block 12 demo_schedule _ 0 _); [done|by vm_compute..|].
  apply (demo_block 11 demo_schedule _ 0 _); [done|by vm_compute..|].
  apply (demo_block 10 demo_schedule _ 0 _); [done|by vm_compute..|]. apply NoBlock.
Qed.


(** *** A schedule that is removed while schedules run

    The ready schedules are read before the first one runs, and each is stored again when its turn
    comes.  Here the first schedule's contract removes the second one, through the module's own message;
    it is back after the block, and the count of schedules is one short. *)
#[local] Instance demo_addresses : addr.Addresses := {|
  addr.AddressString a := a; addr.AccAddressFromBech32 a := Ok a;
  addr.NewPoolAddress _ := ""%string; addr.NewModuleAddressWithPrefix m _ _ := m |}.
Definition removing : WasmMsgServer := {| ExecuteContract _ c _ :=
  if String.eqb c "dao" then MsgRemoveSchedule "admin" "second" else mret tt |}.
Definition calling (n c : string) : Schedule := {| Name := n; Period := 2;
  Msgs := [{| Contract := c; Msg := "{}" |}]; LastExecuteHeight := 10; ExecutionStage := 0 |}.

Definition demo_pair (calls : nat) : store := {|
  schedules := {["first"%string := calling "first" "dao"; "second"%string := calling "second" "feed"]};
  scheduleCount := Some 2; params := Some {| SecurityAddress := ""; Limit := 5 |}; world := calls |}.

Lemma removed_schedule_returns :
  ∃ s s' : store (Ch := demo_chain), EndBlock (W := removing) 13 s = Ok (tt, s') ∧ scheduleCount s = Some 2 ∧
    is_Some (schedules s' !! "second"%string) ∧ size (schedules s') = 2%nat ∧ scheduleCount s' = Some 1.
Proof.
  exists (demo_pair 0).
  eexists. split; [vm_compute; reflexivity|]. split; [done|]. split; [by eexists|]. by split.
Qed.
End CronProps.
