(* ===== verification/Epochs.v ===== *)
(** Epochs: x/epochs (keeper/abci.go, keeper/epoch.go, keeper/hooks.go, keeper/genesis.go, types/hooks.go,
    types/genesis.go) and osmoutils/cache_ctx.go.

    Times are nanoseconds since Go's zero time and durations nanoseconds, as unbounded integers; the
    epoch number is an [int64] and wraps.  The store is a map keyed by identifier, which the iterator
    yields in the order of the identifiers' bytes; [BeginBlocker] only writes the entry the iterator is
    at.  Hooks belong to other modules and act on the rest of the chain.  Events, logs and telemetry are
    left out.

    The epoch clock (Epochs): what a block does to an epoch, and that the clock keeps up with the time of
    the blocks. *)
From stdpp Require Import prelude strings list gmap sorting.
From S2P Require Import Prelude.
From S2P Require Import GoBig.
From S2P Require Import GoState.
From S2P Require Import CLPool.
Local Open Scope Z_scope.

Module Epochs.
Record EpochInfo := {
  Identifier : string;
  StartTime : Z;
  Duration : Z;
  CurrentEpoch : Z;
  CurrentEpochStartTime : Z;
  EpochCountingStarted : bool;
  CurrentEpochStartHeight : Z
}.
#[export] Instance EpochInfo_eq_dec : EqDecision EpochInfo.
Proof. solve_decision. Defined.
(** [types.EpochInfo{}] *)
Definition zeroEpochInfo : EpochInfo := {| Identifier := ""; StartTime := 0; Duration := 0;
  CurrentEpoch := 0; CurrentEpochStartTime := 0; EpochCountingStarted := false;
  CurrentEpochStartHeight := 0 |}.

Definition with_start (startTime height : Z) (e : EpochInfo) : EpochInfo :=
  {| Identifier := Identifier e; StartTime := startTime; Duration := Duration e;
     CurrentEpoch := CurrentEpoch e; CurrentEpochStartTime := CurrentEpochStartTime e;
     EpochCountingStarted := EpochCountingStarted e; CurrentEpochStartHeight := height |}.
Definition with_epoch (epoch startTime height : Z) (started : bool) (e : EpochInfo) : EpochInfo :=
  {| Identifier := Identifier e; StartTime := StartTime e; Duration := Duration e;
     CurrentEpoch := epoch; CurrentEpochStartTime := startTime;
     EpochCountingStarted := started; CurrentEpochStartHeight := height |}.

(** Addition of [int64]. *)
Definition add64 (a b : Z) : Z := (a + b + 2 ^ 63) mod 2 ^ 64 - 2 ^ 63.

(** *** types/genesis.go *)

Definition Validate (epoch : EpochInfo) : outcome unit :=
  if String.eqb (Identifier epoch) "" then Err "epoch identifier should NOT be empty"
  else if Duration epoch =? 0 then Err "epoch duration should NOT be 0"
  else if CurrentEpoch epoch <? 0 then Err "epoch CurrentEpoch must be non-negative"
  else if CurrentEpochStartHeight epoch <? 0 then
    Err "epoch CurrentEpochStartHeight must be non-negative"
  else Ok tt.

(** The loop over a genesis state's epochs, with the identifiers seen so far. *)
Fixpoint validateEpochs (epochIdentifiers : list string) (epochs : list EpochInfo) : outcome unit :=
  match epochs with
  | [] => Ok tt
  | epoch :: epochs =>
    _ ← Validate epoch;
    if bool_decide (Identifier epoch ∈ epochIdentifiers) then Err "epoch identifier should be unique"
    else validateEpochs (Identifier epoch :: epochIdentifiers) epochs
  end.
Definition GenesisState_Validate (epochs : list EpochInfo) : outcome unit := validateEpochs [] epochs.

Definition NewGenesisEpochInfo (identifier : string) (duration : Z) : EpochInfo :=
  {| Identifier := identifier; StartTime := 0; Duration := duration; CurrentEpoch := 0;
     CurrentEpochStartTime := 0; EpochCountingStarted := false; CurrentEpochStartHeight := 0 |}.
Definition hour : Z := 3600 * 10 ^ 9.
Definition DefaultGenesis : list EpochInfo :=
  [NewGenesisEpochInfo "day" (hour * 24); NewGenesisEpochInfo "hour" hour;
   NewGenesisEpochInfo "week" (hour * 24 * 7)].

(** *** The keeper *)

Class Chain : Type := { World : Type }.

Section epochs.
  Context {Ch : Chain}.

Record store := { epochs : gmap string EpochInfo; world : World }.
Definition set_epochs f (s : store) : store := {| epochs := f (epochs s); world := world s |}.
Definition set_world w (s : store) : store := {| epochs := epochs s; world := w |}.
Abbreviation K := (M store).

(** [EpochHooks] of one module. *)
Record EpochHooks := {
  AfterEpochEnd : string → Z → M World unit;
  BeforeEpochStart : string → Z → M World unit
}.

Definition GetEpochInfo (identifier : string) : K EpochInfo :=
  gets (λ s, default zeroEpochInfo (epochs s !! identifier)).
Definition setEpochInfo (epoch : EpochInfo) : K unit :=
  modify (set_epochs (insert (Identifier epoch) epoch)).
Definition DeleteEpochInfo (identifier : string) : K unit := modify (set_epochs (delete identifier)).

Definition AddEpochInfo (blockTime blockHeight : Z) (epoch : EpochInfo) : K unit :=
  _ ← lift (Validate epoch);
  found ← GetEpochInfo (Identifier epoch);
  _ ← require (bool_decide (found = zeroEpochInfo)) "epoch already exists";
  let startTime := if StartTime epoch =? 0 then blockTime else StartTime epoch in
  setEpochInfo (with_start startTime blockHeight epoch).

(** The order of the store's iterator. *)
Definition id_le (x y : EpochInfo) : Prop := String.leb (Identifier x) (Identifier y) = true.
#[global] Instance id_le_dec : RelDecision id_le.
Proof. intros x y. unfold id_le. apply _. Defined.
Definition all_epochs (s : store) : list EpochInfo := merge_sort id_le (map_to_list (epochs s)).*2.
Definition AllEpochInfos : K (list EpochInfo) := gets all_epochs.

Definition NumBlocksSinceEpochStart (blockHeight : Z) (identifier : string) : K Z :=
  epoch ← GetEpochInfo identifier;
  _ ← require (negb (bool_decide (epoch = zeroEpochInfo))) "epoch not found";
  mret (add64 blockHeight (- CurrentEpochStartHeight epoch)).

(** *** Hooks: types/hooks.go and osmoutils/cache_ctx.go *)

Definition IsOutOfGasError (p : string) : bool :=
  String.eqb p "ErrorOutOfGas" || String.eqb p "ErrorGasOverflow".
(** An error or a panic drops what [f] did; running out of gas panics on.  The error is returned. *)
Definition ApplyFuncIfNoError (f : M World unit) : M World (option string) := λ w,
  match f w with
  | Ok (_, w') => Ok (None, w')
  | Err e => Ok (Some e, w)
  | Panic p => if IsOutOfGasError p then Panic p else Ok (Some "panic occurred during execution"%string, w)
  end.
Definition panicCatchingEpochHook (hookFn : string → Z → M World unit) (epochIdentifier : string)
    (epochNumber : Z) : M World unit :=
  _ ← ApplyFuncIfNoError (hookFn epochIdentifier epochNumber);
  mret tt.

Context (hooks : list EpochHooks).

Definition keeper_AfterEpochEnd (identifier : string) (epochNumber : Z) : K unit :=
  zoom world set_world
    (for_each hooks (λ hook, panicCatchingEpochHook (AfterEpochEnd hook) identifier epochNumber)).
Definition keeper_BeforeEpochStart (identifier : string) (epochNumber : Z) : K unit :=
  zoom world set_world
    (for_each hooks (λ hook, panicCatchingEpochHook (BeforeEpochStart hook) identifier epochNumber)).

(** *** keeper/abci.go *)

(** The body of the iteration. *)
Definition beginBlockEpoch (blockTime blockHeight : Z) (epochInfo : EpochInfo) : K unit :=
  if blockTime <? StartTime epochInfo then mret tt else
  let shouldInitialEpochStart := negb (EpochCountingStarted epochInfo) in
  let epochEndTime := CurrentEpochStartTime epochInfo + Duration epochInfo in
  let shouldEpochStart := (blockTime >? epochEndTime) || shouldInitialEpochStart in
  if negb shouldEpochStart then mret tt else
  epochInfo ←
    (if shouldInitialEpochStart then
       mret (with_epoch 1 (StartTime epochInfo) blockHeight true epochInfo)
     else
       _ ← keeper_AfterEpochEnd (Identifier epochInfo) (CurrentEpoch epochInfo);
       mret (with_epoch (add64 (CurrentEpoch epochInfo) 1)
               (CurrentEpochStartTime epochInfo + Duration epochInfo) blockHeight
               (EpochCountingStarted epochInfo) epochInfo));
  _ ← setEpochInfo epochInfo;
  keeper_BeforeEpochStart (Identifier epochInfo) (CurrentEpoch epochInfo).

Definition BeginBlocker (blockTime blockHeight : Z) : K unit :=
  l ← AllEpochInfos;
  for_each l (beginBlockEpoch blockTime blockHeight).

(** *** keeper/genesis.go *)

Definition InitGenesis (blockTime blockHeight : Z) (genState : list EpochInfo) : K unit :=
  for_each genState (λ epoch, λ s, Pool.or_panic (AddEpochInfo blockTime blockHeight epoch s) "InitGenesis").
Definition ExportGenesis : K (list EpochInfo) := AllEpochInfos.
End epochs.
End Epochs.

Import Epochs.

Module EpochsProps.
Section epochs.
  Context {Ch : Chain} (hooks : list EpochHooks).

(** Epochs are stored under their identifiers. *)
Definition keyed (s : store) : Prop := ∀ k e, epochs s !! k = Some e → Identifier e = k.

(** The clock of one epoch, without the store and the hooks. *)
Definition tick (t h : Z) (e : EpochInfo) : EpochInfo :=
  if t <? StartTime e then e
  else if negb (EpochCountingStarted e) then with_epoch 1 (StartTime e) h true e
  else if t >? CurrentEpochStartTime e + Duration e then
    with_epoch (add64 (CurrentEpoch e) 1) (CurrentEpochStartTime e + Duration e) h true e
  else e.

Lemma tick_id t h e : Identifier (tick t h e) = Identifier e.
Proof using. unfold tick. by repeat case_match. Qed.

(** Hooks do not change the epochs. *)
Definition same_epochs (s s' : store) : Prop := epochs s' = epochs s.
Lemma zoom_epochs (m : M World unit) : keeps same_epochs (zoom world set_world m).
Proof using. intros s u s' (w & _ & ->)%st_zoom_Ok. done. Qed.

Lemma beginBlockEpoch_Ok t h e s u s' :
  beginBlockEpoch hooks t h e s = Ok (u, s') → epochs s !! Identifier e = Some e →
  epochs s' = <[Identifier e := tick t h e]> (epochs s).
Proof using.
  unfold beginBlockEpoch, tick. intros Hr He. destruct (t <? StartTime e).
  { run_ret Hr. by rewrite insert_id. }
  destruct (EpochCountingStarted e) eqn:Es; cbn [negb] in *; [rewrite orb_false_r in Hr|rewrite orb_true_r in Hr].
  - destruct (t >? _); cbn [negb] in Hr; [|run_ret Hr; by rewrite insert_id].
    run Hr as e1 s1 H1. run H1 as u1 s2 H2. apply zoom_epochs in H2. run_ret H1.
    run Hr as u3 s3 H3. apply st_modify_Ok in H3 as ->. apply zoom_epochs in Hr.
    rewrite Hr. cbn. by rewrite H2, ?Es.
  - run Hr as e1 s1 H1. run_ret H1. run Hr as u3 s3 H3. apply st_modify_Ok in H3 as ->.
    apply zoom_epochs in Hr. by rewrite Hr.
Qed.

Lemma run_epochs t h l s u s' :
  for_each l (beginBlockEpoch hooks t h) s = Ok (u, s') → NoDup (Identifier <$> l) →
  (∀ e, e ∈ l → epochs s !! Identifier e = Some e) →
  (∀ e, e ∈ l → epochs s' !! Identifier e = Some (tick t h e)) ∧
  (∀ k, k ∉ (Identifier <$> l) → epochs s' !! k = epochs s !! k).
Proof using.
  revert s. induction l as [|e l IH]; intros s Hr Hnd Hl; cbn [for_each] in Hr.
  - run_ret Hr. split; [by intros ? ?%not_elem_of_nil|done].
  - rewrite fmap_cons, NoDup_cons in Hnd. destruct Hnd as [He Hnd].
    run Hr as u1 s1 H1. apply beginBlockEpoch_Ok in H1; [|apply Hl; by left].
    destruct (IH s1 Hr Hnd) as [P1 P2].
    { intros e' He'. rewrite H1, lookup_insert_ne; [apply Hl; by right|].
      intros Heq. apply He. rewrite Heq. by apply list_elem_of_fmap_2. }
    split.
    + intros e' [->|He']%elem_of_cons; [|by apply P1]. by rewrite P2, H1, lookup_insert_eq.
    + intros k [Hk1 Hk2]%not_elem_of_cons. by rewrite P2, H1, lookup_insert_ne.
Qed.

Lemma elem_all_epochs s e : keyed s → e ∈ all_epochs s ↔ epochs s !! Identifier e = Some e.
Proof using.
  intros Hk. unfold all_epochs. rewrite (merge_sort_Permutation id_le), list_elem_of_fmap. split.
  - intros ([k y] & -> & Hy%elem_of_map_to_list). cbn. by rewrite (Hk k y Hy).
  - intros He. exists (Identifier e, e). by rewrite elem_of_map_to_list.
Qed.

Lemma NoDup_all_epochs s : keyed s → NoDup (Identifier <$> all_epochs s).
Proof using.
  intros Hk. unfold all_epochs. rewrite (merge_sort_Permutation id_le), <- list_fmap_compose.
  rewrite (list_fmap_ext _ fst); [apply NoDup_fst_map_to_list|].
  intros i [k x] Hi%list_elem_of_lookup_2%elem_of_map_to_list. by apply Hk.
Qed.

(** A block ticks every epoch once. *)
Lemma BeginBlocker_ticks t h s u s' :
  BeginBlocker hooks t h s = Ok (u, s') → keyed s →
  ∀ k, epochs s' !! k = tick t h <$> epochs s !! k.
Proof using.
  unfold BeginBlocker, AllEpochInfos. intros Hr Hk k. run_gets Hr.
  apply run_epochs in Hr as [P1 P2]; [|by apply NoDup_all_epochs|intros e He; by apply elem_all_epochs].
  destruct (epochs s !! k) as [e|] eqn:Ek; cbn [fmap option_fmap option_map].
  - pose proof (Hk k e Ek) as <-. apply P1. by apply elem_all_epochs.
  - rewrite P2; [done|]. intros (e & -> & He)%list_elem_of_fmap. apply elem_all_epochs in He; [|done]. congruence.
Qed.

Lemma BeginBlocker_keyed t h s u s' : BeginBlocker hooks t h s = Ok (u, s') → keyed s → keyed s'.
Proof using.
  intros Hr Hk k e. rewrite (BeginBlocker_ticks _ _ _ _ _ Hr Hk). intros (x & Hx & ->)%fmap_Some.
  rewrite tick_id. by apply Hk.
Qed.

(** *** Histories *)

(** [n] blocks after time [t], with gaps of at most [d]; in between the rest of the chain changes. *)
Inductive blocks (d : Z) : nat → Z → store → Z → store → Prop :=
| NoBlock t s : blocks d 0 t s t s
| NextBlock n t s t' s1 w u t'' h s2 :
    blocks d n t s t' s1 → t' ≤ t'' ≤ t' + d →
    BeginBlocker hooks t'' h (set_world w s1) = Ok (u, s2) → blocks d (S n) t s t'' s2.

(** The clock at time [t]: it starts at the start time, and then shows the epoch that holds [t]. *)
Definition on_time (n : nat) (t : Z) (e : EpochInfo) : Prop :=
  if EpochCountingStarted e then
    1 ≤ CurrentEpoch e ≤ Z.of_nat n ∧
    CurrentEpochStartTime e = StartTime e + (CurrentEpoch e - 1) * Duration e ∧
    CurrentEpochStartTime e ≤ t ≤ CurrentEpochStartTime e + Duration e
  else t < StartTime e.

Lemma add64_small a b : - 2 ^ 63 ≤ a + b < 2 ^ 63 → add64 a b = a + b.
Proof using. intros H. unfold add64. rewrite Z.mod_small; lia. Qed.

Lemma tick_on_time n t t' h e :
  Z.of_nat n + 1 < 2 ^ 63 → 0 < Duration e → t ≤ t' ≤ t + Duration e →
  (if EpochCountingStarted e then on_time n t e else t ≤ StartTime e) →
  on_time (S n) t' (tick t' h e).
Proof using.
  intros Hn Hd Ht. unfold on_time, tick. destruct (EpochCountingStarted e) eqn:Es; intros H; cbn [negb].
  - destruct H as (H1 & H2 & H3).
    assert (0 ≤ (CurrentEpoch e - 1) * Duration e) by nia.
    rewrite (proj2 (Z.ltb_ge _ _)) by lia. destruct (Z.gtb_spec t' (CurrentEpochStartTime e + Duration e)).
    + cbn [EpochCountingStarted with_epoch CurrentEpoch CurrentEpochStartTime StartTime Duration].
      rewrite add64_small by lia. split; [lia|]. split; [rewrite H2; lia|lia].
    + rewrite Es. split; [lia|]. split; [done|lia].
  - destruct (Z.ltb_spec t' (StartTime e)); [by rewrite Es|].
    cbn [EpochCountingStarted with_epoch CurrentEpoch CurrentEpochStartTime StartTime Duration]. lia.
Qed.

Lemma blocks_keyed d n t s t' s' : blocks d n t s t' s' → keyed s → keyed s'.
Proof using. induction 1; [done|]. intros Hk. eapply BeginBlocker_keyed; [done|]. by apply IHblocks. Qed.

(** What never changes in an epoch. *)
Definition same_epoch (e e' : EpochInfo) : Prop :=
  Identifier e' = Identifier e ∧ StartTime e' = StartTime e ∧ Duration e' = Duration e.
Lemma same_epoch_tick t h e e' : same_epoch e e' → same_epoch e (tick t h e').
Proof using. unfold same_epoch, tick. intros (H1 & H2 & H3). by repeat case_match. Qed.

Lemma clock_invariant d n t s t' s' k e :
  blocks d n t s t' s' → keyed s → epochs s !! k = Some e → EpochCountingStarted e = false →
  0 < d ≤ Duration e → t ≤ StartTime e → Z.of_nat n < 2 ^ 63 →
  ∃ e', epochs s' !! k = Some e' ∧ same_epoch e e' ∧
    (if EpochCountingStarted e' then on_time n t' e' else t' ≤ StartTime e') ∧
    (n ≠ 0%nat → on_time n t' e').
Proof using.
  induction 1 as [t s|n t s t' s1 w u t'' h s2 Hb IH Ht Hr]; intros Hk He Hs Hd Hst Hn.
  - exists e. rewrite Hs. done.
  - destruct (IH Hk He Hs Hd Hst ltac:(lia)) as (e' & He' & Hsame & Hi & _).
    exists (tick t'' h e'). split.
    + rewrite (BeginBlocker_ticks _ _ _ _ _ Hr); [|by apply (blocks_keyed _ _ _ _ _ _ Hb)].
      cbn. by rewrite He'.
    + split; [by apply same_epoch_tick|]. destruct Hsame as (S1 & S2 & S3).
      assert (on_time (S n) t'' (tick t'' h e')) as Hot by (apply (tick_on_time n t'); rewrite ?S3; [lia..|done]).
      split; [|done]. unfold on_time in *. destruct (EpochCountingStarted (tick t'' h e')); [done|lia].
Qed.
End epochs.

(** C14. The clock keeps up: an epoch that starts after the chain does, with blocks no further apart than
    its duration, is always on time after a block: before its start time it is not counting, and from then
    on the current epoch is the [CurrentEpoch]-th interval of its duration after the start time, and holds
    the time of the block.  Its identifier, start time and duration never change, whatever the hooks do
    (errors and panics other than running out of gas included). *)
Theorem epoch_clock_on_time (Ch : Chain) (hooks : list EpochHooks) (d : Z) (n : nat) (t t' : Z)
    (s s' : store) (k : string) (e : EpochInfo) :
  keyed s → epochs s !! k = Some e → EpochCountingStarted e = false → 0 < d ≤ Duration e →
  t ≤ StartTime e → (0 < n)%nat → Z.of_nat n < 2 ^ 63 → blocks hooks d n t s t' s' →
  ∃ e', epochs s' !! k = Some e' ∧
    Identifier e' = Identifier e ∧ StartTime e' = StartTime e ∧ Duration e' = Duration e ∧
    (EpochCountingStarted e' = false → t' < StartTime e) ∧
    (EpochCountingStarted e' = true →
      1 ≤ CurrentEpoch e' ∧
      CurrentEpochStartTime e' = StartTime e + (CurrentEpoch e' - 1) * Duration e ∧
      CurrentEpochStartTime e' ≤ t' ≤ CurrentEpochStartTime e' + Duration e).
Proof.
  intros Hk He Hs Hd Hst Hn Hmax Hb.
  destruct (clock_invariant hooks d n t s t' s' k e Hb Hk He Hs Hd Hst Hmax)
    as (e' & He' & (S1 & S2 & S3) & _ & Hot).
  specialize (Hot ltac:(lia)). unfold on_time in Hot. rewrite S2, S3 in Hot.
  exists e'. do 4 (split; [done|]). split; intros Hc; rewrite Hc in Hot; [done|]. split; [lia|]. by destruct Hot.
Qed.

(** *** A run from the default genesis state *)

Definition demo_chain : Chain := {| World := nat |}.
#[local] Existing Instance demo_chain.
(** A hook that counts epochs and a hook that panics. *)
Definition demo_hooks : list EpochHooks :=
  [{| AfterEpochEnd _ _ := modify S; BeforeEpochStart _ _ := mret tt |};
   {| AfterEpochEnd _ _ := panic "bug"; BeforeEpochStart _ _ := throw "error" |}].
Definition final (s : outcome (unit * store)) : store :=
  match s with Ok (_, s) => s | _ => {| epochs := ∅; world := 0%nat |} end.
Definition demo_empty : store := {| epochs := ∅; world := 0%nat |}.
Definition demo0 : store := Eval vm_compute in final (InitGenesis (10 ^ 18) 1 DefaultGenesis demo_empty).
(** Three blocks, each 50 minutes after the last. *)
Abbreviation minutes m := (10 ^ 18 + m * (60 * 10 ^ 9)).
Definition demo1 : store := Eval vm_compute in final (BeginBlocker demo_hooks (minutes 50) 2 demo0).
Definition demo2 : store := Eval vm_compute in final (BeginBlocker demo_hooks (minutes 100) 3 demo1).
Definition demo3 : store := Eval vm_compute in final (BeginBlocker demo_hooks (minutes 150) 4 demo2).
Definition demo_hour : EpochInfo := with_start (10 ^ 18) 1 (NewGenesisEpochInfo "hour" hour).

Lemma demo_keyed : keyed demo0.
Proof.
  intros k e. change (epochs demo0) with
    (<["week"%string := with_start (10 ^ 18) 1 (NewGenesisEpochInfo "week" (hour * 24 * 7))]>
      (<["hour"%string := demo_hour]>
        (<["day"%string := with_start (10 ^ 18) 1 (NewGenesisEpochInfo "day" (hour * 24))]> (∅ : gmap string EpochInfo)))).
  rewrite !lookup_insert_Some, lookup_empty.
  by intros [[<- <-]|[_ [[<- <-]|[_ [[<- <-]|[_ [=]]]]]]].
Qed.

Lemma epoch_blocks : blocks demo_hooks hour 3 (10 ^ 18) demo0 (minutes 150) demo3.
Proof.
  eapply (NextBlock _ _ 2 _ _ (minutes 100) demo2 (world demo2) tt _ 4); [|split; vm_compute; discriminate|vm_compute; reflexivity].
  eapply (NextBlock _ _ 1 _ _ (minutes 50) demo1 (world demo1) tt _ 3); [|split; vm_compute; discriminate|vm_compute; reflexivity].
  eapply (NextBlock _ _ 0 _ _ (10 ^ 18) demo0 (world demo0) tt _ 2); [apply NoBlock|split; vm_compute; discriminate|vm_compute; reflexivity].
Qed.

(** The hours' clock shows its third hour, 150 minutes after its start. *)
Lemma epoch_clock_on_time_witness :
  ∃ e, epochs demo3 !! "hour"%string = Some e ∧ CurrentEpoch e = 3 ∧
    CurrentEpochStartTime e ≤ minutes 150 ≤ CurrentEpochStartTime e + hour.
Proof.
  destruct (epoch_clock_on_time demo_chain demo_hooks hour 3 (10 ^ 18) (minutes 150) demo0 demo3 "hour"%string demo_hour)
    as (e & He & _ & _ & _ & _ & Hc).
  - apply demo_keyed.
  - by vm_compute.
  - done.
  - done.
  - done.
  - lia.
  - done.
  - apply epoch_blocks.
  - exists e. split; [exact He|].
    assert (CurrentEpoch e = 3 ∧ EpochCountingStarted e = true) as [H3 Hs] by
      (vm_compute in He; injection He as <-; by split).
    split; [exact H3|]. by apply Hc.
Defined.
End EpochsProps.
