(* ===== verification/FeeRefunder.v ===== *)
(** Relayer fees: x/feerefunder (keeper/keeper.go, keeper/params.go, keeper/msg_server.go, types/fee.go,
    types/keys.go, types/tx.go, genesis.go).

    The store of fee records is a map from key bytes.  The bank, the channels of ibc-go and the methods
    of coins are arguments of the model.  Events, logs and queries are left out.

    Relayer fees are backed (FeeRefunder): what is recorded for packets in flight is in the module's
    account, and each record is paid out once. *)
From stdpp Require Import prelude strings list gmap sorting.
From Stdlib Require Import Ascii.
From stdpp Require Import prelude strings list gmap relations.
From S2P Require Import Prelude.
From S2P Require Import GoBig.
From S2P Require Import GoState.
From S2P Require Import SdkDec.
From S2P Require Import SdkCoins.
From S2P Require Import CLKeys.
From S2P Require Import CLPool.
From S2P Require Import ZSums.
Local Open Scope Z_scope.

Module FeeRefunder.
Definition ModuleName : string := "feerefunder".
Record PacketID := { ChannelId : string; PortId : string; Sequence : Z }.
Record Fee := { RecvFee : coin.Coins; AckFee : coin.Coins; TimeoutFee : coin.Coins }.
Record FeeInfo := { Payer : string; PacketId : PacketID; FeeOf : Fee }.
Record Params := { MinFee : Fee }.
Record GenesisState := { GParams : Params; FeeInfos : list FeeInfo }.

(** [GetFeePacketKey], after the prefix of fee records. *)
Definition string_bytes (s : string) : CLKeys.bytes :=
  (λ c, Z.of_nat (nat_of_ascii c)) <$> String.list_ascii_of_string s.
Definition Separator : string := ";".
Definition GetFeePacketKey (packet : PacketID) : CLKeys.bytes :=
  string_bytes (ChannelId packet +:+ Separator +:+ PortId packet +:+ Separator)
  ++ CLKeys.Uint64ToBigEndian (Sequence packet).

(** Methods of [sdk.Coins] that only this module uses. *)
Class CoinChecks : Type := {
  IsAnyGTE : coin.Coins → coin.Coins → bool;
  CoinsIsValid : coin.Coins → bool;
}.

(** The rest of the chain: bank, channels and accounts. *)
Class Chain : Type := {
  World : Type;
  GetChannel : World → string → string → bool;
  SendCoinsFromAccountToModule : addr.AccAddress → string → coin.Coins → World → outcome World;
  SendCoinsFromModuleToAccount : string → addr.AccAddress → coin.Coins → World → outcome World;
  Authority : string;
}.

Section fees.
  Context {D : sdk.LegacyDec} {C : coin.CoinOps} {CC : CoinChecks} {A : addr.Addresses} {Ch : Chain}.

(** *** types/fee.go *)

Definition Total (m : Fee) : outcome coin.Coins :=
  t ← coin.Add (RecvFee m) (AckFee m);
  coin.Add t (TimeoutFee m).

Definition Validate (m : Fee) : outcome unit :=
  if negb (CoinsIsValid (AckFee m)) || negb (CoinsIsValid (TimeoutFee m)) then Err "contains invalid fees"
  else if negb (coin.IsZero (RecvFee m)) then Err "recv fee must be zero"
  else if coin.IsZero (AckFee m) || coin.IsZero (TimeoutFee m) then Err "ack fee or timeout fee is zero"
  else Ok tt.

(** *** The keeper *)

Record store := { fees : gmap CLKeys.bytes FeeInfo; params : option Params; world : World }.
Definition set_fees f (s : store) : store :=
  {| fees := f (fees s); params := params s; world := world s |}.
Definition set_params p (s : store) : store :=
  {| fees := fees s; params := Some p; world := world s |}.
Definition set_world w (s : store) : store :=
  {| fees := fees s; params := params s; world := w |}.
Abbreviation K := (M store).
Definition on_bank (m : World → outcome World) : K unit :=
  zoom world set_world (λ w, w' ← m w; Ok (tt, w')).

Definition noFee : Fee := {| RecvFee := []; AckFee := []; TimeoutFee := [] |}.
Definition GetParams : K Params := gets (λ s, default {| MinFee := noFee |} (params s)).
Definition SetParams (p : Params) : K unit := modify (set_params p).
Definition GetMinFee : K Fee := p ← GetParams; mret (MinFee p).

Definition GetFeeInfo (packetID : PacketID) : K FeeInfo :=
  found ← gets (λ s, fees s !! GetFeePacketKey packetID);
  match found with
  | None => throw "no fee info for the given channelID, portID and sequence"
  | Some feeInfo => mret feeInfo
  end.
Definition StoreFeeInfo (feeInfo : FeeInfo) : K unit :=
  modify (set_fees (insert (GetFeePacketKey (PacketId feeInfo)) feeInfo)).
Definition removeFeeInfo (packetID : PacketID) : K unit :=
  modify (set_fees (delete (GetFeePacketKey packetID))).

(** The order of the store's iterator. *)
Definition key_le (x y : CLKeys.bytes * FeeInfo) : Prop := CLKeys.bytes_lt y.1 x.1 = false.
#[global] Instance key_le_dec : RelDecision key_le.
Proof. intros x y. unfold key_le. apply _. Defined.
Definition GetAllFeeInfos : K (list FeeInfo) :=
  gets (λ s, (merge_sort key_le (map_to_list (fees s))).*2).

(** Returns true if one or more coins from [fees] are not present in [params]. *)
Fixpoint allowedCoins (fees params : coin.Coins) : outcome bool :=
  match fees with
  | [] => Ok false
  | fee :: fees =>
    a ← coin.AmountOf params (coin.Denom fee);
    if sdk.IntIsZero a then Ok true else allowedCoins fees params
  end.

Definition checkFees (fees : Fee) : K unit :=
  p ← GetParams;
  _ ← require (IsAnyGTE (TimeoutFee fees) (TimeoutFee (MinFee p))) "ErrInsufficientFee";
  _ ← require (IsAnyGTE (AckFee fees) (AckFee (MinFee p))) "ErrInsufficientFee";
  t ← lift (allowedCoins (TimeoutFee fees) (TimeoutFee (MinFee p)));
  _ ← require (negb t) "timeout fee cannot have coins other than in params";
  a ← lift (allowedCoins (AckFee fees) (AckFee (MinFee p)));
  _ ← require (negb a) "ack fee cannot have coins other than in params";
  require (coin.IsZero (RecvFee fees)) "recv fee must be zero".

Definition LockFees (payer : addr.AccAddress) (packetID : PacketID) (fee : Fee) : K unit :=
  ok ← gets (λ s, GetChannel (world s) (PortId packetID) (ChannelId packetID));
  _ ← require ok "ErrChannelNotFound";
  _ ← checkFees fee;
  _ ← StoreFeeInfo {| Payer := addr.AddressString payer; PacketId := packetID; FeeOf := fee |};
  total ← lift (Total fee);
  on_bank (SendCoinsFromAccountToModule payer ModuleName total).

Definition distributeFee (receiver : addr.AccAddress) (fee : coin.Coins) : K unit :=
  on_bank (SendCoinsFromModuleToAccount ModuleName receiver fee).

(** Errors of the distribution are panics. *)
Definition must {B} (m : K B) (msg : string) : K B := λ s, Pool.or_panic (m s) msg.
Definition MustAccAddressFromBech32 (a : string) : outcome addr.AccAddress :=
  Pool.or_panic (addr.AccAddressFromBech32 a) "MustAccAddressFromBech32".

Definition DistributeAcknowledgementFee (receiver : addr.AccAddress) (packetID : PacketID) : K unit :=
  feeInfo ← must (GetFeeInfo packetID) "no fee info";
  _ ← must (distributeFee receiver (AckFee (FeeOf feeInfo))) "error distributing ack fee";
  payer ← lift (MustAccAddressFromBech32 (Payer feeInfo));
  _ ← must (distributeFee payer (TimeoutFee (FeeOf feeInfo))) "error distributing unused timeout fee";
  removeFeeInfo packetID.

Definition DistributeTimeoutFee (receiver : addr.AccAddress) (packetID : PacketID) : K unit :=
  feeInfo ← must (GetFeeInfo packetID) "no fee info";
  _ ← must (distributeFee receiver (TimeoutFee (FeeOf feeInfo))) "error distributing timeout fee";
  payer ← lift (MustAccAddressFromBech32 (Payer feeInfo));
  _ ← must (distributeFee payer (AckFee (FeeOf feeInfo))) "error distributing unused ack fee";
  removeFeeInfo packetID.

(** *** Messages and genesis *)

Definition MsgUpdateParams_Validate (authority : string) (p : Params) : outcome unit :=
  match addr.AccAddressFromBech32 authority with
  | Ok _ => Validate (MinFee p)
  | Err _ => Err "authority is invalid"
  | Panic p => Panic p
  end.
Definition UpdateParams (authority : string) (p : Params) : K unit :=
  _ ← lift (MsgUpdateParams_Validate authority p);
  _ ← require (String.eqb Authority authority) "invalid authority";
  SetParams p.

Definition InitGenesis (genState : GenesisState) : K unit :=
  _ ← SetParams (GParams genState);
  for_each (FeeInfos genState) StoreFeeInfo.
Definition ExportGenesis : K GenesisState :=
  p ← GetParams;
  l ← GetAllFeeInfos;
  mret {| GParams := p; FeeInfos := l |}.
End fees.
End FeeRefunder.

Import FeeRefunder.

Module FeeRefunderProps.
(** What the bank documents: a transfer moves the coins from one balance to the other. *)
Definition when (b : bool) (n : Z) : Z := if b then n else 0.
Class ChainLaws (Ch : Chain) : Type := {
  Balance : World → addr.AccAddress → string → Z;
  GetModuleAddress : string → addr.AccAddress;
  SendCoinsFromAccountToModule_spec a m c w w' x d :
    SendCoinsFromAccountToModule a m c w = Ok w' →
    Balance w' x d = Balance w x d - when (bool_decide (x = a)) (coin.amt d c)
                     + when (bool_decide (x = GetModuleAddress m)) (coin.amt d c);
  SendCoinsFromModuleToAccount_spec m a c w w' x d :
    SendCoinsFromModuleToAccount m a c w = Ok w' →
    Balance w' x d = Balance w x d - when (bool_decide (x = GetModuleAddress m)) (coin.amt d c)
                     + when (bool_decide (x = a)) (coin.amt d c);
}.
Class CheckLaws (CC : CoinChecks) : Prop := {
  CoinsIsValid_spec c d : CoinsIsValid c = true → 0 ≤ coin.amt d c;
}.

Section fees.
  Context {D : sdk.LegacyDec} {C : coin.CoinOps} {CC : CoinChecks} {A : addr.Addresses} {Ch : Chain}.

(** The two fees of a record that can be paid out. *)
Definition due (d : string) (i : FeeInfo) : Z :=
  coin.amt d (AckFee (FeeOf i)) + coin.amt d (TimeoutFee (FeeOf i)).
Definition owed (d : string) (s : store) : Z := map_sum (λ _, due d) (fees s).

Context {L : ChainLaws Ch}.
Definition account : addr.AccAddress := GetModuleAddress ModuleName.

(** What the rest of the chain makes the module do.  Contracts pay the fees, after validating them; the
    fees of a packet are distributed when its acknowledgement or timeout comes back; others do not take
    from the module's account. *)
Inductive step (s : store) : store → Prop :=
| StepLock payer id fee u s' :
    payer ≠ account → Validate fee = Ok tt → LockFees payer id fee s = Ok (u, s') → step s s'
| StepAck receiver id u s' : DistributeAcknowledgementFee receiver id s = Ok (u, s') → step s s'
| StepTimeout receiver id u s' : DistributeTimeoutFee receiver id s = Ok (u, s') → step s s'
| StepParams authority p u s' : UpdateParams authority p s = Ok (u, s') → step s s'
| StepOther w : (∀ d, Balance (world s) account d ≤ Balance w account d) → step s (set_world w s).

Record backed (s : store) : Prop := {
  backed_owed d : owed d s ≤ Balance (world s) account d;
  backed_fees k i d : fees s !! k = Some i →
    0 ≤ coin.amt d (AckFee (FeeOf i)) ∧ 0 ≤ coin.amt d (TimeoutFee (FeeOf i))
}.

Lemma must_Ok {B} (m : M store B) e s b s' : must m e s = Ok (b, s') → m s = Ok (b, s').
Proof using. unfold must, Pool.or_panic. by destruct (m s). Qed.

Lemma on_bank_Ok m s u s' :
  on_bank m s = Ok (u, s') → ∃ w, m (world s) = Ok w ∧ s' = set_world w s.
Proof using.
  unfold on_bank. intros (w & Hw & ->)%st_zoom_Ok. apply bind_Ok in Hw as (w' & Hm & [= <- <-]). by exists w'.
Qed.

Lemma GetFeeInfo_Ok id s i s' :
  GetFeeInfo id s = Ok (i, s') → s = s' ∧ fees s !! GetFeePacketKey id = Some i.
Proof using.
  unfold GetFeeInfo. intros Hr. run_gets Hr. destruct (fees s !! _); [by run_ret Hr|done].
Qed.

(** Paying [x] to one account and [y] to another out of a record leaves the rest backed. *)
Lemma distribute_backed (id : PacketID) (r1 : addr.AccAddress) (x y : coin.Coins) i s r2 s1 u1 s2 u2 :
  fees s !! GetFeePacketKey id = Some i → backed s →
  (∀ d, due d i = coin.amt d x + coin.amt d y ∧ 0 ≤ coin.amt d x ∧ 0 ≤ coin.amt d y) →
  distributeFee r1 x s = Ok (u1, s1) → distributeFee r2 y s1 = Ok (u2, s2) →
  backed (set_fees (delete (GetFeePacketKey id)) s2).
Proof using.
  intros Hi [Hb Hn] Hxy (w1 & H1 & ->)%on_bank_Ok (w2 & H2 & ->)%on_bank_Ok. cbn in H2. split.
  - intros d. unfold owed. cbn. specialize (Hb d). unfold owed in Hb.
    rewrite (map_sum_delete _ _ _ _ Hi) in Hb. destruct (Hxy d) as (E1 & E2 & E3).
    pose proof (SendCoinsFromModuleToAccount_spec _ _ _ _ _ account d H1) as B1.
    pose proof (SendCoinsFromModuleToAccount_spec _ _ _ _ _ account d H2) as B2.
    fold account in B1, B2. rewrite bool_decide_eq_true_2 in B1, B2 by done. cbn [when] in B1, B2.
    unfold when in *. repeat case_bool_decide; lia.
  - intros k j d. cbn. intros [_ Hk]%lookup_delete_Some. by apply (Hn k j d).
Qed.

Context {LD : sdk.LegacyDecLaws D} {LC : coin.CoinLaws C} {LK : CheckLaws CC}.

Lemma Validate_Ok fee u :
  Validate fee = Ok u →
  ∀ d, coin.amt d (RecvFee fee) = 0 ∧ 0 ≤ coin.amt d (AckFee fee) ∧ 0 ≤ coin.amt d (TimeoutFee fee).
Proof using LC LK.
  unfold Validate. intros H d. destruct (CoinsIsValid (AckFee fee)) eqn:E1; [|done].
  destruct (CoinsIsValid (TimeoutFee fee)) eqn:E2; [|done]. destruct (coin.IsZero (RecvFee fee)) eqn:E3; [|done].
  split; [by apply coin.IsZero_spec|]. by split; apply CoinsIsValid_spec.
Qed.

Lemma Total_Ok fee t d :
  Total fee = Ok t →
  coin.amt d t = coin.amt d (RecvFee fee) + coin.amt d (AckFee fee) + coin.amt d (TimeoutFee fee).
Proof using LC.
  unfold Total. intros (a & Ha & Ht)%bind_Ok. apply (coin.Add_spec _ _ _ d) in Ha, Ht. lia.
Qed.

Lemma step_backed s s' : step s s' → backed s → backed s'.
Proof using LC LK LD.
  intros Hs Hb. destruct Hs as [payer id fee u s' Hp Hv Hr|receiver id u s' Hr|receiver id u s' Hr
    |authority p u s' Hr|w Hw].
  - unfold LockFees in Hr. run_gets Hr. run_require Hr as H1. run Hr as u1 s1 H2.
    assert (s = s1) as <- by (unfold checkFees, GetParams in H2; inv_st; done).
    run Hr as u2 s2 H3. apply st_modify_Ok in H3 as ->. run_lift Hr as t Ht.
    apply on_bank_Ok in Hr as (w & Hw & ->). cbn in Hw. pose proof (Validate_Ok fee tt Hv) as Hfee.
    destruct Hb as [Hb Hn]. split.
    + intros d. unfold owed. cbn. rewrite map_sum_insert_any.
      pose proof (SendCoinsFromAccountToModule_spec _ _ _ _ _ account d Hw) as Hbal.
      fold account in Hbal. rewrite (bool_decide_eq_true_2 (account = account)) in Hbal by done.
      rewrite bool_decide_eq_false_2 in Hbal by done. cbn [when] in Hbal.
      rewrite (Total_Ok fee t d Ht) in Hbal. specialize (Hb d). unfold owed in Hb.
      destruct (Hfee d) as (F1 & F2 & F3). unfold due at 3. cbn [FeeOf].
      destruct (fees s !! _) as [old|] eqn:Eo; cbn; [|lia].
      destruct (Hn _ old d Eo) as [N1 N2]. assert (0 ≤ due d old) by (unfold due; lia). unfold Datatypes.id. lia.
    + intros k i d. cbn. rewrite lookup_insert_Some. intros [[_ <-]|[_ Hk]]; [cbn|by apply (Hn k i d)].
      by destruct (Hfee d) as (_ & ? & ?).
  - unfold DistributeAcknowledgementFee in Hr. run Hr as i s1 H1. apply must_Ok, GetFeeInfo_Ok in H1 as [<- Hi].
    run Hr as u1 s2 H2. apply must_Ok in H2. run_lift Hr as payer Hpayer. run Hr as u3 s3 H3. apply must_Ok in H3.
    apply st_modify_Ok in Hr as ->. eapply distribute_backed; [exact Hi|done| |exact H2|exact H3].
    intros d. split; [done|]. exact (backed_fees s Hb _ i d Hi).
  - unfold DistributeTimeoutFee in Hr. run Hr as i s1 H1. apply must_Ok, GetFeeInfo_Ok in H1 as [<- Hi].
    run Hr as u1 s2 H2. apply must_Ok in H2. run_lift Hr as payer Hpayer. run Hr as u3 s3 H3. apply must_Ok in H3.
    apply st_modify_Ok in Hr as ->. eapply distribute_backed; [exact Hi|done| |exact H2|exact H3].
    intros d. split; [unfold due; lia|]. destruct (backed_fees s Hb _ i d Hi). by split.
  - unfold UpdateParams in Hr. run_lift Hr as v Hv. run_require Hr as H1. apply st_modify_Ok in Hr as ->.
    destruct Hb as [Hb Hn]. by split.
  - destruct Hb as [Hb Hn]. split; [|done]. intros d. etransitivity; [apply (Hb d)|apply Hw].
Qed.

Lemma backed_reached s0 s : backed s0 → rtc step s0 s → backed s.
Proof using LC LK LD. intros H0 Hr. induction Hr as [|x y z Hxy _ IH]; [done|]. by apply IH, (step_backed x). Qed.
End fees.

(** C8. Relayer fees are backed: whatever packets are sent, acknowledged and timed out, in any order and
    also twice for one packet, the module's account holds at least the sum of the acknowledgement and
    timeout fees recorded for the packets in flight, in every denomination. *)
Theorem fees_backed (D : sdk.LegacyDec) (LD : sdk.LegacyDecLaws D) (C : coin.CoinOps)
    (LC : coin.CoinLaws C) (CC : CoinChecks) (LK : CheckLaws CC) (A : addr.Addresses) (Ch : Chain)
    (L : ChainLaws Ch) (s0 s : store) (d : string) :
  fees s0 = ∅ → (∀ e, 0 ≤ Balance (world s0) account e) → rtc step s0 s →
  map_sum (λ _ i, coin.amt d (AckFee (FeeOf i)) + coin.amt d (TimeoutFee (FeeOf i))) (fees s)
  ≤ Balance (world s) account d.
Proof.
  intros H0 Hw Hr. apply (backed_owed s). eapply backed_reached; [|exact Hr]. split.
  - intros e. unfold owed. by rewrite H0, map_sum_empty.
  - intros k i e. by rewrite H0, lookup_empty.
Qed.

(** *** A run: a contract sends two packets, the first is acknowledged *)

#[local] Existing Instances sdk.ref_dec sdk.ref_dec_laws coin.ref_coins coin.ref_coins_laws.
#[local] Instance demo_checks : CoinChecks := {|
  IsAnyGTE a b := existsb (λ x, (0 <? SdkInt.i (coin.Amount x)) &&
    (coin.amt (coin.Denom x) b <=? SdkInt.i (coin.Amount x))) a;
  CoinsIsValid c := forallb (λ x, 0 <? SdkInt.i (coin.Amount x)) c
|}.
#[local] Instance demo_check_laws : CheckLaws demo_checks.
Proof.
  split. intros c d Hc. apply sumZ_nonneg. intros x Hx. cbn in Hc. rewrite forallb_forall in Hc.
  apply list_elem_of_In, Hc, Z.ltb_lt in Hx. case_bool_decide; lia.
Qed.
#[local] Instance demo_addresses : addr.Addresses := {|
  addr.AddressString a := a; addr.AccAddressFromBech32 a := Ok a;
  addr.NewPoolAddress _ := ""%string; addr.NewModuleAddressWithPrefix m _ _ := m |}.

(** Balances by account and denomination. *)
Definition bank : Type := string → string → Z.
Definition transfer (a b : string) (c : coin.Coins) (w : bank) : outcome bank :=
  if forallb (λ x, coin.amt (coin.Denom x) c <=? w a (coin.Denom x)) c
  then Ok (λ x d, w x d - when (bool_decide (x = a)) (coin.amt d c)
                  + when (bool_decide (x = b)) (coin.amt d c))
  else Err "insufficient funds".
Definition demo_chain : Chain := {|
  World := bank; GetChannel _ _ _ := true;
  SendCoinsFromAccountToModule a m c w := transfer a m c w;
  SendCoinsFromModuleToAccount m a c w := transfer m a c w; Authority := "admin" |}.
#[local] Existing Instance demo_chain.
#[local] Instance demo_chain_laws : ChainLaws demo_chain.
Proof.
  refine {| Balance w x d := (w : bank) x d; GetModuleAddress m := m |};
    cbn; unfold transfer; intros; destruct (forallb _ _); by simplify_eq.
Defined.

Definition maany (n : Z) : coin.Coins := [{| coin.Denom := "umaany"; coin.Amount := SdkInt.mk n |}].
Definition demo_fee : Fee := {| RecvFee := []; AckFee := maany 1000; TimeoutFee := maany 2000 |}.
Definition packet (n : Z) : PacketID := {| ChannelId := "channel-0"; PortId := "transfer"; Sequence := n |}.
Definition demo_empty : store := {|
  fees := ∅; params := Some {| MinFee := {| RecvFee := []; AckFee := maany 1000; TimeoutFee := maany 1000 |} |};
  world := (λ x d, if String.eqb x "contract" then 10000 else 0) : bank |}.
Definition final (s : outcome (unit * store)) : store := match s with Ok (_, s) => s | _ => demo_empty end.
Definition is_final (s : outcome (unit * store)) : bool := match s with Ok _ => true | _ => false end.
Lemma fee_run_final (m : M store unit) s : is_final (m s) = true → m s = Ok (tt, final (m s)).
Proof. by destruct (m s) as [[[] s']| |]. Qed.
Definition demo1 : store := final (LockFees "contract" (packet 1) demo_fee demo_empty).
Definition demo2 : store := final (LockFees "contract" (packet 2) demo_fee demo1).
Definition demo3 : store := final (DistributeAcknowledgementFee "relayer" (packet 1) demo2).

Lemma demo_steps : rtc step demo_empty demo3.
Proof.
  eapply rtc_l; [|eapply rtc_l; [|apply rtc_once]].
  - apply (StepLock _ "contract" (packet 1) demo_fee tt); [done|by vm_compute|].
    apply (fee_run_final (LockFees "contract" (packet 1) demo_fee)). by vm_compute.
  - apply (StepLock _ "contract" (packet 2) demo_fee tt); [done|by vm_compute|].
    apply (fee_run_final (LockFees "contract" (packet 2) demo_fee)). by vm_compute.
  - apply (StepAck _ "relayer" (packet 1) tt).
    apply (fee_run_final (DistributeAcknowledgementFee "relayer" (packet 1))). by vm_compute.
Qed.

(** The fees of the second packet are left, and the account holds exactly them. *)
Lemma demo_left : owed "umaany" demo3 = 3000 ∧ Balance (world demo3) account "umaany" = 3000.
Proof. split; by vm_compute. Qed.

Lemma fees_backed_witness : owed "umaany" demo3 ≤ Balance (world demo3) account "umaany".
Proof.
  apply (fees_backed sdk.ref_dec sdk.ref_dec_laws coin.ref_coins coin.ref_coins_laws demo_checks
    demo_check_laws demo_addresses demo_chain demo_chain_laws demo_empty demo3 "umaany").
  - done.
  - done.
  - apply demo_steps.
Defined.
End FeeRefunderProps.
