(* ===== verification/Icq.v ===== *)
(** Interchain queries: x/interchainqueries (keeper/keeper.go, keeper/msg_server.go,
    keeper/process_block_results.go, keeper/params.go, types/registered_query.go, types/types.go,
    types/tx.go, types/message_remove_interchain_query.go, genesis.go), with the two calls of
    x/contractmanager/keeper/sudo.go that hand results to contracts.

    Contracts register queries about other chains for a deposit; anyone may submit results with proofs,
    which are stored or handed to the contract.  The bank, contracts, IBC clients, Merkle proofs and the
    decoding of JSON are arguments of the model.  A contract that is called may call the module again, so
    its callbacks are computations on the whole store.  The hashes of processed transactions are kept
    under the id of their query, as their keys are.  Events and logs are left out.  An allocation of a
    capacity that Go's runtime refuses panics; one that it accepts is taken to succeed.

    The second module: the deposits of all registered queries are in the module's account; queries keep
    their identity and the height of their results only grows, also when contracts call back; stored
    results are proved; and the cleanup at the end of blocks removes what was recorded for removed queries,
    in as many blocks as its limit makes necessary, unless the limit is so large that the room reserved for it
    cannot be allocated: then it panics. *)
From stdpp Require Import prelude strings list gmap sorting relations.
From Stdlib Require Import Ascii.
From S2P Require Import Prelude.
From S2P Require Import GoBig.
From S2P Require Import DecimalText.
From S2P Require Import SdkDec.
From S2P Require Import SdkCoins.
From S2P Require Import GoState.
From S2P Require Import KV.
From S2P Require Import ZSums.
From S2P Require Import CLKeys.
From S2P Require Import CLPool.
Local Open Scope Z_scope.

Module Icq.
Definition ModuleName : string := "interchainqueries".
Definition wrap (n : Z) : Z := n mod 2 ^ 64.
Abbreviation bytes := BigText.chars.

(** *** Data *)

Record KVKey := { Path : string; Key : bytes }.
Record Height := { RevisionNumber : Z; RevisionHeight : Z }.
Record RegisteredQuery := {
  Id : Z; Owner : string; QueryType : string; Keys : list KVKey; TransactionsFilter : string;
  ConnectionId : string; UpdatePeriod : Z; LastSubmittedResultLocalHeight : Z;
  LastSubmittedResultRemoteHeight : option Height; Deposit : coin.Coins; SubmitTimeout : Z;
  RegisteredAtHeight : Z
}.
Record Params := {
  QuerySubmitTimeout : Z; QueryDeposit : coin.Coins; TxQueryRemovalLimit : Z; MaxKvQueryKeysCount : Z;
  MaxTransactionsFilters : Z
}.
(** [abci.ExecTxResult]: its deterministic fields, and the others. *)
Record ExecTxResult := { Code : Z; Data : bytes; GasWanted : Z; GasUsed : Z; Others : string }.
(** What the code reads of a Tendermint header: [HeaderFromProto] may refuse the header; the others are the
    fields and hashes of what it returns. *)
Record TmHeader := {
  HeaderHeight : Z; TrustedRevision : Z; Convertible : bool; HeaderHash : bytes; LastBlockHash : bytes;
  ValidatorsHash : bytes; NextValidatorsHash : bytes; DataHash : bytes; LastResultsHash : bytes
}.
(** One condition of a transactions filter, as decoded from JSON: a number is [m * 2 ^ e]. *)
Inductive FilterValue := FilterString | FilterNumber (m e : Z) | FilterOther.
Record TransactionsFilterItem := { Field : string; Op : string; Value : FilterValue }.

(** The first proof of a [MerkleProof]. *)
Inductive ProofKind := Nonexist | Exist | OtherProof.

(** The rest of the chain. *)
Class Chain : Type := {
  World : Type;
  SendCoinsFromAccountToModule : addr.AccAddress → string → coin.Coins → World → outcome World;
  SendCoinsFromModuleToAccount : string → addr.AccAddress → coin.Coins → World → outcome World;
  HasContractInfo : World → addr.AccAddress → bool;
  Authority : string;
  (** heights, connections and clients of ibc-go: [Height.GTE]; the clients of another type are [None] *)
  GTE : Height → Height → bool;
  GetConnection : World → string → option string;
  Root : Type;
  ConnectionConsensusState : World → string → Z → Z → outcome Root;
  ProofSpecs : Type;
  ClientState : World → string → option (option ProofSpecs);
  (** proofs of ibc-go and ics23 *)
  ProofOps : Type;
  MerkleProof : Type;
  ConvertProofs : ProofOps → outcome MerkleProof;
  FirstProof : MerkleProof → outcome ProofKind;
  VerifyNonMembership : MerkleProof → ProofSpecs → Root → string → bytes → outcome unit;
  VerifyMembership : MerkleProof → ProofSpecs → Root → string → bytes → bytes → outcome unit;
  (** headers, Merkle proofs and hashes of CometBFT *)
  AnyHeader : Type;
  ClientMessage : Type;
  UnpackHeader : AnyHeader → outcome ClientMessage;
  AsTendermint : ClientMessage → option TmHeader;
  UpdateClient : string → ClientMessage → World → outcome World;
  TxProof : Type;
  TreeProof : Type;
  ProofFromProto : TxProof → outcome TreeProof;
  ProofIndex : TreeProof → Z;
  VerifyTreeProof : TreeProof → bytes → bytes → outcome unit;
  TxHash : bytes → bytes;
  MarshalTxResult : ExecTxResult → outcome bytes;
  (** encoding/json *)
  UnmarshalFilters : string → outcome (list TransactionsFilterItem);
}.

Section queries.
  Context {D : sdk.LegacyDec} {C : coin.CoinOps} {A : addr.Addresses} {Ch : Chain}.

Record StorageValue := { StoragePrefix : string; SKey : bytes; SValue : bytes; Proof : option ProofOps }.
Record TxValue := { Response : ExecTxResult; DeliveryProof : TxProof; InclusionProof : TxProof; TxData : bytes }.
Record Block := { NextBlockHeader : AnyHeader; BHeader : AnyHeader; Tx : option TxValue }.
(** [KvResults] that are nil are the empty list: decoding does not tell them apart. *)
Record QueryResult := {
  KvResults : list StorageValue; RBlock : option Block; RHeight : Z; Revision : Z; AllowKvCallbacks : bool
}.

Record store := {
  last : Z;
  queries : gmap Z RegisteredQuery;
  results : gmap Z QueryResult;
  hashes : gmap Z (gmap bytes unit);
  to_remove : gmap Z unit;
  params : Params;
  world : World;
}.
Abbreviation K := (M store).
Definition set_last n (s : store) : store :=
  {| last := n; queries := queries s; results := results s; hashes := hashes s; to_remove := to_remove s;
     params := params s; world := world s |}.
Definition set_queries f (s : store) : store :=
  {| last := last s; queries := f (queries s); results := results s; hashes := hashes s;
     to_remove := to_remove s; params := params s; world := world s |}.
Definition set_results f (s : store) : store :=
  {| last := last s; queries := queries s; results := f (results s); hashes := hashes s;
     to_remove := to_remove s; params := params s; world := world s |}.
Definition set_hashes f (s : store) : store :=
  {| last := last s; queries := queries s; results := results s; hashes := f (hashes s);
     to_remove := to_remove s; params := params s; world := world s |}.
Definition set_to_remove f (s : store) : store :=
  {| last := last s; queries := queries s; results := results s; hashes := hashes s;
     to_remove := f (to_remove s); params := params s; world := world s |}.
Definition set_params p (s : store) : store :=
  {| last := last s; queries := queries s; results := results s; hashes := hashes s;
     to_remove := to_remove s; params := p; world := world s |}.
Definition set_world w (s : store) : store :=
  {| last := last s; queries := queries s; results := results s; hashes := hashes s;
     to_remove := to_remove s; params := params s; world := w |}.
Definition on_world (m : World → outcome World) : K unit :=
  zoom world set_world (λ w, w' ← m w; Ok (tt, w')).

(** *** types/types.go, types/tx.go *)

Definition IsKV (icqt : string) : bool := String.eqb icqt "kv".
Definition IsTX (icqt : string) : bool := String.eqb icqt "tx".
Definition IsValid (icqt : string) : bool := IsTX icqt || IsKV icqt.

Definition hex_digit (n : nat) : ascii := ascii_of_nat (if (n <? 10)%nat then 48 + n else 87 + n).
Definition EncodeToString (b : bytes) : string :=
  String.string_of_list_ascii (b ≫= λ c, [hex_digit (nat_of_ascii c / 16); hex_digit (nat_of_ascii c mod 16)]).
Definition ToString (kv : KVKey) : string := (Path kv +:+ "/" +:+ EncodeToString (Key kv))%string.

(** [strings.TrimSpace(s) == ""]; white space outside ASCII is not considered. *)
Definition is_space (c : ascii) : bool := let n := nat_of_ascii c in (n =? 32)%nat || ((9 <=? n)%nat && (n <=? 13)%nat).
Definition blank (s : string) : bool := forallb is_space (String.list_ascii_of_string s).
(** [strings.ContainsAny(f.Field, forbiddenCharacters)] *)
Definition forbiddenCharacters : list nat := [9; 10; 13; 92; 40; 41; 34; 39; 61; 62; 60]%nat.
Definition ContainsForbidden (s : string) : bool :=
  existsb (λ c, bool_decide (nat_of_ascii c ∈ forbiddenCharacters)) (String.list_ascii_of_string s).
(** [strings.ToLower] of ASCII letters *)
Definition lower_ascii (c : ascii) : ascii :=
  let n := nat_of_ascii c in if ((65 <=? n) && (n <=? 90))%nat then ascii_of_nat (n + 32) else c.
Definition ToLower (s : string) : string :=
  String.string_of_list_ascii (lower_ascii <$> String.list_ascii_of_string s).
(** [value == float64(int64(value))]: out of its range the conversion gives the least integer. *)
Definition is_int64 (m e : Z) : bool :=
  if 0 <=? e then (- 2 ^ 63 <=? m * 2 ^ e) && (m * 2 ^ e <? 2 ^ 63)
  else (m mod 2 ^ (- e) =? 0) && (- 2 ^ 63 <=? m / 2 ^ (- e)) && (m / 2 ^ (- e) <? 2 ^ 63).

Definition validFilter (f : TransactionsFilterItem) : outcome unit :=
  if ContainsForbidden (Field f) then Err "special symbols are not allowed"
  else if String.eqb (Field f) "" then Err "field couldn't be empty"
  else
    _ ← match Value f with
        | FilterString => Ok tt
        | FilterNumber m e => if is_int64 m e then Ok tt else Err "value can't be a decimal number"
        | FilterOther => Err "value is expected to be on of: string, number"
        end;
    if bool_decide (ToLower (Op f) ∈ ["eq"; "gt"; "gte"; "lt"; "lte"]%string) then Ok tt
    else Err "op is expected to be one of: eq, gt, gte, lt, lte".
Fixpoint validFilters (fs : list TransactionsFilterItem) : outcome unit :=
  match fs with [] => Ok tt | f :: fs => _ ← validFilter f; validFilters fs end.
Definition ValidateTransactionsFilter (s : string) (maxTransactionsFilters : Z) : outcome unit :=
  filters ← UnmarshalFilters s;
  if maxTransactionsFilters <? Z.of_nat (length filters) then Err "too many transactions filters"
  else validFilters filters.

Fixpoint validKeys (duplicates : list string) (keys : list KVKey) : outcome unit :=
  match keys with
  | [] => Ok tt
  | key :: keys =>
    if bool_decide (ToString key ∈ duplicates) then Err "keys cannot be duplicated"
    else if String.eqb (Path key) "" then Err "keys path cannot be empty"
    else if (length (Key key) =? 0)%nat then Err "keys id cannot be empty"
    else validKeys (ToString key :: duplicates) keys
  end.
Definition validateKeys (keys : list KVKey) (maxKVQueryKeysCount : Z) : outcome unit :=
  if maxKVQueryKeysCount <? Z.of_nat (length keys) then Err "too many keys" else validKeys [] keys.

Definition checkSender (sender : string) : outcome unit :=
  if blank sender then Err "missing sender address" else
  match addr.AccAddressFromBech32 sender with
  | Ok _ => Ok tt | Err _ => Err "failed to parse address" | Panic p => Panic p
  end.

Record MsgRegisterInterchainQuery := {
  RegQueryType : string; RegKeys : list KVKey; RegTransactionsFilter : string; RegConnectionId : string;
  RegUpdatePeriod : Z; RegSender : string
}.
Definition ValidateRegister (msg : MsgRegisterInterchainQuery) (p : Params) : outcome unit :=
  if RegUpdatePeriod msg =? 0 then Err "update period can not be equal to zero" else
  _ ← checkSender (RegSender msg);
  if blank (RegConnectionId msg) then Err "connection id cannot be empty" else
  if negb (IsValid (RegQueryType msg)) then Err "invalid query type" else
  _ ← (if IsKV (RegQueryType msg) then
         if (length (RegKeys msg) =? 0)%nat then Err "keys cannot be empty"
         else validateKeys (RegKeys msg) (MaxKvQueryKeysCount p)
       else Ok tt);
  if IsTX (RegQueryType msg)
  then ValidateTransactionsFilter (RegTransactionsFilter msg) (MaxTransactionsFilters p) else Ok tt.

Record MsgUpdateInterchainQueryRequest := {
  UpdQueryId : Z; NewKeys : list KVKey; NewUpdatePeriod : Z; NewTransactionsFilter : string; UpdSender : string
}.
Definition ValidateUpdate (msg : MsgUpdateInterchainQueryRequest) (p : Params) : outcome unit :=
  let newKeys := negb (length (NewKeys msg) =? 0)%nat in
  let newTxFilter := negb (String.eqb (NewTransactionsFilter msg) "") in
  if UpdQueryId msg =? 0 then Err "query_id cannot be empty or equal to 0" else
  if negb newKeys && negb newTxFilter && (NewUpdatePeriod msg =? 0) then Err "nothing is set" else
  if newKeys && newTxFilter then Err "either new_keys or new_transactions_filter should be set" else
  _ ← (if newKeys then validateKeys (NewKeys msg) (MaxKvQueryKeysCount p) else Ok tt);
  _ ← (if newTxFilter then ValidateTransactionsFilter (NewTransactionsFilter msg) (MaxTransactionsFilters p) else Ok tt);
  checkSender (UpdSender msg).
Definition ValidateRemove (queryId : Z) (sender : string) : outcome unit :=
  if queryId =? 0 then Err "query_id cannot be empty or equal to 0" else checkSender sender.
Definition ValidateSubmit (queryId : Z) (sender : string) (result : option QueryResult) : outcome QueryResult :=
  match result with
  | None => Err "query result can't be empty"
  | Some r =>
    if (length (KvResults r) =? 0)%nat && match RBlock r with None => true | Some _ => false end
    then Err "query result can't be empty"
    else if queryId =? 0 then Err "query id cannot be equal zero"
    else _ ← checkSender sender; Ok r
  end.

(** *** keeper/keeper.go, keeper/params.go *)

Definition GetParams : K Params := gets params.
Definition SetParams (p : Params) : K unit := modify (set_params p).
Definition GetLastRegisteredQueryKey : K Z := gets last.
Definition SetLastRegisteredQueryKey (id : Z) : K unit := modify (set_last id).
Definition SaveQuery (query : RegisteredQuery) : K unit := modify (set_queries (insert (Id query) query)).
Definition GetQueryByID (id : Z) : K RegisteredQuery :=
  found ← gets (λ s, queries s !! id);
  match found with None => throw "there is no query with this id" | Some query => mret query end.
Definition getRegisteredQueryByID : Z → K RegisteredQuery := GetQueryByID.
(** In the order of the store's iterator. *)
Definition id_le {V} (x y : Z * V) : Prop := x.1 ≤ y.1.
#[global] Instance id_le_dec {V} : RelDecision (@id_le V).
Proof. intros x y. unfold id_le. apply _. Defined.
Definition by_id {V} (m : gmap Z V) : list (Z * V) := merge_sort id_le (map_to_list m).
Definition GetAllRegisteredQueries : K (list RegisteredQuery) := gets (λ s, (by_id (queries s)).*2).

Definition RemoveQuery (query : RegisteredQuery) : K unit :=
  _ ← modify (set_queries (delete (Id query)));
  if IsKV (QueryType query) then modify (set_results (delete (Id query)))
  else if IsTX (QueryType query) then modify (set_to_remove (insert (Id query) tt))
  else mret tt.

Definition with_remote_height (h : Height) (q : RegisteredQuery) : RegisteredQuery :=
  {| Id := Id q; Owner := Owner q; QueryType := QueryType q; Keys := Keys q;
     TransactionsFilter := TransactionsFilter q; ConnectionId := ConnectionId q; UpdatePeriod := UpdatePeriod q;
     LastSubmittedResultLocalHeight := LastSubmittedResultLocalHeight q;
     LastSubmittedResultRemoteHeight := Some h; Deposit := Deposit q; SubmitTimeout := SubmitTimeout q;
     RegisteredAtHeight := RegisteredAtHeight q |}.
Definition with_local_height (h : Z) (q : RegisteredQuery) : RegisteredQuery :=
  {| Id := Id q; Owner := Owner q; QueryType := QueryType q; Keys := Keys q;
     TransactionsFilter := TransactionsFilter q; ConnectionId := ConnectionId q; UpdatePeriod := UpdatePeriod q;
     LastSubmittedResultLocalHeight := h;
     LastSubmittedResultRemoteHeight := LastSubmittedResultRemoteHeight q; Deposit := Deposit q;
     SubmitTimeout := SubmitTimeout q; RegisteredAtHeight := RegisteredAtHeight q |}.
Definition with_request (keys : list KVKey) (filter : string) (period : Z) (q : RegisteredQuery) : RegisteredQuery :=
  {| Id := Id q; Owner := Owner q; QueryType := QueryType q; Keys := keys; TransactionsFilter := filter;
     ConnectionId := ConnectionId q; UpdatePeriod := period;
     LastSubmittedResultLocalHeight := LastSubmittedResultLocalHeight q;
     LastSubmittedResultRemoteHeight := LastSubmittedResultRemoteHeight q; Deposit := Deposit q;
     SubmitTimeout := SubmitTimeout q; RegisteredAtHeight := RegisteredAtHeight q |}.

Definition clearQueryResult (result : QueryResult) : QueryResult :=
  {| KvResults := (λ v, {| StoragePrefix := StoragePrefix v; SKey := SKey v; SValue := SValue v; Proof := None |})
                    <$> KvResults result;
     RBlock := None; RHeight := RHeight result; Revision := Revision result; AllowKvCallbacks := false |}.
Definition saveKVQueryResult (blockHeight : Z) (query : RegisteredQuery) (result : QueryResult) : K unit :=
  _ ← modify (set_results (insert (Id query) (clearQueryResult result)));
  let query := with_remote_height {| RevisionNumber := Revision result; RevisionHeight := RHeight result |} query in
  SaveQuery (with_local_height (wrap blockHeight) query).
Definition SaveKVQueryResult (blockHeight : Z) (queryID : Z) (result : QueryResult) : K unit :=
  query ← getRegisteredQueryByID queryID;
  saveKVQueryResult blockHeight query result.

Definition GetQueryResultByID (id : Z) : K QueryResult :=
  found ← gets (λ s, results s !! id);
  match found with None => throw "no query result" | Some result => mret result end.
Definition checkRegisteredQueryExists (id : Z) : K bool := gets (λ s, bool_decide (is_Some (queries s !! id))).

(** The hashes under a query. *)
Definition hashes_of (s : store) (id : Z) : gmap bytes unit := default ∅ (hashes s !! id).
Definition SaveTransactionAsProcessed (queryID : Z) (txHash : bytes) : K unit :=
  modify (λ s, set_hashes (insert queryID (<[txHash := tt]> (hashes_of s queryID))) s).
Definition CheckTransactionIsAlreadyProcessed (queryID : Z) (txHash : bytes) : K bool :=
  gets (λ s, bool_decide (is_Some (hashes_of s queryID !! txHash))).

Definition UpdateLastLocalHeight (queryID newLocalHeight : Z) : K unit :=
  query ← getRegisteredQueryByID queryID;
  SaveQuery (with_local_height newLocalHeight query).
Definition checkLastRemoteHeight (query : RegisteredQuery) (height : Height) : outcome unit :=
  match LastSubmittedResultRemoteHeight query with
  | Some h => if GTE h height then Err "result's remote height is not greater than the last one" else Ok tt
  | None => Ok tt
  end.
Definition UpdateLastRemoteHeight (queryID : Z) (newRemoteHeight : Height) : K unit :=
  query ← getRegisteredQueryByID queryID;
  _ ← lift (checkLastRemoteHeight query newRemoteHeight);
  SaveQuery (with_remote_height newRemoteHeight query).

Definition GetClientState (w : World) (clientID : string) : outcome ProofSpecs :=
  match ClientState w clientID with
  | None => Err "could not find a ClientState"
  | Some None => Err "cannot cast ClientState interface into ClientState type"
  | Some (Some specs) => Ok specs
  end.

Definition CollectDeposit (queryInfo : RegisteredQuery) : K unit :=
  owner ← lift (Pool.or_panic (addr.AccAddressFromBech32 (Owner queryInfo)) "failed to decode owner address");
  on_world (SendCoinsFromAccountToModule owner ModuleName (Deposit queryInfo)).
Definition MustPayOutDeposit (deposit : coin.Coins) (sender : addr.AccAddress) : K unit :=
  λ s, Pool.or_panic (on_world (SendCoinsFromModuleToAccount ModuleName sender deposit) s) "failed to pay out deposit".

(** *** Cleaning up after removed queries *)

Record TxQueryToRemove := { ID : Z; Hashes : list bytes; CompleteRemoval : bool }.

Definition GetTxQueriesToRemove (s : store) (limit : Z) : list Z :=
  let ids := (by_id (to_remove s)).*1 in
  if limit =? 0 then ids else take (Z.to_nat limit) ids.
(** [make] of a slice with room for [cap] elements of [size] bytes: the runtime panics above what it can
    address, 48 bits on 64-bit platforms. *)
Definition maxAlloc : Z := 2 ^ 48.
Definition makeslice (size cap : Z) : outcome unit :=
  if maxAlloc <? size * cap then Panic "makeslice: cap out of range" else Ok tt.
(** At the limit the iterator is still at the last hash taken, so the removal is not complete.  A slice of
    bytes is three words, a pointer is one. *)
Definition calculateTxQueryRemoval (s : store) (queryID limit : Z) : outcome TxQueryToRemove :=
  _ ← makeslice 24 limit;
  let all := (KV.select (λ _, true) (hashes_of s queryID)).*1 in
  Ok (if negb (limit =? 0) && (limit <=? Z.of_nat (length all))
      then {| ID := queryID; Hashes := take (Z.to_nat limit) all; CompleteRemoval := false |}
      else {| ID := queryID; Hashes := all; CompleteRemoval := true |}).
Fixpoint queriesToRm (s : store) (limited : bool) (rmLimit : Z) (ids : list Z) : outcome (list TxQueryToRemove) :=
  match ids with
  | [] => Ok []
  | queryID :: ids =>
    queryToRm ← calculateTxQueryRemoval s queryID rmLimit;
    let rmLimit := if limited then wrap (rmLimit - Z.of_nat (length (Hashes queryToRm))) else rmLimit in
    rest ← (if limited && (rmLimit <=? 0) then Ok [] else queriesToRm s limited rmLimit ids);
    Ok (queryToRm :: rest)
  end.
Definition removeHash (queryID : Z) (txHash : bytes) : K unit :=
  modify (λ s, set_hashes (insert queryID (delete txHash (hashes_of s queryID))) s).
Definition TxQueriesCleanup : K unit :=
  p ← GetParams;
  let rmLimit := TxQueryRemovalLimit p in
  _ ← lift (makeslice 8 (rmLimit / 10));
  rm ← (λ s, lift (queriesToRm s (negb (rmLimit =? 0)) rmLimit (GetTxQueriesToRemove s rmLimit)) s);
  for_each rm (λ query,
    _ ← for_each (Hashes query) (removeHash (ID query));
    if CompleteRemoval query then modify (set_to_remove (delete (ID query))) else mret tt).

(** *** types/registered_query.go *)

(** Heights and timeouts are added as 64-bit numbers. *)
Definition ValidateRemoval (blockHeight : Z) (q : RegisteredQuery) (caller : string) : outcome unit :=
  if String.eqb (Owner q) caller then Ok tt else
  let registrationTimeoutBlock := wrap (RegisteredAtHeight q + SubmitTimeout q) in
  let submitTimeoutBlock := wrap (LastSubmittedResultLocalHeight q + SubmitTimeout q) in
  let currentBlock := wrap blockHeight in
  if (currentBlock <=? registrationTimeoutBlock) || (currentBlock <=? submitTimeoutBlock)
  then Err "only owner can remove a query within its service period" else Ok tt.

(** *** keeper/process_block_results.go *)

Definition deterministicExecTxResult (response : ExecTxResult) : ExecTxResult :=
  {| Code := Code response; Data := Data response; GasWanted := GasWanted response; GasUsed := GasUsed response;
     Others := "" |}.
Definition wrap_int64 (n : Z) : Z := (n + 2 ^ 63) mod 2 ^ 64 - 2 ^ 63.
Definition checkHeadersOrder (header nextHeader : TmHeader) : outcome unit :=
  if negb (HeaderHeight nextHeader =? wrap_int64 (HeaderHeight header + 1)) then Err "nextHeader is not next" else
  if negb (Convertible header) then Err "failed to get tendermint header from proto header" else
  if negb (Convertible nextHeader) then Err "failed to get tendermint header from proto header" else
  if negb (bool_decide (NextValidatorsHash header = ValidatorsHash nextHeader)) then Err "validators hash" else
  if negb (bool_decide (HeaderHash header = LastBlockHash nextHeader)) then Err "last block id" else Ok tt.
Definition cast (header : ClientMessage) : outcome TmHeader :=
  match AsTendermint header with Some h => Ok h | None => Err "failed to cast header to tendermint Header" end.
Definition VerifyHeaders (clientID : string) (header nextHeader : ClientMessage) : K unit :=
  _ ← on_world (UpdateClient clientID header);
  _ ← on_world (UpdateClient clientID nextHeader);
  tmHeader ← lift (cast header);
  tmNextHeader ← lift (cast nextHeader);
  lift (checkHeadersOrder tmHeader tmNextHeader).
Definition VerifyTransaction (header nextHeader : TmHeader) (tx : TxValue) : outcome unit :=
  inclusionProof ← ProofFromProto (InclusionProof tx);
  _ ← VerifyTreeProof inclusionProof (DataHash header) (TxHash (TxData tx));
  deliveryProof ← ProofFromProto (DeliveryProof tx);
  responseTxBz ← MarshalTxResult (deterministicExecTxResult (Response tx));
  _ ← VerifyTreeProof deliveryProof (LastResultsHash nextHeader) responseTxBz;
  if negb (Code (Response tx) =? 0) then Err "tx is unsuccessful" else
  if negb (ProofIndex deliveryProof =? ProofIndex inclusionProof) then Err "proof indices are not equal" else Ok tt.

(** *** x/contractmanager/keeper/sudo.go *)

(** The contracts: what [wasmKeeper.Sudo] does with the two messages. *)
Section contracts.
  Context (SudoKV : addr.AccAddress → Z → K unit) (SudoTx : addr.AccAddress → Z → Height → bytes → K unit).

Definition SudoTxQueryResult (contractAddress : addr.AccAddress) (queryID : Z) (height : Height) (data : bytes) : K unit :=
  is_contract ← gets (λ s, HasContractInfo (world s) contractAddress);
  _ ← require is_contract "not a contract address";
  SudoTx contractAddress queryID height data.
Definition SudoKVQueryResult (contractAddress : addr.AccAddress) (queryID : Z) : K unit :=
  is_contract ← gets (λ s, HasContractInfo (world s) contractAddress);
  _ ← require is_contract "not a contract address";
  SudoKV contractAddress queryID.

(** *** keeper/process_block_results.go: ProcessBlock *)

Definition ProcessBlock (queryOwner : addr.AccAddress) (queryID : Z) (clientID : string) (block : Block) (tx : TxValue)
    : K unit :=
  header ← lift (UnpackHeader (BHeader block));
  nextHeader ← lift (UnpackHeader (NextBlockHeader block));
  _ ← VerifyHeaders clientID header nextHeader;
  tmHeader ← lift (cast header);
  tmNextHeader ← lift (cast nextHeader);
  let txHash := TxHash (TxData tx) in
  processed ← CheckTransactionIsAlreadyProcessed queryID txHash;
  if negb processed then
    _ ← lift (VerifyTransaction tmHeader tmNextHeader tx);
    _ ← SudoTxQueryResult queryOwner queryID
          {| RevisionNumber := TrustedRevision tmHeader; RevisionHeight := wrap (HeaderHeight tmHeader) |} (TxData tx);
    SaveTransactionAsProcessed queryID txHash
  else mret tt.

(** *** keeper/msg_server.go *)

Definition RegisterInterchainQuery (blockHeight : Z) (msg : MsgRegisterInterchainQuery) : K Z :=
  p ← GetParams;
  _ ← lift (ValidateRegister msg p);
  senderAddr ← lift (addr.AccAddressFromBech32 (RegSender msg));
  is_contract ← gets (λ s, HasContractInfo (world s) senderAddr);
  _ ← require is_contract "not a contract address";
  connection ← gets (λ s, GetConnection (world s) (RegConnectionId msg));
  _ ← require (bool_decide (is_Some connection)) "failed to get connection";
  lastID ← GetLastRegisteredQueryKey;
  let lastID := wrap (lastID + 1) in
  let registeredQuery :=
    {| Id := lastID; Owner := RegSender msg; TransactionsFilter := RegTransactionsFilter msg; Keys := RegKeys msg;
       QueryType := RegQueryType msg; UpdatePeriod := RegUpdatePeriod msg; ConnectionId := RegConnectionId msg;
       LastSubmittedResultLocalHeight := 0; LastSubmittedResultRemoteHeight := None; Deposit := QueryDeposit p;
       SubmitTimeout := QuerySubmitTimeout p; RegisteredAtHeight := wrap blockHeight |} in
  _ ← SetLastRegisteredQueryKey lastID;
  _ ← CollectDeposit registeredQuery;
  _ ← SaveQuery registeredQuery;
  mret lastID.

Definition RemoveInterchainQuery (blockHeight : Z) (queryId : Z) (sender : string) : K unit :=
  _ ← lift (ValidateRemove queryId sender);
  query ← GetQueryByID queryId;
  _ ← lift (ValidateRemoval blockHeight query sender);
  _ ← RemoveQuery query;
  signer ← lift (Pool.or_panic (addr.AccAddressFromBech32 sender) "invalid signer");
  MustPayOutDeposit (Deposit query) signer.

Definition validateUpdateInterchainQueryParams (query : RegisteredQuery) (msg : MsgUpdateInterchainQueryRequest)
    : outcome unit :=
  let newKvKeysSet := negb (length (NewKeys msg) =? 0)%nat in
  let newTxFilterSet := negb (String.eqb (NewTransactionsFilter msg) "") in
  if IsKV (QueryType query) && negb newKvKeysSet && newTxFilterSet then Err "can't update TX filter for a KV query" else
  if IsTX (QueryType query) && negb newTxFilterSet && newKvKeysSet then Err "can't update KV keys for a TX query" else Ok tt.
Definition UpdateInterchainQuery (msg : MsgUpdateInterchainQueryRequest) : K unit :=
  p ← GetParams;
  _ ← lift (ValidateUpdate msg p);
  query ← GetQueryByID (UpdQueryId msg);
  _ ← require (String.eqb (Owner query) (UpdSender msg)) "authorization failed";
  _ ← lift (validateUpdateInterchainQueryParams query msg);
  SaveQuery (with_request
    (if negb (length (NewKeys msg) =? 0)%nat && IsKV (QueryType query) then NewKeys msg else Keys query)
    (if negb (String.eqb (NewTransactionsFilter msg) "") && IsTX (QueryType query)
     then NewTransactionsFilter msg else TransactionsFilter query)
    (if 0 <? NewUpdatePeriod msg then NewUpdatePeriod msg else UpdatePeriod query) query).

(** The values of a result against the keys of the query and their proofs; the value of a key that is proved
    absent is removed. *)
Fixpoint verifyKvResults (specs : ProofSpecs) (root : Root) (kvs : list StorageValue) (keys : list KVKey)
    : outcome (list StorageValue) :=
  match kvs, keys with
  | [], _ => Ok []
  | _ :: _, [] => Panic "index out of range"
  | result :: kvs, key :: keys =>
    proof ← match Proof result with Some p => ConvertProofs p | None => Err "failed to convert crypto.ProofOps" end;
    if negb (bool_decide (SKey result = Key key)) then Err "KV key from result is not equal to registered query key" else
    if negb (String.eqb (StoragePrefix result) (Path key)) then Err "KV path from result is not equal to the query's" else
    kind ← FirstProof proof;
    value ← match kind with
            | Nonexist => _ ← VerifyNonMembership proof specs root (StoragePrefix result) (SKey result); Ok []
            | Exist => _ ← VerifyMembership proof specs root (StoragePrefix result) (SKey result) (SValue result);
                       Ok (SValue result)
            | OtherProof => Err "unknown proof type"
            end;
    kvs ← verifyKvResults specs root kvs keys;
    Ok ({| StoragePrefix := StoragePrefix result; SKey := SKey result; SValue := value; Proof := Proof result |} :: kvs)
  end.

Definition submitKV (blockHeight : Z) (query : RegisteredQuery) (clientId : string) (result : QueryResult) : K unit :=
  _ ← require (IsKV (QueryType query)) "invalid query result for query type";
  _ ← lift (checkLastRemoteHeight query {| RevisionNumber := Revision result; RevisionHeight := RHeight result |});
  _ ← require (length (KvResults result) =? length (Keys query))%nat "KV keys length";
  w ← gets world;
  root ← lift (ConnectionConsensusState w (ConnectionId query) (Revision result) (wrap (RHeight result + 1)));
  specs ← lift (GetClientState w clientId);
  kvs ← lift (verifyKvResults specs root (KvResults result) (Keys query));
  saveKVQueryResult blockHeight query
    {| KvResults := kvs; RBlock := RBlock result; RHeight := RHeight result; Revision := Revision result;
       AllowKvCallbacks := AllowKvCallbacks result |}.
Definition submitTX (blockHeight : Z) (queryId : Z) (query : RegisteredQuery) (queryOwner : addr.AccAddress) (clientId : string)
    (block : Block) (tx : TxValue) : K unit :=
  _ ← require (IsTX (QueryType query)) "invalid query result for query type";
  _ ← ProcessBlock queryOwner queryId clientId block tx;
  UpdateLastLocalHeight (Id query) (wrap blockHeight).
Definition SubmitQueryResult (blockHeight : Z) (queryId : Z) (sender : string) (result : option QueryResult) : K unit :=
  result ← lift (ValidateSubmit queryId sender result);
  query ← GetQueryByID queryId;
  connection ← gets (λ s, GetConnection (world s) (ConnectionId query));
  match connection with
  | None => throw "registered query has invalid connection id"
  | Some clientId =>
    queryOwner ← lift (addr.AccAddressFromBech32 (Owner query));
    let kv := negb (length (KvResults result) =? 0)%nat in
    _ ← (if kv then submitKV blockHeight query clientId result else mret tt);
    if kv && AllowKvCallbacks result then SudoKVQueryResult queryOwner (Id query) else
    match RBlock result with
    | Some block =>
      match Tx block with
      | Some tx => submitTX blockHeight queryId query queryOwner clientId block tx
      | None => mret tt
      end
    | None => mret tt
    end
  end.
End contracts.

Definition UpdateParams (authority : string) (p : Params) : K unit :=
  _ ← lift (match addr.AccAddressFromBech32 authority with
            | Ok _ => Ok tt | Err _ => Err "authority is invalid" | Panic e => Panic e end);
  _ ← require (String.eqb Authority authority) "invalid authority";
  SetParams p.

(** *** genesis.go *)

Definition query_le (a b : RegisteredQuery) : Prop := Id a ≤ Id b.
#[global] Instance query_le_dec : RelDecision query_le.
Proof. intros x y. unfold query_le. apply _. Defined.
Definition InitGenesis (p : Params) (registered : list RegisteredQuery) : K unit :=
  _ ← for_each (merge_sort query_le registered) (λ elem, _ ← SetLastRegisteredQueryKey (Id elem); SaveQuery elem);
  SetParams p.
Definition ExportGenesis : K (Params * list RegisteredQuery) :=
  p ← GetParams;
  l ← GetAllRegisteredQueries;
  mret (p, l).
End queries.
End Icq.

Import Icq.

Module IcqProps.
(** What the rest of the chain documents: transfers move valid coins from one balance to another, the
    accounts of modules are not contracts, updating a client moves no coins, and heights are ordered. *)
Definition when (b : bool) (n : Z) : Z := if b then n else 0.
Class ChainLaws (Ch : Chain) : Type := {
  Balance : World → addr.AccAddress → string → Z;
  GetModuleAddress : string → addr.AccAddress;
  SendCoinsFromAccountToModule_spec a m c w w' x d :
    SendCoinsFromAccountToModule a m c w = Ok w' → 0 ≤ coin.amt d c ∧
    Balance w' x d = Balance w x d - when (bool_decide (x = a)) (coin.amt d c)
                     + when (bool_decide (x = GetModuleAddress m)) (coin.amt d c);
  SendCoinsFromModuleToAccount_spec m a c w w' x d :
    SendCoinsFromModuleToAccount m a c w = Ok w' →
    Balance w' x d = Balance w x d - when (bool_decide (x = GetModuleAddress m)) (coin.amt d c)
                     + when (bool_decide (x = a)) (coin.amt d c);
  HasContractInfo_module w m : HasContractInfo w (GetModuleAddress m) = false;
  UpdateClient_spec c h w w' x d : UpdateClient c h w = Ok w' → Balance w' x d = Balance w x d;
  GTE_refl h : GTE h h = true;
  GTE_trans a b c : GTE a b = true → GTE b c = true → GTE a c = true;
  GTE_total a b : GTE a b = false → GTE b a = true;
}.

Section queries.
  Context {C : coin.CoinOps} {A : addr.Addresses} {Ch : Chain} {L : ChainLaws Ch}.
Definition account : addr.AccAddress := GetModuleAddress ModuleName.

(** What happens to the module: messages, the end of blocks, and what the rest of the chain does, which does not
    take from the module's account.  A contract that is called does any of these in turn. *)
Inductive step : store → store → Prop :=
| StepRegister h msg s id s' :
    last s + 1 < 2 ^ 64 → RegisterInterchainQuery h msg s = Ok (id, s') → step s s'
| StepRemove h id sender s u s' : RemoveInterchainQuery h id sender s = Ok (u, s') → step s s'
| StepUpdate msg s u s' : UpdateInterchainQuery msg s = Ok (u, s') → step s s'
| StepSubmit kv tx h id sender result s u s' :
    (∀ o q s1 v s2, kv o q s1 = Ok (v, s2) → steps s1 s2) →
    (∀ o q ht b s1 v s2, tx o q ht b s1 = Ok (v, s2) → steps s1 s2) →
    SubmitQueryResult kv tx h id sender result s = Ok (u, s') → step s s'
| StepCleanup s u s' : TxQueriesCleanup s = Ok (u, s') → step s s'
| StepParams authority p s u s' : UpdateParams authority p s = Ok (u, s') → step s s'
| StepOther w s : (∀ d, Balance (world s) account d ≤ Balance w account d) → step s (set_world w s)
with steps : store → store → Prop :=
| steps_refl s : steps s s
| steps_l s s1 s2 : step s s1 → steps s1 s2 → steps s s2.
Scheme step_min := Minimality for step Sort Prop
  with steps_min := Minimality for steps Sort Prop.

(** *** The invariant *)

Definition owed (d : string) (s : store) : Z := map_sum (λ _ q, coin.amt d (Deposit q)) (queries s).
Record inv (s : store) : Prop := {
  inv_id k q : queries s !! k = Some q → Id q = k ∧ k ≤ last s;
  inv_last : 0 ≤ last s < 2 ^ 64;
  inv_deposit k q d : queries s !! k = Some q → 0 ≤ coin.amt d (Deposit q);
  inv_owed d : owed d s ≤ Balance (world s) account d
}.
Definition newer (a b : option Height) : Prop :=
  match a with Some h => ∃ h', b = Some h' ∧ GTE h' h = true | None => True end.
(** A query that is not replaced: only its request changes, and its heights grow. *)
Definition continues (q q' : RegisteredQuery) : Prop :=
  Id q' = Id q ∧ Owner q' = Owner q ∧ QueryType q' = QueryType q ∧ Deposit q' = Deposit q ∧
  newer (LastSubmittedResultRemoteHeight q) (LastSubmittedResultRemoteHeight q').
Definition evolves (s s' : store) : Prop :=
  inv s → inv s' ∧ last s ≤ last s' ∧
  ∀ id q', queries s' !! id = Some q' → id ≤ last s → ∃ q, queries s !! id = Some q ∧ continues q q'.

Lemma newer_refl a : newer a a.
Proof. destruct a as [h|]; [|done]. exists h. split; [done|apply GTE_refl]. Qed.
Lemma continues_refl q : continues q q.
Proof. repeat split. apply newer_refl. Qed.
Lemma continues_trans q1 q2 q3 : continues q1 q2 → continues q2 q3 → continues q1 q3.
Proof.
  intros (E1 & E2 & E3 & E4 & H1) (F1 & F2 & F3 & F4 & H2). repeat split; try congruence. unfold newer in *.
  destruct (LastSubmittedResultRemoteHeight q1); [|done]. destruct H1 as (h' & E & H1). rewrite E in H2.
  destruct H2 as (h'' & E' & H2). exists h''. split; [done|]. by eapply GTE_trans.
Qed.
#[local] Instance evolves_preorder : PreOrder evolves.
Proof.
  split.
  - intros s H. split; [done|]. split; [lia|]. intros id q Hq _. exists q. split; [done|apply continues_refl].
  - intros s1 s2 s3 H1 H2 Hi. destruct (H1 Hi) as (I2 & L2 & Q2). destruct (H2 I2) as (I3 & L3 & Q3).
    split; [done|]. split; [lia|]. intros id q'' Hq Hid. destruct (Q3 id q'' Hq ltac:(lia)) as (q' & Hq' & C2).
    destruct (Q2 id q' Hq' Hid) as (q & Hq0 & C1). exists q. split; [done|]. by eapply continues_trans.
Qed.

(** *** What the operations do to it *)

Lemma evolves_frame s s' :
  queries s' = queries s → last s' = last s →
  (∀ d, Balance (world s) account d ≤ Balance (world s') account d) → evolves s s'.
Proof.
  intros Hq Hl Hb [I1 I2 I3 I4]. split; [|split; [lia|]].
  - split; [by rewrite Hq, Hl|by rewrite Hl|by rewrite Hq|]. intros d. unfold owed. rewrite Hq. etransitivity; [apply I4|apply Hb].
  - rewrite Hq. intros id q Hq' _. exists q. split; [done|apply continues_refl].
Qed.
Lemma evolves_save s id q q' :
  queries s !! id = Some q → continues q q' → evolves s (set_queries (insert (Id q') q') s).
Proof.
  intros Hq Hc [I1 I2 I3 I4]. destruct (I1 id q Hq) as [<- Hid]. pose proof Hc as (E1 & _ & _ & E4 & _). rewrite E1.
  split; [|split; [done|]].
  - split; cbn.
    + intros k x. rewrite lookup_insert_Some. intros [[<- <-]|[_ Hx]]; [done|by apply I1].
    + done.
    + intros k x d. rewrite lookup_insert_Some. intros [[_ <-]|[_ Hx]]; [rewrite E4; by eapply I3|by eapply I3].
    + intros d. unfold owed. cbn. rewrite (map_sum_update _ _ _ _ _ Hq), E4. specialize (I4 d). unfold owed in I4. lia.
  - cbn. intros k x. rewrite lookup_insert_Some. intros [[<- <-]|[_ Hx]] _; [by exists q|].
    exists x. split; [done|apply continues_refl].
Qed.

Lemma on_world_Ok m s u s' : on_world m s = Ok (u, s') → ∃ w, m (world s) = Ok w ∧ s' = set_world w s.
Proof. unfold on_world. intros (w & Hw & ->)%st_zoom_Ok. apply bind_Ok in Hw as (w' & Hm & [= <- <-]). by exists w'. Qed.
Lemma GetQueryByID_Ok id s q s' : GetQueryByID id s = Ok (q, s') → s = s' ∧ queries s !! id = Some q.
Proof. unfold GetQueryByID. intros Hr. run_gets Hr. destruct (queries s !! id); [by run_ret Hr|done]. Qed.
Lemma must_pay_Ok {B} (m : M store B) e s b s' : Pool.or_panic (m s) e = Ok (b, s') → m s = Ok (b, s').
Proof. unfold Pool.or_panic. by destruct (m s). Qed.

Lemma register_evolves h msg s id s' :
  last s + 1 < 2 ^ 64 → RegisterInterchainQuery h msg s = Ok (id, s') → evolves s s'.
Proof.
  intros Hlast Hr [I1 I2 I3 I4]. unfold RegisterInterchainQuery, GetParams, GetLastRegisteredQueryKey in Hr. run_gets Hr.
  run_lift Hr as v Hv. run_lift Hr as sender Hsender. run_gets Hr. run_require Hr as Hc. run_gets Hr. run_require Hr as Hconn.
  run_gets Hr. cbv zeta in Hr. set (q := {| Id := wrap (last s + 1) |}) in Hr.
  assert (wrap (last s + 1) = last s + 1) as Hw by (apply Z.mod_small; lia).
  run Hr as u1 s1 H1. apply st_modify_Ok in H1 as ->. run Hr as u2 s2 H2.
  unfold CollectDeposit in H2. run_lift H2 as owner Howner. apply on_world_Ok in H2 as (w & Hpay & ->).
  run Hr as u3 s3 H3. apply st_modify_Ok in H3 as ->. run_ret Hr. cbn [set_last world] in Hpay.
  assert (owner = sender) as ->.
  { unfold q in Howner. cbn [Owner] in Howner. rewrite Hsender in Howner. by injection Howner. }
  assert (queries s !! (last s + 1) = None) as Hnew.
  { destruct (queries s !! (last s + 1)) as [y|] eqn:E; [|done]. apply I1 in E as [_ ?]. lia. }
  assert (∀ d, 0 ≤ coin.amt d (Deposit q) ∧
    Balance w account d = Balance (world s) account d + coin.amt d (Deposit q)) as Hbal.
  { intros d. destruct (SendCoinsFromAccountToModule_spec _ _ _ _ _ account d Hpay) as [Hpos Hb]. split; [done|].
    rewrite Hb. rewrite (bool_decide_eq_true_2 (account = GetModuleAddress ModuleName)) by done.
    rewrite bool_decide_eq_false_2; [cbn [when]; lia|]. intros <-.
    pose proof (HasContractInfo_module (world s) ModuleName) as Hno. unfold account in Hc. congruence. }
  cbn [set_last set_world set_queries q Id]. rewrite Hw. split; [|split; [cbn; lia|]].
  - split; cbn.
    + intros k y. rewrite lookup_insert_Some. intros [[<- <-]|[_ Hy]]; [cbn; lia|]. apply I1 in Hy. lia.
    + lia.
    + intros k y d. rewrite lookup_insert_Some. intros [[_ <-]|[_ Hy]]; [apply Hbal|by eapply I3].
    + intros d. unfold owed. cbn. rewrite map_sum_insert by done. destruct (Hbal d) as [_ ->].
      specialize (I4 d). unfold owed in I4. lia.
  - cbn. intros k y. rewrite lookup_insert_Some. intros [[<- _]|[_ Hy]] ?; [lia|]. exists y.
    split; [done|apply continues_refl].
Qed.

Lemma RemoveQuery_Ok q s u s' :
  RemoveQuery q s = Ok (u, s') → queries s' = delete (Id q) (queries s) ∧ last s' = last s ∧ world s' = world s.
Proof.
  unfold RemoveQuery. intros Hr. run Hr as u1 s1 H1. apply st_modify_Ok in H1 as ->.
  destruct (IsKV _); [by apply st_modify_Ok in Hr as ->|]. destruct (IsTX _); [by apply st_modify_Ok in Hr as ->|].
  by run_ret Hr.
Qed.
Lemma remove_evolves h id sender s u s' : RemoveInterchainQuery h id sender s = Ok (u, s') → evolves s s'.
Proof.
  intros Hr [I1 I2 I3 I4]. unfold RemoveInterchainQuery in Hr. run_lift Hr as v Hv.
  run Hr as q s1 H1. apply GetQueryByID_Ok in H1 as [<- Hq]. run_lift Hr as v2 Hv2. run Hr as u2 s2 H2.
  apply RemoveQuery_Ok in H2 as (Q2 & L2 & W2). run_lift Hr as signer Hsigner. unfold MustPayOutDeposit in Hr.
  apply must_pay_Ok, on_world_Ok in Hr as (w & Hw & ->). rewrite W2 in Hw.
  destruct (I1 id q Hq) as [Eid _]. rewrite Eid in Q2.
  split; [|split; [cbn; lia|]].
  - split; cbn; rewrite ?Q2, ?L2.
    + intros k x [_ Hx]%lookup_delete_Some. by apply I1.
    + done.
    + intros k x d [_ Hx]%lookup_delete_Some. by eapply I3.
    + intros d. unfold owed. cbn. rewrite Q2. specialize (I4 d). unfold owed in I4. rewrite (map_sum_delete _ _ _ _ Hq) in I4.
      pose proof (SendCoinsFromModuleToAccount_spec _ _ _ _ _ account d Hw) as Hb.
      rewrite (bool_decide_eq_true_2 (account = GetModuleAddress ModuleName)) in Hb by done. cbn [when] in Hb.
      pose proof (I3 id q d Hq). unfold when in Hb. case_bool_decide; lia.
  - cbn. rewrite Q2. intros k x [_ Hx]%lookup_delete_Some _. exists x. split; [done|apply continues_refl].
Qed.
Lemma update_evolves msg s u s' : UpdateInterchainQuery msg s = Ok (u, s') → evolves s s'.
Proof.
  unfold UpdateInterchainQuery, GetParams. intros Hr. run_gets Hr. run_lift Hr as v Hv. run Hr as q s1 H1.
  apply GetQueryByID_Ok in H1 as [<- Hq]. run_require Hr as Ho. run_lift Hr as v2 Hv2. apply st_modify_Ok in Hr as ->.
  eapply evolves_save; [exact Hq|]. repeat split. apply newer_refl.
Qed.
Lemma local_evolves id h s u s' : UpdateLastLocalHeight id h s = Ok (u, s') → evolves s s'.
Proof.
  unfold UpdateLastLocalHeight, getRegisteredQueryByID. intros Hr. run Hr as q s1 H1.
  apply GetQueryByID_Ok in H1 as [<- Hq]. apply st_modify_Ok in Hr as ->.
  eapply evolves_save; [exact Hq|]. repeat split. apply newer_refl.
Qed.
(** A result that is stored is for a greater height than the one before. *)
Lemma submitKV_evolves h q client r s u s' :
  queries s !! Id q = Some q → submitKV h q client r s = Ok (u, s') → evolves s s'.
Proof.
  intros Hq Hr. unfold submitKV in Hr. run_require Hr as H1. run_lift Hr as v Hv. run_require Hr as H2. run_gets Hr.
  run_lift Hr as root Hroot. run_lift Hr as specs Hspecs. run_lift Hr as kvs Hkvs. unfold saveKVQueryResult in Hr.
  run Hr as u1 s1 H3. apply st_modify_Ok in H3 as ->. apply st_modify_Ok in Hr as ->.
  set (r' := {| KvResults := kvs |}). set (q' := with_local_height _ _).
  transitivity (set_results (insert (Id q) (clearQueryResult r')) s); [by apply evolves_frame|].
  apply (evolves_save _ (Id q) q q'); [done|]. repeat split. unfold newer, q'. cbn.
  unfold checkLastRemoteHeight in Hv. destruct (LastSubmittedResultRemoteHeight q) as [old|]; [|done].
  destruct (GTE old _) eqn:E; [done|]. eexists. split; [done|]. by apply GTE_total.
Qed.
Lemma on_world_evolves m s u s' :
  on_world m s = Ok (u, s') → (∀ w w' d, m w = Ok w' → Balance w account d ≤ Balance w' account d) → evolves s s'.
Proof. intros (w & Hw & ->)%on_world_Ok Hm. apply evolves_frame; [done|done|]. intros d. by apply Hm. Qed.

Section contracts.
  Context (kv : addr.AccAddress → Z → M store unit) (tx : addr.AccAddress → Z → Height → bytes → M store unit).
  Hypothesis kv_evolves : ∀ o q s u s', kv o q s = Ok (u, s') → evolves s s'.
  Hypothesis tx_evolves : ∀ o q ht b s u s', tx o q ht b s = Ok (u, s') → evolves s s'.

Lemma SudoKV_evolves o q s u s' : SudoKVQueryResult kv o q s = Ok (u, s') → evolves s s'.
Proof using kv_evolves. unfold SudoKVQueryResult. intros Hr. run_gets Hr. run_require Hr as Hc. by eapply kv_evolves. Qed.
Lemma SudoTx_evolves o q ht b s u s' : SudoTxQueryResult tx o q ht b s = Ok (u, s') → evolves s s'.
Proof using tx_evolves. unfold SudoTxQueryResult. intros Hr. run_gets Hr. run_require Hr as Hc. by eapply tx_evolves. Qed.
Lemma VerifyHeaders_evolves c a b s u s' : VerifyHeaders c a b s = Ok (u, s') → evolves s s'.
Proof using.
  unfold VerifyHeaders. intros Hr. run Hr as u1 s1 H1. run Hr as u2 s2 H2. run_lift Hr as x Hx. run_lift Hr as y Hy.
  apply st_lift_Ok in Hr as [_ <-].
  apply on_world_evolves in H1; [|intros w w' d Hw; rewrite (UpdateClient_spec _ _ _ _ account d Hw); lia].
  apply on_world_evolves in H2; [|intros w w' d Hw; rewrite (UpdateClient_spec _ _ _ _ account d Hw); lia].
  by transitivity s1.
Qed.
Lemma ProcessBlock_evolves o id c b t s u s' : ProcessBlock tx o id c b t s = Ok (u, s') → evolves s s'.
Proof using tx_evolves.
  unfold ProcessBlock. intros Hr. run_lift Hr as x Hx. run_lift Hr as y Hy. run Hr as u1 s1 H1.
  apply VerifyHeaders_evolves in H1. run_lift Hr as x2 Hx2. run_lift Hr as y2 Hy2. cbv zeta in Hr.
  unfold CheckTransactionIsAlreadyProcessed in Hr. run_gets Hr. destruct (negb _).
  - run_lift Hr as v Hv. run Hr as u3 s3 H3. apply SudoTx_evolves in H3. apply st_modify_Ok in Hr as ->.
    transitivity s1; [done|]. transitivity s3; [done|]. by apply evolves_frame.
  - by run_ret Hr.
Qed.
Lemma submit_evolves h id sender r s u s' : SubmitQueryResult kv tx h id sender r s = Ok (u, s') → evolves s s'.
Proof using kv_evolves tx_evolves.
  intros Hr Hi. revert Hi. unfold SubmitQueryResult in Hr. run_lift Hr as r' Hv. run Hr as q s1 H1.
  apply GetQueryByID_Ok in H1 as [<- Hq]. run_gets Hr. destruct (GetConnection _ _) as [client|]; [|done].
  run_lift Hr as o Ho. cbv zeta in Hr. run Hr as u1 s1 H1. intros Hi.
  assert (queries s !! Id q = Some q) as Hq' by (by rewrite (proj1 (inv_id s Hi id q Hq))).
  assert (evolves s s1) as Hev1.
  { destruct (negb _); [by eapply submitKV_evolves|by run_ret H1]. }
  assert (evolves s1 s') as Hev2; [|by apply (transitivity Hev1 Hev2)].
  destruct (negb _ && _); [by eapply SudoKV_evolves|]. destruct (RBlock r') as [b|]; [|by run_ret Hr].
  destruct (Tx b) as [t|]; [|by run_ret Hr]. unfold submitTX in Hr. run_require Hr as H2. run Hr as u3 s3 H3.
  apply ProcessBlock_evolves in H3. apply local_evolves in Hr. by transitivity s3.
Qed.
End contracts.

Definition same_state (s s' : store) : Prop := queries s' = queries s ∧ last s' = last s ∧ world s' = world s ∧ params s' = params s.
#[local] Instance same_state_preorder : PreOrder same_state.
Proof. split; [done|]. intros s1 s2 s3 (E1 & E2 & E3 & E4) (F1 & F2 & F3 & F4). repeat split; congruence. Qed.
Lemma cleanup_same : keeps same_state TxQueriesCleanup.
Proof.
  unfold TxQueriesCleanup, GetParams. apply keeps_bind; [apply _|by apply keeps_gets; apply _|]. intros p. cbv zeta.
  apply keeps_bind; [apply _|apply keeps_lift; apply _|]. intros _.
  apply keeps_bind; [apply _|by intros s1 rm s2 [_ <-]%st_lift_Ok|]. intros rm. apply keeps_for_each; [apply _|].
  intros q. apply keeps_bind; [apply _| |].
  - apply keeps_for_each; [apply _|]. intros b. unfold removeHash. by apply (keeps_modify same_state).
  - intros _. destruct (CompleteRemoval q); [by apply (keeps_modify same_state)|apply keeps_ret; apply _].
Qed.
Lemma steps_evolves s s' : steps s s' → evolves s s'.
Proof.
  apply (steps_min evolves evolves).
  - intros. by eapply register_evolves.
  - intros. by eapply remove_evolves.
  - intros. by eapply update_evolves.
  - intros kv tx h id sender r s1 u s2 _ Hkv _ Htx Hr. by eapply submit_evolves.
  - intros s1 u s2 Hr. apply cleanup_same in Hr as (E1 & E2 & E3 & _). apply evolves_frame; [done|done|]. intros d. by rewrite E3.
  - intros au p s1 u s2 Hr. unfold UpdateParams in Hr. run_lift Hr as v Hv. run_require Hr as H1. apply st_modify_Ok in Hr as ->.
    by apply evolves_frame.
  - intros w s1 Hw. by apply evolves_frame.
  - reflexivity.
  - intros s1 s2 s3 _ H1 _ H2. by transitivity s2.
Qed.
Lemma inv_start s : queries s = ∅ → 0 ≤ last s < 2 ^ 64 → (∀ e, 0 ≤ Balance (world s) account e) → inv s.
Proof.
  intros Hq Hl Hb. split; [by rewrite Hq|done|by rewrite Hq|]. intros d. unfold owed. by rewrite Hq, map_sum_empty.
Qed.
End queries.
(** *** Results and their proofs *)

Section results.
  Context {A : addr.Addresses} {Ch : Chain}.
(** A submitted value and what is stored for it. *)
Definition proved (specs : ProofSpecs) (root : Root) (v v' : StorageValue) : Prop :=
  SKey v' = SKey v ∧ StoragePrefix v' = StoragePrefix v ∧ Proof v' = None ∧
  ∃ ops proof, Proof v = Some ops ∧ ConvertProofs ops = Ok proof ∧
    (FirstProof proof = Ok Exist ∧ SValue v' = SValue v ∧
       VerifyMembership proof specs root (StoragePrefix v) (SKey v) (SValue v) = Ok tt ∨
     FirstProof proof = Ok Nonexist ∧ SValue v' = [] ∧
       VerifyNonMembership proof specs root (StoragePrefix v) (SKey v) = Ok tt).
Definition answers (v : StorageValue) (key : KVKey) : Prop := SKey v = Key key ∧ StoragePrefix v = Path key.
Definition without_proof (v : StorageValue) : StorageValue :=
  {| StoragePrefix := StoragePrefix v; SKey := SKey v; SValue := SValue v; Proof := None |}.
Lemma verifyKvResults_Ok specs root vs keys vs' :
  verifyKvResults specs root vs keys = Ok vs' → length vs = length keys →
  Forall2 (proved specs root) vs (without_proof <$> vs') ∧ Forall2 answers (without_proof <$> vs') keys.
Proof.
  revert keys vs'. induction vs as [|v vs IH]; intros [|key keys] vs' Hr Hlen; try done.
  - cbn in Hr. injection Hr as <-. cbn. by split; constructor.
  - cbn [verifyKvResults] in Hr. apply bind_Ok in Hr as (proof & Hp & Hr). destruct (Proof v) as [ops|] eqn:Eops; [|done].
    destruct (bool_decide_reflect (SKey v = Key key)) as [Ek|]; [|done]. cbn [negb] in Hr.
    destruct (String.eqb_spec (StoragePrefix v) (Path key)) as [Ep|]; [|done]. cbn [negb] in Hr.
    apply bind_Ok in Hr as (kind & Hkind & Hr). apply bind_Ok in Hr as (value & Hval & Hr).
    apply bind_Ok in Hr as (vs1 & Hvs & [= <-]). injection Hlen as Hlen. destruct (IH keys vs1 Hvs Hlen) as [I1 I2].
    cbn [fmap list_fmap]. split; constructor; try done. split_and!; try done. exists ops, proof. split_and!; try done.
    destruct kind; [right|left|done]; apply bind_Ok in Hval as ([] & Hver & [= <-]); by split_and!.
Qed.
Lemma submitKV_Ok h q client r s s' :
  submitKV h q client r s = Ok (tt, s') →
  ∃ root specs kvs, QueryType q = "kv"%string ∧
    ConnectionConsensusState (world s) (ConnectionId q) (Revision r) (wrap (RHeight r + 1)) = Ok root ∧
    GetClientState (world s) client = Ok specs ∧ Forall2 (proved specs root) (KvResults r) kvs ∧ Forall2 answers kvs (Keys q) ∧
    s' = set_queries (insert (Id q) (with_local_height (wrap h)
           (with_remote_height {| RevisionNumber := Revision r; RevisionHeight := RHeight r |} q)))
         (set_results (insert (Id q) {| KvResults := kvs; RBlock := None; RHeight := RHeight r; Revision := Revision r;
                                        AllowKvCallbacks := false |}) s).
Proof.
  intros Hr. unfold submitKV in Hr. run_require Hr as H1. run_lift Hr as v Hv. run_require Hr as H2. run_gets Hr.
  run_lift Hr as root Hroot. run_lift Hr as specs Hspecs. run_lift Hr as kvs Hkvs. unfold saveKVQueryResult in Hr.
  run Hr as u1 s1 H3. apply st_modify_Ok in H3 as ->. apply st_modify_Ok in Hr as ->.
  apply Nat.eqb_eq in H2. apply verifyKvResults_Ok in Hkvs as [K1 K2]; [|done].
  exists root, specs, (without_proof <$> kvs). split_and!; try done. by apply String.eqb_eq.
Qed.
End results.

(** *** Cleaning up after removed queries *)

Section cleanup.
  Context {C : coin.CoinOps} {A : addr.Addresses} {Ch : Chain}.
  Implicit Types (s : store) (e : TxQueryToRemove) (rm : list TxQueryToRemove) (m : gmap bytes unit).

Lemma bind_run {X Y} (m : M store X) (f : X → M store Y) s x s' : m s = Ok (x, s') → (y ← m; f y) s = f x s'.
Proof. intros H. unfold mbind, M_bind. by rewrite H. Qed.

(** The hashes that are stored for removed queries. *)
Definition backlog s : Z := map_sum (λ id _, Z.of_nat (size (hashes_of s id))) (to_remove s).
Definition stored s (id : Z) : list bytes := (KV.select (λ _, true) (hashes_of s id)).*1.
Fixpoint blocks (n : nat) : M store unit := match n with O => mret tt | S n => _ ← TxQueriesCleanup; blocks n end.

(** What any part of a cleanup does. *)
Definition cleaned s s' : Prop :=
  params s' = params s ∧
  ∀ id, (to_remove s' !! id = to_remove s !! id ∨ to_remove s' !! id = None ∧ hashes_of s' id = ∅) ∧
        (to_remove s !! id = None → hashes_of s' id = hashes_of s id).
#[local] Instance cleaned_preorder : PreOrder cleaned.
Proof.
  split; [by repeat split; auto|]. intros s1 s2 s3 [P1 H1] [P2 H2]. split; [congruence|].
  intros id. destruct (H1 id) as [T1 U1], (H2 id) as [T2 U2]. split.
  - destruct T2 as [T2|T2]; [|by right]. destruct T1 as [T1|[T1 E1]]; [left; congruence|].
    right. rewrite T2. split; [done|]. by rewrite U2.
  - intros Hn. destruct T1 as [T1|[T1 E1]]; rewrite U2 by congruence; by apply U1.
Qed.

Lemma select_all m : (KV.select (λ _, true) m) ≡ₚ map_to_list m.
Proof. unfold KV.select. rewrite merge_sort_Permutation. induction (map_to_list m) as [|x l IH]; [done|]. rewrite filter_cons_True by done. by constructor. Qed.
Lemma stored_size s id : length (stored s id) = size (hashes_of s id).
Proof. unfold stored. rewrite length_fmap, (Permutation_length (select_all _)). apply length_map_to_list. Qed.
Lemma elem_of_stored s id b : b ∈ stored s id ↔ is_Some (hashes_of s id !! b).
Proof.
  unfold stored. rewrite list_elem_of_fmap. split.
  - intros ([k u] & -> & [_ Hk]%KV.elem_of_select). by exists u.
  - intros [u Hu]. exists (b, u). split; [done|]. by apply KV.elem_of_select.
Qed.
Lemma hashes_set id m s k :
  hashes_of (set_hashes (insert id m) s) k = if decide (k = id) then m else hashes_of s k.
Proof.
  unfold hashes_of. cbn. destruct (decide (k = id)) as [->|Hk]; [by rewrite lookup_insert_eq|].
  by rewrite lookup_insert_ne.
Qed.

(** What is to be removed of one query. *)
Definition entry_ok s e : Prop :=
  is_Some (to_remove s !! ID e) ∧ NoDup (Hashes e) ∧ (∀ b, b ∈ Hashes e → is_Some (hashes_of s (ID e) !! b)) ∧
  (CompleteRemoval e = true → length (Hashes e) = size (hashes_of s (ID e))).
Lemma removeHash_spec id b s :
  is_Some (to_remove s !! id) → is_Some (hashes_of s id !! b) →
  ∃ s', removeHash id b s = Ok (tt, s') ∧ to_remove s' = to_remove s ∧ cleaned s s' ∧
    (∀ k, k ≠ id → hashes_of s' k = hashes_of s k) ∧ hashes_of s' id = delete b (hashes_of s id) ∧
    backlog s' = backlog s - 1.
Proof.
  intros [u Hu] Hb. set (s' := set_hashes (insert id (delete b (hashes_of s id))) s).
  assert (∀ k, k ≠ id → hashes_of s' k = hashes_of s k) as Hne.
  { intros k Hk. unfold s'. rewrite hashes_set. by rewrite decide_False. }
  assert (hashes_of s' id = delete b (hashes_of s id)) as Heq by (unfold s'; rewrite hashes_set; by rewrite decide_True).
  exists s'. split; [done|]. split; [done|]. split; [|split; [done|split; [done|]]].
  - split; [done|]. intros k. split; [by left|]. intros Hk. apply Hne. intros ->. congruence.
  - unfold backlog. change (to_remove s') with (to_remove s). rewrite !(map_sum_delete _ _ _ _ Hu), Heq.
    rewrite (map_sum_ext _ (λ k _, Z.of_nat (size (hashes_of s k))) (delete id (to_remove s))).
    + destruct Hb as [v Hv]. rewrite map_size_delete_Some by (by exists v).
      assert (size (hashes_of s id) ≠ 0%nat); [|lia]. intros E. apply map_size_empty_iff in E. by rewrite E, lookup_empty in Hv.
    + intros k v [Hk _]%lookup_delete_Some. by rewrite Hne.
Qed.
Lemma removeHashes_spec id hs s :
  is_Some (to_remove s !! id) → NoDup hs → (∀ b, b ∈ hs → is_Some (hashes_of s id !! b)) →
  ∃ s', for_each hs (removeHash id) s = Ok (tt, s') ∧ to_remove s' = to_remove s ∧ cleaned s s' ∧
    (∀ k, k ≠ id → hashes_of s' k = hashes_of s k) ∧
    Z.of_nat (size (hashes_of s' id)) = Z.of_nat (size (hashes_of s id)) - Z.of_nat (length hs) ∧
    backlog s' = backlog s - Z.of_nat (length hs).
Proof.
  intros Hid. revert s Hid. induction hs as [|b hs IH]; intros s Hid Hn Hin.
  - exists s. cbn. repeat split; [auto..|lia|lia].
  - apply NoDup_cons in Hn as [Hb Hn]. destruct (removeHash_spec id b s Hid (Hin b ltac:(by left))) as (s1 & R1 & T1 & C1 & N1 & D1 & B1).
    destruct (IH s1) as (s2 & R2 & T2 & C2 & N2 & D2 & B2); [by rewrite T1|done| |].
    { intros c Hc. rewrite D1, lookup_delete_ne by (intros ->; done). apply Hin. by right. }
    exists s2. split; [cbn [for_each]; by rewrite (bind_run _ _ _ _ _ R1)|]. split; [congruence|].
    split; [by transitivity s1|]. split; [intros k Hk; rewrite N2 by done; by apply N1|].
    assert (size (delete b (hashes_of s id)) = pred (size (hashes_of s id))) as Hs.
    { apply map_size_delete_Some, Hin. by left. }
    assert (size (hashes_of s id) ≠ 0%nat).
    { intros E. apply map_size_empty_iff in E. destruct (Hin b ltac:(by left)) as [v Hv]. by rewrite E, lookup_empty in Hv. }
    rewrite D1 in D2. cbn [length]. split; lia.
Qed.
Definition removeEntry e : M store unit :=
  _ ← for_each (Hashes e) (removeHash (ID e));
  if CompleteRemoval e then modify (set_to_remove (delete (ID e))) else mret tt.
Lemma removeEntry_spec e s :
  entry_ok s e →
  ∃ s', removeEntry e s = Ok (tt, s') ∧ cleaned s s' ∧
    to_remove s' = (if CompleteRemoval e then delete (ID e) (to_remove s) else to_remove s) ∧
    (∀ k, k ≠ ID e → hashes_of s' k = hashes_of s k) ∧ backlog s' = backlog s - Z.of_nat (length (Hashes e)).
Proof.
  intros (Hid & Hn & Hin & Hc).
  destruct (removeHashes_spec (ID e) (Hashes e) s Hid Hn Hin) as (s1 & R1 & T1 & C1 & N1 & D1 & B1).
  unfold removeEntry. rewrite (bind_run _ _ _ _ _ R1). destruct (CompleteRemoval e).
  - exists (set_to_remove (delete (ID e)) s1). split; [done|].
    assert (hashes_of s1 (ID e) = ∅) as He by (specialize (Hc eq_refl); apply map_size_empty_iff; lia).
    split; [|split; [cbn; by rewrite T1|split; [done|]]].
    + transitivity s1; [done|]. split; [done|]. intros k. split; [|done]. cbn. destruct (decide (k = ID e)) as [->|Hk].
      * right. by rewrite lookup_delete_eq.
      * left. by rewrite lookup_delete_ne.
    + rewrite <- B1. unfold backlog. cbn. destruct Hid as [u Hu]. rewrite <- T1 in Hu. rewrite (map_sum_delete _ (to_remove s1) _ _ Hu), He.
      rewrite map_size_empty. change (λ id _, Z.of_nat (size (hashes_of (set_to_remove (delete (ID e)) s1) id)))
        with (λ id (_ : unit), Z.of_nat (size (hashes_of s1 id))). lia.
  - exists s1. by repeat split; try apply C1.
Qed.

Definition removed rm : Z := sumZ (λ e, Z.of_nat (length (Hashes e))) rm.
Lemma removeEntries_spec rm s :
  NoDup (ID <$> rm) → Forall (entry_ok s) rm →
  ∃ s', for_each rm removeEntry s = Ok (tt, s') ∧ cleaned s s' ∧ backlog s' = backlog s - removed rm ∧
    ∀ k, to_remove s' !! k = if decide (Exists (λ e, ID e = k ∧ CompleteRemoval e = true) rm) then None else to_remove s !! k.
Proof.
  revert s. induction rm as [|e rm IH]; intros s Hn Hok.
  - exists s. split; [done|]. split; [reflexivity|]. cbn. split; [lia|]. intros k. rewrite decide_False; [done|]. by intros ?%Exists_nil.
  - cbn [fmap list_fmap] in Hn. apply NoDup_cons in Hn as [He Hn]. apply Forall_cons in Hok as [Hok Hoks].
    destruct (removeEntry_spec e s Hok) as (s1 & R1 & C1 & T1 & N1 & B1).
    destruct (IH s1 Hn) as (s2 & R2 & C2 & B2 & T2).
    { rewrite Forall_forall in Hoks |- *. intros x Hx. destruct (Hoks x Hx) as (O1 & O2 & O3 & O4).
      assert (ID x ≠ ID e) as Hne by (intros E; apply He; rewrite <- E; by apply list_elem_of_fmap_2).
      unfold entry_ok. rewrite T1, N1 by done. repeat split; try done. destruct (CompleteRemoval e); [|done].
      by rewrite lookup_delete_ne. }
    exists s2. split; [cbn [for_each]; by rewrite (bind_run _ _ _ _ _ R1)|]. split; [by transitivity s1|].
    split; [unfold removed in *; cbn [sumZ]; lia|]. intros k. rewrite T2, T1.
    destruct (decide (Exists _ rm)) as [Hex|Hex].
    + rewrite decide_True; [done|]. by apply Exists_cons_tl.
    + destruct (CompleteRemoval e) eqn:Ec; destruct (decide (k = ID e)) as [->|Hk].
      * rewrite lookup_delete_eq, decide_True; [done|]. by apply Exists_cons_hd.
      * rewrite lookup_delete_ne, decide_False by (rewrite ?Exists_cons; naive_solver). done.
      * rewrite decide_False; [done|]. rewrite Exists_cons. intros [[_ ?]|?]; [congruence|done].
      * rewrite decide_False; [done|]. rewrite Exists_cons. intros [[_ ?]|?]; [congruence|done].
Qed.

(** What is chosen: all of the queries, or as many hashes as the limit. *)
Lemma makeslice_Ok size cap : size * cap ≤ maxAlloc → makeslice size cap = Ok tt.
Proof. intros H. unfold makeslice. by rewrite (proj2 (Z.ltb_ge _ _)). Qed.
Lemma calculate_spec s id limit :
  0 ≤ limit → 24 * limit ≤ maxAlloc → is_Some (to_remove s !! id) →
  ∃ e, calculateTxQueryRemoval s id limit = Ok e ∧ ID e = id ∧ entry_ok s e ∧
  if CompleteRemoval e then limit = 0 ∨ Z.of_nat (length (Hashes e)) < limit else 0 < limit ∧ Z.of_nat (length (Hashes e)) = limit.
Proof.
  intros Hl Ha Hid. unfold calculateTxQueryRemoval. rewrite makeslice_Ok by done. cbn [mbind outcome_bind]. fold (stored s id).
  eexists. split; [reflexivity|].
  assert (NoDup (stored s id)) as Hn by apply KV.select_NoDup.
  destruct (negb (limit =? 0) && (limit <=? Z.of_nat (length (stored s id)))) eqn:E; cbn [ID Hashes CompleteRemoval].
  - apply andb_true_iff in E as [E1%negb_true_iff%Z.eqb_neq E2%Z.leb_le]. split; [done|].
    split; [|split; [lia|rewrite length_take; lia]]. split; [done|]. cbn. split; [|split; [|done]].
    + by eapply sublist_NoDup; [|apply sublist_take].
    + intros b Hb. apply elem_of_stored. by eapply subseteq_take.
  - split; [done|]. split.
    + split; [done|]. split; [done|]. split; [intros b; by apply elem_of_stored|]. intros _. apply stored_size.
    + apply andb_false_iff in E as [E%negb_false_iff%Z.eqb_eq|E%Z.leb_gt]; [by left|by right].
Qed.
Lemma queriesToRm_spec s limited limit ids :
  (limited = true ∧ 0 < limit ∧ 24 * limit ≤ maxAlloc ∨ limited = false ∧ limit = 0) → NoDup ids →
  (∀ id, id ∈ ids → is_Some (to_remove s !! id)) →
  ∃ rm, queriesToRm s limited limit ids = Ok rm ∧ NoDup (ID <$> rm) ∧ Forall (entry_ok s) rm ∧ (∀ id, id ∈ ID <$> rm → id ∈ ids) ∧ 0 ≤ removed rm ∧
  (limited = true → removed rm ≤ limit) ∧
  (limited = true ∧ removed rm = limit ∨ ∀ id, id ∈ ids → Exists (λ e, ID e = id ∧ CompleteRemoval e = true) rm).
Proof.
  intros Hl Hn. revert limit Hl Hn. induction ids as [|id ids IH]; intros limit Hl Hn Hin.
  - exists []. split; [done|]. cbn. split_and!; [constructor|by constructor|done|done|lia|right]. by intros id ?%not_elem_of_nil.
  - apply NoDup_cons in Hn as [Hid Hn]. cbn [queriesToRm].
    destruct (calculate_spec s id limit) as ([i hs complete] & -> & E & Hok & Hlen); [lia|unfold maxAlloc in *; lia|apply Hin; by left|].
    cbn [mbind outcome_bind ID Hashes CompleteRemoval] in *. subst i.
    set (limit' := if limited then _ else _). set (rest := if _ && _ then _ else _).
    assert (limited = true → limit' = limit - Z.of_nat (length hs)) as Hlimit'.
    { intros ->. destruct Hl as [(_ & Hl)|[? _]]; [|done]. unfold maxAlloc in Hl. apply Z.mod_small. destruct complete; lia. }
    assert (limited = true ∧ Z.of_nat (length hs) = limit ∧ rest = Ok [] ∨
      complete = true ∧ (limited = true ∧ 0 < limit' ∧ 24 * limit' ≤ maxAlloc ∨ limited = false ∧ limit' = 0) ∧
        rest = queriesToRm s limited limit' ids)
      as [(-> & Hall & ->)|(-> & Hl' & ->)].
    { unfold rest. destruct limited.
      - rewrite Hlimit' by done. destruct complete.
        + right. split; [done|]. split; [left; lia|]. rewrite (proj2 (Z.leb_gt _ _)) by lia. done.
        + left. rewrite (proj2 (Z.leb_le _ _)) by lia. split_and!; [done|lia|done].
      - destruct Hl as [[? _]|[_ ->]]; [done|]. destruct complete; [|lia]. right. split; [done|]. split; [by right|done]. }
    + eexists. split; [reflexivity|]. cbn.
      split_and!; [by apply NoDup_singleton|by constructor|set_solver|lia|lia|left; split; [done|lia]].
    + destruct (IH limit' Hl' Hn) as (rm & -> & I1 & I2 & I3 & I4 & I5 & I6); [intros; apply Hin; by right|].
      eexists. split; [reflexivity|]. cbn [fmap list_fmap ID]. unfold removed in *. cbn [sumZ Hashes].
      split_and!; [constructor; [intros ?%I3; done|done]|by constructor|set_solver|lia| |].
      * intros Hb. specialize (I5 Hb). specialize (Hlimit' Hb). lia.
      * destruct I6 as [[Hb I6]|I6]; [left; specialize (Hlimit' Hb); split; [done|lia]|right].
        intros k [->|Hk]%elem_of_cons; [by apply Exists_cons_hd|apply Exists_cons_tl; by apply I6].
Qed.

Lemma by_id_perm {V} (m : gmap Z V) : by_id m ≡ₚ map_to_list m.
Proof. apply merge_sort_Permutation. Qed.
Lemma by_id_keys {V} (m : gmap Z V) k : k ∈ (by_id m).*1 ↔ is_Some (m !! k).
Proof.
  rewrite (by_id_perm m), list_elem_of_fmap. split.
  - intros ([k' v] & -> & Hk%elem_of_map_to_list). by exists v.
  - intros [v Hv]. exists (k, v). split; [done|]. by apply elem_of_map_to_list.
Qed.
Lemma by_id_NoDup {V} (m : gmap Z V) : NoDup (by_id m).*1.
Proof. rewrite (by_id_perm m). apply NoDup_fst_map_to_list. Qed.
Lemma to_remove_spec s limit :
  NoDup (GetTxQueriesToRemove s limit) ∧ (∀ id, id ∈ GetTxQueriesToRemove s limit → is_Some (to_remove s !! id)) ∧
  length (GetTxQueriesToRemove s limit) = if limit =? 0 then size (to_remove s) else Nat.min (Z.to_nat limit) (size (to_remove s)).
Proof.
  unfold GetTxQueriesToRemove.
  assert (length (by_id (to_remove s)).*1 = size (to_remove s)) as Hlen.
  { rewrite length_fmap, (Permutation_length (by_id_perm _)). apply length_map_to_list. }
  destruct (limit =? 0); [split; [apply by_id_NoDup|split; [intros id; apply by_id_keys|done]]|].
  split; [eapply sublist_NoDup; [|apply sublist_take]; apply by_id_NoDup|]. split; [|by rewrite length_take, Hlen].
  intros id Hid. apply by_id_keys. by eapply subseteq_take.
Qed.
(** The queries that remain, when some of them are completed. *)
Lemma size_remaining (m m' : gmap Z unit) (ids : list Z) :
  NoDup ids → (∀ id, id ∈ ids → is_Some (m !! id)) → (∀ id, id ∈ ids → m' !! id = None) →
  (∀ k, m' !! k = m !! k ∨ m' !! k = None) → Z.of_nat (size m') ≤ Z.of_nat (size m) - Z.of_nat (length ids).
Proof.
  intros Hn Hin Hout Hsub. rewrite <- (size_dom m), <- (size_dom m'), <- (size_list_to_set (C := gset Z) ids) by done.
  assert (list_to_set ids ⊆@{gset Z} dom m) as H1 by (intros k Hk%elem_of_list_to_set; by apply elem_of_dom, Hin).
  assert (dom m' ⊆@{gset Z} dom m ∖ list_to_set ids) as H2%subseteq_size.
  { intros k [v Hv]%elem_of_dom. apply elem_of_difference. split.
    - apply elem_of_dom. exists v. destruct (Hsub k); congruence.
    - intros Hk%elem_of_list_to_set. rewrite Hout in Hv; done. }
  rewrite size_difference in H2 by done. pose proof (subseteq_size _ _ H1). lia.
Qed.

(** One cleanup: it removes at most as many hashes as its limit, and either exactly as many, or all of the queries
    it considers. *)
Lemma cleanup_spec s :
  let limit := TxQueryRemovalLimit (params s) in
  0 ≤ limit → 24 * limit ≤ maxAlloc →
  ∃ s', TxQueriesCleanup s = Ok (tt, s') ∧ cleaned s s' ∧ backlog s' ≤ backlog s ∧
    (0 < limit → backlog s - limit ≤ backlog s') ∧
    (size (to_remove s') ≤ size (to_remove s))%nat ∧
    (0 < limit ∧ backlog s' = backlog s - limit ∨
     Z.of_nat (size (to_remove s')) ≤ Z.of_nat (size (to_remove s)) - Z.of_nat (length (GetTxQueriesToRemove s limit))).
Proof.
  intros limit Hl Ha. destruct (to_remove_spec s limit) as (Hn & Hin & _). set (ids := GetTxQueriesToRemove s limit) in *.
  destruct (queriesToRm_spec s (negb (limit =? 0)) limit ids) as (rm & R0 & Q1 & Q2 & Q3 & Q4 & Q5 & Q6); [|done|done|].
  { destruct (Z.eqb_spec limit 0); [by right|left]. split; [done|lia]. }
  destruct (removeEntries_spec _ s Q1 Q2) as (s' & R & Hc & Hb & Ht). exists s'.
  assert (∀ k, to_remove s' !! k = to_remove s !! k ∨ to_remove s' !! k = None) as Hsub.
  { intros k. destruct (proj1 (proj2 Hc k)) as [?|[? _]]; [by left|by right]. }
  assert (0 < limit → (limit =? 0) = false) as Hpos by (intros; apply Z.eqb_neq; lia).
  split.
  { unfold TxQueriesCleanup, GetParams. change (params s) with (params s). unfold mbind at 1, M_bind at 1, gets at 1.
    fold limit. cbv zeta. unfold lift, mbind at 1, M_bind at 1. rewrite makeslice_Ok by (pose proof (Z.mul_div_le limit 10); lia).
    unfold mbind at 1, M_bind at 1. fold ids. rewrite R0. exact R. }
  split; [done|]. split; [lia|]. split; [|split].
  - intros H. rewrite Hpos in Q5 by done. specialize (Q5 eq_refl). lia.
  - pose proof (size_remaining (to_remove s) (to_remove s') [] ltac:(constructor)) as Hs. cbn in Hs.
    specialize (Hs ltac:(by intros ? ?%not_elem_of_nil) ltac:(by intros ? ?%not_elem_of_nil) Hsub). lia.
  - destruct Q6 as [[H6 Q6]|Q6]; [left; apply negb_true_iff, Z.eqb_neq in H6; lia|right].
    pose proof (size_remaining (to_remove s) (to_remove s') ids Hn Hin) as Hs.
    assert (∀ id, id ∈ ids → to_remove s' !! id = None) as Hd by (intros id Hid; rewrite Ht; by rewrite decide_True by (by apply Q6)).
    specialize (Hs Hd Hsub). lia.
Qed.
(** The hashes of removed queries, in blocks of the limit, and the queries themselves. *)
Definition blocks_needed s : Z :=
  let limit := TxQueryRemovalLimit (params s) in
  let n := Z.of_nat (size (to_remove s)) in
  if limit =? 0 then Z.min 1 n else backlog s / limit + (n + limit - 1) / limit.
Lemma backlog_nonneg s : 0 ≤ backlog s.
Proof. apply map_sum_nonneg. lia. Qed.
Lemma backlog_empty s : size (to_remove s) = 0%nat → backlog s = 0.
Proof. intros H%map_size_empty_iff. unfold backlog. by rewrite H, map_sum_empty. Qed.
Lemma cleanup_progress s s' n :
  0 ≤ TxQueryRemovalLimit (params s) → 24 * TxQueryRemovalLimit (params s) ≤ maxAlloc → blocks_needed s ≤ n + 1 → 0 ≤ n →
  TxQueriesCleanup s = Ok (tt, s') → blocks_needed s' ≤ n.
Proof.
  intros Hl Ha Hn H0 Hr. destruct (cleanup_spec s Hl Ha) as (s1 & Hr' & [Hp _] & Hb & _ & Hq & Hc).
  rewrite Hr in Hr'. injection Hr' as <-. unfold blocks_needed in *. rewrite Hp.
  destruct (to_remove_spec s (TxQueryRemovalLimit (params s))) as (_ & _ & Hlen). rewrite Hlen in Hc. clear Hlen Hr.
  set (l := TxQueryRemovalLimit (params s)) in *. destruct (Z.eqb_spec l 0) as [E|E]; [lia|].
  destruct (decide (size (to_remove s') = 0%nat)) as [E0|E0].
  { rewrite (backlog_empty s' E0), E0. cbn. rewrite !Z.div_small by lia. lia. }
  destruct Hc as [[_ Hc]|Hc].
  - rewrite Hc. replace (backlog s - l) with (backlog s + (-1) * l) by lia. rewrite Z.div_add by lia.
    pose proof (Z.div_le_mono (Z.of_nat (size (to_remove s')) + l - 1) (Z.of_nat (size (to_remove s)) + l - 1) l). lia.
  - pose proof (Z.div_le_mono _ _ l ltac:(lia) Hb).
    pose proof (Z.div_le_mono (Z.of_nat (size (to_remove s')) + l - 1) (Z.of_nat (size (to_remove s)) + l - 1 + (-1) * l) l) as Hd.
    rewrite Z.div_add in Hd by lia. lia.
Qed.
Lemma blocks_spec n s :
  0 ≤ TxQueryRemovalLimit (params s) → 24 * TxQueryRemovalLimit (params s) ≤ maxAlloc → blocks_needed s ≤ Z.of_nat n →
  ∃ s', blocks n s = Ok (tt, s') ∧ cleaned s s' ∧ to_remove s' = ∅.
Proof.
  revert s. induction n as [|n IH]; intros s Hl Ha Hn.
  - exists s. split; [done|]. split; [reflexivity|]. apply map_size_empty_iff. unfold blocks_needed in Hn.
    destruct (Z.eqb_spec (TxQueryRemovalLimit (params s)) 0) as [E|E]; [lia|].
    pose proof (Z.div_pos _ (TxQueryRemovalLimit (params s)) (backlog_nonneg s)).
    destruct (decide (size (to_remove s) = 0%nat)) as [|Hs]; [done|].
    pose proof (Z.div_le_lower_bound (Z.of_nat (size (to_remove s)) + TxQueryRemovalLimit (params s) - 1) (TxQueryRemovalLimit (params s)) 1). lia.
  - destruct (cleanup_spec s Hl Ha) as (s1 & R1 & C1 & _). pose proof (cleanup_progress s s1 (Z.of_nat n) Hl Ha ltac:(lia) ltac:(lia) R1) as H1.
    destruct (IH s1) as (s2 & R2 & C2 & E2); [by rewrite (proj1 C1)..|done|].
    exists s2. split; [cbn [blocks]; by rewrite (bind_run _ _ _ _ _ R1)|]. split; [by transitivity s1|done].
Qed.
(** A limit that asks for more room than the runtime can address. *)
Lemma cleanup_panics s :
  maxAlloc < 24 * TxQueryRemovalLimit (params s) → to_remove s ≠ ∅ ∨ maxAlloc < 8 * (TxQueryRemovalLimit (params s) / 10) →
  TxQueriesCleanup s = Panic "makeslice: cap out of range".
Proof.
  intros Ha Hor. unfold TxQueriesCleanup, GetParams. unfold mbind at 1, M_bind at 1, gets at 1.
  set (limit := TxQueryRemovalLimit (params s)) in *. unfold mbind at 1, M_bind at 1, lift at 1, makeslice at 1.
  destruct (Z.ltb_spec maxAlloc (8 * (limit / 10))); [done|]. destruct Hor as [Hs|]; [|lia].
  unfold mbind at 1, M_bind at 1, lift at 1. destruct (to_remove_spec s limit) as (_ & _ & Hlen).
  destruct (GetTxQueriesToRemove s limit) as [|id ids].
  - cbn [length] in Hlen. rewrite <- map_size_empty_iff in Hs. unfold maxAlloc in *. destruct (Z.eqb_spec limit 0); lia.
  - cbn [queriesToRm]. unfold calculateTxQueryRemoval, makeslice. by rewrite (proj2 (Z.ltb_lt _ _) Ha).
Qed.
End cleanup.

(** C9. The module's account always holds the deposits of all queries that are registered, in every denomination,
    whatever sequence of messages, cleanups and other transfers happens, also when contracts that receive results
    call the module again, as long as ids do not run out at 2^64; and no id is above the last one given out. *)
Theorem deposits_backed {C : coin.CoinOps} {A : addr.Addresses} {Ch : Chain} {L : ChainLaws Ch} (s0 s : store) (d : string) :
  queries s0 = ∅ → 0 ≤ last s0 < 2 ^ 64 → (∀ e, 0 ≤ Balance (world s0) account e) → steps s0 s →
  map_sum (λ _ q, coin.amt d (Deposit q)) (queries s) ≤ Balance (world s) account d ∧
  (∀ k q, queries s !! k = Some q → Id q = k ∧ k ≤ last s ∧ 0 ≤ coin.amt d (Deposit q)).
Proof.
  intros Hq Hl Hb Hs. destruct (steps_evolves _ _ Hs (inv_start s0 Hq Hl Hb)) as ([I1 _ I3 I4] & _).
  split; [apply I4|]. intros k q Hk. destruct (I1 k q Hk). eauto.
Qed.

(** C10. From any state that is reached, whatever happens next: a query whose id was given out before is still the same query, with
    the same owner, type and deposit, so ids are not used twice; and the remote height of its results does not go back,
    also when contracts call back into the module while their results are submitted. *)
Theorem results_advance {C : coin.CoinOps} {A : addr.Addresses} {Ch : Chain} {L : ChainLaws Ch} (s0 s s' : store) (id : Z)
    (q' : RegisteredQuery) :
  queries s0 = ∅ → 0 ≤ last s0 < 2 ^ 64 → (∀ e, 0 ≤ Balance (world s0) account e) → steps s0 s → steps s s' →
  queries s' !! id = Some q' → id ≤ last s →
  ∃ q, queries s !! id = Some q ∧ Owner q' = Owner q ∧ QueryType q' = QueryType q ∧ Deposit q' = Deposit q ∧
    newer (LastSubmittedResultRemoteHeight q) (LastSubmittedResultRemoteHeight q').
Proof.
  intros Hq Hl Hb Hs Hs' Hq' Hid. destruct (steps_evolves _ _ Hs (inv_start s0 Hq Hl Hb)) as [Hi _].
  destruct (steps_evolves _ _ Hs' Hi) as (_ & _ & H). destruct (H id q' Hq' Hid) as (q & Hk & _ & C1 & C2 & C3 & C4).
  exists q. by split_and!.
Qed.

(** C11. What a key-value submission that calls no contract stores is proved: the stored values are those of the query's keys in order, each
    with a membership proof for the value or, with the empty value, a proof that the key is absent, against the root that the
    query's connection holds for the height after the result's; and nothing else of the module changes but the
    query's heights. *)
Theorem stored_results_proved {A : addr.Addresses} {Ch : Chain} (kv : addr.AccAddress → Z → M store unit)
    (tx : addr.AccAddress → Z → Height → bytes → M store unit) (h id : Z) (sender : string) (r : QueryResult) (s s' : store) :
  SubmitQueryResult kv tx h id sender (Some r) s = Ok (tt, s') → AllowKvCallbacks r = false → KvResults r ≠ [] →
  ∃ q client root specs kvs,
    queries s !! id = Some q ∧ QueryType q = "kv"%string ∧ GetConnection (world s) (ConnectionId q) = Some client ∧
    ConnectionConsensusState (world s) (ConnectionId q) (Revision r) (wrap (RHeight r + 1)) = Ok root ∧
    GetClientState (world s) client = Ok specs ∧
    Forall2 (proved specs root) (KvResults r) kvs ∧ Forall2 answers kvs (Keys q) ∧
    s' = set_queries (insert (Id q) (with_local_height (wrap h)
           (with_remote_height {| RevisionNumber := Revision r; RevisionHeight := RHeight r |} q)))
         (set_results (insert (Id q) {| KvResults := kvs; RBlock := None; RHeight := RHeight r; Revision := Revision r;
                                        AllowKvCallbacks := false |}) s).
Proof.
  intros Hr Hcb Hne. unfold SubmitQueryResult in Hr. run_lift Hr as r' Hv.
  assert (r' = r) as -> by (unfold ValidateSubmit in Hv; repeat case_match; simplify_eq; by apply bind_Ok in Hv as (? & _ & [= ->])).
  run Hr as q s1 H1. apply GetQueryByID_Ok in H1 as [<- Hq]. run_gets Hr. destruct (GetConnection _ _) as [client|] eqn:Hc; [|done].
  run_lift Hr as o Ho. cbv zeta in Hr. rewrite Hcb, andb_false_r in Hr.
  destruct (KvResults r) as [|v vs] eqn:Hkvs; [done|]. cbn [length Nat.eqb negb] in Hr. rewrite <- Hkvs in *.
  run Hr as [] s1 H1. destruct (submitKV_Ok _ _ _ _ _ _ H1) as (root & specs & kvs & K1 & K2 & K3 & K4 & K5 & ->).
  exists q, client, root, specs, kvs. split_and!; try done.
  destruct (RBlock r) as [b|]; [|by apply st_ret_Ok in Hr as [_ <-]]. destruct (Tx b) as [t|]; [|by apply st_ret_Ok in Hr as [_ <-]].
  unfold submitTX in Hr. run_require Hr as H2. unfold IsTX in H2. rewrite K1 in H2. done.
Qed.

(** C12. The cleanup at the end of blocks, as far as the removal limit leaves its allocations possible (24 bytes for each hash of the
    limit, at most 2^48 bytes): it succeeds whatever is recorded, removes at most as many hashes per block as its limit,
    and ends: after as many blocks as the hashes divided by the limit and the queries divided by the limit, everything that was recorded for
    removed queries is gone, and nothing of other queries.  Without a limit one block is enough.  With a greater limit it panics
    as soon as a query is recorded, and if the list of queries cannot be allocated either, in every block. *)
Theorem cleanup_ends {C : coin.CoinOps} {A : addr.Addresses} {Ch : Chain} (s : store) :
  0 ≤ TxQueryRemovalLimit (params s) →
  if 24 * TxQueryRemovalLimit (params s) <=? maxAlloc then
    (∃ s1, TxQueriesCleanup s = Ok (tt, s1) ∧
       (0 < TxQueryRemovalLimit (params s) → backlog s - TxQueryRemovalLimit (params s) ≤ backlog s1)) ∧
    ∃ s', blocks (Z.to_nat (blocks_needed s)) s = Ok (tt, s') ∧ to_remove s' = ∅ ∧
      ∀ id, hashes_of s' id = if decide (is_Some (to_remove s !! id)) then ∅ else hashes_of s id
  else
    to_remove s ≠ ∅ ∨ maxAlloc < 8 * (TxQueryRemovalLimit (params s) / 10) →
    TxQueriesCleanup s = Panic "makeslice: cap out of range".
Proof.
  intros Hl. destruct (Z.leb_spec (24 * TxQueryRemovalLimit (params s)) maxAlloc) as [Ha|Ha]; [|by apply cleanup_panics].
  split; [destruct (cleanup_spec s Hl Ha) as (s1 & R & _ & _ & H & _); eauto|].
  destruct (blocks_spec (Z.to_nat (blocks_needed s)) s Hl Ha ltac:(lia)) as (s' & R & [_ Hc] & E).
  exists s'. split; [done|]. split; [done|]. intros id. destruct (Hc id) as [[H|[_ H]] Hn].
  - case_decide as Hd; [|apply Hn; by apply eq_None_not_Some]. rewrite E, lookup_empty in H. rewrite <- H in Hd. by destruct Hd.
  - case_decide as Hd; [done|]. apply Hn. by apply eq_None_not_Some.
Qed.

(** *** A run: two queries, results of the first, whose contract calls back; another account removes the second *)

#[local] Instance demo_addresses : addr.Addresses := {|
  addr.AddressString a := a; addr.AccAddressFromBech32 a := Ok a;
  addr.NewPoolAddress _ := ""%string; addr.NewModuleAddressWithPrefix m _ _ := m |}.
#[local] Existing Instances sdk.ref_dec coin.ref_coins.

(** Balances by account and denomination; a proof is what it proves, and roots and clients are names. *)
Definition bank : Type := string → string → Z.
Definition transfer (a b : string) (c : coin.Coins) (w : bank) : outcome bank :=
  if forallb (λ x, (0 <? SdkInt.i (coin.Amount x)) && (coin.amt (coin.Denom x) c <=? w a (coin.Denom x))) c
  then Ok (λ x d, w x d - when (bool_decide (x = a)) (coin.amt d c) + when (bool_decide (x = b)) (coin.amt d c))
  else Err "insufficient funds".
Definition module_account (m : string) : string := ("module/" +:+ m)%string.
Definition demo_tm (h : Z) : TmHeader := {|
  HeaderHeight := h; TrustedRevision := 1; Convertible := true; HeaderHash := []; LastBlockHash := [];
  ValidatorsHash := []; NextValidatorsHash := []; DataHash := []; LastResultsHash := [] |}.
Definition higher (a b : Height) : bool :=
  (RevisionNumber b <? RevisionNumber a) ||
  ((RevisionNumber a =? RevisionNumber b) && (RevisionHeight b <=? RevisionHeight a)).
Lemma higher_true a b :
  higher a b = true ↔ RevisionNumber b < RevisionNumber a ∨ RevisionNumber a = RevisionNumber b ∧ RevisionHeight b ≤ RevisionHeight a.
Proof. unfold higher. by rewrite orb_true_iff, andb_true_iff, Z.ltb_lt, Z.eqb_eq, Z.leb_le. Qed.
Definition demo_chain : Chain := {|
  World := bank; SendCoinsFromAccountToModule a m c w := transfer a (module_account m) c w;
  SendCoinsFromModuleToAccount m a c w := transfer (module_account m) a c w;
  HasContractInfo _ a := String.eqb a "contract"; Authority := "admin"; GTE := higher;
  GetConnection _ c := if String.eqb c "connection-0" then Some "client" else None;
  Root := Z; ConnectionConsensusState _ _ _ h := Ok h; ProofSpecs := unit; ClientState _ _ := Some (Some tt);
  ProofOps := option bytes; MerkleProof := option bytes; ConvertProofs p := Ok p;
  FirstProof p := Ok (match p with Some _ => Exist | None => Nonexist end);
  VerifyNonMembership p _ _ _ _ := match p with None => Ok tt | Some _ => Err "not absent" end;
  VerifyMembership p _ _ _ _ v := if bool_decide (p = Some v) then Ok tt else Err "not a member";
  AnyHeader := Z; ClientMessage := Z; UnpackHeader h := Ok h; AsTendermint h := Some (demo_tm h);
  UpdateClient _ _ w := Ok w; TxProof := unit; TreeProof := unit; ProofFromProto _ := Ok tt; ProofIndex _ := 0;
  VerifyTreeProof _ _ _ := Ok tt; TxHash b := b; MarshalTxResult _ := Ok []; UnmarshalFilters _ := Ok [] |}.
#[local] Existing Instance demo_chain.
Lemma transfer_spec a b c (w w' : bank) x d :
  transfer a b c w = Ok w' →
  0 ≤ coin.amt d c ∧ w' x d = w x d - when (bool_decide (x = a)) (coin.amt d c) + when (bool_decide (x = b)) (coin.amt d c).
Proof.
  unfold transfer. destruct (forallb _ _) eqn:E; [|done]. intros [= <-]. split; [|done]. apply sumZ_nonneg.
  intros y Hy. rewrite forallb_forall in E. apply list_elem_of_In, E, andb_true_iff in Hy as [Hy%Z.ltb_lt _]. case_bool_decide; lia.
Qed.
#[local] Instance demo_chain_laws : ChainLaws demo_chain.
Proof.
  refine {| Balance w x d := (w : bank) x d; GetModuleAddress m := module_account m |}.
  - intros a m c w w' x d H. by apply transfer_spec.
  - intros m a c w w' x d H. by apply transfer_spec.
  - done.
  - by intros c h w w' x d [= <-].
  - intros h. apply higher_true. lia.
  - intros a b c H1%higher_true H2%higher_true. apply higher_true. lia.
  - intros a b H%not_true_iff_false. rewrite higher_true in H. apply higher_true. lia.
Defined.

Definition key1 : KVKey := {| Path := "bank"; Key := BigText.MarshalText 17 |}.
Definition key2 : KVKey := {| Path := "bank"; Key := BigText.MarshalText 18 |}.
Definition demo_register (t : string) (keys : list KVKey) : MsgRegisterInterchainQuery := {|
  RegQueryType := t; RegKeys := keys; RegTransactionsFilter := "[]"; RegConnectionId := "connection-0"; RegUpdatePeriod := 5;
  RegSender := "contract" |}.
Definition demo_update (id : Z) : MsgUpdateInterchainQueryRequest := {|
  UpdQueryId := id; NewKeys := []; NewUpdatePeriod := 9; NewTransactionsFilter := ""; UpdSender := "contract" |}.
(** The first key holds a value, the second is absent, whatever value is claimed. *)
Definition demo_result (h : Z) (callback : bool) : QueryResult := {|
  KvResults := [{| StoragePrefix := "bank"; SKey := Key key1; SValue := BigText.MarshalText 42; Proof := Some (Some (BigText.MarshalText 42)) |};
                {| StoragePrefix := "bank"; SKey := Key key2; SValue := BigText.MarshalText 7; Proof := Some None |}];
  RBlock := None; RHeight := h; Revision := 1; AllowKvCallbacks := callback |}.
(** The contract changes its query when it gets a result. *)
Definition on_kv (o : addr.AccAddress) (id : Z) : M store unit := UpdateInterchainQuery (demo_update id).
Definition on_tx (o : addr.AccAddress) (id : Z) (h : Height) (b : bytes) : M store unit := throw "no transactions".

Definition demo_params : Params := {|
  QuerySubmitTimeout := 100; QueryDeposit := [{| coin.Denom := "untrn"; coin.Amount := SdkInt.mk 1000 |}];
  TxQueryRemovalLimit := 2; MaxKvQueryKeysCount := 10; MaxTransactionsFilters := 10 |}.
Definition demo0 : store := {|
  last := 0; queries := ∅; results := ∅; hashes := ∅; to_remove := ∅; params := demo_params;
  world := (λ x d, if String.eqb x "contract" then 10000 else 0) : bank |}.
Definition final {B} (r : outcome (B * store)) : store := match r with Ok (_, s) => s | _ => demo0 end.
Definition value {B} (b : B) (r : outcome (B * store)) : B := match r with Ok (x, _) => x | _ => b end.
Definition succeeds {B} (r : outcome (B * store)) : bool := match r with Ok _ => true | _ => false end.
Lemma icq_run_final {B} (b : B) (r : outcome (B * store)) : succeeds r = true → r = Ok (value b r, final r).
Proof. by destruct r as [[x s]| |]. Qed.

Definition demo1 : store := final (RegisterInterchainQuery 10 (demo_register "kv" [key1; key2]) demo0).
Definition demo2 : store := final (RegisterInterchainQuery 11 (demo_register "tx" []) demo1).
Definition submit (h : Z) (callback : bool) : M store unit :=
  SubmitQueryResult on_kv on_tx 12 1 "relayer" (Some (demo_result h callback)).
Definition demo3 : store := final (submit 50 true demo2).
Definition demo4 : store := final (submit 51 false demo3).
Definition demo5 : store := final (RemoveInterchainQuery 200 2 "bob" demo4).
Definition demo6 : store := final (TxQueriesCleanup demo5).
Lemma demo_submit h callback s : succeeds (submit h callback s) = true → step s (final (submit h callback s)).
Proof.
  intros H. eapply StepSubmit; [| |exact (icq_run_final tt _ H)]; [|done].
  intros o q s1 v s2 Hr. eapply steps_l; [|apply steps_refl]. by eapply StepUpdate.
Qed.
Lemma demo_start : steps demo0 demo2.
Proof.
  apply (steps_l _ demo1); [|apply (steps_l _ demo2); [|apply steps_refl]].
  - apply (StepRegister 10 (demo_register "kv" [key1; key2]) demo0 1); [done|].
    apply (icq_run_final 1). by vm_compute.
  - apply (StepRegister 11 (demo_register "tx" []) demo1 2); [done|]. apply (icq_run_final 2). by vm_compute.
Qed.
Lemma demo_end : steps demo2 demo6.
Proof.
  apply (steps_l _ demo3); [apply (demo_submit 50 true demo2); by vm_compute|].
  apply (steps_l _ demo4); [apply (demo_submit 51 false demo3); by vm_compute|].
  apply (steps_l _ demo5); [|apply (steps_l _ demo6); [|apply steps_refl]].
  - apply (StepRemove 200 2 "bob"%string demo4 tt). apply (icq_run_final tt). by vm_compute.
  - apply (StepCleanup demo5 tt). apply (icq_run_final tt). by vm_compute.
Qed.
Lemma demo0_ok : queries demo0 = ∅ ∧ 0 ≤ last demo0 < 2 ^ 64 ∧ ∀ e, 0 ≤ Balance (world demo0) account e.
Proof. split; [done|]. split; [by cbn|]. intros e. by cbn. Qed.
(** The contract paid twice; one of the deposits went to the account that removed the second query. *)
Lemma demo_balances :
  Balance (world demo6) "contract"%string "untrn" = 8000 ∧ Balance (world demo6) "bob"%string "untrn" = 1000 ∧
  UpdatePeriod <$> queries demo6 !! 1 = Some 9 ∧ queries demo6 !! 2 = None ∧ to_remove demo6 = ∅.
Proof. by vm_compute. Qed.

Lemma demo_query_left :
  ∃ q2 q6, queries demo2 !! 1 = Some q2 ∧ LastSubmittedResultRemoteHeight q2 = None ∧
    queries demo6 !! 1 = Some q6 ∧
    LastSubmittedResultRemoteHeight q6 = Some {| RevisionNumber := 1; RevisionHeight := 51 |}.
Proof. eexists _, _. split; [vm_compute; reflexivity|]. split; [reflexivity|]. split; [vm_compute; reflexivity|reflexivity]. Qed.
Lemma deposits_backed_witness : owed "untrn" demo2 ≤ Balance (world demo2) account "untrn" ∧ owed "untrn" demo2 = 2000.
Proof.
  split; [|by vm_compute]. destruct demo0_ok as (H1 & H2 & H3).
  apply (deposits_backed demo0 demo2 "untrn" H1 H2 H3 demo_start).
Defined.
Lemma results_advance_witness :
  ∃ q, queries demo2 !! 1 = Some q ∧ LastSubmittedResultRemoteHeight q = None ∧
    newer (LastSubmittedResultRemoteHeight q) (Some {| RevisionNumber := 1; RevisionHeight := 51 |}).
Proof.
  destruct demo0_ok as (H1 & H2 & H3). destruct demo_query_left as (q2 & q6 & E2 & N2 & E6 & N6).
  destruct (results_advance demo0 demo2 demo6 1 q6 H1 H2 H3 demo_start demo_end E6) as (q & Hq & _ & _ & _ & H).
  - by vm_compute.
  - exists q2. rewrite E2 in Hq. injection Hq as <-. rewrite N6 in H. by split_and!.
Defined.
Lemma stored_results_proved_witness :
  ∃ kvs, results demo4 !! 1 = Some {| KvResults := kvs; RBlock := None; RHeight := 51; Revision := 1; AllowKvCallbacks := false |} ∧
    Forall2 answers kvs [key1; key2].
Proof.
  destruct (stored_results_proved on_kv on_tx 12 1 "relayer" (demo_result 51 false) demo3 demo4)
    as (q & client & root & specs & kvs & Hq & _ & _ & _ & _ & _ & Ha & Hs).
  - apply (icq_run_final tt (submit 51 false demo3)). by vm_compute.
  - done.
  - done.
  - exists kvs. rewrite Hs. vm_compute in Hq. injection Hq as <-. by split.
Defined.
(** Five hashes of two removed queries and one of another, two in each block. *)
Definition demo_dirty : store := {|
  last := 9; queries := ∅; results := ∅; to_remove := {[3 := tt; 5 := tt]}; params := demo_params; world := world demo0;
  hashes := {[3 := gset_to_gmap tt {[BigText.MarshalText 1; BigText.MarshalText 2; BigText.MarshalText 3]};
              5 := gset_to_gmap tt {[BigText.MarshalText 1; BigText.MarshalText 4]};
              7 := gset_to_gmap tt {[BigText.MarshalText 1]}]} |}.
Lemma cleanup_ends_witness :
  ∃ s', blocks 3 demo_dirty = Ok (tt, s') ∧ to_remove s' = ∅ ∧ hashes_of s' 3 = ∅ ∧ hashes_of s' 7 = hashes_of demo_dirty 7.
Proof.
  destruct (cleanup_ends demo_dirty) as [_ (s' & R & E & H)]; [done|]. exists s'.
  split; [exact R|]. split; [done|]. split; rewrite H; [by rewrite decide_True|by rewrite decide_False].
Defined.

(** *** A transaction that is processed twice *)

Definition calls (s : store) : Z := Balance (world s) "calls"%string "".
Definition count_call (o : addr.AccAddress) (id : Z) (h : Height) (b : bytes) : M store unit :=
  modify (λ s, set_world ((λ x d, Balance (world s) x d + when (String.eqb x "calls") 1) : bank) s).
Definition demo_tx_result : QueryResult := {|
  KvResults := []; RHeight := 0; Revision := 1; AllowKvCallbacks := false;
  RBlock := Some {| BHeader := 7; NextBlockHeader := 8; Tx := Some {|
    Response := {| Code := 0; Data := []; GasWanted := 0; GasUsed := 0; Others := "" |}; DeliveryProof := tt;
    InclusionProof := tt; TxData := BigText.MarshalText 5 |} |} |}.
Definition submit_tx (contract : addr.AccAddress → Z → Height → bytes → M store unit) : M store unit :=
  SubmitQueryResult on_kv contract 12 2 "relayer" (Some demo_tx_result).
(** The contract submits the result it is handed once more. *)
Definition resubmits (o : addr.AccAddress) (id : Z) (h : Height) (b : bytes) : M store unit :=
  _ ← count_call o id h b; submit_tx count_call.
Lemma processed_twice :
  calls (final ((_ ← submit_tx count_call; submit_tx count_call) demo2)) = 1 ∧ calls (final (submit_tx resubmits demo2)) = 2 ∧
  succeeds (submit_tx resubmits demo2) = true.
Proof. split; [|split]; by vm_compute. Qed.
End IcqProps.
