(* ===== verification/Twap.v ===== *)
(** Time-weighted average prices: x/twap (keeper.go, logic.go, strategy.go, store.go, api.go, listeners.go)
    and x/twap/types (keys.go, utils.go, genesis.go, params.go).

    Times are nanoseconds since Go's zero time.  The module's key-value store is cut by key prefix: the most
    recent records, the historical records, the deprecated time index, and two single entries; the
    transient store is the set of its keys.  Records are marshalled values, with every decimal present.
    The pool manager is what a block sees of it: its three queries as functions, which may fail. *)
From stdpp Require Import prelude strings list gmap sorting.
From S2P Require Import Prelude.
From S2P Require Import GoState.
From S2P Require Import SdkDec.
From S2P Require Import Decimal.
From S2P Require Import DecimalText.
From S2P Require Import DecimalPow.
From S2P Require Import KV.
From S2P Require Import GoTime.
From S2P Require Import SigFig.
From S2P Require Import CLKeys.
From S2P Require Import CLPool.
Local Open Scope Z_scope.
Import BigText.
Import KV.

Module Twap.
Record TwapRecord := {
  PoolId : Z;
  Asset0Denom : string;
  Asset1Denom : string;
  Height : Z;
  Time : Z;
  P0LastSpotPrice : Dec.t;
  P1LastSpotPrice : Dec.t;
  P0ArithmeticTwapAccumulator : Dec.t;
  P1ArithmeticTwapAccumulator : Dec.t;
  GeometricTwapAccumulator : Dec.t;
  LastErrorTime : Z
}.
Record PruningState := { IsPruning : bool; LastKeptTime : Z; LastSeenPoolId : Z }.
Record Params := { PruneEpochIdentifier : string; RecordHistoryKeepPeriod : Z }.
Record DenomPair := { Denom0 : string; Denom1 : string }.
Record GenesisState := { Twaps : list TwapRecord; GParams : Params }.

(** Errors are values next to the result where a caller uses both. *)
Record PoolManagerInterface := {
  RouteGetPoolDenoms : Z → outcome (list string);
  RouteCalculateSpotPrice : Z → string → string → outcome BigDec.t;
  GetNextPoolId : Z
}.
Record Context := { BlockHeight : Z; BlockTime : Z; poolmanagerKeeper : PoolManagerInterface }.

(** *** types/utils.go *)

Definition denom_lt (a b : string) : bool := key_lt (text a) (text b).
Definition denom_le (a b : string) : Prop := denom_lt b a = false.
#[export] Instance denom_le_dec : RelDecision denom_le.
Proof. intros x y. unfold denom_le. apply _. Defined.

(** The inner loop, for one value of the outer index, and the outer loop. *)
Fixpoint pairsWith (denom : string) (denoms : list string) : outcome (list DenomPair) :=
  match denoms with
  | [] => Ok []
  | d :: denoms =>
    if String.eqb denom d then Panic "input had duplicated denom" else
    rest ← pairsWith denom denoms;
    Ok ({| Denom0 := denom; Denom1 := d |} :: rest)
  end.
Fixpoint uniquePairs (denoms : list string) : outcome (list DenomPair) :=
  match denoms with
  | [] => Ok []
  | d :: denoms => l ← pairsWith d denoms; rest ← uniquePairs denoms; Ok (l ++ rest)
  end.
Definition GetAllUniqueDenomPairs (denoms : list string) : outcome (list DenomPair) :=
  uniquePairs (merge_sort denom_le denoms).

Definition LexicographicalOrderDenoms (denom0 denom1 : string) : outcome (string * string) :=
  if String.eqb denom0 denom1 then Err "both assets cannot be of the same denom"
  else if denom_lt denom1 denom0 then Ok (denom1, denom0) else Ok (denom0, denom1).

Definition CanonicalTimeMs (twapTime : Z) : Z := GoTime.UnixMilli twapTime.

(** *** types/keys.go *)

Definition KeySeparator : chars := text "|".
Definition mostRecentTWAPsPrefix : chars := text "recent_twap" ++ KeySeparator.
Definition HistoricalTWAPPoolIndexPrefix : chars := text "historical_pool_index" ++ KeySeparator.

Definition FormatKeyPoolTwapRecords (poolId : Z) : chars :=
  HistoricalTWAPPoolIndexPrefix ++ MarshalText poolId.
Definition FormatMostRecentTWAPKey (poolId : Z) (denom1 denom2 : string) : chars :=
  mostRecentTWAPsPrefix ++ FormatFixedLengthU64 poolId ++ KeySeparator ++ text denom1 ++ KeySeparator ++
  text denom2.
Definition FormatHistoricalPoolIndexDenomPairTWAPKey (poolId : Z) (denom1 denom2 : string) : chars :=
  HistoricalTWAPPoolIndexPrefix ++ MarshalText poolId ++ KeySeparator ++ text denom1 ++ KeySeparator ++
  text denom2 ++ KeySeparator.
Definition FormatHistoricalPoolIndexTWAPKeyFromStrTime (poolId : Z) (denom1 denom2 : string)
    (accumulatorWriteTimeString : chars) : chars :=
  HistoricalTWAPPoolIndexPrefix ++ MarshalText poolId ++ KeySeparator ++ text denom1 ++ KeySeparator ++
  text denom2 ++ KeySeparator ++ accumulatorWriteTimeString.
Definition FormatHistoricalPoolIndexTWAPKey (poolId : Z) (denom1 denom2 : string)
    (accumulatorWriteTime : Z) : chars :=
  FormatHistoricalPoolIndexTWAPKeyFromStrTime poolId denom1 denom2
    (GoTime.FormatTimeString accumulatorWriteTime).
Definition FormatHistoricalPoolIndexTimePrefix (poolId : Z) (denom1 denom2 : string) : chars :=
  HistoricalTWAPPoolIndexPrefix ++ MarshalText poolId ++ KeySeparator ++ text denom1 ++ KeySeparator ++
  text denom2 ++ KeySeparator.
Definition FormatHistoricalPoolIndexTimeSuffix (poolId : Z) (denom1 denom2 : string)
    (accumulatorWriteTime : Z) : chars :=
  HistoricalTWAPPoolIndexPrefix ++ MarshalText poolId ++ KeySeparator ++ text denom1 ++ KeySeparator ++
  text denom2 ++ KeySeparator ++ GoTime.FormatTimeString accumulatorWriteTime ++ text ".".

(** The bytes of the marshalled record, or none. *)
Definition ParseTwapFromBz (bz : option TwapRecord) : outcome TwapRecord :=
  match bz with None => Err "twap not found" | Some twap => Ok twap end.
Definition parse_value (v : TwapRecord) : outcome TwapRecord := ParseTwapFromBz (Some v).

Definition GetAllMostRecentTwapsForPool (m : gmap chars TwapRecord) (poolId : Z)
    : outcome (list TwapRecord) :=
  let poolIdS := FormatFixedLengthU64 poolId in
  let poolIdPlusOneS := FormatFixedLengthU64 ((poolId + 1) mod 2 ^ 64) in
  let startPrefix := mostRecentTWAPsPrefix ++ poolIdS ++ KeySeparator in
  let endPrefix := mostRecentTWAPsPrefix ++ poolIdPlusOneS ++ KeySeparator in
  GatherValuesFromStore m startPrefix endPrefix parse_value.
Definition GetMostRecentTwapForPool (m : gmap chars TwapRecord) (poolId : Z) (denom1 denom2 : string)
    : outcome TwapRecord :=
  ParseTwapFromBz (m !! FormatMostRecentTWAPKey poolId denom1 denom2).

(** *** types/params.go and types/genesis.go *)

Definition DefaultParams : Params :=
  {| PruneEpochIdentifier := "day"; RecordHistoryKeepPeriod := 48 * 3600 * GoTime.second |}.
Definition validatePeriod (v : Z) : outcome unit :=
  if v <=? 0 then Err "time must be positive" else Ok tt.
Definition Params_Validate (p : Params) : outcome unit :=
  _ ← (if String.eqb (PruneEpochIdentifier p) "" then Err "empty distribution epoch identifier" else Ok tt);
  validatePeriod (RecordHistoryKeepPeriod p).

Section twap.
  Context {D : sdk.LegacyDec}.

Definition MaxSpotPrice : outcome Dec.t :=
  p ← sdk.Power (Dec.NewDec 2) 128;
  sdk.Sub p (Dec.NewDec 1).
Definition MaxSpotPriceBigDec : outcome BigDec.t := m ← MaxSpotPrice; BigDec.BigDecFromDec m.
Definition SpotPriceMulDuration (sp : Dec.t) (timeDeltaMs : Z) : outcome Dec.t :=
  sdk.MulInt64 sp timeDeltaMs.
Definition AccumDiffDivDuration (accumDiff : Dec.t) (timeDeltaMs : Z) : outcome Dec.t :=
  sdk.QuoInt64 accumDiff timeDeltaMs.

Definition TwapRecord_validate (t : TwapRecord) : outcome unit :=
  if PoolId t =? 0 then Err "pool id cannot be 0"
  else if String.eqb (Asset0Denom t) "" then Err "twap record asset0 denom cannot be empty"
  else if String.eqb (Asset1Denom t) "" then Err "twap record asset1 denom cannot be empty"
  else if Height t <=? 0 then Err "twap record height must be positive"
  else if Time t =? 0 then Err "twap record time cannot be 0"
  else
    _ ← (if LastErrorTime t =? Time t then
           if negb (sdk.IsZero (P0LastSpotPrice t)) && negb (sdk.IsZero (P1LastSpotPrice t)) then
             Err "one of twap record p0 and p1 last spot price must be zero due to having an error"
           else Ok tt
         else if negb (sdk.IsPositive (P0LastSpotPrice t)) then
           Err "twap record p0 last spot price must be positive"
         else if negb (sdk.IsPositive (P1LastSpotPrice t)) then
           Err "twap record p1 last spot price must be positive"
         else Ok tt);
    if sdk.IsNegative (P0ArithmeticTwapAccumulator t) then
      Err "twap record p0 accumulator cannot be negative"
    else if sdk.IsNegative (P1ArithmeticTwapAccumulator t) then
      Err "twap record p1 accumulator cannot be negative"
    else Ok tt.

Fixpoint validateTwaps (twaps : list TwapRecord) : outcome unit :=
  match twaps with [] => Ok tt | t :: twaps => _ ← TwapRecord_validate t; validateTwaps twaps end.
Definition GenesisState_Validate (g : GenesisState) : outcome unit :=
  _ ← Params_Validate (GParams g); validateTwaps (Twaps g).

(** *** logic.go: records *)

(** A query of the pool manager: a failed one leaves [osmomath.BigDec{}], replaced by zero. *)
Definition price_or_zero (r : outcome BigDec.t) : outcome BigDec.t :=
  match r with Err _ => Ok BigDec.ZeroBigDec | r => r end.
Definition is_err {A} (r : outcome A) : bool := match r with Err _ => true | _ => false end.

Definition getSpotPrices (ctx : Context) (poolId : Z) (denom0 denom1 : string) (previousErrorTime : Z)
    : outcome (Dec.t * Dec.t * Z) :=
  let r0 := RouteCalculateSpotPrice (poolmanagerKeeper ctx) poolId denom0 denom1 in
  let r1 := RouteCalculateSpotPrice (poolmanagerKeeper ctx) poolId denom1 denom0 in
  sp0BigDec ← price_or_zero r0;
  sp1BigDec ← price_or_zero r1;
  let latestErrTime := if is_err r0 || is_err r1 then BlockTime ctx else previousErrorTime in
  max ← MaxSpotPriceBigDec;
  let '(sp0BigDec, latestErrTime) :=
    if BigDec.GT sp0BigDec max then (max, BlockTime ctx) else (sp0BigDec, latestErrTime) in
  let '(sp1BigDec, latestErrTime) :=
    if BigDec.GT sp1BigDec max then (max, BlockTime ctx) else (sp1BigDec, latestErrTime) in
  Ok (BigDec.ToDec sp0BigDec, BigDec.ToDec sp1BigDec, latestErrTime).

Definition newTwapRecord (ctx : Context) (poolId : Z) (denom0 denom1 : string) : outcome TwapRecord :=
  '(denom0, denom1) ← LexicographicalOrderDenoms denom0 denom1;
  '(sp0, sp1, lastErrorTime) ← getSpotPrices ctx poolId denom0 denom1 0;
  Ok {| PoolId := poolId; Asset0Denom := denom0; Asset1Denom := denom1; Height := BlockHeight ctx;
        Time := BlockTime ctx; P0LastSpotPrice := sp0; P1LastSpotPrice := sp1;
        P0ArithmeticTwapAccumulator := Dec.NewDec 0; P1ArithmeticTwapAccumulator := Dec.NewDec 0;
        GeometricTwapAccumulator := Dec.NewDec 0; LastErrorTime := lastErrorTime |}.

Definition twapLog (price : Dec.t) : outcome Dec.t :=
  if sdk.IsZero price then Panic "twap: cannot take logarithm of zero" else
  p ← BigDec.BigDecFromDec price;
  l ← BigDecPow.LogBase2 p;
  Ok (BigDec.ToDec l).

Definition with_accumulators (time : Z) (a0 a1 g : Dec.t) (errTime : Z) (r : TwapRecord) : TwapRecord :=
  {| PoolId := PoolId r; Asset0Denom := Asset0Denom r; Asset1Denom := Asset1Denom r; Height := Height r;
     Time := time; P0LastSpotPrice := P0LastSpotPrice r; P1LastSpotPrice := P1LastSpotPrice r;
     P0ArithmeticTwapAccumulator := a0; P1ArithmeticTwapAccumulator := a1;
     GeometricTwapAccumulator := g; LastErrorTime := errTime |}.
Definition with_prices (height : Z) (sp0 sp1 : Dec.t) (errTime : Z) (r : TwapRecord) : TwapRecord :=
  {| PoolId := PoolId r; Asset0Denom := Asset0Denom r; Asset1Denom := Asset1Denom r; Height := height;
     Time := Time r; P0LastSpotPrice := sp0; P1LastSpotPrice := sp1;
     P0ArithmeticTwapAccumulator := P0ArithmeticTwapAccumulator r;
     P1ArithmeticTwapAccumulator := P1ArithmeticTwapAccumulator r;
     GeometricTwapAccumulator := GeometricTwapAccumulator r; LastErrorTime := errTime |}.
Definition with_error_time (errTime : Z) (r : TwapRecord) : TwapRecord :=
  with_prices (Height r) (P0LastSpotPrice r) (P1LastSpotPrice r) errTime r.

Definition recordWithUpdatedAccumulators (record : TwapRecord) (newTime : Z) : outcome TwapRecord :=
  if Time record =? newTime then Ok record else
  let timeDelta := CanonicalTimeMs newTime - CanonicalTimeMs (Time record) in
  p0NewAccum ← SpotPriceMulDuration (P0LastSpotPrice record) timeDelta;
  a0 ← sdk.Add p0NewAccum (P0ArithmeticTwapAccumulator record);
  p1NewAccum ← SpotPriceMulDuration (P1LastSpotPrice record) timeDelta;
  a1 ← sdk.Add p1NewAccum (P1ArithmeticTwapAccumulator record);
  if sdk.IsZero (P0LastSpotPrice record) then
    Ok (with_accumulators newTime a0 a1 (GeometricTwapAccumulator record) newTime record)
  else
    logP0SpotPrice ← twapLog (P0LastSpotPrice record);
    p0NewGeomAccum ← SpotPriceMulDuration logP0SpotPrice timeDelta;
    g ← sdk.Add p0NewGeomAccum (GeometricTwapAccumulator record);
    Ok (with_accumulators newTime a0 a1 g (LastErrorTime record) record).

Definition updateRecord (ctx : Context) (record : TwapRecord) : outcome TwapRecord :=
  if ((Height record =? BlockHeight ctx) || (Time record =? BlockTime ctx)) &&
     negb (sdk.IsZero (P1ArithmeticTwapAccumulator record)) &&
     negb (sdk.IsZero (P0ArithmeticTwapAccumulator record)) then Err "InvalidUpdateRecordError"
  else if (Height record >? BlockHeight ctx) || (Time record >? BlockTime ctx) then
    Err "InvalidUpdateRecordError"
  else
    newRecord ← recordWithUpdatedAccumulators record (BlockTime ctx);
    '(newSp0, newSp1, lastErrorTime) ←
      getSpotPrices ctx (PoolId record) (Asset0Denom record) (Asset1Denom record) (LastErrorTime record);
    Ok (with_prices (BlockHeight ctx) newSp0 newSp1 lastErrorTime newRecord).

(** *** strategy.go *)

Definition twapStrategy : Type := TwapRecord → TwapRecord → string → outcome Dec.t.

Definition arithmetic : twapStrategy := λ startRecord endRecord quoteAsset,
  accumDiff ← (if String.eqb quoteAsset (Asset0Denom startRecord) then
                 sdk.Sub (P0ArithmeticTwapAccumulator endRecord) (P0ArithmeticTwapAccumulator startRecord)
               else
                 sdk.Sub (P1ArithmeticTwapAccumulator endRecord) (P1ArithmeticTwapAccumulator startRecord));
  let timeDelta := CanonicalTimeMs (Time endRecord) - CanonicalTimeMs (Time startRecord) in
  AccumDiffDivDuration accumDiff timeDelta.

(** [gammtypes.SpotPriceSigFigs] *)
Definition SpotPriceSigFigs : outcome SdkInt.t := p ← sdk.Power (Dec.NewDec 10) 8; sdk.TruncateInt p.

Definition geometric : twapStrategy := λ startRecord endRecord quoteAsset,
  accumDiff ← sdk.Sub (GeometricTwapAccumulator endRecord) (GeometricTwapAccumulator startRecord);
  if sdk.IsZero accumDiff then Ok (Dec.NewDec 0) else
  let timeDelta := CanonicalTimeMs (Time endRecord) - CanonicalTimeMs (Time startRecord) in
  exponent ← AccumDiffDivDuration accumDiff timeDelta;
  e ← BigDec.BigDecFromDec (sdk.Abs exponent);
  result ← BigDecPow.Exp2 e;
  let isExponentNegative := sdk.IsNegative exponent in
  let isQuoteAsset0 := String.eqb quoteAsset (Asset0Denom startRecord) in
  let invertCase1 := isExponentNegative && isQuoteAsset0 in
  let invertCase2 := negb isExponentNegative && negb isQuoteAsset0 in
  result ← (if invertCase1 || invertCase2 then BigDec.Quo BigDec.OneBigDec result else Ok result);
  sigFigs ← SpotPriceSigFigs;
  SigFig.SigFigRound (BigDec.ToDec result) sigFigs.

(** The error that is returned together with a result. *)
Definition computeTwap (startRecord endRecord : TwapRecord) (quoteAsset : string) (strategy : twapStrategy)
    : outcome (Dec.t * option string) :=
  let err :=
    if (LastErrorTime endRecord >? Time startRecord) || (LastErrorTime endRecord =? Time startRecord) ||
       (LastErrorTime startRecord =? Time startRecord) then
      Some "twap: error in pool spot price occurred between start and end time, twap result may be faulty"%string
    else None in
  let timeDelta := Time endRecord - Time startRecord in
  if timeDelta =? 0 then
    if String.eqb quoteAsset (Asset0Denom startRecord) then Ok (P0LastSpotPrice endRecord, err)
    else Ok (P1LastSpotPrice endRecord, err)
  else
    twap ← strategy startRecord endRecord quoteAsset;
    Ok (twap, err).

(** *** The keeper's stores *)

(** Keys of the transient store: eight bytes, the least significant first. *)
Definition LittleEndianPutUint64 (n : Z) : CLKeys.bytes := reverse (CLKeys.big_endian 8 n).
Definition LittleEndianUint64 (bz : CLKeys.bytes) : Z := CLKeys.BigEndianToUint64 (reverse bz).

Record store := {
  recent : gmap chars TwapRecord;
  historical : gmap chars TwapRecord;
  deprecatedTimeIndex : gmap chars TwapRecord;
  pruning : option PruningState;
  deprecatedIsPruning : bool;
  params : Params;
  changed : gset CLKeys.bytes
}.
Abbreviation K := (M store).
Definition set_recent f (s : store) : store :=
  {| recent := f (recent s); historical := historical s; deprecatedTimeIndex := deprecatedTimeIndex s;
     pruning := pruning s; deprecatedIsPruning := deprecatedIsPruning s; params := params s;
     changed := changed s |}.
Definition set_historical f (s : store) : store :=
  {| recent := recent s; historical := f (historical s); deprecatedTimeIndex := deprecatedTimeIndex s;
     pruning := pruning s; deprecatedIsPruning := deprecatedIsPruning s; params := params s;
     changed := changed s |}.
Definition set_deprecated f b (s : store) : store :=
  {| recent := recent s; historical := historical s; deprecatedTimeIndex := f (deprecatedTimeIndex s);
     pruning := pruning s; deprecatedIsPruning := b && deprecatedIsPruning s; params := params s;
     changed := changed s |}.
Definition set_pruning st (s : store) : store :=
  {| recent := recent s; historical := historical s; deprecatedTimeIndex := deprecatedTimeIndex s;
     pruning := Some st; deprecatedIsPruning := deprecatedIsPruning s; params := params s;
     changed := changed s |}.
Definition set_params p (s : store) : store :=
  {| recent := recent s; historical := historical s; deprecatedTimeIndex := deprecatedTimeIndex s;
     pruning := pruning s; deprecatedIsPruning := deprecatedIsPruning s; params := p;
     changed := changed s |}.
Definition set_changed f (s : store) : store :=
  {| recent := recent s; historical := historical s; deprecatedTimeIndex := deprecatedTimeIndex s;
     pruning := pruning s; deprecatedIsPruning := deprecatedIsPruning s; params := params s;
     changed := f (changed s) |}.

(** *** keeper.go: parameters and the pruning state *)

Definition SetParams (p : Params) : K unit := modify (set_params p).
Definition GetPruningState (s : store) : PruningState :=
  default {| IsPruning := false; LastKeptTime := 0; LastSeenPoolId := 0 |} (pruning s).
Definition SetPruningState (state : PruningState) : K unit := modify (set_pruning state).

(** *** store.go: reading and writing records *)

Definition trackChangedPool (poolId : Z) : K unit :=
  modify (set_changed (union {[ LittleEndianPutUint64 poolId ]})).
Definition bytes_le (a b : CLKeys.bytes) : Prop := CLKeys.bytes_lt b a = false.
#[global] Instance bytes_le_dec : RelDecision bytes_le.
Proof. intros x y. unfold bytes_le. apply _. Defined.
Definition getChangedPools (s : store) : list Z :=
  map LittleEndianUint64 (merge_sort bytes_le (elements (changed s))).

Definition StoreHistoricalTWAP (twap : TwapRecord) : K unit :=
  modify (set_historical (insert
    (FormatHistoricalPoolIndexTWAPKey (PoolId twap) (Asset0Denom twap) (Asset1Denom twap) (Time twap)) twap)).
Definition DeleteHistoricalRecord (twap : TwapRecord) : K unit :=
  modify (set_historical (delete
    (FormatHistoricalPoolIndexTWAPKey (PoolId twap) (Asset0Denom twap) (Asset1Denom twap) (Time twap)))).
Definition StoreNewRecord (twap : TwapRecord) : K unit :=
  _ ← modify (set_recent (insert
        (FormatMostRecentTWAPKey (PoolId twap) (Asset0Denom twap) (Asset1Denom twap)) twap));
  StoreHistoricalTWAP twap.
Definition DeleteMostRecentRecord (twap : TwapRecord) : K unit :=
  modify (set_recent (delete
    (FormatMostRecentTWAPKey (PoolId twap) (Asset0Denom twap) (Asset1Denom twap)))).

Definition getMostRecentRecordStoreRepresentation (s : store) (poolId : Z)
    (asset0Denom asset1Denom : string) : outcome TwapRecord :=
  '(asset0Denom, asset1Denom) ← LexicographicalOrderDenoms asset0Denom asset1Denom;
  match ParseTwapFromBz (recent s !! FormatMostRecentTWAPKey poolId asset0Denom asset1Denom) with
  | Err _ => Err "error in get most recent twap, likely that asset 0 or asset 1 were wrong"
  | r => r
  end.
Definition GetAllMostRecentRecordsForPool (s : store) (poolId : Z) : outcome (list TwapRecord) :=
  GetAllMostRecentTwapsForPool (recent s) poolId.
Definition GetAllMostRecentRecordsForPoolWithDenoms (s : store) (poolId : Z) (denoms : list string)
    : outcome (list TwapRecord) :=
  match denoms with
  | [d0; d1] =>
    '(asset0Denom, asset1Denom) ← LexicographicalOrderDenoms d0 d1;
    record ← GetMostRecentTwapForPool (recent s) poolId asset0Denom asset1Denom;
    Ok [record]
  | _ => GetAllMostRecentTwapsForPool (recent s) poolId
  end.
Definition getAllHistoricalPoolIndexedTWAPs (s : store) : outcome (list TwapRecord) :=
  GatherValuesFromStorePrefix (historical s) HistoricalTWAPPoolIndexPrefix parse_value.
Definition GetAllHistoricalPoolIndexedTWAPsForPoolId (s : store) (poolId : Z) : outcome (list TwapRecord) :=
  GatherValuesFromStorePrefix (historical s) (FormatKeyPoolTwapRecords poolId) parse_value.

Definition getMostRecentRecord (ctx : Context) (s : store) (poolId : Z) (assetA assetB : string)
    : outcome TwapRecord :=
  record ← getMostRecentRecordStoreRepresentation s poolId assetA assetB;
  recordWithUpdatedAccumulators record (BlockTime ctx).

Definition getRecordAtOrBeforeTime (ctx : Context) (s : store) (poolId t : Z)
    (asset0Denom asset1Denom : string) : outcome TwapRecord :=
  '(asset0Denom, asset1Denom) ← LexicographicalOrderDenoms asset0Denom asset1Denom;
  let startKey := FormatHistoricalPoolIndexTimePrefix poolId asset0Denom asset1Denom in
  let endKey := FormatHistoricalPoolIndexTimeSuffix poolId asset0Denom asset1Denom t in
  match GetFirstValueInRange (historical s) startKey endKey true parse_value with
  | Panic p => Panic p
  | Err _ =>
    match getMostRecentRecord ctx s poolId asset0Denom asset1Denom with
    | Panic p => Panic p
    | Err _ => Err "getTwapRecord: querying for assets that are not in the pool"
    | Ok _ => Err "looking for a time that's too old, not in the historical index"
    end
  | Ok twap =>
    if negb (String.eqb (Asset0Denom twap) asset0Denom) || negb (String.eqb (Asset1Denom twap) asset1Denom)
       || negb (PoolId twap =? poolId) then Err "internal error, got twap but its data is wrong"
    else Ok twap
  end.

(** *** logic.go: interpolation *)

Definition getInterpolatedRecord (ctx : Context) (s : store) (poolId t : Z) (assetA assetB : string)
    : outcome TwapRecord :=
  record ← getRecordAtOrBeforeTime ctx s poolId t assetA assetB;
  let record := if Time record =? LastErrorTime record then with_error_time t record else record in
  recordWithUpdatedAccumulators record t.

(** *** api.go *)

Definition GetBeginBlockAccumulatorRecord (ctx : Context) (s : store) (poolId : Z)
    (asset0Denom asset1Denom : string) : outcome TwapRecord :=
  getMostRecentRecord ctx s poolId asset0Denom asset1Denom.

Definition getTwapToNow (ctx : Context) (s : store) (poolId : Z) (baseAssetDenom quoteAssetDenom : string)
    (startTime : Z) (strategy : twapStrategy) : outcome (Dec.t * option string) :=
  if startTime >? BlockTime ctx then Err "StartTimeAfterEndTimeError" else
  startRecord ← getInterpolatedRecord ctx s poolId startTime baseAssetDenom quoteAssetDenom;
  endRecord ← GetBeginBlockAccumulatorRecord ctx s poolId baseAssetDenom quoteAssetDenom;
  computeTwap startRecord endRecord quoteAssetDenom strategy.

Definition getTwap (ctx : Context) (s : store) (poolId : Z) (baseAssetDenom quoteAssetDenom : string)
    (startTime endTime : Z) (strategy : twapStrategy) : outcome (Dec.t * option string) :=
  if startTime >? endTime then Err "StartTimeAfterEndTimeError"
  else if endTime =? BlockTime ctx then
    getTwapToNow ctx s poolId baseAssetDenom quoteAssetDenom startTime strategy
  else if endTime >? BlockTime ctx then Err "EndTimeInFutureError"
  else
    startRecord ← getInterpolatedRecord ctx s poolId startTime baseAssetDenom quoteAssetDenom;
    endRecord ← getInterpolatedRecord ctx s poolId endTime baseAssetDenom quoteAssetDenom;
    computeTwap startRecord endRecord quoteAssetDenom strategy.

Definition GetArithmeticTwap (ctx : Context) (s : store) (poolId : Z)
    (baseAssetDenom quoteAssetDenom : string) (startTime endTime : Z) : outcome (Dec.t * option string) :=
  getTwap ctx s poolId baseAssetDenom quoteAssetDenom startTime endTime arithmetic.
Definition GetGeometricTwap (ctx : Context) (s : store) (poolId : Z)
    (baseAssetDenom quoteAssetDenom : string) (startTime endTime : Z) : outcome (Dec.t * option string) :=
  getTwap ctx s poolId baseAssetDenom quoteAssetDenom startTime endTime geometric.
Definition GetArithmeticTwapToNow (ctx : Context) (s : store) (poolId : Z)
    (baseAssetDenom quoteAssetDenom : string) (startTime : Z) : outcome (Dec.t * option string) :=
  getTwapToNow ctx s poolId baseAssetDenom quoteAssetDenom startTime arithmetic.
Definition GetGeometricTwapToNow (ctx : Context) (s : store) (poolId : Z)
    (baseAssetDenom quoteAssetDenom : string) (startTime : Z) : outcome (Dec.t * option string) :=
  getTwapToNow ctx s poolId baseAssetDenom quoteAssetDenom startTime geometric.

(** *** logic.go: writing records *)

(** [if err != nil { return err }] where what was written before stays written: the error is the value. *)
Definition attempt {A} (m : outcome A) (f : A → K (option string)) : K (option string) :=
  match m with Ok a => f a | Err e => mret (Some e) | Panic p => panic p end.
Fixpoint until_error {A} (l : list A) (f : A → K (option string)) : K (option string) :=
  match l with
  | [] => mret None
  | x :: l => err ← f x; match err with Some e => mret (Some e) | None => until_error l f end
  end.

(** The error of the denoms' query is returned last; there are no pairs then. *)
Definition afterCreatePool (ctx : Context) (poolId : Z) : K (option string) :=
  let r := RouteGetPoolDenoms (poolmanagerKeeper ctx) poolId in
  denoms ← lift (match r with Err _ => Ok [] | r => r end);
  denomPairs ← lift (GetAllUniqueDenomPairs denoms);
  err ← until_error denomPairs (λ denomPair,
    attempt (newTwapRecord ctx poolId (Denom0 denomPair) (Denom1 denomPair)) (λ record,
      _ ← StoreNewRecord record; mret None));
  match err with
  | Some e => mret (Some e)
  | None => _ ← trackChangedPool poolId; mret (match r with Err e => Some e | _ => None end)
  end.
Definition mustTrackCreatedPool (ctx : Context) (poolId : Z) : K unit :=
  err ← afterCreatePool ctx poolId;
  match err with Some e => panic e | None => mret tt end.

Definition updateRecords (ctx : Context) (poolId : Z) : K (option string) :=
  attempt (RouteGetPoolDenoms (poolmanagerKeeper ctx) poolId) (λ denoms,
  s ← gets id;
  attempt (GetAllMostRecentRecordsForPoolWithDenoms s poolId denoms) (λ records,
  let denomNum := Z.of_nat (length denoms) in
  let expectedRecordsLength := Z.quot (denomNum * (denomNum - 1)) 2 in
  if negb (expectedRecordsLength =? Z.of_nat (length records)) then
    mret (Some "InvalidRecordCountError"%string)
  else until_error records (λ record,
    attempt (updateRecord ctx record) (λ newRecord, _ ← StoreNewRecord newRecord; mret None)))).

(** *** store.go: pruning *)

Definition NumRecordsToPrunePerBlock : Z := 200.
Definition NumDeprecatedRecordsToPrunePerBlock : Z := 200.
Definition with_pool (poolId : Z) (st : PruningState) : PruningState :=
  {| IsPruning := IsPruning st; LastKeptTime := LastKeptTime st; LastSeenPoolId := poolId |}.
Definition with_pruning (b : bool) (st : PruningState) : PruningState :=
  {| IsPruning := b; LastKeptTime := LastKeptTime st; LastSeenPoolId := LastSeenPoolId st |}.

(** The loop over an iterator's keys: the count, and whether it reached the limit. *)
Fixpoint pruneKeys (keys : list chars) (firstIteration : bool) (numPruned : Z) : K (Z * bool) :=
  match keys with
  | [] => mret (numPruned, false)
  | timeIndexKey :: keys =>
    if firstIteration then pruneKeys keys false numPruned else
    _ ← modify (set_historical (delete timeIndexKey));
    let numPruned := numPruned + 1 in
    if numPruned >=? NumRecordsToPrunePerBlock then mret (numPruned, true)
    else pruneKeys keys false numPruned
  end.
Definition prunable (state : PruningState) (poolId : Z) (denomPair : DenomPair) (s : store) : list chars :=
  (ReverseIterator (historical s)
    (FormatHistoricalPoolIndexDenomPairTWAPKey poolId (Denom0 denomPair) (Denom1 denomPair))
    (FormatHistoricalPoolIndexTWAPKey poolId (Denom0 denomPair) (Denom1 denomPair) (LastKeptTime state))).*1.
Fixpoint prunePairs (state : PruningState) (poolId : Z) (denomPairs : list DenomPair) (numPruned : Z)
    : K (Z * bool) :=
  match denomPairs with
  | [] => mret (numPruned, false)
  | denomPair :: denomPairs =>
    keys ← gets (prunable state poolId denomPair);
    '(numPruned, limit) ← pruneKeys keys true numPruned;
    if (limit : bool) then mret (numPruned, true) else prunePairs state poolId denomPairs numPruned
  end.
(** [for poolId := state.LastSeenPoolId; poolId > 0; poolId--] *)
Fixpoint prunePools (ctx : Context) (state : PruningState) (n : nat) (numPruned lastPoolIdCompleted : Z)
    : K (option string) :=
  match n with
  | O => if lastPoolIdCompleted =? 1 then
           _ ← SetPruningState (with_pruning false state); mret None
         else mret None
  | S m =>
    let poolId := Z.of_nat n in
    attempt (RouteGetPoolDenoms (poolmanagerKeeper ctx) poolId) (λ denoms,
    attempt (GetAllUniqueDenomPairs denoms) (λ denomPairs,
    '(numPruned, limit) ← prunePairs state poolId denomPairs numPruned;
    if (limit : bool) then _ ← SetPruningState (with_pool poolId state); mret None
    else prunePools ctx state m numPruned poolId))
  end.
Definition pruneRecordsBeforeTimeButNewest (ctx : Context) (state : PruningState) : K (option string) :=
  prunePools ctx state (Z.to_nat (LastSeenPoolId state)) 0 0.

Definition DeleteHistoricalTimeIndexedTWAPs : K unit :=
  s ← gets id;
  let keys := (select (λ _, true) (deprecatedTimeIndex s)).*1 in
  _ ← for_each (take (Z.to_nat NumDeprecatedRecordsToPrunePerBlock) keys) (λ key,
        modify (set_deprecated (delete key) true));
  match keys with [] => modify (set_deprecated id false) | _ => mret tt end.
Definition DeleteDeprecatedHistoricalTWAPsIsPruning : K unit := modify (set_deprecated id false).

(** *** The end of a block *)

Definition EndBlock (ctx : Context) : K unit :=
  changedPoolIds ← gets getChangedPools;
  _ ← for_each changedPoolIds (λ poolId, _ ← updateRecords ctx poolId; mret tt);
  state ← gets GetPruningState;
  if IsPruning state then _ ← pruneRecordsBeforeTimeButNewest ctx state; mret tt else mret tt.
(** The transient store is emptied when the block is committed. *)
Definition Commit : K unit := modify (set_changed (λ _, ∅)).

(** *** listeners.go *)

Definition AfterEpochEnd (ctx : Context) (epochIdentifier : string) (epochNumber : Z) : K unit :=
  p ← gets params;
  if String.eqb epochIdentifier (PruneEpochIdentifier p) then
    let lastKeptTime := BlockTime ctx - RecordHistoryKeepPeriod p in
    let poolIdToStartFrom := (GetNextPoolId (poolmanagerKeeper ctx) - 1) mod 2 ^ 64 in
    if 0 <? poolIdToStartFrom then
      SetPruningState {| IsPruning := true; LastKeptTime := lastKeptTime;
                         LastSeenPoolId := poolIdToStartFrom |}
    else mret tt
  else mret tt.
Definition BeforeEpochStart (ctx : Context) (epochIdentifier : string) (epochNumber : Z) : K unit := mret tt.
Definition AfterCFMMPoolCreated (ctx : Context) (poolId : Z) : K unit := mustTrackCreatedPool ctx poolId.
Definition AfterCFMMSwap (poolId : Z) : K unit := trackChangedPool poolId.
Definition AfterJoinPool (poolId : Z) : K unit := trackChangedPool poolId.
Definition AfterExitPool (poolId : Z) : K unit := trackChangedPool poolId.
Definition AfterConcentratedPoolCreated (ctx : Context) (poolId : Z) : K unit :=
  mustTrackCreatedPool ctx poolId.
Definition AfterInitialPoolPositionCreated (poolId : Z) : K unit := trackChangedPool poolId.
Definition AfterLastPoolPositionRemoved (poolId : Z) : K unit := trackChangedPool poolId.
Definition AfterConcentratedPoolSwap (poolId : Z) : K unit := trackChangedPool poolId.

(** *** keeper.go: genesis *)

(** [sort.Slice] by time; it promises nothing about records of one time, which have different keys
    unless one of them is overwritten. *)
Definition time_le (x y : TwapRecord) : Prop := Time x ≤ Time y.
#[global] Instance time_le_dec : RelDecision time_le.
Proof. intros x y. unfold time_le. apply _. Defined.
Definition InitGenesis (genState : GenesisState) : K unit :=
  _ ← lift (Pool.or_panic (GenesisState_Validate genState) "invalid genesis state");
  _ ← SetParams (GParams genState);
  for_each (merge_sort time_le (Twaps genState)) StoreNewRecord.
Definition ExportGenesis (s : store) : outcome GenesisState :=
  twapRecords ← Pool.or_panic (getAllHistoricalPoolIndexedTWAPs s) "export";
  Ok {| Twaps := twapRecords; GParams := params s |}.
End twap.
End Twap.
