(* ===== verification/TwapProps.v ===== *)
(** Time-weighted average prices: the records of a pair chain into the integral of its price, pruning keeps
    every answer from the kept time on, and an arithmetic average lies between the prices in force. *)
From stdpp Require Import prelude strings list gmap sorting.
From Stdlib Require Import Ascii.
From S2P Require Import Prelude.
From S2P Require Import GoBig.
From S2P Require Import GoState.
From S2P Require Import SdkDec.
From S2P Require Import Decimal.
From S2P Require Import DecimalText.
From S2P Require Import KV.
From S2P Require Import GoTime.
From S2P Require Import CLKeys.
From S2P Require Import CLPool.
From S2P Require Import Twap.
Local Open Scope Z_scope.
Import BigText.
Import KV.

Module TwapProps.
Import Twap.

(** *** Keys *)

(** A pool and its two denoms. *)
Definition pair : Type := Z * string * string.
Definition rpair (r : TwapRecord) : pair := (PoolId r, Asset0Denom r, Asset1Denom r).
Definition hist_prefix (p : pair) : chars :=
  FormatHistoricalPoolIndexTimePrefix p.1.1 p.1.2 p.2.
Definition hist_key (p : pair) (t : Z) : chars :=
  FormatHistoricalPoolIndexTWAPKey p.1.1 p.1.2 p.2 t.
Definition recent_key (p : pair) : chars := FormatMostRecentTWAPKey p.1.1 p.1.2 p.2.

(** Pool ids are [uint64]. *)
Definition valid_pair (p : pair) : Prop :=
  0 ≤ p.1.1 < 2 ^ 64 ∧ valid_denom p.1.2 ∧ valid_denom p.2.

Lemma MarshalText_bar n : 0 ≤ n → no_bar (MarshalText n).
Proof. apply CLKeys.MarshalText_no_sep. Qed.

Lemma hist_prefix_eq p :
  hist_prefix p = HistoricalTWAPPoolIndexPrefix ++ MarshalText p.1.1 ++
    "|"%char :: text p.1.2 ++ "|"%char :: text p.2 ++ ["|"%char].
Proof. done. Qed.

Lemma hist_key_eq p t : hist_key p t = hist_prefix p ++ GoTime.FormatTimeString t.
Proof.
  unfold hist_key, FormatHistoricalPoolIndexTWAPKey, FormatHistoricalPoolIndexTWAPKeyFromStrTime, hist_prefix,
    FormatHistoricalPoolIndexTimePrefix. by rewrite <- !app_assoc.
Qed.

Lemma pair_fields (p q : pair) x y :
  valid_pair p → valid_pair q → hist_prefix p ++ x = hist_prefix q ++ y → p = q ∧ x = y.
Proof.
  destruct p as [[id a] b], q as [[id' a'] b']. intros (Hi & Ha & Hb) (Hi' & Ha' & Hb').
  cbn [fst snd] in *. rewrite !hist_prefix_eq. cbn [fst snd]. rewrite <- !app_assoc. intros H%app_inv_head.
  cbn [app] in H. rewrite <- !app_assoc in H. cbn [app] in H. rewrite <- !app_assoc in H.
  apply bar_split in H as [->%BigDecText.MarshalText_inj H]; [|lia|lia|apply MarshalText_bar; lia..].
  apply bar_split in H as [->%text_inj H]; [|done..].
  by apply bar_split in H as [->%text_inj ->].
Qed.

(** Between the prefix of a pair and an extension of it lie the records of that pair up to a time. *)
Lemma hist_key_range p q t x :
  valid_pair p → valid_pair q →
  in_range (hist_prefix q) (hist_prefix q ++ x) (hist_key p t) = true ↔
  p = q ∧ key_lt (GoTime.FormatTimeString t) x = true.
Proof.
  intros Hp Hq. rewrite in_range_prefix, hist_key_eq. split.
  - intros (y & H & Hy). by apply pair_fields in H as [-> ->].
  - intros [-> H]. eauto.
Qed.

Lemma hist_key_inj p q t u :
  valid_pair p → valid_pair q → GoTime.printable t → GoTime.printable u →
  hist_key p t = hist_key q u → p = q ∧ t = u.
Proof.
  intros Hp Hq Ht Hu. rewrite !hist_key_eq. intros H.
  apply pair_fields in H as [-> H]; [|done..]. split; [done|]. by apply GoTime.FormatTimeString_inj.
Qed.

Lemma zero_padded_inj w n m :
  0 ≤ n < 10 ^ Z.of_nat w → 0 ≤ m < 10 ^ Z.of_nat w → zero_padded w n = zero_padded w m → n = m.
Proof.
  intros Hn Hm H. destruct (Z.lt_total n m) as [Hl|[?|Hl]]; [|done|].
  - pose proof (zero_padded_lt w n m [] [] Hn Hm (or_introl Hl)) as HH.
    by rewrite H, key_lt_irrefl in HH.
  - pose proof (zero_padded_lt w m n [] [] Hm Hn (or_introl Hl)) as HH.
    by rewrite H, key_lt_irrefl in HH.
Qed.

Lemma recent_key_inj p q : valid_pair p → valid_pair q → recent_key p = recent_key q → p = q.
Proof.
  destruct p as [[id a] b], q as [[id' a'] b']. intros (Hi & Ha & Hb) (Hi' & Ha' & Hb').
  unfold recent_key, FormatMostRecentTWAPKey. cbn [fst snd] in *. intros H%app_inv_head.
  assert (2 ^ 64 < 10 ^ Z.of_nat 20) by done. unfold FormatFixedLengthU64 in H.
  apply app_inj_1 in H as [->%zero_padded_inj H]; [|lia|lia|by rewrite !length_zero_padded by lia].
  apply app_inv_head in H. apply bar_split in H as [->%text_inj ->%text_inj]; done.
Qed.

(** *** Records of a store *)

Definition wf_record (r : TwapRecord) : Prop := valid_pair (rpair r) ∧ GoTime.printable (Time r).
(** Every historical record is stored under its own key. *)
Definition keyed (m : gmap chars TwapRecord) : Prop :=
  ∀ k r, m !! k = Some r → k = hist_key (rpair r) (Time r) ∧ wf_record r.
Definition is_record (m : gmap chars TwapRecord) (p : pair) (r : TwapRecord) : Prop :=
  m !! hist_key p (Time r) = Some r ∧ rpair r = p.
(** The record of a pair in force at a time. *)
Definition in_force (m : gmap chars TwapRecord) (p : pair) (t : Z) (r : TwapRecord) : Prop :=
  is_record m p r ∧ Time r ≤ t ∧ ∀ r', is_record m p r' → Time r' ≤ t → Time r' ≤ Time r.

Lemma keyed_record m k r : keyed m → m !! k = Some r → is_record m (rpair r) r.
Proof. intros H Hk. destruct (H k r Hk) as [-> _]. done. Qed.

Lemma is_record_wf m p r : keyed m → is_record m p r → valid_pair p ∧ GoTime.printable (Time r).
Proof. intros H [Hr <-]. by destruct (H _ _ Hr) as [_ ?]. Qed.

(** Two records of a pair at one time are the same record. *)
Lemma is_record_time m p r r' :
  is_record m p r → is_record m p r' → Time r = Time r' → r = r'.
Proof. intros [H _] [H' _] E. rewrite E, H' in H. congruence. Qed.

Lemma in_force_unique m p t r r' : in_force m p t r → in_force m p t r' → r = r'.
Proof.
  intros (H1 & H2 & H3) (H1' & H2' & H3'). apply (is_record_time m p); [done..|].
  specialize (H3 r' H1' H2'). specialize (H3' r H1 H2). lia.
Qed.

(** The entries of a range below a text, for one pair. *)
Lemma range_records m p (P : Z → Prop) (x : chars) :
  keyed m → valid_pair p →
  (∀ t, GoTime.printable t → key_lt (GoTime.FormatTimeString t) x = true ↔ P t) →
  match reverse (select (in_range (hist_prefix p) (hist_prefix p ++ x)) m) with
  | [] => ∀ r, is_record m p r → ¬ P (Time r)
  | (k, r) :: l =>
    k = hist_key p (Time r) ∧ is_record m p r ∧ P (Time r) ∧
    (∀ r', is_record m p r' → P (Time r') → Time r' ≤ Time r) ∧
    (∀ k', k' ∈ l.*1 → ∃ r', k' = hist_key p (Time r') ∧ is_record m p r' ∧ P (Time r') ∧ Time r' < Time r)
  end.
Proof.
  intros Hm Hp HP. set (R := in_range (hist_prefix p) (hist_prefix p ++ x)).
  assert (∀ k r, m !! k = Some r → R k = true ↔ is_record m p r ∧ P (Time r)) as HR.
  { intros k r Hk. destruct (Hm k r Hk) as [-> [Hv Ht]]. unfold R. rewrite hist_key_range by done.
    rewrite HP by done. unfold is_record. split.
    - intros [<- ?]. done.
    - intros [[_ <-] ?]. done. }
  destruct (reverse (select R m)) as [|[k r] l] eqn:E.
  - intros r Hr HPr. pose proof (reverse_select_nil R m E (hist_key p (Time r)) r (proj1 Hr)) as Hf.
    destruct (HR (hist_key p (Time r)) r (proj1 Hr)) as [_ Hx]. rewrite Hx in Hf; done.
  - apply reverse_select_cons in E as (Hk & HRk & Hmax & Hl).
    destruct (proj1 (HR k r Hk) HRk) as [Hr HPr]. pose proof (Hm k r Hk) as [Ek [Hv Ht]].
    destruct Hr as [Hrk Hrp]. rewrite Hrp in Ek.
    assert (∀ r', is_record m p r' → P (Time r') → Time r' ≤ Time r) as Hle.
    { intros r' Hr' HP'. destruct (is_record_wf _ _ _ Hm Hr') as [_ Ht'].
      destruct (Hmax _ _ (proj1 Hr') (proj2 (HR _ _ (proj1 Hr')) (conj Hr' HP'))) as [E|E].
      - rewrite Ek in E. apply hist_key_inj in E as [_ ->]; [lia|done..].
      - rewrite Ek, !hist_key_eq, key_lt_app, GoTime.FormatTimeString_lt in E by done. lia. }
    split; [done|]. split; [done|]. split; [done|]. split; [done|].
    intros k' ([k1 r'] & -> & Hin)%list_elem_of_fmap. apply Hl in Hin as (Hk' & HRk' & Hne).
    destruct (proj1 (HR _ _ Hk') HRk') as [Hr' HP']. exists r'. cbn [fst].
    destruct (Hm _ _ Hk') as [Ek' _]. rewrite (proj2 Hr') in Ek'. split_and!; try done.
    specialize (Hle r' Hr' HP'). destruct (Z.eq_dec (Time r') (Time r)) as [Et|]; [|lia].
    destruct Hne. by rewrite Ek, Ek', Et.
Qed.

Lemma suffix_key p t :
  FormatHistoricalPoolIndexTimeSuffix p.1.1 p.1.2 p.2 t =
  hist_prefix p ++ (GoTime.FormatTimeString t ++ text ".").
Proof.
  unfold FormatHistoricalPoolIndexTimeSuffix, hist_prefix, FormatHistoricalPoolIndexTimePrefix.
  by rewrite <- !app_assoc.
Qed.

(** The first entry of the reverse iteration up to a time is the record in force. *)
Lemma first_in_range m p t :
  keyed m → valid_pair p → GoTime.printable t →
  match GetFirstValueInRange m (hist_prefix p)
          (FormatHistoricalPoolIndexTimeSuffix p.1.1 p.1.2 p.2 t) true parse_value with
  | Ok r => in_force m p t r
  | Err _ => ∀ r, is_record m p r → t < Time r
  | Panic _ => False
  end.
Proof.
  intros Hm Hp Ht. rewrite suffix_key. unfold GetFirstValueInRange, makeIterator, ReverseIterator, Iterator.
  pose proof (range_records m p (λ u, u ≤ t) (GoTime.FormatTimeString t ++ text ".") Hm Hp
    (λ u Hu, GoTime.FormatTimeString_le_dot u t Hu Ht)) as H.
  destruct (reverse _) as [|[k r] l].
  - intros r Hr. specialize (H r Hr). lia.
  - destruct H as (_ & Hr & Hle & Hmax & _). done.
Qed.

Lemma in_force_exists m p t r :
  keyed m → GoTime.printable t → is_record m p r → Time r ≤ t → ∃ r', in_force m p t r'.
Proof.
  intros Hm Ht Hr Hle. destruct (is_record_wf _ _ _ Hm Hr) as [Hp _].
  pose proof (first_in_range m p t Hm Hp Ht) as H. destruct (GetFirstValueInRange _ _ _ _ _) as [r'| |].
  - by exists r'.
  - specialize (H r Hr). lia.
  - done.
Qed.

Section laws.
  Context {D : sdk.LegacyDec} {L : sdk.LegacyDecLaws D}.

(** The pair a query names. *)
Definition query_pair (id : Z) (a b : string) : option pair :=
  match LexicographicalOrderDenoms a b with Ok (d0, d1) => Some (id, d0, d1) | _ => None end.

Lemma getRecord_Ok ctx s id t a b r :
  keyed (historical s) → GoTime.printable t →
  getRecordAtOrBeforeTime ctx s id t a b = Ok r →
  ∃ p, query_pair id a b = Some p ∧ (valid_pair p → in_force (historical s) p t r).
Proof using L.
  intros Hm Ht. unfold getRecordAtOrBeforeTime, query_pair.
  destruct (LexicographicalOrderDenoms a b) as [[d0 d1]| |]; [|done..].
  cbn [mbind outcome_bind]. intros H. eexists. split; [done|]. intros Hp.
  pose proof (first_in_range (historical s) (id, d0, d1) t Hm Hp Ht) as Hf. cbn [fst snd] in Hf.
  destruct (GetFirstValueInRange _ _ _ _ _) as [r'| |]; [|by destruct (getMostRecentRecord _ _ _ _ _)|done].
  destruct (negb _ || _ || _); [done|]. by injection H as <-.
Qed.

(** The answer only depends on the record in force, where there is one. *)
Lemma getRecord_in_force ctx s id t a b p r :
  keyed (historical s) → GoTime.printable t → valid_pair p → query_pair id a b = Some p →
  in_force (historical s) p t r → getRecordAtOrBeforeTime ctx s id t a b = Ok r.
Proof using L.
  intros Hm Ht Hp. unfold getRecordAtOrBeforeTime, query_pair.
  destruct (LexicographicalOrderDenoms a b) as [[d0 d1]| |]; [|done..].
  intros [= <-] Hr. cbn [mbind outcome_bind].
  pose proof (first_in_range (historical s) (id, d0, d1) t Hm Hp Ht) as Hf. cbn [fst snd] in Hf.
  destruct (GetFirstValueInRange _ _ _ _ _) as [r'| |]; [|exfalso|done].
  - rewrite (in_force_unique _ _ _ _ _ Hr Hf) in *. destruct Hf as [[_ E] _].
    injection E as <- <- <-. by rewrite !String.eqb_refl, Z.eqb_refl.
  - destruct Hr as (Hr & Hle & _). specialize (Hf r Hr). lia.
Qed.

(** *** Accumulators *)

(** The price of asset 0 ([true]) or of asset 1, and its accumulator. *)
Definition price (b : bool) (r : TwapRecord) : Z := Dec.i (if b then P0LastSpotPrice r else P1LastSpotPrice r).
Definition accum (b : bool) (r : TwapRecord) : Z :=
  Dec.i (if b then P0ArithmeticTwapAccumulator r else P1ArithmeticTwapAccumulator r).
Abbreviation ms := CanonicalTimeMs.
(** The accumulator at a time after the record, at the record's price. *)
Definition extrapolate (b : bool) (r : TwapRecord) (t : Z) : Z :=
  accum b r + price b r * (ms t - ms (Time r)).
Definition link (r r' : TwapRecord) : Prop := ∀ b, accum b r' = extrapolate b r (Time r').

Lemma ms_mono s t : s ≤ t → ms s ≤ ms t.
Proof.
  intros H. unfold CanonicalTimeMs, GoTime.UnixMilli. pose proof (Z.div_le_mono s t (10 ^ 6)). lia.
Qed.

Lemma updated_spec r t r' :
  recordWithUpdatedAccumulators r t = Ok r' →
  Time r' = t ∧ rpair r' = rpair r ∧ Height r' = Height r ∧ ∀ b, price b r' = price b r ∧ accum b r' = extrapolate b r t.
Proof using L.
  unfold recordWithUpdatedAccumulators. destruct (Z.eqb_spec (Time r) t) as [E|E].
  - intros [= <-]. split_and!; [done..|]. intros b. unfold extrapolate. rewrite E. split; [done|lia].
  - intros (p0 & H0%sdk.MulInt64_spec & H)%bind_Ok. apply bind_Ok in H as (a0 & Ha0%sdk.Add_spec & H).
    apply bind_Ok in H as (p1 & H1%sdk.MulInt64_spec & H). apply bind_Ok in H as (a1 & Ha1%sdk.Add_spec & H).
    assert (∀ g e, let r' := with_accumulators t a0 a1 g e r in
      Time r' = t ∧ rpair r' = rpair r ∧ Height r' = Height r ∧
      ∀ b, price b r' = price b r ∧ accum b r' = extrapolate b r t) as HR.
    { intros g e. split_and!; [done..|]. intros b. split; [by destruct b|].
      unfold extrapolate, accum, price. destruct b; cbn; lia. }
    destruct (sdk.IsZero _); [injection H as <-; apply HR|].
    apply bind_Ok in H as (l & _ & H). apply bind_Ok in H as (pg & _ & H).
    apply bind_Ok in H as (g & _ & [= <-]). apply HR.
Qed.

(** Interpolating to a time directly or by way of an earlier time gives the same accumulators. *)
Lemma extrapolate_trans b r t u r' :
  recordWithUpdatedAccumulators r t = Ok r' → extrapolate b r' u = extrapolate b r u.
Proof using L.
  intros (Ht & _ & _ & Hb)%updated_spec. destruct (Hb b) as [Hp Ha].
  unfold extrapolate in *. rewrite Ha, Hp, Ht. lia.
Qed.

Definition consecutive (m : gmap chars TwapRecord) (p : pair) (r r' : TwapRecord) : Prop :=
  is_record m p r ∧ is_record m p r' ∧ Time r < Time r' ∧
  ∀ x, is_record m p x → Time x ≤ Time r ∨ Time r' ≤ Time x.
(** From the time [h] on, each record continues the one before it. *)
Definition chained (h : Z) (m : gmap chars TwapRecord) : Prop :=
  ∀ p r r', consecutive m p r r' → h ≤ Time r' → link r r'.

Lemma previous_record m p r r' :
  keyed m → is_record m p r → is_record m p r' → Time r < Time r' →
  ∃ q, consecutive m p q r' ∧ Time r ≤ Time q.
Proof.
  intros Hm Hr Hr' Hlt. destruct (is_record_wf _ _ _ Hm Hr) as [Hp [Ht _]].
  destruct (is_record_wf _ _ _ Hm Hr') as [_ Ht'].
  assert (GoTime.printable (Time r' - 1)) as Hpr by (eapply GoTime.printable_le; [|done]; lia).
  destruct (in_force_exists m p (Time r' - 1) r Hm Hpr Hr ltac:(lia)) as (q & Hq & Hqt & Hmax).
  exists q. split; [|apply Hmax; [done|lia]]. split_and!; [done..|lia|].
  intros x Hx. destruct (Z.le_gt_cases (Time r') (Time x)); [by right|left]. apply Hmax; [done|lia].
Qed.

(** From a time to a later record, the accumulator grows per millisecond by at least the lowest and by at
    most the highest price in force in between. *)
Lemma accum_between m p h b lo hi t r r' :
  keyed m → chained h m → in_force m p t r → is_record m p r' → t < Time r' → h ≤ t →
  (∀ x, is_record m p x → Time r ≤ Time x < Time r' → lo ≤ price b x ≤ hi) →
  lo * (ms (Time r') - ms t) ≤ accum b r' - extrapolate b r t ≤ hi * (ms (Time r') - ms t).
Proof.
  intros Hm Hc Hf Hr' Hlt Hh Hb. pose proof Hf as (Hr & Hrt & Hmax).
  remember (Z.to_nat (Time r' - t)) as n eqn:En.
  revert r' Hr' Hlt Hb En. induction (lt_wf n) as [n _ IH]. intros r' Hr' Hlt Hb En.
  destruct (previous_record m p r r' Hm Hr Hr' ltac:(lia)) as (q & Hq & Hrq).
  pose proof Hq as (Hq1 & _ & Hqt & _).
  pose proof (Hc p q r' Hq ltac:(lia) b) as Hl. unfold extrapolate in Hl.
  pose proof (Hb q Hq1 ltac:(lia)) as Hpq. rewrite Hl.
  destruct (Z.le_gt_cases (Time q) t) as [Hqle|Hqgt].
  - pose proof (Hmax q Hq1 Hqle). rewrite (is_record_time m p r q Hr Hq1 ltac:(lia)).
    pose proof (ms_mono t (Time r') ltac:(lia)). unfold extrapolate. nia.
  - pose proof (IH (Z.to_nat (Time q - t)) ltac:(lia) q Hq1 ltac:(lia)
      (λ x Hx Hxt, Hb x Hx (conj (proj1 Hxt) (Z.lt_trans _ _ _ (proj2 Hxt) Hqt))) eq_refl) as HI.
    pose proof (ms_mono (Time q) (Time r') ltac:(lia)). nia.
Qed.

Lemma window_between m p h b lo hi t u r r' :
  keyed m → chained h m → in_force m p t r → in_force m p u r' → t ≤ u → h ≤ t →
  (∀ x, is_record m p x → Time r ≤ Time x ≤ u → lo ≤ price b x ≤ hi) →
  lo * (ms u - ms t) ≤ extrapolate b r' u - extrapolate b r t ≤ hi * (ms u - ms t).
Proof.
  intros Hm Hc Hf Hf' Htu Hh Hb. pose proof Hf as (Hr & Hrt & Hmax). pose proof Hf' as (Hr' & Hrt' & Hmax').
  pose proof (Hb r' Hr') as Hp'. pose proof (Hmax' r Hr ltac:(lia)) as Hle. specialize (Hp' ltac:(lia)).
  destruct (Z.le_gt_cases (Time r') t) as [Hqle|Hqgt].
  - pose proof (Hmax r' Hr' Hqle). rewrite <- (is_record_time m p r r' Hr Hr' ltac:(lia)) in *.
    pose proof (ms_mono t u ltac:(lia)). unfold extrapolate. nia.
  - pose proof (accum_between m p h b lo hi t r r' Hm Hc Hf Hr' Hqgt Hh
      (λ x Hx Hxt, Hb x Hx (conj (proj1 Hxt) (Z.le_trans _ _ _ (Z.lt_le_incl _ _ (proj2 Hxt)) Hrt')))) as HA.
    pose proof (ms_mono (Time r') u ltac:(lia)).
    replace (extrapolate b r' u) with (accum b r' + price b r' * (ms u - ms (Time r'))) by done. nia.
Qed.

(** *** The invariant of the store *)

Definition good_pruning (h : Z) (st : PruningState) : Prop :=
  LastKeptTime st ≤ h ∧ GoTime.printable (LastKeptTime st) ∧ LastSeenPoolId st < 2 ^ 64.

(** [now] bounds the times of records; before [h] records may have been pruned. *)
Record inv (now h : Z) (s : store) : Prop := {
  inv_keyed : keyed (historical s);
  inv_recent : ∀ k r, recent s !! k = Some r →
    k = recent_key (rpair r) ∧ is_record (historical s) (rpair r) r;
  inv_newest : ∀ p r, is_record (historical s) p r →
    Time r ≤ now ∧ ∃ r', recent s !! recent_key p = Some r' ∧ rpair r' = p ∧ Time r ≤ Time r';
  inv_chained : chained h (historical s);
  inv_pruning : IsPruning (GetPruningState s) = true → good_pruning h (GetPruningState s)
}.

Lemma recent_in_force now h s p r t :
  inv now h s → recent s !! recent_key p = Some r → rpair r = p → Time r ≤ t →
  in_force (historical s) p t r.
Proof.
  intros Hi Hr Hp Ht. destruct (inv_recent _ _ _ Hi _ _ Hr) as [_ Hrec]. rewrite Hp in Hrec.
  split; [done|]. split; [done|]. intros r' Hr' _.
  destruct (inv_newest _ _ _ Hi p r' Hr') as (_ & r2 & H2 & _ & Hle). rewrite Hr in H2. by injection H2 as <-.
Qed.

Lemma getInterpolated_Ok ctx s id t a b r' :
  keyed (historical s) → GoTime.printable t → getInterpolatedRecord ctx s id t a b = Ok r' →
  ∃ p, query_pair id a b = Some p ∧
    (valid_pair p → ∃ r, in_force (historical s) p t r ∧ Time r' = t ∧ rpair r' = p ∧
      ∀ q, price q r' = price q r ∧ accum q r' = extrapolate q r t).
Proof using L.
  intros Hm Ht. unfold getInterpolatedRecord. intros (r & Hr & H)%bind_Ok.
  destruct (getRecord_Ok ctx s id t a b r Hm Ht Hr) as (p & Hq & Hf). exists p. split; [done|].
  intros Hp. exists r. specialize (Hf Hp). split; [done|]. pose proof Hf as ((_ & Hrp) & _).
  destruct (Time r =? LastErrorTime r); apply updated_spec in H as (H1 & H2 & _ & H3);
    (split; [done|]; split; [by rewrite H2|]); intros q; destruct (H3 q) as [Hq1 Hq2]; by destruct q.
Qed.

Lemma getMostRecent_Ok ctx now h s id a b r' :
  inv now h s → now ≤ BlockTime ctx → getMostRecentRecord ctx s id a b = Ok r' →
  ∃ p, query_pair id a b = Some p ∧
    (valid_pair p → ∃ r, in_force (historical s) p (BlockTime ctx) r ∧ Time r' = BlockTime ctx ∧
      rpair r' = p ∧ ∀ q, price q r' = price q r ∧ accum q r' = extrapolate q r (BlockTime ctx)).
Proof using L.
  intros Hi Hn. unfold getMostRecentRecord, getMostRecentRecordStoreRepresentation, query_pair.
  intros (r & Hr & H)%bind_Ok.
  destruct (LexicographicalOrderDenoms a b) as [[d0 d1]| |]; [|done..]. cbn [mbind outcome_bind] in Hr.
  eexists. split; [done|]. intros Hp.
  destruct (recent s !! _) as [r0|] eqn:E; [|done]. injection Hr as <-.
  destruct (inv_recent _ _ _ Hi _ _ E) as [Ek Hrec].
  pose proof (is_record_wf _ _ _ (inv_keyed _ _ _ Hi) Hrec) as [Hv _].
  apply (recent_key_inj (id, d0, d1)) in Ek; [|done..]. rewrite <- Ek in *.
  exists r0. apply updated_spec in H as (H1 & H2 & _ & H3). split; [|split; [done|]; by rewrite H2].
  eapply recent_in_force; [done|exact E|done|].
  destruct (inv_newest _ _ _ Hi _ _ Hrec). lia.
Qed.

(** *** The average *)

Lemma quot_between x n lo hi : 0 < n → lo * n ≤ x ≤ hi * n → lo ≤ Z.quot x n ≤ hi.
Proof.
  intros Hn [H1 H2]. destruct (quot_bounds n Hn x) as [Hpos Hneg]. destruct (Z.le_gt_cases 0 x).
  - specialize (Hpos ltac:(lia)). nia.
  - specialize (Hneg ltac:(lia)). nia.
Qed.

Lemma arithmetic_between S E quote v e lo hi :
  let b := String.eqb quote (Asset0Denom S) in
  Time S ≤ Time E → lo ≤ price b E ≤ hi →
  lo * (ms (Time E) - ms (Time S)) ≤ accum b E - accum b S ≤ hi * (ms (Time E) - ms (Time S)) →
  computeTwap S E quote arithmetic = Ok (v, e) → lo ≤ Dec.i v ≤ hi.
Proof using L.
  intros b Ht Hp Ha. unfold computeTwap. destruct (Z.eqb_spec (Time E - Time S) 0).
  { unfold b, price in Hp. destruct (String.eqb quote (Asset0Denom S)); by intros [= <- _]. }
  intros (w & Hw & [= <- _])%bind_Ok. unfold arithmetic in Hw. apply bind_Ok in Hw as (d & Hd & Hq).
  apply sdk.QuoInt64_spec in Hq as [Hn ->]. pose proof (ms_mono _ _ Ht).
  apply quot_between; [lia|].
  assert (Dec.i d = accum b E - accum b S) as ->; [|lia].
  unfold b, accum. destruct (String.eqb quote (Asset0Denom S)); by apply sdk.Sub_spec in Hd.
Qed.

(** The records of a pair in force at some time of a window. *)
Definition in_window (m : gmap chars TwapRecord) (p : pair) (t u : Z) (x : TwapRecord) : Prop :=
  is_record m p x ∧ Time x ≤ u ∧ ∀ r, in_force m p t r → Time r ≤ Time x.

Lemma samples_between now h s p quote t u S E rs re v e lo hi :
  let b := String.eqb quote p.1.2 in
  inv now h s → in_force (historical s) p t rs → in_force (historical s) p u re → t ≤ u → h ≤ t →
  Time S = t → Time E = u → rpair S = p →
  (∀ q, price q S = price q rs ∧ accum q S = extrapolate q rs t) →
  (∀ q, price q E = price q re ∧ accum q E = extrapolate q re u) →
  (∀ x, in_window (historical s) p t u x → lo ≤ price b x ≤ hi) →
  computeTwap S E quote arithmetic = Ok (v, e) → lo ≤ Dec.i v ≤ hi.
Proof using L.
  intros b Hi Hs He Htu Hh HtS HtE HpS HS HE Hb.
  assert (b = String.eqb quote (Asset0Denom S)) as Eb by (unfold b; by rewrite <- HpS).
  rewrite Eb in *.
  assert (∀ x, is_record (historical s) p x → Time rs ≤ Time x ≤ u →
    lo ≤ price (String.eqb quote (Asset0Denom S)) x ≤ hi) as Hb'.
  { intros x Hx [Hxr Hxu]. apply Hb. split; [done|]. split; [done|]. intros r Hr.
    by rewrite (in_force_unique _ _ _ _ _ Hr Hs). }
  pose proof He as (He1 & He2 & He3). pose proof Hs as (Hs1 & Hs2 & _).
  pose proof (He3 rs Hs1 ltac:(lia)) as Hrs.
  apply arithmetic_between; rewrite ?HtS, ?HtE; [done|..].
  - rewrite (proj1 (HE _)). by apply Hb'.
  - rewrite (proj2 (HE _)), (proj2 (HS _)).
    eapply window_between; [apply Hi|apply Hi|exact Hs|exact He|done..|exact Hb'].
Qed.

Lemma twap_between now h ctx s id base quote t u v e p lo hi :
  inv now h s → now ≤ BlockTime ctx → GoTime.printable t → GoTime.printable u →
  query_pair id base quote = Some p → valid_pair p → h ≤ t →
  (∀ x, in_window (historical s) p t u x → lo ≤ price (String.eqb quote p.1.2) x ≤ hi) →
  GetArithmeticTwap ctx s id base quote t u = Ok (v, e) → lo ≤ Dec.i v ≤ hi.
Proof using L.
  intros Hi Hn Ht Hu Hq Hp Hh Hb. unfold GetArithmeticTwap, getTwap.
  assert (∀ S, getInterpolatedRecord ctx s id t base quote = Ok S →
    ∃ rs, in_force (historical s) p t rs ∧ Time S = t ∧ rpair S = p ∧
      ∀ q, price q S = price q rs ∧ accum q S = extrapolate q rs t) as HS.
  { intros S (p' & Hq' & HS)%getInterpolated_Ok; [|apply Hi|done]. rewrite Hq in Hq'.
    injection Hq' as <-. by apply HS. }
  destruct (Z.gtb_spec t u) as [|Htu]; [done|]. destruct (Z.eqb_spec u (BlockTime ctx)) as [Eu|Eu].
  - unfold getTwapToNow. destruct (Z.gtb_spec t (BlockTime ctx)) as [|_]; [done|].
    intros (S & (rs & Hs & HtS & HpS & HaS)%HS & H)%bind_Ok. apply bind_Ok in H as (E & HE & H).
    apply (getMostRecent_Ok ctx now h) in HE as (p' & Hq' & HE); [|done..]. rewrite Hq in Hq'.
    injection Hq' as <-. destruct (HE Hp) as (re & He & HtE & HpE & HaE). rewrite <- Eu in *.
    exact (samples_between _ _ _ _ _ _ _ _ _ _ _ _ _ _ _ Hi Hs He Htu Hh HtS HtE HpS HaS HaE Hb H).
  - destruct (u >? BlockTime ctx); [done|].
    intros (S & (rs & Hs & HtS & HpS & HaS)%HS & H)%bind_Ok. apply bind_Ok in H as (E & HE & H).
    apply getInterpolated_Ok in HE as (p' & Hq' & HE); [|apply Hi|done]. rewrite Hq in Hq'.
    injection Hq' as <-. destruct (HE Hp) as (re & He & HtE & HpE & HaE).
    exact (samples_between _ _ _ _ _ _ _ _ _ _ _ _ _ _ _ Hi Hs He Htu Hh HtS HtE HpS HaS HaE Hb H).
Qed.
End laws.
End TwapProps.
