(* ===== verification/TwapReach.v ===== *)
(** Histories of time-weighted average prices: every operation of x/twap keeps the invariant of its store,
    so the averages of every reachable state lie between the prices in force. *)
From stdpp Require Import prelude strings list gmap sorting.
From Stdlib Require Import Ascii.
From S2P Require Import Prelude.
From S2P Require Import GoBig.
From S2P Require Import GoState.
From S2P Require Import SdkDec.
From S2P Require Import Decimal.
From S2P Require Import DecimalText.
From S2P Require Import KV.
From S2P Require Import GoTime.
From S2P Require Import CLKeys.
From S2P Require Import CLPool.
From S2P Require Import Twap.
From S2P Require Import TwapProps.
Local Open Scope Z_scope.
Import BigText.
Import KV.

Module TwapReach.
Import Twap.
Import TwapProps.

Section laws.
  Context {D : sdk.LegacyDec} {L : sdk.LegacyDecLaws D}.

(** *** Frames of the invariant *)

Lemma inv_later now now' h s : inv now h s → now ≤ now' → inv now' h s.
Proof.
  intros Hi Hn. split; try apply Hi.
  intros p r Hr. destruct (inv_newest _ _ _ Hi p r Hr) as [? ?]. split; [lia|done].
Qed.

(** The invariant reads the records and the pruning state. *)
Lemma inv_same now h s s' :
  inv now h s → historical s' = historical s → recent s' = recent s →
  (IsPruning (GetPruningState s') = true → good_pruning h (GetPruningState s')) →
  inv now h s'.
Proof. intros Hi Eh Er Hp. split; rewrite ?Eh, ?Er; try apply Hi. done. Qed.

Lemma inv_same_pruning now h s s' :
  inv now h s → historical s' = historical s → recent s' = recent s → pruning s' = pruning s → inv now h s'.
Proof. intros Hi Eh Er Ep. apply (inv_same now h s); [done..|]. unfold GetPruningState. rewrite Ep. apply Hi. Qed.

Lemma chained_kept h h' m : h ≤ h' → chained h m → chained h' m.
Proof. intros Hh Hc p r r' Hr Ht. apply (Hc p); [done|lia]. Qed.

(** *** Storing a record *)

Lemma is_record_insert m r p x :
  keyed m → wf_record r →
  is_record (<[hist_key (rpair r) (Time r) := r]> m) p x ↔
  (p = rpair r ∧ x = r) ∨ (is_record m p x ∧ ¬ (p = rpair r ∧ Time x = Time r)).
Proof.
  intros Hm [Hv Ht]. unfold is_record. split.
  - intros [Hx <-]. apply lookup_insert_Some in Hx as [[E ->]|[Hne Hx]]; [by left|].
    right. split; [done|]. intros [E1 E2]. apply Hne. by rewrite E1, E2.
  - intros [[-> ->]|[[Hx <-] Hne]]; [by rewrite lookup_insert_eq|]. split; [|done].
    rewrite lookup_insert_ne; [done|]. intros E.
    destruct (Hm _ _ Hx) as [_ [Hv' Ht']]. apply hist_key_inj in E as [E1 E2]; [|done..].
    apply Hne. by rewrite E1, E2.
Qed.

Definition newest (m : gmap chars TwapRecord) (p : pair) (x : TwapRecord) : Prop :=
  is_record m p x ∧ ∀ y, is_record m p y → Time y ≤ Time x.

Lemma chained_insert h m r :
  keyed m → wf_record r → chained h m →
  (∀ y, is_record m (rpair r) y → Time y ≤ Time r) →
  (∀ x, newest m (rpair r) x → link x r) →
  (∀ y, is_record m (rpair r) y → ∃ x, newest m (rpair r) x) →
  chained h (<[hist_key (rpair r) (Time r) := r]> m).
Proof.
  intros Hm Hw Hc Hmax Hlink Hex p x y (Hx & Hy & Hlt & Hgap) Hh.
  rewrite is_record_insert in Hx, Hy by done.
  assert (∀ z, is_record m p z → Time z ≤ Time x ∨ Time y ≤ Time z ∨ (p = rpair r ∧ Time z = Time r)) as Hgap'.
  { intros z Hz. destruct (decide (p = rpair r ∧ Time z = Time r)) as [?|Hne]; [by auto|].
    destruct (Hgap z); [|by auto|by auto]. rewrite is_record_insert by done. by right. }
  destruct Hx as [[-> ->]|[Hx Hxne]]; destruct Hy as [[Ep ->]|[Hy Hyne]].
  - lia.
  - specialize (Hmax y Hy). lia.
  - subst p. destruct (Hex x Hx) as [n Hn]. pose proof Hn as [Hn1 Hn2].
    pose proof (Hmax n Hn1) as Hnr. pose proof (Hn2 x Hx) as Hxn.
    destruct (Z.eq_dec (Time n) (Time r)) as [En|En].
    + assert (link x n) as Hxl.
      { apply (Hc (rpair r)); [|lia]. split; [done|]. split; [done|]. split; [lia|].
        intros z Hz. destruct (Hgap' z Hz) as [?|[?|[_ ?]]]; [by left|right; lia|right; lia]. }
      intros b. rewrite (Hlink n Hn b). unfold extrapolate. rewrite (Hxl b). unfold extrapolate.
      rewrite En. lia.
    + destruct (Hgap' n Hn1) as [?|[?|[_ ?]]]; [|lia|lia].
      rewrite (is_record_time m (rpair r) x n Hx Hn1 ltac:(lia)). by apply Hlink.
  - apply (Hc p); [|done]. split; [done|]. split; [done|]. split; [done|].
    intros z Hz. destruct (Hgap' z Hz) as [?|[?|[-> Et]]]; [by left|by right|].
    specialize (Hmax y Hy). right. lia.
Qed.

Lemma newest_exists now h s p y :
  inv now h s → is_record (historical s) p y →
  ∃ x, newest (historical s) p x ∧ recent s !! recent_key p = Some x.
Proof.
  intros Hi Hy. destruct (inv_newest _ _ _ Hi p y Hy) as (_ & x & Hx & Hp & Hle).
  exists x. split; [|done]. destruct (inv_recent _ _ _ Hi _ _ Hx) as [_ Hr]. rewrite Hp in Hr.
  split; [done|]. intros z Hz. destruct (inv_newest _ _ _ Hi p z Hz) as (_ & x' & Hx' & _ & Hz').
  rewrite Hx in Hx'. by injection Hx' as <-.
Qed.

Lemma store_record now h s r u s' :
  inv now h s → wf_record r → Time r ≤ now →
  (∀ y, is_record (historical s) (rpair r) y → Time y ≤ Time r) →
  (∀ x, newest (historical s) (rpair r) x → link x r) →
  StoreNewRecord r s = Ok (u, s') →
  inv now h s' ∧ recent s' = <[recent_key (rpair r) := r]> (recent s) ∧
  historical s' = <[hist_key (rpair r) (Time r) := r]> (historical s).
Proof.
  intros Hi Hw Hn Hmax Hlink H. unfold StoreNewRecord, StoreHistoricalTWAP in H.
  change (FormatMostRecentTWAPKey _ _ _) with (recent_key (rpair r)) in H.
  change (FormatHistoricalPoolIndexTWAPKey _ _ _ _) with (hist_key (rpair r) (Time r)) in H.
  run H as [] s1 H1. apply st_modify_Ok in H1 as ->. apply st_modify_Ok in H as ->.
  split; [|done]. pose proof (inv_keyed _ _ _ Hi) as Hm.
  split; cbn [recent historical set_recent set_historical].
  - intros k x. rewrite lookup_insert_Some. intros [[<- <-]|[_ Hx]]; [done|by apply Hm].
  - intros k x. rewrite lookup_insert_Some. intros [[<- <-]|[Hne Hx]].
    + split; [done|]. apply is_record_insert; [done..|by left].
    + destruct (inv_recent _ _ _ Hi _ _ Hx) as [-> Hr]. split; [done|].
      apply is_record_insert; [done..|]. right. split; [done|]. intros [E _].
      apply Hne. unfold recent_key. by rewrite E.
  - intros p x Hx. apply is_record_insert in Hx as [[-> ->]|[Hx Hxne]]; [..|done|done].
    + split; [done|]. exists r. by rewrite lookup_insert_eq.
    + destruct (inv_newest _ _ _ Hi p x Hx) as (Hxn & y & Hy & Hp & Hle). split; [done|].
      destruct (decide (p = rpair r)) as [->|Hne].
      * exists r. rewrite lookup_insert_eq. split; [done|]. split; [done|]. by apply Hmax.
      * exists y. rewrite lookup_insert_ne; [done|]. intros E. apply Hne. symmetry.
        destruct (is_record_wf _ _ _ Hm Hx) as [Hv _]. apply recent_key_inj; [apply Hw|done|done].
  - apply chained_insert; try done; [apply Hi|].
    intros y Hy. destruct (newest_exists _ _ _ _ _ Hi Hy) as (x & Hx & _). by exists x.
  - apply (inv_pruning _ _ _ Hi).
Qed.

(** *** Creating a pool *)

(** What the pool manager and the clock are assumed to show a call: denoms without the separator. *)
Definition good_context (ctx : Context) : Prop :=
  GoTime.printable (BlockTime ctx) ∧
  ∀ id denoms, RouteGetPoolDenoms (poolmanagerKeeper ctx) id = Ok denoms → Forall valid_denom denoms.

Lemma pairsWith_denoms d l ps :
  pairsWith d l = Ok ps → Forall (λ p, Denom0 p = d ∧ Denom1 p ∈ l) ps.
Proof.
  revert ps. induction l as [|e l IH]; intros ps; cbn [pairsWith]; [by intros [= <-]|].
  destruct (String.eqb d e); [done|]. intros (qs & Hqs & [= <-])%bind_Ok.
  constructor; [split; [done|by left]|]. eapply Forall_impl; [by apply IH|].
  intros p [? ?]. split; [done|by right].
Qed.

Lemma uniquePairs_denoms l ps :
  uniquePairs l = Ok ps → Forall (λ p, Denom0 p ∈ l ∧ Denom1 p ∈ l) ps.
Proof.
  revert ps. induction l as [|e l IH]; intros ps; cbn [uniquePairs]; [by intros [= <-]|].
  intros (qs & Hqs%pairsWith_denoms & H)%bind_Ok. apply bind_Ok in H as (rs & Hrs%IH & [= <-]).
  apply Forall_app. split; (eapply Forall_impl; [eassumption|]); cbn; intros p [H1 H2].
  - rewrite H1. split; [by left|by right].
  - split; by right.
Qed.

Lemma denomPairs_valid denoms ps :
  Forall valid_denom denoms → GetAllUniqueDenomPairs denoms = Ok ps →
  Forall (λ p, valid_denom (Denom0 p) ∧ valid_denom (Denom1 p)) ps.
Proof.
  intros Hv H%uniquePairs_denoms. eapply Forall_impl; [done|]. cbn. intros p [H0 H1].
  rewrite merge_sort_Permutation in H0, H1. rewrite Forall_forall in Hv. by auto.
Qed.

Lemma newTwapRecord_spec ctx id d0 d1 r :
  GoTime.printable (BlockTime ctx) → 0 ≤ id < 2 ^ 64 → valid_denom d0 → valid_denom d1 →
  newTwapRecord ctx id d0 d1 = Ok r →
  wf_record r ∧ PoolId r = id ∧ Time r = BlockTime ctx ∧ ∀ b, accum b r = 0.
Proof.
  intros Ht Hid H0 H1. unfold newTwapRecord, LexicographicalOrderDenoms.
  destruct (String.eqb d0 d1); [done|].
  assert (∀ a b, valid_denom a → valid_denom b →
    ('(sp0, sp1, lastErrorTime) ← getSpotPrices ctx id a b 0;
     Ok {| PoolId := id; Asset0Denom := a; Asset1Denom := b; Height := BlockHeight ctx;
           Time := BlockTime ctx; P0LastSpotPrice := sp0; P1LastSpotPrice := sp1;
           P0ArithmeticTwapAccumulator := Dec.NewDec 0; P1ArithmeticTwapAccumulator := Dec.NewDec 0;
           GeometricTwapAccumulator := Dec.NewDec 0; LastErrorTime := lastErrorTime |}) = Ok r →
    wf_record r ∧ PoolId r = id ∧ Time r = BlockTime ctx ∧ ∀ b, accum b r = 0) as HH.
  { intros a b Ha Hb ([[sp0 sp1] et] & _ & [= <-])%bind_Ok. split_and!; [|done..|by intros []].
    split; [|done]. done. }
  destruct (denom_lt d1 d0); by apply HH.
Qed.

Definition no_records (m : gmap chars TwapRecord) (id : Z) : Prop :=
  ∀ p r, is_record m p r → PoolId r ≠ id.
(** The records of a pool that is being created. *)
Definition only_new (m : gmap chars TwapRecord) (id t : Z) : Prop :=
  ∀ p r, is_record m p r → PoolId r = id → Time r = t ∧ ∀ b, accum b r = 0.

Lemma until_error_ind {A} (P : store → Prop) (l : list A) (f : A → M store (option string)) s e s' :
  (∀ x s e s', x ∈ l → P s → f x s = Ok (e, s') → P s') →
  P s → until_error l f s = Ok (e, s') → P s'.
Proof.
  revert s. induction l as [|x l IH]; intros s Hf Hs; cbn [until_error].
  - by intros [_ <-]%st_ret_Ok.
  - intros (e1 & s1 & H1 & H)%st_bind_Ok. pose proof (Hf x s e1 s1 ltac:(by left) Hs H1) as Hs1.
    destruct e1; [by apply st_ret_Ok in H as [_ <-]|]. apply (IH s1); [|done..].
    intros y t e' t' Hy. apply Hf. by right.
Qed.

Lemma attempt_Ok {A} (m : outcome A) (f : A → M store (option string)) s e s' :
  attempt m f s = Ok (e, s') → (∃ a, m = Ok a ∧ f a s = Ok (e, s')) ∨ s' = s.
Proof.
  unfold attempt. destruct m as [a|x|x]; [by eauto| |done]. intros [_ <-]%st_ret_Ok. by right.
Qed.

Lemma create_pool now h ctx id s e s' :
  inv now h s → good_context ctx → now ≤ BlockTime ctx → 0 ≤ id < 2 ^ 64 →
  no_records (historical s) id → afterCreatePool ctx id s = Ok (e, s') → inv (BlockTime ctx) h s'.
Proof using L.
  intros Hi [Ht Hd] Hn Hid Hno H. unfold afterCreatePool in H.
  run_lift H as denoms Hden. run_lift H as ps Hps. run H as err s1 H1.
  assert (Forall valid_denom denoms) as Hv.
  { pose proof (Hd id) as Hdi. destruct (RouteGetPoolDenoms _ id); [|by (injection Hden as <-)|done].
    injection Hden as <-. by apply Hdi. }
  assert (inv (BlockTime ctx) h s1) as Hi1.
  { apply (until_error_ind (λ s, inv (BlockTime ctx) h s ∧ only_new (historical s) id (BlockTime ctx))) in H1
      as [? _]; [done| |split; [by eapply inv_later|intros p r Hr Hpr; by destruct (Hno p r Hr)]].
    intros pr s2 e2 s3 Hin [Hi2 Ho2] H2. apply attempt_Ok in H2 as [(r & Hr & H2)| ->]; [|done].
    pose proof (denomPairs_valid _ _ Hv Hps) as HF. rewrite Forall_forall in HF. destruct (HF pr Hin).
    apply newTwapRecord_spec in Hr as (Hw & Hrid & Hrt & Hra); [|done..].
    run H2 as [] s4 H4. apply st_ret_Ok in H2 as [_ <-].
    apply (store_record (BlockTime ctx) h) in H4 as (Hi4 & _ & Eh); [|done|done|lia|..].
    - split; [done|]. intros q x Hx Hxid. rewrite Eh in Hx.
      apply is_record_insert in Hx as [[_ ->]|[Hx _]]; [done|by apply (Ho2 q)|apply Hi2|done].
    - intros y Hy. rewrite Hrt. apply (inv_newest _ _ _ Hi2 _ y Hy).
    - intros x [Hx _] b. pose proof Hx as [_ Hxp]. unfold rpair in Hxp. injection Hxp as Hxid _ _.
      destruct (Ho2 _ x Hx ltac:(congruence)) as [Hxt Hxa]. unfold extrapolate.
      rewrite Hxt, Hxa, Hra, Hrt. lia. }
  destruct err as [e1|]; [by apply st_ret_Ok in H as [_ <-]|].
  run H as [] s2 H2. apply st_ret_Ok in H as [_ <-]. apply st_modify_Ok in H2 as ->.
  by apply (inv_same_pruning _ _ s1).
Qed.

(** *** Updating the records of a pool *)

Lemma updateRecord_spec ctx r r' :
  updateRecord ctx r = Ok r' →
  Time r ≤ BlockTime ctx ∧ rpair r' = rpair r ∧ Time r' = BlockTime ctx ∧
  ∀ b, accum b r' = extrapolate b r (BlockTime ctx).
Proof using L.
  unfold updateRecord. destruct (_ && _ && _); [done|].
  destruct (Height r >? BlockHeight ctx); [done|]. destruct (Z.gtb_spec (Time r) (BlockTime ctx)); [done|].
  cbn [orb]. intros (q & (Hq1 & Hq2 & _ & Hq3)%updated_spec & H')%bind_Ok.
  apply bind_Ok in H' as ([[sp0 sp1] et] & _ & [= <-]). split_and!; [lia|done|done|].
  intros b. destruct (Hq3 b) as [_ Hb]. by destruct b.
Qed.

(** Different pairs' most recent records. *)
Definition listed (s : store) (rs : list TwapRecord) : Prop :=
  Forall (λ r, recent s !! recent_key (rpair r) = Some r) rs ∧ NoDup (map (λ r, recent_key (rpair r)) rs).

Lemma gather_values (it : list (chars * TwapRecord)) :
  gatherValuesFromIterator it parse_value noStopFn = Ok (it.*2).
Proof.
  unfold gatherValuesFromIterator. induction it as [|[k v] it IH]; cbn; [done|].
  cbn in IH. by rewrite IH.
Qed.

Lemma select_listed now h s P : inv now h s → listed s (select P (recent s)).*2.
Proof.
  intros Hi. assert (∀ k r, (k, r) ∈ select P (recent s) → k = recent_key (rpair r) ∧ recent s !! k = Some r) as HH.
  { intros k r [_ Hk]%elem_of_select. destruct (inv_recent _ _ _ Hi _ _ Hk). done. }
  split.
  - apply Forall_fmap, Forall_forall. intros [k r] Hin. destruct (HH k r Hin) as [-> ?]. done.
  - rewrite <- list_fmap_compose. replace (_ <$> _) with ((select P (recent s)).*1); [apply select_NoDup|].
    apply list_fmap_ext. intros i [k r] Hx%list_elem_of_lookup_2. by destruct (HH k r Hx).
Qed.

Lemma most_recent_listed now h s id denoms rs :
  inv now h s → GetAllMostRecentRecordsForPoolWithDenoms s id denoms = Ok rs → listed s rs.
Proof.
  intros Hi. unfold GetAllMostRecentRecordsForPoolWithDenoms, GetAllMostRecentTwapsForPool, GatherValuesFromStore.
  assert (∀ a b, gatherValuesFromIterator (Iterator (recent s) a b) parse_value noStopFn = Ok rs → listed s rs) as HH.
  { intros a b. rewrite gather_values. intros [= <-]. by eapply select_listed. }
  destruct denoms as [|d0 [|d1 [|]]]; [apply HH..| |apply HH].
  intros ([a b] & _ & H)%bind_Ok. apply bind_Ok in H as (r & Hr & [= <-]).
  unfold GetMostRecentTwapForPool in Hr. destruct (recent s !! _) as [r0|] eqn:E; [|done].
  injection Hr as ->. destruct (inv_recent _ _ _ Hi _ _ E) as [Ek _]. rewrite Ek in E.
  split; [by constructor|apply NoDup_singleton].
Qed.

Lemma update_loop ctx h rs s e s' :
  inv (BlockTime ctx) h s → GoTime.printable (BlockTime ctx) → listed s rs →
  until_error rs (λ record, attempt (updateRecord ctx record) (λ newRecord,
    _ ← StoreNewRecord newRecord; mret None)) s = Ok (e, s') →
  inv (BlockTime ctx) h s'.
Proof using L.
  intros Hi Ht. revert s Hi. induction rs as [|r rs IH]; intros s Hi [Hf Hnd]; cbn [until_error].
  { by intros [_ <-]%st_ret_Ok. }
  intros (e1 & s1 & H1 & H)%st_bind_Ok. apply Forall_cons in Hf as [Hr Hf].
  cbn [map] in Hnd. apply NoDup_cons in Hnd as [Hni Hnd].
  apply attempt_Ok in H1 as [(r' & Hr' & H1)| ->].
  - run H1 as [] s2 H2. apply st_ret_Ok in H1 as [<- <-].
    apply updateRecord_spec in Hr' as (Hle & Hp & Ht' & Ha).
    destruct (inv_recent _ _ _ Hi _ _ Hr) as [_ Hrec].
    pose proof (is_record_wf _ _ _ (inv_keyed _ _ _ Hi) Hrec) as [Hv _].
    apply (store_record (BlockTime ctx) h) in H2 as (Hi2 & Er & _); [|done|..].
    + apply (IH s2); [done| |done]. split; [|done]. rewrite Er, Hp.
      rewrite Forall_forall in Hf |- *. intros x Hx. rewrite lookup_insert_ne; [by apply Hf|].
      intros E. apply Hni. rewrite E. by apply (list_elem_of_fmap_2 (λ r, recent_key (rpair r))).
    + split; [by rewrite Hp|by rewrite Ht'].
    + lia.
    + intros y Hy. rewrite Ht'. apply (inv_newest _ _ _ Hi _ y Hy).
    + intros x [Hx Hmax]. rewrite Hp in Hx, Hmax. destruct (inv_newest _ _ _ Hi _ _ Hx) as (_ & q & Hq & _ & Hle').
      rewrite Hr in Hq. injection Hq as <-. rewrite (is_record_time _ _ x r Hx Hrec) by (specialize (Hmax r Hrec); lia).
      intros b. rewrite Ht'. apply Ha.
  - destruct e1; [by apply st_ret_Ok in H as [_ <-]|]. by apply (IH s).
Qed.

Lemma updateRecords_inv ctx h id s e s' :
  inv (BlockTime ctx) h s → good_context ctx → updateRecords ctx id s = Ok (e, s') →
  inv (BlockTime ctx) h s'.
Proof using L.
  intros Hi [Ht _] H. unfold updateRecords in H. apply attempt_Ok in H as [(denoms & _ & H)| ->]; [|done].
  run_gets H. apply attempt_Ok in H as [(rs & Hrs & H)| ->]; [|done].
  destruct (negb _); [by apply st_ret_Ok in H as [_ <-]|].
  eapply update_loop; [done|done| |done]. by eapply most_recent_listed.
Qed.

(** *** Pruning *)

(** What pruning up to a time may do: it removes records that a later record from before that time makes
    unnecessary. *)
Record pruned (t : Z) (s s' : store) : Prop := {
  pruned_recent : recent s' = recent s;
  pruned_subset k r : historical s' !! k = Some r → historical s !! k = Some r;
  pruned_later p r :
    is_record (historical s) p r → is_record (historical s') p r ∨
    ∃ q, is_record (historical s') p q ∧ Time r < Time q < t
}.

#[export] Instance pruned_preorder t : PreOrder (pruned t).
Proof.
  split.
  - intros s. split; [done|done|]. intros p r Hr. by left.
  - intros s1 s2 s3 H1 H2. split.
    + by rewrite (pruned_recent _ _ _ H2), (pruned_recent _ _ _ H1).
    + intros k r Hr. by apply (pruned_subset _ _ _ H1), (pruned_subset _ _ _ H2).
    + intros p r Hr. destruct (pruned_later _ _ _ H1 p r Hr) as [H|(q & H & Hq)].
      * by apply (pruned_later _ _ _ H2).
      * right. destruct (pruned_later _ _ _ H2 p q H) as [?|(q' & ? & ?)]; [by exists q|].
        exists q'. split; [done|lia].
Qed.

Lemma pruned_is_record t s s' p r : pruned t s s' → is_record (historical s') p r → is_record (historical s) p r.
Proof. intros H [Hr Hp]. split; [by apply (pruned_subset _ _ _ H)|done]. Qed.

Lemma pruned_keyed t s s' : pruned t s s' → keyed (historical s) → keyed (historical s').
Proof. intros H Hm k r Hr. apply Hm, (pruned_subset _ _ _ H), Hr. Qed.

Lemma pruned_inv now h t s s' :
  inv now h s → t ≤ h → pruned t s s' →
  (IsPruning (GetPruningState s') = true → good_pruning h (GetPruningState s')) → inv now h s'.
Proof.
  intros Hi Ht H Hg. split.
  - eapply pruned_keyed; [done|apply Hi].
  - intros k r. rewrite (pruned_recent _ _ _ H). intros Hr.
    destruct (inv_recent _ _ _ Hi _ _ Hr) as [Ek Hrec]. split; [done|].
    destruct (pruned_later _ _ _ H _ _ Hrec) as [?|(q & Hq & Hlt)]; [done|].
    apply (pruned_is_record _ _ _ _ _ H) in Hq.
    destruct (inv_newest _ _ _ Hi _ _ Hq) as (_ & y & Hy & _ & Hle).
    rewrite Ek in Hr. rewrite Hr in Hy. injection Hy as <-. lia.
  - intros p r Hr. rewrite (pruned_recent _ _ _ H).
    by apply (inv_newest _ _ _ Hi), (pruned_is_record _ _ _ _ _ H).
  - intros p x y (Hx & Hy & Hlt & Hgap) Hh. apply (inv_chained _ _ _ Hi p); [|done].
    split; [by eapply pruned_is_record|]. split; [by eapply pruned_is_record|]. split; [done|].
    intros z Hz. destruct (pruned_later _ _ _ H p z Hz) as [?|(q & Hq & Hzq)]; [by apply Hgap|].
    destruct (Hgap q Hq); [left; lia|]. lia.
  - done.
Qed.

(** The record in force at a time that is kept stays in force. *)
Lemma pruned_in_force t s s' p u r :
  pruned t s s' → t ≤ u → in_force (historical s) p u r ↔ in_force (historical s') p u r.
Proof.
  intros H Htu. split; intros (Hr & Hle & Hmax).
  - destruct (pruned_later _ _ _ H p r Hr) as [Hr'|(q & Hq & Hlt)].
    + split; [done|]. split; [done|]. intros x Hx. apply Hmax. by eapply pruned_is_record.
    + pose proof (Hmax q (pruned_is_record _ _ _ _ _ H Hq) ltac:(lia)). lia.
  - split; [by eapply pruned_is_record|]. split; [done|]. intros x Hx Hxu.
    destruct (pruned_later _ _ _ H p x Hx) as [?|(q & Hq & Hlt)]; [by apply Hmax|].
    specialize (Hmax q Hq ltac:(lia)). lia.
Qed.

Lemma pruneKeys_spec keys first n s n' lim s' :
  pruneKeys keys first n s = Ok (n', lim, s') →
  recent s' = recent s ∧ pruning s' = pruning s ∧
  (∀ k r, historical s' !! k = Some r → historical s !! k = Some r) ∧
  (∀ k r, historical s !! k = Some r → historical s' !! k = Some r ∨
          k ∈ (if first then tail keys else keys)).
Proof.
  revert first n s. induction keys as [|key keys IH]; intros first n s; cbn [pruneKeys].
  { intros [_ <-]%st_ret_Ok. split_and!; try done. by left. }
  destruct first.
  - intros H. apply IH in H as (H1 & H2 & H3 & H4). done.
  - intros ([] & s1 & ->%st_modify_Ok & H)%st_bind_Ok.
    assert (∀ k r, delete key (historical s) !! k = Some r → historical s !! k = Some r) as Hd.
    { intros k r Hr. by apply lookup_delete_Some in Hr as [_ ?]. }
    destruct (n + 1 >=? NumRecordsToPrunePerBlock).
    + apply st_ret_Ok in H as [_ <-]. split_and!; [done..|apply Hd|]. intros k r Hr.
      destruct (decide (k = key)) as [->|]; [by right; left|left].
      by apply lookup_delete_Some.
    + apply IH in H as (H1 & H2 & H3 & H4). cbn in H1, H2. split_and!; [done..|by eauto|].
      intros k r Hr. destruct (decide (k = key)) as [->|]; [by right; left|].
      destruct (H4 k r) as [?|?]; [by apply lookup_delete_Some|by left|by right; right].
Qed.

Lemma prunable_eq st id dp s :
  prunable st id dp s =
  (reverse (select (in_range (hist_prefix (id, Denom0 dp, Denom1 dp))
    (hist_prefix (id, Denom0 dp, Denom1 dp) ++ GoTime.FormatTimeString (LastKeptTime st))) (historical s))).*1.
Proof.
  unfold prunable, ReverseIterator, Iterator.
  change (FormatHistoricalPoolIndexTWAPKey id (Denom0 dp) (Denom1 dp) (LastKeptTime st))
    with (hist_key (id, Denom0 dp, Denom1 dp) (LastKeptTime st)).
  by rewrite hist_key_eq.
Qed.

Lemma prune_pair st id dp n s n' lim s' :
  keyed (historical s) → valid_pair (id, Denom0 dp, Denom1 dp) → GoTime.printable (LastKeptTime st) →
  pruneKeys (prunable st id dp s) true n s = Ok (n', lim, s') →
  pruned (LastKeptTime st) s s' ∧ pruning s' = pruning s.
Proof.
  intros Hm Hp Ht H. set (p := (id, Denom0 dp, Denom1 dp)) in *.
  apply pruneKeys_spec in H as (H1 & H2 & H3 & H4). split; [|done]. split; [done|done|].
  intros q r Hr. destruct (H4 _ _ (proj1 Hr)) as [?|Hin]; [left; split; [done|apply Hr]|right].
  pose proof (range_records (historical s) p (λ u, u < LastKeptTime st)
    (GoTime.FormatTimeString (LastKeptTime st)) Hm Hp
    (λ u Hu, GoTime.FormatTimeString_lt u (LastKeptTime st) Hu Ht)) as HR.
  rewrite prunable_eq in Hin, H4. fold p in Hin, H4.
  destruct (reverse _) as [|[k0 r0] l]; [by apply elem_of_nil in Hin|]. cbn [fmap list_fmap tail] in Hin, H4.
  destruct HR as (Ek & Hr0 & Hlt0 & Hmax & Htail). destruct (Htail _ Hin) as (r' & Ek' & Hr' & _ & Hlt).
  pose proof (is_record_wf _ _ _ Hm Hr) as [Hvq Htq]. pose proof (is_record_wf _ _ _ Hm Hr') as [_ Htr'].
  pose proof (is_record_wf _ _ _ Hm Hr0) as [_ Htr0].
  apply hist_key_inj in Ek' as [-> Et]; [|done..]. exists r0. split; [|lia]. split; [|apply Hr0].
  destruct (H4 _ _ (proj1 Hr0)) as [?|Hin0]; [done|].
  destruct (Htail _ Hin0) as (r2 & Ek2 & Hr2 & _ & Hlt2).
  pose proof (is_record_wf _ _ _ Hm Hr2) as [_ Htr2].
  apply hist_key_inj in Ek2 as [_ Et2]; [lia|done..].
Qed.

Lemma prunePairs_spec st id dps n s n' lim s' :
  keyed (historical s) → 0 ≤ id < 2 ^ 64 →
  Forall (λ dp, valid_denom (Denom0 dp) ∧ valid_denom (Denom1 dp)) dps →
  GoTime.printable (LastKeptTime st) → prunePairs st id dps n s = Ok (n', lim, s') →
  pruned (LastKeptTime st) s s' ∧ pruning s' = pruning s.
Proof.
  intros Hm Hid Hf Ht. revert n s Hm. induction Hf as [|dp dps [H0 H1] Hf IH]; intros n s Hm; cbn [prunePairs].
  { by intros [_ <-]%st_ret_Ok. }
  intros H. run_gets H. run H as [n1 lim1] s1 H2.
  apply prune_pair in H2 as [Hp1 Hp2]; [|done..].
  destruct lim1; [by apply st_ret_Ok in H as [_ <-]|].
  apply IH in H as [H3 H4]; [|by eapply pruned_keyed]. split; [by etransitivity|congruence].
Qed.

Lemma prunePools_spec ctx st h k n last s e s' :
  keyed (historical s) → good_context ctx → good_pruning h st → Z.of_nat k < 2 ^ 64 →
  prunePools ctx st k n last s = Ok (e, s') →
  pruned (LastKeptTime st) s s' ∧
  (pruning s' = pruning s ∨ ∃ st', pruning s' = Some st' ∧ good_pruning h st').
Proof.
  intros Hm Hctx Hst. pose proof Hst as (Hh & Ht & Hid). revert n last s Hm.
  induction k as [|k IH]; intros n last s Hm Hk; cbn [prunePools].
  - destruct (last =? 1).
    + intros H. run H as [] s1 H1. apply st_ret_Ok in H as [_ <-]. apply st_modify_Ok in H1 as ->.
      split; [by split; [..|left]|]. right. eexists. split; [done|]. done.
    + intros [_ <-]%st_ret_Ok. split; [done|by left].
  - intros [(denoms & Hden & H)| ->]%attempt_Ok; [|split; [done|by left]].
    apply attempt_Ok in H as [(dps & Hdps & H)| ->]; [|split; [done|by left]].
    run H as [n1 lim] s1 H1.
    apply prunePairs_spec in H1 as [Hp1 Hp2]; [|done|lia| |done].
    2: { eapply denomPairs_valid; [|done]. by eapply Hctx. }
    destruct lim.
    + run H as [] s2 H2. apply st_ret_Ok in H as [_ <-]. apply st_modify_Ok in H2 as ->.
      split; [etransitivity; [done|by split; [..|left]]|]. right. eexists. split; [done|].
      split; [done|]. split; [done|]. cbn [LastSeenPoolId with_pool]. lia.
    + apply IH in H as [Hp3 Hp4]; [|by eapply pruned_keyed|lia]. split; [by etransitivity|].
      rewrite <- Hp2. done.
Qed.

Lemma prune_inv ctx now h s e s' :
  inv now h s → good_context ctx → IsPruning (GetPruningState s) = true →
  pruneRecordsBeforeTimeButNewest ctx (GetPruningState s) s = Ok (e, s') →
  pruned (LastKeptTime (GetPruningState s)) s s' ∧ inv now h s'.
Proof.
  intros Hi Hctx Hp H. pose proof (inv_pruning _ _ _ Hi Hp) as Hg.
  unfold pruneRecordsBeforeTimeButNewest in H.
  apply (prunePools_spec ctx _ h) in H as [H1 H2]; [|apply Hi|done|done|destruct Hg as (_ & _ & ?); lia].
  split; [done|]. eapply (pruned_inv now h); [done|apply Hg|done|].
  unfold GetPruningState. destruct H2 as [->|(st & -> & ?)]; [done|]. done.
Qed.

(** *** The end of a block *)

Lemma EndBlock_inv ctx now h s u s' :
  inv now h s → now ≤ BlockTime ctx → good_context ctx → EndBlock ctx s = Ok (u, s') →
  inv (BlockTime ctx) h s'.
Proof using L.
  intros Hi Hn Hctx H. apply (inv_later _ (BlockTime ctx)) in Hi; [|done]. unfold EndBlock in H.
  run_gets H. run H as [] s1 H1.
  assert (inv (BlockTime ctx) h s1) as Hi1.
  { generalize dependent (getChangedPools s). intros l H1. revert s Hi H1.
    induction l as [|id l IH]; intros s Hi H1.
    - by apply st_ret_Ok in H1 as [_ <-].
    - cbn [for_each] in H1. run H1 as [] s2 H2. apply st_bind_Ok in H2 as (e & s3 & H2 & H3).
      apply st_ret_Ok in H3 as [_ <-]. eapply IH; [|done]. by eapply updateRecords_inv. }
  run_gets H. destruct (IsPruning (GetPruningState s1)) eqn:E; [|by apply st_ret_Ok in H as [_ <-]].
  run H as e s2 H2. apply st_ret_Ok in H as [_ <-]. by eapply prune_inv.
Qed.

(** *** Histories *)

(** The time of the last block, the latest time up to which records may have been pruned, the store. *)
Record history := { now : Z; kept : Z; state : store }.
Definition genesis_store (p : Params) : store :=
  {| recent := ∅; historical := ∅; deprecatedTimeIndex := ∅; pruning := None;
     deprecatedIsPruning := false; params := p; changed := ∅ |}.

Inductive twap_step : history → history → Prop :=
  | create_step ctx id x s' :
      good_context ctx → now x ≤ BlockTime ctx → 0 ≤ id < 2 ^ 64 → no_records (historical (state x)) id →
      mustTrackCreatedPool ctx id (state x) = Ok (tt, s') →
      twap_step x {| now := BlockTime ctx; kept := kept x; state := s' |}
  | track_step id x s' :
      trackChangedPool id (state x) = Ok (tt, s') →
      twap_step x {| now := now x; kept := kept x; state := s' |}
  | params_step p x s' :
      SetParams p (state x) = Ok (tt, s') → twap_step x {| now := now x; kept := kept x; state := s' |}
  | epoch_step ctx identifier number x s' :
      GoTime.printable (BlockTime ctx - RecordHistoryKeepPeriod (params (state x))) →
      AfterEpochEnd ctx identifier number (state x) = Ok (tt, s') →
      twap_step x {| now := now x; kept := Z.max (kept x) (LastKeptTime (GetPruningState s')); state := s' |}
  | block_step ctx x s' :
      good_context ctx → now x ≤ BlockTime ctx →
      (_ ← EndBlock ctx; Commit) (state x) = Ok (tt, s') →
      twap_step x {| now := BlockTime ctx; kept := kept x; state := s' |}.
Inductive reachable (p : Params) : history → Prop :=
  | reach_genesis : reachable p {| now := 0; kept := 0; state := genesis_store p |}
  | reach_step x y : reachable p x → twap_step x y → reachable p y.

Lemma genesis_inv p : inv 0 0 (genesis_store p).
Proof.
  split; cbn.
  - intros k r Hr. by rewrite lookup_empty in Hr.
  - intros k r Hr. by rewrite lookup_empty in Hr.
  - intros q r [Hr _]. cbn in Hr. by rewrite lookup_empty in Hr.
  - intros q r r' ([Hr _] & _). cbn in Hr. by rewrite lookup_empty in Hr.
  - done.
Qed.

Lemma step_inv x y :
  inv (now x) (kept x) (state x) → twap_step x y → inv (now y) (kept y) (state y).
Proof using L.
  intros Hi H. destruct H as [ctx id x s' Hc Hn Hid Hno H|id x s' H|p x s' H|ctx i n x s' Ht H|ctx x s' Hc Hn H];
    cbn [now kept state].
  - unfold mustTrackCreatedPool in H. run H as e s1 H1.
    destruct e; [done|]. apply st_ret_Ok in H as [_ <-]. by eapply create_pool.
  - apply st_modify_Ok in H as ->. by apply (inv_same_pruning _ _ (state x)).
  - apply st_modify_Ok in H as ->. by apply (inv_same_pruning _ _ (state x)).
  - assert (inv (now x) (Z.max (kept x) (LastKeptTime (GetPruningState s'))) (state x)) as Hi'.
    { split; try apply Hi.
      - eapply chained_kept; [|apply Hi]. lia.
      - intros Hp. destruct (inv_pruning _ _ _ Hi Hp) as (? & ? & ?). split; [lia|done]. }
    unfold AfterEpochEnd in H. run_gets H.
    destruct (String.eqb i _); [|by apply st_ret_Ok in H as [_ <-]].
    destruct (Z.ltb_spec 0 ((GetNextPoolId (poolmanagerKeeper ctx) - 1) mod 2 ^ 64));
      [|by apply st_ret_Ok in H as [_ <-]].
    apply st_modify_Ok in H as ->. apply (inv_same _ _ (state x)); [done..|].
    intros _. cbn [GetPruningState set_pruning pruning default]. split; [lia|]. split; [done|].
    cbn [LastSeenPoolId]. apply Z.mod_pos_bound. done.
  - run H as [] s1 H1. apply st_modify_Ok in H as ->.
    eapply EndBlock_inv in H1; [|done..]. by apply (inv_same_pruning _ _ s1).
Qed.

Lemma reachable_inv p x : reachable p x → inv (now x) (kept x) (state x).
Proof using L. induction 1; [apply genesis_inv|by eapply step_inv]. Qed.

(** C15.  In every history, an arithmetic average over a window that starts after the pruned past lies
    between the lowest and the highest of the spot prices that were in force at some time of the window. *)
Theorem arithmetic_twap_between_prices ps x ctx id base quote t u v e p lo hi :
  reachable ps x → now x ≤ BlockTime ctx → GoTime.printable t → GoTime.printable u →
  query_pair id base quote = Some p → valid_pair p → kept x ≤ t →
  (∀ r, in_window (historical (state x)) p t u r → lo ≤ price (String.eqb quote p.1.2) r ≤ hi) →
  GetArithmeticTwap ctx (state x) id base quote t u = Ok (v, e) →
  lo ≤ Dec.i v ≤ hi.
Proof using L. intros Hx. eapply twap_between. by eapply reachable_inv. Qed.

Lemma getRecord_pruned ctx t s s' id u a b :
  keyed (historical s) → pruned t s s' → t ≤ u → GoTime.printable u →
  (∀ p, query_pair id a b = Some p → valid_pair p) →
  getRecordAtOrBeforeTime ctx s' id u a b = getRecordAtOrBeforeTime ctx s id u a b.
Proof.
  intros Hm H Htu Hu Hp. unfold getRecordAtOrBeforeTime, getMostRecentRecord,
    getMostRecentRecordStoreRepresentation, query_pair in *.
  destruct (LexicographicalOrderDenoms a b) as [[d0 d1]| |]; [|done..]. cbn [mbind outcome_bind].
  rewrite (pruned_recent _ _ _ H). specialize (Hp _ eq_refl).
  pose proof (first_in_range (historical s) (id, d0, d1) u Hm Hp Hu) as Hf.
  pose proof (first_in_range (historical s') (id, d0, d1) u (pruned_keyed _ _ _ H Hm) Hp Hu) as Hf'.
  cbn [fst snd] in Hf, Hf'.
  destruct (GetFirstValueInRange (historical s) _ _ _ _) as [r| |],
    (GetFirstValueInRange (historical s') _ _ _ _) as [r'| |]; try done.
  - apply (pruned_in_force t s s') in Hf; [|done..]. by rewrite (in_force_unique _ _ _ _ _ Hf Hf').
  - apply (pruned_in_force t s s') in Hf; [|done..]. destruct Hf as (Hr & Hle & _). specialize (Hf' r Hr). lia.
  - destruct Hf' as (Hr & Hle & _). specialize (Hf r' (pruned_is_record _ _ _ _ _ H Hr)). lia.
Qed.

(** C16.  Pruning does not change any answer about a time that is kept: for a window that starts at the
    kept time or later, both averages, errors included, are the same before and after. *)
Theorem pruning_keeps_twaps ps x ctx e s' ctx' strategy id base quote t u :
  reachable ps x → good_context ctx → IsPruning (GetPruningState (state x)) = true →
  pruneRecordsBeforeTimeButNewest ctx (GetPruningState (state x)) (state x) = Ok (e, s') →
  LastKeptTime (GetPruningState (state x)) ≤ t → GoTime.printable t → GoTime.printable u →
  (∀ p, query_pair id base quote = Some p → valid_pair p) →
  getTwap ctx' s' id base quote t u strategy = getTwap ctx' (state x) id base quote t u strategy.
Proof using L.
  intros Hx Hctx Hp H Ht Hpt Hpu Hv. pose proof (reachable_inv _ _ Hx) as Hi.
  eapply prune_inv in H as [H _]; [|done..].
  assert (∀ w, LastKeptTime (GetPruningState (state x)) ≤ w → GoTime.printable w →
    getInterpolatedRecord ctx' s' id w base quote = getInterpolatedRecord ctx' (state x) id w base quote) as HI.
  { intros w Hw Hpw. unfold getInterpolatedRecord.
    by rewrite (getRecord_pruned ctx' _ _ _ id w base quote (inv_keyed _ _ _ Hi) H Hw Hpw Hv). }
  unfold getTwap, getTwapToNow, GetBeginBlockAccumulatorRecord, getMostRecentRecord,
    getMostRecentRecordStoreRepresentation.
  rewrite (pruned_recent _ _ _ H), (HI t) by done. destruct (Z.gtb_spec t u); [done|].
  by rewrite (HI u) by (lia || done).
Qed.

(** C36.  Times have nanoseconds but the averages count milliseconds: an arithmetic average over a window
    that begins and ends within one millisecond, at different times, never succeeds. *)
Theorem twap_within_a_millisecond ctx s id base quote t u v e :
  t ≠ u → CanonicalTimeMs t = CanonicalTimeMs u →
  GetArithmeticTwap ctx s id base quote t u ≠ Ok (v, e).
Proof using L.
  intros Htu Hms. unfold GetArithmeticTwap, getTwap.
  assert (∀ w r, getInterpolatedRecord ctx s id w base quote = Ok r → Time r = w) as HI.
  { intros w r (r0 & _ & H)%bind_Ok. by apply updated_spec in H as [? _]. }
  assert (∀ S E, Time S = t → Time E = u → computeTwap S E quote arithmetic ≠ Ok (v, e)) as HC.
  { intros S E HS HE. unfold computeTwap. destruct (Z.eqb_spec (Time E - Time S) 0); [lia|].
    intros (w & Hw & _)%bind_Ok. apply bind_Ok in Hw as (d & _ & [Hn _]%sdk.QuoInt64_spec).
    rewrite HS, HE in Hn. lia. }
  destruct (t >? u); [done|]. destruct (Z.eqb_spec u (BlockTime ctx)) as [Eu|_].
  - unfold getTwapToNow. destruct (t >? BlockTime ctx); [done|].
    intros (S & HS%HI & H)%bind_Ok. apply bind_Ok in H as (E & HE & H). apply HC in H; [done..|].
    apply bind_Ok in HE as (r & _ & HE). apply updated_spec in HE as [-> _]. done.
  - destruct (u >? BlockTime ctx); [done|].
    intros (S & HS%HI & H)%bind_Ok. apply bind_Ok in H as (E & HE%HI & H). by apply HC in H.
Qed.

(** A price that has been one throughout has an accumulated logarithm of zero, which the geometric average
    takes for the absence of a price. *)
Lemma geometric_of_one S E quote r :
  Dec.i (GeometricTwapAccumulator E) = Dec.i (GeometricTwapAccumulator S) →
  geometric S E quote = Ok r → r = Dec.NewDec 0.
Proof using L.
  intros HE. unfold geometric. intros (d & Hd%sdk.Sub_spec & H)%bind_Ok.
  rewrite sdk.IsZero_spec in H. replace (Dec.i d) with 0 in H by lia. by injection H.
Qed.

(** Pruning works from the newest record backwards: when it stops at the limit of a block, the records it
    has not reached are the oldest ones, behind the gap it leaves. *)
Lemma pruneKeys_limit ks rest n s :
  ks ≠ [] → n + Z.of_nat (length ks) = NumRecordsToPrunePerBlock → (∀ k, k ∈ rest → k ∉ ks) →
  ∃ s', pruneKeys (ks ++ rest) false n s = Ok (NumRecordsToPrunePerBlock, true, s') ∧
  (∀ k, k ∈ ks → historical s' !! k = None) ∧ (∀ k, k ∉ ks → historical s' !! k = historical s !! k).
Proof.
  intros Hne Hn Hd. revert n s Hne Hn Hd.
  induction ks as [|k ks IH]; intros n s Hne Hn Hd; [done|]. cbn [app pruneKeys length] in *.
  set (s1 := set_historical (delete k) s).
  destruct (Z.geb_spec (n + 1) NumRecordsToPrunePerBlock) as [Hge|Hlt].
  - assert (ks = []) as -> by (destruct ks; [done|cbn [length] in Hn; lia]).
    exists s1. split; [|split].
    + unfold mbind, M_bind, modify. fold s1.
      unfold mret, M_ret. cbn [length] in Hn. do 3 f_equal. lia.
    + intros k' ->%list_elem_of_singleton. apply lookup_delete_eq.
    + intros k' Hk'. apply lookup_delete_ne. intros ->. apply Hk'. by left.
  - destruct (IH (n + 1) s1) as (s' & Hs' & H1 & H2).
    { intros ->. cbn [length] in Hn. lia. }
    { lia. }
    { intros k' Hk' Hin. apply (Hd k' Hk'). by right. }
    exists s'. split; [|split].
    + done.
    + intros k' [->|Hk']%elem_of_cons; [|by apply H1].
      destruct (decide (k ∈ ks)); [by apply H1|]. rewrite H2 by done. apply lookup_delete_eq.
    + intros k' [Hne' Hk']%not_elem_of_cons. rewrite H2 by done. by apply lookup_delete_ne.
Qed.
End laws.

(** *** A concrete history: a pool whose price goes from 2 to 4 *)

Definition demo_manager (sp0 sp1 : Z) : PoolManagerInterface :=
  {| RouteGetPoolDenoms id := if id =? 1 then Ok ["osmo"%string; "atom"%string] else Err "no pool";
     RouteCalculateSpotPrice _ quote _ :=
       Ok (BigDec.mk (10 ^ 34 * (if String.eqb quote "atom" then sp0 else sp1)));
     GetNextPoolId := 2 |}.
Definition demo_time (i : Z) : Z := 738000 * GoTime.day + i * GoTime.second.
Definition demo_context (height t sp0 sp1 : Z) : Context :=
  {| BlockHeight := height; BlockTime := demo_time t; poolmanagerKeeper := demo_manager sp0 sp1 |}.
Definition demo_params : Params := {| PruneEpochIdentifier := "day"; RecordHistoryKeepPeriod := 7 * GoTime.second |}.
Definition after (m : M store unit) (s : store) : store :=
  match m s with Ok (_, s') => s' | _ => s end.
Definition succeeds (m : M store unit) (s : store) : bool := match m s with Ok _ => true | _ => false end.

Definition demo0 : store := genesis_store demo_params.
Definition demo1 : store := after (mustTrackCreatedPool (D := sdk.ref_dec) (demo_context 1 0 200 50) 1) demo0.
Definition demo_block (height t sp0 sp1 : Z) : M store unit :=
  _ ← EndBlock (D := sdk.ref_dec) (demo_context height t sp0 sp1); Commit.
Definition demo2 : store := after (demo_block 1 0 200 50) demo1.
Definition demo3 : store := after (demo_block 2 5 400 25) (after (trackChangedPool 1) demo2).
Definition demo4 : store := after (demo_block 3 10 400 25) (after (trackChangedPool 1) demo3).
Definition demo5 : store := after (AfterEpochEnd (demo_context 4 20 400 25) "day" 1) demo4.

Lemma succeeds_after m s : succeeds m s = true → m s = Ok (tt, after m s).
Proof. unfold succeeds, after. by destruct (m s) as [[[] s']| |]. Qed.

Lemma all_records (P : TwapRecord → bool) m :
  forallb P (map_to_list m).*2 = true → ∀ p r, is_record m p r → P r = true.
Proof.
  intros H p r [Hr _]. rewrite forallb_forall in H. apply H, list_elem_of_In, list_elem_of_fmap.
  exists (hist_key p (Time r), r). split; [done|]. by apply elem_of_map_to_list.
Qed.

Lemma demo_printable i : 0 ≤ i < 1000 → GoTime.printable (demo_time i).
Proof.
  intros Hi. apply (GoTime.printable_le _ (738001 * GoTime.day)); [|by split; vm_compute].
  unfold demo_time. change GoTime.day with (86400 * 10 ^ 9). change GoTime.second with (10 ^ 9). lia.
Qed.

Lemma demo_good height t sp0 sp1 : 0 ≤ t < 1000 → good_context (demo_context height t sp0 sp1).
Proof.
  intros Ht. split; [by apply demo_printable|]. intros id denoms. cbn. destruct (id =? 1); [|done].
  intros [= <-]. repeat constructor; done.
Qed.

Lemma demo_run1 : mustTrackCreatedPool (D := sdk.ref_dec) (demo_context 1 0 200 50) 1 demo0 = Ok (tt, demo1).
Proof. apply succeeds_after. vm_compute. reflexivity. Qed.
Lemma demo_run2 : demo_block 1 0 200 50 demo1 = Ok (tt, demo2).
Proof. apply succeeds_after. vm_compute. reflexivity. Qed.
Lemma demo_run3 : demo_block 2 5 400 25 (after (trackChangedPool 1) demo2) = Ok (tt, demo3).
Proof. apply succeeds_after. vm_compute. reflexivity. Qed.
Lemma demo_run4 : demo_block 3 10 400 25 (after (trackChangedPool 1) demo3) = Ok (tt, demo4).
Proof. apply succeeds_after. vm_compute. reflexivity. Qed.
Lemma demo_run5 : AfterEpochEnd (demo_context 4 20 400 25) "day" 1 demo4 = Ok (tt, demo5).
Proof. apply succeeds_after. vm_compute. reflexivity. Qed.
Lemma track_run id s : trackChangedPool id s = Ok (tt, after (trackChangedPool id) s).
Proof. reflexivity. Qed.

Definition demo_history (t : Z) (s : store) : history := {| now := demo_time t; kept := 0; state := s |}.

Lemma demo_later t u : t ≤ u → demo_time t ≤ demo_time u.
Proof. intros H. unfold demo_time. change GoTime.second with (10 ^ 9). lia. Qed.

Lemma demo_block_reachable height t u sp0 sp1 s s' :
  0 ≤ u < 1000 → t ≤ u → demo_block height u sp0 sp1 s = Ok (tt, s') →
  reachable (D := sdk.ref_dec) demo_params (demo_history t s) →
  reachable (D := sdk.ref_dec) demo_params (demo_history u s').
Proof.
  intros Hu Htu H Hr. eapply reach_step; [exact Hr|].
  exact (block_step (demo_context height u sp0 sp1) (demo_history t s) s' (demo_good height u sp0 sp1 Hu)
    (demo_later t u Htu) H).
Qed.

Lemma demo_track_reachable t s :
  reachable (D := sdk.ref_dec) demo_params (demo_history t s) →
  reachable (D := sdk.ref_dec) demo_params (demo_history t (after (trackChangedPool 1) s)).
Proof.
  intros Hr. eapply reach_step; [exact Hr|]. exact (track_step 1 (demo_history t s) _ (track_run 1 s)).
Qed.

Lemma demo_create_reachable :
  reachable (D := sdk.ref_dec) demo_params (demo_history 0 demo1).
Proof.
  pose proof (reach_genesis (D := sdk.ref_dec) demo_params) as R0. eapply reach_step; [exact R0|].
  assert (no_records (historical demo0) 1) as Hno.
  { intros p r [Hr _]. unfold demo0, genesis_store in Hr. cbn [historical] in Hr. by rewrite lookup_empty in Hr. }
  assert (0 ≤ demo_time 0) as Hle by (by vm_compute).
  exact (create_step (demo_context 1 0 200 50) 1
    {| now := 0; kept := 0; state := genesis_store demo_params |} demo1 (demo_good 1 0 200 50 ltac:(lia)) Hle ltac:(lia) Hno
    demo_run1).
Qed.

Lemma demo_reachable : reachable (D := sdk.ref_dec) demo_params (demo_history 10 demo4).
Proof.
  apply (demo_block_reachable 3 5 10 400 25 _ _ ltac:(lia) ltac:(lia) demo_run4), demo_track_reachable.
  apply (demo_block_reachable 2 0 5 400 25 _ _ ltac:(lia) ltac:(lia) demo_run3), demo_track_reachable.
  apply (demo_block_reachable 1 0 0 200 50 _ _ ltac:(lia) ltac:(lia) demo_run2).
  apply demo_create_reachable.
Qed.

Definition demo_epoch_history : history := {| now := demo_time 10; kept := demo_time 13; state := demo5 |}.
Lemma demo_epoch_reachable : reachable (D := sdk.ref_dec) demo_params demo_epoch_history.
Proof.
  unfold demo_epoch_history. eapply reach_step; [apply demo_reachable|].
  assert (demo_time 13 = Z.max 0 (LastKeptTime (GetPruningState demo5))) as -> by (by vm_compute).
  refine (epoch_step (demo_context 4 20 400 25) "day" 1 (demo_history 10 demo4) demo5 _ demo_run5).
  replace (_ - _) with (demo_time 13) by (by vm_compute). by apply demo_printable.
Qed.

Lemma demo_twap :
  GetArithmeticTwap (D := sdk.ref_dec) (demo_context 4 20 400 25) (state (demo_history 10 demo4)) 1 "osmo" "atom" (demo_time 3) (demo_time 8)
  = Ok (Dec.mk (32 * 10 ^ 17), None).
Proof. vm_compute. reflexivity. Qed.

Lemma demo_pair_valid : valid_pair (1, "atom"%string, "osmo"%string).
Proof. split; [done|]. split; repeat constructor; done. Qed.

Lemma demo_prices r :
  is_record (historical (state (demo_history 10 demo4))) (1, "atom"%string, "osmo"%string) r → 2 * 10 ^ 18 ≤ price true r ≤ 4 * 10 ^ 18.
Proof.
  intros Hr. apply (all_records (λ r, (2 * 10 ^ 18 <=? price true r) && (price true r <=? 4 * 10 ^ 18))) in Hr;
    [lia|]. vm_compute. reflexivity.
Qed.

Lemma demo_kept i : 0 ≤ i → kept (demo_history 10 demo4) ≤ demo_time i.
Proof. intros H. transitivity (demo_time 0); [by vm_compute|by apply demo_later]. Qed.

Lemma arithmetic_twap_between_prices_witness : 2 * 10 ^ 18 ≤ 32 * 10 ^ 17 ≤ 4 * 10 ^ 18.
Proof.
  exact (arithmetic_twap_between_prices (L := sdk.ref_dec_laws) demo_params (demo_history 10 demo4) (demo_context 4 20 400 25) 1
    "osmo" "atom" (demo_time 3) (demo_time 8) (Dec.mk (32 * 10 ^ 17)) None (1, "atom"%string, "osmo"%string)
    (2 * 10 ^ 18) (4 * 10 ^ 18) demo_reachable (demo_later 10 20 ltac:(lia)) (demo_printable 3 ltac:(lia))
    (demo_printable 8 ltac:(lia)) eq_refl demo_pair_valid (demo_kept 3 ltac:(lia)) (λ r Hr, demo_prices r (proj1 Hr))
    demo_twap).
Defined.

(** At the end of the next block the two older of the three records are pruned; the newest, although it is
    from before the kept time, stays. *)
Definition demo_prune_call : M store (option string) := λ s,
  pruneRecordsBeforeTimeButNewest (demo_context 4 20 400 25) (GetPruningState s) s.
Definition after_call {A} (m : M store A) (s : store) : store := match m s with Ok (_, s') => s' | _ => s end.
Definition demo_pruned : store := after_call demo_prune_call (state demo_epoch_history).

Lemma no_error_after (m : M store (option string)) s :
  match m s with Ok (None, _) => true | _ => false end = true → m s = Ok (None, after_call m s).
Proof. unfold after_call. by destruct (m s) as [[[e|] s']| |]. Qed.

Lemma demo_prune :
  pruneRecordsBeforeTimeButNewest (demo_context 4 20 400 25) (GetPruningState (state demo_epoch_history))
    (state demo_epoch_history) = Ok (None, demo_pruned).
Proof. exact (no_error_after demo_prune_call (state demo_epoch_history) ltac:(vm_compute; reflexivity)). Qed.

Lemma pruning_keeps_twaps_witness :
  getTwap (D := sdk.ref_dec) (demo_context 4 20 400 25) demo_pruned 1 "osmo" "atom" (demo_time 14) (demo_time 20)
    (geometric (D := sdk.ref_dec)) =
  getTwap (D := sdk.ref_dec) (demo_context 4 20 400 25) (state demo_epoch_history) 1 "osmo" "atom" (demo_time 14) (demo_time 20)
    (geometric (D := sdk.ref_dec)).
Proof.
  refine (pruning_keeps_twaps (L := sdk.ref_dec_laws) demo_params demo_epoch_history (demo_context 4 20 400 25) None
    demo_pruned (demo_context 4 20 400 25) geometric 1 "osmo" "atom" (demo_time 14) (demo_time 20) demo_epoch_reachable (demo_good _ _ _ _ _) _ demo_prune
    _ (demo_printable 14 _) (demo_printable 20 _) _); [lia|by vm_compute|by vm_compute|lia|lia|].
  intros p [= <-]. exact demo_pair_valid.
Defined.

Lemma twap_within_a_millisecond_witness :
  GetArithmeticTwap (D := sdk.ref_dec) (demo_context 4 20 400 25) demo4 1 "osmo" "atom" (demo_time 8) (demo_time 8 + 1)
  ≠ Ok (Dec.mk 0, None).
Proof. apply (twap_within_a_millisecond (L := sdk.ref_dec_laws)); [lia|by vm_compute]. Defined.

(** What it does instead. *)
Example twap_within_a_millisecond_panics :
  GetArithmeticTwap (D := sdk.ref_dec) (demo_context 4 20 400 25) demo4 1 "osmo" "atom" (demo_time 8) (demo_time 8 + 1)
  = Panic "division by zero".
Proof. vm_compute. reflexivity. Qed.
Example records_left_by_pruning :
  (size (historical demo5), size (historical demo_pruned)) = (3%nat, 1%nat).
Proof. vm_compute. reflexivity. Qed.
End TwapReach.
