(* ===== verification/Eip1559.v ===== *)
(** The fee market of the mempool: x/txfees/keeper/mempool-1559 (code.go, state_compatible_update_logic.go)
    and the block callbacks of x/txfees/module.go that drive it.

    The state is a variable of the node, not of the chain: the record [Node] holds the globals
    [CurEipState], [TargetGas] and [cachedConsParams].  The backup file is an argument, the value that
    can be read from it if any; writing it, which a goroutine does, is left out.

    The base fee of the mempool over the blocks of a node: it stays in its bounds, follows its equation, and
    comes back to the minimum when blocks are empty.  A block is [BeginBlock], the gas of each delivered
    transaction, [EndBlock]. *)
From stdpp Require Import prelude strings list.
From S2P Require Import Prelude.
From S2P Require Import GoBig.
From S2P Require Import SdkDec.
From S2P Require Import CLKeys.
From S2P Require Import CLPool.
From S2P Require Import ZSums.
Local Open Scope Z_scope.

Module Eip1559.

(** *** code.go *)

Definition DefaultBaseFee : Dec.t := Dec.mk (60 * 10 ^ 14).
Definition MinBaseFee : Dec.t := Dec.mk (25 * 10 ^ 14).
Definition MaxBaseFee : Dec.t := Dec.NewDec 5.
Definition ResetInterval : Z := 6000.
Definition DefaultTargetGas : Z := 187500000.
Definition TargetBlockSpacePercent : Dec.t := Dec.mk (625 * 10 ^ 15).
Definition RecheckFeeLowBaseFeeDec : Dec.t := Dec.NewDec 3.
Definition RecheckFeeHighBaseFeeDec : Dec.t := Dec.mk (23 * 10 ^ 17).
Definition RecheckFeeBaseFeeThreshold : Dec.t := Dec.mk (10 ^ 16).

Record EipState := {
  currentBlockHeight : Z;
  totalGasWantedThisBlock : Z;
  CurBaseFee : Dec.t
}.
(** The sections of the consensus parameters: the gas limit of a block, and whether there are others. *)
Record ConsensusParams := { Block : option Z; OtherSections : bool }.
Definition noParams : ConsensusParams := {| Block := None; OtherSections := false |}.
Record Node := { CurEipState : EipState; TargetGas : Z; cachedConsParams : ConsensusParams }.

(** The zero values and initialisers of the globals. *)
Definition initialNode : Node :=
  {| CurEipState := {| currentBlockHeight := 0; totalGasWantedThisBlock := 0; CurBaseFee := Dec.NewDec 0 |};
     TargetGas := DefaultTargetGas; cachedConsParams := noParams |}.
Definition set_eip (e : EipState) (n : Node) : Node :=
  {| CurEipState := e; TargetGas := TargetGas n; cachedConsParams := cachedConsParams n |}.

(** Arithmetic of int64. *)
Definition wrap64 (n : Z) : Z := CLKeys.to_int64 (CLKeys.to_uint64 n).

Definition tryLoad (backup : option Dec.t) : Dec.t := default MinBaseFee backup.

(** [int64(tx.GetGas())] and the sum. *)
Definition deliverTxCode (gas : Z) (e : EipState) : EipState :=
  {| currentBlockHeight := currentBlockHeight e;
     totalGasWantedThisBlock := wrap64 (totalGasWantedThisBlock e + wrap64 gas);
     CurBaseFee := CurBaseFee e |}.

Section fees.
  Context {D : sdk.LegacyDec}.

Definition MaxBlockChangeRate : outcome Dec.t := sdk.Quo (Dec.NewDec 1) (Dec.NewDec 10).

Definition startBlock (backup : option Dec.t) (height : Z) (e : EipState) : EipState :=
  let fee := if sdk.Equal (CurBaseFee e) (Dec.NewDec 0) then tryLoad backup else CurBaseFee e in
  let fee := if Z.rem height ResetInterval =? 0 then DefaultBaseFee else fee in
  {| currentBlockHeight := height; totalGasWantedThisBlock := 0; CurBaseFee := fee |}.

Definition updateBaseFee (target height : Z) (e : EipState) : outcome EipState :=
  let gasUsed := totalGasWantedThisBlock e in
  let gasDiff := wrap64 (gasUsed - target) in
  rate ← MaxBlockChangeRate;
  q ← sdk.Quo (Dec.NewDec gasDiff) (Dec.NewDec target);
  baseFeeIncrement ← sdk.Mul q rate;
  baseFeeMultiplier ← sdk.Add (Dec.NewDec 1) baseFeeIncrement;
  fee ← sdk.Mul (CurBaseFee e) baseFeeMultiplier;
  let fee := if sdk.LT fee MinBaseFee then MinBaseFee else fee in
  let fee := if sdk.GT fee MaxBaseFee then MaxBaseFee else fee in
  Ok {| currentBlockHeight := wrap64 (height + 1);
        totalGasWantedThisBlock := totalGasWantedThisBlock e; CurBaseFee := fee |}.

Definition GetCurBaseFee (e : EipState) : Dec.t := CurBaseFee e.
Definition GetCurRecheckBaseFee (e : EipState) : outcome Dec.t :=
  if sdk.GT (CurBaseFee e) RecheckFeeBaseFeeThreshold then sdk.Quo (CurBaseFee e) RecheckFeeHighBaseFeeDec
  else sdk.Quo (CurBaseFee e) RecheckFeeLowBaseFeeDec.

(** *** state_compatible_update_logic.go *)

Definition DeliverTxCode (gas : Z) (n : Node) : Node := set_eip (deliverTxCode gas (CurEipState n)) n.
Definition BeginBlockCode (backup : option Dec.t) (height : Z) (n : Node) : Node :=
  set_eip (startBlock backup height (CurEipState n)) n.
Definition EndBlockCode (height : Z) (n : Node) : outcome Node :=
  e ← updateBaseFee (TargetGas n) height (CurEipState n);
  Ok (set_eip e n).

(** *** module.go *)

(** [cachedConsParams.Equal(cmtproto.ConsensusParams{})] *)
Definition is_empty (p : ConsensusParams) : bool :=
  match Block p with None => negb (OtherSections p) | Some _ => false end.
Definition target_of (maxGas : Z) : outcome Z :=
  x ← sdk.Mul TargetBlockSpacePercent (Dec.NewDec maxGas);
  i ← sdk.TruncateInt x;
  sdk.IntInt64 i.
Definition CheckAndSetTargetGas (params : outcome ConsensusParams) (n : Node) : outcome Node :=
  consParams ← Pool.or_panic params "consensus params";
  if is_empty (cachedConsParams n) then
    match Block consParams with
    | None => Ok {| CurEipState := CurEipState n; TargetGas := TargetGas n; cachedConsParams := consParams |}
    | Some maxGas =>
      if (maxGas =? 0) || (maxGas =? -1) then
        Ok {| CurEipState := CurEipState n; TargetGas := TargetGas n; cachedConsParams := consParams |}
      else
        newBlockMaxGas ← target_of maxGas;
        Ok {| CurEipState := CurEipState n; TargetGas := newBlockMaxGas; cachedConsParams := consParams |}
    end
  else
    match Block consParams, Block (cachedConsParams n) with
    | Some maxGas, Some cachedMaxGas =>
      if maxGas =? cachedMaxGas then Ok n
      else if maxGas =? -1 then Ok n
      else
        newBlockMaxGas ← target_of maxGas;
        Ok {| CurEipState := CurEipState n; TargetGas := newBlockMaxGas; cachedConsParams := consParams |}
    | _, _ => Panic "nil pointer dereference"
    end.

Definition BeginBlock (backup : option Dec.t) (params : outcome ConsensusParams) (height : Z) (n : Node)
    : outcome Node :=
  CheckAndSetTargetGas params (BeginBlockCode backup height n).
Definition EndBlock (height : Z) (n : Node) : outcome Node := EndBlockCode height n.
End fees.
End Eip1559.

Module Eip1559Props.
Import Eip1559.

Record block := {
  backup : option Dec.t;
  consensus : outcome ConsensusParams;
  height : Z;
  gases : list Z
}.
Definition in_bounds (f : Dec.t) : Prop := Dec.i MinBaseFee ≤ Dec.i f ≤ Dec.i MaxBaseFee.

(** The backup file was written by this code; CometBFT allows a gas limit of -1 or more. *)
Record good_block (b : block) : Prop := {
  good_backup f : backup b = Some f → in_bounds f;
  good_limit p m : consensus b = Ok p → Block p = Some m → -1 ≤ m < 2 ^ 63;
  good_gas : Forall (λ g, 0 ≤ g) (gases b);
  good_total : sumZ (λ g, g) (gases b) < 2 ^ 62
}.

Lemma wrap64_id n : - 2 ^ 63 ≤ n < 2 ^ 63 → wrap64 n = n.
Proof.
  intros H. unfold wrap64, CLKeys.to_int64, CLKeys.to_uint64. destruct (Z.ltb_spec (n mod 2 ^ 64) (2 ^ 63)) as [Hl|Hl].
  - destruct (Z_lt_le_dec n 0) as [Hn|Hn]; [|by rewrite Z.mod_small in * by lia].
    rewrite (Z.mod_eq n (2 ^ 64)) in * by done. assert (n / 2 ^ 64 = -1) as E.
    { symmetry. apply (Z.div_unique_pos _ _ _ (n + 2 ^ 64)); lia. } rewrite E in *. lia.
  - destruct (Z_lt_le_dec n 0) as [Hn|Hn]; [|rewrite Z.mod_small in * by lia; lia].
    rewrite (Z.mod_eq n (2 ^ 64)) by done. assert (n / 2 ^ 64 = -1) as ->; [|lia].
    symmetry. apply (Z.div_unique_pos _ _ _ (n + 2 ^ 64)); lia.
Qed.

Lemma sum_nonneg gs : Forall (λ g, 0 ≤ g) gs → 0 ≤ sumZ (λ g, g) gs.
Proof. induction 1; cbn [sumZ]; lia. Qed.

Lemma abs_scale k a b : 0 ≤ k → 2 * Z.abs a ≤ b → 2 * Z.abs (k * a) ≤ k * b.
Proof. intros Hk H. rewrite Z.abs_mul, (Z.abs_eq k) by done. nia. Qed.

(** The gas of a block adds up. *)
Lemma delivered gs n :
  Forall (λ g, 0 ≤ g) gs → 0 ≤ totalGasWantedThisBlock (CurEipState n) →
  totalGasWantedThisBlock (CurEipState n) + sumZ (λ g, g) gs < 2 ^ 62 →
  foldl (λ n g, DeliverTxCode g n) n gs =
  set_eip {| currentBlockHeight := currentBlockHeight (CurEipState n);
             totalGasWantedThisBlock := totalGasWantedThisBlock (CurEipState n) + sumZ (λ g, g) gs;
             CurBaseFee := CurBaseFee (CurEipState n) |} n.
Proof.
  intros H. revert n. induction H as [|g gs Hg Hgs IH]; intros n Hn Hs; cbn [foldl sumZ] in *.
  - destruct n as [[]]. unfold set_eip. cbn. by rewrite Z.add_0_r.
  - pose proof (sum_nonneg gs Hgs).
    assert (wrap64 (totalGasWantedThisBlock (CurEipState n) + wrap64 g) = totalGasWantedThisBlock (CurEipState n) + g) as E
      by (rewrite (wrap64_id g), wrap64_id; lia).
    rewrite IH; unfold DeliverTxCode, deliverTxCode, set_eip; cbn; rewrite ?E; [|lia..].
    do 2 f_equal. lia.
Qed.

Lemma default_in_bounds : in_bounds DefaultBaseFee.
Proof. split; vm_compute; discriminate. Qed.

Lemma min_in_bounds : in_bounds MinBaseFee.
Proof. split; vm_compute; discriminate. Qed.

Lemma min_pos : 0 < Dec.i MinBaseFee.
Proof. done. Qed.

Section laws.
  Context {D : sdk.LegacyDec} {L : sdk.LegacyDecLaws D}.

Definition run_block (b : block) (n : Node) : outcome Node :=
  n ← BeginBlock (backup b) (consensus b) (height b) n;
  EndBlock (height b) (foldl (λ n g, DeliverTxCode g n) n (gases b)).
Fixpoint run_blocks (bs : list block) (n : Node) : outcome Node :=
  match bs with [] => Ok n | b :: bs => n ← run_block b n; run_blocks bs n end.

(** *** One update *)

Lemma rate_eq r : MaxBlockChangeRate = Ok r → Dec.i r = 10 ^ 17.
Proof using L. unfold MaxBlockChangeRate. intros [_ H]%sdk.Quo_spec.
  cbn [Dec.i Dec.NewDec] in H. unfold Dec.one in H.
  lia.
Qed.

Definition clamp (x : Z) : Z := Z.min (Dec.i MaxBaseFee) (Z.max (Dec.i MinBaseFee) x).

(** The unclamped fee: its equation up to rounding, and the exact rate of an empty block. *)
Lemma updated_fee target h e e' :
  0 ≤ totalGasWantedThisBlock e < 2 ^ 62 → 0 < target < 2 ^ 63 → 0 ≤ Dec.i (CurBaseFee e) ≤ Dec.i MaxBaseFee →
  updateBaseFee target h e = Ok e' →
  ∃ x, Dec.i (CurBaseFee e') = clamp x ∧
    Z.abs (10 * target * x - Dec.i (CurBaseFee e) * (9 * target + totalGasWantedThisBlock e)) ≤ 33 * target ∧
    9 * Dec.i (CurBaseFee e) - 5 ≤ 10 * x ∧
    (totalGasWantedThisBlock e = 0 → 10 * x ≤ 9 * Dec.i (CurBaseFee e) + 5).
Proof using L.
  intros Hg HT Hf. unfold updateBaseFee. cbv zeta.
  rewrite (wrap64_id (_ - _)) by lia.
  set (g := totalGasWantedThisBlock e) in *. set (f := Dec.i (CurBaseFee e)) in *.
  intros (rate & Hr%rate_eq & H)%bind_Ok. apply bind_Ok in H as (q & [_ Hq]%sdk.Quo_spec & H).
  apply bind_Ok in H as (inc & Hi%sdk.Mul_spec & H). apply bind_Ok in H as (mul & Hm%sdk.Add_spec & H).
  apply bind_Ok in H as (x & Hx%sdk.Mul_spec & H). injection H as <-. exists (Dec.i x).
  cbn [CurBaseFee]. fold f in Hx. split.
  { rewrite sdk.LT_spec. unfold clamp. destruct (Z.ltb_spec (Dec.i x) (Dec.i MinBaseFee));
      rewrite sdk.GT_spec; case_match; lia. }
  cbn [Dec.i Dec.NewDec] in Hq, Hm. rewrite Hr in Hi. change (Dec.i MaxBaseFee) with (5 * Dec.one) in Hf.
  assert (2 * Z.abs (target * Dec.i q - (g - target) * Dec.one) ≤ target) as Hq' by (unfold Dec.one in *; nia).
  assert (2 * Z.abs (10 * Dec.i inc - Dec.i q) ≤ 10) as Hi' by (unfold Dec.one in *; lia).
  assert (- Dec.one ≤ Dec.i q) as Hq1 by (unfold Dec.one in *; nia).
  assert (- 10 ^ 17 ≤ Dec.i inc) as Hi1 by (unfold Dec.one in *; lia).
  assert (9 * 10 ^ 17 ≤ Dec.i mul) as Hm1 by (unfold Dec.one in *; lia).
  split; [|split].
  - pose proof (abs_scale target _ _ ltac:(lia) Hi') as E1.
    assert (2 * Z.abs (10 * target * Dec.i mul - Dec.one * (9 * target + g)) ≤ 11 * target) as E2 by lia.
    pose proof (abs_scale f _ _ ltac:(lia) E2) as E3. pose proof (abs_scale (10 * target) _ _ ltac:(lia) Hx) as E4.
    pose proof (Z.mul_le_mono_nonneg_r f (5 * Dec.one) (11 * target) ltac:(lia) ltac:(lia)) as E6.
    clear Hq Hi Hm Hq' Hi' E1 E2.
    assert (2 * Z.abs (Dec.one * (10 * target * Dec.i x - f * (9 * target + g))) ≤ 65 * target * Dec.one) as E5 by lia.
    rewrite Z.abs_mul, (Z.abs_eq Dec.one) in E5 by done. unfold Dec.one in E5. lia.
  - unfold Dec.one in *. nia.
  - intros Hg0. rewrite Hg0 in *. assert (Dec.i q = - Dec.one) as Eq by (unfold Dec.one in *; nia).
    assert (Dec.i mul = 9 * 10 ^ 17) as Em by (unfold Dec.one in *; lia). rewrite Em in Hx. unfold Dec.one in *. lia.
Qed.
(** *** Blocks *)

Lemma target_range m t : -1 ≤ m < 2 ^ 63 → target_of m = Ok t → 0 ≤ t < 2 ^ 63.
Proof using L.
  intros Hm. unfold target_of. intros (x & Hx%sdk.Mul_spec & H)%bind_Ok.
  apply bind_Ok in H as (i & Hi%sdk.TruncateInt_spec & [-> Ht]%sdk.IntInt64_spec). split; [|lia].
  cbn [Dec.i Dec.NewDec TargetBlockSpacePercent] in Hx.
  assert (Dec.i x = 625 * 10 ^ 15 * m) as E by (unfold Dec.one in *; lia).
  rewrite Hi, E. destruct (Z.eq_dec m (-1)) as [->|]; [done|]. apply Z.quot_pos; [lia|done].
Qed.

(** What a node keeps between blocks: no fee before the first block, one in the bounds after. *)
Record fee_inv (n : Node) : Prop := {
  fee_range : Dec.i (CurBaseFee (CurEipState n)) = 0 ∨ in_bounds (CurBaseFee (CurEipState n));
  target_ok : 0 ≤ TargetGas n < 2 ^ 63
}.

Lemma begin_block b n n' :
  good_block b → fee_inv n → BeginBlock (backup b) (consensus b) (height b) n = Ok n' →
  CurEipState n' = startBlock (backup b) (height b) (CurEipState n) ∧
  in_bounds (CurBaseFee (CurEipState n')) ∧ 0 ≤ TargetGas n' < 2 ^ 63.
Proof using L.
  intros [Hb Hl _ _] [Hf HT]. unfold BeginBlock, CheckAndSetTargetGas.
  destruct (consensus b) as [p| |]; [|done..]. cbn [Pool.or_panic mbind outcome_bind].
  set (e := startBlock (backup b) (height b) (CurEipState n)).
  assert (in_bounds (CurBaseFee e)) as He.
  { subst e. unfold startBlock, tryLoad. cbn [CurBaseFee]. rewrite sdk.Equal_spec.
    case_match; [apply default_in_bounds|]. cbn [Dec.i Dec.NewDec].
    destruct (Z.eqb_spec (Dec.i (CurBaseFee (CurEipState n))) (0 * Dec.one)) as [Hz|Hz].
    - destruct (backup b) as [f|]; cbn [default]; [by apply Hb|apply min_in_bounds].
    - destruct Hf as [Hf|Hf]; [lia|done]. }
  assert (∀ m x, Block p = Some m → target_of m = Ok x → 0 ≤ x < 2 ^ 63) as Hx.
  { intros m x Hm. apply target_range. by eapply Hl. }
  unfold BeginBlockCode. cbn [cachedConsParams set_eip CurEipState TargetGas]. fold e.
  destruct (is_empty (cachedConsParams n)).
  - destruct (Block p) as [m|]; [|by intros [= <-]]. case_match; [by intros [= <-]|].
    intros (x & Ht & [= <-])%bind_Ok. split_and!; [done..| |]; cbn [TargetGas]; by eapply Hx.
  - destruct (Block p) as [m|]; [|done]. destruct (Block (cachedConsParams n)) as [c|]; [|done].
    do 2 (case_match; [by intros [= <-]|]).
    intros (x & Ht & [= <-])%bind_Ok. split_and!; [done..| |]; cbn [TargetGas]; by eapply Hx.
Qed.

Lemma clamp_bounds x : Dec.i MinBaseFee ≤ clamp x ≤ Dec.i MaxBaseFee.
Proof. pose proof min_in_bounds as [_ H]. unfold clamp. lia. Qed.

(** A target of zero is a division by zero. *)
Lemma target_nonzero target h e e' : updateBaseFee target h e = Ok e' → target ≠ 0.
Proof using L.
  unfold updateBaseFee. cbv zeta. intros (? & _ & H)%bind_Ok. apply bind_Ok in H as (? & [H0 _]%sdk.Quo_spec & _).
  cbn [Dec.i Dec.NewDec] in H0. lia.
Qed.

(** One block, with the fee in force during it. *)
Lemma block_spec b n n' :
  good_block b → fee_inv n → run_block b n = Ok n' →
  let fee := CurBaseFee (startBlock (backup b) (height b) (CurEipState n)) in
  fee_inv n' ∧ in_bounds (CurBaseFee (CurEipState n')) ∧ in_bounds fee ∧
  (TargetGas n' ≠ 0 ∧ ∃ x, Dec.i (CurBaseFee (CurEipState n')) = clamp x ∧
    Z.abs (10 * TargetGas n' * x - Dec.i fee * (9 * TargetGas n' + sumZ (λ g, g) (gases b))) ≤ 33 * TargetGas n' ∧
    9 * Dec.i fee - 5 ≤ 10 * x ∧ (sumZ (λ g, g) (gases b) = 0 → 10 * x ≤ 9 * Dec.i fee + 5)).
Proof using L.
  intros Hb Hn. unfold run_block. intros (n1 & (E1 & Hf & HT)%begin_block & H)%bind_Ok; [|done..].
  set (fee := CurBaseFee (startBlock _ _ _)). assert (CurBaseFee (CurEipState n1) = fee) as Ef by by rewrite E1.
  assert (totalGasWantedThisBlock (CurEipState n1) = 0) as E0 by by rewrite E1.
  pose proof (sum_nonneg _ (good_gas b Hb)) as Hs. pose proof (good_total b Hb) as Ht.
  rewrite delivered in H by (rewrite ?E0; auto using good_gas with lia). rewrite E0, Z.add_0_l in H.
  unfold EndBlock, EndBlockCode in H. apply bind_Ok in H as (e & He & [= <-]).
  cbn [TargetGas CurEipState set_eip] in *.
  assert (in_bounds (CurBaseFee e)) as Hbe.
  { unfold updateBaseFee in He. cbv zeta in He. repeat (apply bind_Ok in He as (? & _ & He)).
    injection He as <-. unfold in_bounds. cbn [CurBaseFee]. rewrite sdk.GT_spec, sdk.LT_spec.
    pose proof min_in_bounds as [_ ?]. repeat case_match; lia. }
  split; [split; [by right|done]|]. split; [done|]. rewrite <- Ef. split; [done|].
  assert (TargetGas n1 ≠ 0) as HT0 by by eapply target_nonzero.
  split; [done|]. apply updated_fee in He; cbn [totalGasWantedThisBlock CurBaseFee] in *; [done|lia..|].
  destruct Hf as [Hf ?]. pose proof min_pos. lia.
Qed.

Definition reachable (n : Node) : Prop :=
  ∃ bs, Forall good_block bs ∧ run_blocks bs initialNode = Ok n.

Lemma run_inv bs n n' : Forall good_block bs → fee_inv n → run_blocks bs n = Ok n' → fee_inv n'.
Proof using L.
  intros H. revert n. induction H as [|b bs Hb _ IH]; intros n Hn; cbn [run_blocks]; [by intros [= <-]|].
  intros (n1 & (Hn1 & _)%block_spec & H)%bind_Ok; [by eapply IH|done..].
Qed.

Lemma eip_reachable_inv n : reachable n → fee_inv n.
Proof using L. intros (bs & Hbs & H). eapply run_inv; [done| |done]. by split; [left|]. Qed.

(** C29.  The base fee follows its equation.  Over a block that demands [gas] units against a target of [T],
    the fee becomes [fee * (1 + (gas - T) / T / 10)], up to four units of the last place, forced into
    its bounds; so it loses at most a tenth (and half a unit) in a block. *)
Theorem base_fee_follows_gas b n n' :
  reachable n → good_block b → run_block b n = Ok n' →
  let fee := Dec.i (CurBaseFee (startBlock (backup b) (height b) (CurEipState n))) in
  let new := Dec.i (CurBaseFee (CurEipState n')) in
  let T := TargetGas n' in
  let gas := sumZ (λ g, g) (gases b) in
  Dec.i MinBaseFee ≤ new ≤ Dec.i MaxBaseFee ∧
  (∃ x, new = clamp x ∧ Z.abs (10 * T * x - fee * (9 * T + gas)) < 4 * (10 * T)) ∧
  9 * fee - 5 ≤ 10 * new.
Proof using L.
  intros Hn%eip_reachable_inv Hb H.
  apply block_spec in H as (Hn' & Hnew & Hfee & HT & x & Ex & Hx1 & Hx2 & _); [|done..]. cbv zeta. rewrite Ex. pose proof (clamp_bounds x).
  pose proof (target_ok _ Hn'). split; [done|]. split; [exists x; split; [done|lia]|].
  destruct Hfee as [Hf1 Hf2]. pose proof min_pos. unfold clamp. lia.
Qed.

(** *** Empty blocks *)

Definition empty_bound (x : Z) : Z := Z.max (Dec.i MinBaseFee) ((9 * x + 5) / 10).

Lemma empty_block b n n' u :
  good_block b → gases b = [] → Z.rem (height b) ResetInterval ≠ 0 → fee_inv n →
  Dec.i (CurBaseFee (CurEipState n)) ≤ u → Dec.i MinBaseFee ≤ u →
  (Dec.i (CurBaseFee (CurEipState n)) = 0 → Dec.i MaxBaseFee ≤ u) →
  run_block b n = Ok n' → Dec.i (CurBaseFee (CurEipState n')) ≤ empty_bound u.
Proof using L.
  intros Hb Hg Hr Hn Hu Hmin H0 H.
  apply block_spec in H as (_ & _ & Hfee & _ & x & -> & _ & _ & Hx3); [|done..]. rewrite Hg in Hx3. specialize (Hx3 eq_refl).
  assert (Dec.i (CurBaseFee (startBlock (backup b) (height b) (CurEipState n))) ≤ u) as Hle.
  { revert Hfee. unfold startBlock, in_bounds. cbn [CurBaseFee]. rewrite sdk.Equal_spec.
    destruct (Z.eqb_spec (Z.rem (height b) ResetInterval) 0); [done|].
    destruct (Z.eqb_spec (Dec.i (CurBaseFee (CurEipState n))) (Dec.i (Dec.NewDec 0))) as [Hz|Hz]; [|lia].
    specialize (H0 Hz). lia. }
  unfold clamp, empty_bound. assert (x ≤ (9 * u + 5) / 10) by (apply Z.div_le_lower_bound; lia). lia.
Qed.

Lemma empty_bound_min k : Nat.iter k empty_bound (Dec.i MinBaseFee) = Dec.i MinBaseFee.
Proof. induction k as [|k IH]; [done|]. by rewrite Nat.iter_succ, IH. Qed.

Definition quiet (b : block) : Prop := gases b = [] ∧ Z.rem (height b) ResetInterval ≠ 0.

Lemma quiet_blocks bs n n' u :
  Forall good_block bs → Forall quiet bs → fee_inv n → bs ≠ [] →
  Dec.i (CurBaseFee (CurEipState n)) ≤ u → Dec.i MinBaseFee ≤ u →
  (Dec.i (CurBaseFee (CurEipState n)) = 0 → Dec.i MaxBaseFee ≤ u) →
  run_blocks bs n = Ok n' →
  in_bounds (CurBaseFee (CurEipState n')) ∧
  Dec.i (CurBaseFee (CurEipState n')) ≤ Nat.iter (length bs) empty_bound u.
Proof using L.
  intros Hbs. revert n u. induction Hbs as [|b bs Hb Hbs IH]; [done|].
  intros n u [[Hg Hh] Hq]%Forall_cons Hn _ Hu Hmin H0. cbn [run_blocks]. intros (n1 & H & Hrun)%bind_Ok.
  pose proof (empty_block _ _ _ u Hb Hg Hh Hn Hu Hmin H0 H) as Hle.
  apply block_spec in H as (Hn1 & Hb1 & _); [|done..]. cbn [length]. rewrite Nat.iter_succ_r.
  destruct bs as [|b' bs]; [by injection Hrun as <-|]. apply IH with n1; try done.
  - unfold empty_bound. lia.
  - intros E. destruct Hb1 as [Hb1 _]. pose proof min_pos. lia.
Qed.

(** C30.  The base fee recovers: after 73 or more blocks without gas and without a reset height, from any
    state of the node, it is at its minimum. *)
Theorem base_fee_recovers bs n n' :
  reachable n → Forall good_block bs → Forall quiet bs → (73 ≤ length bs)%nat → run_blocks bs n = Ok n' →
  CurBaseFee (CurEipState n') = MinBaseFee.
Proof using L.
  intros Hn%eip_reachable_inv Hbs Hq Hl H. pose proof min_in_bounds as [_ Hm].
  apply (quiet_blocks _ _ _ (Dec.i MaxBaseFee)) in H as [[Hlo _] Hhi]; try done.
  - replace (length bs) with ((length bs - 73) + 73)%nat in Hhi by lia. rewrite Nat.iter_add in Hhi.
    replace (Nat.iter 73 empty_bound (Dec.i MaxBaseFee)) with (Dec.i MinBaseFee) in Hhi by by vm_compute.
    rewrite empty_bound_min in Hhi. destruct (CurBaseFee (CurEipState n')) as [f]. cbn [Dec.i] in *.
    by replace f with (Dec.i MinBaseFee) by lia.
  - intros ->. cbn in Hl. lia.
  - destruct (fee_range _ Hn) as [->|[_ ?]]; [|done]. pose proof min_pos. lia.
Qed.
End laws.

(** *** A history: a full block, then empty ones *)

Definition demo_block (h : Z) (gs : list Z) : block :=
  {| backup := None; consensus := Ok {| Block := Some 300000000; OtherSections := true |};
     height := h; gases := gs |}.
Definition demo_full : list block := [demo_block 1 [100000000; 200000000]; demo_block 2 [300000000]].
Definition demo_empty : list block := (λ h, demo_block (Z.of_nat h) []) <$> seq 3 73.
Definition demo_node : Node :=
  match run_blocks (D := sdk.ref_dec) demo_full initialNode with Ok n => n | _ => initialNode end.
Definition demo_next : Node :=
  match run_block (D := sdk.ref_dec) (demo_block 3 [250000000]) demo_node with Ok n => n | _ => initialNode end.
Definition demo_quiet : Node :=
  match run_blocks (D := sdk.ref_dec) demo_empty demo_node with Ok n => n | _ => initialNode end.

Lemma eip_demo_good h gs : Forall (λ g, 0 ≤ g) gs → sumZ (λ g, g) gs < 2 ^ 62 → good_block (demo_block h gs).
Proof. intros ? ?. split; [done| |done..]. intros p m [= <-] [= <-]. lia. Qed.

Ltac demo_gas := apply eip_demo_good; [repeat (constructor; [done|]); constructor|done].

Lemma eip_demo_reachable : reachable (D := sdk.ref_dec) demo_node.
Proof.
  exists demo_full. split; [|by vm_compute].
  constructor; [demo_gas|constructor; [demo_gas|constructor]].
Qed.

Lemma base_fee_follows_gas_witness :
  Dec.i (CurBaseFee (CurEipState demo_node)) = 2809000000000000 ∧
  Dec.i (CurBaseFee (CurEipState demo_next)) = 2902633333333333 ∧
  9 * 2809000000000000 - 5 ≤ 10 * Dec.i (CurBaseFee (CurEipState demo_next)).
Proof.
  split; [by vm_compute|]. split; [by vm_compute|].
  apply (base_fee_follows_gas (D := sdk.ref_dec) (L := sdk.ref_dec_laws) (demo_block 3 [250000000])
    demo_node demo_next eip_demo_reachable).
  - demo_gas.
  - by vm_compute.
Defined.

Lemma base_fee_recovers_witness :
  length demo_empty = 73%nat ∧ CurBaseFee (CurEipState demo_quiet) = MinBaseFee.
Proof.
  split; [done|].
  apply (base_fee_recovers (D := sdk.ref_dec) (L := sdk.ref_dec_laws) demo_empty demo_node demo_quiet
    eip_demo_reachable).
  - apply Forall_fmap, Forall_true. intros h. cbn. demo_gas.
  - apply Forall_fmap, Forall_forall. intros h Hh. split; [done|]. cbn [height demo_block compose].
    apply elem_of_seq in Hh. unfold ResetInterval. rewrite Z.rem_small by lia. lia.
  - done.
  - by vm_compute.
Defined.
End Eip1559Props.
