(* ===== verification/ArbFilter.v ===== *)
(** Which transactions the mempool takes for an arbitrage: x/txfees/keeper/txfee_filters/arb_tx.go, with the
    messages it looks at (x/poolmanager/types/msg_swap.go, x/gamm/types/msg_swap.go, msg_lp.go).

    A message is cut down to what the filter and the fee decorator read of it.  Reading JSON is an
    argument: [Json] gives the tree of a text and the two structures it may hold. *)
From stdpp Require Import prelude strings list gmap.
From S2P Require Import Prelude.
From S2P Require Import SdkCoins.
Local Open Scope Z_scope.

Module ArbFilter.

(** *** Swaps *)

Record SwapAmountInRoute := { InPoolId : Z; RouteTokenOutDenom : string }.
Record SwapAmountOutRoute := { OutPoolId : Z; RouteTokenInDenom : string }.
Record AffiliateSwapMsg := { Routes : list SwapAmountInRoute; TokenIn : string }.
Record ContractSwapMsg := { InputCoinDenom : string; OutputDenom : string }.

(** The types that implement [SwapMsgRoute]. *)
Inductive SwapMsg :=
| SwapExactAmountIn (routes : list SwapAmountInRoute) (tokenIn : coin.Coin)
| SwapExactAmountOut (routes : list SwapAmountOutRoute) (tokenOut : coin.Coin)
| SplitRouteIn (pools : list SwapAmountInRoute) (inDenom : string)
| SplitRouteOut (pools : list SwapAmountOutRoute) (outDenom : string)
| AffiliateSwap (msg : AffiliateSwapMsg)
| ContractSwap (msg : ContractSwapMsg).

(** [l[0]] and [l[len(l)-1]], which panic on an empty slice. *)
Definition first_of {A} (l : list A) : outcome A :=
  match l with [] => Panic "index out of range" | x :: _ => Ok x end.
Definition last_of {A} (l : list A) : outcome A :=
  match last l with None => Panic "index out of range" | Some x => Ok x end.

Definition TokenInDenom (m : SwapMsg) : outcome string :=
  match m with
  | SwapExactAmountIn _ tokenIn => Ok (coin.Denom tokenIn)
  | SwapExactAmountOut routes _ => RouteTokenInDenom <$> first_of routes
  | SplitRouteIn _ inDenom => Ok inDenom
  | SplitRouteOut pools _ => RouteTokenInDenom <$> first_of pools
  | AffiliateSwap msg => Ok (TokenIn msg)
  | ContractSwap msg => Ok (InputCoinDenom msg)
  end.
Definition TokenOutDenom (m : SwapMsg) : outcome string :=
  match m with
  | SwapExactAmountIn routes _ => RouteTokenOutDenom <$> last_of routes
  | SwapExactAmountOut _ tokenOut => Ok (coin.Denom tokenOut)
  | SplitRouteIn pools _ => RouteTokenOutDenom <$> last_of pools
  | SplitRouteOut _ outDenom => Ok outDenom
  | AffiliateSwap msg =>
    Ok (match last (Routes msg) with None => "no-token-out"%string | Some r => RouteTokenOutDenom r end)
  | ContractSwap msg => Ok (OutputDenom msg)
  end.

(** *** Messages *)

Definition AddLiquidity : Z := 0.
Definition RemoveLiquidity : Z := 1.

Inductive Msg :=
| MsgExec (msgs : list Msg)
| MsgExecuteContract (funds : coin.Coins) (contractMessage : string)
| MsgSwap (swap : SwapMsg)
| MsgSplitRouteSwapExactAmountIn (routes : list (list SwapAmountInRoute)) (tokenInDenom : string)
| MsgSplitRouteSwapExactAmountOut (routes : list (list SwapAmountOutRoute)) (tokenOutDenom : string)
| MsgLiquidity (change : Z)
| MsgTransfer (size : Z) (memo receiver : string)
| MsgSendTx (packetSize : Z) (owner : string)
| MsgOther.

Definition GetSwapMsgs (msg : Msg) : option (list SwapMsg) :=
  match msg with
  | MsgSplitRouteSwapExactAmountIn routes tokenInDenom =>
    Some ((λ pools, SplitRouteIn pools tokenInDenom) <$> routes)
  | MsgSplitRouteSwapExactAmountOut routes tokenOutDenom =>
    Some ((λ pools, SplitRouteOut pools tokenOutDenom) <$> routes)
  | _ => None
  end.
(** The type assertions to [LiquidityChangeMsg] and [SwapMsgRoute]. *)
Definition LiquidityChangeType (msg : Msg) : option Z :=
  match msg with MsgLiquidity change => Some change | _ => None end.
Definition SwapMsgRoute (msg : Msg) : option SwapMsg :=
  match msg with MsgSwap swap => Some swap | _ => None end.

(** *** JSON *)

Inductive json :=
| JObject (fields : list (string * json))
| JArray (items : list json)
| JString (s : string)
| JOther.
Class Json : Type := {
  UnmarshalObject : string → option (list (string * json));
  UnmarshalAffiliateSwap : string → option AffiliateSwapMsg;
  UnmarshalContractSwap : string → option ContractSwapMsg;
}.
(** Of several fields of one name the last one counts. *)
Fixpoint field (key : string) (fields : list (string * json)) : option json :=
  match fields with
  | [] => None
  | (k, v) :: fields =>
    match field key fields with
    | Some w => Some w
    | None => if String.eqb k key then Some v else None
    end
  end.

(** The state of the loop over messages: the denomination seen so far, the verdict, and the kinds of
    liquidity change seen, a map that all calls share. *)
Definition verdict : Type := string * bool * gset Z.

Section filter.
  Context {J : Json}.

Definition isAffiliateSwapMsg (msg : string) : bool :=
  match UnmarshalObject msg with
  | None => false
  | Some jsonObject =>
    match field "swap" jsonObject with
    | Some (JObject swap) =>
      match field "routes" swap with
      | Some (JArray (_ :: _)) =>
        match field "token_out_min_amount" swap with Some (JObject (_ :: _)) => true | _ => false end
      | _ => false
      end
    | _ => false
    end
  end.
Definition isContractSwapContractMsg (msg : string) : bool :=
  match UnmarshalObject msg with
  | None => false
  | Some jsonObject =>
    match field "swap" jsonObject with
    | Some (JObject swap) =>
      match field "input_coin" swap with
      | Some (JObject (_ :: _)) =>
        match field "output_denom" swap with
        | Some (JString d) => negb (String.eqb d "")
        | _ => false
        end
      | _ => false
      end
    | _ => false
    end
  end.

Definition isArbTxLooseSwapMsg (swapMsg : SwapMsg) (swapInDenom : string) : outcome (string * bool) :=
  inDenom ← TokenInDenom swapMsg;
  outDenom ← TokenOutDenom swapMsg;
  if String.eqb inDenom outDenom then Ok (swapInDenom, true)
  else if negb (String.eqb swapInDenom "") && negb (String.eqb inDenom swapInDenom) then Ok (swapInDenom, true)
  else Ok (inDenom, false).

(** A loop whose body declares its own [swapInDenom]: each round starts from the one outside, and only
    the round that answers true returns its own. *)
Fixpoint until_arb {A} (f : A → gset Z → outcome verdict) (l : list A) (swapInDenom : string)
    (lpTypesSeen : gset Z) : outcome verdict :=
  match l with
  | [] => Ok (swapInDenom, false, lpTypesSeen)
  | x :: l =>
    '(d, isArb, lpTypesSeen) ← f x lpTypesSeen;
    if isArb : bool then Ok (d, true, lpTypesSeen) else until_arb f l swapInDenom lpTypesSeen
  end.
Definition with_seen (lpTypesSeen : gset Z) (r : outcome (string * bool)) : outcome verdict :=
  '(d, isArb) ← r; Ok (d, isArb, lpTypesSeen).

Definition isArbContractCall (funds : coin.Coins) (contractMessage : string) (swapInDenom : string)
    : outcome (string * bool) :=
  match funds with
  | [tokenIn] =>
    let isAffiliateSwap := isAffiliateSwapMsg contractMessage in
    let isContractSwap := isContractSwapContractMsg contractMessage in
    if negb isAffiliateSwap && negb isContractSwap then Ok (swapInDenom, false) else
    (* [None]: go on; [Some r]: return r *)
    first ← (if isAffiliateSwap then
               match UnmarshalAffiliateSwap contractMessage with
               | None => Ok (Some (swapInDenom, false))
               | Some m =>
                 '(d, isArb) ← isArbTxLooseSwapMsg
                   (AffiliateSwap {| Routes := Routes m; TokenIn := coin.Denom tokenIn |}) swapInDenom;
                 Ok (if isArb : bool then Some (d, true) else None)
               end
             else Ok None);
    match first with
    | Some r => Ok r
    | None =>
      if isContractSwap then
        match UnmarshalContractSwap contractMessage with
        | None => Ok (swapInDenom, false)
        | Some m =>
          '(d, isArb) ← isArbTxLooseSwapMsg (ContractSwap m) swapInDenom;
          if isArb : bool then Ok (d, true) else
          '(d, isArb) ← isArbTxLooseSwapMsg
            (ContractSwap {| InputCoinDenom := coin.Denom tokenIn; OutputDenom := OutputDenom m |}) d;
          if isArb : bool then Ok (d, true) else Ok (swapInDenom, false)
        end
      else Ok (swapInDenom, false)
    end
  | _ => Ok (swapInDenom, false)
  end.

Fixpoint isArbTxLooseAuthz (msg : Msg) (swapInDenom : string) (lpTypesSeen : gset Z) : outcome verdict :=
  match msg with
  | MsgExec msgs =>
    until_arb (λ m seen, isArbTxLooseAuthz m swapInDenom seen) msgs swapInDenom lpTypesSeen
  | MsgExecuteContract funds contractMessage =>
    with_seen lpTypesSeen (isArbContractCall funds contractMessage swapInDenom)
  | _ =>
    let lpTypesSeen :=
      match LiquidityChangeType msg with Some t => {[t]} ∪ lpTypesSeen | None => lpTypesSeen end in
    if (match LiquidityChangeType msg with Some _ => Z.of_nat (size lpTypesSeen) >? 1 | None => false end)
    then Ok (swapInDenom, true, lpTypesSeen)
    else
      match GetSwapMsgs msg with
      | Some swaps =>
        until_arb (λ m seen, with_seen seen (isArbTxLooseSwapMsg m swapInDenom)) swaps swapInDenom lpTypesSeen
      | None =>
        match SwapMsgRoute msg with
        | None => Ok (swapInDenom, false, lpTypesSeen)
        | Some swap => with_seen lpTypesSeen (isArbTxLooseSwapMsg swap swapInDenom)
        end
      end
  end.

(** The loop over the messages of a transaction keeps what each one returns. *)
Fixpoint arb_loop (msgs : list Msg) (swapInDenom : string) (lpTypesSeen : gset Z) : outcome bool :=
  match msgs with
  | [] => Ok false
  | m :: msgs =>
    '(swapInDenom, isArb, lpTypesSeen) ← isArbTxLooseAuthz m swapInDenom lpTypesSeen;
    if isArb : bool then Ok true else arb_loop msgs swapInDenom lpTypesSeen
  end.
Definition IsArbTxLoose (msgs : list Msg) : outcome bool := arb_loop msgs "" ∅.
End filter.
End ArbFilter.
