(* ===== verification/TxFees.v ===== *)
(** Transaction fees: x/txfees/keeper (feetokens.go, feedecorator.go, genesis.go, gov.go, msg_server.go) and
    x/txfees/types (constants.go, options.go).

    The pool manager, accounts, bank, fee grants and the validation of denominations are arguments of
    the model.  The fee market of [Eip1559] is a variable of the node, so its changes stay even when the
    handler that made them fails. *)
From stdpp Require Import prelude strings list gmap sorting.
From S2P Require Import Prelude.
From S2P Require Import GoBig.
From S2P Require Import GoState.
From S2P Require Import SdkDec.
From S2P Require Import SdkCoins.
From S2P Require Import Decimal.
From S2P Require Import KV.
From S2P Require Import CLPool.
From S2P Require Import Eip1559.
From S2P Require Import ArbFilter.
Local Open Scope Z_scope.

Module TxFees.
Record FeeToken := { Denom : string; PoolID : Z }.
Record Params := { WhitelistedFeeTokenSetters : list string }.
Record GenesisState := { Basedenom : string; Feetokens : list FeeToken; GParams : Params }.

(** Methods of coins that only this module uses, and [sdk.ValidateDenom]. *)
Class FeeCoins : Type := {
  IsGTE : coin.Coin → coin.Coin → outcome bool;
  DecAmountOf : coin.DecCoins → string → outcome Dec.t;
  CoinsIsValid : coin.Coins → bool;
  ValidateDenom : string → outcome unit;
}.
(** [IsGTE] compares amounts, and panics for different denominations. *)
Class FeeCoinsLaws (F : FeeCoins) : Prop := {
  IsGTE_spec a b r : IsGTE a b = Ok r →
    coin.Denom a = coin.Denom b ∧ r = (SdkInt.i (coin.Amount b) <=? SdkInt.i (coin.Amount a));
}.

(** The pool manager's spot prices. *)
Definition Prices : Type := Z → string → string → outcome BigDec.t.

(** *** types/constants.go and types/options.go *)

Definition ConsensusMinFee : Dec.t := Dec.mk (25 * 10 ^ 14).
Record MempoolFeeOptions := {
  MaxGasWantedPerTx : Z;
  MinGasPriceForArbitrageTx : Dec.t;
  HighGasTxThreshold : Z;
  MinGasPriceForHighGasTx : Dec.t;
  Mempool1559Enabled : bool
}.
Definition NewDefaultMempoolFeeOptions : MempoolFeeOptions :=
  {| MaxGasWantedPerTx := 30 * 1000 * 1000; MinGasPriceForArbitrageTx := Dec.NewDec 0;
     HighGasTxThreshold := 2500 * 1000; MinGasPriceForHighGasTx := Dec.NewDec 0;
     Mempool1559Enabled := true |}.

(** What a handler reads of its context and of a transaction. *)
Record Context := {
  BlockHeight : Z;
  IsCheckTx : bool;
  IsReCheckTx : bool;
  MinGasPrices : coin.DecCoins
}.
Record FeeTx := {
  GetGas : Z;
  GetFee : coin.Coins;
  FeePayer : addr.AccAddress;
  FeeGranter : option addr.AccAddress;
  GetMsgs : list ArbFilter.Msg
}.

(** *** The keeper's store *)

Record store := { baseDenom : option string; feeTokens : gmap string FeeToken; params : Params }.
Definition set_base_denom d (s : store) : store :=
  {| baseDenom := Some d; feeTokens := feeTokens s; params := params s |}.
Definition set_fee_tokens f (s : store) : store :=
  {| baseDenom := baseDenom s; feeTokens := f (feeTokens s); params := params s |}.
Definition set_params p (s : store) : store :=
  {| baseDenom := baseDenom s; feeTokens := feeTokens s; params := p |}.
Abbreviation K := (M store).

Definition GetBaseDenom (s : store) : outcome string :=
  match baseDenom s with None => Err "ErrNoBaseDenom" | Some d => Ok d end.
Definition GetFeeToken (s : store) (denom : string) : outcome FeeToken :=
  match feeTokens s !! denom with None => Err "ErrInvalidFeeToken" | Some t => Ok t end.
(** The order of the store's iterator. *)
Definition denom_le (x y : string * FeeToken) : Prop := KV.key_lt (KV.text y.1) (KV.text x.1) = false.
#[global] Instance denom_le_dec : RelDecision denom_le.
Proof. intros x y. unfold denom_le. apply _. Defined.
Definition GetFeeTokens (s : store) : list FeeToken :=
  (merge_sort denom_le (map_to_list (feeTokens s))).*2.
Definition SetParams (p : Params) : K unit := modify (set_params p).

Section fees.
  Context {D : sdk.LegacyDec} {C : coin.CoinOps} {F : FeeCoins} {J : ArbFilter.Json}.

Definition SetBaseDenom (denom : string) : K unit :=
  _ ← lift (ValidateDenom denom);
  modify (set_base_denom denom).

(** *** feetokens.go *)

Definition CalcFeeSpotPrice (prices : Prices) (s : store) (inputDenom : string) : outcome BigDec.t :=
  baseDenom ← GetBaseDenom s;
  feeToken ← GetFeeToken s inputDenom;
  prices (PoolID feeToken) baseDenom (Denom feeToken).

Definition ConvertToBaseToken (prices : Prices) (s : store) (inputFee : coin.Coin) : outcome coin.Coin :=
  baseDenom ← GetBaseDenom s;
  if String.eqb (coin.Denom inputFee) baseDenom then Ok inputFee else
  feeToken ← GetFeeToken s (coin.Denom inputFee);
  spotPrice ← CalcFeeSpotPrice prices s (Denom feeToken);
  x ← sdk.MulInt (BigDec.ToDec spotPrice) (coin.Amount inputFee);
  amt ← sdk.RoundInt x;
  coin.NewCoin baseDenom amt.

Definition ValidateFeeToken (prices : Prices) (s : store) (feeToken : FeeToken) : outcome unit :=
  baseDenom ← GetBaseDenom s;
  if String.eqb baseDenom (Denom feeToken) then Err "cannot add basedenom as a whitelisted fee token" else
  _ ← prices (PoolID feeToken) (Denom feeToken) baseDenom;
  Ok tt.

Definition setFeeToken (prices : Prices) (feeToken : FeeToken) : K unit :=
  if PoolID feeToken =? 0 then modify (set_fee_tokens (delete (Denom feeToken))) else
  s ← gets id;
  _ ← lift (ValidateFeeToken prices s feeToken);
  modify (set_fee_tokens (insert (Denom feeToken) feeToken)).
Definition SetFeeTokens (prices : Prices) (feetokens : list FeeToken) : K unit :=
  for_each feetokens (setFeeToken prices).

Definition SenderValidationSetFeeTokens (prices : Prices) (sender : string) (feetokens : list FeeToken)
    : K unit :=
  p ← gets params;
  _ ← require (existsb (String.eqb sender) (WhitelistedFeeTokenSetters p)) "ErrNotWhitelistedFeeTokenSetter";
  SetFeeTokens prices feetokens.

(** *** msg_server.go, gov.go, genesis.go *)

Definition MsgSetFeeTokens (prices : Prices) (sender : string) (feetokens : list FeeToken) : K unit :=
  SenderValidationSetFeeTokens prices sender feetokens.
Definition HandleUpdateFeeTokenProposal (prices : Prices) (feetokens : list FeeToken) : K unit :=
  for_each feetokens (setFeeToken prices).
Definition or_panic (m : K unit) : K unit := λ s, Pool.or_panic (m s) "genesis".
Definition InitGenesis (prices : Prices) (genState : GenesisState) : K unit :=
  _ ← or_panic (SetBaseDenom (Basedenom genState));
  _ ← or_panic (SetFeeTokens prices (Feetokens genState));
  SetParams (GParams genState).
Definition ExportGenesis (s : store) : GenesisState :=
  {| Basedenom := default "" (baseDenom s); Feetokens := GetFeeTokens s; GParams := params s |}.

(** *** feedecorator.go: sufficient fees *)

Definition IsSufficientFee (prices : Prices) (s : store) (minBaseGasPrice : Dec.t) (gasRequested : Z)
    (feeCoin : coin.Coin) : outcome unit :=
  baseDenom ← GetBaseDenom s;
  glDec ← sdk.Mul (Dec.NewDec (Eip1559.wrap64 gasRequested)) minBaseGasPrice;
  c ← sdk.Ceil glDec;
  baseFeeAmt ← sdk.RoundInt c;
  let requiredBaseFee := {| coin.Denom := baseDenom; coin.Amount := baseFeeAmt |} in
  convertedFee ← ConvertToBaseToken prices s feeCoin;
  enough ← IsGTE convertedFee requiredBaseFee;
  if enough : bool then Ok tt else Err "insufficient fees".

Definition GetMinBaseGasPriceForTx (opts : MempoolFeeOptions) (node : Eip1559.Node) (ctx : Context)
    (baseDenom : string) (tx : FeeTx) : outcome Dec.t :=
  let is1559enabled := Mempool1559Enabled opts in
  cfgMinGasPrice ← DecAmountOf (MinGasPrices ctx) baseDenom;
  let cfgMinGasPrice :=
    if GetGas tx >=? HighGasTxThreshold opts then sdk.MaxDec cfgMinGasPrice (MinGasPriceForHighGasTx opts)
    else cfgMinGasPrice in
  isArb ← ArbFilter.IsArbTxLoose (GetMsgs tx);
  let cfgMinGasPrice :=
    if isArb : bool then sdk.MaxDec cfgMinGasPrice (MinGasPriceForArbitrageTx opts) else cfgMinGasPrice in
  let cfgMinGasPrice :=
    if is1559enabled && IsCheckTx ctx && negb (IsReCheckTx ctx) then
      sdk.MaxDec cfgMinGasPrice (Eip1559.GetCurBaseFee (Eip1559.CurEipState node))
    else cfgMinGasPrice in
  if is1559enabled && IsReCheckTx ctx then
    r ← Eip1559.GetCurRecheckBaseFee (Eip1559.CurEipState node);
    Ok (sdk.MaxDec cfgMinGasPrice r)
  else Ok cfgMinGasPrice.

Definition getMinBaseGasPrice (opts : MempoolFeeOptions) (node : Eip1559.Node) (ctx : Context)
    (baseDenom : string) (simulate : bool) (tx : FeeTx) : outcome Dec.t :=
  minBaseGasPrice ←
    (if (IsCheckTx ctx || IsReCheckTx ctx) && negb simulate then
       p ← GetMinBaseGasPriceForTx opts node ctx baseDenom tx;
       Ok (sdk.MaxDec ConsensusMinFee p)
     else Ok ConsensusMinFee);
  if (BlockHeight ctx =? 0) || simulate then Ok (Dec.NewDec 0) else Ok minBaseGasPrice.

(** The filter of oversized IBC messages, and the heights it leaves out. *)
Definition checkIbcMsg (msg : ArbFilter.Msg) : outcome unit :=
  match msg with
  | ArbFilter.MsgTransfer size memo receiver =>
    if size >? 500000 then Err "msg size is too large"
    else if Z.of_nat (String.length memo) >? 400000 then Err "memo is too large"
    else if Z.of_nat (String.length receiver) >? 65000 then Err "receiver address is too large"
    else Ok tt
  | ArbFilter.MsgSendTx packetSize owner =>
    if packetSize >? 500000 then Err "packet data is too large"
    else if Z.of_nat (String.length owner) >? 65000 then Err "owner address is too large"
    else Ok tt
  | _ => Ok tt
  end.
Fixpoint checkIbcMsgs (msgs : list ArbFilter.Msg) : outcome unit :=
  match msgs with [] => Ok tt | m :: msgs => _ ← checkIbcMsg m; checkIbcMsgs msgs end.

(** The part of the handler before the gas is counted, and the part after it. *)
Definition beforeCount (opts : MempoolFeeOptions) (ctx : Context) (tx : FeeTx) (simulate : bool)
    : outcome unit :=
  if IsCheckTx ctx && negb simulate && (GetGas tx >? MaxGasWantedPerTx opts) then Err "Too much gas wanted"
  else if IsCheckTx ctx && ((BlockHeight ctx <=? 16841115) || (BlockHeight ctx >=? 17004043)) then
    checkIbcMsgs (GetMsgs tx)
  else Ok tt.
Definition afterCount (prices : Prices) (opts : MempoolFeeOptions) (node : Eip1559.Node) (s : store)
    (ctx : Context) (tx : FeeTx) (simulate : bool) : outcome unit :=
  baseDenom ← GetBaseDenom s;
  _ ← match GetFee tx with
      | [fee] => if String.eqb (coin.Denom fee) baseDenom then Ok tt
                 else _ ← GetFeeToken s (coin.Denom fee); Ok tt
      | _ => Ok tt
      end;
  minBaseGasPrice ← getMinBaseGasPrice opts node ctx baseDenom simulate tx;
  if sdk.IsZero minBaseGasPrice then Ok tt else
  match GetFee tx with
  | [fee] => IsSufficientFee prices s minBaseGasPrice (GetGas tx) fee
  | _ => Err "Expected 1 fee denom attached"
  end.

(** [MempoolFeeDecorator.AnteHandle]; [Ok] calls the next handler.  The gas of a delivered transaction
    is counted whether it is accepted or not. *)
Definition MempoolFee_AnteHandle (prices : Prices) (opts : MempoolFeeOptions) (s : store) (ctx : Context)
    (tx : FeeTx) (simulate : bool) (node : Eip1559.Node) : Eip1559.Node * outcome unit :=
  match beforeCount opts ctx tx simulate with
  | Ok _ =>
    if BlockHeight ctx =? 0 then (node, Ok tt) else
    if Z.of_nat (length (GetFee tx)) >? 1 then (node, Err "ErrTooManyFeeCoins") else
    let node :=
      if negb (IsCheckTx ctx) && negb (IsReCheckTx ctx) then Eip1559.DeliverTxCode (GetGas tx) node else node in
    (node, afterCount prices opts node s ctx tx simulate)
  | r => (node, r)
  end.
End fees.

(** *** feedecorator.go: deducting fees *)

Definition NonNativeTxFeeCollectorName : string := "non_native_fee_collector".
Definition BaseCoinUnit : string := "umaany".
Definition burnAddress : string := "osmo1qqqqqqqqqqqqqqqqqqqqqqqqqqqqqqqqmcn030".

(** The rest of the chain, with the name of the account that collects fees in the base denomination. *)
Class Chain : Type := {
  World : Type;
  FeeCollectorName : string;
  GetModuleAddress : World → string → option addr.AccAddress;
  GetAccount : World → addr.AccAddress → option addr.AccAddress;
  FeegrantEnabled : bool;
  UseGrantedFees : addr.AccAddress → addr.AccAddress → coin.Coins → list ArbFilter.Msg → World → outcome World;
  SendCoinsFromAccountToModule : addr.AccAddress → string → coin.Coins → World → outcome World;
}.

Section deduct.
  Context {D : sdk.LegacyDec} {C : coin.CoinOps} {F : FeeCoins} {A : addr.Addresses} {Ch : Chain}.
Abbreviation W := (M World).
Definition on_world (m : World → outcome World) : W unit := λ w, w' ← m w; Ok (tt, w').

Definition DeductFees (s : store) (acc : addr.AccAddress) (fees : coin.Coins) : W unit :=
  _ ← require (CoinsIsValid fees) "invalid fee amount";
  baseDenom ← lift (GetBaseDenom s);
  first ← lift (ArbFilter.first_of fees);
  if String.eqb (coin.Denom first) baseDenom then
    on_world (SendCoinsFromAccountToModule acc FeeCollectorName fees)
  else on_world (SendCoinsFromAccountToModule acc NonNativeTxFeeCollectorName fees).

(** The address an ignored decoding error leaves is the empty one. *)
Definition DeductFee_AnteHandle (s : store) (tx : FeeTx) (simulate : bool) : W unit :=
  w ← gets id;
  _ ← require (bool_decide (is_Some (GetModuleAddress w FeeCollectorName))) "fee collector has not been set";
  _ ← require (bool_decide (is_Some (GetModuleAddress w NonNativeTxFeeCollectorName)))
        "fee collector for staking has not been set";
  let fee := GetFee tx in
  let feePayer := FeePayer tx in
  deductFeesFrom ←
    match FeeGranter tx with
    | None => mret feePayer
    | Some feeGranter =>
      if negb FeegrantEnabled then throw "fee grants is not enabled"
      else if negb (String.eqb feeGranter feePayer) then
        _ ← on_world (UseGrantedFees feeGranter feePayer fee (GetMsgs tx)); mret feeGranter
      else mret feeGranter
    end;
  w ← gets id;
  match GetAccount w deductFeesFrom with
  | None => throw "fee payer address does not exist"
  | Some deductFeesFromAcc =>
    if simulate && coin.IsZero fee then
      one ← lift (coin.NewCoin BaseCoinUnit (SdkInt.mk 1));
      fees ← lift (coin.NewCoins [one]);
      let burnAcctAddr :=
        match addr.AccAddressFromBech32 burnAddress with Ok a => a | _ => ""%string end in
      let acc := default deductFeesFromAcc (GetAccount w burnAcctAddr) in
      if coin.IsZero fees then mret tt else DeductFees s acc fees
    else if coin.IsZero fee then mret tt
    else DeductFees s deductFeesFromAcc fee
  end.
End deduct.
End TxFees.
