(* ===== verification/TxFeesProps.v ===== *)
(** Transaction fees: which transactions the filter takes for an arbitrage, what an accepted transaction has
    paid, and the fee tokens of the store. *)
From stdpp Require Import prelude strings list gmap sorting.
From S2P Require Import Prelude.
From S2P Require Import GoState.
From S2P Require Import SdkDec.
From S2P Require Import SdkCoins.
From S2P Require Import Decimal.
From S2P Require Import CLPool.
From S2P Require Import Eip1559.
From S2P Require Import ArbFilter.
From S2P Require Import TxFees.
Local Open Scope Z_scope.

Module ArbFilterProps.
Import ArbFilter.

(** The denominations a swap goes from and to; the first is not empty. *)
Definition goes (m : SwapMsg) (d : string * string) : Prop :=
  TokenInDenom m = Ok d.1 ∧ TokenOutDenom m = Ok d.2 ∧ d.1 ≠ ""%string.
Definition circular (d : string * string) : Prop := d.1 = d.2.

Section filter.
  Context {J : Json}.

Lemma swap_verdict m d cur :
  goes m d → isArbTxLooseSwapMsg m cur =
    Ok (if bool_decide (circular d ∨ cur ≠ ""%string ∧ d.1 ≠ cur) then (cur, true) else (d.1, false)).
Proof.
  intros (Hi & Ho & _). unfold isArbTxLooseSwapMsg, circular. rewrite Hi, Ho. cbn [mbind outcome_bind].
  destruct (String.eqb_spec d.1 d.2); [by rewrite bool_decide_eq_true_2 by (by left)|].
  destruct (String.eqb_spec cur ""), (String.eqb_spec d.1 cur); cbn [negb andb];
    first [rewrite bool_decide_eq_true_2 by naive_solver|rewrite bool_decide_eq_false_2 by naive_solver]; done.
Qed.

Lemma loop_verdict swaps ds cur seen :
  Forall2 goes swaps ds → cur ≠ ""%string →
  arb_loop (MsgSwap <$> swaps) cur seen = Ok (bool_decide (Exists (λ d, circular d ∨ d.1 ≠ cur) ds)).
Proof.
  intros H Hc. revert cur seen Hc. induction H as [|m d swaps ds Hm H IH]; intros cur seen Hc.
  - done.
  - cbn [fmap list_fmap arb_loop isArbTxLooseAuthz SwapMsgRoute LiquidityChangeType GetSwapMsgs].
    rewrite (swap_verdict _ _ _ Hm). case_bool_decide as Hd; cbn [with_seen mbind outcome_bind].
    + rewrite bool_decide_eq_true_2; [done|]. left. naive_solver.
    + assert (d.1 = cur) as -> by (destruct (decide (d.1 = cur)); naive_solver).
      rewrite IH by done. f_equal. apply bool_decide_ext. rewrite Exists_cons. naive_solver.
Qed.

(** A transaction of plain swap messages is taken for an arbitrage exactly if one of them ends in the
    denomination it starts with, or two of them start with different denominations. *)
Theorem plain_swaps_filtered swaps ds b :
  Forall2 goes swaps ds → IsArbTxLoose (MsgSwap <$> swaps) = Ok b →
  (b = true ↔ (∃ d, d ∈ ds ∧ d.1 = d.2) ∨ (∃ d e, d ∈ ds ∧ e ∈ ds ∧ d.1 ≠ e.1)).
Proof.
  intros H. unfold IsArbTxLoose. destruct H as [|m d swaps ds Hm H].
  { intros [= <-]. split; [done|]. intros [(? & ?%elem_of_nil & _)|(? & ? & ?%elem_of_nil & _)]; done. }
  cbn [fmap list_fmap arb_loop isArbTxLooseAuthz SwapMsgRoute LiquidityChangeType GetSwapMsgs].
  rewrite (swap_verdict _ _ _ Hm). case_bool_decide as Hd; cbn [with_seen mbind outcome_bind].
  - intros [= <-]. split; [|done]. intros _. left. exists d. split; [by left|]. by destruct Hd as [|[]].
  - rewrite (loop_verdict _ ds) by (done || apply Hm). intros [= <-]. rewrite bool_decide_eq_true, Exists_exists.
    split.
    + intros (e & He & [Hc|Hne]); [left; exists e|right; exists e, d];
        split_and!; first [done|by left|by right].
    + intros [(e & He & Hc)|(e & e' & He & He' & Hne)].
      * apply elem_of_cons in He as [->|He]; [by destruct Hd; left|]. exists e. split; [done|by left].
      * apply elem_of_cons in He as [->|He], He' as [->|He'].
        -- done.
        -- exists e'. split; [done|right; congruence].
        -- exists e. split; [done|by right].
        -- destruct (decide (e.1 = d.1)); [exists e'|exists e]; (split; [done|right; congruence]).
Qed.

Lemma authz_verdict swaps ds cur seen :
  Forall2 goes swaps ds → Forall (λ d, ¬ circular d) ds → cur = ""%string →
  isArbTxLooseAuthz (MsgExec (MsgSwap <$> swaps)) cur seen = Ok (cur, false, seen).
Proof.
  intros H Hc ->. cbn [isArbTxLooseAuthz]. revert seen Hc.
  induction H as [|m d swaps ds Hm H IH]; intros seen Hc; [done|].
  apply Forall_cons in Hc as [Hd Hc].
  cbn [fmap list_fmap until_arb isArbTxLooseAuthz SwapMsgRoute LiquidityChangeType GetSwapMsgs].
  rewrite (swap_verdict _ _ _ Hm), bool_decide_eq_false_2 by naive_solver.
  cbn [with_seen mbind outcome_bind]. by apply IH.
Qed.

(** The same swaps inside one authz execution are not compared with each other: unless one of them is
    circular itself, the transaction is never taken for an arbitrage. *)
Theorem wrapped_swaps_not_filtered swaps ds :
  Forall2 goes swaps ds → Forall (λ d, d.1 ≠ d.2) ds → IsArbTxLoose [MsgExec (MsgSwap <$> swaps)] = Ok false.
Proof. intros H Hc. unfold IsArbTxLoose. cbn [arb_loop]. by rewrite (authz_verdict _ _ _ _ H Hc eq_refl). Qed.
End filter.

#[local] Instance no_json : Json :=
  {| UnmarshalObject _ := None; UnmarshalAffiliateSwap _ := None; UnmarshalContractSwap _ := None |}.
Definition demo_swap (from to : string) : SwapMsg :=
  SwapExactAmountIn [{| InPoolId := 1; RouteTokenOutDenom := to |}] {| coin.Denom := from; coin.Amount := SdkInt.mk 5 |}.
Definition there_and_back : list SwapMsg := [demo_swap "a" "b"; demo_swap "b" "a"].
Definition demo_denoms : list (string * string) := [("a", "b"); ("b", "a")]%string.

Lemma demo_goes : Forall2 goes there_and_back demo_denoms.
Proof. by repeat constructor. Qed.

Lemma plain_swaps_filtered_witness :
  IsArbTxLoose (MsgSwap <$> there_and_back) = Ok true ∧
  (true = true ↔ (∃ d, d ∈ demo_denoms ∧ d.1 = d.2) ∨ (∃ d e, d ∈ demo_denoms ∧ e ∈ demo_denoms ∧ d.1 ≠ e.1)).
Proof. split; [by vm_compute|]. by apply (plain_swaps_filtered there_and_back demo_denoms true demo_goes). Defined.

Lemma wrapped_swaps_not_filtered_witness : IsArbTxLoose [MsgExec (MsgSwap <$> there_and_back)] = Ok false.
Proof. apply (wrapped_swaps_not_filtered there_and_back demo_denoms demo_goes). by repeat constructor. Defined.
End ArbFilterProps.

Module TxFeesProps.
Import TxFees.

Section fees.
  Context {D : sdk.LegacyDec} {L : sdk.LegacyDecLaws D} {C : coin.CoinOps} {CL : coin.CoinLaws C}
    {F : FeeCoins} {FL : FeeCoinsLaws F} {J : ArbFilter.Json}.

(** *** Accepted transactions *)

(** The gas prices a transaction that is not simulated has to pay: in a block only the consensus minimum,
    in the mempool also what the node asks for. *)
Inductive charged (opts : MempoolFeeOptions) (node : Eip1559.Node) (ctx : Context) (tx : FeeTx)
    : Dec.t → Prop :=
| consensus_fee : charged opts node ctx tx ConsensusMinFee
| base_fee :
    Mempool1559Enabled opts = true → IsCheckTx ctx = true → IsReCheckTx ctx = false →
    charged opts node ctx tx (Eip1559.CurBaseFee (Eip1559.CurEipState node))
| high_gas_fee :
    IsCheckTx ctx || IsReCheckTx ctx = true → HighGasTxThreshold opts ≤ GetGas tx →
    charged opts node ctx tx (MinGasPriceForHighGasTx opts)
| arbitrage_fee :
    IsCheckTx ctx || IsReCheckTx ctx = true → ArbFilter.IsArbTxLoose (GetMsgs tx) = Ok true →
    charged opts node ctx tx (MinGasPriceForArbitrageTx opts).

Lemma min_price opts node ctx base tx p q :
  BlockHeight ctx ≠ 0 → getMinBaseGasPrice opts node ctx base false tx = Ok p →
  charged opts node ctx tx q → Dec.i q ≤ Dec.i p.
Proof using L.
  intros Hh. unfold getMinBaseGasPrice. rewrite andb_true_r, orb_false_r, (proj2 (Z.eqb_neq _ _) Hh).
  destruct (IsCheckTx ctx || IsReCheckTx ctx) eqn:Hc.
  - intros (x & (p0 & Hp & [= <-])%bind_Ok & [= <-])%bind_Ok. rewrite sdk.MaxDec_spec. revert Hp.
    unfold GetMinBaseGasPriceForTx. intros (cfg & _ & H)%bind_Ok. apply bind_Ok in H as (arb & Harb & H).
    assert (∀ a b : Dec.t, Dec.i a ≤ Dec.i (sdk.MaxDec a b) ∧ Dec.i b ≤ Dec.i (sdk.MaxDec a b)) as Hmax.
    { intros a b. rewrite sdk.MaxDec_spec. lia. }
    set (c1 := if GetGas tx >=? _ then _ else _) in H.
    set (c2 := if arb then sdk.MaxDec c1 _ else _) in H. set (c3 := if _ && negb _ then _ else _) in H.
    assert (Dec.i c1 ≤ Dec.i c2) as H12 by (subst c2; destruct arb; [apply Hmax|done]).
    assert (Dec.i c2 ≤ Dec.i c3) as H23 by (subst c3; destruct (_ && negb _); [apply Hmax|done]).
    assert (Dec.i c3 ≤ Dec.i p0) as H3.
    { destruct (_ && IsReCheckTx ctx); [|by injection H as <-].
      apply bind_Ok in H as (r & _ & [= <-]). apply Hmax. }
    destruct 1 as [|He Hck Hre|_ Hg|_ Ha]; [lia|..].
    + enough (Dec.i (Eip1559.CurBaseFee (Eip1559.CurEipState node)) ≤ Dec.i c3) by lia.
      subst c3. rewrite He, Hck, Hre. cbn [andb negb]. apply Hmax.
    + enough (Dec.i (MinGasPriceForHighGasTx opts) ≤ Dec.i c1) by lia.
      subst c1. destruct (Z.geb_spec (GetGas tx) (HighGasTxThreshold opts)); [apply Hmax|lia].
    + enough (Dec.i (MinGasPriceForArbitrageTx opts) ≤ Dec.i c2) by lia.
      rewrite Ha in Harb. injection Harb as <-. apply Hmax.
  - cbn [mbind outcome_bind]. intros [= <-]. apply orb_false_iff in Hc as [Hc Hr].
    destruct 1; [done|congruence|..]; by rewrite Hc, Hr in *.
Qed.

(** A sufficient fee is worth the gas at the price, rounded up to a whole unit. *)
Lemma sufficient prices s price gas fee :
  0 ≤ gas < 2 ^ 63 → IsSufficientFee prices s price gas fee = Ok tt →
  ∃ base v, baseDenom s = Some base ∧ ConvertToBaseToken prices s fee = Ok v ∧ coin.Denom v = base ∧
    gas * Dec.i price ≤ SdkInt.i (coin.Amount v) * Dec.one.
Proof using L FL.
  intros Hg. unfold IsSufficientFee, GetBaseDenom. destruct (baseDenom s) as [base|]; [|done].
  rewrite Eip1559Props.wrap64_id by lia. cbn [mbind outcome_bind]. intros (x & Hx%sdk.Mul_spec & H)%bind_Ok.
  apply bind_Ok in H as (c & (k & Hk & Hc)%sdk.Ceil_spec & H).
  apply bind_Ok in H as (amt & Ha%sdk.RoundInt_spec & H). apply bind_Ok in H as (v & Hv & H).
  apply bind_Ok in H as (b & [Hd Hb]%IsGTE_spec & H). exists base, v. split_and!; [done..|].
  cbn [coin.Amount Dec.i Dec.NewDec] in *. destruct b; [|done]. symmetry in Hb. apply Z.leb_le in Hb.
  assert (Dec.i x = gas * Dec.i price) as E by (unfold Dec.one in *; lia).
  assert (SdkInt.i amt = k) as E2 by (unfold Dec.one in *; lia). unfold Dec.one in *. lia.
Qed.

(** C28.  A transaction that passes the fee check (outside a simulation and the first block) carries one
    fee, in the base denomination or a registered fee token, that is worth its gas at every price charged:
    the consensus minimum in a block, and in the mempool also the base fee and the prices of the node for
    high gas and arbitrage.  In a block its gas is counted for the base fee. *)
Theorem accepted_tx_pays prices opts s ctx tx node node' :
  BlockHeight ctx ≠ 0 → 0 ≤ GetGas tx < 2 ^ 63 →
  MempoolFee_AnteHandle prices opts s ctx tx false node = (node', Ok tt) →
  node' = (if IsCheckTx ctx || IsReCheckTx ctx then node else Eip1559.DeliverTxCode (GetGas tx) node) ∧
  ∃ fee base v, GetFee tx = [fee] ∧ baseDenom s = Some base ∧
    (coin.Denom fee = base ∨ is_Some (feeTokens s !! coin.Denom fee)) ∧
    ConvertToBaseToken prices s fee = Ok v ∧ coin.Denom v = base ∧
    ∀ price, charged opts node ctx tx price →
      GetGas tx * Dec.i price ≤ SdkInt.i (coin.Amount v) * Dec.one.
Proof using L FL.
  intros Hh Hg. unfold MempoolFee_AnteHandle. destruct (beforeCount _ _ _ _) as [[]| |]; [|done..].
  rewrite (proj2 (Z.eqb_neq _ _) Hh). destruct (_ >? 1); [done|].
  set (n := if negb _ && negb _ then _ else _). intros [= <- H].
  assert (n = if IsCheckTx ctx || IsReCheckTx ctx then node else Eip1559.DeliverTxCode (GetGas tx) node) as Hn
    by by destruct (IsCheckTx ctx), (IsReCheckTx ctx).
  assert (∀ q, charged opts node ctx tx q → charged opts n ctx tx q) as Hq.
  { intros q [|He Hc Hr| |]; [constructor| |by constructor..]. rewrite Hc in Hn. cbn in Hn. rewrite Hn.
    by constructor. }
  clearbody n. split; [done|]. unfold afterCount in H. apply bind_Ok in H as (base & Hb & H).
  apply bind_Ok in H as ([] & Hreg & H). apply bind_Ok in H as (p & Hp & H).
  assert (Dec.i ConsensusMinFee ≤ Dec.i p) as Hmin by (eapply min_price; [done..|constructor]).
  rewrite sdk.IsZero_spec in H. destruct (Z.eqb_spec (Dec.i p) 0) as [E|_]; [by rewrite E in Hmin|].
  destruct (GetFee tx) as [|fee [|]]; [done| |done]. apply sufficient in H as (base' & v & Hbase & Hv & Hd & Hle); [|done].
  assert (base' = base) as -> by (unfold GetBaseDenom in Hb; rewrite Hbase in Hb; congruence).
  exists fee, base, v. split_and!; try done.
  - destruct (String.eqb_spec (coin.Denom fee) base); [by left|right].
    apply bind_Ok in Hreg as (t & Ht & _). unfold GetFeeToken in Ht. by destruct (feeTokens s !! _).
  - intros q Hcq%Hq. pose proof (min_price _ _ _ _ _ _ _ Hh Hp Hcq). nia.
Qed.

(** *** Fee tokens *)

(** What a stored fee token is: filed under its own denomination, with a pool, and not the base denomination. *)
Definition wf_tokens (s : store) : Prop :=
  ∀ d t, feeTokens s !! d = Some t → Denom t = d ∧ PoolID t ≠ 0 ∧ baseDenom s ≠ Some d.

Lemma setFeeToken_wf prices t s s' : wf_tokens s → setFeeToken prices t s = Ok (tt, s') →
  wf_tokens s' ∧ baseDenom s' = baseDenom s.
Proof.
  intros Hs. unfold setFeeToken. destruct (Z.eqb_spec (PoolID t) 0) as [_|Hp].
  - intros ->%st_modify_Ok. split; [|done]. intros d u. cbn [feeTokens set_fee_tokens].
    intros [_ Hu]%lookup_delete_Some. by apply Hs.
  - intros (s1 & x & [-> <-]%st_gets_Ok & H)%st_bind_Ok. apply st_bind_Ok in H as ([] & x & [Hv <-]%st_lift_Ok & H).
    apply st_modify_Ok in H as ->. split; [|done]. intros d u. cbn [feeTokens baseDenom set_fee_tokens].
    intros [[<- <-]|[_ Hu]]%lookup_insert_Some; [|by apply Hs]. split_and!; [done..|].
    unfold ValidateFeeToken, GetBaseDenom, id in Hv. destruct (baseDenom s) as [b|]; [|done].
    cbn [mbind outcome_bind] in Hv. destruct (String.eqb_spec b (Denom t)); [done|]. congruence.
Qed.

Lemma set_tokens_wf prices ts s s' : wf_tokens s → for_each ts (setFeeToken prices) s = Ok (tt, s') →
  wf_tokens s' ∧ baseDenom s' = baseDenom s.
Proof.
  revert s. induction ts as [|t ts IH]; intros s Hs; cbn [for_each]; [by intros [_ <-]%st_ret_Ok|].
  intros ([] & s1 & H1 & H)%st_bind_Ok. apply setFeeToken_wf in H1 as [Hs1 E]; [|done].
  rewrite <- E. by apply IH.
Qed.

(** Everything that writes the store: genesis on an empty one, the message, the proposal, parameters. *)
Definition empty_store : store :=
  {| baseDenom := None; feeTokens := ∅; params := {| WhitelistedFeeTokenSetters := [] |} |}.
Inductive fee_step (prices : Prices) : store → store → Prop :=
| step_message sender ts s s' : MsgSetFeeTokens prices sender ts s = Ok (tt, s') → fee_step prices s s'
| step_proposal ts s s' : HandleUpdateFeeTokenProposal prices ts s = Ok (tt, s') → fee_step prices s s'
| step_params p s s' : SetParams p s = Ok (tt, s') → fee_step prices s s'.
Inductive fee_reachable : store → Prop :=
| fee_genesis prices g s : InitGenesis prices g empty_store = Ok (tt, s) → fee_reachable s
| fee_later prices s s' : fee_reachable s → fee_step prices s s' → fee_reachable s'.

Lemma or_panic_Ok (m : M store unit) s r : or_panic m s = Ok r → m s = Ok r.
Proof. unfold or_panic, Pool.or_panic. by destruct (m s). Qed.

(** C31.  Whatever messages, proposals and parameter changes follow genesis, and whatever the pools' prices
    are at each of them, every stored fee token is filed under its own denomination, names a pool, and is
    not the base denomination. *)
Theorem fee_tokens_typed s : fee_reachable s → wf_tokens s.
Proof.
  induction 1 as [prices g s H|prices s s' _ IH H].
  - unfold InitGenesis in H. apply st_bind_Ok in H as ([] & s1 & H1%or_panic_Ok & H).
    apply st_bind_Ok in H as ([] & s2 & H2%or_panic_Ok & H). apply st_modify_Ok in H as ->.
    unfold SetBaseDenom in H1. apply st_bind_Ok in H1 as ([] & x & [_ <-]%st_lift_Ok & ->%st_modify_Ok).
    apply set_tokens_wf in H2 as [H2 _]; [done|]. intros d t. cbn. by rewrite lookup_empty.
  - destruct H as [sender ts s s' H|ts s s' H|p s s' H].
    + unfold MsgSetFeeTokens, SenderValidationSetFeeTokens in H.
      apply st_bind_Ok in H as (p & x & [-> <-]%st_gets_Ok & H).
      apply st_bind_Ok in H as ([] & x & [_ <-]%st_require_Ok & H). by apply set_tokens_wf in H as [? _].
    + by apply set_tokens_wf in H as [? _].
    + apply st_modify_Ok in H as ->. exact IH.
Qed.
End fees.

(** *** A concrete store and transaction *)

#[local] Existing Instance ArbFilterProps.no_json.
#[local] Instance ref_fee_coins : FeeCoins := {
  IsGTE a b := if String.eqb (coin.Denom a) (coin.Denom b) then Ok (SdkInt.i (coin.Amount b) <=? SdkInt.i (coin.Amount a))
               else Panic "invalid coin denominations";
  DecAmountOf c d := Ok (Dec.mk (coin.damt d c));
  CoinsIsValid c := forallb (λ x, 0 <? SdkInt.i (coin.Amount x)) c;
  ValidateDenom d := if String.eqb d "" then Err "invalid denom" else Ok tt
}.
#[local] Instance ref_fee_coins_laws : FeeCoinsLaws ref_fee_coins.
Proof.
  split. intros a b r. cbn. destruct (String.eqb_spec (coin.Denom a) (coin.Denom b)); [|done]. by intros [= <-].
Qed.

Definition demo_prices : Prices := λ pool _ _, if pool =? 7 then Ok (BigDec.mk (2 * 10 ^ 36)) else Err "no pool".
Definition demo_genesis : GenesisState :=
  {| Basedenom := "umaany"; Feetokens := [{| Denom := "uosmo"; PoolID := 7 |}];
     GParams := {| WhitelistedFeeTokenSetters := [] |} |}.
Definition demo_store : store :=
  match InitGenesis (F := ref_fee_coins) demo_prices demo_genesis empty_store with Ok (_, s) => s | _ => empty_store end.
Definition demo_ctx : Context :=
  {| BlockHeight := 5; IsCheckTx := true; IsReCheckTx := false; MinGasPrices := [] |}.
Definition demo_tx : FeeTx :=
  {| GetGas := 200000; GetFee := [{| coin.Denom := "uosmo"; coin.Amount := SdkInt.mk 300 |}];
     FeePayer := "payer"; FeeGranter := None; GetMsgs := [] |}.
Definition demo_check (tx : FeeTx) : Eip1559.Node * outcome unit :=
  MempoolFee_AnteHandle (D := sdk.ref_dec) (C := coin.ref_coins) demo_prices NewDefaultMempoolFeeOptions
    demo_store demo_ctx tx false Eip1559Props.demo_node.

Lemma demo_accepted : demo_check demo_tx = (Eip1559Props.demo_node, Ok tt).
Proof. by vm_compute. Qed.

(** One unit less is not enough for the base fee of that node. *)
Example demo_refused :
  (demo_check {| GetGas := 200000; GetFee := [{| coin.Denom := "uosmo"; coin.Amount := SdkInt.mk 280 |}];
     FeePayer := "payer"; FeeGranter := None; GetMsgs := [] |}).2 = Err "insufficient fees".
Proof. by vm_compute. Qed.

Lemma accepted_tx_pays_witness :
  ∃ fee base v, GetFee demo_tx = [fee] ∧ baseDenom demo_store = Some base ∧
    (coin.Denom fee = base ∨ is_Some (feeTokens demo_store !! coin.Denom fee)) ∧
    ConvertToBaseToken (D := sdk.ref_dec) (C := coin.ref_coins) demo_prices demo_store fee = Ok v ∧
    coin.Denom v = base ∧
    ∀ price, charged NewDefaultMempoolFeeOptions Eip1559Props.demo_node demo_ctx demo_tx price →
      200000 * Dec.i price ≤ SdkInt.i (coin.Amount v) * Dec.one.
Proof.
  apply (accepted_tx_pays (D := sdk.ref_dec) (L := sdk.ref_dec_laws) (C := coin.ref_coins)
    (FL := ref_fee_coins_laws) demo_prices NewDefaultMempoolFeeOptions demo_store demo_ctx demo_tx
    Eip1559Props.demo_node Eip1559Props.demo_node).
  - done.
  - done.
  - exact demo_accepted.
Defined.

Lemma fee_tokens_typed_witness : feeTokens demo_store !! "uosmo"%string ≠ None ∧ wf_tokens demo_store.
Proof.
  split; [by vm_compute|]. apply (fee_tokens_typed (F := ref_fee_coins)).
  apply fee_genesis with demo_prices demo_genesis. by vm_compute.
Defined.
End TxFeesProps.
