(* ===== verification/BinarySearch.v ===== *)
(** Searching for an input whose output is within a tolerance: osmomath/binary_search.go, with the rounding
    directions and scaled divisions of osmomath/rounding_direction.go. *)
From stdpp Require Import prelude strings list.
From S2P Require Import Prelude.
From S2P Require Import GoBig.
From S2P Require Import SdkDec.
From S2P Require Import SdkCoins.
From S2P Require Import Decimal.
From S2P Require Import DecimalFacts.
From S2P Require Import CLKeys.
Local Open Scope Z_scope.

Module BinarySearch.

(** *** rounding_direction.go *)

Inductive RoundingDirection := RoundUnconstrained | RoundUp | RoundDown | RoundBankers.

Section scaled.
  Context {D : sdk.LegacyDec}.

(** [int64(u)] of a [uint64]. *)
Definition int64 (u : Z) : Z := CLKeys.to_int64 (CLKeys.to_uint64 u).
Definition DivIntByU64ToBigDec (i : SdkInt.t) (u : Z) (round : RoundingDirection) : outcome BigDec.t :=
  if u =? 0 then Err "div by zero" else
  d ← BigDec.BigDecFromDecMut (sdk.ToLegacyDec i);
  match round with
  | RoundUp => n ← BigDec.NewBigDec (int64 u); BigDec.QuoRoundUp d n
  | RoundDown => BigDec.QuoInt64 d (int64 u)
  | RoundBankers => n ← BigDec.NewBigDec (int64 u); BigDec.Quo d n
  | RoundUnconstrained => Err "invalid rounding mode"
  end.

(** [scales[i]] panics when there are fewer scales than coins. *)
Fixpoint DivCoinAmtsByU64ToBigDec (coins : coin.Coins) (scales : list Z) (round : RoundingDirection)
    : outcome (list BigDec.t) :=
  match coins with
  | [] => Ok []
  | c :: coins =>
    match scales with
    | [] => Panic "index out of range"
    | s :: scales =>
      res ← DivIntByU64ToBigDec (coin.Amount c) s round;
      rest ← DivCoinAmtsByU64ToBigDec coins scales round;
      Ok (res :: rest)
    end
  end.

(** *** binary_search.go *)

(** [None] is the nil decimal. *)
Record ErrTolerance := {
  AdditiveTolerance : option Dec.t;
  MultiplicativeTolerance : option Dec.t;
  RoundingDir : RoundingDirection
}.

(** The control flow the three comparisons share: the direction, which answers at once; then the two
    tolerances, given what exceeds the additive one and the answer of the multiplicative one. *)
Definition direction (e : ErrTolerance) (less greater : bool) : option Z :=
  match RoundingDir e with
  | RoundDown => if less then Some (-1) else None
  | RoundUp => if greater then Some 1 else None
  | _ => None
  end.
Definition tolerances (e : ErrTolerance) (equal : bool) (comparisonSign : Z)
    (exceeds : Dec.t → outcome bool) (relative : Dec.t → outcome Z) : outcome Z :=
  let multiplicative :=
    match MultiplicativeTolerance e with
    | None => Ok 0
    | Some tol => if sdk.IsZero tol then Ok 0 else relative tol
    end in
  match AdditiveTolerance e with
  | None => multiplicative
  | Some tol =>
    if sdk.IsZero tol && equal then Ok 0 else
    over ← exceeds tol;
    if over : bool then Ok comparisonSign else multiplicative
  end.

(** The sign of equal integers is -1. *)
Definition Compare (e : ErrTolerance) (expected actual : SdkInt.t) : outcome Z :=
  d ← sdk.Sub (sdk.ToLegacyDec expected) (sdk.ToLegacyDec actual);
  let diff := sdk.Abs d in
  let comparisonSign := if sdk.IntGT expected actual then 1 else -1 in
  match direction e (sdk.IntLT expected actual) (sdk.IntGT expected actual) with
  | Some r => Ok r
  | None =>
    tolerances e (sdk.IntEqual expected actual) comparisonSign (λ tol, Ok (sdk.GT diff tol)) (λ tol,
      let minValue := sdk.MinInt (sdk.IntAbs expected) (sdk.IntAbs actual) in
      if sdk.IntIsZero minValue then Ok comparisonSign else
      errTerm ← sdk.Quo diff (sdk.ToLegacyDec minValue);
      Ok (if sdk.GT errTerm tol then comparisonSign else 0))
  end.

Definition CompareBigDec (e : ErrTolerance) (expected actual : BigDec.t) : outcome Z :=
  match direction e (BigDec.LT expected actual) (BigDec.GT expected actual) with
  | Some r => Ok r
  | None =>
    d ← BigDec.Sub expected actual;
    let diff := BigDec.Abs d in
    let comparisonSign :=
      if BigDec.GT expected actual then 1 else if BigDec.LT expected actual then -1 else 0 in
    tolerances e (BigDec.Equal expected actual) comparisonSign
      (λ tol, t ← BigDec.BigDecFromDec tol; Ok (BigDec.GT diff t)) (λ tol,
      let minValue := BigDec.MinBigDec (BigDec.Abs expected) (BigDec.Abs actual) in
      if BigDec.IsZero minValue then Ok comparisonSign else
      errTerm ← BigDec.Quo diff minValue;
      t ← BigDec.BigDecFromDec tol;
      Ok (if BigDec.GT errTerm t then comparisonSign else 0))
  end.

Definition CompareDec (e : ErrTolerance) (expected actual : Dec.t) : outcome Z :=
  match direction e (sdk.LT expected actual) (sdk.GT expected actual) with
  | Some r => Ok r
  | None =>
    d ← sdk.Sub expected actual;
    let diff := sdk.Abs d in
    let comparisonSign := if sdk.GT expected actual then 1 else if sdk.LT expected actual then -1 else 0 in
    tolerances e (sdk.Equal expected actual) comparisonSign (λ tol, Ok (sdk.GT diff tol)) (λ tol,
      let minValue := sdk.MinDec (sdk.Abs expected) (sdk.Abs actual) in
      if sdk.IsZero minValue then Ok comparisonSign else
      errTerm ← sdk.Quo diff minValue;
      Ok (if sdk.GT errTerm tol then comparisonSign else 0))
  end.

Fixpoint equal_each (e : ErrTolerance) (expectedCoins actualCoins : coin.Coins) {C : coin.CoinOps}
    : outcome bool :=
  match expectedCoins with
  | [] => Ok true
  | c :: expectedCoins =>
    a ← coin.AmountOf actualCoins (coin.Denom c);
    r ← Compare e (coin.Amount c) a;
    if negb (r =? 0) then Ok false else equal_each e expectedCoins actualCoins
  end.
Definition EqualCoins {C : coin.CoinOps} (e : ErrTolerance) (expectedCoins actualCoins : coin.Coins)
    : outcome bool :=
  if (length expectedCoins <? length actualCoins)%nat then Ok false
  else equal_each e expectedCoins actualCoins.

(** The number of iterations left is the fuel. *)
Fixpoint BinarySearch (f : SdkInt.t → outcome SdkInt.t) (lowerbound upperbound targetOutput : SdkInt.t)
    (errTolerance : ErrTolerance) (maxIterations : nat) : outcome SdkInt.t :=
  match maxIterations with
  | O => Err "hit maximum iterations, did not converge fast enough"
  | S maxIterations =>
    sum ← sdk.IntAdd lowerbound upperbound;
    curEstimate ← sdk.IntQuoRaw sum 2;
    curOutput ← f curEstimate;
    compRes ← Compare errTolerance targetOutput curOutput;
    if compRes <? 0 then BinarySearch f lowerbound curEstimate targetOutput errTolerance maxIterations
    else if compRes >? 0 then BinarySearch f curEstimate upperbound targetOutput errTolerance maxIterations
    else Ok curEstimate
  end.

Fixpoint BinarySearchBigDec (f : BigDec.t → outcome BigDec.t) (lowerbound upperbound targetOutput : BigDec.t)
    (errTolerance : ErrTolerance) (maxIterations : nat) : outcome BigDec.t :=
  match maxIterations with
  | O => Err "hit maximum iterations, did not converge fast enough"
  | S maxIterations =>
    sum ← BigDec.Add lowerbound upperbound;
    let curEstimate := BigDec.mk (big.Rsh (BigDec.i sum) 1) in
    curOutput ← f curEstimate;
    compRes ← CompareBigDec errTolerance targetOutput curOutput;
    if compRes <? 0 then BinarySearchBigDec f lowerbound curEstimate targetOutput errTolerance maxIterations
    else if compRes >? 0 then
      BinarySearchBigDec f curEstimate upperbound targetOutput errTolerance maxIterations
    else Ok curEstimate
  end.

(** *** What a search that succeeds has found *)

Lemma BinarySearch_found f lo hi target e n x :
  BinarySearch f lo hi target e n = Ok x → ∃ y, f x = Ok y ∧ Compare e target y = Ok 0.
Proof.
  revert lo hi. induction n as [|n IH]; intros lo hi; cbn [BinarySearch]; [done|].
  intros (s & _ & H)%bind_Ok. apply bind_Ok in H as (c & _ & H). apply bind_Ok in H as (y & Hy & H).
  apply bind_Ok in H as (r & Hr & H). destruct (Z.ltb_spec r 0); [by eapply IH|].
  destruct (Z.gtb_spec r 0); [by eapply IH|]. injection H as <-. exists y.
  split; [done|]. by replace r with 0 in Hr by lia.
Qed.

Lemma BinarySearchBigDec_found f lo hi target e n x :
  BinarySearchBigDec f lo hi target e n = Ok x → ∃ y, f x = Ok y ∧ CompareBigDec e target y = Ok 0.
Proof.
  revert lo hi. induction n as [|n IH]; intros lo hi; cbn [BinarySearchBigDec]; [done|].
  intros (s & _ & H)%bind_Ok. apply bind_Ok in H as (y & Hy & H).
  apply bind_Ok in H as (r & Hr & H). destruct (Z.ltb_spec r 0); [by eapply IH|].
  destruct (Z.gtb_spec r 0); [by eapply IH|]. injection H as <-. eexists. split; [done|].
  by replace r with 0 in Hr by lia.
Qed.

(** Rounding up, an accepted output is not below the target. *)
Lemma CompareBigDec_up e a b :
  RoundingDir e = RoundUp → CompareBigDec e a b = Ok 0 → BigDec.i a ≤ BigDec.i b.
Proof.
  intros He. unfold CompareBigDec, direction. rewrite He.
  destruct (BigDec.GT a b) eqn:Hg; [done|]. intros _.
  destruct (Z_lt_le_dec (BigDec.i b) (BigDec.i a)) as [Hl|]; [|done].
  apply BigDecFacts.GT_iff in Hl. by rewrite Hl in Hg.
Qed.
End scaled.
End BinarySearch.
