(* ===== verification/StableMath.v ===== *)
(** The stableswap curve xy(x^2 + y^2 + w) = k and its solution by binary search:
    x/gamm/pool-models/stableswap/amm.go, the functions that do not look at a pool. *)
From stdpp Require Import prelude strings list.
From S2P Require Import Prelude.
From S2P Require Import GoBig.
From S2P Require Import SdkDec.
From S2P Require Import Decimal.
From S2P Require Import DecimalFacts.
From S2P Require Import BinarySearch.
Local Open Scope Z_scope.

Module StableMath.
Import BigDec.
#[local] Abbreviation P := BigDecFacts.P.

(** x(x^2 + y^2 + w), and xy(x^2 + y^2 + w). *)
Definition cfmmConstantMultiNoVY (xReserve yReserve wSumSquares : t) : outcome t :=
  if negb (IsPositive xReserve) || negb (IsPositive yReserve) || IsNegative wSumSquares then
    Panic "invalid input: reserves must be positive"
  else
    x2 ← Mul xReserve xReserve;
    y2 ← Mul yReserve yReserve;
    s ← Add x2 y2;
    s ← Add s wSumSquares;
    Mul xReserve s.
Definition cfmmConstantMultiNoV (xReserve yReserve wSumSquares : t) : outcome t :=
  k ← cfmmConstantMultiNoVY xReserve yReserve wSumSquares;
  Mul k yReserve.

(** What the curve's equation leaves of the target once the terms that do not depend on x are moved to it. *)
Definition targetKCalculator (x0 y0 w yf : t) : outcome t :=
  startK ← cfmmConstantMultiNoV x0 y0 w;
  yfRemoved ← QuoMut startK yf;
  yf2 ← Mul yf yf;
  s ← AddMut yf2 w;
  x02 ← Mul x0 x0;
  innerTerm ← AddMut s x02;
  constantTerm ← Mul innerTerm x0;
  Sub yfRemoved constantTerm.

Definition iterKCalculator (x0 w yf : t) : outcome (t → outcome t) :=
  quadraticCoeff ← MulInt64 x0 3;
  l ← Mul quadraticCoeff x0;
  l ← AddMut l w;
  yf2 ← Mul yf yf;
  l ← AddMut l yf2;
  let linearCoeff := NegMut l in
  Ok (λ xf,
    xOut ← Sub x0 xf;
    let res := Neg xOut in
    res ← AddMut res quadraticCoeff;
    res ← MulMut res xOut;
    res ← AddMut res linearCoeff;
    MulMut res xOut).

Definition deriveUpperLowerXFinalReserveBounds (xReserve yReserve wSumSquares yFinal : t)
    : outcome (t * t) :=
  k0 ← cfmmConstantMultiNoV xReserve yFinal wSumSquares;
  k ← cfmmConstantMultiNoV xReserve yReserve wSumSquares;
  if Equal k0 ZeroBigDec || Equal k ZeroBigDec then Panic "k should never be zero" else
  kRatio ← Quo k0 k;
  if LT kRatio OneBigDec then
    q ← Quo xReserve kRatio;
    xFinalUpperbound ← Ceil q;
    Ok (xReserve, xFinalUpperbound)
  else if GT kRatio OneBigDec then Ok (ZeroBigDec, xReserve)
  else Ok (xReserve, xReserve).

Section solve.
  Context {D : sdk.LegacyDec}.

Definition maxIterations : nat := 256.
Definition solveTolerance : BinarySearch.ErrTolerance :=
  {| BinarySearch.AdditiveTolerance := None; BinarySearch.MultiplicativeTolerance := Some (Dec.mk (10 ^ 6));
     BinarySearch.RoundingDir := BinarySearch.RoundUp |}.

Definition solveCFMMBinarySearchMulti (xReserve yReserve wSumSquares yIn : t) : outcome t :=
  if negb (IsPositive xReserve) || negb (IsPositive yReserve) || IsNegative wSumSquares then
    Panic "invalid input: reserves and input must be positive"
  else if GTE (Abs yIn) yReserve then Panic "cannot input more than pool reserves"
  else
    yFinal ← Add yReserve yIn;
    '(xLowEst, xHighEst) ← deriveUpperLowerXFinalReserveBounds xReserve yReserve wSumSquares yFinal;
    targetK ← targetKCalculator xReserve yReserve wSumSquares yFinal;
    iterKCalc ← iterKCalculator xReserve wSumSquares yFinal;
    xEst ← match BinarySearch.BinarySearchBigDec iterKCalc xLowEst xHighEst targetK solveTolerance maxIterations with
           | Err e => Panic e
           | r => r
           end;
    xOut ← Sub xReserve xEst;
    if GTE (Abs xOut) xReserve then Panic "invalid output: greater than full pool reserves"
    else Ok xOut.

Fixpoint sumSquares (acc : t) (remReserves : list t) : outcome t :=
  match remReserves with
  | [] => Ok acc
  | assetReserve :: remReserves =>
    s ← Mul assetReserve assetReserve;
    acc ← Add acc s;
    sumSquares acc remReserves
  end.
Definition solveCfmm (xReserve yReserve : t) (remReserves : list t) (yIn : t) : outcome t :=
  wSumSquares ← sumSquares ZeroBigDec remReserves;
  solveCFMMBinarySearchMulti xReserve yReserve wSumSquares yIn.

(** *** The curve in exact arithmetic *)

(** On the big integers, a number times P = 10^36; the value is k times P^4. *)
Definition curve (x y w : Z) : Z := x * y * (x * x + y * y + w * P).
(** What rounding can cost, in the same unit. *)
Definition slack (x y : Z) : Z :=
  6 * P * x * y + 5 * P * P * y + P * P * P.

(** A rounded product is the exact one plus at most half a unit. *)
Lemma mul_error a b r :
  MulMut a b = Ok r → ∃ e, P * i r = i a * i b + e ∧ - P ≤ 2 * e ≤ P.
Proof. intros [H _]%BigDecFacts.MulMut_spec. exists (P * i r - i a * i b). lia. Qed.

Lemma scale k a b : 0 ≤ k → a ≤ b → k * a ≤ k * b.
Proof. intros. by apply Z.mul_le_mono_nonneg_l. Qed.

Lemma positive_pos x : IsPositive x = true → 0 < i x.
Proof. unfold IsPositive. rewrite BigDecFacts.Sign_one. lia. Qed.

Lemma start_spec x y w k :
  cfmmConstantMultiNoV x y w = Ok k →
  0 < i x ∧ 0 < i y ∧ 0 ≤ i w ∧
  2 * curve (i x) (i y) (i w) ≤ 2 * (P * P * P * i k) + 2 * P * i x * i y + P * P * i y + P * P * P.
Proof.
  unfold cfmmConstantMultiNoV, cfmmConstantMultiNoVY.
  destruct (IsPositive x) eqn:Hx; [|done]. destruct (IsPositive y) eqn:Hy; [|done].
  destruct (IsNegative w) eqn:Hw; [done|]. cbn [negb orb]. unfold IsNegative in Hw.
  rewrite BigDecFacts.Sign_neg in Hw. apply positive_pos in Hx, Hy.
  intros (k1 & H & Hk)%bind_Ok. apply bind_Ok in H as (x2 & Hx2 & H). apply bind_Ok in H as (y2 & Hy2 & H).
  apply bind_Ok in H as (s & Hs%BigDecFacts.Add_spec & H). apply bind_Ok in H as (s' & Hs'%BigDecFacts.Add_spec & H).
  apply mul_error in Hx2 as (e1 & E1 & B1), Hy2 as (e2 & E2 & B2), H as (e3 & E3 & B3), Hk as (e4 & E4 & B4).
  cbn [Clone i] in *. split_and!; [lia..|]. unfold curve.
  generalize BigDecFacts.P_pos. generalize dependent P. intros P E1 B1 E2 B2 E3 B3 E4 B4 HP. rewrite Hs', Hs in E3.
  assert (P * P * P * i k = i x * i y * (i x * i x + i y * i y + i w * P) + i x * i y * (e1 + e2)
    + P * i y * e3 + P * P * e4) as -> by nia.
  assert (0 ≤ i x * i y) by lia. assert (0 ≤ P * i y) by lia. nia.
Qed.

(** x^3 + x(y^2 + w), times P^3. *)
Definition side (x y w : Z) : Z := x * (x * x + y * y + w * P).

Lemma curve_side x y w : curve x y w = y * side x y w.
Proof. unfold curve, side. lia. Qed.

Lemma target_spec x y w yf t :
  targetKCalculator x y w yf = Ok t → 0 < i yf →
  0 < i x ∧ 0 < i y ∧ 0 ≤ i w ∧
  2 * curve (i x) (i y) (i w) ≤
    2 * (P * P * i yf * i t) + 2 * i yf * side (i x) (i yf) (i w)
    + 2 * P * i x * i y + P * P * i y + P * P * P + i yf * (2 * P * P + 2 * P) + 2 * P * i x * i yf.
Proof.
  unfold targetKCalculator. intros (k & Hk%start_spec & H)%bind_Ok Hyf.
  destruct Hk as (Hx & Hy & Hw & Hk). apply bind_Ok in H as (q & [_ Hq]%BigDecFacts.QuoMut_spec & H).
  apply bind_Ok in H as (yf2 & Hyf2 & H). apply bind_Ok in H as (s & Hs%BigDecFacts.AddMut_spec & H).
  apply bind_Ok in H as (x2 & Hx2 & H). apply bind_Ok in H as (inner & Hi%BigDecFacts.AddMut_spec & H).
  apply bind_Ok in H as (c & Hc & Ht%BigDecFacts.Sub_spec).
  apply mul_error in Hyf2 as (e1 & E1 & B1), Hx2 as (e2 & E2 & B2), Hc as (e3 & E3 & B3).
  cbn [Clone i] in *. split_and!; [done..|]. rewrite (Z.abs_eq (i yf)) in Hq by lia.
  unfold side. revert Hk. generalize (curve (i x) (i y) (i w)). intros K Hk.
  generalize BigDecFacts.P_pos. generalize dependent P. intros P Hq E1 B1 E2 B2 E3 B3 Hk HP.
  assert (P * P * i c = i x * (i x * i x + i yf * i yf + i w * P) + i x * (e1 + e2) + P * e3) as Ec by nia.
  assert (2 * (P * P * i k) ≤ 2 * (P * i q * i yf) + (P + 2) * i yf) as Eq by nia.
  clear Hq E1 E2 E3. rewrite Ht.
  pose proof (scale (i x) (e1 + e2) P ltac:(lia) ltac:(lia)). pose proof (scale P (2 * e3) P ltac:(lia) ltac:(lia)).
  pose proof (scale (i yf) (2 * (P * P * i c))
    (2 * (i x * (i x * i x + i yf * i yf + i w * P)) + 2 * (i x * P) + P * P) ltac:(lia) ltac:(lia)).
  pose proof (scale P _ _ ltac:(lia) Eq). lia.
Qed.

Lemma iter_spec x w yf f xf r :
  iterKCalculator x w yf = Ok f → f xf = Ok r →
  2 * (P * P * i r) ≤
    2 * (side (i xf) (i yf) (i w) - side (i x) (i yf) (i w)) + 3 * P * Z.abs (i x - i xf) + P * P.
Proof.
  unfold iterKCalculator. intros (q & Hq & H)%bind_Ok. apply bind_Ok in H as (l & Hl & H).
  apply bind_Ok in H as (l' & Hl'%BigDecFacts.AddMut_spec & H). apply bind_Ok in H as (yf2 & Hyf2 & H).
  apply bind_Ok in H as (l2 & Hl2%BigDecFacts.AddMut_spec & [= <-]).
  intros (xo & Hxo%BigDecFacts.Sub_spec & H)%bind_Ok. apply bind_Ok in H as (r1 & Hr1%BigDecFacts.AddMut_spec & H).
  apply bind_Ok in H as (r2 & Hr2 & H). apply bind_Ok in H as (r3 & Hr3%BigDecFacts.AddMut_spec & Hr).
  unfold MulInt64 in Hq. apply BigDecFacts.ret_checked_Ok in Hq as [-> _].
  apply mul_error in Hl as (e1 & E1 & B1), Hyf2 as (e2 & E2 & B2), Hr2 as (e3 & E3 & B3), Hr as (e4 & E4 & B4).
  cbn [Clone Neg NegMut i] in *. unfold side.
  generalize BigDecFacts.P_pos. generalize dependent P. intros P E1 B1 E2 B2 E3 B3 E4 B4 HP.
  rewrite <- Hxo. assert (i xf = i x - i xo) as -> by lia.
  assert (P * P * i r = (3 * i x - i xo) * i xo * i xo - (3 * (i x * i x) + i w * P + i yf * i yf) * i xo
    + (e3 - e1 - e2) * i xo + P * e4) as -> by nia.
  assert (2 * ((e3 - e1 - e2) * i xo) ≤ 3 * P * Z.abs (i xo)) by nia.
  pose proof (scale P (2 * e4) P ltac:(lia) ltac:(lia)). lia.
Qed.

Lemma solve_favours_pool x y w yIn xOut :
  solveCFMMBinarySearchMulti x y w yIn = Ok xOut →
  0 < i x ∧ 0 < i y ∧ 0 ≤ i w ∧ Z.abs (i yIn) < i y ∧ Z.abs (i xOut) < i x ∧
  curve (i x) (i y) (i w) ≤ curve (i x - i xOut) (i y + i yIn) (i w) + slack (i x) (i y).
Proof.
  unfold solveCFMMBinarySearchMulti. destruct (_ || IsNegative w); [done|].
  destruct (GTE (Abs yIn) y) eqn:Hy; [done|]. intros (yf & Hyf%BigDecFacts.Add_spec & H)%bind_Ok.
  apply bind_Ok in H as ([lo hi] & _ & H). apply bind_Ok in H as (t & Ht & H).
  apply bind_Ok in H as (f & Hf & H). apply bind_Ok in H as (xf & Hs & H).
  apply bind_Ok in H as (xo & Hxo%BigDecFacts.Sub_spec & H).
  destruct (GTE (Abs xo) x) eqn:Hx; [done|]. injection H as <-.
  assert (Z.abs (i yIn) < i y) as Hy'.
  { destruct (Z_lt_le_dec (Z.abs (i yIn)) (i y)) as [|Hl]; [done|]. by apply (BigDecFacts.GTE_iff (Abs yIn)) in Hl; rewrite Hl in Hy. }
  assert (Z.abs (i xo) < i x) as Hx'.
  { destruct (Z_lt_le_dec (Z.abs (i xo)) (i x)) as [|Hl]; [done|]. by apply (BigDecFacts.GTE_iff (Abs xo)) in Hl; rewrite Hl in Hx. }
  destruct (BinarySearch.BinarySearchBigDec f lo hi t _ _) as [x'| |] eqn:Hb; [|done..]. injection Hs as ->.
  apply BinarySearch.BinarySearchBigDec_found in Hb as (r & Hr & Hc).
  apply BinarySearch.CompareBigDec_up in Hc; [|done].
  apply target_spec in Ht as (Hx0 & Hy0 & Hw0 & Ht); [|lia].
  pose proof (iter_spec _ _ _ _ _ _ Hf Hr) as Hi. split_and!; [done..|].
  rewrite <- Hyf, (curve_side (i x - i xo)). replace (i x - i xo) with (i xf) in * by lia.
  replace (i x - i xf) with (i xo) in Hi by lia. unfold slack.
  revert Ht Hi. generalize (curve (i x) (i y) (i w)), (side (i xf) (i yf) (i w)), (side (i x) (i yf) (i w)).
  intros K A B Ht Hi. assert (2 ≤ P) as HP by done. revert Ht Hi HP. generalize P. intros P Ht Hi HP.
  assert (0 < i yf ≤ 2 * i y) as [Hf0 Hf1] by lia.
  pose proof (scale (i yf) _ _ ltac:(lia) Hi). pose proof (scale (2 * (P * P) * i yf) _ _ ltac:(nia) Hc).
  pose proof (scale (3 * P * i yf) (Z.abs (i xo)) (i x) ltac:(nia) ltac:(lia)).
  pose proof (scale (P * i x) _ _ ltac:(nia) Hf1). pose proof (scale (P * P) _ _ ltac:(nia) Hf1).
  pose proof (scale P _ _ ltac:(lia) Hf1). pose proof (scale (P * i y) _ _ ltac:(nia) HP).
  pose proof (scale (P * P) 0 P ltac:(nia) ltac:(lia)). lia.
Qed.

(** A stableswap solution never lowers the invariant.  When the curve is solved for the reserves
    [x] and [y] (with [rem] the other assets), an input [yIn] of y, which may be negative, and an output
    of x, the invariant xy(x^2 + y^2 + w) at the new reserves is at least the one at the old, up to the
    rounding of 36-digit arithmetic, [slack]; and less than all of either reserve moves. *)
Theorem stable_solution_favours_pool x y rem w yIn xOut :
  sumSquares ZeroBigDec rem = Ok w → solveCfmm x y rem yIn = Ok xOut →
  Z.abs (i yIn) < i y ∧ Z.abs (i xOut) < i x ∧
  curve (i x) (i y) (i w) ≤ curve (i x - i xOut) (i y + i yIn) (i w) + slack (i x) (i y).
Proof.
  intros Hw. unfold solveCfmm. rewrite Hw. cbn [mbind outcome_bind].
  by intros (_ & _ & _ & ?)%solve_favours_pool.
Qed.
End solve.

(** Ten units into a pool of a million of each. *)
Definition demo_reserve : t := mk (10 ^ 42).
Definition demo_out : t := mk 9999999999996123101198008953360840680.
Lemma stable_solution_favours_pool_witness :
  solveCfmm (D := sdk.ref_dec) demo_reserve demo_reserve [] (mk (10 ^ 37)) = Ok demo_out ∧
  curve (10 ^ 42) (10 ^ 42) 0 ≤ curve (10 ^ 42 - i demo_out) (10 ^ 42 + 10 ^ 37) 0 + slack (10 ^ 42) (10 ^ 42).
Proof.
  split; [by vm_compute|].
  apply (stable_solution_favours_pool (D := sdk.ref_dec) demo_reserve demo_reserve [] ZeroBigDec (mk (10 ^ 37)) demo_out).
  - done.
  - by vm_compute.
Defined.

End StableMath.
