(* ===== verification/Stableswap.v ===== *)
(** Stableswap pools: x/gamm/pool-models/stableswap (pool.go, pool_params.go, and the functions of amm.go
    that look at a pool), with the constants of x/gamm/types/constants.go, and the routines that pools of
    constant function markets share: x/gamm/pool-models/internal/cfmm_common/lp.go.

    A method with a pointer receiver returns the pool it leaves.  When it fails the caller drops the pool. *)
From Stdlib Require Import Ascii.
From stdpp Require Import prelude strings list sorting.
From S2P Require Import Prelude.
From S2P Require Import GoBig.
From S2P Require Import SdkDec.
From S2P Require Import SdkCoins.
From S2P Require Import Decimal.
From S2P Require Import DecimalText.
From S2P Require Import KV.
From S2P Require Import CLPool.
From S2P Require Import BinarySearch.
From S2P Require Import StableMath.
Local Open Scope Z_scope.

(** Methods of [sdk.Coins] that the pools use, a constant of the decimals, and which denominations and
    durations can be read. *)
Module pool_coins.
Class PoolCoins : Type := {
  Sub : coin.Coins → coin.Coins → outcome coin.Coins;
  AmountOfNoDenomValidation : coin.Coins → string → SdkInt.t;
  DenomsSubsetOf : coin.Coins → coin.Coins → bool;
  IsAnyGT : coin.Coins → coin.Coins → bool;
  Sort : coin.Coins → coin.Coins;
  LegacyMaxSortableDec : Dec.t;
  ValidateDenom : string → bool;
  ParseDuration : string → bool;
}.
Class PoolCoinsLaws (C : PoolCoins) : Prop := {
  Sub_spec a b r d : Sub a b = Ok r → coin.amt d r = coin.amt d a - coin.amt d b;
  AmountOfNoDenomValidation_spec c d : SdkInt.i (AmountOfNoDenomValidation c d) = coin.amt d c;
}.
End pool_coins.

(** *** cfmm_common/lp.go *)

(** What the shared routines need of a pool. *)
Module cfmm.
Class CFMMPool (P : Type) : Type := {
  GetTotalPoolLiquidity : P → coin.Coins;
  GetTotalShares : P → SdkInt.t;
  ExitPool : P → SdkInt.t → Dec.t → outcome (coin.Coins * P);
  SwapOutAmtGivenIn : P → coin.Coins → string → Dec.t → outcome (coin.Coin * P);
}.

Section shared.
  Context {D : sdk.LegacyDec} {C : coin.CoinOps} {PC : pool_coins.PoolCoins}.

(** The coins for a share of a pool; nothing else of the pool is read. *)
Fixpoint exitCoins (shareOutRatio : Dec.t) (poolLiquidity : coin.Coins) : outcome coin.Coins :=
  match poolLiquidity with
  | [] => Ok []
  | asset :: poolLiquidity =>
    x ← sdk.MulInt shareOutRatio (coin.Amount asset);
    exitAmt ← sdk.TruncateInt x;
    if sdk.IntLTE exitAmt (SdkInt.mk 0) then exitCoins shareOutRatio poolLiquidity
    else if sdk.IntGTE exitAmt (coin.Amount asset) then Err "too many shares out"
    else
      rest ← exitCoins shareOutRatio poolLiquidity;
      Ok ({| coin.Denom := coin.Denom asset; coin.Amount := exitAmt |} :: rest)
  end.
Definition CalcExitPool (totalShares : SdkInt.t) (poolLiquidity : coin.Coins) (exitingShares : SdkInt.t)
    (exitFee : Dec.t) : outcome coin.Coins :=
  if sdk.IntGTE exitingShares totalShares then Err "ErrLimitMaxAmount" else
  refundedShares ←
    (if negb (sdk.IsZero exitFee) then
       oneSubExitFee ← sdk.Sub (Dec.NewDec 1) exitFee;
       sdk.MulInt oneSubExitFee exitingShares
     else Ok (sdk.ToLegacyDec exitingShares));
  shareOutRatio ← sdk.QuoInt refundedShares totalShares;
  exitCoins shareOutRatio poolLiquidity.

(** The ratios of the coins, with the least and the greatest. *)
Fixpoint shareRatios (poolLiquidity tokensIn : coin.Coins) (minShareRatio maxShareRatio : Dec.t)
    : outcome (list Dec.t * Dec.t * Dec.t) :=
  match tokensIn with
  | [] => Ok ([], minShareRatio, maxShareRatio)
  | c :: tokensIn =>
    shareRatio ← sdk.QuoInt (sdk.ToLegacyDec (coin.Amount c))
                   (pool_coins.AmountOfNoDenomValidation poolLiquidity (coin.Denom c));
    let minShareRatio := if sdk.LT shareRatio minShareRatio then shareRatio else minShareRatio in
    let maxShareRatio := if sdk.GT shareRatio maxShareRatio then shareRatio else maxShareRatio in
    '(rest, lo, hi) ← shareRatios poolLiquidity tokensIn minShareRatio maxShareRatio;
    Ok (shareRatio :: rest, lo, hi)
  end.
Fixpoint remainingCoins (poolLiquidity tokensIn : coin.Coins) (ratios : list Dec.t) (minShareRatio : Dec.t)
    (remCoins : coin.Coins) : outcome coin.Coins :=
  match tokensIn, ratios with
  | c :: tokensIn, ratio :: ratios =>
    if sdk.Equal ratio minShareRatio then remainingCoins poolLiquidity tokensIn ratios minShareRatio remCoins else
    x ← sdk.MulInt minShareRatio (pool_coins.AmountOfNoDenomValidation poolLiquidity (coin.Denom c));
    x ← sdk.Ceil x;
    usedAmount ← sdk.TruncateInt x;
    newAmt ← sdk.IntSub (coin.Amount c) usedAmount;
    remCoins ← (if sdk.IntIsZero newAmt then Ok remCoins
                else coin.Add remCoins [{| coin.Denom := coin.Denom c; coin.Amount := newAmt |}]);
    remainingCoins poolLiquidity tokensIn ratios minShareRatio remCoins
  | _, _ => Ok remCoins
  end.
Definition MaximalExactRatioJoin (poolLiquidity : coin.Coins) (totalShares : SdkInt.t) (tokensIn : coin.Coins)
    : outcome (SdkInt.t * coin.Coins) :=
  '(coinShareRatios, minShareRatio, maxShareRatio) ←
    shareRatios poolLiquidity tokensIn pool_coins.LegacyMaxSortableDec (Dec.NewDec 0);
  if sdk.Equal minShareRatio pool_coins.LegacyMaxSortableDec then
    Err "unexpected error in MaximalExactRatioJoin"
  else
    x ← sdk.MulInt minShareRatio totalShares;
    numShares ← sdk.TruncateInt x;
    remCoins ← (if sdk.Equal minShareRatio maxShareRatio then Ok []
                else remainingCoins poolLiquidity tokensIn coinShareRatios minShareRatio []);
    Ok (numShares, remCoins).

Section with_pool.
  Context {P : Type} {PI : CFMMPool P}.

Fixpoint swapEach (pool : P) (inTokens : coin.Coins) (swapToDenom : string) (spreadFactor : Dec.t)
    (tokenOutAmt : SdkInt.t) : outcome SdkInt.t :=
  match inTokens with
  | [] => Ok tokenOutAmt
  | c :: inTokens =>
    if String.eqb (coin.Denom c) swapToDenom then swapEach pool inTokens swapToDenom spreadFactor tokenOutAmt
    else
      coins ← coin.NewCoins [c];
      '(tokenOut, pool) ← SwapOutAmtGivenIn pool coins swapToDenom spreadFactor;
      tokenOutAmt ← sdk.IntAdd tokenOutAmt (coin.Amount tokenOut);
      swapEach pool inTokens swapToDenom spreadFactor tokenOutAmt
  end.
Definition SwapAllCoinsToSingleAsset (pool : P) (inTokens : coin.Coins) (swapToDenom : string)
    (spreadFactor : Dec.t) : outcome SdkInt.t :=
  swapEach pool inTokens swapToDenom spreadFactor
    (pool_coins.AmountOfNoDenomValidation inTokens swapToDenom).

Definition maxIterations : nat := 300.
Definition joinTolerance : BinarySearch.ErrTolerance :=
  {| BinarySearch.AdditiveTolerance := Some (Dec.NewDec 1); BinarySearch.MultiplicativeTolerance := None;
     BinarySearch.RoundingDir := BinarySearch.RoundDown |}.
Definition estimateCoinOutGivenShares (tokenIn : coin.Coin)
    (poolWithAddedLiquidityAndShares : coin.Coin → SdkInt.t → outcome P) (sharesIn : SdkInt.t)
    : outcome SdkInt.t :=
  poolWithUpdatedLiquidity ← poolWithAddedLiquidityAndShares tokenIn sharesIn;
  '(exitedCoins, pool) ← ExitPool poolWithUpdatedLiquidity sharesIn (Dec.NewDec 0);
  SwapAllCoinsToSingleAsset pool exitedCoins (coin.Denom tokenIn) (Dec.NewDec 0).
Definition BinarySearchSingleAssetJoin (pool : P) (tokenIn : coin.Coin)
    (poolWithAddedLiquidityAndShares : coin.Coin → SdkInt.t → outcome P) : outcome SdkInt.t :=
  existingTokenLiquidity ← coin.AmountOf (GetTotalPoolLiquidity pool) (coin.Denom tokenIn);
  let existingLPShares := GetTotalShares pool in
  x ← sdk.IntMul existingLPShares (coin.Amount tokenIn);
  x ← sdk.QuoInt (sdk.ToLegacyDec x) existingTokenLiquidity;
  x ← sdk.Ceil x;
  LPShareUpperBound ← sdk.TruncateInt x;
  BinarySearch.BinarySearch (estimateCoinOutGivenShares tokenIn poolWithAddedLiquidityAndShares)
    (SdkInt.mk 0) LPShareUpperBound (coin.Amount tokenIn) joinTolerance maxIterations.
End with_pool.
End shared.
End cfmm.

(** *** pool.go and amm.go *)

Module Stableswap.
Record PoolParams := { SwapFee : Dec.t; ExitFee : Dec.t }.
Record Pool := {
  Address : string;
  Id : Z;
  Parameters : PoolParams;
  FuturePoolGovernor : string;
  TotalShares : coin.Coin;
  PoolLiquidity : coin.Coins;
  ScalingFactors : list Z;
  ScalingFactorController : string
}.
Definition set_liquidity l (p : Pool) : Pool :=
  {| Address := Address p; Id := Id p; Parameters := Parameters p; FuturePoolGovernor := FuturePoolGovernor p;
     TotalShares := TotalShares p; PoolLiquidity := l; ScalingFactors := ScalingFactors p;
     ScalingFactorController := ScalingFactorController p |}.
Definition set_shares n (p : Pool) : Pool :=
  {| Address := Address p; Id := Id p; Parameters := Parameters p; FuturePoolGovernor := FuturePoolGovernor p;
     TotalShares := {| coin.Denom := coin.Denom (TotalShares p); coin.Amount := n |};
     PoolLiquidity := PoolLiquidity p; ScalingFactors := ScalingFactors p;
     ScalingFactorController := ScalingFactorController p |}.
Definition set_scaling f (p : Pool) : Pool :=
  {| Address := Address p; Id := Id p; Parameters := Parameters p; FuturePoolGovernor := FuturePoolGovernor p;
     TotalShares := TotalShares p; PoolLiquidity := PoolLiquidity p; ScalingFactors := f;
     ScalingFactorController := ScalingFactorController p |}.

Definition StableswapMinScaledAmtPerAsset : Z := 1.
Definition ScalingFactorMultiplier : Z := 1.
Definition MinNumOfAssetsInPool : nat := 2.
Definition MaxNumOfAssetsInPool : nat := 8.

Definition NumAssets (p : Pool) : nat := length (PoolLiquidity p).

(** [p.ScalingFactors[i]] for the first coin of the denomination; 0 if there is none. *)
Fixpoint scaling_factor (denom : string) (l : coin.Coins) (factors : list Z) : outcome Z :=
  match l with
  | [] => Ok 0
  | c :: l =>
    match factors with
    | [] => if String.eqb denom (coin.Denom c) then Panic "index out of range" else scaling_factor denom l []
    | f :: factors => if String.eqb denom (coin.Denom c) then Ok f else scaling_factor denom l factors
    end
  end.
Definition GetScalingFactorByDenom (p : Pool) (denom : string) : outcome Z :=
  scaling_factor denom (PoolLiquidity p) (ScalingFactors p).

Definition applyScalingFactorMultiplier (scalingFactors : list Z) : outcome (list Z) :=
  let newScalingFactors := (λ f, f * ScalingFactorMultiplier mod 2 ^ 64) <$> scalingFactors in
  if existsb (λ '(n, f), n <? f) (zip newScalingFactors scalingFactors) then Err "ErrInvalidScalingFactors"
  else Ok newScalingFactors.

Definition validateScalingFactors (scalingFactors : list Z) (numAssets : nat) : outcome unit :=
  if negb (length scalingFactors =? numAssets)%nat then Err "ErrInvalidScalingFactorLength"
  else if existsb (λ f, BinarySearch.int64 f <=? 0) scalingFactors then Err "ErrInvalidScalingFactors"
  else Ok tt.

(** The two coins of a swap first, the others after them in order, each with its factor. *)
Definition scaled_coin : Type := coin.Coin * Z.
Fixpoint reorder (first second : string) (l : list scaled_coin) (a b : option scaled_coin)
    (others : list scaled_coin) : option scaled_coin * option scaled_coin * list scaled_coin :=
  match l with
  | [] => (a, b, others)
  | x :: l =>
    if String.eqb (coin.Denom x.1) first then reorder first second l (Some x) b others
    else if String.eqb (coin.Denom x.1) second then reorder first second l a (Some x) others
    else reorder first second l a b (others ++ [x])
  end.
(** What [make] leaves in an entry that is not written. *)
Definition zero_coin : scaled_coin := ({| coin.Denom := ""; coin.Amount := SdkInt.mk 0 |}, 0).
(** The others overflow their part of the result exactly if there are more than [len(coins) - 2] of them;
    a pool of one coin has no place for a second. *)
Definition reorderReservesAndScalingFactors (p : Pool) (first second : string)
    : outcome (coin.Coins * list Z) :=
  let coins := PoolLiquidity p in
  if (length (ScalingFactors p) <? length coins)%nat then
    (* the loop stops at the first coin without a factor, if not before it *)
    match coins with
    | [_] => Panic "index out of range"
    | _ =>
      let '(_, _, others) := reorder first second (zip coins (ScalingFactors p ++ [0])) None None [] in
      if (length coins - 2 <? length others)%nat then Err "denoms not found in pool liquidity"
      else Panic "index out of range"
    end
  else
  match zip coins (ScalingFactors p) with
  | [] => Ok ([], [])
  | [x] => if String.eqb (coin.Denom x.1) first then Ok ([x.1], [x.2]) else Panic "index out of range"
  | l =>
    let '(a, b, others) := reorder first second l None None [] in
    if (length coins - 2 <? length others)%nat then Err "denoms not found in pool liquidity" else
    let all := default zero_coin a :: default zero_coin b :: others in
    let all := all ++ replicate (length coins - length all) zero_coin in
    Ok (all.*1, all.*2)
  end.

Section pool.
  Context {D : sdk.LegacyDec} {C : coin.CoinOps} {PC : pool_coins.PoolCoins} {A : addr.Addresses}.

Definition StableswapMaxScaledAmtPerAsset : outcome SdkInt.t :=
  p ← sdk.Power (Dec.NewDec 10) 34; sdk.TruncateInt p.

(** *** pool_params.go *)

Definition PoolParams_Validate (params : PoolParams) : outcome unit :=
  if sdk.IsNegative (ExitFee params) then Err "ErrNegativeExitFee"
  else if sdk.GTE (ExitFee params) (Dec.NewDec 1) then Err "ErrTooMuchExitFee"
  else if sdk.IsNegative (SwapFee params) then Err "ErrNegativeSpreadFactor"
  else if sdk.GTE (SwapFee params) (Dec.NewDec 1) then Err "ErrTooMuchSpreadFactor"
  else Ok tt.

(** *** Validation *)

(** [asset != liquidityCopy[i]] compares two coins of one slice: they differ if their places do. *)
Fixpoint validateAssets (liquidity sorted : coin.Coins) (scalingFactors : list Z) : outcome unit :=
  match liquidity, sorted, scalingFactors with
  | asset :: liquidity, asset' :: sorted, f :: scalingFactors =>
    if negb (String.eqb (coin.Denom asset) (coin.Denom asset'))
       || negb (SdkInt.i (coin.Amount asset) =? SdkInt.i (coin.Amount asset')) then Err "UnsortedPoolLiqError"
    else
      scaledAmount ← sdk.IntQuo (coin.Amount asset) (SdkInt.mk (BinarySearch.int64 f));
      max ← StableswapMaxScaledAmtPerAsset;
      if sdk.IntGT scaledAmount max then Err "ErrHitMaxScaledAssets"
      else if sdk.IntLT scaledAmount (SdkInt.mk StableswapMinScaledAmtPerAsset) then Err "ErrHitMinScaledAssets"
      else validateAssets liquidity sorted scalingFactors
  | _, _, _ => Ok tt
  end.
Definition validatePoolLiquidity (liquidity : coin.Coins) (scalingFactors : list Z) : outcome unit :=
  let liquidityCount := length liquidity in
  if negb (liquidityCount =? length scalingFactors)%nat then Err "LiquidityAndScalingFactorCountMismatchError"
  else if (liquidityCount <? MinNumOfAssetsInPool)%nat then Err "ErrTooFewPoolAssets"
  else if (MaxNumOfAssetsInPool <? liquidityCount)%nat then Err "ErrTooManyPoolAssets"
  else validateAssets liquidity (pool_coins.Sort liquidity) scalingFactors.

Definition validateScalingFactorController (scalingFactorController : string) : outcome unit :=
  if String.eqb scalingFactorController "" then Ok tt
  else _ ← addr.AccAddressFromBech32 scalingFactorController; Ok tt.

(** *** Scaling *)

Definition scaleCoin (p : Pool) (input : coin.Coin) (round : BinarySearch.RoundingDirection) : outcome BigDec.t :=
  scalingFactor ← GetScalingFactorByDenom p (coin.Denom input);
  BinarySearch.DivIntByU64ToBigDec (coin.Amount input) scalingFactor round.
Definition getDescaledPoolAmt (p : Pool) (denom : string) (amount : BigDec.t) : outcome Dec.t :=
  scalingFactor ← GetScalingFactorByDenom p denom;
  x ← BigDec.MulInt64 amount (BinarySearch.int64 scalingFactor);
  Ok (BigDec.ToDec x).
Definition scaledSortedPoolReserves (p : Pool) (first second : string) (round : BinarySearch.RoundingDirection)
    : outcome (list BigDec.t) :=
  '(reorderedLiquidity, reorderedScalingFactors) ← reorderReservesAndScalingFactors p first second;
  _ ← validateScalingFactors reorderedScalingFactors (length reorderedLiquidity);
  BinarySearch.DivCoinAmtsByU64ToBigDec reorderedLiquidity reorderedScalingFactors round.

(** *** Changing the pool *)

Definition updatePoolLiquidityForSwap (p : Pool) (tokensIn tokensOut : coin.Coins) : outcome Pool :=
  l ← coin.Add (PoolLiquidity p) tokensIn;
  l ← pool_coins.Sub l tokensOut;
  if negb (length l =? NumAssets p)%nat then
    Panic "updatePoolLiquidityForSwap changed number of tokens in pool"
  else Ok (set_liquidity l p).
Definition updatePoolLiquidityForExit (p : Pool) (tokensOut : coin.Coins) (exitingShares : SdkInt.t)
    : outcome Pool :=
  p ← updatePoolLiquidityForSwap p [] tokensOut;
  n ← sdk.IntSub (coin.Amount (TotalShares p)) exitingShares;
  Ok (set_shares n p).
Definition updatePoolForJoin (p : Pool) (tokensIn : coin.Coins) (newShares : SdkInt.t) : outcome Pool :=
  l ← coin.Add (PoolLiquidity p) tokensIn;
  if negb (length l =? NumAssets p)%nat then Panic "updatePoolForJoin changed number of tokens in pool"
  else
    n ← sdk.IntAdd (coin.Amount (TotalShares p)) newShares;
    Ok (set_shares n (set_liquidity l p)).

(** *** Swaps *)

Definition oneMinus (spreadFactor : Dec.t) : outcome BigDec.t :=
  d ← sdk.Sub (Dec.NewDec 1) spreadFactor; BigDec.BigDecFromDecMut d.

(** [reserves[0], reserves[1], reserves[2:]] *)
Definition split_reserves (reserves : list BigDec.t) : outcome (BigDec.t * BigDec.t * list BigDec.t) :=
  match reserves with a :: b :: rest => Ok (a, b, rest) | _ => Panic "index out of range" end.

Definition calcOutAmtGivenIn (p : Pool) (tokenIn : coin.Coin) (tokenOutDenom : string) (spreadFactor : Dec.t)
    : outcome Dec.t :=
  reserves ← scaledSortedPoolReserves p (coin.Denom tokenIn) tokenOutDenom BinarySearch.RoundDown;
  '(tokenInSupply, tokenOutSupply, remReserves) ← split_reserves reserves;
  tokenInDec ← scaleCoin p tokenIn BinarySearch.RoundDown;
  m ← oneMinus spreadFactor;
  ammIn ← BigDec.Mul tokenInDec m;
  cfmmOut ← StableMath.solveCfmm tokenOutSupply tokenInSupply remReserves ammIn;
  getDescaledPoolAmt p tokenOutDenom cfmmOut.

Definition calcInAmtGivenOut (p : Pool) (tokenOut : coin.Coin) (tokenInDenom : string) (spreadFactor : Dec.t)
    : outcome Dec.t :=
  reserves ← scaledSortedPoolReserves p tokenInDenom (coin.Denom tokenOut) BinarySearch.RoundDown;
  '(tokenInSupply, tokenOutSupply, remReserves) ← split_reserves reserves;
  tokenOutAmount ← scaleCoin p tokenOut BinarySearch.RoundUp;
  cfmmIn ← StableMath.solveCfmm tokenInSupply tokenOutSupply remReserves (BigDec.Neg tokenOutAmount);
  m ← oneMinus spreadFactor;
  inAmt ← BigDec.QuoRoundUpMut (BigDec.Neg cfmmIn) m;
  getDescaledPoolAmt p tokenInDenom inAmt.

Definition CalcOutAmtGivenIn (p : Pool) (tokenIn : coin.Coins) (tokenOutDenom : string) (spreadFactor : Dec.t)
    : outcome coin.Coin :=
  match tokenIn with
  | [c] =>
    outAmtDec ← calcOutAmtGivenIn p c tokenOutDenom spreadFactor;
    tokenOutAmt ← sdk.TruncateInt outAmtDec;
    if negb (sdk.IntIsPositive tokenOutAmt) then Err "token amount must be positive"
    else coin.NewCoin tokenOutDenom tokenOutAmt
  | _ => Err "stableswap CalcOutAmtGivenIn: tokenIn is of wrong length"
  end.
Definition SwapOutAmtGivenIn (p : Pool) (tokenIn : coin.Coins) (tokenOutDenom : string) (spreadFactor : Dec.t)
    : outcome (coin.Coin * Pool) :=
  l ← coin.Add (PoolLiquidity p) tokenIn;
  _ ← validatePoolLiquidity l (ScalingFactors p);
  tokenOut ← CalcOutAmtGivenIn p tokenIn tokenOutDenom spreadFactor;
  out ← coin.NewCoins [tokenOut];
  p ← updatePoolLiquidityForSwap p tokenIn out;
  Ok (tokenOut, p).

Definition CalcInAmtGivenOut (p : Pool) (tokenOut : coin.Coins) (tokenInDenom : string) (spreadFactor : Dec.t)
    : outcome coin.Coin :=
  match tokenOut with
  | [c] =>
    amt ← calcInAmtGivenOut p c tokenInDenom spreadFactor;
    amt ← sdk.Ceil amt;
    tokenInAmt ← sdk.TruncateInt amt;
    if negb (sdk.IntIsPositive tokenInAmt) then Err "token amount must be positive"
    else coin.NewCoin tokenInDenom tokenInAmt
  | _ => Err "stableswap CalcInAmtGivenOut: tokenOut is of wrong length"
  end.
Definition SwapInAmtGivenOut (p : Pool) (tokenOut : coin.Coins) (tokenInDenom : string) (spreadFactor : Dec.t)
    : outcome (coin.Coin * Pool) :=
  tokenIn ← CalcInAmtGivenOut p tokenOut tokenInDenom spreadFactor;
  l ← coin.Add (PoolLiquidity p) [tokenIn];
  _ ← validatePoolLiquidity l (ScalingFactors p);
  tokens ← coin.NewCoins [tokenIn];
  p ← updatePoolLiquidityForSwap p tokens tokenOut;
  Ok (tokenIn, p).

Definition spotPrice (p : Pool) (quoteDenom baseDenom : string) : outcome Dec.t :=
  a ← coin.NewCoin baseDenom (SdkInt.mk 1);
  calcOutAmtGivenIn p a quoteDenom (Dec.NewDec 0).
Definition SpotPrice (p : Pool) (quoteAssetDenom baseAssetDenom : string) : outcome BigDec.t :=
  d ← spotPrice p quoteAssetDenom baseAssetDenom; BigDec.BigDecFromDecMut d.

(** *** Joining and leaving *)

Definition Copy (p : Pool) : outcome Pool := l ← coin.NewCoins (PoolLiquidity p); Ok (set_liquidity l p).
Definition CalcExitPoolCoinsFromShares (p : Pool) (exitingShares : SdkInt.t) (exitFee : Dec.t)
    : outcome coin.Coins :=
  cfmm.CalcExitPool (coin.Amount (TotalShares p)) (PoolLiquidity p) exitingShares exitFee.
Definition ExitPool (p : Pool) (exitingShares : SdkInt.t) (exitFee : Dec.t) : outcome (coin.Coins * Pool) :=
  exitingCoins ← CalcExitPoolCoinsFromShares p exitingShares exitFee;
  postExitLiquidity ← pool_coins.Sub (PoolLiquidity p) exitingCoins;
  _ ← validatePoolLiquidity postExitLiquidity (ScalingFactors p);
  p ← updatePoolLiquidityForExit p exitingCoins exitingShares;
  Ok (exitingCoins, p).

#[global] Instance stable_cfmm : cfmm.CFMMPool Pool := {
  cfmm.GetTotalPoolLiquidity := PoolLiquidity;
  cfmm.GetTotalShares p := coin.Amount (TotalShares p);
  cfmm.ExitPool := ExitPool;
  cfmm.SwapOutAmtGivenIn := SwapOutAmtGivenIn
}.

Fixpoint sumBigDec (acc : BigDec.t) (l : list BigDec.t) : outcome BigDec.t :=
  match l with [] => Ok acc | x :: l => acc ← BigDec.Add acc x; sumBigDec acc l end.
Definition singleAssetJoinSpreadFactorRatio (p : Pool) (tokenInDenom : string) : outcome Dec.t :=
  tokenOut ← match PoolLiquidity p with
             | [] => Panic "index out of range"
             | c :: rest =>
               if String.eqb (coin.Denom c) tokenInDenom then
                 match rest with [] => Panic "index out of range" | c :: _ => Ok c end
               else Ok c
             end;
  scaledLiquidity ← scaledSortedPoolReserves p tokenInDenom (coin.Denom tokenOut) BinarySearch.RoundDown;
  total ← sumBigDec BigDec.ZeroBigDec scaledLiquidity;
  first ← match scaledLiquidity with [] => Panic "index out of range" | x :: _ => Ok x end;
  ratio ← BigDec.Quo first total;
  sdk.Sub (Dec.NewDec 1) (BigDec.ToDec ratio).

Definition poolWithAddedLiquidityAndShares (p : Pool) (newLiquidity : coin.Coin) (newShares : SdkInt.t)
    : outcome Pool :=
  paCopy ← Copy p;
  l ← coin.NewCoins [newLiquidity];
  updatePoolForJoin paCopy l newShares.
Definition calcSingleAssetJoinShares (p : Pool) (tokenIn : coin.Coin) (spreadFactor : Dec.t) : outcome SdkInt.t :=
  spreadFactorApplicableRatio ← singleAssetJoinSpreadFactorRatio p (coin.Denom tokenIn);
  x ← sdk.Mul spreadFactor spreadFactorApplicableRatio;
  oneMinusSpreadFactor ← sdk.Sub (Dec.NewDec 1) x;
  x ← sdk.Mul (sdk.ToLegacyDec (coin.Amount tokenIn)) oneMinusSpreadFactor;
  tokenInAmtAfterFee ← sdk.TruncateInt x;
  c ← coin.NewCoin (coin.Denom tokenIn) tokenInAmtAfterFee;
  cfmm.BinarySearchSingleAssetJoin p c (poolWithAddedLiquidityAndShares p).

Definition joinPoolSharesInternal (p : Pool) (tokensIn : coin.Coins) (spreadFactor : Dec.t)
    : outcome (SdkInt.t * coin.Coins * Pool) :=
  if negb (pool_coins.DenomsSubsetOf tokensIn (PoolLiquidity p)) then
    Err "attempted joining pool with assets that do not exist in pool"
  else
    '(numShares, tokensJoined) ←
      match tokensIn with
      | [c] =>
        if sdk.IntGT (coin.Amount c) (SdkInt.mk 1) then
          numShares ← calcSingleAssetJoinShares p c spreadFactor;
          Ok (numShares, tokensIn)
        else if negb (1 =? NumAssets p)%nat then
          Err "stableswap pool only supports LP'ing with one asset, or all assets in pool"
        else
          '(numShares, remCoins) ←
            cfmm.MaximalExactRatioJoin (PoolLiquidity p) (coin.Amount (TotalShares p)) tokensIn;
          tokensJoined ← pool_coins.Sub tokensIn remCoins;
          Ok (numShares, tokensJoined)
      | _ =>
        if negb (length tokensIn =? NumAssets p)%nat then
          Err "stableswap pool only supports LP'ing with one asset, or all assets in pool"
        else
          '(numShares, remCoins) ←
            cfmm.MaximalExactRatioJoin (PoolLiquidity p) (coin.Amount (TotalShares p)) tokensIn;
          tokensJoined ← pool_coins.Sub tokensIn remCoins;
          Ok (numShares, tokensJoined)
      end;
    p ← updatePoolForJoin p tokensJoined numShares;
    _ ← validatePoolLiquidity (PoolLiquidity p) (ScalingFactors p);
    Ok (numShares, tokensJoined, p).
Definition CalcJoinPoolShares (p : Pool) (tokensIn : coin.Coins) (spreadFactor : Dec.t)
    : outcome (SdkInt.t * coin.Coins) :=
  pCopy ← Copy p;
  '(numShares, tokensJoined, _) ← joinPoolSharesInternal pCopy tokensIn spreadFactor;
  Ok (numShares, tokensJoined).
Definition CalcJoinPoolNoSwapShares (p : Pool) (tokensIn : coin.Coins) (spreadFactor : Dec.t)
    : outcome (SdkInt.t * coin.Coins) :=
  if negb (length tokensIn =? NumAssets p)%nat || negb (pool_coins.DenomsSubsetOf tokensIn (PoolLiquidity p)) then
    Err "no-swap joins require LP'ing with all assets in pool"
  else
    '(numShares, remainingTokensIn) ←
      cfmm.MaximalExactRatioJoin (PoolLiquidity p) (coin.Amount (TotalShares p)) tokensIn;
    tokensJoined ← pool_coins.Sub tokensIn remainingTokensIn;
    if pool_coins.IsAnyGT tokensJoined tokensIn then Err "an error has occurred, more coins joined than token In"
    else Ok (numShares, tokensJoined).
Definition JoinPool (p : Pool) (tokensIn : coin.Coins) (spreadFactor : Dec.t) : outcome (SdkInt.t * Pool) :=
  '(numShares, _, p) ← joinPoolSharesInternal p tokensIn spreadFactor;
  Ok (numShares, p).
Definition JoinPoolNoSwap (p : Pool) (tokensIn : coin.Coins) (spreadFactor : Dec.t) : outcome (SdkInt.t * Pool) :=
  '(newShares, tokensJoined) ← CalcJoinPoolNoSwapShares p tokensIn spreadFactor;
  p ← updatePoolForJoin p tokensJoined newShares;
  Ok (newShares, p).

Definition SetScalingFactors (p : Pool) (scalingFactors : list Z) (sender : string) : outcome Pool :=
  if negb (String.eqb sender (ScalingFactorController p)) then Err "ErrNotScalingFactorGovernor" else
  scalingFactors ← applyScalingFactorMultiplier scalingFactors;
  _ ← validateScalingFactors scalingFactors (NumAssets p);
  _ ← validatePoolLiquidity (PoolLiquidity p) scalingFactors;
  Ok (set_scaling scalingFactors p).

(** *** Creating a pool *)

Definition GAMMTokenPrefix : string := "gamm/pool/".
Definition GetPoolShareDenom (poolId : Z) : string :=
  GAMMTokenPrefix +:+ String.string_of_list_ascii (BigText.MarshalText poolId).
Definition ValidateFutureGovernor (governor : string) : outcome unit :=
  if String.eqb governor "" then Ok tt else
  match addr.AccAddressFromBech32 governor with
  | Ok _ => Ok tt
  | Panic e => Panic e
  | Err _ =>
    let duration s := if pool_coins.ParseDuration (String.string_of_list_ascii s) then Ok tt
                      else Err "invalid future governor"%string in
    match BigText.Split ","%char (KV.text governor) with
    | [lpTokenStr; lockTimeStr] =>
      if pool_coins.ValidateDenom (String.string_of_list_ascii lpTokenStr) then duration lockTimeStr
      else Err "invalid future governor"
    | [lockTimeStr] => duration lockTimeStr
    | _ => Err "invalid future governor"
    end
  end.
Definition InitPoolSharesSupply : SdkInt.t := SdkInt.mk (100 * 10 ^ 18).
Definition NewStableswapPool
    (poolId : Z) (stableswapPoolParams : PoolParams) (initialLiquidity : coin.Coins) (scalingFactors : list Z)
    (scalingFactorController futureGovernor : string) : outcome Pool :=
  let scalingFactors :=
    match scalingFactors with [] => replicate (length initialLiquidity) 1 | _ => scalingFactors end in
  scalingFactors ← applyScalingFactorMultiplier scalingFactors;
  _ ← validateScalingFactors scalingFactors (length initialLiquidity);
  _ ← validatePoolLiquidity initialLiquidity scalingFactors;
  _ ← ValidateFutureGovernor futureGovernor;
  shares ← coin.NewCoin (GetPoolShareDenom poolId) InitPoolSharesSupply;
  Ok {| Address := addr.AddressString (addr.NewPoolAddress poolId); Id := poolId;
        Parameters := stableswapPoolParams; FuturePoolGovernor := futureGovernor; TotalShares := shares;
        PoolLiquidity := initialLiquidity; ScalingFactors := scalingFactors;
        ScalingFactorController := scalingFactorController |}.
Definition GetAddress (p : Pool) : outcome addr.AccAddress :=
  CLPool.Pool.or_panic (addr.AccAddressFromBech32 (Address p)) "could not bech32 decode address of pool".
End pool.
End Stableswap.
