(* ===== verification/StableswapProps.v ===== *)
(** A swap against a stableswap pool does not lower the pool's invariant, whatever the scaling factors, the
    spread factor and the rounding of amounts. *)
From stdpp Require Import prelude strings list sorting.
From S2P Require Import Prelude.
From S2P Require Import GoBig.
From S2P Require Import SdkDec.
From S2P Require Import SdkCoins.
From S2P Require Import ZSums.
From S2P Require Import Decimal.
From S2P Require Import DecimalFacts.
From S2P Require Import BinarySearch.
From S2P Require Import StableMath.
From S2P Require Import Stableswap.
Local Open Scope Z_scope.

Module StableswapProps.
Import StableMath.
Import Stableswap.
#[local] Abbreviation P := BigDecFacts.P.

(** The amount of a coin over its scaling factor, with 36 digits, rounded down. *)
Definition scaled (amount factor : Z) : Z := amount * P / factor.

(** *** Reserves by denomination *)

Definition denoms (l : list scaled_coin) : list string := (λ x, coin.Denom x.1) <$> l.

Lemma amt_unique (l : coin.Coins) c :
  NoDup (coin.Denom <$> l) → c ∈ l → coin.amt (coin.Denom c) l = SdkInt.i (coin.Amount c).
Proof.
  induction l as [|x l IH]; [by intros _ ?%elem_of_nil|]. cbn [fmap list_fmap].
  intros [Hx Hl]%NoDup_cons. intros [->|Hc]%elem_of_cons; unfold coin.amt; cbn [sumZ].
  - rewrite bool_decide_eq_true_2 by done. enough (coin.amt (coin.Denom x) l = 0) as E by (unfold coin.amt in E; lia).
    unfold coin.amt. rewrite (sumZ_ext _ (λ _, 0)); [clear; induction l; cbn [sumZ]; lia|].
    intros y Hy. rewrite bool_decide_eq_false_2; [done|]. intros E. apply Hx. rewrite <- E. by apply list_elem_of_fmap_2.
  - rewrite bool_decide_eq_false_2; [by apply IH|]. intros E. apply Hx. rewrite E. by apply list_elem_of_fmap_2.
Qed.

Lemma amt_single_here c : coin.amt (coin.Denom c) [c] = SdkInt.i (coin.Amount c).
Proof. unfold coin.amt. cbn [sumZ]. rewrite bool_decide_eq_true_2 by done. apply Z.add_0_r. Qed.

Lemma amt_single_other d c : d ≠ coin.Denom c → coin.amt d [c] = 0.
Proof. intros H. unfold coin.amt. cbn [sumZ]. rewrite bool_decide_eq_false_2; [done|congruence]. Qed.

Lemma scaling_factor_zip l f x :
  NoDup (coin.Denom <$> l) → x ∈ zip l f → scaling_factor (coin.Denom x.1) l f = Ok x.2.
Proof.
  revert f. induction l as [|c l IH]; intros f; [by intros _ ?%elem_of_nil|].
  destruct f as [|s f]; [by intros _ ?%elem_of_nil|]. cbn [zip zip_with fmap list_fmap scaling_factor].
  intros [Hc Hl]%NoDup_cons [->|Hx]%elem_of_cons; cbn [fst snd]; [by rewrite String.eqb_refl|].
  destruct (String.eqb_spec (coin.Denom x.1) (coin.Denom c)) as [E|_]; [|by apply IH].
  destruct Hc. rewrite <- E. apply list_elem_of_fmap_2. destruct x. by apply elem_of_zip_l in Hx.
Qed.

(** What the reordering finds: the coin of the first denomination, and of the second. *)
Definition found (denom : string) (l : list scaled_coin) (a : option scaled_coin) : Prop :=
  match a with Some x => x ∈ l ∧ coin.Denom x.1 = denom | None => True end.

Lemma reorder_found first second all l a b others a' b' others' :
  first ≠ second → (∀ x, x ∈ l → x ∈ all) → found first all a → found second all b →
  reorder first second l a b others = (a', b', others') → found first all a' ∧ found second all b'.
Proof.
  intros Hne. revert a b others. induction l as [|x l IH]; intros a b others Hl Ha Hb; cbn [reorder].
  - by intros [= <- <- _].
  - assert (x ∈ all) as Hx by (apply Hl; by left). assert (∀ y, y ∈ l → y ∈ all) as Hl' by (intros y Hy; apply Hl; by right).
    destruct (String.eqb_spec (coin.Denom x.1) first); [by apply IH|].
    destruct (String.eqb_spec (coin.Denom x.1) second); by apply IH.
Qed.

Section swap.
  Context {D : sdk.LegacyDec} {L : sdk.LegacyDecLaws D} {C : coin.CoinOps} {CL : coin.CoinLaws C}
    {PC : pool_coins.PoolCoins} {PL : pool_coins.PoolCoinsLaws PC}.

Lemma div_down n f r :
  0 ≤ SdkInt.i n → 0 < BinarySearch.int64 f → BinarySearch.DivIntByU64ToBigDec n f BinarySearch.RoundDown = Ok r →
  BigDec.i r = scaled (SdkInt.i n) (BinarySearch.int64 f).
Proof using L.
  intros Hn Hf. unfold BinarySearch.DivIntByU64ToBigDec. destruct (f =? 0); [done|].
  rewrite BigDecFacts.BigDecFromDecMut_eq. cbn [mbind outcome_bind]. unfold BigDec.QuoInt64, big.Quo.
  cbn [BigDec.i]. case_match; [done|]. intros [= <-]. cbn [BigDec.i]. rewrite sdk.ToLegacyDec_spec.
  unfold scaled. replace (SdkInt.i n * Dec.one * BigDec.bigDecDecPrecisionFactorDiff) with (SdkInt.i n * P).
  - pose proof BigDecFacts.P_pos. apply Z.quot_div_nonneg; lia.
  - rewrite <- Z.mul_assoc. done.
Qed.

(** A pool as the chain holds it: each denomination once, no negative amount. *)
Definition pool_ok (p : Pool) : Prop :=
  NoDup (coin.Denom <$> PoolLiquidity p) ∧ Forall (λ c, 0 ≤ SdkInt.i (coin.Amount c)) (PoolLiquidity p).

Lemma found_scaled p denom x y :
  pool_ok p → x ∈ zip (PoolLiquidity p) (ScalingFactors p) → coin.Denom x.1 = denom →
  0 < BinarySearch.int64 x.2 →
  BinarySearch.DivIntByU64ToBigDec (coin.Amount x.1) x.2 BinarySearch.RoundDown = Ok y →
  GetScalingFactorByDenom p denom = Ok x.2 ∧ 0 ≤ coin.amt denom (PoolLiquidity p) ∧
  BigDec.i y = scaled (coin.amt denom (PoolLiquidity p)) (BinarySearch.int64 x.2).
Proof using L.
  intros [Hd Ha] Hx <- Hf Hy. unfold GetScalingFactorByDenom. split; [by apply scaling_factor_zip|].
  assert (x.1 ∈ PoolLiquidity p) as Hc by (destruct x; by apply elem_of_zip_l in Hx).
  rewrite amt_unique by done. rewrite Forall_forall in Ha. specialize (Ha _ Hc). split; [done|]. by apply div_down.
Qed.

Lemma factors_positive l n : validateScalingFactors l n = Ok tt → Forall (λ f, 0 < BinarySearch.int64 f) l.
Proof.
  unfold validateScalingFactors. case_match; [done|]. destruct (existsb _ l) eqn:E; [done|]. intros _.
  apply Forall_forall. intros f Hf. destruct (Z_lt_le_dec 0 (BinarySearch.int64 f)) as [|Hle]; [done|].
  enough (existsb (λ f, BinarySearch.int64 f <=? 0) l = true) by congruence.
  apply existsb_exists. exists f. split; [by apply list_elem_of_In|lia].
Qed.

(** The two reserves of a swap. *)
Lemma reserves_spec p first second reserves a b rest :
  pool_ok p → first ≠ second →
  scaledSortedPoolReserves p first second BinarySearch.RoundDown = Ok reserves →
  split_reserves reserves = Ok (a, b, rest) →
  ∃ fa fb, GetScalingFactorByDenom p first = Ok fa ∧ GetScalingFactorByDenom p second = Ok fb ∧
    0 < BinarySearch.int64 fa ∧ 0 < BinarySearch.int64 fb ∧
    0 ≤ coin.amt first (PoolLiquidity p) ∧ 0 ≤ coin.amt second (PoolLiquidity p) ∧
    BigDec.i a = scaled (coin.amt first (PoolLiquidity p)) (BinarySearch.int64 fa) ∧
    BigDec.i b = scaled (coin.amt second (PoolLiquidity p)) (BinarySearch.int64 fb).
Proof using L.
  intros Hp Hne. unfold scaledSortedPoolReserves, reorderReservesAndScalingFactors.
  destruct (_ <? _)%nat.
  { destruct (PoolLiquidity p) as [|? [|? ?]]; [done..|]. destruct (reorder _ _ _ _ _ _) as [[? ?] ?].
    by destruct (_ <? _)%nat. }
  destruct (zip (PoolLiquidity p) (ScalingFactors p)) as [|x1 [|x2 l]] eqn:Ez.
  - cbn. intros [= <-]. done.
  - case_match; [|done]. cbn [mbind outcome_bind]. intros ([] & _ & Hr)%bind_Ok. cbn in Hr.
    apply bind_Ok in Hr as (r & _ & [= <-]). done.
  - rewrite <- Ez. destruct (reorder _ _ _ _ _ _) as [[oa ob] others] eqn:Er.
    apply (reorder_found first second (zip (PoolLiquidity p) (ScalingFactors p))) in Er as [Ha Hb]; [|done..].
    case_match; [done|]. cbn [mbind outcome_bind]. intros ([] & Hv%factors_positive & Hr)%bind_Ok Hs.
    cbn in Hv. apply Forall_cons in Hv as [Hfa [Hfb _]%Forall_cons].
    cbn [app fmap list_fmap BinarySearch.DivCoinAmtsByU64ToBigDec] in Hr.
    apply bind_Ok in Hr as (a' & Ha' & Hr). apply bind_Ok in Hr as (r & Hr & [= <-]).
    apply bind_Ok in Hr as (b' & Hb' & Hr). apply bind_Ok in Hr as (r' & _ & [= <-]). cbn in Hs.
    injection Hs as -> -> _. destruct oa as [xa|]; [|by cbn in Hfa]. destruct ob as [xb|]; [|by cbn in Hfb].
    cbn [default] in *. destruct Ha as [Ha Ea], Hb as [Hb Eb].
    destruct (found_scaled p first xa a Hp Ha Ea Hfa Ha') as (? & ? & ?).
    destruct (found_scaled p second xb b Hp Hb Eb Hfb Hb') as (? & ? & ?). by exists xa.2, xb.2.
Qed.

(** *** Amounts *)

Lemma scaled_add a b f : 0 < f → scaled a f + scaled b f ≤ scaled (a + b) f.
Proof.
  intros Hf. unfold scaled. rewrite Z.mul_add_distr_r. apply Z.div_le_lower_bound; [done|].
  pose proof (Z.mul_div_le (a * P) f Hf). pose proof (Z.mul_div_le (b * P) f Hf). lia.
Qed.

Lemma scaled_out a out x f : 0 < f → out * P ≤ x * f → scaled a f - x ≤ scaled (a - out) f.
Proof.
  intros Hf Hx. unfold scaled. rewrite Z.mul_sub_distr_r. apply Z.div_le_lower_bound; [done|].
  pose proof (Z.mul_div_le (a * P) f Hf). lia.
Qed.

Lemma curve_mono x x' y y' w : 0 ≤ x ≤ x' → 0 ≤ y ≤ y' → 0 ≤ w → curve x y w ≤ curve x' y' w.
Proof.
  intros Hx Hy Hw. unfold curve. pose proof BigDecFacts.P_pos.
  assert (x * y ≤ x' * y') by (apply Z.mul_le_mono_nonneg; lia).
  assert (x * x ≤ x' * x') by (apply Z.mul_le_mono_nonneg; lia).
  assert (y * y ≤ y' * y') by (apply Z.mul_le_mono_nonneg; lia).
  apply Z.mul_le_mono_nonneg; nia.
Qed.

(** The input after the spread factor is at most the input. *)
Lemma after_spread fee m t r :
  0 ≤ Dec.i fee ≤ Dec.one → oneMinus fee = Ok m → 0 ≤ BigDec.i t → BigDec.Mul t m = Ok r →
  0 ≤ BigDec.i r ≤ BigDec.i t.
Proof using L.
  intros Hfee. unfold oneMinus. intros (d & Hd%sdk.Sub_spec & Hm)%bind_Ok Ht Hr.
  rewrite BigDecFacts.BigDecFromDecMut_eq in Hm. injection Hm as <-. apply BigDecFacts.Mul_spec in Hr.
  cbn [BigDec.i Dec.i Dec.NewDec] in *. set (m := Dec.i d * _) in Hr.
  assert (0 ≤ m ≤ P) as Hm by (subst m; rewrite BigDecFacts.P_split; change BigDecFacts.PD with Dec.one;
    pose proof BigDecFacts.PF_pos; nia).
  clearbody m. split.
  - eapply (BigDecFacts.half_even_mono P 0); [done| |exact Hr|nia]. by apply (BigDecFacts.half_even_exact P 0).
  - eapply (BigDecFacts.half_even_mono P); [done|exact Hr|by apply BigDecFacts.half_even_exact|nia].
Qed.

(** The whole amount paid out is at most the solution, descaled. *)
Lemma paid_out p denom x d n f :
  GetScalingFactorByDenom p denom = Ok f → 0 < BinarySearch.int64 f →
  getDescaledPoolAmt p denom x = Ok d → sdk.TruncateInt d = Ok n → 0 < SdkInt.i n →
  SdkInt.i n * P ≤ BigDec.i x * BinarySearch.int64 f.
Proof using L.
  unfold getDescaledPoolAmt. intros -> Hf. cbn [mbind outcome_bind].
  intros (y & Hy & [= <-])%bind_Ok Hn%sdk.TruncateInt_spec Hpos.
  unfold BigDec.MulInt64 in Hy. apply BigDecFacts.ret_checked_Ok in Hy as [-> _].
  unfold BigDec.ToDec in Hn. cbn [BigDec.i Dec.i] in Hn. set (z := BigDec.i x * _) in *.
  destruct (Z_lt_le_dec z 0) as [Hz|Hz].
  - assert (Z.quot (Z.quot z BigDec.bigDecDecPrecisionFactorDiff) Dec.one ≤ 0); [|lia].
    assert (∃ u, z = - u ∧ 0 ≤ u) as (u & -> & Hu) by (exists (- z); lia). rewrite !Z.quot_opp_l by done.
    assert (0 ≤ Z.quot (Z.quot u BigDec.bigDecDecPrecisionFactorDiff) Dec.one); [|lia].
    do 2 (apply Z.quot_pos; [|done]). done.
  - rewrite !Z.quot_div_nonneg in Hn by (done || by apply Z.quot_pos).
    rewrite Z.div_div in Hn by done. rewrite Hn. change (BigDec.bigDecDecPrecisionFactorDiff * Dec.one) with P.
    rewrite Z.mul_comm. by apply Z.mul_div_le.
Qed.

(** C27.  A swap of a given input against a stableswap pool does not lower its invariant.  With the amounts
    scaled by their factors, [x] the reserve paid out, [y] the reserve paid in and [w] the sum of the
    squares of the others, xy(x^2 + y^2 + w) after the swap is at least what it was, up to [slack]; the
    two amounts change by exactly what is paid in and out, and the others stay. *)
Theorem stable_swap_keeps_invariant p c outDenom fee tokenOut p' :
  pool_ok p → 0 ≤ SdkInt.i (coin.Amount c) → coin.Denom c ≠ outDenom → 0 ≤ Dec.i fee ≤ Dec.one →
  SwapOutAmtGivenIn p [c] outDenom fee = Ok (tokenOut, p') →
  ∃ a b rest w fin fout,
    scaledSortedPoolReserves p (coin.Denom c) outDenom BinarySearch.RoundDown = Ok (a :: b :: rest) ∧
    sumSquares BigDec.ZeroBigDec rest = Ok w ∧
    GetScalingFactorByDenom p (coin.Denom c) = Ok fin ∧ GetScalingFactorByDenom p outDenom = Ok fout ∧
    (∀ d, coin.amt d (PoolLiquidity p') = coin.amt d (PoolLiquidity p) + coin.amt d [c] - coin.amt d [tokenOut]) ∧
    0 < SdkInt.i (coin.Amount tokenOut) ∧
    let x q := scaled (coin.amt outDenom (PoolLiquidity q)) (BinarySearch.int64 fout) in
    let y q := scaled (coin.amt (coin.Denom c) (PoolLiquidity q)) (BinarySearch.int64 fin) in
    curve (x p) (y p) (BigDec.i w) ≤ curve (x p') (y p') (BigDec.i w) + slack (x p) (y p).
Proof using L CL PL.
  intros Hp Hc Hne Hfee. unfold SwapOutAmtGivenIn. intros (l0 & _ & H)%bind_Ok.
  apply bind_Ok in H as ([] & _ & H). apply bind_Ok in H as (out & Hout & H).
  apply bind_Ok in H as (outs & Houts & H). apply bind_Ok in H as (q & Hq & [= <- <-]).
  unfold CalcOutAmtGivenIn in Hout. apply bind_Ok in Hout as (dec & Hdec & Hout).
  apply bind_Ok in Hout as (amt & Hamt & Hout). rewrite sdk.IntIsPositive_spec in Hout.
  destruct (Z.ltb_spec 0 (SdkInt.i amt)) as [Hpos|]; [|done]. cbn [negb] in Hout.
  apply coin.NewCoin_spec in Hout as [-> _].
  unfold calcOutAmtGivenIn in Hdec. apply bind_Ok in Hdec as (reserves & Hres & Hdec).
  apply bind_Ok in Hdec as ([[a b] rest] & Hsplit & Hdec). apply bind_Ok in Hdec as (tin & Htin & Hdec).
  apply bind_Ok in Hdec as (m & Hm & Hdec). apply bind_Ok in Hdec as (ammIn & Hamm & Hdec).
  apply bind_Ok in Hdec as (xo & Hxo & Hdec).
  destruct (reserves_spec _ _ _ _ _ _ _ Hp Hne Hres Hsplit) as (fin & fout & Hfin & Hfout & Hif & Hof & Hai & Hao & Ea & Eb).
  unfold solveCfmm in Hxo. apply bind_Ok in Hxo as (w & Hw & Hxo).
  apply solve_favours_pool in Hxo as (Hb0 & Ha0 & Hw0 & Hyin & Hxout & Hcurve).
  unfold scaleCoin in Htin. rewrite Hfin in Htin. cbn [mbind outcome_bind] in Htin.
  apply div_down in Htin; [|done..].
  assert (0 ≤ BigDec.i tin) as Ht0 by (rewrite Htin; unfold scaled; pose proof BigDecFacts.P_pos; apply Z.div_pos; [by apply Z.mul_nonneg_nonneg; [|apply Z.lt_le_incl]|done]).
  pose proof (after_spread _ _ _ _ Hfee Hm Ht0 Hamm) as [Hin0 Hin1].
  pose proof (paid_out _ _ _ _ _ _ Hfout Hof Hdec Hamt Hpos) as Hpaid.
  assert (∀ d, coin.amt d (PoolLiquidity q) = coin.amt d (PoolLiquidity p) + coin.amt d [c]
    - coin.amt d [{| coin.Denom := outDenom; coin.Amount := amt |}]) as Hamts.
  { intros d. unfold updatePoolLiquidityForSwap in Hq. apply bind_Ok in Hq as (l1 & Hl1 & Hq).
    apply bind_Ok in Hq as (l2 & Hl2 & Hq). destruct (negb _); [done|]. injection Hq as <-.
    cbn [PoolLiquidity set_liquidity]. rewrite (pool_coins.Sub_spec _ _ _ d Hl2), (coin.Add_spec _ _ _ d Hl1).
    by rewrite (coin.NewCoins_spec _ _ d Houts). }
  exists a, b, rest, w, fin, fout. split; [|split_and!; try done].
  { unfold split_reserves in Hsplit. destruct reserves as [|? [|? ?]]; [done..|]. by injection Hsplit as -> -> ->. }
  pose proof (amt_single_here {| coin.Denom := outDenom; coin.Amount := amt |}) as Hout. cbn [coin.Denom coin.Amount] in Hout.
  cbv zeta. rewrite !Hamts, Hout, !amt_single_here, !amt_single_other by (cbn; congruence).
  rewrite !Z.add_0_r, !Z.sub_0_r. rewrite <- Ea, <- Eb. etransitivity; [exact Hcurve|].
  apply Z.add_le_mono_r, curve_mono; [| |done].
  - split; [lia|]. rewrite Eb. by apply scaled_out.
  - split; [lia|]. rewrite Ea. etransitivity; [|by apply scaled_add]. lia.
Qed.
End swap.

(** *** A concrete swap *)

Definition ref_neg (c : coin.Coins) : coin.Coins :=
  (λ x, {| coin.Denom := coin.Denom x; coin.Amount := SdkInt.mk (- SdkInt.i (coin.Amount x)) |}) <$> c.
Lemma ref_neg_amt d c : coin.amt d (ref_neg c) = - coin.amt d c.
Proof.
  unfold coin.amt, ref_neg. induction c as [|x c IH]; [done|]. cbn [fmap list_fmap sumZ] in *. rewrite IH.
  cbn [coin.Denom coin.Amount SdkInt.i]. destruct (bool_decide _); lia.
Qed.
Fixpoint ref_insert (c : coin.Coin) (l : coin.Coins) : coin.Coins :=
  match l with
  | [] => [c]
  | x :: l => if String.ltb (coin.Denom x) (coin.Denom c) then x :: ref_insert c l else c :: x :: l
  end.

#[local] Instance ref_pool_coins : pool_coins.PoolCoins := {
  pool_coins.Sub a b :=
    let r := coin.no_zero_int (coin.ref_sum a (ref_neg b)) in
    if existsb (λ x, SdkInt.i (coin.Amount x) <? 0) r then Panic "negative coin amount" else Ok r;
  pool_coins.AmountOfNoDenomValidation c d := SdkInt.mk (coin.amt d c);
  pool_coins.DenomsSubsetOf a b :=
    forallb (λ x, existsb (λ y, String.eqb (coin.Denom x) (coin.Denom y)) b) a;
  pool_coins.IsAnyGT a b :=
    existsb (λ x, existsb (λ y, String.eqb (coin.Denom x) (coin.Denom y)
      && (SdkInt.i (coin.Amount y) <? SdkInt.i (coin.Amount x))) b) a;
  pool_coins.Sort l := foldr ref_insert [] l;
  pool_coins.LegacyMaxSortableDec := Dec.mk (10 ^ 36);
  pool_coins.ValidateDenom s := negb (String.eqb s "");
  pool_coins.ParseDuration s := negb (String.eqb s "")
}.
#[local] Instance ref_pool_coins_laws : pool_coins.PoolCoinsLaws ref_pool_coins.
Proof.
  split; cbn; [|done]. intros a b r d. case_match; [done|]. intros [= <-].
  rewrite coin.no_zero_int_amt, coin.ref_sum_amt, ref_neg_amt. lia.
Qed.

Definition unit_coin (d : string) (n : Z) : coin.Coin := {| coin.Denom := d; coin.Amount := SdkInt.mk n |}.
Definition demo_pool (usdc usdt : Z) : Pool :=
  {| Address := "pool1"; Id := 1; Parameters := {| SwapFee := Dec.NewDec 0; ExitFee := Dec.NewDec 0 |};
     FuturePoolGovernor := ""; TotalShares := unit_coin "gamm/pool/1" (100 * 10 ^ 18);
     PoolLiquidity := [unit_coin "usdc" usdc; unit_coin "usdt" usdt]; ScalingFactors := [1; 1];
     ScalingFactorController := "" |}.

Lemma demo_pool_ok : pool_ok (demo_pool 1000000 1000000).
Proof. split; cbn; [apply (bool_decide_unpack (NoDup ["usdc"; "usdt"])); by vm_compute|]. by repeat constructor. Qed.

(** 1000 usdc pay 998 usdt, with a spread of 0.1%. *)
Lemma stable_swap_keeps_invariant_witness :
  SwapOutAmtGivenIn (D := sdk.ref_dec) (C := coin.ref_coins) (demo_pool 1000000 1000000) [unit_coin "usdc" 1000]
    "usdt" (Dec.mk (10 ^ 15)) = Ok (unit_coin "usdt" 998, demo_pool 1001000 999002) ∧
  ∃ w fin fout, fin = 1 ∧ fout = 1 ∧
    curve (scaled 1000000 (BinarySearch.int64 fout)) (scaled 1000000 (BinarySearch.int64 fin)) w
    ≤ curve (scaled 999002 (BinarySearch.int64 fout)) (scaled 1001000 (BinarySearch.int64 fin)) w
      + slack (scaled 1000000 (BinarySearch.int64 fout)) (scaled 1000000 (BinarySearch.int64 fin)).
Proof.
  split; [by vm_compute|].
  destruct (stable_swap_keeps_invariant (D := sdk.ref_dec) (L := sdk.ref_dec_laws) (C := coin.ref_coins)
    (CL := coin.ref_coins_laws) (demo_pool 1000000 1000000) (unit_coin "usdc" 1000) "usdt" (Dec.mk (10 ^ 15))
    (unit_coin "usdt" 998) (demo_pool 1001000 999002))
    as (_ & _ & _ & w & fin & fout & _ & _ & Hfin & Hfout & _ & _ & H).
  - exact demo_pool_ok.
  - done.
  - done.
  - split; vm_compute; discriminate.
  - by vm_compute.
  - exists (BigDec.i w), fin, fout. split; [by injection Hfin|]. split; [by injection Hfout|]. exact H.
Defined.
End StableswapProps.
