(* ===== verification/PoolManager.v ===== *)
(** The pool manager: x/poolmanager/taker_fee.go, create_pool.go, keeper.go (the pool id), gov.go, the
    setters of msg_server.go, and the part of router.go that tracks volume; keys from types/keys.go.

    The modules that hold pools (gamm, concentrated liquidity, CosmWasm pools) are the interface
    [PoolModuleI] of types/expected_keepers.go, a record of operations on the whole state; [World] is the
    state outside this module.  The caches of the keeper are left out: they hold what the store holds.
    Not modelled: taker fee share agreements (the calls that would accrue them are commented out in
    the router), trackers of the txfees module, genesis, queries other than the estimates. *)
From stdpp Require Import prelude strings list gmap.
From Stdlib Require Import Ascii.
From S2P Require Import Prelude.
From S2P Require Import GoBig.
From S2P Require Import SdkDec.
From S2P Require Import Decimal.
From S2P Require Import DecimalText.
From S2P Require Import SdkCoins.
From S2P Require Import GoState.
From S2P Require Import KV.
From S2P Require Import CLPool.
Local Open Scope Z_scope.

Module PoolManager.

(** *** types/pool.go, types/module_route.pb.go, types/keys.go *)

Definition MaxPoolId : Z := 99999999999.
Definition PoolType : Type := Z.
Definition Balancer : PoolType := 0.
Definition Stableswap : PoolType := 1.
Definition Concentrated : PoolType := 2.
Definition CosmWasm : PoolType := 3.

Definition ModuleName : string := "poolmanager".
(** The name of x/takerfee, whose account collects the fees. *)
Definition TakerFeeModuleName : string := "takerfee".

Definition KeySeparator : BigText.chars := KV.text "|".
Definition DenomTradePairPrefix : BigText.chars := [ascii_of_nat 4].
Definition FormatDenomTradePairKey (tokenInDenom tokenOutDenom : string) : BigText.chars :=
  DenomTradePairPrefix ++ KeySeparator ++ KV.text tokenInDenom ++ KeySeparator ++ KV.text tokenOutDenom.

(** *** The parameters that are read, and the store *)

Record TakerFeeParams := {
  DefaultTakerFee : Dec.t;
  AdminAddresses : list string;
  ReducedFeeWhitelist : list string
}.
Record Params := { PoolCreationFee : coin.Coins; FeeParams : TakerFeeParams }.
Record DenomPairTakerFee := { PairTokenIn : string; PairTokenOut : string; PairTakerFee : Dec.t }.

Record state (World : Type) := {
  nextPoolId : Z;
  moduleRoutes : gmap Z PoolType;
  poolVolumes : gmap Z coin.Coins;
  takerFees : gmap BigText.chars Dec.t;
  params : Params;
  world : World
}.
Arguments nextPoolId {_} _.
Arguments moduleRoutes {_} _.
Arguments poolVolumes {_} _.
Arguments takerFees {_} _.
Arguments params {_} _.
Arguments world {_} _.
Definition set_next_id {W} n (s : state W) : state W :=
  {| nextPoolId := n; moduleRoutes := moduleRoutes s; poolVolumes := poolVolumes s; takerFees := takerFees s;
     params := params s; world := world s |}.
Definition set_routes {W} f (s : state W) : state W :=
  {| nextPoolId := nextPoolId s; moduleRoutes := f (moduleRoutes s); poolVolumes := poolVolumes s;
     takerFees := takerFees s; params := params s; world := world s |}.
Definition set_volumes {W} f (s : state W) : state W :=
  {| nextPoolId := nextPoolId s; moduleRoutes := moduleRoutes s; poolVolumes := f (poolVolumes s);
     takerFees := takerFees s; params := params s; world := world s |}.
Definition set_taker_fees {W} f (s : state W) : state W :=
  {| nextPoolId := nextPoolId s; moduleRoutes := moduleRoutes s; poolVolumes := poolVolumes s;
     takerFees := f (takerFees s); params := params s; world := world s |}.
Definition set_params {W} p (s : state W) : state W :=
  {| nextPoolId := nextPoolId s; moduleRoutes := moduleRoutes s; poolVolumes := poolVolumes s;
     takerFees := takerFees s; params := p; world := world s |}.
Definition set_world {W} w (s : state W) : state W :=
  {| nextPoolId := nextPoolId s; moduleRoutes := moduleRoutes s; poolVolumes := poolVolumes s;
     takerFees := takerFees s; params := params s; world := w |}.

(** *** The rest of the chain *)

(** [PoolI], its getters, the other keepers, and [sdk.ValidateDenom]. *)
Class Chain : Type := {
  World : Type;
  PoolI : Type;
  GetId : PoolI → Z;
  GetAddress : PoolI → outcome addr.AccAddress;
  GetType : PoolI → PoolType;
  GetSpreadFactor : World → PoolI → Dec.t;
  IsActive : World → PoolI → bool;
  SendCoins : addr.AccAddress → addr.AccAddress → coin.Coins → World → outcome World;
  SendCoinsFromAccountToModule : addr.AccAddress → string → coin.Coins → World → outcome World;
  BondDenom : World → outcome string;
  GetPoolForDenomPair : World → string → string → outcome Z;
  GetModuleAccount : string → addr.AccAddress;
  CreateModuleAccount : addr.AccAddress → World → outcome World;
  ValidateDenom : string → outcome unit;
}.

(** [PoolModuleI]: an operation may also change the state of this module, through the contracts and
    hooks it calls. *)
Record PoolModuleI `{Chain} := {
  InitializePool : PoolI → addr.AccAddress → M (state World) unit;
  GetPool : state World → Z → outcome PoolI;
  GetPools : state World → outcome (list PoolI);
  GetPoolDenoms : state World → Z → outcome (list string);
  CalculateSpotPrice : state World → Z → string → string → outcome BigDec.t;
  SwapExactAmountIn : addr.AccAddress → PoolI → coin.Coin → string → SdkInt.t → Dec.t → M (state World) SdkInt.t;
  CalcOutAmtGivenIn : state World → PoolI → coin.Coin → string → Dec.t → outcome coin.Coin;
  SwapExactAmountOut : addr.AccAddress → PoolI → string → SdkInt.t → coin.Coin → Dec.t → M (state World) SdkInt.t;
  CalcInAmtGivenOut : state World → PoolI → coin.Coin → string → Dec.t → outcome coin.Coin;
  GetTotalPoolLiquidity : state World → Z → outcome coin.Coins;
  GetTotalLiquidity : state World → outcome coin.Coins;
}.
Class Modules `{Chain} : Type := {
  gammKeeper : PoolModuleI;
  concentratedKeeper : PoolModuleI;
  cosmwasmpoolKeeper : PoolModuleI;
}.

Section keeper.
  Context {D : sdk.LegacyDec} {C : coin.CoinOps} {A : addr.Addresses} {Ch : Chain} {Mo : Modules}.
Abbreviation K := (M (state World)).
Definition on_world (m : World → outcome World) : K unit := λ s, w ← m (world s); Ok (tt, set_world w s).
Definition query {T} (q : state World → outcome T) : K T := λ s, x ← q s; Ok (x, s).

(** *** keeper.go *)

Definition routes (poolType : PoolType) : option PoolModuleI :=
  if poolType =? Balancer then Some gammKeeper else if poolType =? Stableswap then Some gammKeeper
  else if poolType =? Concentrated then Some concentratedKeeper
  else if poolType =? CosmWasm then Some cosmwasmpoolKeeper else None.
Definition poolModules : list PoolModuleI := [gammKeeper; concentratedKeeper; cosmwasmpoolKeeper].
Definition GetParams : K Params := gets params.
Definition SetParams (p : Params) : K unit := modify (set_params p).
Definition GetNextPoolId : K Z := gets nextPoolId.
Definition SetNextPoolId (poolId : Z) : K unit := modify (set_next_id poolId).

(** *** taker_fee.go *)

Definition GetDefaultTakerFee (s : state World) : Dec.t := DefaultTakerFee (FeeParams (params s)).

Definition SetDenomPairTakerFee (denom0 denom1 : string) (takerFee : Dec.t) : K unit :=
  s ← gets id;
  let key := FormatDenomTradePairKey denom0 denom1 in
  if sdk.Equal takerFee (GetDefaultTakerFee s) then modify (set_taker_fees (delete key))
  else modify (set_taker_fees (insert key takerFee)).

Definition SenderValidationSetDenomPairTakerFee (sender denom0 denom1 : string) (takerFee : Dec.t) : K unit :=
  p ← GetParams;
  _ ← require (existsb (String.eqb sender) (AdminAddresses (FeeParams p)))
        "sender is not in the pool manager taker fee admin address list";
  SetDenomPairTakerFee denom0 denom1 takerFee.

Definition GetTradingPairTakerFee (s : state World) (tokenInDenom tokenOutDenom : string) : Dec.t :=
  match takerFees s !! FormatDenomTradePairKey tokenInDenom tokenOutDenom with
  | None => GetDefaultTakerFee s
  | Some takerFee => takerFee
  end.

(** A key is split at its separators; a key with fewer than two of them panics. *)
Definition ParseDenomTradePairKey (key : BigText.chars) : outcome (string * string) :=
  match BigText.Split "|"%char key with
  | _ :: d0 :: d1 :: _ =>
    let tokenInDenom := String.string_of_list_ascii d0 in
    let tokenOutDenom := String.string_of_list_ascii d1 in
    _ ← ValidateDenom tokenInDenom;
    _ ← ValidateDenom tokenOutDenom;
    Ok (tokenInDenom, tokenOutDenom)
  | _ => Panic "index out of range"
  end.
Fixpoint parsePairs (l : list (BigText.chars * Dec.t)) : outcome (list DenomPairTakerFee) :=
  match l with
  | [] => Ok []
  | (key, takerFee) :: l =>
    '(tokenInDenom, tokenOutDenom) ← ParseDenomTradePairKey key;
    rest ← parsePairs l;
    Ok ({| PairTokenIn := tokenInDenom; PairTokenOut := tokenOutDenom; PairTakerFee := takerFee |} :: rest)
  end.
Definition GetAllTradingPairTakerFees (s : state World) : outcome (list DenomPairTakerFee) :=
  parsePairs (reverse (KV.KVStorePrefixIterator (takerFees s) DenomTradePairPrefix)).

Definition CalcTakerFeeExactIn (tokenIn : coin.Coin) (takerFee : Dec.t) : outcome (coin.Coin * coin.Coin) :=
  takerFeeFactor ← sdk.Sub (Dec.NewDec 1) takerFee;
  amountInAfterSubTakerFee ← sdk.MulInt takerFeeFactor (coin.Amount tokenIn);
  after ← sdk.TruncateInt amountInAfterSubTakerFee;
  fee ← sdk.IntSub (coin.Amount tokenIn) after;
  Ok ({| coin.Denom := coin.Denom tokenIn; coin.Amount := after |},
      {| coin.Denom := coin.Denom tokenIn; coin.Amount := fee |}).
Definition CalcTakerFeeExactOut (tokenIn : coin.Coin) (takerFee : Dec.t) : outcome (coin.Coin * coin.Coin) :=
  takerFeeFactor ← sdk.Sub (Dec.NewDec 1) takerFee;
  amountInAfterAddTakerFee ← sdk.Quo (sdk.ToLegacyDec (coin.Amount tokenIn)) takerFeeFactor;
  c ← sdk.Ceil amountInAfterAddTakerFee;
  after ← sdk.TruncateInt c;
  fee ← sdk.IntSub after (coin.Amount tokenIn);
  Ok ({| coin.Denom := coin.Denom tokenIn; coin.Amount := after |},
      {| coin.Denom := coin.Denom tokenIn; coin.Amount := fee |}).

Definition chargeTakerFee (tokenIn : coin.Coin) (tokenOutDenom : string) (sender : addr.AccAddress)
    (exactIn : bool) : K (coin.Coin * coin.Coin) :=
  s ← gets id;
  if existsb (String.eqb (addr.AddressString sender)) (ReducedFeeWhitelist (FeeParams (params s))) then
    mret (tokenIn, {| coin.Denom := coin.Denom tokenIn; coin.Amount := SdkInt.mk 0 |})
  else
    let takerFee := GetTradingPairTakerFee s (coin.Denom tokenIn) tokenOutDenom in
    '(tokenInAfterTakerFee, takerFeeCoin) ←
      lift (if exactIn then CalcTakerFeeExactIn tokenIn takerFee else CalcTakerFeeExactOut tokenIn takerFee);
    coins ← lift (coin.NewCoins [takerFeeCoin]);
    _ ← on_world (SendCoinsFromAccountToModule sender TakerFeeModuleName coins);
    mret (tokenInAfterTakerFee, takerFeeCoin).

(** *** gov.go, msg_server.go *)

Definition HandleDenomPairTakerFeeProposal (pairs : list DenomPairTakerFee) : K unit :=
  for_each pairs (λ p, SetDenomPairTakerFee (PairTokenIn p) (PairTokenOut p) (PairTakerFee p)).
Definition MsgSetDenomPairTakerFee (sender : string) (pairs : list DenomPairTakerFee) : K unit :=
  for_each pairs (λ p,
    SenderValidationSetDenomPairTakerFee sender (PairTokenIn p) (PairTokenOut p) (PairTakerFee p)).

(** *** create_pool.go *)

(** [types.CreatePoolMsg] *)
Record CreatePoolMsg := {
  GetPoolType : PoolType;
  Validate : state World → outcome unit;
  PoolCreator : addr.AccAddress;
  CreatePoolFromMsg : state World → Z → outcome PoolI;
  InitialLiquidity : coin.Coins
}.

Definition getNextPoolIdAndIncrement : K Z :=
  nextPoolId ← GetNextPoolId;
  _ ← SetNextPoolId ((nextPoolId + 1) mod 2 ^ 64);
  mret nextPoolId.
Definition SetPoolRoute (poolId : Z) (poolType : PoolType) : K unit := modify (set_routes (insert poolId poolType)).
Definition validateCreatedPool (poolId : Z) (pool : PoolI) : outcome unit :=
  if negb (GetId pool =? poolId) then Err "IncorrectPoolIdError" else Ok tt.
Definition getPoolType (poolId : Z) : K PoolType :=
  s ← gets id;
  match moduleRoutes s !! poolId with None => throw "FailedToFindRouteError" | Some t => mret t end.
Definition GetPoolModule (poolId : Z) : K PoolModuleI :=
  s ← gets id;
  match moduleRoutes s !! poolId with
  | None => throw "FailedToFindRouteError"
  | Some poolType => match routes poolType with None => throw "UndefinedRouteError" | Some m => mret m end
  end.

(** A type without a module is a nil interface value, and calling it panics. *)
Definition createPoolZeroLiquidityNoCreationFee (msg : CreatePoolMsg) : K PoolI :=
  _ ← query (Validate msg);
  poolId ← getNextPoolIdAndIncrement;
  _ ← require (poolId <? MaxPoolId) "next pool ID is greater than max pool ID";
  let poolType := GetPoolType msg in
  pool ← query (λ s, CreatePoolFromMsg msg s poolId);
  _ ← SetPoolRoute poolId poolType;
  _ ← lift (validateCreatedPool poolId pool);
  _ ← match routes poolType with
      | None => panic "nil pointer dereference"
      | Some swapModule => InitializePool swapModule pool (PoolCreator msg)
      end;
  poolAddress ← lift (GetAddress pool);
  _ ← on_world (CreateModuleAccount poolAddress);
  mret pool.
Definition CreatePool (msg : CreatePoolMsg) : K Z :=
  match routes (GetPoolType msg) with
  | None => throw "InvalidPoolTypeError"
  | Some _ =>
    pool ← createPoolZeroLiquidityNoCreationFee msg;
    poolAddress ← lift (GetAddress pool);
    _ ← on_world (SendCoins (PoolCreator msg) poolAddress (InitialLiquidity msg));
    mret (GetId pool)
  end.
Definition CreateConcentratedPoolAsPoolManager (msg : CreatePoolMsg) : K PoolI :=
  _ ← require (String.eqb (GetModuleAccount ModuleName) (PoolCreator msg)) "InvalidPoolCreatorError";
  _ ← require (GetPoolType msg =? Concentrated) "InvalidPoolTypeError";
  createPoolZeroLiquidityNoCreationFee msg.

(** *** router.go: volume *)

Definition GetTotalVolumeForPool (poolId : Z) : K coin.Coins :=
  s ← gets id; mret (default [] (poolVolumes s !! poolId)).
Definition SetVolume (poolId : Z) (totalVolume : coin.Coins) : K unit :=
  modify (set_volumes (insert poolId totalVolume)).
Definition addVolume (poolId : Z) (volumeGenerated : coin.Coin) : K unit :=
  currentTotalVolume ← GetTotalVolumeForPool poolId;
  newTotalVolume ← lift (coin.Add currentTotalVolume [volumeGenerated]);
  SetVolume poolId newTotalVolume.
Definition RouteCalculateSpotPrice (poolId : Z) (quoteAssetDenom baseAssetDenom : string) : K BigDec.t :=
  swapModule ← GetPoolModule poolId;
  query (λ s, CalculateSpotPrice swapModule s poolId quoteAssetDenom baseAssetDenom).
(** [if err != nil { return }]: an error ends the function quietly, a panic does not. *)
Definition or_quiet {T} (m : K T) (f : T → K unit) : K unit := λ s,
  match m s with Ok (x, s') => f x s' | Err _ => Ok (tt, s) | Panic p => Panic p end.
Definition trackVolume (poolId : Z) (volumeGenerated : coin.Coin) : K unit :=
  s ← gets id;
  OSMO ← lift (Pool.or_panic (BondDenom (world s)) "BondDenom");
  if String.eqb (coin.Denom volumeGenerated) OSMO then addVolume poolId volumeGenerated else
  or_quiet (lift (GetPoolForDenomPair (world s) OSMO (coin.Denom volumeGenerated))) (λ osmoPairedPoolId,
  or_quiet (RouteCalculateSpotPrice osmoPairedPoolId OSMO (coin.Denom volumeGenerated)) (λ osmoPerInputToken,
    amt ← lift (BigDec.BigDecFromSDKInt (coin.Amount volumeGenerated));
    v ← lift (BigDec.Mul amt osmoPerInputToken);
    volumeInOsmo ← lift (sdk.TruncateInt (BigDec.ToDec v));
    c ← lift (coin.NewCoin OSMO volumeInOsmo);
    addVolume poolId c)).
End keeper.
End PoolManager.
