(* ===== verification/PoolManagerProps.v ===== *)
(** The arithmetic of taker fees, the fees of pairs as a map, and pool ids that are never used twice. *)
From stdpp Require Import prelude strings list gmap.
From Stdlib Require Import Ascii.
From S2P Require Import Prelude.
From S2P Require Import GoBig.
From S2P Require Import SdkDec.
From S2P Require Import Decimal.
From S2P Require Import DecimalText.
From S2P Require Import SdkCoins.
From S2P Require Import GoState.
From S2P Require Import KV.
From S2P Require Import CLPool.
From S2P Require Import PoolManager.
Local Open Scope Z_scope.

Module PoolManagerProps.
Import PoolManager.
#[local] Abbreviation one := Dec.one.

Lemma one_pos : 0 < one.
Proof. done. Qed.

Definition a_coin (d : string) (n : Z) : coin.Coin := {| coin.Denom := d; coin.Amount := SdkInt.mk n |}.

(** *** Taker fees *)

Section fees.
  Context {D : sdk.LegacyDec} {L : sdk.LegacyDecLaws D}.

(** What is left of [n] after the fee, and the least amount that leaves [n]. *)
Definition net (fee : Dec.t) (n : Z) : Z := (one - Dec.i fee) * n / one.
Definition gross (fee : Dec.t) (n : Z) : Z := - (- (n * one) / (one - Dec.i fee)).

Lemma exact_in_spec c fee after charge :
  0 ≤ SdkInt.i (coin.Amount c) → Dec.i fee ≤ one → CalcTakerFeeExactIn c fee = Ok (after, charge) →
  coin.Denom after = coin.Denom c ∧ coin.Denom charge = coin.Denom c ∧
  SdkInt.i (coin.Amount after) = net fee (SdkInt.i (coin.Amount c)) ∧
  SdkInt.i (coin.Amount after) + SdkInt.i (coin.Amount charge) = SdkInt.i (coin.Amount c).
Proof using L.
  intros Hn Hf. unfold CalcTakerFeeExactIn. intros (f & Hs%sdk.Sub_spec & H)%bind_Ok.
  apply bind_Ok in H as (m & Hm%sdk.MulInt_spec & H). apply bind_Ok in H as (a & Ha%sdk.TruncateInt_spec & H).
  apply bind_Ok in H as (g & Hg%sdk.IntSub_spec & [= <- <-]). cbn [coin.Denom coin.Amount Dec.NewDec Dec.i] in *.
  split_and!; [done..| |lia]. unfold net. rewrite Ha, Hm, Hs, Z.quot_div_nonneg; [|nia|done]. f_equal; lia.
Qed.

(** The rounding of [Quo] never reaches the next whole number. *)
Lemma ceil_of_quo n d q k :
  0 < d ≤ one → 2 * Z.abs (d * q - n * one * one) ≤ d → q ≤ one * k < q + one → k = - (- (n * one) / d).
Proof.
  intros Hd Hq Hk. pose proof one_pos. set (N := n * one) in *.
  assert (d * q ≤ d * (one * k)) as H1 by (apply Z.mul_le_mono_nonneg_l; lia).
  assert (d * (one * k + 1) ≤ d * (q + one)) as H2 by (apply Z.mul_le_mono_nonneg_l; lia).
  assert (d * (one * k) = one * (d * k)) as E1 by lia. assert (d * (q + one) = d * q + one * d) as E2 by lia.
  assert (N ≤ d * k).
  { destruct (Z_le_gt_dec N (d * k)) as [|Hlt]; [done|exfalso].
    assert (one * (d * k + 1) ≤ one * N) by (apply Z.mul_le_mono_nonneg_l; lia). lia. }
  assert (d * (k - 1) < N).
  { destruct (Z_le_gt_dec N (d * (k - 1))) as [Hle|]; [exfalso|lia].
    assert (one * N ≤ one * (d * (k - 1))) by (apply Z.mul_le_mono_nonneg_l; lia). lia. }
  enough (- N / d = - k) by lia. symmetry. apply (Z.div_unique _ _ _ (d * k - N)); lia.
Qed.

Lemma exact_out_spec c fee after charge :
  0 ≤ Dec.i fee → Dec.i fee < one → CalcTakerFeeExactOut c fee = Ok (after, charge) →
  coin.Denom after = coin.Denom c ∧ coin.Denom charge = coin.Denom c ∧
  SdkInt.i (coin.Amount after) = gross fee (SdkInt.i (coin.Amount c)) ∧
  SdkInt.i (coin.Amount after) = SdkInt.i (coin.Amount c) + SdkInt.i (coin.Amount charge).
Proof using L.
  intros Hf Hf1. unfold CalcTakerFeeExactOut. intros (f & Hs%sdk.Sub_spec & H)%bind_Ok.
  apply bind_Ok in H as (q & Hq%sdk.Quo_spec & H). apply bind_Ok in H as (k & Hk%sdk.Ceil_spec & H).
  apply bind_Ok in H as (a & Ha%sdk.TruncateInt_spec & H). apply bind_Ok in H as (g & Hg%sdk.IntSub_spec & [= <- <-]).
  cbn [coin.Denom coin.Amount Dec.NewDec Dec.i] in *. rewrite sdk.ToLegacyDec_spec in Hq.
  destruct Hq as [_ Hq], Hk as (k' & Hk & Hb). split_and!; [done..| |lia].
  rewrite Hk, Z.mul_comm, Z.quot_mul in Ha by done. rewrite Ha. unfold gross.
  replace (Dec.i f) with (one - Dec.i fee) in Hq by lia. rewrite (Z.abs_eq (one - Dec.i fee)) in Hq by lia.
  eapply ceil_of_quo; [lia|exact Hq|lia].
Qed.

Lemma net_gross fee n m : Dec.i fee < one → n ≤ net fee m ↔ gross fee n ≤ m.
Proof.
  intros Hf. pose proof one_pos. unfold net, gross. set (d := one - Dec.i fee). assert (0 < d) by (subst d; lia).
  split.
  - intros Hn. pose proof (Z.mul_div_le (d * m) one ltac:(done)).
    enough (- m ≤ - (n * one) / d) by lia. apply Z.div_le_lower_bound; [done|nia].
  - intros Hg. apply Z.div_le_lower_bound; [done|]. assert (- m ≤ - (n * one) / d) as H1 by lia.
    pose proof (Z.mul_div_le (- (n * one)) d ltac:(done)). nia.
Qed.

(** C26.  The two ways to charge a taker fee belong together.  For a fee of at least 0 and less than 1, the
    amount [CalcTakerFeeExactOut] asks for is the least from which [CalcTakerFeeExactIn] leaves the amount
    wanted; both split what is paid into what is used and the fee, without remainder. *)
Theorem taker_fee_least d n fee after charge :
  0 ≤ Dec.i fee < one → CalcTakerFeeExactOut (a_coin d n) fee = Ok (after, charge) →
  SdkInt.i (coin.Amount after) = n + SdkInt.i (coin.Amount charge) ∧
  ∀ m left charge', 0 ≤ m → CalcTakerFeeExactIn (a_coin d m) fee = Ok (left, charge') →
    SdkInt.i (coin.Amount left) + SdkInt.i (coin.Amount charge') = m ∧
    (n ≤ SdkInt.i (coin.Amount left) ↔ SdkInt.i (coin.Amount after) ≤ m).
Proof using L.
  intros [Hf Hf1] (_ & _ & Ha & Hc)%exact_out_spec; [|done..]. split; [done|]. intros m left charge' Hm Hin.
  apply exact_in_spec in Hin as (_ & _ & Hl & Hsum); [|done|lia]. split; [done|].
  rewrite Hl, Ha. by apply net_gross.
Qed.
End fees.

(** 1% on what is needed to have 1000 left: 1011, of which 11 are the fee; 1010 leave 999. *)
Lemma taker_fee_least_witness :
  let fee := Dec.mk (10 ^ 16) in
  CalcTakerFeeExactOut (D := sdk.ref_dec) (a_coin "uusd" 1000) fee = Ok (a_coin "uusd" 1011, a_coin "uusd" 11) ∧
  CalcTakerFeeExactIn (D := sdk.ref_dec) (a_coin "uusd" 1010) fee = Ok (a_coin "uusd" 999, a_coin "uusd" 11) ∧
  (1000 ≤ 999 ↔ 1011 ≤ 1010).
Proof.
  split; [by vm_compute|]. split; [by vm_compute|].
  destruct (taker_fee_least (D := sdk.ref_dec) (L := sdk.ref_dec_laws) "uusd" 1000 (Dec.mk (10 ^ 16))
    (a_coin "uusd" 1011) (a_coin "uusd" 11)) as [_ H].
  - split; vm_compute; [discriminate|done].
  - by vm_compute.
  - exact (proj2 (H 1010 (a_coin "uusd" 999) (a_coin "uusd" 11) ltac:(done) ltac:(by vm_compute))).
Defined.

(** *** The fees of pairs *)

Section keeper.
  Context {D : sdk.LegacyDec} {L : sdk.LegacyDecLaws D} {C : coin.CoinOps} {A : addr.Addresses} {Ch : Chain} {Mo : Modules}.

Lemma pair_key_inj a b c d :
  KV.valid_denom a → KV.valid_denom b → KV.valid_denom c → KV.valid_denom d →
  FormatDenomTradePairKey a b = FormatDenomTradePairKey c d → a = c ∧ b = d.
Proof.
  intros Ha Hb Hc Hd. unfold FormatDenomTradePairKey. intros H%app_inv_head. apply app_inv_head in H.
  apply KV.bar_split in H as [->%KV.text_inj ->%KV.text_inj]; done.
Qed.

Lemma ParseDenomTradePairKey_format a b :
  KV.valid_denom a → KV.valid_denom b → ValidateDenom a = Ok tt → ValidateDenom b = Ok tt →
  ParseDenomTradePairKey (FormatDenomTradePairKey a b) = Ok (a, b).
Proof.
  intros Ha Hb Va Vb. unfold ParseDenomTradePairKey, FormatDenomTradePairKey, DenomTradePairPrefix, KeySeparator.
  change (KV.text "|") with ["|"%char]. change ([ascii_of_nat 4] ++ ["|"%char] ++ ?x) with ([ascii_of_nat 4] ++ "|"%char :: x).
  rewrite BigText.Split_sep by (constructor; [discriminate|constructor]).
  change (["|"%char] ++ KV.text b) with ("|"%char :: KV.text b).
  rewrite BigText.Split_sep by done. rewrite BigText.Split_no_sep by done. unfold KV.text.
  rewrite !String.string_of_list_ascii_of_string, Va. cbn [mbind outcome_bind]. by rewrite Vb.
Qed.

(** The fee of a pair is what was last set for it, in its order, or else the default: setting a fee
    takes effect for that pair, also when it equals the default and nothing is stored, and for no other. *)
Theorem pair_fee_read_back a b fee s s' c d :
  KV.valid_denom a → KV.valid_denom b → KV.valid_denom c → KV.valid_denom d →
  SetDenomPairTakerFee a b fee s = Ok (tt, s') →
  Dec.i (GetTradingPairTakerFee s' c d) =
    if bool_decide (c = a ∧ d = b) then Dec.i fee else Dec.i (GetTradingPairTakerFee s c d).
Proof using L.
  intros Ha Hb Hc Hd. unfold SetDenomPairTakerFee. intros H. run_gets H. cbn [id] in H. rewrite sdk.Equal_spec in H.
  assert (FormatDenomTradePairKey a b = FormatDenomTradePairKey c d ↔ c = a ∧ d = b) as Hk.
  { split; [by intros [-> ->]%pair_key_inj|by intros [-> ->]]. }
  unfold GetTradingPairTakerFee. destruct (Z.eqb_spec (Dec.i fee) (Dec.i (GetDefaultTakerFee s))) as [E|_];
    apply st_modify_Ok in H as ->; cbn [takerFees set_taker_fees params]; case_bool_decide as Hp.
  - rewrite (proj2 Hk Hp), lookup_delete_eq. by rewrite E.
  - rewrite lookup_delete_ne; [done|]. by rewrite Hk.
  - by rewrite (proj2 Hk Hp), lookup_insert_eq.
  - rewrite lookup_insert_ne; [done|]. by rewrite Hk.
Qed.

(** *** Pool ids *)

(** The routes are those of ids that have been given out. *)
Definition ids_used (s : state World) : Prop := ∀ id t, moduleRoutes s !! id = Some t → 0 ≤ id < nextPoolId s.

(** Between the start and the end of an operation of a pool module, which may create pools. *)
Definition grows (s s' : state World) : Prop :=
  nextPoolId s ≤ nextPoolId s' ∧ (∀ id t, moduleRoutes s !! id = Some t → moduleRoutes s' !! id = Some t) ∧
  (ids_used s → ids_used s').
#[global] Instance grows_preorder : PreOrder grows.
Proof.
  split; [by intros s; split_and!|]. intros s t u (H1 & H2 & H3) (G1 & G2 & G3). split_and!; [lia|auto..].
Qed.

Lemma on_world_grows m : keeps grows (on_world m).
Proof. intros s u s' (w & _ & [= <- <-])%bind_Ok. by split_and!. Qed.

(** The route is entered between the counter and the initialization by the module. *)
Lemma enter_pool (s s' : state World) t :
  ids_used s → 0 ≤ nextPoolId s →
  grows (set_routes (insert (nextPoolId s) t) (set_next_id (nextPoolId s + 1) s)) s' →
  moduleRoutes s !! nextPoolId s = None ∧ moduleRoutes s' !! nextPoolId s = Some t ∧
  nextPoolId s < nextPoolId s' ∧ (∀ id t', moduleRoutes s !! id = Some t' → moduleRoutes s' !! id = Some t') ∧ ids_used s'.
Proof.
  intros Hu H0 (Hn & Hr & Hused). cbn in Hn, Hr.
  assert (moduleRoutes s !! nextPoolId s = None) as Hfree.
  { destruct (moduleRoutes s !! nextPoolId s) eqn:E; [|done]. apply Hu in E. lia. }
  split; [done|]. split; [apply Hr; by rewrite lookup_insert_eq|]. split; [lia|]. split.
  - intros id t' Hid. apply Hr. rewrite lookup_insert_ne; [done|]. intros <-. congruence.
  - apply Hused. intros id t'. cbn. destruct (decide (id = nextPoolId s)) as [->|Hne]; [lia|].
    rewrite lookup_insert_ne by done. intros ?%Hu. lia.
Qed.

(** C23.  Pool ids are given out once.  If the modules' initializations only add pools, a new pool gets the
    id the counter showed, under which nothing was routed; it is routed to the module of its type, all
    other routes stay, and the counter is beyond every id in use, so the next pool is new again. *)
Theorem pool_ids_fresh m s id s' :
  (∀ t md pool a, routes t = Some md → keeps grows (InitializePool md pool a)) →
  ids_used s → 0 ≤ nextPoolId s → CreatePool m s = Ok (id, s') →
  id = nextPoolId s ∧ moduleRoutes s !! id = None ∧ moduleRoutes s' !! id = Some (GetPoolType m) ∧
  (∀ id' t, moduleRoutes s !! id' = Some t → moduleRoutes s' !! id' = Some t) ∧
  id < nextPoolId s' ∧ ids_used s'.
Proof.
  intros Hinit Hu H0 H. unfold CreatePool in H. destruct (routes (GetPoolType m)) as [md|] eqn:Er; [|done].
  run H as pool s2 Hz. run_lift H as ad _. run H as [] s3 Hpay. run_ret H.
  unfold createPoolZeroLiquidityNoCreationFee, getNextPoolIdAndIncrement, GetNextPoolId, SetNextPoolId, SetPoolRoute in Hz.
  rewrite Er in Hz. run Hz as [] s1 Hv. apply bind_Ok in Hv as ([] & _ & [= <-]).
  run Hz as n s1 Hn. run_gets Hn. run Hn as [] s4 ->%st_modify_Ok. apply st_ret_Ok in Hn as [<- <-].
  run_require Hz as Hmax. apply Z.ltb_lt in Hmax. unfold MaxPoolId in Hmax.
  run Hz as p s4 Hp. apply bind_Ok in Hp as (p' & _ & [= -> <-]). run Hz as [] s4 ->%st_modify_Ok.
  run_lift Hz as [] Hc. unfold validateCreatedPool in Hc. destruct (Z.eqb_spec (GetId p) (nextPoolId s)) as [Hid|]; [|done].
  run Hz as [] s4 Hi. run_lift Hz as ad2 _. run Hz as [] s5 Hm. apply st_ret_Ok in Hz as [-> ->].
  rewrite Hid. rewrite Z.mod_small in Hi by lia.
  assert (grows (set_routes (insert (nextPoolId s) (GetPoolType m)) (set_next_id (nextPoolId s + 1) s)) s3) as Hg.
  { transitivity s4; [by eapply Hinit|]. transitivity s2; [by eapply on_world_grows|by eapply on_world_grows]. }
  destruct (enter_pool s s3 (GetPoolType m) Hu H0 Hg) as (H1 & H2 & H3 & H4 & H5). by split_and!.
Qed.
End keeper.
End PoolManagerProps.
