(* ===== verification/PoolRouter.v ===== *)
(** Routing of swaps through pools: x/poolmanager/router.go (swaps and estimates), the swap handlers of
    msg_server.go, the routes of types/routes.go, and [ContainsDuplicateDeepEqual] of
    osmoutils/slice_helper.go.

    The list of denominations of a route, which only the disabled skimming of fees would read, is left
    out.

    The second module shows that a swap through several pools gives what its estimate says, whatever
    modules hold the pools, and what limits it.  The theorems are proved against the contract of a pool
    module, [Lawful]; [GammProps] shows that the gamm keeper keeps it. *)
From stdpp Require Import prelude strings list gmap.
From S2P Require Import Prelude.
From S2P Require Import GoBig.
From S2P Require Import SdkDec.
From S2P Require Import Decimal.
From S2P Require Import SdkCoins.
From S2P Require Import GoState.
From S2P Require Import CLPool.
From S2P Require Import ArbFilter.
From S2P Require Import PoolManager.
From S2P Require Import PoolManagerProps.
Local Open Scope Z_scope.

Module PoolRouter.
Import PoolManager.
Abbreviation InRoute := ArbFilter.SwapAmountInRoute.
Abbreviation OutRoute := ArbFilter.SwapAmountOutRoute.
Abbreviation PoolIdIn := ArbFilter.InPoolId.
Abbreviation TokenOutDenom := ArbFilter.RouteTokenOutDenom.
Abbreviation PoolIdOut := ArbFilter.OutPoolId.
Abbreviation TokenInDenom := ArbFilter.RouteTokenInDenom.

#[global] Instance in_route_eq_dec : EqDecision InRoute.
Proof. solve_decision. Defined.
#[global] Instance out_route_eq_dec : EqDecision OutRoute.
Proof. solve_decision. Defined.

Record SwapAmountInSplitRoute := { InPools : list InRoute; TokenInAmount : SdkInt.t }.
Record SwapAmountOutSplitRoute := { OutPools : list OutRoute; TokenOutAmount : SdkInt.t }.

(** Only neighbours are compared. *)
Fixpoint ContainsDuplicateDeepEqual {T} `{EqDecision T} (multihops : list T) : bool :=
  match multihops with
  | x :: (y :: _) as rest => if decide (x = y) then true else ContainsDuplicateDeepEqual rest
  | _ => false
  end.

(** 2^256 - 1 *)
Definition intMaxValue : SdkInt.t := SdkInt.mk (2 ^ 256 - 1).

Section router.
  Context {D : sdk.LegacyDec} {C : coin.CoinOps} {A : addr.Addresses} {Ch : Chain} {Mo : Modules}.
Abbreviation K := (M (state World)).

(** *** types/routes.go *)

Fixpoint validateDenoms (denoms : list string) : outcome unit :=
  match denoms with [] => Ok tt | d :: denoms => _ ← ValidateDenom d; validateDenoms denoms end.
Definition ValidateIn (routes : list InRoute) : outcome unit :=
  match routes with [] => Err "ErrEmptyRoutes" | _ => validateDenoms (TokenOutDenom <$> routes) end.
Definition ValidateOut (routes : list OutRoute) : outcome unit :=
  match routes with [] => Err "ErrEmptyRoutes" | _ => validateDenoms (TokenInDenom <$> routes) end.
Fixpoint sameLastOut (splitRoutes : list SwapAmountInSplitRoute) (previous : string) : outcome unit :=
  match splitRoutes with
  | [] => Ok tt
  | r :: splitRoutes =>
    _ ← ValidateIn (InPools r);
    last ← ArbFilter.last_of (InPools r);
    if negb (String.eqb previous "") && negb (String.eqb (TokenOutDenom last) previous) then
      Err "InvalidFinalTokenOutError"
    else sameLastOut splitRoutes (TokenOutDenom last)
  end.
Definition ValidateSwapAmountInSplitRoute (splitRoutes : list SwapAmountInSplitRoute) : outcome unit :=
  match splitRoutes with
  | [] => Err "ErrEmptyRoutes"
  | _ =>
    _ ← sameLastOut splitRoutes "";
    if ContainsDuplicateDeepEqual (InPools <$> splitRoutes) then Err "ErrDuplicateRoutesNotAllowed" else Ok tt
  end.
Fixpoint sameFirstIn (splitRoutes : list SwapAmountOutSplitRoute) (previous : string) : outcome unit :=
  match splitRoutes with
  | [] => Ok tt
  | r :: splitRoutes =>
    _ ← ValidateOut (OutPools r);
    first ← ArbFilter.first_of (OutPools r);
    if negb (String.eqb previous "") && negb (String.eqb (TokenInDenom first) previous) then
      Err "InvalidFinalTokenOutError"
    else sameFirstIn splitRoutes (TokenInDenom first)
  end.
Definition ValidateSwapAmountOutSplitRoute (splitRoutes : list SwapAmountOutSplitRoute) : outcome unit :=
  match splitRoutes with
  | [] => Err "ErrEmptyRoutes"
  | _ =>
    _ ← sameFirstIn splitRoutes "";
    if ContainsDuplicateDeepEqual (OutPools <$> splitRoutes) then Err "ErrDuplicateRoutesNotAllowed" else Ok tt
  end.

(** *** Swaps *)

Definition GetPoolModuleAndPool (poolId : Z) : K (PoolModuleI * PoolI) :=
  swapModule ← GetPoolModule poolId;
  pool ← query (λ s, GetPool swapModule s poolId);
  mret (swapModule, pool).

Definition SwapExactAmountIn (sender : addr.AccAddress) (poolId : Z) (tokenIn : coin.Coin)
    (tokenOutDenom : string) (tokenOutMinAmount : SdkInt.t) : K (SdkInt.t * coin.Coin) :=
  '(swapModule, pool) ← GetPoolModuleAndPool poolId;
  s ← gets id;
  _ ← require (IsActive (world s) pool) "pool is not active";
  '(tokenInAfterSubTakerFee, takerFeeCharged) ← chargeTakerFee tokenIn tokenOutDenom sender true;
  s ← gets id;
  tokenOutAmount ← PoolManager.SwapExactAmountIn swapModule sender pool tokenInAfterSubTakerFee tokenOutDenom
                     tokenOutMinAmount (GetSpreadFactor (world s) pool);
  mret (tokenOutAmount, takerFeeCharged).

Definition SwapExactAmountInNoTakerFee (sender : addr.AccAddress) (poolId : Z) (tokenIn : coin.Coin)
    (tokenOutDenom : string) (tokenOutMinAmount : SdkInt.t) : K SdkInt.t :=
  '(swapModule, pool) ← GetPoolModuleAndPool poolId;
  s ← gets id;
  _ ← require (IsActive (world s) pool) "pool is not active";
  tokenOutAmount ← PoolManager.SwapExactAmountIn swapModule sender pool tokenIn tokenOutDenom
                     tokenOutMinAmount (GetSpreadFactor (world s) pool);
  _ ← trackVolume (GetId pool) tokenIn;
  mret tokenOutAmount.

(** The loop of [RouteExactAmountIn]. *)
Fixpoint swapAlong (sender : addr.AccAddress) (route : list InRoute) (tokenIn : coin.Coin)
    (tokenOutMinAmount tokenOutAmount : SdkInt.t) (totalTakerFeesCharged : coin.Coins) : K SdkInt.t :=
  match route with
  | [] => mret tokenOutAmount
  | routeStep :: route =>
    let _outMinAmount := match route with [] => tokenOutMinAmount | _ => SdkInt.mk 1 end in
    '(tokenOutAmount, takerFeeCharged) ←
      SwapExactAmountIn sender (PoolIdIn routeStep) tokenIn (TokenOutDenom routeStep) _outMinAmount;
    tokenIn ← lift (coin.NewCoin (TokenOutDenom routeStep) tokenOutAmount);
    totalTakerFeesCharged ← lift (coin.Add totalTakerFeesCharged [takerFeeCharged]);
    swapAlong sender route tokenIn tokenOutMinAmount tokenOutAmount totalTakerFeesCharged
  end.
Definition RouteExactAmountIn (sender : addr.AccAddress) (route : list InRoute) (tokenIn : coin.Coin)
    (tokenOutMinAmount : SdkInt.t) : K SdkInt.t :=
  _ ← lift (ValidateIn route);
  swapAlong sender route tokenIn tokenOutMinAmount (SdkInt.mk 0) [].

Definition SplitRouteExactAmountIn (sender : addr.AccAddress) (routes : list SwapAmountInSplitRoute)
    (tokenInDenom : string) (tokenOutMinAmount : SdkInt.t) : K SdkInt.t :=
  _ ← lift (ValidateSwapAmountInSplitRoute routes);
  totalOutAmount ← fold_each routes (SdkInt.mk 0) (λ totalOutAmount multihopRoute,
    tokenIn ← lift (coin.NewCoin tokenInDenom (TokenInAmount multihopRoute));
    tokenOutAmount ← RouteExactAmountIn sender (InPools multihopRoute) tokenIn (SdkInt.mk 0);
    lift (sdk.IntAdd totalOutAmount tokenOutAmount));
  _ ← require (sdk.IntIsPositive totalOutAmount) "FinalAmountIsNotPositiveError";
  _ ← require (negb (sdk.IntLT totalOutAmount tokenOutMinAmount)) "PriceImpactProtectionExactInError";
  mret totalOutAmount.

(** The loop of [createMultihopExpectedSwapOuts], which runs from the last pool to the first; the amounts
    for the pools after it are returned with the coin that is to come out of it. *)
Fixpoint expectedIns (s : state World) (route : list OutRoute) (tokenOut : coin.Coin)
    : outcome (list SdkInt.t * coin.Coin) :=
  match route with
  | [] => Ok ([], tokenOut)
  | routeStep :: route =>
    '(insExpected, tokenOut) ← expectedIns s route tokenOut;
    '((swapModule, poolI), _) ← GetPoolModuleAndPool (PoolIdOut routeStep) s;
    let spreadFactor := GetSpreadFactor (world s) poolI in
    let takerFee := GetTradingPairTakerFee s (TokenInDenom routeStep) (coin.Denom tokenOut) in
    tokenIn ← CalcInAmtGivenOut swapModule s poolI tokenOut (TokenInDenom routeStep) spreadFactor;
    '(tokenInAfterTakerFee, _) ← CalcTakerFeeExactOut tokenIn takerFee;
    Ok (coin.Amount tokenInAfterTakerFee :: insExpected, tokenInAfterTakerFee)
  end.
Definition createMultihopExpectedSwapOuts (s : state World) (route : list OutRoute) (tokenOut : coin.Coin)
    : outcome (list SdkInt.t) :=
  '(insExpected, _) ← expectedIns s route tokenOut; Ok insExpected.

(** The loop of [RouteExactAmountOut]; the amount of the first pool is kept. *)
Fixpoint swapBack (sender : addr.AccAddress) (route : list OutRoute) (insExpected : list SdkInt.t)
    (tokenOut : coin.Coin) (first : option SdkInt.t) (totalTakerFeesCharged : coin.Coins) : K SdkInt.t :=
  match route, insExpected with
  | [], _ => mret (default (SdkInt.mk 0) first)
  | _, [] => panic "index out of range"
  | routeStep :: route, inExpected :: insExpected =>
    '(swapModule, pool) ← GetPoolModuleAndPool (PoolIdOut routeStep);
    _tokenOut ← match route with
                | [] => mret tokenOut
                | next :: _ =>
                  match insExpected with
                  | [] => panic "index out of range"
                  | amount :: _ => lift (coin.NewCoin (TokenInDenom next) amount)
                  end
                end;
    s ← gets id;
    _ ← require (IsActive (world s) pool) "InactivePoolError";
    let spreadFactor := GetSpreadFactor (world s) pool in
    curTokenInAmount ← SwapExactAmountOut swapModule sender pool (TokenInDenom routeStep) inExpected _tokenOut
                         spreadFactor;
    tokenIn ← lift (coin.NewCoin (TokenInDenom routeStep) curTokenInAmount);
    '(tokenInAfterAddTakerFee, takerFeeCharged) ← chargeTakerFee tokenIn (coin.Denom _tokenOut) sender false;
    totalTakerFeesCharged ← lift (coin.Add totalTakerFeesCharged [takerFeeCharged]);
    swapBack sender route insExpected tokenOut
      (Some (default (coin.Amount tokenInAfterAddTakerFee) first)) totalTakerFeesCharged
  end.
(** A panic after the validation is turned into an error. *)
Definition RouteExactAmountOut (sender : addr.AccAddress) (route : list OutRoute)
    (tokenInMaxAmount : SdkInt.t) (tokenOut : coin.Coin) : K SdkInt.t :=
  _ ← lift (ValidateOut route);
  recovering "function RouteExactAmountOut failed due to internal reason" (
    insExpected ← query (λ s, createMultihopExpectedSwapOuts s route tokenOut);
    match insExpected with
    | [] => mret (SdkInt.mk 0)
    | _ :: insExpected => swapBack sender route (tokenInMaxAmount :: insExpected) tokenOut None []
    end).

Definition SplitRouteExactAmountOut (sender : addr.AccAddress) (route : list SwapAmountOutSplitRoute)
    (tokenOutDenom : string) (tokenInMaxAmount : SdkInt.t) : K SdkInt.t :=
  _ ← lift (ValidateSwapAmountOutSplitRoute route);
  totalInAmount ← fold_each route (SdkInt.mk 0) (λ totalInAmount multihopRoute,
    tokenOut ← lift (coin.NewCoin tokenOutDenom (TokenOutAmount multihopRoute));
    tokenInAmount ← RouteExactAmountOut sender (OutPools multihopRoute) intMaxValue tokenOut;
    lift (sdk.IntAdd totalInAmount tokenInAmount));
  _ ← require (sdk.IntIsPositive totalInAmount) "FinalAmountIsNotPositiveError";
  _ ← require (negb (sdk.IntGT totalInAmount tokenInMaxAmount)) "PriceImpactProtectionExactOutError";
  mret totalInAmount.

(** *** Estimates *)

Fixpoint estimateAlong (s : state World) (route : list InRoute) (tokenIn : coin.Coin)
    (tokenOutAmount : SdkInt.t) (applyTakerFee : bool) : outcome SdkInt.t :=
  match route with
  | [] => Ok tokenOutAmount
  | routeStep :: route =>
    '((swapModule, poolI), _) ← GetPoolModuleAndPool (PoolIdIn routeStep) s;
    let spreadFactor := GetSpreadFactor (world s) poolI in
    actualTokenIn ←
      (if applyTakerFee then
         '(c, _) ← CalcTakerFeeExactIn tokenIn
                     (GetTradingPairTakerFee s (coin.Denom tokenIn) (TokenOutDenom routeStep));
         Ok c
       else Ok tokenIn);
    tokenOut ← CalcOutAmtGivenIn swapModule s poolI actualTokenIn (TokenOutDenom routeStep) spreadFactor;
    let tokenOutAmount := coin.Amount tokenOut in
    if negb (sdk.IntIsPositive tokenOutAmount) then Err "token amount must be positive"
    else estimateAlong s route {| coin.Denom := TokenOutDenom routeStep; coin.Amount := tokenOutAmount |}
           tokenOutAmount applyTakerFee
  end.
Definition multihopEstimateOutGivenExactAmountInInternal (s : state World) (route : list InRoute)
    (tokenIn : coin.Coin) (applyTakerFee : bool) : outcome SdkInt.t :=
  recover "function MultihopEstimateOutGivenExactAmountIn failed due to internal reason" (
    _ ← ValidateIn route;
    estimateAlong s route tokenIn (SdkInt.mk 0) applyTakerFee).
Definition MultihopEstimateOutGivenExactAmountInNoTakerFee (s : state World) (route : list InRoute)
    (tokenIn : coin.Coin) : outcome SdkInt.t :=
  multihopEstimateOutGivenExactAmountInInternal s route tokenIn false.
Definition MultihopEstimateOutGivenExactAmountIn (s : state World) (route : list InRoute)
    (tokenIn : coin.Coin) : outcome SdkInt.t :=
  multihopEstimateOutGivenExactAmountInInternal s route tokenIn true.
Definition MultihopEstimateInGivenExactAmountOut (s : state World) (route : list OutRoute)
    (tokenOut : coin.Coin) : outcome SdkInt.t :=
  recover "function MultihopEstimateInGivenExactAmountOut failed due to internal reason" (
    _ ← ValidateOut route;
    insExpected ← createMultihopExpectedSwapOuts s route tokenOut;
    match insExpected with [] => Ok (SdkInt.mk 0) | amount :: _ => Ok amount end).

(** *** msg_server.go *)

Definition MsgSwapExactAmountIn (sender : string) (route : list InRoute) (tokenIn : coin.Coin)
    (tokenOutMinAmount : SdkInt.t) : K SdkInt.t :=
  sender ← lift (addr.AccAddressFromBech32 sender);
  RouteExactAmountIn sender route tokenIn tokenOutMinAmount.
Definition MsgSwapExactAmountOut (sender : string) (route : list OutRoute) (tokenInMaxAmount : SdkInt.t)
    (tokenOut : coin.Coin) : K SdkInt.t :=
  sender ← lift (addr.AccAddressFromBech32 sender);
  RouteExactAmountOut sender route tokenInMaxAmount tokenOut.
Definition MsgSplitRouteSwapExactAmountIn (sender : string) (routes : list SwapAmountInSplitRoute)
    (tokenInDenom : string) (tokenOutMinAmount : SdkInt.t) : K SdkInt.t :=
  sender ← lift (addr.AccAddressFromBech32 sender);
  SplitRouteExactAmountIn sender routes tokenInDenom tokenOutMinAmount.
Definition MsgSplitRouteSwapExactAmountOut (sender : string) (routes : list SwapAmountOutSplitRoute)
    (tokenOutDenom : string) (tokenInMaxAmount : SdkInt.t) : K SdkInt.t :=
  sender ← lift (addr.AccAddressFromBech32 sender);
  SplitRouteExactAmountOut sender routes tokenOutDenom tokenInMaxAmount.
End router.
End PoolRouter.

Module PoolRouterProps.
Import PoolManager.
Import PoolRouter.
Import PoolManagerProps.

(** *** The contract of a pool module *)

Section contract.
  Context `{Ch : Chain}.

(** What the pool manager itself keeps, but for volumes. *)
Definition same_config (s s' : state World) : Prop :=
  moduleRoutes s' = moduleRoutes s ∧ takerFees s' = takerFees s ∧ params s' = params s.
#[global] Instance same_config_preorder : PreOrder same_config.
Proof. split; [by intros s; split_and!|]. intros s t u (?&?&?) (?&?&?). split_and!; congruence. Qed.

(** [agree id s s']: the chain's states agree on all that concerns pool [id]; [filed s id]: what is stored
    under [id] is the pool of that id. *)
Class Agreement : Type := {
  agree : Z → state World → state World → Prop;
  agree_preorder id : PreOrder (agree id);
  agree_send id a m c s w : SendCoinsFromAccountToModule a m c (world s) = Ok w → agree id s (set_world w s);
  filed : state World → Z → Prop;
  filed_agree id s s' : agree id s s' → filed s id → filed s' id;
  agree_spread s s' p : agree (GetId p) s s' → GetSpreadFactor (world s') p = GetSpreadFactor (world s) p;
}.
#[global] Existing Instance agree_preorder.

(** A lookup finds the pool of the id; estimates depend on the pool alone and tell what a swap gives; a
    swap keeps to its limit, to its pool and to the world. *)
Record Lawful `{Agreement} (m : PoolModuleI) : Prop := {
  get_pool_id s id p : filed s id → GetPool m s id = Ok p → GetId p = id;
  get_pool_agree s s' id : agree id s s' → GetPool m s' id = GetPool m s id;
  calc_out_agree s s' p c d fee :
    agree (GetId p) s s' → CalcOutAmtGivenIn m s' p c d fee = CalcOutAmtGivenIn m s p c d fee;
  swap_in_ok sender p c d lim fee s n s' :
    GetPool m s (GetId p) = Ok p → PoolManager.SwapExactAmountIn m sender p c d lim fee s = Ok (n, s') →
    SdkInt.i lim ≤ SdkInt.i n ∧ same_config s s' ∧ (∀ id, id ≠ GetId p → agree id s s') ∧
    ∀ out, CalcOutAmtGivenIn m s p c d fee = Ok out → coin.Amount out = n;
  calc_in_denom s p out d fee c : CalcInAmtGivenOut m s p out d fee = Ok c → coin.Denom c = d;
  swap_out_ok sender p d lim out fee s n s' :
    GetPool m s (GetId p) = Ok p → PoolManager.SwapExactAmountOut m sender p d lim out fee s = Ok (n, s') →
    SdkInt.i n ≤ SdkInt.i lim ∧ same_config s s' ∧
    ∀ c, CalcInAmtGivenOut m s p out d fee = Ok c → coin.Amount c = n
}.
End contract.

Section router.
  Context {D : sdk.LegacyDec} {C : coin.CoinOps} {CL : coin.CoinLaws C} {A : addr.Addresses} {Ch : Chain}
    {Mo : Modules} {Ag : Agreement}.

(** Every pool of a route is filed in a module that keeps the contract. *)
Definition lawful_pools (s : state World) (ids : list Z) : Prop :=
  ∀ id, id ∈ ids → filed s id ∧ ∀ t m, moduleRoutes s !! id = Some t → routes t = Some m → Lawful m.
Lemma lawful_pool s ids id : lawful_pools s ids → id ∈ ids → lawful_pools s [id].
Proof. intros HL Hid id' ->%list_elem_of_singleton. by apply HL. Qed.
Lemma lawful_module s id t m :
  lawful_pools s [id] → moduleRoutes s !! id = Some t → routes t = Some m → Lawful m.
Proof. intros HL. eapply HL. by left. Qed.
Lemma lawful_filed s id : lawful_pools s [id] → filed s id.
Proof. intros HL. apply HL. by left. Qed.
Definition whitelisted (s : state World) (sender : addr.AccAddress) : bool :=
  existsb (String.eqb (addr.AddressString sender)) (ReducedFeeWhitelist (FeeParams (params s))).

Lemma module_and_pool_Ok id s m p s' :
  GetPoolModuleAndPool id s = Ok ((m, p), s') →
  s' = s ∧ GetPool m s id = Ok p ∧ ∃ t, moduleRoutes s !! id = Some t ∧ routes t = Some m.
Proof.
  unfold GetPoolModuleAndPool. intros H. run H as m' s1 Hm. run H as p' s2 Hp. apply st_ret_Ok in H as [[= -> ->] ->].
  unfold GetPoolModule in Hm. run_gets Hm. cbn [Datatypes.id] in Hm.
  destruct (moduleRoutes s !! _) as [t|] eqn:Et; [|done]. destruct (routes t) eqn:Er; [|done]. run_ret Hm.
  unfold query in Hp. apply bind_Ok in Hp as (q & Hq & [= -> <-]). split_and!; [done..|]. by exists t.
Qed.

Lemma module_and_pool_same id s m p t :
  GetPool m s id = Ok p → moduleRoutes s !! id = Some t → routes t = Some m →
  GetPoolModuleAndPool id s = Ok ((m, p), s).
Proof.
  intros Hp Ht Hm. unfold GetPoolModuleAndPool, GetPoolModule, mbind, M_bind, gets. cbn [Datatypes.id].
  rewrite Ht, Hm. unfold query. cbn [mret M_ret]. by rewrite Hp.
Qed.

(** The fee is that of the pair, or none for a listed sender. *)
Lemma charge_in_Ok c d sender s after fee s' :
  chargeTakerFee c d sender true s = Ok ((after, fee), s') →
  same_config s s' ∧ (∀ id, agree id s s') ∧
  if whitelisted s sender then after = c
  else CalcTakerFeeExactIn c (GetTradingPairTakerFee s (coin.Denom c) d) = Ok (after, fee).
Proof.
  unfold chargeTakerFee. intros H. run_gets H. cbn [Datatypes.id] in H. fold (whitelisted s sender) in H.
  destruct (whitelisted s sender).
  - apply st_ret_Ok in H as [[= <- <-] <-]. split_and!; [done..|]. done.
  - run_lift H as [a f] Hc. run_lift H as coins Hn. run H as [] s1 Hs. apply st_ret_Ok in H as [[= <- <-] <-].
    unfold on_world in Hs. apply bind_Ok in Hs as (w & Hw & [= <-]). split; [by split_and!|].
    split; [intros id; by eapply agree_send|done].
Qed.
Lemma charge_out_Ok c d sender s after fee s' :
  chargeTakerFee c d sender false s = Ok ((after, fee), s') →
  if whitelisted s sender then after = c
  else CalcTakerFeeExactOut c (GetTradingPairTakerFee s (coin.Denom c) d) = Ok (after, fee).
Proof.
  unfold chargeTakerFee. intros H. run_gets H. cbn [Datatypes.id] in H. fold (whitelisted s sender) in H.
  destruct (whitelisted s sender); [by apply st_ret_Ok in H as [[= <- <-] _]|].
  run_lift H as [a f] Hc. run_lift H as coins Hn. run H as [] s1 Hs. by apply st_ret_Ok in H as [[= <- <-] _].
Qed.

Lemma fee_same_config s s' a b :
  same_config s s' → GetTradingPairTakerFee s' a b = GetTradingPairTakerFee s a b.
Proof. intros (_ & Hf & Hp). unfold GetTradingPairTakerFee, GetDefaultTakerFee. by rewrite Hf, Hp. Qed.

(** *** One hop *)

Lemma hop_in_Ok sender id c d lim s n fee s' :
  lawful_pools s [id] → PoolRouter.SwapExactAmountIn sender id c d lim s = Ok ((n, fee), s') →
  SdkInt.i lim ≤ SdkInt.i n ∧ same_config s s' ∧ (∀ id', id' ≠ id → agree id' s s') ∧
  ∃ m p t, GetPool m s id = Ok p ∧ moduleRoutes s !! id = Some t ∧ routes t = Some m ∧ Lawful m ∧
    ∀ after f out,
      (if whitelisted s sender then after = c
       else CalcTakerFeeExactIn c (GetTradingPairTakerFee s (coin.Denom c) d) = Ok (after, f)) →
      CalcOutAmtGivenIn m s p after d (GetSpreadFactor (world s) p) = Ok out → coin.Amount out = n.
Proof.
  intros HL. unfold PoolRouter.SwapExactAmountIn. intros H. run H as [m p] s1 Hg.
  apply module_and_pool_Ok in Hg as (-> & Hp & t & Ht & Hm). run_gets H. run_require H as _.
  run H as [after f] s1 Hc. run_gets H. run H as n' s2 Hs. apply st_ret_Ok in H as [[= -> ->] ->]. cbn [Datatypes.id] in Hs.
  pose proof (lawful_module _ _ _ _ HL Ht Hm) as Lm.
  pose proof (get_pool_id m Lm _ _ _ (lawful_filed _ _ HL) Hp) as Hid.
  apply charge_in_Ok in Hc as (Hconf & Hag & Hfee).
  pose proof (Hag id) as Hagid. pose proof (get_pool_agree m Lm _ _ _ Hagid) as Hg. rewrite Hp, <- Hid in Hg.
  destruct (swap_in_ok m Lm _ _ _ _ _ _ _ _ _ Hg Hs) as (Hlim & Hconf' & Hag' & Hcalc).
  split; [done|]. split; [by transitivity s1|]. split.
  { intros id' Hne. transitivity s1; [apply Hag|]. apply Hag'. by rewrite Hid. }
  exists m, p, t. split_and!; [done..|]. intros a f' out Ha Hout. apply Hcalc.
  rewrite Hid in *. rewrite (agree_spread s s1) by (by rewrite Hid).
  rewrite (calc_out_agree m Lm s s1) by (by rewrite Hid). rewrite <- Hout.
  destruct (whitelisted s sender); [congruence|]. rewrite Ha in Hfee. congruence.
Qed.

(** *** The route *)

Lemma swapAlong_is_estimate sender route c lim amount fees s0 s m s' :
  lawful_pools s0 (PoolIdIn <$> route) → NoDup (PoolIdIn <$> route) → same_config s0 s →
  (∀ id, id ∈ PoolIdIn <$> route → agree id s0 s) →
  swapAlong sender route c lim amount fees s = Ok (m, s') →
  (SdkInt.i lim ≤ SdkInt.i m ∨ route = []) ∧
  ∀ n, estimateAlong s0 route c amount (negb (whitelisted s0 sender)) = Ok n → n = m.
Proof.
  revert c amount fees s. induction route as [|r route IH]; intros c amount fees s HL Hnd Hconf Hag H.
  { cbn in H. apply st_ret_Ok in H as [-> _]. split; [by right|]. by intros n [= <-]. }
  cbn [fmap list_fmap] in *. apply NoDup_cons in Hnd as [Hr Hnd]. cbn [swapAlong] in H.
  run H as [out fee] s1 Hhop. run_lift H as c' Hc'. apply coin.NewCoin_spec in Hc' as [-> _].
  run_lift H as fees' _. destruct Hconf as (Er & Ef & Ep).
  apply hop_in_Ok in Hhop as (Hlim & Hconf1 & Hag1 & md & p & t & Hp & Ht & Hm & Lm & Hout).
  2:{ intros id ->%list_elem_of_singleton. destruct (HL (PoolIdIn r) ltac:(by left)) as [Hf Hl].
      split; [eapply filed_agree; [apply Hag; by left|done]|]. by rewrite Er. }
  assert (same_config s0 s1) as Hconf2 by (transitivity s; [by split_and!|done]).
  assert (∀ id, id ∈ PoolIdIn <$> route → agree id s0 s1) as Hag2.
  { intros id Hid. transitivity s; [apply Hag; by right|]. apply Hag1. by intros ->. }
  destruct (IH _ _ _ _ (λ id Hid, HL id ltac:(by right)) Hnd Hconf2 Hag2 H) as [Hmin Hest].
  split.
  { left. destruct route; [|by destruct Hmin]. cbn in H. apply st_ret_Ok in H as [<- _]. done. }
  cbn [estimateAlong]. intros n HE. apply bind_Ok in HE as ([[m2 p2] s2] & Hg & HE).
  apply module_and_pool_Ok in Hg as (-> & Hp2 & t2 & Ht2 & Hm2).
  assert (md = m2) as ->. { rewrite Er in Ht. congruence. }
  pose proof (Hag (PoolIdIn r) ltac:(by left)) as Hagr.
  rewrite (get_pool_agree m2 Lm _ _ _ Hagr) in Hp. assert (p2 = p) as -> by congruence.
  pose proof (get_pool_id m2 Lm _ _ _ (proj1 (HL _ ltac:(by left))) Hp) as Hid.
  apply bind_Ok in HE as (actual & Hact & HE). apply bind_Ok in HE as (o & Ho & HE).
  assert (whitelisted s sender = whitelisted s0 sender) as Hw by (unfold whitelisted; by rewrite Ep).
  assert (coin.Amount o = out) as Eo.
  { destruct (whitelisted s0 sender) eqn:Ew; cbn [negb] in Hact.
    - injection Hact as <-. eapply (Hout c c); [by rewrite Hw|].
      rewrite (agree_spread s0 s), (calc_out_agree m2 Lm s0 s) by (by rewrite Hid). exact Ho.
    - apply bind_Ok in Hact as ([a f] & Ha & [= ->]). eapply (Hout actual f).
      + rewrite Hw, (fee_same_config s0 s); [exact Ha|by split_and!].
      + rewrite (agree_spread s0 s), (calc_out_agree m2 Lm s0 s) by (by rewrite Hid). exact Ho. }
  rewrite Eo in HE. destruct (negb (sdk.IntIsPositive _)); [done|]. by apply Hest.
Qed.

(** C20.  What is estimated is what is swapped: if a swap of an exact amount along a route of different pools
    succeeds, and its estimate (with the taker fee, or without it for a sender on the list) gives a result,
    the two are the same; and the result is at least the limit of the message. *)
Theorem estimate_is_swap_in sender route c lim s m s' :
  lawful_pools s (PoolIdIn <$> route) → NoDup (PoolIdIn <$> route) →
  RouteExactAmountIn sender route c lim s = Ok (m, s') →
  SdkInt.i lim ≤ SdkInt.i m ∧
  ∀ n, multihopEstimateOutGivenExactAmountInInternal s route c (negb (whitelisted s sender)) = Ok n → n = m.
Proof using CL.
  intros HL Hnd. unfold RouteExactAmountIn. intros H. run_lift H as [] Hv.
  assert (route ≠ []) as Hne by (by intros ->).
  split.
  - eapply swapAlong_is_estimate in H as [[?|?] _]; done.
  - intros n. unfold multihopEstimateOutGivenExactAmountInInternal, recover. rewrite Hv. cbn [mbind outcome_bind].
    destruct (estimateAlong _ _ _ _ _) eqn:E; [|done..]. intros [= <-].
    eapply swapAlong_is_estimate in H as [_ HE]; [by eapply HE|done..].
Qed.

(** *** Exact out *)

(** The first pool is the first to be swapped against, so its swap sees the state the amounts were computed
    in, whatever the rest of the route is. *)
Lemma later_hops_keep sender route ins c out fees first s s' :
  swapBack sender route ins c (Some first) fees s = Ok (out, s') → out = first.
Proof.
  revert ins fees s. induction route as [|r route IH]; intros ins fees s H; cbn [swapBack] in H.
  { by apply st_ret_Ok in H as [<- _]. }
  destruct ins as [|i ins]; [done|]. run H as [md p] s1 Hg. run H as t s2 Ht. run_gets H. run_require H as _.
  run H as cur s3 Hs. run_lift H as ti Hti. run H as [af ch] s4 Hch. run_lift H as fs Hfs. by eapply IH.
Qed.

(** What goes into the first pool of a route is what has to come out of the pool before it. *)
Lemma expectedIns_head s r route c l t :
  lawful_pools s [PoolIdOut r] → expectedIns s (r :: route) c = Ok (l, t) →
  ∃ i ins out m p ty,
    l = i :: ins ∧ t = {| coin.Denom := TokenInDenom r; coin.Amount := i |} ∧
    expectedIns s route c = Ok (ins, out) ∧ GetPool m s (PoolIdOut r) = Ok p ∧
    moduleRoutes s !! PoolIdOut r = Some ty ∧ routes ty = Some m ∧ Lawful m ∧
    ∃ tin charge, CalcInAmtGivenOut m s p out (TokenInDenom r) (GetSpreadFactor (world s) p) = Ok tin ∧
      CalcTakerFeeExactOut tin (GetTradingPairTakerFee s (TokenInDenom r) (coin.Denom out)) = Ok (t, charge).
Proof.
  intros HL. cbn [expectedIns]. intros H. apply bind_Ok in H as ([ins out] & Hins & H).
  apply bind_Ok in H as ([[m p] s1] & Hg & H). apply module_and_pool_Ok in Hg as (-> & Hp & ty & Hty & Hm).
  apply bind_Ok in H as (tin & Htin & H). apply bind_Ok in H as ([after charge] & Hfee & [= <- <-]).
  pose proof (lawful_module _ _ _ _ HL Hty Hm) as Lm.
  pose proof (calc_in_denom m Lm _ _ _ _ _ _ Htin) as Hd.
  assert (after = {| coin.Denom := TokenInDenom r; coin.Amount := coin.Amount after |}) as Ea.
  { unfold CalcTakerFeeExactOut in Hfee. repeat (apply bind_Ok in Hfee as (? & ? & Hfee)).
    injection Hfee as <- _. by rewrite <- Hd. }
  exists (coin.Amount after), ins, out, m, p, ty. split_and!; try done. exists tin, charge. by split.
Qed.

(** The coin that the swap takes out of the first pool is the one the amounts were computed for. *)
Lemma first_out s route c l out :
  lawful_pools s (PoolIdOut <$> route) → expectedIns s route c = Ok (l, out) →
  match route with
  | [] => out = c
  | r :: _ => ∃ i ins, l = i :: ins ∧ out = {| coin.Denom := TokenInDenom r; coin.Amount := i |}
  end.
Proof.
  destruct route as [|r route]; intros HL H; [by injection H as _ <-|].
  apply expectedIns_head in H as (i & ins & ? & ? & ? & ? & -> & -> & _); [by exists i, ins|].
  eapply lawful_pool; [done|by left].
Qed.

Definition next_denom (route : list OutRoute) (c : coin.Coin) : string :=
  match route with [] => coin.Denom c | r :: _ => TokenInDenom r end.

Lemma first_hop sender r route i ins t c lim s m s' :
  lawful_pools s (PoolIdOut <$> r :: route) → expectedIns s (r :: route) c = Ok (i :: ins, t) →
  swapBack sender (r :: route) (lim :: ins) c None [] s = Ok (m, s') →
  ∃ cur, SdkInt.i cur ≤ SdkInt.i lim ∧
    if whitelisted s sender then m = cur
    else m = i ∧ ∃ charge, CalcTakerFeeExactOut {| coin.Denom := TokenInDenom r; coin.Amount := cur |}
      (GetTradingPairTakerFee s (TokenInDenom r) (next_denom route c)) = Ok ({| coin.Denom := TokenInDenom r; coin.Amount := m |}, charge).
Proof.
  intros HL Hexp H. assert (lawful_pools s [PoolIdOut r]) as HL1 by (eapply lawful_pool; [done|by left]).
  apply expectedIns_head in Hexp as (i' & ins' & out & md & p & ty & [= <- <-] & -> & Hins & Hp & Hty & Hm & Lm & tin & charge & Htin & Hfee);
    [|done].
  apply first_out in Hins; [|intros id Hid; apply HL; by right].
  cbn [swapBack] in H. run H as [md2 p2] s1 Hg. apply module_and_pool_Ok in Hg as (-> & Hp2 & ty2 & Hty2 & Hm2).
  assert (md2 = md) as -> by congruence. assert (p2 = p) as -> by congruence.
  run H as out' s1 Hout. assert (out' = out ∧ s1 = s) as [-> ->].
  { destruct route as [|r2 route]; [apply st_ret_Ok in Hout as [<- <-]; by rewrite Hins|].
    destruct Hins as (i2 & ins2 & -> & ->). apply st_lift_Ok in Hout as [Hout ->].
    by apply coin.NewCoin_spec in Hout as [-> _]. }
  run_gets H. run_require H as _. run H as cur s2 Hs. run_lift H as ti Hti. apply coin.NewCoin_spec in Hti as [-> _].
  run H as [af ch] s3 Hch. run_lift H as fs Hfs. apply later_hops_keep in H as ->. cbn [Datatypes.id default] in *.
  pose proof (get_pool_id md Lm _ _ _ (lawful_filed _ _ HL1) Hp) as Hid. rewrite <- Hid in Hp.
  destruct (swap_out_ok md Lm _ _ _ _ _ _ _ _ _ Hp Hs) as (Hlim & Hconf & Hcalc).
  pose proof (calc_in_denom md Lm _ _ _ _ _ _ Htin) as Hd. apply Hcalc in Htin.
  assert (tin = {| coin.Denom := TokenInDenom r; coin.Amount := cur |}) as -> by (destruct tin; cbn in *; congruence).
  apply charge_out_Ok in Hch. assert (whitelisted s2 sender = whitelisted s sender) as Ew.
  { unfold whitelisted. destruct Hconf as (_ & _ & Ep). by rewrite Ep. }
  rewrite Ew in Hch. exists cur. split; [done|]. destruct (whitelisted s sender).
  - by rewrite Hch.
  - rewrite (fee_same_config s s2) in Hch by done. cbn [coin.Denom] in Hch. rewrite Hfee in Hch. injection Hch as <- _.
    assert (coin.Denom out = next_denom route c) as <-.
    { destruct route; [by rewrite Hins|]. by destruct Hins as (? & ? & _ & ->). }
    split; [done|]. by exists charge.
Qed.

Lemma RouteExactAmountOut_Ok sender route c lim s m s' :
  lawful_pools s (PoolIdOut <$> route) → RouteExactAmountOut sender route lim c s = Ok (m, s') →
  ∃ r rest i ins t cur, route = r :: rest ∧ ValidateOut route = Ok tt ∧ expectedIns s route c = Ok (i :: ins, t) ∧
    SdkInt.i cur ≤ SdkInt.i lim ∧
    if whitelisted s sender then m = cur
    else m = i ∧ ∃ charge, CalcTakerFeeExactOut {| coin.Denom := TokenInDenom r; coin.Amount := cur |}
      (GetTradingPairTakerFee s (TokenInDenom r) (next_denom rest c))
      = Ok ({| coin.Denom := TokenInDenom r; coin.Amount := m |}, charge).
Proof using CL.
  intros HL. unfold RouteExactAmountOut. intros H. run_lift H as [] Hv. apply st_recovering_Ok in H.
  run H as l s1 Hl. unfold query in Hl. apply bind_Ok in Hl as (l' & Hl & [= -> <-]).
  unfold createMultihopExpectedSwapOuts in Hl. apply bind_Ok in Hl as ([l' t] & Hl & [= ->]).
  destruct route as [|r route]; [done|].
  assert (∃ i ins, l = i :: ins) as (i & ins & ->).
  { cbn [expectedIns] in Hl. apply bind_Ok in Hl as ([ins out] & _ & Hl). apply bind_Ok in Hl as ([[md p] s1] & _ & Hl).
    apply bind_Ok in Hl as (tin & _ & Hl). apply bind_Ok in Hl as ([after charge] & _ & [= <- _]). by do 2 eexists. }
  edestruct first_hop as (cur & Hcur & Hr); [exact HL|exact Hl|exact H|].
  by exists r, route, i, ins, t, cur.
Qed.

(** C21.  A swap for an exact amount out costs what its estimate says: for a sender that pays taker fees, if
    the swap succeeds then so does the estimate, with the same amount, even if the route uses a pool more
    than once. *)
Theorem estimate_is_swap_out sender route c lim s m s' :
  lawful_pools s (PoolIdOut <$> route) → whitelisted s sender = false →
  RouteExactAmountOut sender route lim c s = Ok (m, s') →
  MultihopEstimateInGivenExactAmountOut s route c = Ok m.
Proof using CL.
  intros HL Hw (r & rest & i & ins & t & cur & -> & Hv & He & _ & Hr)%RouteExactAmountOut_Ok; [|done].
  rewrite Hw in Hr. destruct Hr as [-> _].
  unfold MultihopEstimateInGivenExactAmountOut, createMultihopExpectedSwapOuts. by rewrite Hv, He.
Qed.

(** C22.  What limits the cost of a swap for an exact amount out: the limit of the message binds what the
    first pool takes.  The taker fee comes on top of it, so a sender that pays fees can pay more than the
    limit, up to the least amount from which the limit is left after the fee. *)
Theorem exact_out_limit {L : sdk.LegacyDecLaws D} sender r rest c lim s m s' :
  lawful_pools s (PoolIdOut <$> r :: rest) →
  0 ≤ Dec.i (GetTradingPairTakerFee s (TokenInDenom r) (next_denom rest c)) < Dec.one →
  RouteExactAmountOut sender (r :: rest) lim c s = Ok (m, s') →
  ∃ cur, SdkInt.i cur ≤ SdkInt.i lim ∧
    SdkInt.i m = if whitelisted s sender then SdkInt.i cur
                 else gross (GetTradingPairTakerFee s (TokenInDenom r) (next_denom rest c)) (SdkInt.i cur).
Proof using CL.
  intros HL [Hf Hf1] (r' & rest' & i & ins & t & cur & [= <- <-] & _ & _ & Hlim & Hr)%RouteExactAmountOut_Ok; [|done].
  exists cur. split; [done|]. destruct (whitelisted s sender); [by rewrite Hr|].
  destruct Hr as (_ & charge & Hfee). by apply exact_out_spec in Hfee as (_ & _ & Ha & _).
Qed.
End router.
End PoolRouterProps.
