(* ===== verification/PoolEstimate.v ===== *)
(** Estimating the trade that a limit on the price impact allows: the three estimators of
    x/poolmanager/router.go, and the query of x/poolmanager/client/query_proto_wrap.go that chooses one.

    The search halves a range of amounts.  It runs on fuel, and [search_ends] shows that one unit for
    each bit of the range, and one more, is enough.

    The second module shows that the search ends, and that what it returns lies at the border of the
    limit, on either side. *)
From stdpp Require Import prelude strings list gmap.
From S2P Require Import Prelude.
From S2P Require Import GoBig.
From S2P Require Import SdkDec.
From S2P Require Import Decimal.
From S2P Require Import SdkCoins.
From S2P Require Import GoState.
From S2P Require Import CLPool.
From S2P Require Import PoolManager.
Local Open Scope Z_scope.

Module PoolEstimate.
Import PoolManager.

Record Request := {
  FromCoin : coin.Coin;
  ToCoinDenom : string;
  PoolId : Z;
  MaxPriceImpact : Dec.t;
  ExternalPrice : Dec.t
}.
Record Response := { InputCoin : coin.Coin; OutputCoin : coin.Coin }.

(** What the estimators ask of an error: whether it is [ErrInvalidMathApprox], and whether its text
    contains "panic". *)
Class Errors : Type := {
  IsInvalidMathApprox : string → bool;
  MentionsPanic : string → bool;
}.

(** What one trial says about the next amount to try. *)
Inductive trial := TryMore | TryLess | NoTrade.
Inductive searched := NothingViable | Searched (highAmount : SdkInt.t) (currFromCoin : coin.Coin) | OutOfFuel.

Section estimate.
  Context {D : sdk.LegacyDec} {C : coin.CoinOps} {A : addr.Addresses} {Ch : Chain} {Mo : Modules} {Er : Errors}.

Definition calculatePriceDeviation (currFromCoin tokenOut : coin.Coin) (spotPrice : Dec.t) : outcome Dec.t :=
  n ← sdk.IntInt64 (coin.Amount currFromCoin);
  currTradePrice ← sdk.QuoInt (Dec.NewDec n) (coin.Amount tokenOut);
  d ← sdk.Sub currTradePrice spotPrice;
  q ← sdk.Quo d spotPrice;
  Ok (sdk.Abs q).

Definition emptyTrade (req : Request) : outcome Response :=
  input ← coin.NewCoin (coin.Denom (FromCoin req)) (SdkInt.mk 0);
  output ← coin.NewCoin (ToCoinDenom req) (SdkInt.mk 0);
  Ok {| InputCoin := input; OutputCoin := output |}.

Fixpoint search (fuel : nat) (try : coin.Coin → outcome trial) (denom : string)
    (lowAmount highAmount : SdkInt.t) (currFromCoin : coin.Coin) : outcome searched :=
  if negb (sdk.IntLTE lowAmount highAmount) then Ok (Searched highAmount currFromCoin) else
  match fuel with
  | O => Ok OutOfFuel
  | S fuel =>
    sum ← sdk.IntAdd lowAmount highAmount;
    midAmount ← sdk.IntQuo sum (SdkInt.mk 2);
    currFromCoin ← coin.NewCoin denom midAmount;
    t ← try currFromCoin;
    match t with
    | NoTrade => Ok NothingViable
    | TryMore =>
      lowAmount ← sdk.IntAdd midAmount (SdkInt.mk 1);
      search fuel try denom lowAmount highAmount currFromCoin
    | TryLess =>
      highAmount ← sdk.IntSub midAmount (SdkInt.mk 1);
      search fuel try denom lowAmount highAmount currFromCoin
    end
  end.

Section pool.
  Context (s : state World) (req : Request) (spotPrice adjustedMaxPriceImpact : Dec.t)
    (swapModule : PoolModuleI) (poolI : PoolI).

Definition calcOut (c : coin.Coin) (spreadFactor : Dec.t) : outcome coin.Coin :=
  CalcOutAmtGivenIn swapModule s poolI c (ToCoinDenom req) spreadFactor.
Definition withSpread (c : coin.Coin) : outcome coin.Coin := calcOut c (GetSpreadFactor (world s) poolI).
Definition within (c tokenOut : coin.Coin) : outcome bool :=
  priceDeviation ← calculatePriceDeviation c tokenOut spotPrice;
  Ok (sdk.LTE priceDeviation adjustedMaxPriceImpact).
Definition moreIfWithin (c tokenOut : coin.Coin) : outcome trial :=
  b ← within c tokenOut; Ok (if b : bool then TryMore else TryLess).

(** The search after the first trial, and the last computation. *)
Definition searchTrade (fuel : nat) (try : coin.Coin → outcome trial) : outcome (option Response) :=
  r ← search fuel try (coin.Denom (FromCoin req)) (SdkInt.mk 1) (coin.Amount (FromCoin req)) (FromCoin req);
  match r with
  | OutOfFuel => Ok None
  | NothingViable => r ← emptyTrade req; Ok (Some r)
  | Searched highAmount currFromCoin =>
    if sdk.IntIsZero highAmount then r ← emptyTrade req; Ok (Some r) else
    tokenOut ← withSpread currFromCoin;
    Ok (Some {| InputCoin := currFromCoin; OutputCoin := tokenOut |})
  end.
Definition respond (r : outcome Response) : outcome (option Response) := r ← r; Ok (Some r).

(** Balancer pools. *)
Definition tryBalancer (c : coin.Coin) : outcome trial :=
  match calcOut c (Dec.NewDec 0) with
  | Err e => if IsInvalidMathApprox e then Ok NoTrade else Err e
  | Panic p => Panic p
  | Ok tokenOut => if sdk.IntIsZero (coin.Amount tokenOut) then Ok NoTrade else moreIfWithin c tokenOut
  end.
Definition EstimateTradeBasedOnPriceImpactBalancerPool (fuel : nat) : outcome (option Response) :=
  t ← tryBalancer (FromCoin req);
  match t with
  | NoTrade => respond (emptyTrade req)
  | TryMore =>
    match withSpread (FromCoin req) with
    | Err e => if IsInvalidMathApprox e then respond (emptyTrade req) else Err e
    | Panic p => Panic p
    | Ok tokenOut => Ok (Some {| InputCoin := FromCoin req; OutputCoin := tokenOut |})
    end
  | TryLess => searchTrade fuel tryBalancer
  end.

(** Stableswap pools: a panic is an amount that is too large, an error one that is too small.  The error
    [ApplyFuncIfNoError] makes of a panic contains the word. *)
Definition tryStableSwap (c : coin.Coin) : outcome trial :=
  match calcOut c (Dec.NewDec 0) with
  | Err e => Ok (if MentionsPanic e then TryLess else NoTrade)
  | Panic _ => Ok TryLess
  | Ok tokenOut => moreIfWithin c tokenOut
  end.
Definition EstimateTradeBasedOnPriceImpactStableSwapPool (fuel : nat) : outcome (option Response) :=
  t ← tryStableSwap (FromCoin req);
  match t with
  | NoTrade => respond (emptyTrade req)
  | TryMore =>
    respond (tokenOut ← withSpread (FromCoin req); Ok {| InputCoin := FromCoin req; OutputCoin := tokenOut |})
  | TryLess => searchTrade fuel tryStableSwap
  end.

(** Concentrated liquidity: an error is an amount that is too large, no output one that is too small. *)
Definition tryConcentrated (c : coin.Coin) : outcome trial :=
  match calcOut c (Dec.NewDec 0) with
  | Err _ => Ok TryLess
  | Panic p => Panic p
  | Ok tokenOut => if sdk.IntIsZero (coin.Amount tokenOut) then Ok NoTrade else moreIfWithin c tokenOut
  end.
Definition EstimateTradeBasedOnPriceImpactConcentratedLiquidity (fuel : nat) : outcome (option Response) :=
  t ← tryConcentrated (FromCoin req);
  match t with
  | NoTrade => respond (emptyTrade req)
  | TryMore =>
    respond (tokenOut ← withSpread (FromCoin req); Ok {| InputCoin := FromCoin req; OutputCoin := tokenOut |})
  | TryLess => searchTrade fuel tryConcentrated
  end.
End pool.

(** [Querier.EstimateTradeBasedOnPriceImpact] *)
Definition EstimateTradeBasedOnPriceImpact (fuel : nat) (s : state World) (req : Request)
    : outcome (option Response) :=
  if PoolId req =? 0 then Err "Invalid Pool Id"
  else if String.eqb (coin.Denom (FromCoin req)) "" then Err "invalid from coin denom"
  else if String.eqb (ToCoinDenom req) "" then Err "invalid to coin denom"
  else
    '(swapModule, _) ← GetPoolModule (PoolId req) s;
    poolI ← GetPool swapModule s (PoolId req);
    spotPriceBigDec ← CalculateSpotPrice swapModule s (PoolId req) (coin.Denom (FromCoin req)) (ToCoinDenom req);
    let spotPrice := BigDec.ToDec spotPriceBigDec in
    adjustedMaxPriceImpact ←
      (if negb (sdk.IsZero (ExternalPrice req)) then
         d ← sdk.Sub spotPrice (ExternalPrice req);
         priceDeviation ← sdk.Quo d (ExternalPrice req);
         sdk.Sub (MaxPriceImpact req) priceDeviation
       else Ok (MaxPriceImpact req));
    if negb (sdk.IsZero (ExternalPrice req))
       && (sdk.IsZero adjustedMaxPriceImpact || sdk.IsNegative adjustedMaxPriceImpact) then
      respond (emptyTrade req)
    else if GetType poolI =? Balancer then
      EstimateTradeBasedOnPriceImpactBalancerPool s req spotPrice adjustedMaxPriceImpact swapModule poolI fuel
    else if GetType poolI =? Stableswap then
      EstimateTradeBasedOnPriceImpactStableSwapPool s req spotPrice adjustedMaxPriceImpact swapModule poolI fuel
    else if GetType poolI =? Concentrated then
      EstimateTradeBasedOnPriceImpactConcentratedLiquidity s req spotPrice adjustedMaxPriceImpact swapModule poolI
        fuel
    else Err "pool type not supported".
End estimate.
End PoolEstimate.

Module PoolEstimateProps.
Import PoolManager.
Import PoolEstimate.

Section search.
  Context {D : sdk.LegacyDec} {L : sdk.LegacyDecLaws D} {C : coin.CoinOps} {CL : coin.CoinLaws C}.
  Implicit Types (try : coin.Coin → outcome trial).

(** A round that has something left to try. *)
Lemma search_round fuel try denom low high c r :
  SdkInt.i low ≤ SdkInt.i high → search (S fuel) try denom low high c = Ok r →
  ∃ mid c' t, SdkInt.i mid = Z.quot (SdkInt.i low + SdkInt.i high) 2 ∧ coin.NewCoin denom mid = Ok c' ∧ try c' = Ok t ∧
    match t with
    | NoTrade => r = NothingViable
    | TryMore => ∃ low', SdkInt.i low' = SdkInt.i mid + 1 ∧ search fuel try denom low' high c' = Ok r
    | TryLess => ∃ high', SdkInt.i high' = SdkInt.i mid - 1 ∧ search fuel try denom low high' c' = Ok r
    end.
Proof using L.
  intros Hle. cbn [search]. rewrite sdk.IntLTE_spec. destruct (Z.leb_spec (SdkInt.i low) (SdkInt.i high)); [|lia].
  cbn [negb]. intros (sum & Hsum%sdk.IntAdd_spec & H0)%bind_Ok. apply bind_Ok in H0 as (mid & [_ Hmid]%sdk.IntQuo_spec & H0).
  apply bind_Ok in H0 as (c' & Hc & H0). apply bind_Ok in H0 as (t & Ht & H0). exists mid, c', t.
  split_and!; [by rewrite Hmid, Hsum|done..|]. destruct t.
  - apply bind_Ok in H0 as (l & Hl%sdk.IntAdd_spec & H0). by exists l.
  - apply bind_Ok in H0 as (h & Hh%sdk.IntSub_spec & H0). by exists h.
  - by injection H0.
Qed.

Lemma search_done fuel try denom low high c r :
  SdkInt.i high < SdkInt.i low → search fuel try denom low high c = Ok r → r = Searched high c.
Proof using L.
  intros Hlt. destruct fuel; cbn [search]; rewrite sdk.IntLTE_spec;
    (destruct (Z.leb_spec (SdkInt.i low) (SdkInt.i high)); [lia|]); by intros [= <-].
Qed.

(** Every round halves the range. *)
Lemma search_ends fuel try denom low high c r :
  1 ≤ SdkInt.i low → SdkInt.i high - SdkInt.i low + 1 < 2 ^ Z.of_nat fuel →
  search fuel try denom low high c = Ok r → r ≠ OutOfFuel.
Proof using L.
  revert low high c. induction fuel as [|fuel IH]; intros low high c Hlow Hgap H;
    (destruct (Z_lt_le_dec (SdkInt.i high) (SdkInt.i low)) as [Hlt|Hle]; [apply search_done in H as ->; done|]).
  { rewrite Z.pow_0_r in Hgap. lia. }
  apply search_round in H as (mid & c' & t & Hmid & _ & _ & Ht); [|done].
  rewrite Z.quot_div_nonneg in Hmid by lia. rewrite Nat2Z.inj_succ, Z.pow_succ_r in Hgap by lia.
  pose proof (Z.div_mod (SdkInt.i low + SdkInt.i high) 2 ltac:(done)).
  pose proof (Z.mod_pos_bound (SdkInt.i low + SdkInt.i high) 2 ltac:(done)).
  destruct t; [..|by subst].
  - destruct Ht as (low' & El & H1). eapply IH, H1; lia.
  - destruct Ht as (high' & Eh & H1). eapply IH, H1; lia.
Qed.

(** Below the range the trial asked for more, above it for less. *)
Definition says try (denom : string) (n : Z) (t : trial) : Prop :=
  ∃ c, coin.NewCoin denom (SdkInt.mk n) = Ok c ∧ try c = Ok t.

Lemma says_same try denom n t t' : says try denom n t → says try denom n t' → t = t'.
Proof. intros (c & Hc & Ht) (c' & Hc' & Ht'). congruence. Qed.

(** The first amount is never left as the answer, as it was found too large. *)
Lemma search_border fuel try denom n low high c hi last :
  says try denom n TryLess → 1 ≤ SdkInt.i low → SdkInt.i low - 1 ≤ SdkInt.i high →
  (SdkInt.i low = 1 ∨ says try denom (SdkInt.i low - 1) TryMore) →
  (SdkInt.i high = n ∨ says try denom (SdkInt.i high + 1) TryLess) →
  (SdkInt.i low ≤ SdkInt.i high ∨ SdkInt.i (coin.Amount c) ∈ [SdkInt.i low - 1; SdkInt.i high + 1]) →
  search fuel try denom low high c = Ok (Searched hi last) →
  SdkInt.i hi = 0 ∨
  says try denom (SdkInt.i hi) TryMore ∧ says try denom (SdkInt.i hi + 1) TryLess ∧ 1 ≤ SdkInt.i hi ∧
  SdkInt.i (coin.Amount last) ∈ [SdkInt.i hi; SdkInt.i hi + 1].
Proof using L CL.
  intros Hn. revert low high c. induction fuel as [|fuel IH]; intros low high c Hlow Hgap Hmore Hless Hc H;
    (destruct (Z_lt_le_dec (SdkInt.i high) (SdkInt.i low)) as [Hlt|Hle];
      [apply search_done in H as [= -> ->]; [|done]; assert (SdkInt.i low - 1 = SdkInt.i high) as Eh by lia; rewrite Eh in Hmore, Hc;
       destruct Hmore as [|Hmore]; [left; lia|]|]).
  1,3: destruct (Z.eq_dec (SdkInt.i high) 0) as [|]; [by left|right]; destruct Hless as [<-|Hless];
    [by pose proof (says_same _ _ _ _ _ Hn Hmore)|]; destruct Hc as [|Hc]; [lia|]; split_and!; [done..|lia|done].
  { cbn [search] in H. rewrite sdk.IntLTE_spec in H. destruct (Z.leb_spec (SdkInt.i low) (SdkInt.i high)); [done|lia]. }
  apply search_round in H as (mid & c' & t & Hmid & Hc' & Ht & H); [|done].
  rewrite Z.quot_div_nonneg in Hmid by lia.
  pose proof (Z.div_mod (SdkInt.i low + SdkInt.i high) 2 ltac:(done)).
  pose proof (Z.mod_pos_bound (SdkInt.i low + SdkInt.i high) 2 ltac:(done)).
  assert (says try denom (SdkInt.i mid) t) as Hs by (exists c'; by destruct mid).
  apply coin.NewCoin_spec in Hc' as [-> _]. destruct t; [..|done].
  - destruct H as (low' & El & H). eapply IH, H; replace (SdkInt.i low' - 1) with (SdkInt.i mid) by lia; auto; try lia.
    right. by left.
  - destruct H as (high' & Eh & H). eapply IH, H; replace (SdkInt.i high' + 1) with (SdkInt.i mid) by lia; auto; try lia.
    right. by right; left.
Qed.
End search.

Section estimate.
  Context {D : sdk.LegacyDec} {L : sdk.LegacyDecLaws D} {C : coin.CoinOps} {CL : coin.CoinLaws C}
    {A : addr.Addresses} {Ch : Chain} {Mo : Modules} {Er : Errors}.

Lemma searchTrade_ends s req swapModule p fuel try :
  SdkInt.i (coin.Amount (FromCoin req)) < 2 ^ Z.of_nat fuel → searchTrade s req swapModule p fuel try ≠ Ok None.
Proof using L.
  intros Hf. unfold searchTrade. intros (r & Hr & H)%bind_Ok.
  apply search_ends in Hr; [|done|cbn [SdkInt.i]; lia]. destruct r; [|destruct (sdk.IntIsZero _)|done].
  - by apply bind_Ok in H as (? & _ & ?).
  - by apply bind_Ok in H as (? & _ & ?).
  - by apply bind_Ok in H as (? & _ & ?).
Qed.

(** C24.  The query always ends: on an amount of at most [fuel] bits, [fuel] rounds of the search are
    enough, whatever the pool's module answers; amounts have at most 256 bits. *)
Theorem estimate_ends fuel s req :
  SdkInt.i (coin.Amount (FromCoin req)) < 2 ^ Z.of_nat fuel →
  EstimateTradeBasedOnPriceImpact fuel s req ≠ Ok None.
Proof using L.
  intros Hf. unfold EstimateTradeBasedOnPriceImpact. do 3 (case_match; [done|]).
  intros HE. apply bind_Ok in HE as ([m s'] & _ & HE). apply bind_Ok in HE as (p & _ & HE).
  apply bind_Ok in HE as (sp & _ & HE). apply bind_Ok in HE as (imp & _ & HE).
  assert (∀ m : outcome Response, respond m = Ok None → False) as Hr by (by intros [] (? & _ & ?)%bind_Ok).
  pose proof (searchTrade_ends s req m p fuel) as Hs.
  destruct (_ && _); [by apply Hr in HE|]. destruct (GetType p =? Balancer); [|destruct (GetType p =? Stableswap);
    [|destruct (GetType p =? Concentrated); [|done]]];
    apply bind_Ok in HE as ([] & _ & HE); try (by apply Hr in HE); try (by eapply Hs).
  destruct (withSpread _ _ _ _ _); [done|destruct (IsInvalidMathApprox _); [by apply Hr in HE|done]|done].
Qed.

(** C25.  What the search returns lies at the border of the limit, on either side.  After a first amount
    that is too large, a result is the empty trade, or there is an amount that was found within the
    limit although one more was not, and the trade is for the one or for the other: it can be for an
    amount that was found to be too large. *)
Theorem estimate_at_border s req swapModule p fuel try r :
  1 ≤ SdkInt.i (coin.Amount (FromCoin req)) →
  coin.NewCoin (coin.Denom (FromCoin req)) (coin.Amount (FromCoin req)) = Ok (FromCoin req) →
  try (FromCoin req) = Ok TryLess → searchTrade s req swapModule p fuel try = Ok (Some r) →
  emptyTrade req = Ok r ∨
  ∃ n, 1 ≤ n ∧ says try (coin.Denom (FromCoin req)) n TryMore ∧ says try (coin.Denom (FromCoin req)) (n + 1) TryLess ∧
    SdkInt.i (coin.Amount (InputCoin r)) ∈ [n; n + 1] ∧ withSpread s req swapModule p (InputCoin r) = Ok (OutputCoin r).
Proof using L CL.
  intros H1 Hnew Htry. unfold searchTrade. intros (res & Hr & H)%bind_Ok.
  destruct res as [|hi last|]; [by apply bind_Ok in H as (r' & Hr' & [= ->]); left| |done].
  assert (says try (coin.Denom (FromCoin req)) (SdkInt.i (coin.Amount (FromCoin req))) TryLess) as Hn.
  { exists (FromCoin req). split; [|done]. by destruct (coin.Amount (FromCoin req)). }
  eapply (search_border _ _ _ _ _ _ _ _ _ Hn) in Hr; [|cbn [SdkInt.i]; lia|cbn [SdkInt.i]; lia|by left|by left|by left].
  rewrite sdk.IntIsZero_spec in H. destruct (Z.eqb_spec (SdkInt.i hi) 0) as [|Hhi].
  { by apply bind_Ok in H as (r' & Hr' & [= ->]); left. }
  destruct Hr as [|(Hm & Hl & Hge & Hlast)]; [done|].
  apply bind_Ok in H as (out & Hout & [= <-]). right. by exists (SdkInt.i hi).
Qed.
End estimate.
End PoolEstimateProps.
