(* ===== verification/Gamm.v ===== *)
(** The keeper of constant function market pools: x/gamm/keeper (pool.go, pool_service.go, swap.go,
    share.go, total_liquidity.go, invariants.go), over the pool interface of x/gamm/types/pool.go.

    The pools a keeper method works on are pointers that the pool's methods change; here those methods
    return the pool they leave, and the method that writes it takes it on.  A pool that an error leaves
    half changed is dropped with the transaction.  Gas is not modelled, so the recovers that tell running
    out of gas from other panics give one error.  Not modelled: migration records (migrate.go), genesis,
    queries, and events. *)
From stdpp Require Import prelude strings list gmap sorting.
From S2P Require Import Prelude.
From S2P Require Import GoBig.
From S2P Require Import SdkDec.
From S2P Require Import Decimal.
From S2P Require Import DecimalText.
From S2P Require Import SdkCoins.
From S2P Require Import GoState.
From S2P Require Import SigFig.
From S2P Require Import CLPool.
From S2P Require Import PoolManager.
From S2P Require Import Stableswap.
Local Open Scope Z_scope.

Module Gamm.

(** *** types/pool.go *)

(** [PoolAmountOutExtension], the methods beyond [CFMMPoolI] that the keeper calls *)
Record PoolAmountOutExtension (P : Type) := {
  CalcTokenInShareAmountOut : string → SdkInt.t → Dec.t → outcome SdkInt.t;
  IncreaseLiquidity : SdkInt.t → coin.Coins → outcome P;
  ExtExitSwapExactAmountOut : coin.Coin → SdkInt.t → outcome (SdkInt.t * P)
}.
Arguments CalcTokenInShareAmountOut {_} _.
Arguments IncreaseLiquidity {_} _.
Arguments ExtExitSwapExactAmountOut {_} _.

(** [CFMMPoolI], with the type assertions of the keeper: [PokePool] is the identity for a pool that is no
    [WeightedPoolExtension]. *)
Class CFMMPoolI (P : Type) : Type := {
  GetId : P → Z;
  GetAddress : P → outcome addr.AccAddress;
  GetSpreadFactor : P → Dec.t;
  GetExitFee : P → Dec.t;
  IsActive : P → bool;
  GetTotalShares : P → SdkInt.t;
  PoolLiquidity : P → coin.Coins;
  SpotPrice : P → string → string → outcome BigDec.t;
  JoinPool : P → coin.Coins → Dec.t → outcome (SdkInt.t * P);
  PoolJoinPoolNoSwap : P → coin.Coins → Dec.t → outcome (SdkInt.t * P);
  PoolExitPool : P → SdkInt.t → Dec.t → outcome (coin.Coins * P);
  SwapOutAmtGivenIn : P → coin.Coins → string → Dec.t → outcome (coin.Coin * P);
  PoolCalcOutAmtGivenIn : P → coin.Coins → string → Dec.t → outcome coin.Coin;
  SwapInAmtGivenOut : P → coin.Coins → string → Dec.t → outcome (coin.Coin * P);
  PoolCalcInAmtGivenOut : P → coin.Coins → string → Dec.t → outcome coin.Coin;
  PokePool : Z → P → P;
  asAmountOut : P → option (PoolAmountOutExtension P);
  asStableswap : P → option Stableswap.Pool;
  ofStableswap : Stableswap.Pool → P;
  isBalancer : P → bool;
}.

(** *** The other keepers *)

(** [banktypes.Metadata] *)
Record DenomUnit := { UnitDenom : string; Exponent : Z; Aliases : list string }.
Record Metadata := { Description : string; DenomUnits : list DenomUnit; Base : string; Display : string }.
(** The bank keeper, and a method of [sdk.Coins]. *)
Class Bank : Type := {
  Balances : Type;
  SendCoins : addr.AccAddress → addr.AccAddress → coin.Coins → Balances → outcome Balances;
  SendCoinsFromModuleToAccount : string → addr.AccAddress → coin.Coins → Balances → outcome Balances;
  SendCoinsFromAccountToModule : addr.AccAddress → string → coin.Coins → Balances → outcome Balances;
  MintCoins : string → coin.Coins → Balances → outcome Balances;
  BurnCoins : string → coin.Coins → Balances → outcome Balances;
  SetDenomMetaData : Metadata → Balances → Balances;
  GetAllBalances : Balances → addr.AccAddress → coin.Coins;
  IsAllGTE : coin.Coins → coin.Coins → bool;
}.

(** *** The store; [now] is the block time. *)

Record state (P W : Type) := {
  pools : gmap Z P;
  denomLiquidity : gmap string SdkInt.t;
  now : Z;
  balances : W
}.
Arguments pools {_ _} _.
Arguments denomLiquidity {_ _} _.
Arguments now {_ _} _.
Arguments balances {_ _} _.
Definition set_pools {P W} f (s : state P W) : state P W :=
  {| pools := f (pools s); denomLiquidity := denomLiquidity s; now := now s; balances := balances s |}.
Definition set_denomLiquidity {P W} f (s : state P W) : state P W :=
  {| pools := pools s; denomLiquidity := f (denomLiquidity s); now := now s; balances := balances s |}.
Definition set_balances {P W} w (s : state P W) : state P W :=
  {| pools := pools s; denomLiquidity := denomLiquidity s; now := now s; balances := w |}.

Definition ModuleName : string := "gamm".
Definition OneShareExponent : Z := 18.
Definition decimal_text (n : Z) : string := String.string_of_list_ascii (BigText.MarshalText n).
Definition GetPoolShareDenom : Z → string := Stableswap.GetPoolShareDenom.

(** The orders of the two stores. *)
Definition by_id {T} (a b : Z * T) : Prop := a.1 ≤ b.1.
#[global] Instance by_id_dec {T} (a b : Z * T) : Decision (by_id a b).
Proof. unfold by_id. apply _. Defined.
Definition by_denom {T} (a b : string * T) : Prop := String.leb a.1 b.1 = true.
#[global] Instance by_denom_dec {T} (a b : string * T) : Decision (by_denom a b).
Proof. unfold by_denom. apply _. Defined.

Section keeper.
  Context {D : sdk.LegacyDec} {C : coin.CoinOps} {PC : pool_coins.PoolCoins} {A : addr.Addresses}
    {Bk : Bank} {P : Type} {PI : CFMMPoolI P}.
Abbreviation K := (M (state P Balances)).
Definition on_bank (m : Balances → outcome Balances) : K unit :=
  λ s, w ← m (balances s); Ok (tt, set_balances w s).

(** *** pool.go *)

Definition GetPoolAndPoke (poolId : Z) : K P :=
  s ← gets id;
  match pools s !! poolId with
  | None => throw "PoolDoesNotExistError"
  | Some pool => mret (PokePool (now s) pool)
  end.
Definition GetPool (poolId : Z) : K P := GetPoolAndPoke poolId.
(** The ids are written big endian, so the store's order is theirs. *)
Definition GetPoolsAndPoke : K (list P) :=
  s ← gets id;
  mret ((λ kv, PokePool (now s) kv.2) <$> merge_sort by_id (map_to_list (pools s))).
Definition GetPools : K (list P) := GetPoolsAndPoke.
Definition GetCFMMPool (poolId : Z) : K P :=
  pool ← GetPoolAndPoke poolId;
  _ ← require (IsActive pool) "ErrPoolLocked";
  mret pool.
Definition setPool (pool : P) : K unit := modify (set_pools (insert (GetId pool) pool)).
Definition OverwritePoolV15MigrationUnsafe (pool : P) : K unit := setPool pool.
Definition DeletePool (poolId : Z) : K unit :=
  s ← gets id;
  match pools s !! poolId with
  | None => throw "pool does not exist"
  | Some _ => modify (set_pools (delete poolId))
  end.
Definition GetPoolDenoms (poolId : Z) : K (list string) :=
  pool ← GetPoolAndPoke poolId;
  mret (coin.Denom <$> PoolLiquidity pool).
Definition GetPoolType (poolId : Z) : K PoolManager.PoolType :=
  pool ← GetPoolAndPoke poolId;
  if isBalancer pool then mret PoolManager.Balancer
  else match asStableswap pool with
       | Some _ => mret PoolManager.Stableswap
       | None => throw "unrecognized pool type"
       end.
Definition GetTotalPoolLiquidity (poolId : Z) : K coin.Coins :=
  pool ← GetCFMMPool poolId; mret (PoolLiquidity pool).
Definition GetTotalPoolShares (poolId : Z) : K SdkInt.t :=
  pool ← GetCFMMPool poolId; mret (GetTotalShares pool).
Definition getStableswap (poolId : Z) : K Stableswap.Pool :=
  pool ← GetPoolAndPoke poolId;
  match asStableswap pool with Some p => mret p | None => throw "not of type stableswap pool" end.
Definition setStableSwapScalingFactors (poolId : Z) (scalingFactors : list Z) (sender : string) : K unit :=
  stableswapPool ← getStableswap poolId;
  stableswapPool ← lift (Stableswap.SetScalingFactors stableswapPool scalingFactors sender);
  setPool (ofStableswap stableswapPool).
Definition set_controller c (p : Stableswap.Pool) : Stableswap.Pool :=
  {| Stableswap.Address := Stableswap.Address p; Stableswap.Id := Stableswap.Id p;
     Stableswap.Parameters := Stableswap.Parameters p; Stableswap.FuturePoolGovernor := Stableswap.FuturePoolGovernor p;
     Stableswap.TotalShares := Stableswap.TotalShares p; Stableswap.PoolLiquidity := Stableswap.PoolLiquidity p;
     Stableswap.ScalingFactors := Stableswap.ScalingFactors p; Stableswap.ScalingFactorController := c |}.
Definition setStableSwapScalingFactorController (poolId : Z) (controllerAddress : string) : K unit :=
  stableswapPool ← getStableswap poolId;
  setPool (ofStableswap (set_controller controllerAddress stableswapPool)).

(** *** total_liquidity.go *)

Definition setDenomLiquidity (denom : string) (amount : SdkInt.t) : K unit :=
  modify (set_denomLiquidity (insert denom amount)).
Definition setTotalLiquidity (coins : coin.Coins) : K unit :=
  for_each coins (λ c, setDenomLiquidity (coin.Denom c) (coin.Amount c)).
Definition GetDenomLiquidity (denom : string) : K SdkInt.t :=
  s ← gets id; mret (default (SdkInt.mk 0) (denomLiquidity s !! denom)).
(** The store's order is that of the denominations. *)
Definition GetTotalLiquidity : K coin.Coins :=
  s ← gets id;
  let entries := merge_sort by_denom (map_to_list (denomLiquidity s)) in
  fold_each entries [] (λ coins '(denom, amount),
    c ← lift (coin.NewCoin denom amount); lift (coin.Add coins [c])).
Definition RecordTotalLiquidityIncrease (coins : coin.Coins) : K unit :=
  for_each coins (λ c,
    amount ← GetDenomLiquidity (coin.Denom c);
    amount ← lift (sdk.IntAdd amount (coin.Amount c));
    setDenomLiquidity (coin.Denom c) amount).
Definition RecordTotalLiquidityDecrease (coins : coin.Coins) : K unit :=
  for_each coins (λ c,
    amount ← GetDenomLiquidity (coin.Denom c);
    amount ← lift (sdk.IntSub amount (coin.Amount c));
    setDenomLiquidity (coin.Denom c) amount).

(** *** share.go *)

Definition MintPoolShareToAccount (pool : P) (account : addr.AccAddress) (amount : SdkInt.t) : K unit :=
  c ← lift (coin.NewCoin (GetPoolShareDenom (GetId pool)) amount);
  amt ← lift (coin.NewCoins [c]);
  _ ← on_bank (MintCoins ModuleName amt);
  on_bank (SendCoinsFromModuleToAccount ModuleName account amt).
Definition BurnPoolShareFromAccount (pool : P) (account : addr.AccAddress) (amount : SdkInt.t) : K unit :=
  c ← lift (coin.NewCoin (GetPoolShareDenom (GetId pool)) amount);
  _ ← on_bank (SendCoinsFromAccountToModule account ModuleName [c]);
  on_bank (BurnCoins ModuleName [c]).
Definition applyJoinPoolStateChange (pool : P) (joiner : addr.AccAddress) (numShares : SdkInt.t)
    (joinCoins : coin.Coins) : K unit :=
  poolAddress ← lift (GetAddress pool);
  _ ← on_bank (SendCoins joiner poolAddress joinCoins);
  _ ← MintPoolShareToAccount pool joiner numShares;
  setPool pool.
Definition applyExitPoolStateChange (pool : P) (exiter : addr.AccAddress) (numShares : SdkInt.t)
    (exitCoins : coin.Coins) : K unit :=
  poolAddress ← lift (GetAddress pool);
  _ ← on_bank (SendCoins poolAddress exiter exitCoins);
  _ ← BurnPoolShareFromAccount pool exiter numShares;
  setPool pool.

(** *** swap.go *)

Definition updatePoolForSwap (pool : P) (sender : addr.AccAddress) (tokenIn tokenOut : coin.Coin) : K unit :=
  _ ← setPool pool;
  poolAddress ← lift (GetAddress pool);
  _ ← on_bank (SendCoins sender poolAddress [tokenIn]);
  on_bank (SendCoins poolAddress sender [tokenOut]).

(** The pool that the caller's pointer refers to afterwards is returned too. *)
Definition SwapExactAmountIn (sender : addr.AccAddress) (pool : P) (tokenIn : coin.Coin)
    (tokenOutDenom : string) (tokenOutMinAmount : SdkInt.t) (spreadFactor : Dec.t) : K (SdkInt.t * P) :=
  _ ← require (negb (String.eqb (coin.Denom tokenIn) tokenOutDenom)) "cannot trade same denomination in and out";
  half ← lift (sdk.QuoInt64 (GetSpreadFactor pool) 2);
  _ ← require (negb (sdk.LT spreadFactor half)) "given spread factor must be at least half of the pool's";
  recovering "function swapExactAmountIn failed due to internal reason" (
    '(tokenOutCoin, pool) ← lift (SwapOutAmtGivenIn pool [tokenIn] tokenOutDenom spreadFactor);
    let tokenOutAmount := coin.Amount tokenOutCoin in
    _ ← require (sdk.IntIsPositive tokenOutAmount) "ErrInvalidMathApprox";
    _ ← require (negb (sdk.IntLT tokenOutAmount tokenOutMinAmount)) "ErrLimitMinAmount";
    _ ← updatePoolForSwap pool sender tokenIn tokenOutCoin;
    mret (tokenOutAmount, pool)).

Definition SwapExactAmountOut (sender : addr.AccAddress) (pool : P) (tokenInDenom : string)
    (tokenInMaxAmount : SdkInt.t) (tokenOut : coin.Coin) (spreadFactor : Dec.t) : K SdkInt.t :=
  _ ← require (negb (String.eqb tokenInDenom (coin.Denom tokenOut))) "cannot trade same denomination in and out";
  recovering "function swapExactAmountOut failed due to internal reason" (
    liquidity ← GetTotalPoolLiquidity (GetId pool);
    poolOutBal ← lift (coin.AmountOf liquidity (coin.Denom tokenOut));
    _ ← require (negb (sdk.IntGTE (coin.Amount tokenOut) poolOutBal)) "ErrTooManyTokensOut";
    '(tokenIn, pool) ← lift (SwapInAmtGivenOut pool [tokenOut] tokenInDenom spreadFactor);
    let tokenInAmount := coin.Amount tokenIn in
    _ ← require (negb (sdk.IntLTE tokenInAmount (SdkInt.mk 0))) "ErrInvalidMathApprox";
    _ ← require (negb (sdk.IntGT tokenInAmount tokenInMaxAmount)) "ErrLimitMaxAmount";
    _ ← updatePoolForSwap pool sender tokenIn tokenOut;
    mret tokenInAmount).

Definition CalcOutAmtGivenIn (pool : P) (tokenIn : coin.Coin) (tokenOutDenom : string) (spreadFactor : Dec.t)
    : outcome coin.Coin :=
  coins ← coin.NewCoins [tokenIn]; PoolCalcOutAmtGivenIn pool coins tokenOutDenom spreadFactor.
Definition CalcInAmtGivenOut (pool : P) (tokenOut : coin.Coin) (tokenInDenom : string) (spreadFactor : Dec.t)
    : outcome coin.Coin :=
  coins ← coin.NewCoins [tokenOut]; PoolCalcInAmtGivenOut pool coins tokenInDenom spreadFactor.

(** *** pool_service.go *)

Definition SpotPriceSigFigs : outcome SdkInt.t :=
  p ← sdk.Power (Dec.NewDec 10) 8; sdk.TruncateInt p.
Definition MaxSpotPriceBigDec : outcome BigDec.t :=
  p ← sdk.Power (Dec.NewDec 2) 128; m ← sdk.Sub p (Dec.NewDec 1); BigDec.BigDecFromDec m.
Definition CalculateSpotPrice (poolID : Z) (quoteAssetDenom baseAssetDenom : string) : K BigDec.t :=
  pool ← GetPoolAndPoke poolID;
  recovering "ErrSpotPriceInternal" (lift (
    spotPrice ← SpotPrice pool quoteAssetDenom baseAssetDenom;
    spotPrice ← BigDec.ChopPrecisionMut spotPrice Dec.DecPrecision;
    max ← MaxSpotPriceBigDec;
    if BigDec.GT spotPrice max then Err "ErrSpotPriceOverflow"
    else if negb (BigDec.IsPositive spotPrice) then Err "ErrSpotPriceInternal"
    else
      figs ← SpotPriceSigFigs;
      r ← SigFig.SigFigRound (BigDec.ToDec spotPrice) figs;
      BigDec.BigDecFromDec r)).

Definition share_metadata (poolId : Z) : Metadata :=
  {| Description := "The share token of the gamm pool " +:+ decimal_text poolId;
     DenomUnits := [
       {| UnitDenom := GetPoolShareDenom poolId; Exponent := 0; Aliases := ["attopoolshare"] |};
       {| UnitDenom := "GAMM-" +:+ decimal_text poolId; Exponent := OneShareExponent; Aliases := [] |}];
     Base := GetPoolShareDenom poolId; Display := "GAMM-" +:+ decimal_text poolId |}.
Definition InitializePool (pool : P) (sender : addr.AccAddress) : K unit :=
  _ ← require (sdk.IsZero (GetExitFee pool)) "can not create pool with non zero exit fee";
  _ ← MintPoolShareToAccount pool sender (GetTotalShares pool);
  _ ← on_bank (λ w, Ok (SetDenomMetaData (share_metadata (GetId pool)) w));
  _ ← setPool pool;
  RecordTotalLiquidityIncrease (PoolLiquidity pool).

Fixpoint neededCoins (shareRatio : Dec.t) (poolLiquidity neededLpLiquidity : coin.Coins) : outcome coin.Coins :=
  match poolLiquidity with
  | [] => Ok neededLpLiquidity
  | c :: poolLiquidity =>
    x ← sdk.Mul (sdk.ToLegacyDec (coin.Amount c)) shareRatio;
    x ← sdk.Ceil x;
    neededAmt ← sdk.RoundInt x;
    if sdk.IntLTE neededAmt (SdkInt.mk 0) then Err "Too few shares out wanted" else
    neededLpLiquidity ← coin.Add neededLpLiquidity [{| coin.Denom := coin.Denom c; coin.Amount := neededAmt |}];
    neededCoins shareRatio poolLiquidity neededLpLiquidity
  end.
Definition getMaximalNoSwapLPAmount (pool : P) (shareOutAmount : SdkInt.t) : outcome coin.Coins :=
  shareRatio ← sdk.QuoInt (sdk.ToLegacyDec shareOutAmount) (GetTotalShares pool);
  if sdk.LTE shareRatio (Dec.NewDec 0) then Err "Too few shares out wanted"
  else neededCoins shareRatio (PoolLiquidity pool) [].

Definition JoinPoolNoSwap (sender : addr.AccAddress) (poolId : Z) (shareOutAmount : SdkInt.t)
    (tokenInMaxs : coin.Coins) : K (coin.Coins * SdkInt.t) :=
  recovering "function JoinPoolNoSwap failed due to internal reason" (
    pool ← GetPoolAndPoke poolId;
    neededLpLiquidity ← lift (getMaximalNoSwapLPAmount pool shareOutAmount);
    _ ← match tokenInMaxs with
        | [] => mret tt
        | _ =>
          _ ← require (pool_coins.DenomsSubsetOf neededLpLiquidity tokenInMaxs) "ErrLimitMaxAmount";
          _ ← require (pool_coins.DenomsSubsetOf tokenInMaxs neededLpLiquidity) "ErrDenomNotFoundInPool";
          require (IsAllGTE tokenInMaxs neededLpLiquidity) "ErrLimitMaxAmount"
        end;
    '(sharesOut, pool) ← lift (PoolJoinPoolNoSwap pool neededLpLiquidity (GetSpreadFactor pool));
    _ ← applyJoinPoolStateChange pool sender sharesOut neededLpLiquidity;
    mret (neededLpLiquidity, sharesOut)).

Definition JoinSwapExactAmountIn (sender : addr.AccAddress) (poolId : Z) (tokensIn : coin.Coins)
    (shareOutMinAmount : SdkInt.t) : K SdkInt.t :=
  recovering "function JoinSwapExactAmountIn failed due to internal reason" (
    pool ← GetCFMMPool poolId;
    '(sharesOut, pool) ← lift (JoinPool pool tokensIn (GetSpreadFactor pool));
    _ ← require (negb (sdk.IntLT sharesOut shareOutMinAmount)) "ErrLimitMinAmount";
    _ ← require (negb (sdk.IntLTE sharesOut (SdkInt.mk 0))) "ErrInvalidMathApprox";
    _ ← applyJoinPoolStateChange pool sender sharesOut tokensIn;
    mret sharesOut).

Definition JoinSwapShareAmountOut (sender : addr.AccAddress) (poolId : Z) (tokenInDenom : string)
    (shareOutAmount tokenInMaxAmount : SdkInt.t) : K SdkInt.t :=
  recovering "function JoinSwapShareAmountOut failed due to internal reason" (
    pool ← GetCFMMPool poolId;
    match asAmountOut pool with
    | None => throw "pool does not support this kind of join"
    | Some extendedPool =>
      tokenInAmount ← lift (CalcTokenInShareAmountOut extendedPool tokenInDenom shareOutAmount (GetSpreadFactor pool));
      _ ← require (negb (sdk.IntGT tokenInAmount tokenInMaxAmount)) "ErrLimitMaxAmount";
      c ← lift (coin.NewCoin tokenInDenom tokenInAmount);
      tokenIn ← lift (coin.NewCoins [c]);
      pool ← lift (IncreaseLiquidity extendedPool shareOutAmount tokenIn);
      _ ← applyJoinPoolStateChange pool sender shareOutAmount tokenIn;
      mret tokenInAmount
    end).

Definition ExitPool (sender : addr.AccAddress) (poolId : Z) (shareInAmount : SdkInt.t)
    (tokenOutMins : coin.Coins) : K coin.Coins :=
  pool ← GetPoolAndPoke poolId;
  _ ← require (negb (sdk.IntGTE shareInAmount (GetTotalShares pool))) "ErrInvalidMathApprox";
  _ ← require (negb (sdk.IntLTE shareInAmount (SdkInt.mk 0))) "ErrInvalidMathApprox";
  '(exitCoins, pool) ← lift (PoolExitPool pool shareInAmount (GetExitFee pool));
  _ ← require (pool_coins.DenomsSubsetOf tokenOutMins exitCoins && negb (pool_coins.IsAnyGT tokenOutMins exitCoins))
        "ErrLimitMinAmount";
  _ ← applyExitPoolStateChange pool sender shareInAmount exitCoins;
  mret exitCoins.

Definition ExitSwapShareAmountIn (sender : addr.AccAddress) (poolId : Z) (tokenOutDenom : string)
    (shareInAmount tokenOutMinAmount : SdkInt.t) : K SdkInt.t :=
  exitCoins ← ExitPool sender poolId shareInAmount [];
  pool ← GetPool poolId;
  let spreadFactor := GetSpreadFactor pool in
  tokenOutAmount ← lift (coin.AmountOf exitCoins tokenOutDenom);
  '(tokenOutAmount, _) ← fold_each exitCoins (tokenOutAmount, pool) (λ '(tokenOutAmount, pool) c,
    if String.eqb (coin.Denom c) tokenOutDenom then mret (tokenOutAmount, pool) else
    '(swapOut, pool) ← SwapExactAmountIn sender pool c tokenOutDenom (SdkInt.mk 0) spreadFactor;
    tokenOutAmount ← lift (sdk.IntAdd tokenOutAmount swapOut);
    mret (tokenOutAmount, pool));
  _ ← require (negb (sdk.IntLT tokenOutAmount tokenOutMinAmount)) "ErrLimitMinAmount";
  mret tokenOutAmount.

Definition ExitSwapExactAmountOut (sender : addr.AccAddress) (poolId : Z) (tokenOut : coin.Coin)
    (shareInMaxAmount : SdkInt.t) : K SdkInt.t :=
  pool ← GetCFMMPool poolId;
  match asAmountOut pool with
  | None => throw "pool does not support this kind of exit"
  | Some extendedPool =>
    '(shareInAmount, pool) ← lift (ExtExitSwapExactAmountOut extendedPool tokenOut shareInMaxAmount);
    _ ← applyExitPoolStateChange pool sender shareInAmount [tokenOut];
    mret shareInAmount
  end.

(** *** invariants.go *)

(** Whether the invariant is broken. *)
Fixpoint anyBroken (w : Balances) (pools : list P) : outcome bool :=
  match pools with
  | [] => Ok false
  | pool :: pools =>
    poolAddress ← GetAddress pool;
    let actualCoins := GetAllBalances w poolAddress in
    if negb (IsAllGTE actualCoins (PoolLiquidity pool)) then Ok true else anyBroken w pools
  end.
Definition PoolAccountInvariant (s : state P Balances) : outcome bool :=
  match GetPoolsAndPoke s with
  | Ok (pools, _) => anyBroken (balances s) pools
  | Err _ => Ok true
  | Panic p => Panic p
  end.
End keeper.
End Gamm.
