(* ===== verification/GammModule.v ===== *)
(** The gamm keeper as one of the pool manager's modules: its methods as [PoolModuleI], the handlers of
    x/gamm/keeper/msg_server.go and gov.go, the stableswap pool as [CFMMPoolI], and the message that
    creates one (x/gamm/pool-models/stableswap/msgs.go). *)
From stdpp Require Import prelude strings list gmap.
From S2P Require Import Prelude.
From S2P Require Import GoBig.
From S2P Require Import SdkDec.
From S2P Require Import Decimal.
From S2P Require Import SdkCoins.
From S2P Require Import GoState.
From S2P Require Import CLPool.
From S2P Require Import PoolManager.
From S2P Require Import PoolRouter.
From S2P Require Import Stableswap.
From S2P Require Import Gamm.
Local Open Scope Z_scope.

Module GammModule.

(** *** Stableswap pools *)

#[global] Instance stableswap_pool {D : sdk.LegacyDec} {C : coin.CoinOps} {PC : pool_coins.PoolCoins}
    {A : addr.Addresses} : Gamm.CFMMPoolI Stableswap.Pool := {
  Gamm.GetId := Stableswap.Id;
  Gamm.GetAddress := Stableswap.GetAddress;
  Gamm.GetSpreadFactor p := Stableswap.SwapFee (Stableswap.Parameters p);
  Gamm.GetExitFee p := Stableswap.ExitFee (Stableswap.Parameters p);
  Gamm.IsActive _ := true;
  Gamm.GetTotalShares p := coin.Amount (Stableswap.TotalShares p);
  Gamm.PoolLiquidity := Stableswap.PoolLiquidity;
  Gamm.SpotPrice := Stableswap.SpotPrice;
  Gamm.JoinPool := Stableswap.JoinPool;
  Gamm.PoolJoinPoolNoSwap := Stableswap.JoinPoolNoSwap;
  Gamm.PoolExitPool := Stableswap.ExitPool;
  Gamm.SwapOutAmtGivenIn := Stableswap.SwapOutAmtGivenIn;
  Gamm.PoolCalcOutAmtGivenIn := Stableswap.CalcOutAmtGivenIn;
  Gamm.SwapInAmtGivenOut := Stableswap.SwapInAmtGivenOut;
  Gamm.PoolCalcInAmtGivenOut := Stableswap.CalcInAmtGivenOut;
  Gamm.PokePool _ p := p;
  Gamm.asAmountOut _ := None;
  Gamm.asStableswap := Some;
  Gamm.ofStableswap p := p;
  Gamm.isBalancer _ := false;
}.

(** *** The rest of the chain *)

(** Pools of other modules, and what the pool manager asks of other keepers. *)
Class Rest : Type := {
  OtherPool : Type;
  OtherId : OtherPool → Z;
  OtherAddress : OtherPool → outcome addr.AccAddress;
  OtherType : OtherPool → PoolManager.PoolType;
  RestBondDenom : outcome string;
  RestPoolForDenomPair : string → string → outcome Z;
  RestModuleAccount : string → addr.AccAddress;
  RestValidateDenom : string → outcome unit;
}.

Section chain.
  Context {D : sdk.LegacyDec} {C : coin.CoinOps} {PC : pool_coins.PoolCoins} {A : addr.Addresses}
    {Bk : Gamm.Bank} {P : Type} {PI : Gamm.CFMMPoolI P} {Re : Rest}.

(** The dynamic type of a pool is one of the market makers' or another; the two getters that may depend
    on the state of the chain are those of a market maker, and a pool of another type gets a default that
    no module here reads. *)
Definition AnyPool : Type := P + OtherPool.
Definition GammWorld : Type := Gamm.state P Gamm.Balances.
Definition asCFMMPool (pool : AnyPool) : outcome P :=
  match pool with inl p => Ok p | inr _ => Err "given pool does not implement CFMMPoolI" end.
Definition PoolTypeOf (pool : P) : PoolManager.PoolType :=
  if Gamm.isBalancer pool then PoolManager.Balancer else PoolManager.Stableswap.
Definition bank_step (m : Gamm.Balances → outcome Gamm.Balances) (w : GammWorld) : outcome GammWorld :=
  b ← m (Gamm.balances w); Ok (Gamm.set_balances b w).

#[global] Instance gamm_chain : PoolManager.Chain := {
  PoolManager.World := GammWorld;
  PoolManager.PoolI := AnyPool;
  PoolManager.GetId pool := match pool with inl p => Gamm.GetId p | inr p => OtherId p end;
  PoolManager.GetAddress pool := match pool with inl p => Gamm.GetAddress p | inr p => OtherAddress p end;
  PoolManager.GetType pool := match pool with inl p => PoolTypeOf p | inr p => OtherType p end;
  PoolManager.GetSpreadFactor _ pool := match pool with inl p => Gamm.GetSpreadFactor p | inr _ => Dec.mk 0 end;
  PoolManager.IsActive _ pool := match pool with inl p => Gamm.IsActive p | inr _ => true end;
  PoolManager.SendCoins a b c := bank_step (Gamm.SendCoins a b c);
  PoolManager.SendCoinsFromAccountToModule a m c := bank_step (Gamm.SendCoinsFromAccountToModule a m c);
  PoolManager.BondDenom _ := RestBondDenom;
  PoolManager.GetPoolForDenomPair _ := RestPoolForDenomPair;
  PoolManager.GetModuleAccount := RestModuleAccount;
  PoolManager.CreateModuleAccount _ w := Ok w;
  PoolManager.ValidateDenom := RestValidateDenom;
}.
Abbreviation S := (PoolManager.state GammWorld).
Definition on_gamm {T} (m : M GammWorld T) : M S T := zoom PoolManager.world PoolManager.set_world m.
Definition ask_gamm {T} (m : M GammWorld T) (s : S) : outcome T := '(x, _) ← m (PoolManager.world s); Ok x.
Definition asPool (m : outcome P) : outcome AnyPool := p ← m; Ok (inl p).
Definition asPools (m : outcome (list P)) : outcome (list AnyPool) := match m with Ok l => Ok (map inl l) | Err e => Err e | Panic e => Panic e end.

Definition gammModule : PoolManager.PoolModuleI := {|
  PoolManager.InitializePool pool sender :=
    p ← lift (asCFMMPool pool); on_gamm (Gamm.InitializePool p sender);
  PoolManager.GetPool s poolId := asPool (ask_gamm (Gamm.GetPool poolId) s);
  PoolManager.GetPools s := asPools (ask_gamm Gamm.GetPools s);
  PoolManager.GetPoolDenoms s poolId := ask_gamm (Gamm.GetPoolDenoms poolId) s;
  PoolManager.CalculateSpotPrice s poolId quote base := ask_gamm (Gamm.CalculateSpotPrice poolId quote base) s;
  PoolManager.SwapExactAmountIn sender pool tokenIn tokenOutDenom tokenOutMinAmount spreadFactor :=
    p ← lift (asCFMMPool pool);
    '(tokenOutAmount, _) ←
      on_gamm (Gamm.SwapExactAmountIn sender p tokenIn tokenOutDenom tokenOutMinAmount spreadFactor);
    mret tokenOutAmount;
  PoolManager.CalcOutAmtGivenIn _ pool tokenIn tokenOutDenom spreadFactor :=
    p ← asCFMMPool pool; Gamm.CalcOutAmtGivenIn p tokenIn tokenOutDenom spreadFactor;
  PoolManager.SwapExactAmountOut sender pool tokenInDenom tokenInMaxAmount tokenOut spreadFactor :=
    p ← lift (asCFMMPool pool);
    on_gamm (Gamm.SwapExactAmountOut sender p tokenInDenom tokenInMaxAmount tokenOut spreadFactor);
  PoolManager.CalcInAmtGivenOut _ pool tokenOut tokenInDenom spreadFactor :=
    p ← asCFMMPool pool; Gamm.CalcInAmtGivenOut p tokenOut tokenInDenom spreadFactor;
  PoolManager.GetTotalPoolLiquidity s poolId := ask_gamm (Gamm.GetTotalPoolLiquidity poolId) s;
  PoolManager.GetTotalLiquidity s := ask_gamm Gamm.GetTotalLiquidity s
|}.
#[global] Instance gamm_modules (concentrated cosmwasm : PoolManager.PoolModuleI) : PoolManager.Modules := {
  PoolManager.gammKeeper := gammModule;
  PoolManager.concentratedKeeper := concentrated;
  PoolManager.cosmwasmpoolKeeper := cosmwasm;
}.

(** *** msg_server.go *)

Definition sent_by {T} (sender : string) (m : addr.AccAddress → M GammWorld T) : M S T :=
  sender ← lift (addr.AccAddressFromBech32 sender); on_gamm (m sender).
Definition MsgCreatePool {Mo : PoolManager.Modules} (msg : PoolManager.CreatePoolMsg) : M S Z :=
  PoolManager.CreatePool msg.
Definition MsgStableSwapAdjustScalingFactors (sender : string) (poolID : Z) (scalingFactors : list Z) : M S unit :=
  on_gamm (Gamm.setStableSwapScalingFactors poolID scalingFactors sender).
Definition MsgJoinPool (sender : string) (poolId : Z) (shareOutAmount : SdkInt.t) (tokenInMaxs : coin.Coins)
    : M S (SdkInt.t * coin.Coins) :=
  '(neededLp, sharesOut) ← sent_by sender (λ a, Gamm.JoinPoolNoSwap a poolId shareOutAmount tokenInMaxs);
  mret (sharesOut, neededLp).
Definition MsgExitPool (sender : string) (poolId : Z) (shareInAmount : SdkInt.t) (tokenOutMins : coin.Coins)
    : M S coin.Coins :=
  sent_by sender (λ a, Gamm.ExitPool a poolId shareInAmount tokenOutMins).
Definition MsgSwapExactAmountIn {Mo : PoolManager.Modules} (sender : string) (routes : list PoolRouter.InRoute)
    (tokenIn : coin.Coin) (tokenOutMinAmount : SdkInt.t) : M S SdkInt.t :=
  sender ← lift (addr.AccAddressFromBech32 sender);
  PoolRouter.RouteExactAmountIn sender routes tokenIn tokenOutMinAmount.
Definition MsgSwapExactAmountOut {Mo : PoolManager.Modules} (sender : string) (routes : list PoolRouter.OutRoute)
    (tokenInMaxAmount : SdkInt.t) (tokenOut : coin.Coin) : M S SdkInt.t :=
  sender ← lift (addr.AccAddressFromBech32 sender);
  PoolRouter.RouteExactAmountOut sender routes tokenInMaxAmount tokenOut.
Definition MsgJoinSwapExternAmountIn (sender : string) (poolId : Z) (tokenIn : coin.Coin)
    (shareOutMinAmount : SdkInt.t) : M S SdkInt.t :=
  sent_by sender (λ a, Gamm.JoinSwapExactAmountIn a poolId [tokenIn] shareOutMinAmount).
Definition MsgJoinSwapShareAmountOut (sender : string) (poolId : Z) (tokenInDenom : string)
    (shareOutAmount tokenInMaxAmount : SdkInt.t) : M S SdkInt.t :=
  sent_by sender (λ a, Gamm.JoinSwapShareAmountOut a poolId tokenInDenom shareOutAmount tokenInMaxAmount).
Definition MsgExitSwapExternAmountOut (sender : string) (poolId : Z) (tokenOut : coin.Coin)
    (shareInMaxAmount : SdkInt.t) : M S SdkInt.t :=
  sent_by sender (λ a, Gamm.ExitSwapExactAmountOut a poolId tokenOut shareInMaxAmount).
Definition MsgExitSwapShareAmountIn (sender : string) (poolId : Z) (tokenOutDenom : string)
    (shareInAmount tokenOutMinAmount : SdkInt.t) : M S SdkInt.t :=
  sent_by sender (λ a, Gamm.ExitSwapShareAmountIn a poolId tokenOutDenom shareInAmount tokenOutMinAmount).
(** gov.go *)
Definition HandleSetScalingFactorControllerProposal (poolId : Z) (controllerAddress : string) : M S unit :=
  on_gamm (Gamm.setStableSwapScalingFactorController poolId controllerAddress).
End chain.

(** *** stableswap/msgs.go *)

Record MsgCreateStableswapPool := {
  Sender : string;
  PoolParams : Stableswap.PoolParams;
  InitialPoolLiquidity : coin.Coins;
  ScalingFactors : list Z;
  FuturePoolGovernor : string;
  ScalingFactorController : string
}.

Section create.
  Context {D : sdk.LegacyDec} {C : coin.CoinOps} {PC : pool_coins.PoolCoins} {A : addr.Addresses}
    {Bk : Gamm.Bank} {Re : Rest}.

Definition ValidateBasic (msg : MsgCreateStableswapPool) : outcome unit :=
  _ ← addr.AccAddressFromBech32 (Sender msg);
  _ ← Stableswap.PoolParams_Validate (PoolParams msg);
  let n := length (InitialPoolLiquidity msg) in
  scalingFactors ←
    match ScalingFactors msg with
    | [] => Ok (replicate n 1)
    | l => _ ← Stableswap.validateScalingFactors l n; Ok l
    end;
  _ ← Stableswap.validatePoolLiquidity (InitialPoolLiquidity msg) scalingFactors;
  _ ← Stableswap.validateScalingFactorController (ScalingFactorController msg);
  Stableswap.ValidateFutureGovernor (FuturePoolGovernor msg).
Definition PoolCreator (msg : MsgCreateStableswapPool) : outcome addr.AccAddress :=
  Pool.or_panic (addr.AccAddressFromBech32 (Sender msg)) "decoding bech32 failed".
Definition CreatePool (msg : MsgCreateStableswapPool) (poolId : Z) : outcome Stableswap.Pool :=
  Stableswap.NewStableswapPool poolId (PoolParams msg) (InitialPoolLiquidity msg) (ScalingFactors msg)
    (ScalingFactorController msg) (FuturePoolGovernor msg).
(** The message as the pool manager sees it.  A message whose sender cannot be decoded does not pass its
    validation, which comes before the creator is asked for. *)
Definition create_pool_msg (creator : addr.AccAddress) (msg : MsgCreateStableswapPool)
    : PoolManager.CreatePoolMsg (Ch := gamm_chain (P := Stableswap.Pool)) :=
  {| PoolManager.GetPoolType := PoolManager.Stableswap;
     PoolManager.Validate _ := ValidateBasic msg;
     PoolManager.PoolCreator := creator;
     PoolManager.CreatePoolFromMsg _ poolId := p ← CreatePool msg poolId; Ok (inl p);
     PoolManager.InitialLiquidity := InitialPoolLiquidity msg |}.
Definition MsgCreateStableswap {Mo : PoolManager.Modules (H := gamm_chain (P := Stableswap.Pool))}
    (msg : MsgCreateStableswapPool) : M (PoolManager.state GammWorld) Z :=
  _ ← lift (ValidateBasic msg);
  creator ← lift (PoolCreator msg);
  PoolManager.CreatePool (create_pool_msg creator msg).
End create.
End GammModule.
