(* ===== verification/GammProps.v ===== *)
(** The contracts of a constant function market pool, one for the router and one for its books; and that the
    gamm keeper, with pools that keep the first, keeps the contract the router relies on. *)
From stdpp Require Import prelude strings list gmap.
From S2P Require Import Prelude.
From S2P Require Import GoBig.
From S2P Require Import SdkDec.
From S2P Require Import Decimal.
From S2P Require Import SdkCoins.
From S2P Require Import GoState.
From S2P Require Import CLPool.
From S2P Require Import PoolManager.
From S2P Require Import PoolRouter.
From S2P Require Import Stableswap.
From S2P Require Import Gamm.
From S2P Require Import GammModule.
Local Open Scope Z_scope.

Module GammProps.
Import Gamm.
Import GammModule.

(** *** Coins *)

(** Coins as the SDK calls them valid, but for their order: distinct denominations, positive amounts. *)
Definition valid (c : coin.Coins) : Prop :=
  NoDup (coin.Denom <$> c) ∧ Forall (λ x, 0 < SdkInt.i (coin.Amount x)) c.
(** The constructors return valid coins, and drop a coin only if its amount is zero. *)
Class ValidLaws (C : coin.CoinOps) (PC : pool_coins.PoolCoins) : Prop := {
  NewCoins_single c l : coin.NewCoins [c] = Ok l → l = [c] ∨ l = [];
  Add_valid a b r : valid a → valid b → coin.Add a b = Ok r → valid r;
  Sub_valid a b r : valid a → pool_coins.Sub a b = Ok r → valid r;
  DenomsSubsetOf_spec a b d :
    pool_coins.DenomsSubsetOf a b = true → d ∈ coin.Denom <$> a → d ∈ coin.Denom <$> b;
  MaxSortable_nonneg : 0 ≤ Dec.i pool_coins.LegacyMaxSortableDec;
}.

Lemma valid_amt c d : valid c → 0 ≤ coin.amt d c.
Proof.
  intros [_ Hc]. unfold coin.amt. apply ZSums.sumZ_nonneg. intros x Hx. rewrite Forall_forall in Hc.
  specialize (Hc _ Hx). cbn in Hc. case_bool_decide; lia.
Qed.
Lemma valid_single c : 0 < SdkInt.i (coin.Amount c) → valid [c].
Proof. intros Hc. split; [apply NoDup_singleton|by apply Forall_singleton]. Qed.

(** *** Pools *)

Section pools.
  Context {P : Type} {PI : CFMMPoolI P}.

(** What no operation changes, and the same pool with other coins and shares. *)
Definition same_pool (p p' : P) : Prop := GetId p' = GetId p ∧ GetAddress p' = GetAddress p.
Definition shares (p : P) : Z := SdkInt.i (GetTotalShares p).
Definition holds (p : P) (d : string) : Z := coin.amt d (PoolLiquidity p).

(** Calculations say what the operations do, and operations return the pool they were called on; poking a
    pool changes weights only.  This is what the router relies on. *)
Class CFMMLaws : Prop := {
  swap_out_calc p ins d fee out p' : SwapOutAmtGivenIn p ins d fee = Ok (out, p') → PoolCalcOutAmtGivenIn p ins d fee = Ok out;
  swap_in_calc p outs d fee tin p' : SwapInAmtGivenOut p outs d fee = Ok (tin, p') → PoolCalcInAmtGivenOut p outs d fee = Ok tin;
  calc_in_gives p outs d fee c : PoolCalcInAmtGivenOut p outs d fee = Ok c → coin.Denom c = d;
  calc_out_gives p ins d fee c : PoolCalcOutAmtGivenIn p ins d fee = Ok c → coin.Denom c = d;
  calc_out_one p d fee c : PoolCalcOutAmtGivenIn p [] d fee ≠ Ok c;
  calc_in_one p d fee c : PoolCalcInAmtGivenOut p [] d fee ≠ Ok c;
  swaps_same p p' :
    (∃ ins d fee out, SwapOutAmtGivenIn p ins d fee = Ok (out, p')) ∨
    (∃ outs d fee tin, SwapInAmtGivenOut p outs d fee = Ok (tin, p')) → same_pool p p';
  poke_same t p : same_pool p (PokePool t p) ∧ shares (PokePool t p) = shares p ∧
    PoolLiquidity (PokePool t p) = PoolLiquidity p;
}.
(** Books: the pool counts what comes in and goes out.  Stableswap pools do (StableLaws).  Balancer pools do
    not keep [swap_out_books] when a swap empties a reserve: [applySwap] of balancer/pool.go then leaves the
    old reserve on record, because [sdk.NewCoins] drops the coin with amount zero. *)
Class CFMMBooks : Prop := {
  books_laws :: CFMMLaws;
  swap_out_books p c d fee out p' :
    valid (PoolLiquidity p) → SwapOutAmtGivenIn p [c] d fee = Ok (out, p') → 0 < SdkInt.i (coin.Amount c) →
    same_pool p p' ∧ shares p' = shares p ∧ valid (PoolLiquidity p') ∧
    ∀ e, holds p' e = holds p e + coin.amt e [c] - coin.amt e [out];
  swap_in_books p c d fee tin p' :
    valid (PoolLiquidity p) → SwapInAmtGivenOut p [c] d fee = Ok (tin, p') → 0 < SdkInt.i (coin.Amount tin) →
    same_pool p p' ∧ shares p' = shares p ∧ valid (PoolLiquidity p') ∧
    ∀ e, holds p' e = holds p e + coin.amt e [tin] - coin.amt e [c];
  join_books p ins fee n p' :
    valid (PoolLiquidity p) → valid ins →
    JoinPool p ins fee = Ok (n, p') ∨ PoolJoinPoolNoSwap p ins fee = Ok (n, p') →
    same_pool p p' ∧ shares p' = shares p + SdkInt.i n ∧ valid (PoolLiquidity p') ∧
    ∀ e, holds p' e ≤ holds p e + coin.amt e ins;
  exit_books p n fee out p' :
    valid (PoolLiquidity p) → PoolExitPool p n fee = Ok (out, p') →
    same_pool p p' ∧ shares p' = shares p - SdkInt.i n ∧ valid (PoolLiquidity p') ∧
    ∀ e, holds p' e = holds p e - coin.amt e out;
  extension_join p x n ins p' :
    asAmountOut p = Some x → valid (PoolLiquidity p) → valid ins → IncreaseLiquidity x n ins = Ok p' →
    same_pool p p' ∧ shares p' = shares p + SdkInt.i n ∧ valid (PoolLiquidity p') ∧
    ∀ e, holds p' e ≤ holds p e + coin.amt e ins;
  extension_exit p x c lim n p' :
    asAmountOut p = Some x → valid (PoolLiquidity p) → ExtExitSwapExactAmountOut x c lim = Ok (n, p') →
    same_pool p p' ∧ shares p' = shares p - SdkInt.i n ∧ valid (PoolLiquidity p') ∧
    ∀ e, holds p' e ≤ holds p e - coin.amt e [c];
  stableswap_same p q q' :
    asStableswap p = Some q → Stableswap.Id q' = Stableswap.Id q → Stableswap.Address q' = Stableswap.Address q →
    Stableswap.TotalShares q' = Stableswap.TotalShares q → Stableswap.PoolLiquidity q' = Stableswap.PoolLiquidity q →
    same_pool p (ofStableswap q') ∧ shares (ofStableswap q') = shares p ∧
    PoolLiquidity (ofStableswap q') = PoolLiquidity p;
}.
#[global] Instance same_pool_preorder : PreOrder same_pool.
Proof. split; [by intros p|]. intros p q r [] []. split; congruence. Qed.
End pools.
Arguments CFMMLaws P {PI}.
Arguments CFMMBooks P {PI}.

(** *** The gamm keeper as a module of the pool manager *)

Section lawful.
  Context {D : sdk.LegacyDec} {L : sdk.LegacyDecLaws D} {C : coin.CoinOps} {PC : pool_coins.PoolCoins}
    {VL : ValidLaws C PC} {A : addr.Addresses} {Bk : Bank} {P : Type} {PI : CFMMPoolI P} {PL : CFMMLaws P} {Re : Rest}.
Abbreviation S := (PoolManager.state GammWorld).

Lemma gamm_bank_Ok m (s : state P Balances) u s' :
  on_bank m s = Ok (u, s') → ∃ w, m (balances s) = Ok w ∧ s' = set_balances w s.
Proof. unfold on_bank. intros (w & Hw & [= <-])%bind_Ok. by exists w. Qed.

Lemma GetPoolAndPoke_Ok id (s : state P Balances) p s' :
  GetPoolAndPoke id s = Ok (p, s') → s' = s ∧ ∃ q, pools s !! id = Some q ∧ p = PokePool (now s) q.
Proof.
  unfold GetPoolAndPoke. intros H. run_gets H. cbn [Datatypes.id] in H.
  destruct (pools s !! id) as [q|]; [|done]. run_ret H. split; [done|]. by exists q.
Qed.

Lemma poke_id t p : GetId (PokePool t p) = GetId p.
Proof using PL. apply poke_same. Qed.

Lemma update_for_swap_Ok p sender tin tout (s : state P Balances) u s' :
  updatePoolForSwap p sender tin tout s = Ok (u, s') →
  ∃ a w1 w2, GetAddress p = Ok a ∧ SendCoins sender a [tin] (balances s) = Ok w1 ∧
    SendCoins a sender [tout] w1 = Ok w2 ∧ s' = set_balances w2 (set_pools (insert (GetId p) p) s).
Proof.
  unfold updatePoolForSwap, setPool. intros H. run H as [] s1 ->%st_modify_Ok. run_lift H as a Ha.
  run H as [] s2 (w1 & Hw1 & ->)%gamm_bank_Ok. apply gamm_bank_Ok in H as (w2 & Hw2 & ->). by exists a, w1, w2.
Qed.

Lemma SwapExactAmountIn_Ok sender p c d lim fee (s : state P Balances) n p' s' :
  SwapExactAmountIn sender p c d lim fee s = Ok ((n, p'), s') →
  ∃ out, SwapOutAmtGivenIn p [c] d fee = Ok (out, p') ∧ coin.Amount out = n ∧ coin.Denom c ≠ d ∧
    0 < SdkInt.i n ∧ SdkInt.i lim ≤ SdkInt.i n ∧ updatePoolForSwap p' sender c out s = Ok (tt, s').
Proof using L.
  unfold SwapExactAmountIn. intros H. run_require H as Hd. run_lift H as half Hh. run_require H as _.
  apply st_recovering_Ok in H. run_lift H as [out q] Hout. run_require H as Hpos. run_require H as Hlim.
  run H as [] s1 Hu. apply st_ret_Ok in H as [[= <- <-] <-]. exists out.
  rewrite sdk.IntIsPositive_spec in Hpos. rewrite sdk.IntLT_spec in Hlim.
  apply Z.ltb_lt in Hpos. apply negb_true_iff, Z.ltb_ge in Hlim. apply negb_true_iff, String.eqb_neq in Hd.
  by split_and!.
Qed.

Lemma SwapExactAmountOut_Ok sender p d lim c fee (s : state P Balances) n s' :
  SwapExactAmountOut sender p d lim c fee s = Ok (n, s') →
  ∃ tin p', SwapInAmtGivenOut p [c] d fee = Ok (tin, p') ∧ coin.Amount tin = n ∧ d ≠ coin.Denom c ∧
    0 < SdkInt.i n ∧ SdkInt.i n ≤ SdkInt.i lim ∧ updatePoolForSwap p' sender tin c s = Ok (tt, s').
Proof using L.
  unfold SwapExactAmountOut. intros H. run_require H as Hd. apply st_recovering_Ok in H.
  run H as l s1 Hl. assert (s1 = s) as ->.
  { unfold GetTotalPoolLiquidity, GetCFMMPool in Hl. run Hl as q s2 Hq. run Hq as q' s3 [-> _]%GetPoolAndPoke_Ok.
    run_require Hq as _. apply st_ret_Ok in Hq as [_ ->]. by apply st_ret_Ok in Hl as [_ ->]. }
  run_lift H as bal _. run_require H as _. run_lift H as [tin q] Hin. run_require H as Hpos. run_require H as Hlim.
  run H as [] s1 Hu. apply st_ret_Ok in H as [<- <-]. exists tin, q.
  rewrite sdk.IntLTE_spec in Hpos. rewrite sdk.IntGT_spec in Hlim.
  apply negb_true_iff, Z.leb_gt in Hpos. apply negb_true_iff, Z.ltb_ge in Hlim. apply negb_true_iff, String.eqb_neq in Hd.
  by split_and!.
Qed.

(** Two states agree on a pool if they store the same and the time is the same. *)
#[global] Program Instance gamm_agreement : PoolRouterProps.Agreement (Ch := gamm_chain (P := P)) := {|
  PoolRouterProps.agree id (s s' : S) :=
    pools (PoolManager.world s') !! id = pools (PoolManager.world s) !! id ∧
    now (PoolManager.world s') = now (PoolManager.world s);
  PoolRouterProps.filed (s : S) id := ∀ p, pools (PoolManager.world s) !! id = Some p → GetId p = id
|}.
Next Obligation. intros id. split; [by intros s|]. intros s t u [] []. split; congruence. Qed.
Next Obligation. intros id a m c s w (b & _ & [= <-])%bind_Ok. done. Qed.
Next Obligation. cbn. intros id s s' [E _] Hs p. rewrite E. apply Hs. Qed.
Next Obligation. done. Qed.

Lemma gamm_lookup id (s : S) pool :
  PoolManager.GetPool gammModule s id = Ok pool →
  ∃ q, pools (PoolManager.world s) !! id = Some q ∧ pool = inl (PokePool (now (PoolManager.world s)) q).
Proof.
  cbn. unfold asPool, ask_gamm, GetPool. intros (p & Hp & [= <-])%bind_Ok.
  apply bind_Ok in Hp as ([p' w] & (_ & q & Hq & ->)%GetPoolAndPoke_Ok & [= <-]). by exists q.
Qed.

(** What a swap writes: the pool under its id, and balances. *)
Lemma swap_frame p sender tin tout (s : S) u w :
  updatePoolForSwap p sender tin tout (PoolManager.world s) = Ok (u, w) →
  PoolRouterProps.same_config s (PoolManager.set_world w s) ∧
  ∀ id, id ≠ GetId p → PoolRouterProps.agree id s (PoolManager.set_world w s).
Proof.
  intros (a & w1 & w2 & _ & _ & _ & ->)%update_for_swap_Ok. split; [by split_and!|]. intros id Hid. cbn.
  split; [by apply lookup_insert_ne|done].
Qed.

Lemma calc_out_is_swap p c d fee out out' p' :
  Gamm.CalcOutAmtGivenIn p c d fee = Ok out → SwapOutAmtGivenIn p [c] d fee = Ok (out', p') → out = out'.
Proof using VL PL.
  unfold Gamm.CalcOutAmtGivenIn. intros (l & Hl & Hout)%bind_Ok Hs%swap_out_calc.
  apply NewCoins_single in Hl as [->| ->]; [congruence|by apply calc_out_one in Hout].
Qed.
Lemma calc_in_is_swap p c d fee tin tin' p' :
  Gamm.CalcInAmtGivenOut p c d fee = Ok tin → SwapInAmtGivenOut p [c] d fee = Ok (tin', p') → tin = tin'.
Proof using VL PL.
  unfold Gamm.CalcInAmtGivenOut. intros (l & Hl & Hin)%bind_Ok Hs%swap_in_calc.
  apply NewCoins_single in Hl as [->| ->]; [congruence|by apply calc_in_one in Hin].
Qed.

(** The gamm keeper keeps the contract of a pool module. *)
Lemma gamm_lawful : PoolRouterProps.Lawful gammModule.
Proof using L VL PL.
  split.
  - intros s id pool Hf (q & Hq & ->)%gamm_lookup. cbn. rewrite poke_id.
    by apply Hf.
  - cbn. intros s s' id [Hp Hn]. unfold asPool, ask_gamm, GetPool, GetPoolAndPoke, mbind, M_bind, gets. cbn.
    rewrite Hp, Hn. by destruct (pools (PoolManager.world s) !! id).
  - done.
  - intros sender pool c d lim fee s n s' Hg H. apply gamm_lookup in Hg as (q & Hq & ->). cbn in H.
    run_lift H as p [= Ep]. run H as [n' p'] s1 Hz. apply st_ret_Ok in H as [-> ->].
    apply st_zoom_Ok in Hz as (w & (out & Hout & <- & _ & _ & Hlim & Hu)%SwapExactAmountIn_Ok & ->).
    destruct (swap_frame _ _ _ _ _ _ _ Hu) as [Hc Ha]. split_and!; [done|done|..].
    + intros id Hid. apply Ha. cbn in Hid. rewrite Ep in Hid. assert (GetId p' = GetId p) as ->; [|done].
      apply swaps_same. left. by do 4 eexists.
    + cbn. rewrite Ep. intros out' Hout'. by rewrite (calc_out_is_swap _ _ _ _ _ _ _ Hout' Hout).
  - intros s pool out d fee c. cbn. destruct pool as [p|]; [|done]. cbn. intros (l & _ & Hc)%bind_Ok.
    by apply calc_in_gives in Hc.
  - intros sender pool d lim out fee s n s' Hg H. apply gamm_lookup in Hg as (q & Hq & ->). cbn in H.
    run_lift H as p [= <-].
    apply st_zoom_Ok in H as (w & (tin & p' & Hin & <- & _ & _ & Hlim & Hu)%SwapExactAmountOut_Ok & ->).
    destruct (swap_frame _ _ _ _ _ _ _ Hu) as [Hc Ha]. split_and!; [done|done|..].
    cbn. intros c Hcalc. by rewrite (calc_in_is_swap _ _ _ _ _ _ _ Hcalc Hin).
Qed.
End lawful.
End GammProps.
