(* ===== verification/GammInv.v ===== *)
(** The books of the gamm keeper: every pool's account holds the coins of the pool, and the shares in
    circulation are those the pool counts.  Each operation of the keeper keeps this for a user, an account
    that is no pool's. *)
From stdpp Require Import prelude strings list gmap sorting.
From S2P Require Import Prelude.
From S2P Require Import GoBig.
From S2P Require Import SdkDec.
From S2P Require Import Decimal.
From S2P Require Import DecimalText.
From S2P Require Import KV.
From S2P Require Import SdkCoins.
From S2P Require Import GoState.
From S2P Require Import CLPool.
From S2P Require Import Stableswap.
From S2P Require Import Gamm.
From S2P Require Import GammModule.
From S2P Require Import GammProps.
Local Open Scope Z_scope.

Module GammInv.
Import Gamm.
Import GammProps.

(** What the bank documents. *)
Definition when (b : bool) (n : Z) : Z := if b then n else 0.
Definition balance {Bk : Bank} (w : Balances) (a : addr.AccAddress) (d : string) : Z := coin.amt d (GetAllBalances w a).
Class BankLaws (Bk : Bank) : Type := {
  supply : Balances → string → Z;
  moduleAddress : string → addr.AccAddress;
  SendCoins_spec a b c w w' :
    SendCoins a b c w = Ok w' →
    valid c ∧ (∀ d, supply w' d = supply w d) ∧ ∀ x d,
      balance w' x d = balance w x d - when (bool_decide (x = a)) (coin.amt d c) + when (bool_decide (x = b)) (coin.amt d c);
  FromModule_spec m a c w w' :
    SendCoinsFromModuleToAccount m a c w = Ok w' → SendCoins (moduleAddress m) a c w = Ok w';
  ToModule_spec a m c w w' :
    SendCoinsFromAccountToModule a m c w = Ok w' → SendCoins a (moduleAddress m) c w = Ok w';
  MintCoins_spec m c w w' :
    MintCoins m c w = Ok w' → (∀ d, supply w' d = supply w d + coin.amt d c) ∧
      ∀ x d, balance w' x d = balance w x d + when (bool_decide (x = moduleAddress m)) (coin.amt d c);
  BurnCoins_spec m c w w' :
    BurnCoins m c w = Ok w' → (∀ d, supply w' d = supply w d - coin.amt d c) ∧
      ∀ x d, balance w' x d = balance w x d - when (bool_decide (x = moduleAddress m)) (coin.amt d c);
  Metadata_spec m w : (∀ d, supply (SetDenomMetaData m w) d = supply w d) ∧
    ∀ x d, balance (SetDenomMetaData m w) x d = balance w x d;
  IsAllGTE_spec a b : valid b → (∀ d, coin.amt d b ≤ coin.amt d a) → IsAllGTE a b = true;
}.

(** Addresses of pools are made by hashing: different, and different from those of modules. *)
Definition user {A : addr.Addresses} (a : addr.AccAddress) : Prop := ∀ id, a ≠ addr.NewPoolAddress id.
Class AccountLaws {A : addr.Addresses} {Bk : Bank} (BL : BankLaws Bk) : Prop := {
  NewPoolAddress_inj id id' : addr.NewPoolAddress id = addr.NewPoolAddress id' → id = id';
  module_user m : user (moduleAddress m);
}.

Lemma share_denom_inj n m : 0 ≤ n → 0 ≤ m → GetPoolShareDenom n = GetPoolShareDenom m → n = m.
Proof.
  unfold GetPoolShareDenom, Stableswap.GetPoolShareDenom, Stableswap.GAMMTokenPrefix. intros Hn Hm H.
  apply (inj (String.append _)) in H. apply (f_equal String.list_ascii_of_string) in H. rewrite !String.list_ascii_of_string_of_list_ascii in H. by apply BigDecText.MarshalText_inj.
Qed.

Section books.
  Context {D : sdk.LegacyDec} {L : sdk.LegacyDecLaws D} {C : coin.CoinOps} {CL : coin.CoinLaws C}
    {PC : pool_coins.PoolCoins} {VL : ValidLaws C PC} {A : addr.Addresses} {Bk : Bank} {BL : BankLaws Bk}
    {AL : AccountLaws BL} {P : Type} {PI : CFMMPoolI P} {PL : CFMMBooks P}.
Abbreviation S := (state P Balances).
(** The next id that will be given to a pool. *)
Context (next : Z).

Record pool_sound (w : Balances) (id : Z) (p : P) : Prop := {
  sound_id : GetId p = id;
  sound_address : GetAddress p = Ok (addr.NewPoolAddress id);
  sound_valid : valid (PoolLiquidity p);
  sound_backed d : holds p d ≤ balance w (addr.NewPoolAddress id) d;
  sound_shares : supply w (GetPoolShareDenom id) = shares p
}.
Record sound (s : S) : Prop := {
  sound_pools id p : pools s !! id = Some p → 0 ≤ id < next ∧ pool_sound (balances s) id p;
  sound_none id : 0 ≤ id → pools s !! id = None → supply (balances s) (GetPoolShareDenom id) = 0;
  sound_unused id d : pools s !! id = None → 0 ≤ balance (balances s) (addr.NewPoolAddress id) d
}.

(** A pool as the store has it, but for what a poke changes. *)
Definition stored (s : S) (id : Z) (p : P) : Prop :=
  ∃ q, pools s !! id = Some q ∧ same_pool q p ∧ shares p = shares q ∧ PoolLiquidity p = PoolLiquidity q.
Lemma stored_poke (s : S) id q : pools s !! id = Some q → stored s id (PokePool (now s) q).
Proof using PL. intros Hq. exists q. destruct (poke_same (now s) q) as (H1 & H2 & H3). by split_and!. Qed.
Lemma GetPoolAndPoke_stored id (s : S) p s' : GetPoolAndPoke id s = Ok (p, s') → s' = s ∧ stored s id p.
Proof using PL. intros [-> (q & Hq & ->)]%GetPoolAndPoke_Ok. split; [done|by apply stored_poke]. Qed.
Lemma GetCFMMPool_stored id (s : S) p s' : GetCFMMPool id s = Ok (p, s') → s' = s ∧ stored s id p.
Proof using PL.
  unfold GetCFMMPool. intros H. run H as q s1 [-> Hq]%GetPoolAndPoke_stored. run_require H as _. by run_ret H.
Qed.
Lemma stored_sound (s : S) id p : sound s → stored s id p → 0 ≤ id < next ∧ pool_sound (balances s) id p.
Proof.
  intros Hs (q & Hq & [Hi Ha] & Hn & Hl). apply (sound_pools s Hs) in Hq as [H0 [Q1 Q2 Q3 Q4 Q5]]. split; [done|].
  split; [congruence|congruence|by rewrite Hl|unfold holds in *; by rewrite Hl|congruence].
Qed.

(** *** Moving coins *)

(** From one state of the balances to another, a pool's account gains [gain], no other pool's loses, and
    [minted] shares of the pool come into circulation, none of others. *)
Record moves (id : Z) (gain : string → Z) (minted : Z) (w w' : Balances) : Prop := {
  moves_pool d : balance w (addr.NewPoolAddress id) d + gain d ≤ balance w' (addr.NewPoolAddress id) d;
  moves_others id' d : id' ≠ id → balance w (addr.NewPoolAddress id') d ≤ balance w' (addr.NewPoolAddress id') d;
  moves_supply id' : 0 ≤ id' →
    supply w' (GetPoolShareDenom id') = supply w (GetPoolShareDenom id') + when (bool_decide (id' = id)) minted
}.
Lemma moves_trans id g1 g2 n1 n2 w1 w2 w3 :
  moves id g1 n1 w1 w2 → moves id g2 n2 w2 w3 → moves id (λ d, g1 d + g2 d) (n1 + n2) w1 w3.
Proof.
  intros [A1 B1 C1] [A2 B2 C2]. split.
  - intros d. specialize (A1 d). specialize (A2 d). lia.
  - intros id' d Hne. specialize (B1 id' d Hne). specialize (B2 id' d Hne). lia.
  - intros id' H0. rewrite C2, C1 by done. unfold when. case_bool_decide; lia.
Qed.
Lemma moves_mono id g g' n w w' : moves id g n w w' → (∀ d, g' d ≤ g d) → moves id g' n w w'.
Proof. intros [A1 B1 C1] Hg. split; [|done..]. intros d. specialize (A1 d). specialize (Hg d). lia. Qed.

Lemma pay_in id a c w w' :
  user a → SendCoins a (addr.NewPoolAddress id) c w = Ok w' → moves id (λ d, coin.amt d c) 0 w w' ∧ valid c.
Proof using AL.
  intros Ha (Hv & Hs & Hb)%SendCoins_spec. split; [|done]. split.
  - intros d. rewrite Hb, bool_decide_eq_false_2, bool_decide_eq_true_2 by (done || by apply not_eq_sym). cbn. lia.
  - intros id' d Hne. pose proof (valid_amt c d Hv). rewrite Hb, bool_decide_eq_false_2 by (by apply not_eq_sym).
    unfold when. case_bool_decide; lia.
  - intros id' _. rewrite Hs. unfold when. case_bool_decide; lia.
Qed.
Lemma pay_out id a c w w' :
  user a → SendCoins (addr.NewPoolAddress id) a c w = Ok w' → moves id (λ d, - coin.amt d c) 0 w w' ∧ valid c.
Proof using AL.
  intros Ha (Hv & Hs & Hb)%SendCoins_spec. split; [|done]. split.
  - intros d. rewrite Hb, bool_decide_eq_true_2, bool_decide_eq_false_2 by (done || by apply not_eq_sym). cbn. lia.
  - intros id' d Hne. rewrite Hb, !bool_decide_eq_false_2; [cbn; lia|by apply not_eq_sym|].
    intros E%NewPoolAddress_inj. done.
  - intros id' _. rewrite Hs. unfold when. case_bool_decide; lia.
Qed.
(** Payments between accounts that are no pools'. *)
Lemma pay_aside id a b c w w' :
  user a → SendCoins a b c w = Ok w' → moves id (λ _, 0) 0 w w'.
Proof using AL.
  intros Ha (Hv & Hs & Hb)%SendCoins_spec. split; [intros d|intros id' d _|intros id' _].
  1,2: pose proof (valid_amt c d Hv); rewrite Hb, bool_decide_eq_false_2 by (by apply not_eq_sym);
    unfold when; case_bool_decide; lia.
  rewrite Hs. unfold when. case_bool_decide; lia.
Qed.

(** *** Shares *)

Lemma share_amt id id' n : 0 ≤ id → 0 ≤ id' →
  coin.amt (GetPoolShareDenom id') [{| coin.Denom := GetPoolShareDenom id; coin.Amount := n |}]
  = when (bool_decide (id' = id)) (SdkInt.i n).
Proof.
  intros H0 H1. unfold coin.amt, when. cbn [ZSums.sumZ coin.Denom coin.Amount].
  destruct (bool_decide_reflect (id' = id)) as [->|Hne].
  - rewrite bool_decide_eq_true_2 by done. lia.
  - rewrite bool_decide_eq_false_2; [done|]. intros E%share_denom_inj; by congruence.
Qed.

Lemma mint_Ok p a n (s : S) u s' :
  user a → 0 ≤ GetId p → MintPoolShareToAccount p a n s = Ok (u, s') →
  ∃ w, s' = set_balances w s ∧ moves (GetId p) (λ _, 0) (SdkInt.i n) (balances s) w.
Proof using CL AL.
  intros Ha H0. unfold MintPoolShareToAccount. intros H. run_lift H as c [-> Hn]%coin.NewCoin_spec.
  run_lift H as amt Hamt. run H as [] s1 (w1 & Hw1 & ->)%gamm_bank_Ok. apply gamm_bank_Ok in H as (w2 & Hw2 & ->).
  apply MintCoins_spec in Hw1 as [Hs1 Hb1]. apply FromModule_spec in Hw2. cbn [balances set_balances] in *.
  apply (pay_aside (GetId p)) in Hw2 as [A2 B2 C2]; [|apply module_user].
  exists w2. split; [done|]. split.
  - intros d. specialize (A2 d). rewrite Hb1, bool_decide_eq_false_2 in A2 by (apply not_eq_sym, module_user).
    cbn in A2. lia.
  - intros id' d Hne. specialize (B2 id' d Hne).
    rewrite Hb1, bool_decide_eq_false_2 in B2 by (apply not_eq_sym, module_user). cbn in B2. lia.
  - intros id' H1. rewrite C2, Hs1 by done. rewrite (coin.NewCoins_spec _ _ _ Hamt), share_amt by done.
    unfold when. case_bool_decide; lia.
Qed.

Lemma burn_Ok p a n (s : S) u s' :
  user a → 0 ≤ GetId p → BurnPoolShareFromAccount p a n s = Ok (u, s') →
  ∃ w, s' = set_balances w s ∧ moves (GetId p) (λ _, 0) (- SdkInt.i n) (balances s) w.
Proof using CL AL.
  intros Ha H0. unfold BurnPoolShareFromAccount. intros H. run_lift H as c [-> Hn]%coin.NewCoin_spec.
  run H as [] s1 (w1 & Hw1 & ->)%gamm_bank_Ok. apply gamm_bank_Ok in H as (w2 & Hw2 & ->).
  apply BurnCoins_spec in Hw2 as [Hs2 Hb2]. apply ToModule_spec in Hw1. cbn [balances set_balances] in *.
  apply (pay_aside (GetId p)) in Hw1 as [A1 B1 C1]; [|done].
  exists w2. split; [done|]. split.
  - intros d. specialize (A1 d). rewrite Hb2, bool_decide_eq_false_2 by (apply not_eq_sym, module_user). cbn. lia.
  - intros id' d Hne. specialize (B1 id' d Hne).
    rewrite Hb2, bool_decide_eq_false_2 by (apply not_eq_sym, module_user). cbn. lia.
  - intros id' H1. rewrite Hs2, C1, share_amt by done. unfold when. case_bool_decide; lia.
Qed.

(** *** Writing a pool *)

Lemma write_sound (s : S) id p p' w :
  sound s → stored s id p → same_pool p p' → valid (PoolLiquidity p') →
  moves id (λ d, holds p' d - holds p d) (shares p' - shares p) (balances s) w →
  sound (set_balances w (set_pools (insert (GetId p') p') s)) ∧
  stored (set_balances w (set_pools (insert (GetId p') p') s)) id p'.
Proof using AL.
  intros Hs Hst [Hi Ha] Hv [A1 B1 C1]. destruct (stored_sound _ _ _ Hs Hst) as [H0 [Q1 Q2 Q3 Q4 Q5]].
  rewrite Hi, Q1. split; [|exists p'; cbn [pools set_balances set_pools]; by rewrite lookup_insert_eq].
  split; cbn [pools balances set_balances set_pools].
  - intros id' q Hq. destruct (decide (id' = id)) as [->|Hne].
    + rewrite lookup_insert_eq in Hq. injection Hq as <-. split; [done|]. split; [congruence|congruence|done|..].
      * intros d. specialize (A1 d). specialize (Q4 d). lia.
      * rewrite C1, bool_decide_eq_true_2 by (done || lia). cbn. lia.
    + rewrite lookup_insert_ne in Hq by done. apply (sound_pools s Hs) in Hq as [H1 [R1 R2 R3 R4 R5]].
      split; [done|]. split; [done..| |].
      * intros d. specialize (B1 id' d Hne). specialize (R4 d). lia.
      * rewrite C1, bool_decide_eq_false_2 by (done || lia). cbn. lia.
  - intros id' H1. destruct (decide (id' = id)) as [->|Hne]; [by rewrite lookup_insert_eq|].
    rewrite lookup_insert_ne by done. intros Hn. rewrite C1, bool_decide_eq_false_2 by done.
    rewrite (sound_none s Hs) by done. done.
  - intros id' d. destruct (decide (id' = id)) as [->|Hne]; [by rewrite lookup_insert_eq|].
    rewrite lookup_insert_ne by done. intros Hn. specialize (B1 id' d Hne). pose proof (sound_unused s Hs id' d Hn). lia.
Qed.

(** Balances that move without a pool. *)
Lemma aside_sound (s : S) w : sound s → (∀ id, moves id (λ _, 0) 0 (balances s) w) → sound (set_balances w s).
Proof.
  intros Hs Hm. split; cbn [pools balances set_balances].
  - intros id p Hp. apply (sound_pools s Hs) in Hp as [H0 [Q1 Q2 Q3 Q4 Q5]]. destruct (Hm id) as [A1 _ C1].
    split; [done|]. split; [done..| |].
    + intros d. specialize (A1 d). specialize (Q4 d). lia.
    + rewrite C1 by lia. unfold when. case_bool_decide; lia.
  - intros id H0 Hn. destruct (Hm id) as [_ _ C1]. rewrite C1, (sound_none s Hs) by done. unfold when. by case_bool_decide.
  - intros id d Hn. destruct (Hm id) as [A1 _ _]. specialize (A1 d). pose proof (sound_unused s Hs id d Hn). lia.
Qed.

(** *** The operations *)

Lemma valid_positive c : valid [c] → 0 < SdkInt.i (coin.Amount c).
Proof. intros [_ H]. rewrite Forall_singleton in H. exact H. Qed.

(** Both payments of a swap. *)
Lemma swap_sound (s : S) id p p' sender tin tout u s' :
  sound s → stored s id p → user sender → updatePoolForSwap p' sender tin tout s = Ok (u, s') →
  (0 < SdkInt.i (coin.Amount tin) → 0 < SdkInt.i (coin.Amount tout) →
   same_pool p p' ∧ shares p' = shares p ∧ valid (PoolLiquidity p') ∧
   ∀ e, holds p' e = holds p e + coin.amt e [tin] - coin.amt e [tout]) →
  sound s' ∧ stored s' id p'.
Proof using AL.
  intros Hs Hst Hu (a & w1 & w2 & Ha & Hw1 & Hw2 & ->)%update_for_swap_Ok Hbooks.
  destruct Hbooks as (Hsame & Hsh & Hv & Hh).
  { apply SendCoins_spec in Hw1 as [Hv1 _]. by apply valid_positive. }
  { apply SendCoins_spec in Hw2 as [Hv2 _]. by apply valid_positive. }
  destruct (stored_sound _ _ _ Hs Hst) as [_ [_ Q2 _ _ _]].
  assert (a = addr.NewPoolAddress id) as -> by (destruct Hsame; congruence).
  apply pay_in in Hw1 as [M1 _]; [|done]. apply pay_out in Hw2 as [M2 _]; [|done].
  pose proof (moves_trans _ _ _ _ _ _ _ _ M1 M2) as M. apply (write_sound s id p p'); [done..|].
  replace (shares p' - shares p) with (0 + 0) by lia. eapply moves_mono; [exact M|]. intros d. rewrite Hh. cbn. lia.
Qed.

Lemma SwapExactAmountIn_sound sender p c d lim fee (s : S) n p' s' id :
  sound s → stored s id p → user sender → SwapExactAmountIn sender p c d lim fee s = Ok ((n, p'), s') →
  sound s' ∧ stored s' id p'.
Proof using L AL PL.
  intros Hs Hst Hu (out & Hout & _ & _ & _ & _ & H)%SwapExactAmountIn_Ok. eapply swap_sound; [done..|].
  intros Hin _. eapply swap_out_books; [|done|done]. by destruct (stored_sound _ _ _ Hs Hst) as [_ []].
Qed.
Lemma SwapExactAmountOut_sound sender p d lim c fee (s : S) n s' id :
  sound s → stored s id p → user sender → SwapExactAmountOut sender p d lim c fee s = Ok (n, s') → sound s'.
Proof using L AL PL.
  intros Hs Hst Hu (tin & p' & Hin & _ & _ & _ & _ & H)%SwapExactAmountOut_Ok. eapply swap_sound; [done..|].
  intros Hp _. eapply swap_in_books; [|done|done]. by destruct (stored_sound _ _ _ Hs Hst) as [_ []].
Qed.

(** Joining and leaving; the validity of the coins comes from the bank. *)
Lemma join_valid p a n c (s : S) u s' : applyJoinPoolStateChange p a n c s = Ok (u, s') → valid c.
Proof.
  unfold applyJoinPoolStateChange. intros H. run_lift H as b Hb. run H as [] s1 (w & Hw & _)%gamm_bank_Ok.
  by apply SendCoins_spec in Hw as [Hv _].
Qed.
Lemma join_sound (s : S) id p p' joiner n c u s' :
  sound s → stored s id p → user joiner → applyJoinPoolStateChange p' joiner n c s = Ok (u, s') →
  same_pool p p' ∧ shares p' = shares p + SdkInt.i n ∧ valid (PoolLiquidity p') ∧
    (∀ e, holds p' e ≤ holds p e + coin.amt e c) →
  sound s'.
Proof using CL AL.
  intros Hs Hst Hu H (Hsame & Hsh & Hv & Hh). destruct (stored_sound _ _ _ Hs Hst) as [H0 [Q1 Q2 _ _ _]].
  assert (GetId p' = id) as Hid by (destruct Hsame; congruence).
  unfold applyJoinPoolStateChange in H. run_lift H as a Ha.
  assert (a = addr.NewPoolAddress id) as -> by (destruct Hsame; congruence).
  run H as [] s1 (w1 & Hw1 & ->)%gamm_bank_Ok. run H as [] s2 Hm.
  apply mint_Ok in Hm as (w2 & -> & M2); [|done|rewrite Hid; lia]. unfold setPool in H. apply st_modify_Ok in H as ->.
  rewrite Hid in M2. apply pay_in in Hw1 as [M1 _]; [|done]. cbn [balances set_balances] in M2.
  pose proof (moves_trans _ _ _ _ _ _ _ _ M1 M2) as M.
  eapply (write_sound s id p p'); [done..|]. rewrite Hsh. replace (shares p + SdkInt.i n - shares p) with (0 + SdkInt.i n) by lia.
  eapply moves_mono; [exact M|]. intros d. specialize (Hh d). cbn. lia.
Qed.
Lemma exit_sound (s : S) id p p' exiter n c u s' :
  sound s → stored s id p → user exiter → applyExitPoolStateChange p' exiter n c s = Ok (u, s') →
  same_pool p p' ∧ shares p' = shares p - SdkInt.i n ∧ valid (PoolLiquidity p') ∧
    (∀ e, holds p' e ≤ holds p e - coin.amt e c) →
  sound s' ∧ stored s' id p'.
Proof using CL AL.
  intros Hs Hst Hu H (Hsame & Hsh & Hv & Hh). destruct (stored_sound _ _ _ Hs Hst) as [H0 [Q1 Q2 _ _ _]].
  assert (GetId p' = id) as Hid by (destruct Hsame; congruence).
  unfold applyExitPoolStateChange in H. run_lift H as a Ha.
  assert (a = addr.NewPoolAddress id) as -> by (destruct Hsame; congruence).
  run H as [] s1 (w1 & Hw1 & ->)%gamm_bank_Ok. run H as [] s2 Hm.
  apply burn_Ok in Hm as (w2 & -> & M2); [|done|rewrite Hid; lia]. unfold setPool in H. apply st_modify_Ok in H as ->.
  rewrite Hid in M2. apply pay_out in Hw1 as [M1 _]; [|done]. cbn [balances set_balances] in M2.
  pose proof (moves_trans _ _ _ _ _ _ _ _ M1 M2) as M.
  eapply (write_sound s id p p'); [done..|].
  rewrite Hsh. replace (shares p - SdkInt.i n - shares p) with (0 + - SdkInt.i n) by lia.
  eapply moves_mono; [exact M|]. intros d. specialize (Hh d). cbn. lia.
Qed.

Lemma stored_valid (s : S) id p : sound s → stored s id p → valid (PoolLiquidity p).
Proof. intros Hs Hst. by destruct (stored_sound _ _ _ Hs Hst) as [_ []]. Qed.

Lemma JoinPoolNoSwap_sound a id n maxs (s : S) r s' :
  sound s → user a → JoinPoolNoSwap a id n maxs s = Ok (r, s') → sound s'.
Proof using CL AL PL.
  intros Hs Hu. unfold JoinPoolNoSwap. intros H%st_recovering_Ok. run H as p s1 [-> Hst]%GetPoolAndPoke_stored.
  run_lift H as need Hneed. run H as [] s1 Hmax. assert (s1 = s) as ->.
  { destruct maxs; [by apply st_ret_Ok in Hmax as [_ ->]|]. by inv_st. }
  run_lift H as [out p'] Hj. run H as [] s1 Ha. run_ret H.
  pose proof (join_valid _ _ _ _ _ _ _ Ha) as Hv. eapply join_sound; [done..|].
  eapply join_books; [by eapply stored_valid|done|by right].
Qed.
Lemma JoinSwapExactAmountIn_sound a id c lim (s : S) r s' :
  sound s → user a → JoinSwapExactAmountIn a id c lim s = Ok (r, s') → sound s'.
Proof using CL AL PL.
  intros Hs Hu. unfold JoinSwapExactAmountIn. intros H%st_recovering_Ok. run H as p s1 [-> Hst]%GetCFMMPool_stored.
  run_lift H as [out p'] Hj. run_require H as _. run_require H as _. run H as [] s1 Ha. run_ret H.
  pose proof (join_valid _ _ _ _ _ _ _ Ha) as Hv. eapply join_sound; [done..|].
  eapply join_books; [by eapply stored_valid|done|by left].
Qed.
Lemma JoinSwapShareAmountOut_sound a id d n lim (s : S) r s' :
  sound s → user a → JoinSwapShareAmountOut a id d n lim s = Ok (r, s') → sound s'.
Proof using CL AL PL.
  intros Hs Hu. unfold JoinSwapShareAmountOut. intros H%st_recovering_Ok. run H as p s1 [-> Hst]%GetCFMMPool_stored.
  destruct (asAmountOut p) as [x|] eqn:Ex; [|done]. run_lift H as amt _. run_require H as _. run_lift H as c _.
  run_lift H as tin _. run_lift H as p' Hp. run H as [] s1 Ha. run_ret H.
  pose proof (join_valid _ _ _ _ _ _ _ Ha) as Hv. eapply join_sound; [done..|].
  eapply extension_join; [done|by eapply stored_valid|done|done].
Qed.
Lemma ExitPool_sound a id n mins (s : S) r s' :
  sound s → user a → ExitPool a id n mins s = Ok (r, s') → sound s'.
Proof using CL AL PL.
  intros Hs Hu. unfold ExitPool. intros H. run H as p s1 [-> Hst]%GetPoolAndPoke_stored.
  run_require H as _. run_require H as _. run_lift H as [out p'] Hx. run_require H as _. run H as [] s1 Ha. run_ret H.
  eapply exit_sound; [done..|].
  destruct (exit_books p n _ out p' (stored_valid _ _ _ Hs Hst) Hx) as (H1 & H2 & H3 & H4). split_and!; [done..|].
  intros e. rewrite H4. lia.
Qed.
Lemma ExitSwapExactAmountOut_sound a id c lim (s : S) r s' :
  sound s → user a → ExitSwapExactAmountOut a id c lim s = Ok (r, s') → sound s'.
Proof using CL AL PL.
  intros Hs Hu. unfold ExitSwapExactAmountOut. intros H. run H as p s1 [-> Hst]%GetCFMMPool_stored.
  destruct (asAmountOut p) as [x|] eqn:Ex; [|done]. run_lift H as [n p'] Hx. run H as [] s1 Ha. run_ret H.
  eapply exit_sound; [done..|]. eapply extension_exit; [done|by eapply stored_valid|done].
Qed.

(** The swaps that follow an exit go on with the pool the swap before left. *)
Lemma exit_swaps_sound a d fee coins acc p (s : S) r s' id :
  sound s → user a → stored s id p →
  fold_each coins (acc, p) (λ '(acc, p) c,
    if String.eqb (coin.Denom c) d then mret (acc, p) else
    '(out, p) ← SwapExactAmountIn a p c d (SdkInt.mk 0) fee;
    acc ← lift (sdk.IntAdd acc out);
    mret (acc, p)) s = Ok (r, s') → sound s'.
Proof using L AL PL.
  intros Hs Hu. revert acc p s Hs. induction coins as [|c coins IH]; intros acc p s Hs Hst; cbn [fold_each].
  { intros H. by run_ret H. }
  intros H. run H as [acc' p'] s1 H1. destruct (String.eqb _ d).
  - apply st_ret_Ok in H1 as [[= -> ->] ->]. by eapply IH.
  - run H1 as [out q] s2 Hw. run_lift H1 as acc2 _. apply st_ret_Ok in H1 as [[= <- <-] <-].
    destruct (SwapExactAmountIn_sound _ _ _ _ _ _ _ _ _ _ _ Hs Hst Hu Hw) as [Hs2 Hst2]. by eapply IH.
Qed.
Lemma ExitSwapShareAmountIn_sound a id d n lim (s : S) r s' :
  sound s → user a → ExitSwapShareAmountIn a id d n lim s = Ok (r, s') → sound s'.
Proof using L CL AL PL.
  intros Hs Hu. unfold ExitSwapShareAmountIn. intros H. run H as out s1 Hx.
  apply ExitPool_sound in Hx; [|done..]. run H as p s2 Hp. unfold GetPool in Hp.
  apply GetPoolAndPoke_stored in Hp as [-> Hst]. run_lift H as acc _. run H as [total q] s2 Hw. run_require H as _.
  run_ret H. by eapply exit_swaps_sound.
Qed.

Lemma stableswap_sound (s : S) id p q q' :
  sound s → stored s id p → asStableswap p = Some q → Stableswap.Id q' = Stableswap.Id q →
  Stableswap.Address q' = Stableswap.Address q → Stableswap.TotalShares q' = Stableswap.TotalShares q →
  Stableswap.PoolLiquidity q' = Stableswap.PoolLiquidity q →
  sound (set_pools (insert (GetId (ofStableswap q')) (ofStableswap q')) s).
Proof using AL PL.
  intros Hs Hst Hq H1 H2 H3 H4. destruct (stableswap_same p q q') as (Hsame & Hsh & Hl); [done..|].
  destruct (write_sound s id p (ofStableswap q') (balances s) Hs Hst Hsame) as [Hr _].
  - rewrite Hl. by eapply stored_valid.
  - split; [intros d; unfold holds; rewrite Hl; lia|done|]. intros id' _. rewrite Hsh. unfold when. case_bool_decide; lia.
  - by destruct s.
Qed.
Lemma getStableswap_Ok id (s : S) q s' :
  getStableswap id s = Ok (q, s') → s' = s ∧ ∃ p, stored s id p ∧ asStableswap p = Some q.
Proof using PL.
  unfold getStableswap. intros H. run H as p s1 [-> Hst]%GetPoolAndPoke_stored.
  destruct (asStableswap p) as [q'|] eqn:Eq; [|done]. run_ret H. split; [done|]. by exists p.
Qed.
Lemma setStableSwapScalingFactors_sound id f sender (s : S) r s' :
  sound s → setStableSwapScalingFactors id f sender s = Ok (r, s') → sound s'.
Proof using AL PL.
  intros Hs. unfold setStableSwapScalingFactors. intros H. run H as q s1 (-> & p & Hst & Hq)%getStableswap_Ok.
  run_lift H as q' Hf. unfold setPool in H. apply st_modify_Ok in H as ->.
  unfold Stableswap.SetScalingFactors in Hf. destruct (negb _); [done|].
  apply bind_Ok in Hf as (l & _ & Hf). apply bind_Ok in Hf as (? & _ & Hf). apply bind_Ok in Hf as (? & _ & [= <-]).
  by eapply stableswap_sound.
Qed.
Lemma setStableSwapScalingFactorController_sound id c (s : S) r s' :
  sound s → setStableSwapScalingFactorController id c s = Ok (r, s') → sound s'.
Proof using AL PL.
  intros Hs. unfold setStableSwapScalingFactorController. intros H.
  run H as q s1 (-> & p & Hst & Hq)%getStableswap_Ok. unfold setPool in H. apply st_modify_Ok in H as ->.
  by eapply stableswap_sound.
Qed.

(** *** A new pool *)

Definition same_books (s s' : S) : Prop := pools s' = pools s ∧ balances s' = balances s.
#[local] Instance same_books_preorder : PreOrder same_books.
Proof. split; [by intros s|]. intros s t u [] []. split; congruence. Qed.
Lemma RecordTotalLiquidityIncrease_keeps c : keeps same_books (RecordTotalLiquidityIncrease c).
Proof. unfold RecordTotalLiquidityIncrease, GetDenomLiquidity, setDenomLiquidity. keeps_tac. apply keeps_modify; [apply _|]. by split. Qed.

Lemma InitializePool_Ok p a (s : S) u s' :
  user a → 0 ≤ GetId p → InitializePool p a s = Ok (u, s') →
  pools s' = <[GetId p := p]> (pools s) ∧ moves (GetId p) (λ _, 0) (shares p) (balances s) (balances s').
Proof using CL AL.
  intros Ha H0. unfold InitializePool. intros H. run_require H as _. run H as [] s1 Hm.
  apply mint_Ok in Hm as (w & -> & [A1 B1 C1]); [|done..].
  run H as [] s2 (w' & [= <-] & ->)%gamm_bank_Ok. run H as [] s3 Hp. unfold setPool in Hp. apply st_modify_Ok in Hp as ->.
  apply RecordTotalLiquidityIncrease_keeps in H as [Hp Hb]. cbn [pools balances set_pools set_balances] in *.
  split; [done|]. rewrite Hb. destruct (Metadata_spec (share_metadata (GetId p)) w) as [Ms Mb].
  split; [intros d; rewrite Mb; apply A1|intros id' d Hne; rewrite Mb; by apply B1|intros id' H1; rewrite Ms; by apply C1].
Qed.
End books.

Section create.
  Context {D : sdk.LegacyDec} {L : sdk.LegacyDecLaws D} {C : coin.CoinOps} {CL : coin.CoinLaws C}
    {PC : pool_coins.PoolCoins} {VL : ValidLaws C PC} {A : addr.Addresses} {Bk : Bank} {BL : BankLaws Bk}
    {AL : AccountLaws BL} {P : Type} {PI : CFMMPoolI P} {PL : CFMMBooks P}.

(** The pool is entered and its shares are issued first, then its coins are paid in. *)
Lemma create_sound next p a (s : state P Balances) u s1 w :
  sound next s → 0 ≤ next → GetId p = next → GetAddress p = Ok (addr.NewPoolAddress next) → user a →
  InitializePool p a s = Ok (u, s1) → SendCoins a (addr.NewPoolAddress next) (PoolLiquidity p) (balances s1) = Ok w →
  sound (next + 1) (set_balances w s1).
Proof using CL AL.
  intros Hs H0 Hid Haddr Ha Hinit Hpay. assert (pools s !! next = None) as Hfresh.
  { destruct (pools s !! next) as [q|] eqn:Eq; [|done]. apply (sound_pools _ s Hs) in Eq as [? _]. lia. }
  apply InitializePool_Ok in Hinit as [Hp M1]; [|done|by rewrite Hid].
  apply pay_in in Hpay as [M2 Hv]; [|done]. rewrite Hid in *.
  destruct (moves_trans _ _ _ _ _ _ _ _ M1 M2) as [A1 B1 C1].
  split; cbn [pools balances set_balances]; rewrite Hp.
  - intros id q Hq. destruct (decide (id = next)) as [->|Hne].
    + rewrite lookup_insert_eq in Hq. injection Hq as <-. split; [lia|]. split; [done..| |].
      * intros d. specialize (A1 d). pose proof (sound_unused _ s Hs next d Hfresh).
        unfold holds. lia.
      * rewrite C1, bool_decide_eq_true_2, (sound_none _ s Hs) by done. cbn. lia.
    + rewrite lookup_insert_ne in Hq by done. apply (sound_pools _ s Hs) in Hq as [H1 [R1 R2 R3 R4 R5]].
      split; [lia|]. split; [done..| |].
      * intros d. specialize (B1 id d Hne). specialize (R4 d). lia.
      * rewrite C1, bool_decide_eq_false_2 by (done || lia). cbn. lia.
  - intros id H1. destruct (decide (id = next)) as [->|Hne]; [by rewrite lookup_insert_eq|].
    rewrite lookup_insert_ne by done. intros Hn. rewrite C1, bool_decide_eq_false_2 by done.
    by rewrite (sound_none _ s Hs).
  - intros id d. destruct (decide (id = next)) as [->|Hne]; [by rewrite lookup_insert_eq|].
    rewrite lookup_insert_ne by done. intros Hn. specialize (B1 id d Hne). pose proof (sound_unused _ s Hs id d Hn). lia.
Qed.
End create.

Section check.
  Context {D : sdk.LegacyDec} {C : coin.CoinOps} {PC : pool_coins.PoolCoins} {A : addr.Addresses} {Bk : Bank}
    {BL : BankLaws Bk} {P : Type} {PI : CFMMPoolI P} {PL : CFMMBooks P}.

(** *** The registered invariant *)

Lemma PoolAccountInvariant_holds next (s : state P Balances) : sound next s → PoolAccountInvariant s = Ok false.
Proof using PL.
  intros Hs. unfold PoolAccountInvariant, GetPoolsAndPoke, mbind, M_bind, gets. cbn [Datatypes.id mret M_ret].
  set (l := _ <$> _). assert (∀ p, p ∈ l → ∃ id, pool_sound (balances s) id p) as Hl.
  { intros p ([id q] & -> & Hq)%list_elem_of_fmap. cbn [snd].
    rewrite merge_sort_Permutation in Hq. apply elem_of_map_to_list in Hq. exists id.
    by destruct (stored_sound next s id (PokePool (now s) q) Hs (stored_poke _ _ _ Hq)). }
  clearbody l. cbn. induction l as [|p l IH]; [done|]. destruct (Hl p ltac:(by left)) as [id [_ Ha Hv Hb _]].
  cbn [anyBroken]. rewrite Ha. cbn [mbind outcome_bind]. rewrite IsAllGTE_spec; [|done|exact Hb].
  apply IH. intros q Hq. apply Hl. by right.
Qed.
End check.
End GammInv.
