(* ===== verification/StableLaws.v ===== *)
(** Stableswap pools keep the contract of a constant function market pool, and a share of one never loses
    value by another's joining or leaving. *)
From stdpp Require Import prelude strings list gmap.
From S2P Require Import Prelude.
From S2P Require Import GoBig.
From S2P Require Import SdkDec.
From S2P Require Import Decimal.
From S2P Require Import SdkCoins.
From S2P Require Import ZSums.
From S2P Require Import GoState.
From S2P Require Import CLPool.
From S2P Require Import BinarySearch.
From S2P Require Import Stableswap.
From S2P Require Import StableswapProps.
From S2P Require Import Gamm.
From S2P Require Import GammModule.
From S2P Require Import GammProps.
From S2P Require Import GammInv.
Local Open Scope Z_scope.

Module StableLaws.
Import Stableswap.
Import GammProps.
#[local] Abbreviation one := Dec.one.
Lemma dec_one_pos : 0 < one.
Proof. done. Qed.

Lemma amt_cons d c l : coin.amt d (c :: l) = (if bool_decide (coin.Denom c = d) then SdkInt.i (coin.Amount c) else 0) + coin.amt d l.
Proof. done. Qed.
Lemma amt_none d l : d ∉ coin.Denom <$> l → coin.amt d l = 0.
Proof.
  induction l as [|c l IH]; [done|]. cbn [fmap list_fmap]. rewrite not_elem_of_cons. intros [Hc Hl].
  rewrite amt_cons, bool_decide_eq_false_2, IH by (done || congruence). done.
Qed.
Lemma mem_skip c l d :
  coin.Denom c ≠ d → bool_decide (d ∈ coin.Denom <$> c :: l) = bool_decide (d ∈ coin.Denom <$> l).
Proof. intros Hc. apply bool_decide_ext. cbn [fmap list_fmap]. rewrite elem_of_cons. split; [by intros [->|?]|by right]. Qed.
Lemma valid_cons c l : valid (c :: l) → 0 < SdkInt.i (coin.Amount c) ∧ (coin.Denom c ∉ coin.Denom <$> l) ∧ valid l.
Proof. intros [[? ?]%NoDup_cons [? ?]%Forall_cons]. done. Qed.

(** A list without repetition that is part of another of its length has all of it. *)
Lemma all_denoms (a b : coin.Coins) d :
  NoDup (coin.Denom <$> a) → NoDup (coin.Denom <$> b) → (∀ e, e ∈ coin.Denom <$> a → e ∈ coin.Denom <$> b) →
  length a = length b → d ∈ coin.Denom <$> b → d ∈ coin.Denom <$> a.
Proof.
  intros Ha Hb Hsub Hlen Hd. assert ((coin.Denom <$> a) ≡ₚ (coin.Denom <$> b)) as ->; [|done].
  apply submseteq_length_Permutation; [by apply NoDup_submseteq|]. by rewrite !length_fmap, Hlen.
Qed.

Section laws.
  Context {D : sdk.LegacyDec} {L : sdk.LegacyDecLaws D} {C : coin.CoinOps} {CL : coin.CoinLaws C}
    {PC : pool_coins.PoolCoins} {PL : pool_coins.PoolCoinsLaws PC} {VL : ValidLaws C PC} {A : addr.Addresses}.
Implicit Types (p q : Pool) (l ins : coin.Coins).

(** *** Joining in proportion *)

(** The ratios of the coins that come in: each is rounded down, and at least the least. *)
Lemma shareRatios_spec pl ins lo hi ratios lo' hi' :
  valid ins → valid pl → cfmm.shareRatios pl ins lo hi = Ok (ratios, lo', hi') →
  Dec.i lo' ≤ Dec.i lo ∧
  Forall2 (λ c r, Dec.i lo' ≤ Dec.i r ∧ Dec.i r * coin.amt (coin.Denom c) pl ≤ SdkInt.i (coin.Amount c) * one) ins ratios ∧
  (0 ≤ Dec.i lo → 0 ≤ Dec.i lo').
Proof using L PL.
  intros Hins Hpl. revert lo hi ratios. induction ins as [|c ins IH]; intros lo hi ratios; cbn [cfmm.shareRatios].
  { intros [= <- <- <-]. split_and!; [done|constructor|done]. }
  apply valid_cons in Hins as (Hc & _ & Hins). pose proof (valid_amt pl (coin.Denom c) Hpl) as H0.
  intros (r & [Hne Hr]%sdk.QuoInt_spec & H)%bind_Ok. rewrite pool_coins.AmountOfNoDenomValidation_spec in Hne, Hr.
  rewrite sdk.ToLegacyDec_spec, Z.quot_div_nonneg in Hr by (pose proof dec_one_pos; nia).
  apply bind_Ok in H as ([[rest lo2] hi2] & Hrest & [= <- <- <-]).
  destruct (IH Hins _ _ _ Hrest) as (H1 & H2 & H3).
  assert (0 ≤ Dec.i r) as Hr0 by (rewrite Hr; pose proof dec_one_pos; apply Z.div_pos; nia).
  assert (Dec.i r * coin.amt (coin.Denom c) pl ≤ SdkInt.i (coin.Amount c) * one) as Hle.
  { rewrite Hr, Z.mul_comm. apply Z.mul_div_le. lia. }
  rewrite sdk.LT_spec in H1, H3. destruct (Z.ltb_spec (Dec.i r) (Dec.i lo)); split_and!; try lia;
    constructor; (done || (split; [lia|done])).
Qed.

(** What is left over of the coins: none of it is negative, and what is used is the least ratio of the pool
    or more. *)
Lemma remaining_spec pl ins ratios lo acc over d :
  valid ins → valid pl → 0 ≤ Dec.i lo →
  Forall2 (λ c r, Dec.i lo ≤ Dec.i r ∧ Dec.i r * coin.amt (coin.Denom c) pl ≤ SdkInt.i (coin.Amount c) * one) ins ratios →
  cfmm.remainingCoins pl ins ratios lo acc = Ok over →
  coin.amt d acc ≤ coin.amt d over ∧
  (if bool_decide (d ∈ coin.Denom <$> ins) then Dec.i lo * coin.amt d pl else 0)
    ≤ one * (coin.amt d ins - (coin.amt d over - coin.amt d acc)).
Proof using L CL PL.
  intros Hins Hpl Hlo HF. revert acc. induction HF as [|c r ins ratios [Hr Hc] HF IH]; intros acc; cbn [cfmm.remainingCoins].
  { intros [= <-]. rewrite bool_decide_eq_false_2 by apply not_elem_of_nil. cbn. lia. }
  apply valid_cons in Hins as (Hpos & Hnot & Hins). specialize (IH Hins).
  pose proof (valid_amt pl (coin.Denom c) Hpl) as H0. rewrite amt_cons. rewrite sdk.Equal_spec.
  assert (Dec.i lo * coin.amt (coin.Denom c) pl ≤ SdkInt.i (coin.Amount c) * one) as Hloc by nia.
  assert (∀ over a, (if bool_decide (d ∈ coin.Denom <$> ins) then Dec.i lo * coin.amt d pl else 0)
    ≤ one * (coin.amt d ins - (coin.amt d over - a)) → coin.Denom c = d →
    coin.amt d over ≤ a ∧ coin.amt d ins = 0) as Hd.
  { intros over' a Hx <-. rewrite bool_decide_eq_false_2 in Hx by done. rewrite (amt_none _ _ Hnot) in *.
    pose proof dec_one_pos. split; [nia|done]. }
  destruct (Z.eqb_spec (Dec.i r) (Dec.i lo)) as [Heq|Hne].
  - intros Hrem. destruct (IH _ Hrem) as [H1 H2]. split; [done|].
    destruct (bool_decide_reflect (coin.Denom c = d)) as [E|E].
    + destruct (Hd _ _ H2 E) as [H3 H4]. rewrite bool_decide_eq_true_2 by (rewrite <- E; by left). rewrite H4.
      subst d. pose proof dec_one_pos. nia.
    + rewrite Z.add_0_l, mem_skip by done. exact H2.
  - intros (x & Hx%sdk.MulInt_spec & H)%bind_Ok. apply bind_Ok in H as (y & (k & Hy & Hk)%sdk.Ceil_spec & H).
    apply bind_Ok in H as (used & Hu%sdk.TruncateInt_spec & H). apply bind_Ok in H as (new & Hnew%sdk.IntSub_spec & H).
    apply bind_Ok in H as (acc' & Hacc & H). rewrite pool_coins.AmountOfNoDenomValidation_spec in Hx.
    rewrite Hy, Z.mul_comm, Z.quot_mul in Hu by done. pose proof dec_one_pos.
    assert (SdkInt.i used ≤ SdkInt.i (coin.Amount c)) as Hle.
    { assert (one * SdkInt.i used < one * (SdkInt.i (coin.Amount c) + 1)) as Hlt by (rewrite Hu; lia). apply Z.mul_lt_mono_pos_l in Hlt; lia. }
    assert (coin.amt d acc' = coin.amt d acc + if bool_decide (coin.Denom c = d) then SdkInt.i new else 0) as Eacc.
    { rewrite sdk.IntIsZero_spec in Hacc. destruct (Z.eqb_spec (SdkInt.i new) 0) as [E|_].
      - injection Hacc as ->. rewrite E. by destruct (bool_decide (coin.Denom c = d)); rewrite Z.add_0_r.
      - apply coin.Add_spec with (d := d) in Hacc. rewrite Hacc, amt_cons. cbn [coin.Denom coin.Amount].
        replace (coin.amt d []) with 0 by done. lia. }
    destruct (IH _ H) as [G1 H2]. rewrite Eacc in *. destruct (bool_decide_reflect (coin.Denom c = d)) as [E|E].
    + destruct (Hd _ _ H2 E) as [H3 H4]. split; [lia|]. rewrite bool_decide_eq_true_2 by (rewrite <- E; by left).
      rewrite H4. subst d. nia.
    + split; [lia|]. rewrite Z.add_0_l, Z.add_0_r, mem_skip in * by done. exact H2.
Qed.

Lemma ratio_join_spec pl total ins n over d :
  valid ins → valid pl → cfmm.MaximalExactRatioJoin pl total ins = Ok (n, over) →
  0 ≤ coin.amt d over ∧
  (0 ≤ SdkInt.i total → d ∈ coin.Denom <$> ins →
   SdkInt.i n * coin.amt d pl ≤ SdkInt.i total * (coin.amt d ins - coin.amt d over)).
Proof using L CL PL VL.
  intros Hins Hpl. unfold cfmm.MaximalExactRatioJoin. intros ([[ratios lo] hi] & Hr & H)%bind_Ok.
  apply shareRatios_spec in Hr as (_ & HF & Hlo); [|done..].
  specialize (Hlo MaxSortable_nonneg). destruct (sdk.Equal lo _); [done|].
  apply bind_Ok in H as (x & Hx%sdk.MulInt_spec & H). apply bind_Ok in H as (n' & Hn%sdk.TruncateInt_spec & H).
  apply bind_Ok in H as (over' & Hover & [= <- <-]). pose proof dec_one_pos as H1.
  assert (0 ≤ coin.amt d over' ∧ (d ∈ coin.Denom <$> ins → Dec.i lo * coin.amt d pl ≤ one * (coin.amt d ins - coin.amt d over')))
    as [Ho Hused].
  { destruct (sdk.Equal lo hi).
    - injection Hover as <-. split; [done|]. replace (coin.amt d []) with 0 by done. rewrite Z.sub_0_r.
      clear - HF Hins Hpl H1. intros Hd. apply list_elem_of_fmap in Hd as (c & -> & Hc).
      rewrite (StableswapProps.amt_unique ins c) by (done || apply Hins). apply list_elem_of_lookup in Hc as [i Hc].
      destruct (Forall2_lookup_l _ _ _ _ _ HF Hc) as (r & _ & Hr1 & Hr2). pose proof (valid_amt pl (coin.Denom c) Hpl). nia.
    - apply remaining_spec with (d := d) in Hover as [Hs Hu]; [|done..].
      replace (coin.amt d []) with 0 in * by done. rewrite Z.sub_0_r in Hu. split; [done|].
      intros Hd. by rewrite bool_decide_eq_true_2 in Hu. }
  split; [done|]. intros Ht Hd. specialize (Hused Hd). pose proof (valid_amt pl d Hpl) as Hp0.
  rewrite Hx, Z.quot_div_nonneg in Hn by (done || by apply Z.mul_nonneg_nonneg).
  pose proof (Z.mul_div_le (Dec.i lo * SdkInt.i total) one H1) as Hle. rewrite <- Hn in Hle.
  apply (Z.mul_le_mono_pos_l _ _ one H1).
  assert (one * SdkInt.i n' * coin.amt d pl ≤ Dec.i lo * SdkInt.i total * coin.amt d pl)
    by (apply Z.mul_le_mono_nonneg_r; done).
  assert (SdkInt.i total * (Dec.i lo * coin.amt d pl) ≤ SdkInt.i total * (one * (coin.amt d ins - coin.amt d over')))
    by (apply Z.mul_le_mono_nonneg_l; done). lia.
Qed.

(** *** The books of each operation *)

Lemma join_update p ins n p' :
  valid (PoolLiquidity p) → valid ins → updatePoolForJoin p ins n = Ok p' →
  same_pool p p' ∧ shares p' = shares p + SdkInt.i n ∧ valid (PoolLiquidity p') ∧
  ∀ e, holds p' e = holds p e + coin.amt e ins.
Proof using L CL VL.
  intros Hp Hi. unfold updatePoolForJoin. intros (l & Hl & H)%bind_Ok. destruct (negb _); [done|].
  apply bind_Ok in H as (m & Hm%sdk.IntAdd_spec & [= <-]). split; [done|]. split; [done|].
  split; [exact (Add_valid _ _ _ Hp Hi Hl)|]. intros e. apply (coin.Add_spec _ _ _ e Hl).
Qed.
Lemma swap_update p ins outs p' :
  valid (PoolLiquidity p) → valid ins → updatePoolLiquidityForSwap p ins outs = Ok p' →
  same_pool p p' ∧ shares p' = shares p ∧ valid (PoolLiquidity p') ∧
  ∀ e, holds p' e = holds p e + coin.amt e ins - coin.amt e outs.
Proof using CL PL VL.
  intros Hp Hi. unfold updatePoolLiquidityForSwap. intros (l & Hl & H)%bind_Ok. apply bind_Ok in H as (l' & Hl' & H).
  destruct (negb _); [done|]. injection H as <-. split; [done|]. split; [done|].
  pose proof (Add_valid _ _ _ Hp Hi Hl) as Hv. split; [by eapply Sub_valid|]. intros e.
  pose proof (pool_coins.Sub_spec _ _ _ e Hl') as E. rewrite (coin.Add_spec _ _ _ e Hl) in E. exact E.
Qed.
Lemma update_same p ins outs p' : updatePoolLiquidityForSwap p ins outs = Ok p' → same_pool p p'.
Proof.
  unfold updatePoolLiquidityForSwap. intros (l & Hl & H)%bind_Ok. apply bind_Ok in H as (l' & Hl' & H).
  destruct (negb _); [done|]. by injection H as <-.
Qed.

Lemma join_no_swap_books p ins fee n p' :
  valid (PoolLiquidity p) → valid ins → JoinPoolNoSwap p ins fee = Ok (n, p') →
  same_pool p p' ∧ shares p' = shares p + SdkInt.i n ∧ valid (PoolLiquidity p') ∧
  (∀ d, holds p' d ≤ holds p d + coin.amt d ins) ∧
  (0 ≤ shares p → ∀ d, SdkInt.i n * holds p d ≤ shares p * (holds p' d - holds p d)).
Proof using L CL PL VL.
  intros Hp Hi. unfold JoinPoolNoSwap. intros ([n' joined] & Hc & H)%bind_Ok. apply bind_Ok in H as (q & Hq & [= <- <-]).
  unfold CalcJoinPoolNoSwapShares in Hc. destruct (_ || _) eqn:Ecount in Hc; [done|].
  apply orb_false_iff in Ecount as [Hlen%negb_false_iff%Nat.eqb_eq Hsub%negb_false_iff].
  apply bind_Ok in Hc as ([n2 over] & Hr & Hc). apply bind_Ok in Hc as (j & Hj & Hc). destruct (pool_coins.IsAnyGT _ _); [done|].
  injection Hc as <- <-. pose proof (Sub_valid _ _ _ Hi Hj) as Hjv.
  destruct (join_update _ _ _ _ Hp Hjv Hq) as (H1 & H2 & H3 & H4). split_and!; [done..| |].
  - intros d. rewrite H4, (pool_coins.Sub_spec _ _ _ d Hj).
    apply (ratio_join_spec _ _ _ _ _ d) in Hr as [Ho _]; [lia|done..].
  - intros Hs d. rewrite H4, (pool_coins.Sub_spec _ _ _ d Hj).
    apply (ratio_join_spec _ _ _ _ _ d) in Hr as [Ho Hv]; [|done..].
    destruct (decide (d ∈ coin.Denom <$> PoolLiquidity p)) as [Hd|Hd].
    + replace (holds p d + (coin.amt d ins - coin.amt d over) - holds p d) with (coin.amt d ins - coin.amt d over) by lia.
      apply Hv; [done|]. apply (all_denoms ins (PoolLiquidity p)); [apply Hi|apply Hp| |exact Hlen|exact Hd].
      intros e. by apply DenomsSubsetOf_spec.
    + replace (holds p d) with 0 by (symmetry; by apply amt_none).
      pose proof (valid_amt _ d Hjv) as Hjd. rewrite (pool_coins.Sub_spec _ _ _ d Hj) in Hjd. nia.
Qed.

Lemma join_books p ins fee n p' :
  valid (PoolLiquidity p) → valid ins → JoinPool p ins fee = Ok (n, p') →
  same_pool p p' ∧ shares p' = shares p + SdkInt.i n ∧ valid (PoolLiquidity p') ∧
  ∀ d, holds p' d ≤ holds p d + coin.amt d ins.
Proof using L CL PL VL.
  intros Hp Hi. unfold JoinPool, joinPoolSharesInternal. intros ([[n' joined] q] & H & [= <- <-])%bind_Ok.
  destruct (negb _); [done|]. apply bind_Ok in H as ([n2 j] & Hj & H). apply bind_Ok in H as (q2 & Hq & H).
  apply bind_Ok in H as ([] & _ & [= <- <- <-]).
  assert (valid j ∧ ∀ d, coin.amt d j ≤ coin.amt d ins) as [Hjv Hjd].
  { assert (∀ n over, cfmm.MaximalExactRatioJoin (PoolLiquidity p) (coin.Amount (TotalShares p)) ins = Ok (n, over) →
      pool_coins.Sub ins over = Ok j → valid j ∧ ∀ d, coin.amt d j ≤ coin.amt d ins) as Hratio.
    { intros n over Hr Hs. split; [by eapply Sub_valid|]. intros d. rewrite (pool_coins.Sub_spec _ _ _ d Hs).
      apply (ratio_join_spec _ _ _ _ _ d) in Hr as [Ho _]; [lia|done..]. }
    assert (∀ x : outcome (SdkInt.t * coin.Coins), x = ('(numShares, over) ←
        cfmm.MaximalExactRatioJoin (PoolLiquidity p) (coin.Amount (TotalShares p)) ins;
        tokensJoined ← pool_coins.Sub ins over; Ok (numShares, tokensJoined)) → x = Ok (n2, j) →
      valid j ∧ ∀ d, coin.amt d j ≤ coin.amt d ins) as Hx.
    { intros x -> H. apply bind_Ok in H as ([m over] & Hr & H). apply bind_Ok in H as (j' & Hs & [= <- <-]). by eapply Hratio. }
    destruct ins as [|c [|c2 ins]].
    - destruct (negb _); [done|]. by eapply Hx.
    - destruct (sdk.IntGT _ _).
      + apply bind_Ok in Hj as (m & _ & [= <- <-]). by split.
      + destruct (negb _); [done|]. by eapply Hx.
    - destruct (negb _); [done|]. by eapply Hx. }
  destruct (join_update _ _ _ _ Hp Hjv Hq) as (H1 & H2 & H3 & H4). split_and!; [done..|].
  intros d. rewrite H4. specialize (Hjd d). lia.
Qed.

(** Leaving takes out no more than the share of each coin, if the fee is not negative. *)
Lemma exit_coins_spec ratio pl out d :
  valid pl → cfmm.exitCoins ratio pl = Ok out →
  (d ∉ coin.Denom <$> pl → d ∉ coin.Denom <$> out) ∧ one * coin.amt d out ≤ Z.max 0 (Dec.i ratio * coin.amt d pl).
Proof using L.
  intros Hpl. revert out. induction pl as [|c pl IH]; intros out; cbn [cfmm.exitCoins].
  { intros [= <-]. split; [done|]. replace (coin.amt d []) with 0 by done. lia. }
  apply valid_cons in Hpl as (Hc & Hnot & Hpl). intros (x & Hx%sdk.MulInt_spec & H)%bind_Ok.
  apply bind_Ok in H as (n & Hn%sdk.TruncateInt_spec & H). cbn [fmap list_fmap]. rewrite amt_cons.
  rewrite sdk.IntLTE_spec, sdk.IntGTE_spec in H. destruct (Z.leb_spec (SdkInt.i n) (SdkInt.i (SdkInt.mk 0))) as [Hle|Hgt]; cbn [SdkInt.i] in *.
  - destruct (IH Hpl _ H) as [H1 H2]. split; [rewrite not_elem_of_cons; tauto|].
    destruct (bool_decide_reflect (coin.Denom c = d)) as [<-|]; [|done].
    rewrite (amt_none _ out) by auto. lia.
  - destruct (_ <=? _); [done|]. apply bind_Ok in H as (rest & Hr & [= <-]).
    destruct (IH Hpl _ Hr) as [H1 H2]. cbn [fmap list_fmap coin.Denom]. split.
    { rewrite !not_elem_of_cons. tauto. }
    rewrite amt_cons. cbn [coin.Denom coin.Amount]. destruct (bool_decide_reflect (coin.Denom c = d)) as [<-|]; [|done].
    rewrite (amt_none _ rest), (amt_none _ pl) by auto. rewrite !Z.add_0_r.
    pose proof dec_one_pos. assert (0 < Dec.i x) as Hx0.
    { destruct (Z_lt_le_dec 0 (Dec.i x)) as [|Hneg]; [done|]. exfalso.
      assert (Z.quot (Dec.i x) one ≤ 0); [|lia]. rewrite <- (Z.opp_involutive (Dec.i x)), Z.quot_opp_l by done.
      assert (0 ≤ Z.quot (- Dec.i x) one) by (apply Z.quot_pos; lia). lia. }
    rewrite Z.quot_div_nonneg in Hn by lia. pose proof (Z.mul_div_le (Dec.i x) one ltac:(done)). rewrite Hn, <- Hx. lia.
Qed.

Lemma exit_books p n fee out p' :
  valid (PoolLiquidity p) → ExitPool p n fee = Ok (out, p') →
  same_pool p p' ∧ shares p' = shares p - SdkInt.i n ∧ valid (PoolLiquidity p') ∧
  (∀ d, holds p' d = holds p d - coin.amt d out) ∧
  (0 < SdkInt.i n → 0 ≤ Dec.i fee ≤ one → ∀ d, coin.amt d out * shares p ≤ SdkInt.i n * holds p d).
Proof using L CL PL VL.
  intros Hp. unfold ExitPool. intros (coins & Hc & H)%bind_Ok. apply bind_Ok in H as (l & Hl & H).
  apply bind_Ok in H as ([] & _ & H). apply bind_Ok in H as (q & Hq & [= <- <-]).
  unfold updatePoolLiquidityForExit in Hq. apply bind_Ok in Hq as (q1 & Hq1 & Hq).
  apply bind_Ok in Hq as (m & Hm%sdk.IntSub_spec & [= <-]).
  assert (valid []) as Hnil by (split; constructor).
  destruct (swap_update _ _ _ _ Hp Hnil Hq1) as (H1 & H2 & H3 & H4). split; [done|].
  split; [by unfold shares in *; cbn in *; rewrite Hm, H2|]. split; [done|]. split.
  { intros d. specialize (H4 d). replace (coin.amt d []) with 0 in H4 by done. rewrite Z.add_0_r in H4. exact H4. }
  intros Hn Hfee d. unfold CalcExitPoolCoinsFromShares, cfmm.CalcExitPool in Hc. rewrite sdk.IntGTE_spec in Hc.
  destruct (Z.leb_spec (SdkInt.i (coin.Amount (TotalShares p))) (SdkInt.i n)) as [|Hlt]; [done|].
  apply bind_Ok in Hc as (refund & Href & Hc). apply bind_Ok in Hc as (ratio & [Hne Hratio]%sdk.QuoInt_spec & Hc).
  pose proof dec_one_pos. assert (0 ≤ Dec.i refund ≤ SdkInt.i n * one) as Hr.
  { destruct (sdk.IsZero fee); cbn [negb] in Href.
    - injection Href as <-. rewrite sdk.ToLegacyDec_spec. nia.
    - apply bind_Ok in Href as (f & Hf%sdk.Sub_spec & Href%sdk.MulInt_spec). cbn [Dec.NewDec Dec.i] in Hf.
      rewrite Href. assert (0 ≤ Dec.i f ≤ one) by lia. nia. }
  rewrite Z.quot_div_nonneg in Hratio by lia. set (T := SdkInt.i (coin.Amount (TotalShares p))) in *.
  assert (0 ≤ Dec.i ratio) as Hr0 by (rewrite Hratio; apply Z.div_pos; lia).
  pose proof (Z.mul_div_le (Dec.i refund) T ltac:(lia)) as Hle. rewrite <- Hratio in Hle.
  pose proof (valid_amt _ d Hp) as Hd. apply (exit_coins_spec _ _ _ d) in Hc as [_ Hc]; [|done].
  rewrite Z.max_r in Hc by nia. unfold shares. change (SdkInt.i (Gamm.GetTotalShares p)) with T.
  change (coin.amt d (PoolLiquidity p)) with (holds p d) in *. apply (Z.mul_le_mono_pos_l _ _ one); [done|].
  assert (one * coin.amt d coins * T ≤ Dec.i ratio * holds p d * T) by (apply Z.mul_le_mono_nonneg_r; lia).
  assert (T * Dec.i ratio * holds p d ≤ SdkInt.i n * one * holds p d) by (apply Z.mul_le_mono_nonneg_r; lia). lia.
Qed.

Lemma calc_out_gives p ins d fee c : CalcOutAmtGivenIn p ins d fee = Ok c → coin.Denom c = d.
Proof using CL.
  unfold CalcOutAmtGivenIn. destruct ins as [|x [|]]; [done| |done]. intros (y & _ & H)%bind_Ok.
  apply bind_Ok in H as (n & _ & H). destruct (negb _); [done|]. by apply coin.NewCoin_spec in H as [-> _].
Qed.
Lemma calc_in_gives p outs d fee c : CalcInAmtGivenOut p outs d fee = Ok c → coin.Denom c = d.
Proof using CL.
  unfold CalcInAmtGivenOut. destruct outs as [|x [|]]; [done| |done]. intros (y & _ & H)%bind_Ok.
  apply bind_Ok in H as (z & _ & H). apply bind_Ok in H as (n & _ & H). destruct (negb _); [done|].
  by apply coin.NewCoin_spec in H as [-> _].
Qed.
Lemma swap_out_Ok p ins d fee out p' :
  SwapOutAmtGivenIn p ins d fee = Ok (out, p') →
  CalcOutAmtGivenIn p ins d fee = Ok out ∧ ∃ outs, coin.NewCoins [out] = Ok outs ∧ updatePoolLiquidityForSwap p ins outs = Ok p'.
Proof.
  unfold SwapOutAmtGivenIn. intros (l & _ & H)%bind_Ok. apply bind_Ok in H as ([] & _ & H).
  apply bind_Ok in H as (c & Hc & H). apply bind_Ok in H as (outs & Ho & H). apply bind_Ok in H as (q & Hq & [= <- <-]).
  split; [done|]. by exists outs.
Qed.
Lemma swap_in_Ok p outs d fee tin p' :
  SwapInAmtGivenOut p outs d fee = Ok (tin, p') →
  CalcInAmtGivenOut p outs d fee = Ok tin ∧ ∃ ins, coin.NewCoins [tin] = Ok ins ∧ updatePoolLiquidityForSwap p ins outs = Ok p'.
Proof.
  unfold SwapInAmtGivenOut. intros (c & Hc & H)%bind_Ok. apply bind_Ok in H as (l & _ & H).
  apply bind_Ok in H as ([] & _ & H). apply bind_Ok in H as (ins & Hi & H). apply bind_Ok in H as (q & Hq & [= <- <-]).
  split; [done|]. by exists ins.
Qed.

#[global] Instance stableswap_laws : CFMMLaws Pool.
Proof using L CL.
  split.
  - intros p ins d fee out p' H. by destruct (swap_out_Ok _ _ _ _ _ _ H).
  - intros p outs d fee tin p' H. by destruct (swap_in_Ok _ _ _ _ _ _ H).
  - exact calc_in_gives.
  - exact calc_out_gives.
  - done.
  - done.
  - intros p p' [(ins & d & fee & out & (_ & o & _ & H)%swap_out_Ok)|(outs & d & fee & tin & (_ & o & _ & H)%swap_in_Ok)];
      by apply update_same in H.
  - done.
Qed.
#[global] Instance stableswap_books : CFMMBooks Pool.
Proof using L CL PL VL.
  split.
  - apply stableswap_laws.
  - intros p c d fee out p' Hp (_ & outs & Ho & Hq)%swap_out_Ok Hc.
    destruct (swap_update _ _ _ _ Hp (valid_single _ Hc) Hq) as (H1 & H2 & H3 & H4). split_and!; [done..|].
    intros e. by rewrite H4, (coin.NewCoins_spec _ _ e Ho).
  - intros p c d fee tin p' Hp (_ & ins & Hi & Hq)%swap_in_Ok Hc.
    assert (valid ins) as Hv.
    { apply NewCoins_single in Hi as [->| ->]; [by apply valid_single|]. split; constructor. }
    destruct (swap_update _ _ _ _ Hp Hv Hq) as (H1 & H2 & H3 & H4). split_and!; [done..|].
    intros e. by rewrite H4, (coin.NewCoins_spec _ _ e Hi).
  - intros p ins fee n p' Hp Hi [H|H]; [exact (join_books _ _ _ _ _ Hp Hi H)|].
    by destruct (join_no_swap_books _ _ _ _ _ Hp Hi H) as (? & ? & ? & ? & _).
  - intros p n fee out p' Hp H. by destruct (exit_books _ _ _ _ _ Hp H) as (? & ? & ? & ? & _).
  - done.
  - done.
  - intros p q q' [= ->] H1 H2 H3 H4. unfold same_pool, shares. cbn. unfold GetAddress. by rewrite H1, H2, H3, H4.
Qed.
End laws.

(** *** Shares *)

Section shares.
  Context {D : sdk.LegacyDec} {L : sdk.LegacyDecLaws D} {C : coin.CoinOps} {CL : coin.CoinLaws C}
    {PC : pool_coins.PoolCoins} {PL : pool_coins.PoolCoinsLaws PC} {VL : ValidLaws C PC} {A : addr.Addresses}
    {Bk : Gamm.Bank} {BL : GammInv.BankLaws Bk}.
Abbreviation S := (Gamm.state Pool Gamm.Balances).

Definition same_pools (s s' : S) : Prop := Gamm.pools s' = Gamm.pools s.
#[local] Instance same_pools_preorder : PreOrder same_pools.
Proof. split; [by intros s|]. intros s t u. unfold same_pools. congruence. Qed.
Lemma on_bank_pools m : keeps same_pools (Gamm.on_bank m).
Proof. by intros s u s' (w & _ & ->)%gamm_bank_Ok. Qed.
#[local] Hint Resolve on_bank_pools : keeps.

Lemma join_writes (p : Pool) a n c (s : S) u s' :
  Gamm.applyJoinPoolStateChange p a n c s = Ok (u, s') → Gamm.pools s' = <[Id p := p]> (Gamm.pools s).
Proof.
  unfold Gamm.applyJoinPoolStateChange, Gamm.setPool. intros H. run_lift H as ad _. run H as [] s1 Hs. run H as [] s2 Hm.
  apply st_modify_Ok in H as ->. cbn. f_equal. assert (keeps same_pools (Gamm.MintPoolShareToAccount p a n)) as HK.
  { unfold Gamm.MintPoolShareToAccount. keeps_tac. }
  apply HK in Hm. apply on_bank_pools in Hs. unfold same_pools in *. congruence.
Qed.
Lemma exit_writes (p : Pool) a n c (s : S) u s' :
  Gamm.applyExitPoolStateChange p a n c s = Ok (u, s') → Gamm.pools s' = <[Id p := p]> (Gamm.pools s).
Proof.
  unfold Gamm.applyExitPoolStateChange, Gamm.setPool. intros H. run_lift H as ad _. run H as [] s1 Hs. run H as [] s2 Hm.
  apply st_modify_Ok in H as ->. cbn. f_equal. assert (keeps same_pools (Gamm.BurnPoolShareFromAccount p a n)) as HK.
  { unfold Gamm.BurnPoolShareFromAccount. keeps_tac. }
  apply HK in Hm. apply on_bank_pools in Hs. unfold same_pools in *. congruence.
Qed.

(** C19.  A share keeps its value.  When someone joins a stableswap pool in proportion, or leaves it, the
    coins of every denomination that stand behind one share do not become fewer, whatever the rounding:
    who joins pays at least the worth of the shares, and who leaves gets at most theirs. *)
Theorem shares_keep_value a id (s s' : S) p :
  Gamm.pools s !! id = Some p → Id p = id → valid (PoolLiquidity p) → 0 ≤ shares p →
  0 ≤ Dec.i (ExitFee (Parameters p)) ≤ one →
  (∃ n maxs r, Gamm.JoinPoolNoSwap a id n maxs s = Ok (r, s')) ∨
  (∃ n mins r, Gamm.ExitPool a id n mins s = Ok (r, s')) →
  ∃ p', Gamm.pools s' !! id = Some p' ∧ ∀ d, holds p d * shares p' ≤ holds p' d * shares p.
Proof using L CL PL VL BL.
  intros Hp Hid Hv Hs Hfee [(n & maxs & r & H)|(n & mins & r & H)].
  - unfold Gamm.JoinPoolNoSwap in H. apply st_recovering_Ok in H. run H as q s1 (-> & q' & Hq & ->)%GetPoolAndPoke_Ok.
    assert (q' = p) as -> by congruence. change (Gamm.PokePool (Gamm.now s) p) with p in *. run_lift H as need _. run H as [] s1 Hmax. assert (s1 = s) as ->.
    { destruct maxs; [by apply st_ret_Ok in Hmax as [_ ->]|]. by inv_st. }
    run_lift H as [out p'] Hj. run H as [] s1 Ha. run_ret H. exists p'.
    pose proof (GammInv.join_valid _ _ _ _ _ _ _ Ha) as Hvn.
    destruct (join_no_swap_books _ _ _ _ _ Hv Hvn Hj) as ([Hi _] & Hsh & _ & _ & Hval).
    apply join_writes in Ha. change (Id p') with (Gamm.GetId p') in Ha. rewrite Ha, Hi. change (Gamm.GetId p) with (Id p).
    rewrite Hid, lookup_insert_eq.
    split; [done|]. intros d. specialize (Hval Hs d). rewrite Hsh. lia.
  - unfold Gamm.ExitPool in H. run H as q s1 (-> & q' & Hq & ->)%GetPoolAndPoke_Ok.
    assert (q' = p) as -> by congruence. change (Gamm.PokePool (Gamm.now s) p) with p in *.
    run_require H as _. run_require H as Hn. run_lift H as [out p'] Hx.
    run_require H as _. run H as [] s1 Ha. run_ret H. exists p'.
    rewrite sdk.IntLTE_spec in Hn. apply negb_true_iff, Z.leb_gt in Hn.
    destruct (exit_books _ _ _ _ _ Hv Hx) as ([Hi _] & Hsh & _ & Hh & Hval).
    apply exit_writes in Ha. change (Id p') with (Gamm.GetId p') in Ha. rewrite Ha, Hi. change (Gamm.GetId p) with (Id p).
    rewrite Hid, lookup_insert_eq.
    split; [done|]. intros d. specialize (Hval Hn Hfee d). rewrite Hsh, Hh. lia.
Qed.
End shares.
End StableLaws.
