(* ===== verification/GammReach.v ===== *)
(** In every state that messages to the pool manager and to gamm, and the calls of other modules into their
    keepers, can reach in any order, the books of the market makers' pools agree with the bank, if each pool
    keeps its own ([CFMMBooks]) and the other pool modules leave these alone ([modest]).  Stableswap pools do
    the first, and the property is stated for them; balancer pools do not. *)
From stdpp Require Import prelude strings list gmap relations.
From S2P Require Import Prelude.
From S2P Require Import GoBig.
From S2P Require Import SdkDec.
From S2P Require Import Decimal.
From S2P Require Import SdkCoins.
From S2P Require Import GoState.
From S2P Require Import CLPool.
From S2P Require Import ArbFilter.
From S2P Require Import PoolManager.
From S2P Require Import PoolRouter.
From S2P Require Import Stableswap.
From S2P Require Import Gamm.
From S2P Require Import GammModule.
From S2P Require Import GammProps.
From S2P Require Import GammInv.
From S2P Require Import StableLaws.
Local Open Scope Z_scope.

Module GammReach.
Import Gamm.
Import GammModule.
Import GammProps.
Import GammInv.

Section reach.
  Context {D : sdk.LegacyDec} {L : sdk.LegacyDecLaws D} {C : coin.CoinOps} {CL : coin.CoinLaws C}
    {PC : pool_coins.PoolCoins} {VL : ValidLaws C PC} {A : addr.Addresses} {Bk : Bank} {BL : BankLaws Bk}
    {AL : AccountLaws BL} {P : Type} {PI : CFMMPoolI P} {PL : CFMMBooks P} {Re : Rest}.
Context (concentrated cosmwasm : PoolManager.PoolModuleI (H := gamm_chain (P := P))).
#[local] Existing Instance gamm_modules.
#[local] Instance the_modules : PoolManager.Modules := gamm_modules concentrated cosmwasm.
Abbreviation S := (PoolManager.state GammWorld).

Record Sound (s : S) : Prop := {
  Sound_gamm : sound (PoolManager.nextPoolId s) (PoolManager.world s);
  Sound_next : 0 ≤ PoolManager.nextPoolId s
}.
Definition safe (s s' : S) : Prop := Sound s → Sound s'.
#[local] Instance safe_preorder : PreOrder safe.
Proof. split; unfold safe; [by intros s|by intros s t u ? ? ?; eauto]. Qed.

(** The other modules leave the books of these pools alone. *)
Record modest (m : PoolManager.PoolModuleI) : Prop := {
  modest_init pool a : user a → keeps safe (PoolManager.InitializePool m pool a);
  modest_in a p c d lim fee : user a → keeps safe (PoolManager.SwapExactAmountIn m a p c d lim fee);
  modest_out a p d lim c fee : user a → keeps safe (PoolManager.SwapExactAmountOut m a p d lim c fee)
}.
Context (Hcl : modest concentrated) (Hcw : modest cosmwasm).

(** A message that creates a pool creates one of its type, new, with the coins it announces. *)
Definition honest (m : PoolManager.CreatePoolMsg) : Prop :=
  ∀ s id pool, PoolManager.CreatePoolFromMsg m s id = Ok pool →
  if (PoolManager.GetPoolType m =? PoolManager.Balancer) || (PoolManager.GetPoolType m =? PoolManager.Stableswap)
  then ∃ p, pool = inl p ∧ GetAddress p = Ok (addr.NewPoolAddress id) ∧ PoolLiquidity p = PoolManager.InitialLiquidity m
  else ∃ p, pool = inr p.

(** *** Whole messages *)

Inductive message :=
| SwapIn (route : list PoolRouter.InRoute) (tokenIn : coin.Coin) (lim : SdkInt.t)
| SwapOut (route : list PoolRouter.OutRoute) (lim : SdkInt.t) (tokenOut : coin.Coin)
| SplitSwapIn (routes : list PoolRouter.SwapAmountInSplitRoute) (denom : string) (lim : SdkInt.t)
| SplitSwapOut (routes : list PoolRouter.SwapAmountOutSplitRoute) (denom : string) (lim : SdkInt.t)
| SetTakerFees (pairs : list PoolManager.DenomPairTakerFee)
| JoinPoolMsg (poolId : Z) (n : SdkInt.t) (maxs : coin.Coins)
| ExitPoolMsg (poolId : Z) (n : SdkInt.t) (mins : coin.Coins)
| JoinWith (poolId : Z) (tokenIn : coin.Coin) (lim : SdkInt.t)
| JoinFor (poolId : Z) (denom : string) (n lim : SdkInt.t)
| ExitFor (poolId : Z) (tokenOut : coin.Coin) (lim : SdkInt.t)
| ExitWith (poolId : Z) (denom : string) (n lim : SdkInt.t)
| AdjustScalingFactors (poolId : Z) (factors : list Z).
Definition handle (sender : string) (m : message) : M S unit :=
  match m with
  | SwapIn route tokenIn lim => _ ← PoolRouter.MsgSwapExactAmountIn sender route tokenIn lim; mret tt
  | SwapOut route lim tokenOut => _ ← PoolRouter.MsgSwapExactAmountOut sender route lim tokenOut; mret tt
  | SplitSwapIn routes denom lim => _ ← PoolRouter.MsgSplitRouteSwapExactAmountIn sender routes denom lim; mret tt
  | SplitSwapOut routes denom lim => _ ← PoolRouter.MsgSplitRouteSwapExactAmountOut sender routes denom lim; mret tt
  | SetTakerFees pairs => PoolManager.MsgSetDenomPairTakerFee sender pairs
  | JoinPoolMsg poolId n maxs => _ ← MsgJoinPool sender poolId n maxs; mret tt
  | ExitPoolMsg poolId n mins => _ ← MsgExitPool sender poolId n mins; mret tt
  | JoinWith poolId tokenIn lim => _ ← MsgJoinSwapExternAmountIn sender poolId tokenIn lim; mret tt
  | JoinFor poolId denom n lim => _ ← MsgJoinSwapShareAmountOut sender poolId denom n lim; mret tt
  | ExitFor poolId tokenOut lim => _ ← MsgExitSwapExternAmountOut sender poolId tokenOut lim; mret tt
  | ExitWith poolId denom n lim => _ ← MsgExitSwapShareAmountIn sender poolId denom n lim; mret tt
  | AdjustScalingFactors poolId factors => MsgStableSwapAdjustScalingFactors sender poolId factors
  end.

(** What can happen: messages of users; new pools; what other modules do through the keepers for accounts
    that are no pools', which are the swaps of taker fees at the end of an epoch (x/txfees), swaps and exits
    (x/superfluid, and migrations of x/gamm) and new concentrated pools (proposals of x/gamm); proposals;
    time; and anything else that does not take from the accounts of pools nor make or burn shares of theirs. *)
Definition set_now t (w : state P Balances) : state P Balances :=
  {| pools := pools w; denomLiquidity := denomLiquidity w; now := t; balances := balances w |}.
Inductive step (s : S) : S → Prop :=
| StepMessage sender m u s' :
    (∀ a, addr.AccAddressFromBech32 sender = Ok a → user a) → handle sender m s = Ok (u, s') → step s s'
| StepCreate m id s' :
    honest m → user (PoolManager.PoolCreator m) → PoolManager.CreatePool m s = Ok (id, s') → step s s'
| StepEpochSwap a id tokenIn denom lim n s' :
    user a → PoolRouter.SwapExactAmountInNoTakerFee a id tokenIn denom lim s = Ok (n, s') → step s s'
| StepKeeperSwap a id tokenIn denom lim r s' :
    user a → PoolRouter.SwapExactAmountIn a id tokenIn denom lim s = Ok (r, s') → step s s'
| StepKeeperExit a id n mins r s' : user a → on_gamm (ExitPool a id n mins) s = Ok (r, s') → step s s'
| StepConcentrated m pool s' :
    honest m → user (PoolManager.PoolCreator m) → PoolManager.CreateConcentratedPoolAsPoolManager m s = Ok (pool, s') →
    step s s'
| StepController id c u s' : HandleSetScalingFactorControllerProposal id c s = Ok (u, s') → step s s'
| StepFees pairs u s' : PoolManager.HandleDenomPairTakerFeeProposal pairs s = Ok (u, s') → step s s'
| StepParams p u s' : PoolManager.SetParams p s = Ok (u, s') → step s s'
| StepTime t : step s (PoolManager.set_world (set_now t (PoolManager.world s)) s)
| StepRest w :
    (∀ id, moves id (λ _, 0) 0 (balances (PoolManager.world s)) w) →
    step s (PoolManager.set_world (set_balances w (PoolManager.world s)) s).

(** *** Each keeps the books *)

Lemma on_gamm_safe {T} (m : M (state P Balances) T) :
  (∀ next w x w', sound next w → m w = Ok (x, w') → sound next w') → keeps safe (on_gamm m).
Proof.
  intros Hm s x s' (w & Hw & ->)%st_zoom_Ok [H1 H2]. split; [|done]. by eapply Hm.
Qed.
Lemma sent_by_safe {T} sender (m : addr.AccAddress → M (state P Balances) T) :
  (∀ a, addr.AccAddressFromBech32 sender = Ok a → user a) →
  (∀ a next w x w', user a → sound next w → m a w = Ok (x, w') → sound next w') → keeps safe (sent_by sender m).
Proof.
  intros Hu Hm s x s' H. unfold sent_by in H. run_lift H as a Ha. eapply on_gamm_safe; [|done].
  intros next w y w'. apply Hm. by apply Hu.
Qed.
Lemma params_safe (f : S → S) :
  (∀ s, PoolManager.world (f s) = PoolManager.world s ∧ PoolManager.nextPoolId (f s) = PoolManager.nextPoolId s) →
  keeps safe (modify f).
Proof. intros Hf. apply keeps_modify; [apply _|]. intros s [H1 H2]. destruct (Hf s) as [E1 E2]. by split; rewrite ?E1, ?E2. Qed.
Lemma query_safe {T} (q : S → outcome T) : keeps safe (PoolManager.query q).
Proof. intros s x s' (y & _ & [= <- <-])%bind_Ok. done. Qed.

(** Payments of users to anyone. *)
Lemma pay_safe a b c : user a → keeps safe (PoolManager.on_world (bank_step (SendCoins a b c))).
Proof using AL.
  intros Ha s x s' (w & Hw & [= <- <-])%bind_Ok [H1 H2]. apply bind_Ok in Hw as (w' & Hw & [= <-]).
  split; [|done]. cbn. apply aside_sound; [done|]. intros id. by eapply pay_aside.
Qed.
Lemma fee_safe a m c : user a → keeps safe (PoolManager.on_world (bank_step (SendCoinsFromAccountToModule a m c))).
Proof using AL.
  intros Ha s x s' (w & Hw & [= <- <-])%bind_Ok [H1 H2]. apply bind_Ok in Hw as (w' & Hw%ToModule_spec & [= <-]).
  split; [|done]. cbn. apply aside_sound; [done|]. intros id. by eapply pay_aside.
Qed.
Lemma chargeTakerFee_safe c d a b : user a → keeps safe (PoolManager.chargeTakerFee c d a b).
Proof using AL. intros Ha. unfold PoolManager.chargeTakerFee. keeps_tac. by apply fee_safe. Qed.

(** *** Swaps *)

Lemma routes_cases t m : PoolManager.routes t = Some m → m = gammModule ∨ m = concentrated ∨ m = cosmwasm.
Proof. unfold PoolManager.routes. repeat case_match; intros [= <-]; auto. Qed.

(** The module's swap, against the pool it found under the id. *)
Lemma found_pool id (s : S) m p s' :
  PoolRouter.GetPoolModuleAndPool id s = Ok ((m, p), s') → s' = s ∧ (m = gammModule ∨ m = concentrated ∨ m = cosmwasm) ∧
  (m = gammModule → ∃ q, p = inl q ∧ stored (PoolManager.world s) id q).
Proof using PL.
  intros (-> & Hp & t & _ & Ht)%PoolRouterProps.module_and_pool_Ok. split; [done|].
  split; [by apply routes_cases in Ht|]. intros ->. apply gamm_lookup in Hp as (q & Hq & ->).
  eexists. split; [done|]. by apply stored_poke.
Qed.
Lemma module_in_safe id (s s1 : S) m p a c d lim fee n s' :
  PoolRouter.GetPoolModuleAndPool id s = Ok ((m, p), s) → pools (PoolManager.world s1) = pools (PoolManager.world s) →
  user a → PoolManager.SwapExactAmountIn m a p c d lim fee s1 = Ok (n, s') → safe s1 s'.
Proof using L AL PL Hcl Hcw.
  intros (_ & Hm & Hst)%found_pool Hp Ha H. destruct Hm as [->|[->| ->]];
    [|by eapply (modest_in _ Hcl)|by eapply (modest_in _ Hcw)].
  destruct (Hst eq_refl) as (q & -> & Hq). intros [H1 H2]. cbn in H. run_lift H as q' [= ->].
  run H as [n' q''] s2 Hz. apply st_ret_Ok in H as [-> ->]. apply st_zoom_Ok in Hz as (w & Hw & ->).
  split; [|done]. eapply SwapExactAmountIn_sound in Hw as [Hw _]; [exact Hw|done| |done].
  destruct Hq as (r & Hr & Hrest). exists r. by rewrite Hp.
Qed.
Lemma module_out_safe id (s : S) m p a d lim c fee n s' :
  PoolRouter.GetPoolModuleAndPool id s = Ok ((m, p), s) →
  user a → PoolManager.SwapExactAmountOut m a p d lim c fee s = Ok (n, s') → safe s s'.
Proof using L AL PL Hcl Hcw.
  intros (_ & Hm & Hst)%found_pool Ha H. destruct Hm as [->|[->| ->]];
    [|by eapply (modest_out _ Hcl)|by eapply (modest_out _ Hcw)].
  destruct (Hst eq_refl) as (q & -> & Hq). intros [H1 H2]. cbn in H. run_lift H as q' [= ->].
  apply st_zoom_Ok in H as (w & Hw & ->). split; [|done]. by eapply SwapExactAmountOut_sound in Hw.
Qed.

Lemma charge_pools c d a b (s : S) r s' :
  PoolManager.chargeTakerFee c d a b s = Ok (r, s') → pools (PoolManager.world s') = pools (PoolManager.world s).
Proof.
  unfold PoolManager.chargeTakerFee. intros H. run_gets H. destruct (existsb _ _); [by run_ret H|].
  run_lift H as [x y] _. run_lift H as coins _. run H as [] s1 Hw. run_ret H.
  unfold PoolManager.on_world in Hw. apply bind_Ok in Hw as (w & Hw & [= <-]). by apply bind_Ok in Hw as (? & _ & [= <-]).
Qed.
Lemma hop_in_safe a id c d lim : user a → keeps safe (PoolRouter.SwapExactAmountIn a id c d lim).
Proof using L AL PL Hcl Hcw.
  intros Ha s x s' H. unfold PoolRouter.SwapExactAmountIn in H. run H as [m p] s1 Hg.
  assert (s1 = s) as -> by (by apply found_pool in Hg as [-> _]). run_gets H. run_require H as _.
  run H as [after fee] s1 Hc. run_gets H. run H as n s2 Hs. run_ret H.
  transitivity s1; [by eapply chargeTakerFee_safe|]. eapply module_in_safe; [exact Hg|by eapply charge_pools|done|done].
Qed.
Lemma trackVolume_safe id c : keeps safe (PoolManager.trackVolume id c).
Proof.
  assert (∀ id c, keeps safe (PoolManager.addVolume id c)) as Hadd.
  { intros. unfold PoolManager.addVolume, PoolManager.GetTotalVolumeForPool, PoolManager.SetVolume. keeps_tac. by apply params_safe. }
  assert (∀ T (m : M S T) f, keeps safe m → (∀ x, keeps safe (f x)) → keeps safe (PoolManager.or_quiet m f)) as Hor.
  { intros T m f Hm Hf s u s'. unfold PoolManager.or_quiet. destruct (m s) as [[x s1]|e|] eqn:E; [|by intros [= _ <-]|done].
    intros H. transitivity s1; [by eapply Hm|by eapply Hf]. }
  unfold PoolManager.trackVolume. apply keeps_bind; [apply _|apply keeps_gets, _|]. intros s.
  apply keeps_bind; [apply _|apply keeps_lift, _|]. intros o. case_match; [done|].
  apply Hor; [apply keeps_lift, _|]. intros i. apply Hor; [|intros q; keeps_tac].
  unfold PoolManager.RouteCalculateSpotPrice, PoolManager.GetPoolModule. keeps_tac. apply query_safe.
Qed.
Lemma untaxed_in_safe a id c d lim : user a → keeps safe (PoolRouter.SwapExactAmountInNoTakerFee a id c d lim).
Proof using L AL PL Hcl Hcw.
  intros Ha s x s' H. unfold PoolRouter.SwapExactAmountInNoTakerFee in H. run H as [m p] s1 Hg.
  assert (s1 = s) as -> by (by apply found_pool in Hg as [-> _]). run_gets H. run_require H as _.
  run H as n s2 Hs. run H as u s3 Ht. run_ret H.
  transitivity s2; [by eapply module_in_safe|by eapply trackVolume_safe].
Qed.
Lemma swapAlong_safe a route c lim n fees : user a → keeps safe (PoolRouter.swapAlong a route c lim n fees).
Proof using L AL PL Hcl Hcw.
  intros Ha. revert c n fees. induction route as [|r route IH]; intros c n fees; cbn [PoolRouter.swapAlong]; [apply keeps_ret; apply _|].
  apply keeps_bind; [apply _|by apply hop_in_safe|]. intros [out fee]. keeps_tac.
Qed.
Lemma RouteExactAmountIn_safe a route c lim : user a → keeps safe (PoolRouter.RouteExactAmountIn a route c lim).
Proof using L AL PL Hcl Hcw. intros Ha. unfold PoolRouter.RouteExactAmountIn. keeps_tac. by apply swapAlong_safe. Qed.
Lemma swapBack_safe a route ins c first fees : user a → keeps safe (PoolRouter.swapBack a route ins c first fees).
Proof using L AL PL Hcl Hcw.
  intros Ha. revert ins first fees. induction route as [|r route IH]; intros ins first fees s x s' H; cbn [PoolRouter.swapBack] in H.
  { by run_ret H. }
  destruct ins as [|i ins]; [done|]. run H as [m p] s1 Hg.
  assert (s1 = s) as -> by (by apply found_pool in Hg as [-> _]). run H as out s1 Hout. assert (s1 = s) as ->.
  { destruct route; [by run_ret Hout|]. destruct ins; [done|]. by apply st_lift_Ok in Hout as [_ ->]. }
  run_gets H. run_require H as _. run H as cur s2 Hs. run_lift H as t _. run H as [af ch] s3 Hc. run_lift H as fs _.
  transitivity s2; [by eapply module_out_safe|]. transitivity s3; [by eapply chargeTakerFee_safe|]. by eapply IH.
Qed.
Lemma RouteExactAmountOut_safe a route lim c : user a → keeps safe (PoolRouter.RouteExactAmountOut a route lim c).
Proof using L AL PL Hcl Hcw.
  intros Ha. unfold PoolRouter.RouteExactAmountOut. apply keeps_bind; [apply _|apply keeps_lift; apply _|].
  intros [] s x s' H%st_recovering_Ok. run H as l s1 Hl. transitivity s1; [by eapply query_safe|].
  destruct l; [by run_ret H|]. by eapply swapBack_safe.
Qed.
#[local] Hint Resolve RouteExactAmountIn_safe RouteExactAmountOut_safe : keeps.
Lemma SplitRouteExactAmountIn_safe a routes d lim : user a → keeps safe (PoolRouter.SplitRouteExactAmountIn a routes d lim).
Proof using L AL PL Hcl Hcw. intros Ha. unfold PoolRouter.SplitRouteExactAmountIn. keeps_tac. Qed.
Lemma SplitRouteExactAmountOut_safe a routes d lim : user a → keeps safe (PoolRouter.SplitRouteExactAmountOut a routes d lim).
Proof using L AL PL Hcl Hcw. intros Ha. unfold PoolRouter.SplitRouteExactAmountOut. keeps_tac. Qed.

(** *** New pools *)

Lemma sound_mono n n' (w : state P Balances) : sound n w → n ≤ n' → sound n' w.
Proof. intros [H1 H2 H3] Hn. split; [|done..]. intros id p Hp. apply H1 in Hp as [? ?]. by split; [lia|]. Qed.

(** Up to the initialization by the pool's module. *)
Lemma create_zero_Ok m (s : S) pool s' :
  PoolManager.createPoolZeroLiquidityNoCreationFee m s = Ok (pool, s') → 0 ≤ PoolManager.nextPoolId s →
  ∃ s0 s1 md, PoolManager.CreatePoolFromMsg m s0 (PoolManager.nextPoolId s) = Ok pool ∧
    PoolManager.GetId pool = PoolManager.nextPoolId s ∧ PoolManager.routes (PoolManager.GetPoolType m) = Some md ∧
    PoolManager.world s1 = PoolManager.world s ∧ PoolManager.nextPoolId s1 = PoolManager.nextPoolId s + 1 ∧
    PoolManager.InitializePool md pool (PoolManager.PoolCreator m) s1 = Ok (tt, s').
Proof.
  unfold PoolManager.createPoolZeroLiquidityNoCreationFee, PoolManager.getNextPoolIdAndIncrement,
    PoolManager.GetNextPoolId, PoolManager.SetNextPoolId, PoolManager.SetPoolRoute.
  intros H H0. run H as [] s1 Hv. apply bind_Ok in Hv as ([] & _ & [= <-]).
  run H as id s2 Hid. run_gets Hid. run Hid as [] s3 ->%st_modify_Ok. apply st_ret_Ok in Hid as [<- <-].
  run_require H as Hmax. apply Z.ltb_lt in Hmax. unfold PoolManager.MaxPoolId in Hmax.
  run H as p s2 Hp. apply bind_Ok in Hp as (p' & Hp & [= -> <-]). run H as [] s3 ->%st_modify_Ok.
  run_lift H as [] Hc. unfold PoolManager.validateCreatedPool in Hc.
  destruct (negb _) eqn:Hid in Hc; [done|]. apply negb_false_iff, Z.eqb_eq in Hid.
  run H as [] s3 Hi. run_lift H as ad _. run H as [] s4 Hm. apply st_ret_Ok in H as [-> ->].
  apply bind_Ok in Hm as (w & [= <-] & [= <-]). destruct (PoolManager.routes _) as [md|] eqn:Er; [|done].
  eexists _, _, md. split; [exact Hp|]. split; [done|]. split; [done|].
  destruct s3. split; [|split; [|exact Hi]]; [done|]. cbn. apply Z.mod_small. split; [by apply Z.le_le_succ_r|by eapply Z.le_lt_trans; [apply Z.le_succ_l, Hmax|]].
Qed.

Lemma CreatePool_safe m : honest m → user (PoolManager.PoolCreator m) → keeps safe (PoolManager.CreatePool m).
Proof using L CL AL PL Hcl Hcw.
  intros Hm Hu s x s' H HS. pose proof HS as [H1 H0]. unfold PoolManager.CreatePool in H.
  destruct (PoolManager.routes (PoolManager.GetPoolType m)) as [md|] eqn:Er; [|done].
  run H as pool s2 Hz. run_lift H as ad Had. run H as [] s3 Hpay. run_ret H.
  apply create_zero_Ok in Hz as (s0 & s1 & md' & Hp & Hid & Er' & Ew & En & Hi); [|done].
  rewrite Er in Er'. injection Er' as <-. apply Hm in Hp.
  assert (Sound s1) as HS1. { split; rewrite ?Ew, En; [eapply sound_mono; [done|lia]|lia]. }
  unfold PoolManager.routes in Er. destruct (_ =? PoolManager.Balancer) eqn:Eb;
    [|destruct (_ =? PoolManager.Stableswap) eqn:Es].
  3:{ eapply pay_safe; [done|exact Hpay|].
      destruct (_ =? PoolManager.Concentrated); [injection Er as <-; by eapply (modest_init _ Hcl)|].
      destruct (_ =? PoolManager.CosmWasm); [injection Er as <-; by eapply (modest_init _ Hcw)|done]. }
  all: injection Er as <-; cbn [orb] in Hp; destruct Hp as (p & -> & Hadr & Hl); cbn in Hid, Had, Hi.
  all: rewrite Hadr in Had; injection Had as <-; run_lift Hi as p' [= <-]; apply st_zoom_Ok in Hi as (w & Hi & ->);
    rewrite Ew in Hi; apply bind_Ok in Hpay as (w2 & Hpay & [= <-]); apply bind_Ok in Hpay as (b & Hpay & [= <-]);
    rewrite <- Hl in Hpay; split; cbn; rewrite ?En; [|lia]; by eapply create_sound.
Qed.

Lemma CreateConcentrated_safe m :
  honest m → user (PoolManager.PoolCreator m) → keeps safe (PoolManager.CreateConcentratedPoolAsPoolManager m).
Proof using L CL AL PL Hcl.
  intros Hm Hu s x s' H HS. pose proof HS as [H1 H0]. unfold PoolManager.CreateConcentratedPoolAsPoolManager in H.
  run_require H as _. run_require H as Ht%Z.eqb_eq.
  apply create_zero_Ok in H as (s0 & s1 & md & Hp & Hid & Er & Ew & En & Hi); [|done]. rewrite Ht in Er. injection Er as <-.
  eapply (modest_init _ Hcl); [exact Hu|exact Hi|]. split; rewrite ?Ew, En; [eapply sound_mono; [done|lia]|lia].
Qed.

(** *** The whole *)

Lemma decoded_safe {T} sender (k : addr.AccAddress → M S T) :
  (∀ a, addr.AccAddressFromBech32 sender = Ok a → user a) → (∀ a, user a → keeps safe (k a)) →
  keeps safe (a ← lift (addr.AccAddressFromBech32 sender); k a).
Proof. intros Hu Hk s x s' H. run_lift H as a Ha. eapply Hk; [by apply Hu|done]. Qed.
Lemma ignored_safe {T} (m : M S T) : keeps safe m → keeps safe (_ ← m; mret tt).
Proof. intros Hm. apply keeps_bind; [apply _|done|]. intros _. apply keeps_ret, _. Qed.
Lemma set_fee_safe a b fee : keeps safe (PoolManager.SetDenomPairTakerFee a b fee).
Proof.
  unfold PoolManager.SetDenomPairTakerFee. apply keeps_bind; [apply _|apply keeps_gets, _|]. intros s.
  case_match; by apply params_safe.
Qed.
#[local] Hint Resolve set_fee_safe : keeps.

Lemma handle_safe sender m :
  (∀ a, addr.AccAddressFromBech32 sender = Ok a → user a) → keeps safe (handle sender m).
Proof using L CL AL PL Hcl Hcw.
  intros Hu. destruct m; cbn [handle]; try apply ignored_safe.
  - apply decoded_safe; [done|]. intros a Ha. by apply RouteExactAmountIn_safe.
  - apply decoded_safe; [done|]. intros a Ha. by apply RouteExactAmountOut_safe.
  - apply decoded_safe; [done|]. intros a Ha. by apply SplitRouteExactAmountIn_safe.
  - apply decoded_safe; [done|]. intros a Ha. by apply SplitRouteExactAmountOut_safe.
  - unfold PoolManager.MsgSetDenomPairTakerFee, PoolManager.SenderValidationSetDenomPairTakerFee, PoolManager.GetParams.
    keeps_tac.
  - unfold MsgJoinPool. apply keeps_bind; [apply _| |intros []; apply keeps_ret, _].
    apply sent_by_safe; [done|]. intros. by eapply JoinPoolNoSwap_sound.
  - apply sent_by_safe; [done|]. intros. by eapply ExitPool_sound.
  - apply sent_by_safe; [done|]. intros. by eapply JoinSwapExactAmountIn_sound.
  - apply sent_by_safe; [done|]. intros. by eapply JoinSwapShareAmountOut_sound.
  - apply sent_by_safe; [done|]. intros. by eapply ExitSwapExactAmountOut_sound.
  - apply sent_by_safe; [done|]. intros. by eapply ExitSwapShareAmountIn_sound.
  - apply on_gamm_safe. intros. by eapply setStableSwapScalingFactors_sound.
Qed.

Lemma step_safe (s s' : S) : step s s' → safe s s'.
Proof using L CL AL PL Hcl Hcw.
  intros [sender m u s1 Hu H|m id s1 Hm Hu H|a id c d lim n s1 Ha H|a id c d lim r s1 Ha H|a id n mins r s1 Ha H
    |m pool s1 Hm Hu H|id c u s1 H|pairs u s1 H|p u s1 H|t|w Hw].
  - by eapply handle_safe.
  - by eapply CreatePool_safe.
  - by eapply untaxed_in_safe.
  - by eapply hop_in_safe.
  - eapply on_gamm_safe, H. intros. by eapply ExitPool_sound.
  - by eapply CreateConcentrated_safe.
  - eapply on_gamm_safe, H. intros. by eapply setStableSwapScalingFactorController_sound.
  - revert s u s1 H. change (keeps safe (PoolManager.HandleDenomPairTakerFeeProposal pairs)).
    unfold PoolManager.HandleDenomPairTakerFeeProposal. keeps_tac.
  - by eapply params_safe in H.
  - intros [[H1 H2 H3] H4]. split; [|done]. by split.
  - intros [H1 H2]. split; [|done]. by apply aside_sound.
Qed.

Lemma steps_safe (s s' : S) : rtc step s s' → safe s s'.
Proof using L CL AL PL Hcl Hcw. induction 1 as [s|s t s' Hst _ IH]; [done|]. transitivity t; [by apply step_safe|done]. Qed.

(** The books of a chain whose pools keep theirs. *)
Lemma books_backed (s0 s : S) :
  pools (PoolManager.world s0) = ∅ → 0 ≤ PoolManager.nextPoolId s0 →
  (∀ id, 0 ≤ id → supply (balances (PoolManager.world s0)) (GetPoolShareDenom id) = 0) →
  (∀ id d, 0 ≤ balance (balances (PoolManager.world s0)) (addr.NewPoolAddress id) d) →
  rtc step s0 s →
  PoolAccountInvariant (PoolManager.world s) = Ok false ∧
  ∀ id p, pools (PoolManager.world s) !! id = Some p →
    GetId p = id ∧ supply (balances (PoolManager.world s)) (GetPoolShareDenom id) = shares p ∧
    ∃ a, GetAddress p = Ok a ∧ ∀ d, holds p d ≤ balance (balances (PoolManager.world s)) a d.
Proof using L CL AL PL Hcl Hcw.
  intros H0 Hn Hs Hb Hr. assert (Sound s) as [HS _].
  { apply (steps_safe _ _ Hr). split; [|done]. split; [|by auto|by auto]. intros id p. by rewrite H0, lookup_empty. }
  split; [by eapply PoolAccountInvariant_holds|]. intros id p Hp. apply (sound_pools _ _ HS) in Hp as [_ [H1 H2 _ H4 H5]].
  split; [done|]. split; [done|]. by exists (addr.NewPoolAddress id).
Qed.
End reach.

Section stableswap.
  Context {D : sdk.LegacyDec} {L : sdk.LegacyDecLaws D} {C : coin.CoinOps} {CL : coin.CoinLaws C}
    {PC : pool_coins.PoolCoins} {PCL : pool_coins.PoolCoinsLaws PC} {VL : ValidLaws C PC} {A : addr.Addresses}
    {Bk : Bank} {BL : BankLaws Bk} {AL : AccountLaws BL} {Re : Rest}.
Context (concentrated cosmwasm : PoolManager.PoolModuleI (H := gamm_chain (P := Stableswap.Pool))).

(** C18.  The stableswap pools are backed.  On a chain whose market makers' pools are all stableswap pools: from a state without
    pools, in whatever order users send messages to the pool manager and to gamm, pools are created by messages that build what they announce,
    taker fees are swapped at the end of epochs, other modules swap and leave pools for accounts that are not pools', proposals
    pass and blocks go by, the account of every pool holds at least the
    coins the pool counts, the shares in circulation are those it counts, and the invariant that the
    module registers for the crisis module never breaks.  Assumed of the concentrated and CosmWasm pool modules is that their
    own initializations and swaps leave these books in order ([modest]). *)
Theorem pools_backed (s0 s : PoolManager.state (GammWorld (P := Stableswap.Pool))) :
  modest concentrated → modest cosmwasm →
  pools (PoolManager.world s0) = ∅ → 0 ≤ PoolManager.nextPoolId s0 →
  (∀ id, 0 ≤ id → supply (balances (PoolManager.world s0)) (GetPoolShareDenom id) = 0) →
  (∀ id d, 0 ≤ balance (balances (PoolManager.world s0)) (addr.NewPoolAddress id) d) →
  rtc (step concentrated cosmwasm) s0 s →
  PoolAccountInvariant (PoolManager.world s) = Ok false ∧
  ∀ id p, pools (PoolManager.world s) !! id = Some p →
    Stableswap.Id p = id ∧ supply (balances (PoolManager.world s)) (GetPoolShareDenom id) = shares p ∧
    ∃ a, GetAddress p = Ok a ∧ ∀ d, holds p d ≤ balance (balances (PoolManager.world s)) a d.
Proof using L CL PCL VL AL. intros Hcl Hcw. exact (books_backed concentrated cosmwasm Hcl Hcw s0 s). Qed.
End stableswap.
End GammReach.
