(* ===== verification/GammDemo.v ===== *)
(** A small chain with stableswap pools: concrete coins, bank, addresses and modules that meet every
    contract, and runs on it that apply the theorems on the pool manager, the router, the estimates and
    the gamm keeper. *)
From stdpp Require Import prelude strings list gmap pretty relations.
From Stdlib Require Import Ascii.
From S2P Require Import Prelude.
From S2P Require Import GoBig.
From S2P Require Import SdkDec.
From S2P Require Import Decimal.
From S2P Require Import KV.
From S2P Require Import SdkCoins.
From S2P Require Import ZSums.
From S2P Require Import GoState.
From S2P Require Import CLPool.
From S2P Require Import ArbFilter.
From S2P Require Import BinarySearch.
From S2P Require Import PoolManager.
From S2P Require Import PoolManagerProps.
From S2P Require Import PoolRouter.
From S2P Require Import PoolEstimate.
From S2P Require Import Stableswap.
From S2P Require Import StableswapProps.
From S2P Require Import Gamm.
From S2P Require Import GammModule.
From S2P Require Import GammProps.
From S2P Require Import GammInv.
From S2P Require Import GammReach.
From S2P Require Import StableLaws.
Local Open Scope Z_scope.

Module GammDemo.
Import GammProps.
Import GammInv.
#[local] Existing Instances sdk.ref_dec sdk.ref_dec_laws coin.ref_coins coin.ref_coins_laws
  StableswapProps.ref_pool_coins StableswapProps.ref_pool_coins_laws.

(** *** Coins *)

Lemma ref_put_denoms d e a l : d ∈ coin.Denom <$> coin.ref_put e a l → d = e ∨ d ∈ coin.Denom <$> l.
Proof.
  induction l as [|x l IH]; cbn [coin.ref_put fmap list_fmap coin.Denom].
  - intros ?%list_elem_of_singleton. by left.
  - destruct (bool_decide_reflect (coin.Denom x = e)); cbn [fmap list_fmap coin.Denom]; rewrite !elem_of_cons.
    + intros [?|?]; [by left|by right; right].
    + intros [?|[?|?]%IH]; auto.
Qed.
Lemma ref_put_nodup e a l : NoDup (coin.Denom <$> l) → NoDup (coin.Denom <$> coin.ref_put e a l).
Proof.
  induction l as [|x l IH]; cbn [coin.ref_put fmap list_fmap coin.Denom]; [intros _; apply NoDup_singleton|].
  intros [Hx Hl]%NoDup_cons. destruct (bool_decide_reflect (coin.Denom x = e)) as [<-|Hne]; cbn [fmap list_fmap coin.Denom].
  - by apply NoDup_cons.
  - apply NoDup_cons. split; [|by apply IH]. intros [?|?]%ref_put_denoms; congruence.
Qed.
Lemma ref_sum_nodup a b : NoDup (coin.Denom <$> a) → NoDup (coin.Denom <$> coin.ref_sum a b).
Proof. intros Ha. induction b as [|x b IH]; [done|]. by apply ref_put_nodup. Qed.
Lemma ref_put_positive e a l :
  0 < a → Forall (λ x, 0 < SdkInt.i (coin.Amount x)) l → Forall (λ x, 0 < SdkInt.i (coin.Amount x)) (coin.ref_put e a l).
Proof.
  intros Ha. induction 1 as [|x l Hx Hl IH]; cbn [coin.ref_put]; [by repeat constructor|].
  case_bool_decide; constructor; cbn [coin.Amount SdkInt.i]; try done; lia.
Qed.
Lemma ref_sum_positive a b :
  Forall (λ x, 0 < SdkInt.i (coin.Amount x)) a → Forall (λ x, 0 < SdkInt.i (coin.Amount x)) b →
  Forall (λ x, 0 < SdkInt.i (coin.Amount x)) (coin.ref_sum a b).
Proof. intros Ha. induction 1 as [|x b Hx Hb IH]; [done|]. by apply ref_put_positive. Qed.
Lemma no_zero_valid l :
  NoDup (coin.Denom <$> l) → Forall (λ x, 0 ≤ SdkInt.i (coin.Amount x)) (coin.no_zero_int l) → valid (coin.no_zero_int l).
Proof.
  intros Hn Hp. split.
  - unfold coin.no_zero_int. eapply sublist_NoDup; [exact Hn|]. apply fmap_sublist, sublist_filter.
  - apply Forall_forall. intros x Hx. rewrite Forall_forall in Hp. specialize (Hp _ Hx).
    apply list_elem_of_filter in Hx as [? _]. lia.
Qed.

#[local] Instance ref_valid_laws : ValidLaws coin.ref_coins StableswapProps.ref_pool_coins.
Proof.
  split.
  - intros [d [n]] l [= <-]. unfold coin.no_zero_int. cbn [coin.ref_sum foldr coin.ref_put coin.Denom coin.Amount SdkInt.i].
    rewrite filter_cons. case_decide; [by left|by right].
  - intros a b r [Ha Ha'] [Hb Hb'] [= <-]. apply no_zero_valid; [by apply ref_sum_nodup|].
    apply Forall_forall. intros x [_ Hx]%list_elem_of_filter. pose proof (ref_sum_positive a b Ha' Hb') as Hp.
    rewrite Forall_forall in Hp. specialize (Hp _ Hx). cbn in Hp. lia.
  - intros a b r [Ha Ha']. cbn. destruct (existsb _ _) eqn:E; [done|]. intros [= <-].
    apply no_zero_valid; [by apply ref_sum_nodup|]. apply Forall_forall. intros x Hx.
    destruct (Z_lt_le_dec (SdkInt.i (coin.Amount x)) 0) as [Hlt|]; [|done]. exfalso.
    enough (existsb (λ x, SdkInt.i (coin.Amount x) <? 0) (coin.no_zero_int (coin.ref_sum a (StableswapProps.ref_neg b))) = true) by congruence.
    apply existsb_exists. exists x. split; [by apply list_elem_of_In|lia].
  - intros a b d. cbn. rewrite forallb_forall. intros Hs (x & -> & Hx)%list_elem_of_fmap.
    apply list_elem_of_In in Hx. apply Hs, existsb_exists in Hx as (y & Hy & E%String.eqb_eq). rewrite E.
    apply list_elem_of_fmap_2. by apply list_elem_of_In.
  - done.
Qed.

(** *** Addresses and bank *)

#[local] Instance demo_addresses : addr.Addresses := {|
  addr.AddressString a := a; addr.AccAddressFromBech32 a := Ok a;
  addr.NewPoolAddress id := ("pool/" +:+ pretty id)%string; addr.NewModuleAddressWithPrefix m _ _ := m |}.

Record bank := { bal : string → coin.Coins; sup : string → Z }.
Definition put_bal (a : string) (c : coin.Coins) (w : bank) : bank :=
  {| bal x := if bool_decide (x = a) then c else bal w x; sup := sup w |}.
Definition minus (a b : coin.Coins) : coin.Coins := coin.no_zero_int (coin.ref_sum a (StableswapProps.ref_neg b)).
Definition plus (a b : coin.Coins) : coin.Coins := coin.no_zero_int (coin.ref_sum a b).
Definition validb (c : coin.Coins) : bool :=
  bool_decide (NoDup (coin.Denom <$> c)) && forallb (λ x, 0 <? SdkInt.i (coin.Amount x)) c.
Definition send (a b : string) (c : coin.Coins) (w : bank) : outcome bank :=
  if validb c && forallb (λ x, coin.amt (coin.Denom x) c <=? coin.amt (coin.Denom x) (bal w a)) c
  then let w := put_bal a (minus (bal w a) c) w in Ok (put_bal b (plus (bal w b) c) w)
  else Err "insufficient funds".
Definition module_account (m : string) : string := ("module/" +:+ m)%string.
Definition supply_by (k : Z) (c : coin.Coins) (f : string → Z) (d : string) : Z := f d + k * coin.amt d c.
#[local] Instance demo_bank : Gamm.Bank := {|
  Gamm.Balances := bank;
  Gamm.SendCoins := send;
  Gamm.SendCoinsFromModuleToAccount m := send (module_account m);
  Gamm.SendCoinsFromAccountToModule a m := send a (module_account m);
  Gamm.MintCoins m c w := let w := put_bal (module_account m) (plus (bal w (module_account m)) c) w in
    Ok {| bal := bal w; sup := supply_by 1 c (sup w) |};
  Gamm.BurnCoins m c w := let w := put_bal (module_account m) (minus (bal w (module_account m)) c) w in
    Ok {| bal := bal w; sup := supply_by (-1) c (sup w) |};
  Gamm.SetDenomMetaData _ w := w;
  Gamm.GetAllBalances w a := bal w a;
  Gamm.IsAllGTE a b := forallb (λ x, SdkInt.i (coin.Amount x) <=? coin.amt (coin.Denom x) a) b
|}.

Lemma minus_amt d a b : coin.amt d (minus a b) = coin.amt d a - coin.amt d b.
Proof. unfold minus. rewrite coin.no_zero_int_amt, coin.ref_sum_amt, StableswapProps.ref_neg_amt. lia. Qed.
Lemma plus_amt d a b : coin.amt d (plus a b) = coin.amt d a + coin.amt d b.
Proof. unfold plus. by rewrite coin.no_zero_int_amt, coin.ref_sum_amt. Qed.
Lemma validb_valid c : validb c = true → valid c.
Proof.
  unfold validb. intros [Hn%bool_decide_eq_true Hp]%andb_true_iff. split; [done|].
  apply Forall_forall. intros x Hx%list_elem_of_In. rewrite forallb_forall in Hp. apply Hp in Hx. lia.
Qed.

#[local] Instance demo_bank_laws : BankLaws demo_bank.
Proof.
  refine {| supply := sup : Gamm.Balances (Bank := demo_bank) → string → Z; moduleAddress := module_account |}.
  - intros a b c w w'. cbn [Gamm.SendCoins demo_bank]. unfold send. destruct (validb c) eqn:Ev; [|done]. destruct (forallb _ c); [|done].
    intros [= <-]. split; [by apply validb_valid|]. split; [done|]. intros x d. unfold balance; cbn [Gamm.GetAllBalances demo_bank bal put_bal sup].
    unfold when. repeat case_bool_decide; subst; try congruence; rewrite ?plus_amt, ?minus_amt; lia.
  - done.
  - done.
  - intros m c w w' [= <-]. split; [intros d; cbn; unfold supply_by; lia|]. intros x d. unfold balance; cbn [Gamm.GetAllBalances demo_bank bal put_bal sup].
    unfold when. repeat case_bool_decide; subst; try congruence; rewrite ?plus_amt; lia.
  - intros m c w w' [= <-]. split; [intros d; cbn; unfold supply_by; lia|]. intros x d. unfold balance; cbn [Gamm.GetAllBalances demo_bank bal put_bal sup].
    unfold when. repeat case_bool_decide; subst; try congruence; rewrite ?minus_amt; lia.
  - done.
  - intros a b Hb Hle. cbn. apply forallb_forall. intros x Hx%list_elem_of_In.
    rewrite <- (StableswapProps.amt_unique b x) by (done || apply Hb). by apply Z.leb_le, Hle.
Defined.
#[local] Instance demo_account_laws : AccountLaws demo_bank_laws.
Proof.
  split.
  - intros id id'. cbn. intros H%(inj (String.append _)). by apply (inj pretty) in H.
  - intros m id. by cbn.
Qed.

(** *** The chain *)

#[local] Instance demo_rest : GammModule.Rest := {|
  GammModule.OtherPool := Empty_set;
  GammModule.OtherId p := match p with end;
  GammModule.OtherAddress p := match p with end;
  GammModule.OtherType p := match p with end;
  GammModule.RestBondDenom := Ok "umaany"%string;
  GammModule.RestPoolForDenomPair _ _ := Err "no pool"%string;
  GammModule.RestModuleAccount := module_account;
  GammModule.RestValidateDenom d := if String.eqb d "" then Err "invalid denom"%string else Ok tt
|}.
#[local] Instance demo_chain : PoolManager.Chain := GammModule.gamm_chain (P := Stableswap.Pool).
(** The other pool modules refuse everything. *)
Definition closed : PoolManager.PoolModuleI := {|
  PoolManager.InitializePool _ _ := throw "closed";
  PoolManager.GetPool _ _ := Err "closed"%string;
  PoolManager.GetPools _ := Ok [];
  PoolManager.GetPoolDenoms _ _ := Err "closed"%string;
  PoolManager.CalculateSpotPrice _ _ _ _ := Err "closed"%string;
  PoolManager.SwapExactAmountIn _ _ _ _ _ _ := throw "closed";
  PoolManager.CalcOutAmtGivenIn _ _ _ _ _ := Err "closed"%string;
  PoolManager.SwapExactAmountOut _ _ _ _ _ _ := throw "closed";
  PoolManager.CalcInAmtGivenOut _ _ _ _ _ := Err "closed"%string;
  PoolManager.GetTotalPoolLiquidity _ _ := Err "closed"%string;
  PoolManager.GetTotalLiquidity _ := Ok []
|}.
#[local] Instance demo_modules : PoolManager.Modules := GammModule.gamm_modules closed closed.
Abbreviation St := (PoolManager.state (GammModule.GammWorld (P := Stableswap.Pool))).

Definition unit_coin := StableswapProps.unit_coin.
Definition purse : coin.Coins := [unit_coin "dai" 10000000; unit_coin "usdc" 10000000; unit_coin "usdt" 10000000].
(** A default taker fee of 1%; "vip" pays none. *)
Definition start : St := {|
  PoolManager.nextPoolId := 1; PoolManager.moduleRoutes := ∅; PoolManager.poolVolumes := ∅;
  PoolManager.takerFees := ∅;
  PoolManager.params := {|
    PoolManager.PoolCreationFee := [];
    PoolManager.FeeParams := {| PoolManager.DefaultTakerFee := Dec.mk (10 ^ 16);
      PoolManager.AdminAddresses := ["admin"]; PoolManager.ReducedFeeWhitelist := ["vip"] |} |};
  PoolManager.world := {| Gamm.pools := ∅; Gamm.denomLiquidity := ∅; Gamm.now := 0;
    Gamm.balances := {| bal a := if bool_decide (a ∈ ["alice"; "bob"; "vip"]) then purse else []; sup _ := 0 |} |}
|}.

Definition after {S T} (m : M S T) (s : S) : S := match m s with Ok (_, s') => s' | _ => s end.
Definition succeeds {S T} (m : M S T) (s : S) : bool := match m s with Ok _ => true | _ => false end.
Lemma after_Ok {S T} (m : M S T) s : succeeds m s = true → ∃ x, m s = Ok (x, after m s).
Proof. unfold succeeds, after. destruct (m s) as [[x s']| |]; [by exists x|done..]. Qed.

Definition new_pool (a b : string) : GammModule.MsgCreateStableswapPool := {|
  GammModule.Sender := "alice";
  GammModule.PoolParams := {| Stableswap.SwapFee := Dec.mk (10 ^ 15); Stableswap.ExitFee := Dec.mk 0 |};
  GammModule.InitialPoolLiquidity := [unit_coin a 1000000; unit_coin b 1000000];
  GammModule.ScalingFactors := []; GammModule.FuturePoolGovernor := ""; GammModule.ScalingFactorController := ""
|}.
Definition value {S T} (m : M S T) (s : S) (d : T) : T := match m s with Ok (x, _) => x | _ => d end.
Lemma value_Ok {S T} (m : M S T) s d x : succeeds m s = true → value m s d = x → m s = Ok (x, after m s).
Proof. unfold succeeds, value, after. by destruct (m s) as [[y s']| |]; intros; subst. Qed.

Abbreviation create a b :=
  (PoolManager.CreatePool (Ch := demo_chain) (Mo := demo_modules)
    (GammModule.create_pool_msg "alice"%string (new_pool a%string b%string))).
Abbreviation bob m := (GammReach.handle closed closed "bob"%string m).
Definition hop_in (id : Z) (d : string) : PoolRouter.InRoute := {| ArbFilter.InPoolId := id; ArbFilter.RouteTokenOutDenom := d |}.
Definition hop_out (id : Z) (d : string) : PoolRouter.OutRoute := {| ArbFilter.OutPoolId := id; ArbFilter.RouteTokenInDenom := d |}.
Definition swap_msg : GammReach.message := GammReach.SwapIn [hop_in 1 "usdt"; hop_in 2 "dai"] (unit_coin "usdc" 1000) (SdkInt.mk 1).
Definition join_msg : GammReach.message := GammReach.JoinPoolMsg 1 (SdkInt.mk (10 ^ 18)) [].
Definition exit_msg : GammReach.message := GammReach.ExitPoolMsg 1 (SdkInt.mk (5 * 10 ^ 17)) [].
Definition one_pool : St := after (create "usdc" "usdt") start.
Definition two_pools : St := after (create "dai" "usdt") one_pool.
Definition swapped : St := after (bob swap_msg) two_pools.
Definition joined : St := after (bob join_msg) swapped.
Definition left : St := after (bob exit_msg) joined.
Lemma run_succeeds :
  succeeds (create "usdc" "usdt") start = true ∧ succeeds (create "dai" "usdt") one_pool = true ∧
  succeeds (bob swap_msg) two_pools = true ∧ succeeds (bob join_msg) swapped = true ∧
  succeeds (bob exit_msg) joined = true.
Proof. split_and!; by vm_compute. Qed.

(** *** The pool manager's theorems on it *)

Lemma plain_denom d : bool_decide (Forall (λ c, c ≠ "|"%char) (KV.text d)) = true → KV.valid_denom d.
Proof. by intros H%bool_decide_eq_true. Qed.

Abbreviation set_fee := (PoolManager.SetDenomPairTakerFee (Ch := demo_chain) "usdc" "usdt" (Dec.mk (2 * 10 ^ 16))).

(** 2% for usdc to usdt, in that order only. *)
Lemma pair_fee_read_back_witness :
  let s := after set_fee start in
  Dec.i (PoolManager.GetTradingPairTakerFee s "usdc" "usdt") = 2 * 10 ^ 16 ∧
  Dec.i (PoolManager.GetTradingPairTakerFee s "usdt" "usdc") = 10 ^ 16.
Proof.
  cbv zeta. destruct (after_Ok set_fee start) as [[] H];
    [by vm_compute|].
  split.
  - rewrite (PoolManagerProps.pair_fee_read_back (L := sdk.ref_dec_laws) (Ch := demo_chain) "usdc" "usdt" (Dec.mk (2 * 10 ^ 16)) start _ "usdc" "usdt");
      [done|by apply plain_denom..|exact H].
  - rewrite (PoolManagerProps.pair_fee_read_back (L := sdk.ref_dec_laws) (Ch := demo_chain) "usdc" "usdt" (Dec.mk (2 * 10 ^ 16)) start _ "usdt" "usdc");
      [by vm_compute|by apply plain_denom..|exact H].
Defined.

Lemma zoom_grows {T} (m : M GammModule.GammWorld T) : keeps PoolManagerProps.grows (GammModule.on_gamm m).
Proof. intros s x s' (w & _ & ->)%st_zoom_Ok. by split_and!. Qed.
Lemma init_grows t md pool a :
  PoolManager.routes t = Some md → keeps PoolManagerProps.grows (PoolManager.InitializePool md pool a).
Proof.
  intros [->|[->| ->]]%GammReach.routes_cases; [|done..]. intros s u s' H. cbn in H. run_lift H as p _. by apply zoom_grows in H.
Qed.
Lemma first_created : create "usdc" "usdt" start = Ok (1, one_pool).
Proof. apply (value_Ok (create "usdc" "usdt") start 0); by vm_compute. Qed.
Lemma second_created : create "dai" "usdt" one_pool = Ok (2, two_pools).
Proof. apply (value_Ok (create "dai" "usdt") one_pool 0); by vm_compute. Qed.
Lemma pool_ids_fresh_witness :
  PoolManager.moduleRoutes one_pool !! 1 = Some PoolManager.Stableswap ∧
  PoolManager.moduleRoutes one_pool !! 2 = None ∧ PoolManager.moduleRoutes two_pools !! 2 = Some PoolManager.Stableswap.
Proof.
  destruct (PoolManagerProps.pool_ids_fresh (Ch := demo_chain) (Mo := demo_modules)
    (GammModule.create_pool_msg "alice"%string (new_pool "usdc" "usdt")) start 1 one_pool)
    as (_ & _ & H1 & _ & _ & Hu); [exact init_grows|done|done|exact first_created|].
  destruct (PoolManagerProps.pool_ids_fresh (Ch := demo_chain) (Mo := demo_modules)
    (GammModule.create_pool_msg "alice"%string (new_pool "dai" "usdt")) one_pool 2 two_pools)
    as (_ & H2 & H3 & _); [exact init_grows|exact Hu|by vm_compute|exact second_created|].
  split; [exact H1|]. split; [exact H2|exact H3].
Defined.

(** *** Routes *)

Lemma closed_lawful : PoolRouterProps.Lawful closed.
Proof. split; done. Qed.
Definition filed_well (s : St) (ids : list Z) : bool :=
  forallb (λ id, match Gamm.pools (PoolManager.world s) !! id with
                 | Some p => Stableswap.Id p =? id | None => true end) ids.
Lemma demo_lawful (s : St) ids : filed_well s ids = true → PoolRouterProps.lawful_pools s ids.
Proof.
  intros Hf id Hid. split.
  - intros p Hp. unfold filed_well in Hf. rewrite forallb_forall in Hf. apply list_elem_of_In, Hf in Hid.
    by rewrite Hp, Z.eqb_eq in Hid.
  - intros t m _ [->|[->| ->]]%GammReach.routes_cases; [apply gamm_lawful|apply closed_lawful..].
Qed.
Definition route_in : list PoolRouter.InRoute := [hop_in 1 "usdt"; hop_in 2 "dai"].
Definition route_out : list PoolRouter.OutRoute := [hop_out 1 "usdc"; hop_out 2 "usdt"].
(** 1000 usdc buy 978 dai, as estimated. *)
Lemma estimate_is_swap_in_witness :
  let m := PoolRouter.RouteExactAmountIn "bob"%string route_in (unit_coin "usdc" 1000) (SdkInt.mk 970) in
  m two_pools = Ok (SdkInt.mk 978, after m two_pools) ∧ 970 ≤ 978 ∧
  ∀ n, PoolRouter.MultihopEstimateOutGivenExactAmountIn two_pools route_in (unit_coin "usdc" 1000) = Ok n → n = SdkInt.mk 978.
Proof.
  cbv zeta. pose (m := PoolRouter.RouteExactAmountIn "bob"%string route_in (unit_coin "usdc" 1000) (SdkInt.mk 970)).
  assert (m two_pools = Ok (SdkInt.mk 978, after m two_pools)) as Hm.
  { apply (value_Ok m two_pools (SdkInt.mk 0)); by vm_compute. }
  split; [exact Hm|].
  destruct (PoolRouterProps.estimate_is_swap_in (Ch := demo_chain) (Mo := demo_modules) "bob"%string route_in (unit_coin "usdc" 1000) (SdkInt.mk 970) two_pools
    (SdkInt.mk 978) (after m two_pools)) as [Hlim Hest].
  - apply demo_lawful. by vm_compute.
  - apply (bool_decide_unpack (NoDup (PoolRouter.PoolIdIn <$> route_in))). by vm_compute.
  - exact Hm.
  - split; [exact Hlim|exact Hest].
Defined.

(** 1000 dai cost 1026 usdc, as estimated, even to one who set a limit of 1020. *)
Abbreviation buy_dai :=
  (PoolRouter.RouteExactAmountOut (Ch := demo_chain) (Mo := demo_modules) "bob"%string route_out (SdkInt.mk 1020)
    (unit_coin "dai" 1000)).
Lemma buy_dai_Ok : buy_dai two_pools = Ok (SdkInt.mk 1026, after buy_dai two_pools).
Proof. apply (value_Ok buy_dai two_pools (SdkInt.mk 0)); by vm_compute. Qed.
Lemma estimate_is_swap_out_witness :
  PoolRouter.MultihopEstimateInGivenExactAmountOut two_pools route_out (unit_coin "dai" 1000) = Ok (SdkInt.mk 1026).
Proof.
  apply (PoolRouterProps.estimate_is_swap_out (Ch := demo_chain) (Mo := demo_modules) "bob"%string route_out (unit_coin "dai" 1000) (SdkInt.mk 1020) two_pools
    (SdkInt.mk 1026) (after buy_dai two_pools)).
  - apply demo_lawful. by vm_compute.
  - by vm_compute.
  - exact buy_dai_Ok.
Defined.
Lemma exact_out_limit_witness :
  ∃ cur, cur ≤ 1020 ∧ 1026 = PoolManagerProps.gross (Dec.mk (10 ^ 16)) cur ∧ 1020 < 1026.
Proof.
  destruct (PoolRouterProps.exact_out_limit (Ch := demo_chain) (Mo := demo_modules) (L := sdk.ref_dec_laws) "bob"%string (hop_out 1 "usdc") [hop_out 2 "usdt"]
    (unit_coin "dai" 1000) (SdkInt.mk 1020) two_pools (SdkInt.mk 1026) (after buy_dai two_pools)) as (cur & Hcur & Hm).
  - apply demo_lawful. by vm_compute.
  - split; by vm_compute.
  - exact buy_dai_Ok.
  - exists (SdkInt.i cur). split; [exact Hcur|]. split; [|done]. exact Hm.
Defined.

(** *** Estimates *)

#[local] Instance demo_errors : PoolEstimate.Errors := {|
  PoolEstimate.IsInvalidMathApprox e := String.eqb e "ErrInvalidMathApprox"; PoolEstimate.MentionsPanic _ := false |}.
(** Not more than 1% from the spot price. *)
Definition ask (n : Z) : PoolEstimate.Request := {|
  PoolEstimate.FromCoin := unit_coin "usdc" n; PoolEstimate.ToCoinDenom := "usdt"; PoolEstimate.PoolId := 1;
  PoolEstimate.MaxPriceImpact := Dec.mk (10 ^ 16); PoolEstimate.ExternalPrice := Dec.mk 0 |}.
Lemma estimate_ends_witness : PoolEstimate.EstimateTradeBasedOnPriceImpact 19 one_pool (ask 400000) ≠ Ok None.
Proof. apply (PoolEstimateProps.estimate_ends (Ch := demo_chain) (Mo := demo_modules) (L := sdk.ref_dec_laws)). by vm_compute. Defined.

(** The search from 400000 ends with 272517, which it had found too large. *)
Definition pool_one : PoolManager.PoolI :=
  match Gamm.pools (PoolManager.world one_pool) !! 1 with Some p => inl p | None => inl (StableswapProps.demo_pool 1 1) end.
Definition attempt : coin.Coin → outcome PoolEstimate.trial :=
  PoolEstimate.tryStableSwap one_pool (ask 400000) (Dec.NewDec 1) (Dec.mk (10 ^ 16)) GammModule.gammModule pool_one.
Definition answer : PoolEstimate.Response :=
  {| PoolEstimate.InputCoin := unit_coin "usdc" 272517; PoolEstimate.OutputCoin := unit_coin "usdt" 269557 |}.
Lemma estimate_at_border_witness :
  attempt (unit_coin "usdc" 272517) = Ok PoolEstimate.TryLess ∧
  ∃ n, 1 ≤ n ∧ PoolEstimateProps.says attempt "usdc" n PoolEstimate.TryMore ∧
    PoolEstimateProps.says attempt "usdc" (n + 1) PoolEstimate.TryLess ∧ 272517 ∈ [n; n + 1].
Proof.
  split; [by vm_compute|].
  destruct (PoolEstimateProps.estimate_at_border (Ch := demo_chain) (L := sdk.ref_dec_laws) one_pool (ask 400000) GammModule.gammModule
    pool_one 19 attempt answer) as [H|(n & H1 & H2 & H3 & H4 & _)].
  - done.
  - done.
  - by vm_compute.
  - by vm_compute.
  - discriminate H.
  - by exists n.
Defined.

(** *** The gamm keeper's theorems on it *)

Lemma create_honest creator msg : GammReach.honest (GammModule.create_pool_msg creator msg).
Proof.
  intros s id pool. cbn. intros (p & Hp & [= <-])%bind_Ok. exists p. split; [done|].
  unfold GammModule.CreatePool, Stableswap.NewStableswapPool in Hp. repeat (apply bind_Ok in Hp as (? & _ & Hp)).
  by injection Hp as <-.
Qed.
Lemma closed_modest : GammReach.modest closed.
Proof. by split. Qed.
Lemma plain_user a : bool_decide (a ∈ ["alice"; "bob"; "vip"]%string) = true → user a.
Proof.
  intros Ha%bool_decide_eq_true id. cbn.
  repeat (apply elem_of_cons in Ha as [->|Ha]; [by cbn|]). by apply elem_of_nil in Ha.
Qed.
Lemma create_step a b s : succeeds (create a b) s = true → GammReach.step closed closed s (after (create a b) s).
Proof.
  intros [i Hi]%after_Ok.
  refine (GammReach.StepCreate closed closed s (GammModule.create_pool_msg "alice"%string (new_pool a b)) i _ _ _ Hi).
  { apply create_honest. }
  apply (plain_user "alice"). by vm_compute.
Qed.
Lemma bob_step m s :
  succeeds (bob m) s = true →
  GammReach.step closed closed s (after (bob m) s).
Proof.
  intros [i Hi]%after_Ok. refine (GammReach.StepMessage closed closed s "bob" m i _ _ Hi).
  intros a [= <-]. apply plain_user. by vm_compute.
Qed.
Lemma market_steps : rtc (GammReach.step closed closed) start left.
Proof.
  pose proof run_succeeds as H. unfold left, joined, swapped, two_pools, one_pool in *.
  destruct H as (H1 & H2 & H3 & H4 & H5).
  exact (rtc_l _ _ _ _ (create_step _ _ _ H1) (rtc_l _ _ _ _ (create_step _ _ _ H2) (rtc_l _ _ _ _ (bob_step _ _ H3)
    (rtc_l _ _ _ _ (bob_step _ _ H4) (rtc_once _ _ (bob_step _ _ H5)))))).
Qed.
Lemma pools_backed_witness : Gamm.PoolAccountInvariant (PoolManager.world left) = Ok false.
Proof.
  destruct (GammReach.pools_backed closed closed start left closed_modest closed_modest) as [H _].
  - done.
  - done.
  - done.
  - intros id d. change (0 ≤ coin.amt d (if bool_decide (addr.NewPoolAddress id ∈ ["alice"; "bob"; "vip"]) then purse else [])).
    case_bool_decide; [|done]. apply valid_amt, validb_valid. by vm_compute.
  - exact market_steps.
  - exact H.
Defined.

(** Joining the first pool after the swap. *)
Definition gamm_of (s : St) : Gamm.state Stableswap.Pool bank := PoolManager.world s.
Definition first_pool (s : St) : Stableswap.Pool :=
  match Gamm.pools (gamm_of s) !! 1 with Some p => p | None => StableswapProps.demo_pool 1 1 end.
Definition join_alone : M (Gamm.state Stableswap.Pool bank) (coin.Coins * SdkInt.t) :=
  Gamm.JoinPoolNoSwap "bob"%string 1 (SdkInt.mk (10 ^ 18)) [].
Definition joined_alone : Gamm.state Stableswap.Pool bank := after join_alone (gamm_of swapped).
Lemma shares_keep_value_witness :
  holds (first_pool swapped) "usdc" = 1000990 ∧ shares (first_pool swapped) = 100 * 10 ^ 18 ∧
  ∃ p', Gamm.pools joined_alone !! 1 = Some p' ∧
    ∀ d, holds (first_pool swapped) d * shares p' ≤ holds p' d * shares (first_pool swapped).
Proof.
  split; [by vm_compute|]. split; [by vm_compute|].
  destruct (after_Ok join_alone (gamm_of swapped) ltac:(by vm_compute)) as [r Hr].
  apply (StableLaws.shares_keep_value (Bk := demo_bank) "bob"%string 1 (gamm_of swapped) joined_alone (first_pool swapped)).
  - by vm_compute.
  - by vm_compute.
  - apply validb_valid. by vm_compute.
  - by vm_compute.
  - split; by vm_compute.
  - left. by exists (SdkInt.mk (10 ^ 18)), [], r.
Defined.
End GammDemo.
