(* ===== verification/JSBase.v ===== *)
(** What the bundled JavaScript (docs/static) uses of the language: strings as sequences of UTF-16 code
    units, the bit operations on 32-bit integers, and regular expressions without captures. *)
From stdpp Require Import prelude strings list.
From S2P Require Import Prelude.
Local Open Scope Z_scope.

Module JS.
(** *** Strings *)

Abbreviation str := (list Z).
Definition of_string (s : string) : str :=
  (λ a, Z.of_N (Ascii.N_of_ascii a)) <$> String.list_ascii_of_string s.

(** [s.charCodeAt(i)]: [None] is [NaN]. *)
Definition charCodeAt (s : str) (i : Z) : option Z := if i <? 0 then None else s !! Z.to_nat i.
(** [s.indexOf(c)] for a one-unit [c]. *)
Fixpoint indexOf (s : str) (c : Z) : Z :=
  match s with
  | [] => -1
  | x :: s => if x =? c then 0 else let k := indexOf s c in if k =? -1 then -1 else k + 1
  end.
(** [s.replace(/[class]/g, r)]. *)
Definition replaceAll (class : Z → bool) (r : str) (s : str) : str :=
  s ≫= λ c, if class c then r else [c].

Definition len {A} (l : list A) : Z := Z.of_nat (length l).

Lemma charCodeAt_app (pre : list Z) (s : list Z) j :
  0 ≤ j → charCodeAt (pre ++ s) (len pre + j) = charCodeAt s j.
Proof.
  intros Hj. unfold charCodeAt, len. rewrite !(proj2 (Z.ltb_ge _ _)) by lia.
  rewrite lookup_app_r by lia. f_equal. lia.
Qed.
Lemma charCodeAt_app_0 (pre s : list Z) : charCodeAt (pre ++ s) (len pre) = charCodeAt s 0.
Proof. rewrite <- (Z.add_0_r (len pre)). by apply charCodeAt_app. Qed.

Lemma len_nonneg {A} (l : list A) : 0 ≤ len l.
Proof. unfold len. lia. Qed.
Lemma len_app {A} (l m : list A) : len (l ++ m) = len l + len m.
Proof. unfold len. rewrite length_app. lia. Qed.
Lemma len_cons {A} (x : A) l : len (x :: l) = 1 + len l.
Proof. unfold len. cbn [length]. lia. Qed.
Lemma len_nil {A} : len (@nil A) = 0.
Proof. done. Qed.

(** The white space and line terminators [trim] removes. *)
Definition is_space (c : Z) : bool :=
  ((9 <=? c) && (c <=? 13)) || (c =? 32) || (c =? 160) || (c =? 5760) ||
  ((8192 <=? c) && (c <=? 8202)) || (c =? 8232) || (c =? 8233) || (c =? 8239) || (c =? 8287) ||
  (c =? 12288) || (c =? 65279).
Fixpoint trimStart (s : str) : str :=
  match s with [] => [] | c :: s' => if is_space c then trimStart s' else s end.
Definition trim (s : str) : str := rev (trimStart (rev (trimStart s))).

(** *** 32-bit integers *)

Definition int32 (x : Z) : Z := (x + 2 ^ 31) mod 2 ^ 32 - 2 ^ 31.
Definition shl (a n : Z) : Z := int32 (Z.shiftl (int32 a) n).
Definition shr (a n : Z) : Z := Z.shiftr (int32 a) n.
Definition band (a b : Z) : Z := Z.land (int32 a) (int32 b).
Definition bor (a b : Z) : Z := Z.lor (int32 a) (int32 b).

Lemma int32_id x : - 2 ^ 31 ≤ x < 2 ^ 31 → int32 x = x.
Proof. intros. unfold int32. rewrite Z.mod_small by lia. lia. Qed.
Lemma shl_small a n : 0 ≤ n → 0 ≤ a → a * 2 ^ n < 2 ^ 31 → shl a n = a * 2 ^ n.
Proof.
  intros Hn Ha Hb. assert (1 ≤ 2 ^ n) by (pose proof (Z.pow_pos_nonneg 2 n); lia).
  unfold shl. rewrite (int32_id a) by nia. rewrite Z.shiftl_mul_pow2 by done. apply int32_id. nia.
Qed.
Lemma shr_small a n : 0 ≤ n → 0 ≤ a < 2 ^ 31 → shr a n = a / 2 ^ n.
Proof. intros Hn Ha. unfold shr. rewrite int32_id by lia. by apply Z.shiftr_div_pow2. Qed.
Lemma band_mask a n : 0 ≤ a < 2 ^ 31 → 0 ≤ n < 31 → band a (2 ^ n - 1) = a mod 2 ^ n.
Proof.
  intros Ha Hn. assert (2 ^ n < 2 ^ 31) by (apply Z.pow_lt_mono_r; lia).
  assert (0 < 2 ^ n) by (apply Z.pow_pos_nonneg; lia).
  unfold band. rewrite !int32_id by lia. rewrite <- Z.land_ones by lia. f_equal.
  rewrite Z.ones_equiv. lia.
Qed.

Lemma land_disjoint a b n : 0 ≤ n → 0 ≤ b < 2 ^ n → Z.land (Z.shiftl a n) b = 0.
Proof.
  intros Hn Hb. apply Z.bits_inj'. intros k Hk. rewrite Z.land_spec, Z.bits_0.
  destruct (Z.lt_ge_cases k n) as [Hlt|Hge].
  - by rewrite Z.shiftl_spec_low.
  - rewrite <- (Z.mod_small b (2 ^ n)) by done. by rewrite Z.mod_pow2_bits_high, andb_false_r by lia.
Qed.
Lemma lor_add a b n : 0 ≤ n → 0 ≤ b < 2 ^ n → Z.lor (a * 2 ^ n) b = a * 2 ^ n + b.
Proof.
  intros Hn Hb. rewrite <- Z.shiftl_mul_pow2 by done.
  rewrite Z.add_nocarry_lxor, Z.lxor_lor by by apply land_disjoint. done.
Qed.
Lemma bor_add a b n :
  0 ≤ n → 0 ≤ a → 0 ≤ b < 2 ^ n → a * 2 ^ n + b < 2 ^ 31 → bor (a * 2 ^ n) b = a * 2 ^ n + b.
Proof. intros Hn Ha Hb Hs. unfold bor. rewrite !int32_id by nia. by apply lor_add. Qed.

(** *** Regular expressions

    [re] is the abstract syntax; [matches] is its meaning, [re_test] the decision procedure (by
    derivatives) for a pattern anchored at both ends, as in [/^...$/.test(s)]. *)
Inductive re : Type :=
| Emp | Eps | Cls (class : Z → bool) | Seq (r s : re) | Alt (r s : re) | Star (r : re).
Definition Plus (r : re) : re := Seq r (Star r).
Definition Opt (r : re) : re := Alt Eps r.
Fixpoint Rep (n : nat) (r : re) : re := match n with O => Eps | S n => Seq r (Rep n r) end.
Definition Chr (c : Z) : re := Cls (λ x, x =? c).

Inductive matches : re → str → Prop :=
| m_eps : matches Eps []
| m_cls (class : Z → bool) c : class c = true → matches (Cls class) [c]
| m_seq r s u v : matches r u → matches s v → matches (Seq r s) (u ++ v)
| m_alt_l r s u : matches r u → matches (Alt r s) u
| m_alt_r r s u : matches s u → matches (Alt r s) u
| m_star_nil r : matches (Star r) []
| m_star_cons r u v : matches r u → matches (Star r) v → matches (Star r) (u ++ v).

Fixpoint nullable (r : re) : bool :=
  match r with
  | Emp | Cls _ => false
  | Eps | Star _ => true
  | Seq r s => nullable r && nullable s
  | Alt r s => nullable r || nullable s
  end.
Fixpoint deriv (c : Z) (r : re) : re :=
  match r with
  | Emp | Eps => Emp
  | Cls class => if class c then Eps else Emp
  | Seq r s => if nullable r then Alt (Seq (deriv c r) s) (deriv c s) else Seq (deriv c r) s
  | Alt r s => Alt (deriv c r) (deriv c s)
  | Star r => Seq (deriv c r) (Star r)
  end.
Fixpoint re_test (r : re) (s : str) : bool :=
  match s with [] => nullable r | c :: s => re_test (deriv c r) s end.

Lemma nullable_matches r : nullable r = true ↔ matches r [].
Proof.
  split.
  - induction r; cbn; try done.
    + intros _. constructor.
    + intros [H1 H2]%andb_true_iff. apply (m_seq _ _ [] []); auto.
    + intros [H1|H2]%orb_true_iff; [apply m_alt_l|apply m_alt_r]; auto.
    + intros _. constructor.
  - intros H. remember [] as w eqn:Hw. induction H; cbn; try done.
    + apply app_nil in Hw as [-> ->]. rewrite IHmatches1, IHmatches2; done.
    + by rewrite IHmatches.
    + rewrite IHmatches by done. apply orb_true_r.
Qed.

Lemma matches_Emp s : ¬ matches Emp s.
Proof. intros H. inversion H. Qed.
Lemma matches_Eps s : matches Eps s ↔ s = [].
Proof. split; [by inversion 1|intros ->; constructor]. Qed.
Lemma matches_Cls class s : matches (Cls class) s ↔ ∃ c, s = [c] ∧ class c = true.
Proof. split; [inversion 1; subst; eauto|intros (c & -> & H); by constructor]. Qed.
Lemma matches_Seq r t s : matches (Seq r t) s ↔ ∃ u v, s = u ++ v ∧ matches r u ∧ matches t v.
Proof. split; [inversion 1; subst; eauto|intros (u & v & -> & ? & ?); by constructor]. Qed.
Lemma matches_Alt r t s : matches (Alt r t) s ↔ matches r s ∨ matches t s.
Proof. split; [inversion 1; subst; eauto|intros [?|?]; by constructor]. Qed.

(** A non-empty match of a star starts with a non-empty match of its body. *)
Lemma matches_Star_cons r c s :
  matches (Star r) (c :: s) ↔ ∃ u v, s = u ++ v ∧ matches r (c :: u) ∧ matches (Star r) v.
Proof.
  split.
  - intros H. remember (Star r) as q eqn:Hq. remember (c :: s) as w eqn:Hw. revert s Hw.
    induction H; intros s' Hw; try done. injection Hq as ->.
    destruct u as [|x u]; [by apply IHmatches2|]. injection Hw as -> <-. eauto.
  - intros (u & v & -> & H1 & H2). apply (m_star_cons r (c :: u) v); done.
Qed.

Lemma deriv_matches r c s : matches (deriv c r) s ↔ matches r (c :: s).
Proof.
  revert s. induction r as [| |class|r1 IH1 r2 IH2|r1 IH1 r2 IH2|r IH]; intros s; cbn.
  - split; intros H; inversion H.
  - rewrite matches_Eps. split; [intros []%matches_Emp|done].
  - rewrite matches_Cls. destruct (class c) eqn:E.
    + rewrite matches_Eps. split; [intros ->; eauto|by intros (x & [= -> ->] & _)].
    + split; [intros []%matches_Emp|]. intros (x & [= -> ->] & ?). congruence.
  - rewrite matches_Seq. transitivity (matches (Seq (deriv c r1) r2) s ∨
      (matches r1 [] ∧ matches r2 (c :: s))).
    + rewrite <- nullable_matches. destruct (nullable r1); [rewrite matches_Alt, IH2|]; naive_solver.
    + rewrite matches_Seq. split.
      * intros [(u & v & -> & H1 & H2)|[H1 H2]]; [|by exists [], (c :: s)].
        exists (c :: u), v. by rewrite <- IH1.
      * intros ([|x u] & v & Huv & H1 & H2); [right; by rewrite Huv|]. injection Huv as -> ->. left.
        exists u, v. by rewrite IH1.
  - by rewrite !matches_Alt, IH1, IH2.
  - rewrite matches_Seq, matches_Star_cons. by setoid_rewrite IH.
Qed.

Lemma re_test_matches r s : re_test r s = true ↔ matches r s.
Proof.
  revert r. induction s as [|c s IH]; intros r; cbn; [apply nullable_matches|].
  by rewrite IH, deriv_matches.
Qed.

(** A star of a class is a string over the class. *)
Lemma matches_Star_Cls class s : matches (Star (Cls class)) s ↔ Forall (λ c, class c = true) s.
Proof.
  induction s as [|c s IH]; [split; constructor|]. rewrite matches_Star_cons, Forall_cons. split.
  - intros (u & v & -> & (x & [= -> ->] & Hc)%matches_Cls & Hv). by rewrite <- IH.
  - intros [Hc Hs]. exists [], s. split; [done|]. split; [by constructor|by apply IH].
Qed.
Lemma matches_Plus_Cls class s :
  matches (Plus (Cls class)) s ↔ s ≠ [] ∧ Forall (λ c, class c = true) s.
Proof.
  unfold Plus. rewrite matches_Seq. split.
  - intros (u & v & -> & (c & -> & Hc)%matches_Cls & Hv%matches_Star_Cls). split; [done|]. by constructor.
  - intros [Hn Hs]. destruct s as [|c s]; [done|]. apply Forall_cons in Hs as [Hc Hs].
    exists [c], s. split; [done|]. split; [by constructor|by apply matches_Star_Cls].
Qed.
End JS.
