(* ===== verification/JSBase64.v ===== *)
(** Base 64 in the bundled Swagger UI: base64-js ([fromByteArray], [toByteArray]), the cleaning step of
    the buffer package, and Swagger UI's URL-safe form ([b64toB64UrlEncoded] before minification).

    The bundles are minified; a definition's comment gives the minified name.  A [Uint8Array] stores
    values modulo 256 and ignores writes past its end. *)
From stdpp Require Import prelude strings list.
From S2P Require Import Prelude.
From S2P Require Import JSBase.
Local Open Scope Z_scope.
Import JS.

Module JSBase64.
(** *** Tables *)

(** [i], and the tables [r] (code) and [o] (inverse, with the URL-safe characters). *)
Definition code : str := of_string "ABCDEFGHIJKLMNOPQRSTUVWXYZabcdefghijklmnopqrstuvwxyz0123456789+/".
(** [r[x]], which concatenates as ["undefined"] outside the table. *)
Definition enc (x : Z) : str :=
  match charCodeAt code x with Some c => [c] | None => of_string "undefined" end.
(** [o[c]], which is 0 for the bit operations when undefined. *)
Definition dec (c : option Z) : Z :=
  match c with
  | None => 0
  | Some c => if c =? 45 then 62 else if c =? 95 then 63
              else let k := indexOf code c in if k =? -1 then 0 else k
  end.

(** *** Encoding *)

(** [e[k]] of a [Uint8Array]. *)
Definition byteAt (e : list Z) (k : Z) : Z := default 0 (charCodeAt e k).

(** [tripletToBase64]: [r[(a=o)>>18&63]+r[a>>12&63]+r[a>>6&63]+r[63&a]]. *)
Definition tripletToBase64 (o : Z) : str :=
  enc (band (shr o 18) 63) ++ enc (band (shr o 12) 63) ++ enc (band (shr o 6) 63) ++ enc (band 63 o).

(** [l(e, t, n)]. *)
Fixpoint encodeChunk (fuel : nat) (e : list Z) (u n : Z) : str :=
  match fuel with
  | O => []
  | S fuel =>
    if u <? n then
      tripletToBase64 (band (shl (byteAt e u) 16) 16711680 + band (shl (byteAt e (u + 1)) 8) 65280
                       + band 255 (byteAt e (u + 2)))
        ++ encodeChunk fuel e (u + 3) n
    else []
  end.

(** The loop over chunks of [i = 16383] bytes; [s] is the length without the incomplete triple. *)
Definition maxChunkLength : Z := 16383.
Fixpoint encodeChunks (fuel : nat) (e : list Z) (u s : Z) : str :=
  match fuel with
  | O => []
  | S fuel =>
    if u <? s then
      let stop := if s <? u + maxChunkLength then s else u + maxChunkLength in
      encodeChunk (length e) e u stop ++ encodeChunks fuel e (u + maxChunkLength) s
    else []
  end.

Definition eq_sign : str := [61].
Definition fromByteArray (e : list Z) : str :=
  let n := len e in
  let o := n mod 3 in
  let s := n - o in
  encodeChunks (length e) e 0 s ++
  (if o =? 1 then
     let t := byteAt e (n - 1) in enc (shr t 2) ++ enc (band (shl t 4) 63) ++ eq_sign ++ eq_sign
   else if o =? 2 then
     let t := shl (byteAt e (n - 2)) 8 + byteAt e (n - 1) in
     enc (shr t 10) ++ enc (band (shr t 4) 63) ++ enc (band (shl t 2) 63) ++ eq_sign
   else []).

(** *** Decoding *)

(** [c(e)]: the length up to the first ["="], and the number of place holders. *)
Definition getLens (e : str) : outcome (Z * Z) :=
  let t := len e in
  if 0 <? t mod 4 then Err "Invalid string. Length must be a multiple of 4"
  else
    let n := indexOf e 61 in
    let n := if n =? -1 then t else n in
    Ok (n, if n =? t then 0 else 4 - n mod 4).

Definition byteLengthOf (validLen placeHoldersLen : Z) : Z :=
  3 * (validLen + placeHoldersLen) / 4 - placeHoldersLen.

Definition byteLength (e : str) : outcome Z := '(n, r) ← getLens e; Ok (byteLengthOf n r).

(** [s[l++] = v]. *)
Definition write (s : list Z) (l v : Z) : list Z := <[Z.to_nat l := v mod 256]> s.
Definition decAt (e : str) (n : Z) : Z := dec (charCodeAt e n).

Fixpoint decodeLoop (fuel : nat) (e : str) (s : list Z) (l n f : Z) : list Z * Z * Z :=
  match fuel with
  | O => (s, l, n)
  | S fuel =>
    if n <? f then
      let t := bor (bor (bor (shl (decAt e n) 18) (shl (decAt e (n + 1)) 12)) (shl (decAt e (n + 2)) 6))
                 (decAt e (n + 3)) in
      let s := write s l (band (shr t 16) 255) in
      let s := write s (l + 1) (band (shr t 8) 255) in
      let s := write s (l + 2) (band 255 t) in
      decodeLoop fuel e s (l + 3) (n + 4) f
    else (s, l, n)
  end.

Definition toByteArray (e : str) : outcome (list Z) :=
  '(i, u) ← getLens e;
  let size := byteLengthOf i u in
  if size <? 0 then Err "RangeError: Invalid typed array length"
  else
    let s := replicate (Z.to_nat size) 0 in
    let f := if 0 <? u then i - 4 else i in
    let '(s, l, n) := decodeLoop (length e) e s 0 0 f in
    let '(s, l) :=
      if u =? 2 then
        let t := bor (shl (decAt e n) 2) (shr (decAt e (n + 1)) 4) in
        (write s l (band 255 t), l + 1)
      else (s, l) in
    let '(s, l) :=
      if u =? 1 then
        let t := bor (bor (shl (decAt e n) 10) (shl (decAt e (n + 1)) 4)) (shr (decAt e (n + 2)) 2) in
        (write (write s l (band (shr t 8) 255)) (l + 1) (band 255 t), l + 2)
      else (s, l) in
    Ok s.

(** *** Around them *)

Definition is_alnum (c : Z) : bool :=
  ((48 <=? c) && (c <=? 57)) || ((65 <=? c) && (c <=? 90)) || ((97 <=? c) && (c <=? 122)).
(** [/[^+\/0-9A-Za-z-_]/g]. *)
Definition INVALID_BASE64 (c : Z) : bool :=
  negb (is_alnum c || (c =? 43) || (c =? 47) || (c =? 45) || (c =? 95)).

(** [for(;t.length%4!=0;)t+="="]. *)
Fixpoint pad (fuel : nat) (t : str) : str :=
  match fuel with
  | O => t
  | S fuel => if negb (len t mod 4 =? 0) then pad fuel (t ++ eq_sign) else t
  end.
Definition base64clean (t : str) : str :=
  let t := replaceAll INVALID_BASE64 [] (trim t) in
  if len t <? 2 then [] else pad 3 t.
(** [B(t)] of buffer: the bytes of a base 64 string, padded or not, URL-safe or not. *)
Definition base64ToBytes (t : str) : outcome (list Z) := toByteArray (base64clean t).

(** [st(e)] of Swagger UI, used for PKCE code verifiers and challenges. *)
Definition b64toB64UrlEncoded (e : str) : str :=
  replaceAll (λ c, c =? 61) [] (replaceAll (λ c, c =? 47) [95] (replaceAll (λ c, c =? 43) [45] e)).
End JSBase64.
