(* ===== verification/JSBase64Props.v ===== *)
(** Base 64 round trips (JSBase64). *)
From stdpp Require Import prelude strings list.
From S2P Require Import Prelude.
From S2P Require Import JSBase.
From S2P Require Import JSBase64.
Local Open Scope Z_scope.
Import JS JSBase64.

Module JSBase64Props.
Definition byte (b : Z) : Prop := 0 ≤ b < 256.

(** *** Digits *)

Definition digit (x : Z) : Z := default 0 (charCodeAt code x).

(** Everything about the 64 digits is checked by computation. *)
Definition digit_ok (x : Z) : bool :=
  bool_decide (enc x = [digit x]) && (dec (Some (digit x)) =? x) && negb (digit x =? 61) &&
  negb (INVALID_BASE64 (digit x)) && negb (is_space (digit x)).
Lemma digits_ok : forallb digit_ok (seqZ 0 64) = true.
Proof. vm_compute. reflexivity. Qed.
Lemma digit_spec x : 0 ≤ x < 64 →
  enc x = [digit x] ∧ dec (Some (digit x)) = x ∧ digit x ≠ 61 ∧ INVALID_BASE64 (digit x) = false ∧
  is_space (digit x) = false.
Proof.
  intros Hx. assert (digit_ok x = true) as H.
  { apply (proj1 (forallb_forall _ _) digits_ok), list_elem_of_In, elem_of_seqZ. lia. }
  unfold digit_ok in H. rewrite !andb_true_iff, !negb_true_iff, bool_decide_eq_true, Z.eqb_eq, Z.eqb_neq in H.
  by destruct H as [[[[? ?] ?] ?] ?].
Qed.
Lemma enc_digit x : 0 ≤ x < 64 → enc x = [digit x].
Proof. intros H. by apply digit_spec. Qed.
Lemma dec_digit x : 0 ≤ x < 64 → dec (Some (digit x)) = x.
Proof. intros H. by apply digit_spec. Qed.

(** *** Groups *)

Definition quad (o : Z) : str :=
  [digit (o / 2 ^ 18); digit (o / 2 ^ 12 mod 64); digit (o / 2 ^ 6 mod 64); digit (o mod 64)].
Definition triple (a b c : Z) : Z := a * 2 ^ 16 + b * 2 ^ 8 + c.

Lemma band_63 x : 0 ≤ x < 2 ^ 31 → band x 63 = x mod 64.
Proof. intros. change 63 with (2 ^ 6 - 1). by apply band_mask. Qed.
Lemma band_255 x : 0 ≤ x < 2 ^ 31 → band 255 x = x mod 256.
Proof. intros. unfold band. rewrite Z.land_comm. change 255 with (2 ^ 8 - 1). by apply band_mask. Qed.
Lemma band_63' x : 0 ≤ x < 2 ^ 31 → band 63 x = x mod 64.
Proof. intros. unfold band. rewrite Z.land_comm. by apply band_63. Qed.
Lemma band_255' x : 0 ≤ x < 2 ^ 31 → band x 255 = x mod 256.
Proof. intros. change 255 with (2 ^ 8 - 1). by apply band_mask. Qed.
(** [(x << n) & (255 << n)] keeps a byte. *)
Lemma band_high x n : byte x → 0 ≤ n ≤ 16 → band (shl x n) (255 * 2 ^ n) = x * 2 ^ n.
Proof.
  intros [H0 H1] Hn. assert (1 ≤ 2 ^ n ≤ 2 ^ 16) as Hp.
  { split; [pose proof (Z.pow_pos_nonneg 2 n); lia|apply Z.pow_le_mono_r; lia]. }
  rewrite shl_small by nia. unfold band. rewrite !int32_id by nia.
  rewrite <- !Z.shiftl_mul_pow2 by lia. rewrite <- Z.shiftl_land. f_equal.
  change 255 with (Z.ones 8). rewrite Z.land_ones by lia. apply Z.mod_small. lia.
Qed.

Lemma triple_range a b c : byte a → byte b → byte c → 0 ≤ triple a b c < 2 ^ 24.
Proof. unfold byte, triple. lia. Qed.
Lemma quad_eq o : 0 ≤ o < 2 ^ 24 → tripletToBase64 o = quad o.
Proof.
  intros Ho. unfold tripletToBase64. rewrite !shr_small by lia.
  assert (0 ≤ o / 2 ^ 18 < 64 ∧ 0 ≤ o / 2 ^ 12 < 2 ^ 31 ∧ 0 ≤ o / 2 ^ 6 < 2 ^ 31) as (H1 & H2 & H3).
  { repeat split; try (apply Z.div_pos; lia); apply Z.div_lt_upper_bound; lia. }
  rewrite !band_63, band_63' by lia. rewrite (Z.mod_small (o / 2 ^ 18)) by lia.
  rewrite !enc_digit by (try lia; apply Z.mod_pos_bound; lia). done.
Qed.
Lemma triple_arg a b c : byte a → byte b → byte c →
  band (shl a 16) 16711680 + band (shl b 8) 65280 + band 255 c = triple a b c.
Proof.
  intros Ha Hb Hc. change 16711680 with (255 * 2 ^ 16). change 65280 with (255 * 2 ^ 8).
  rewrite !band_high by (done || lia). rewrite band_255 by (unfold byte in *; lia).
  rewrite Z.mod_small by done. done.
Qed.

(** The bits of a group of four digits. *)
Lemma bor4 w x y z : 0 ≤ w < 64 → 0 ≤ x < 64 → 0 ≤ y < 64 → 0 ≤ z < 64 →
  bor (bor (bor (shl w 18) (shl x 12)) (shl y 6)) z = ((w * 64 + x) * 64 + y) * 64 + z.
Proof.
  intros. rewrite !shl_small by lia.
  replace (w * 2 ^ 18) with (w * 64 * 2 ^ 12) by lia.
  replace (bor (w * 64 * 2 ^ 12) (x * 2 ^ 12)) with ((w * 64 + x) * 64 * 2 ^ 6).
  2:{ replace (w * 64 * 2 ^ 12) with (w * 2 ^ 18) by lia. rewrite bor_add by lia. lia. }
  replace (bor ((w * 64 + x) * 64 * 2 ^ 6) (y * 2 ^ 6)) with (((w * 64 + x) * 64 + y) * 2 ^ 6).
  2:{ replace ((w * 64 + x) * 64 * 2 ^ 6) with ((w * 64 + x) * 2 ^ 12) by lia.
      rewrite bor_add by lia. lia. }
  rewrite bor_add by lia. lia.
Qed.
Lemma quad_value o : 0 ≤ o < 2 ^ 24 →
  ((o / 2 ^ 18 * 64 + o / 2 ^ 12 mod 64) * 64 + o / 2 ^ 6 mod 64) * 64 + o mod 64 = o.
Proof. intros. Z.to_euclidean_division_equations. lia. Qed.
Lemma triple_bytes a b c : byte a → byte b → byte c →
  triple a b c / 2 ^ 16 mod 256 = a ∧ triple a b c / 2 ^ 8 mod 256 = b ∧ triple a b c mod 256 = c.
Proof. unfold byte, triple. intros. Z.to_euclidean_division_equations. lia. Qed.

(** *** Encoding without indices *)

Fixpoint enc_ref (bs : list Z) : str :=
  match bs with
  | a :: b :: c :: r => quad (triple a b c) ++ enc_ref r
  | [a; b] => [digit (a / 4); digit (a mod 4 * 16 + b / 16); digit (b mod 16 * 4); 61]
  | [a] => [digit (a / 4); digit (a mod 4 * 16); 61; 61]
  | [] => []
  end.

Lemma three_cells {A} (l : list A) (k : nat) :
  length l = (3 * S k)%nat → ∃ a b c r, l = a :: b :: c :: r ∧ length r = (3 * k)%nat.
Proof.
  destruct l as [|a [|b [|c r]]]; cbn [length]; try lia. intros. exists a, b, c, r. split; [done|lia].
Qed.

Lemma enc_ref_app k body rest :
  length body = (3 * k)%nat → enc_ref (body ++ rest) = enc_ref body ++ enc_ref rest.
Proof.
  revert body. induction k as [|k IH]; intros body Hk; [by destruct body|].
  destruct (three_cells body k Hk) as (a & b & c & r & -> & Hr). cbn. by rewrite IH.
Qed.

Lemma encodeChunk_ref k fuel pre body post :
  length body = (3 * k)%nat → Forall byte body → (k ≤ fuel)%nat →
  encodeChunk fuel (pre ++ body ++ post) (len pre) (len pre + len body) = enc_ref body.
Proof.
  revert fuel pre body. induction k as [|k IH]; intros fuel pre body Hk Hb Hf.
  - destruct body; [|done]. destruct fuel; cbn; [done|]. rewrite len_nil, (proj2 (Z.ltb_ge _ _)) by lia. done.
  - destruct (three_cells body k Hk) as (a & b & c & r & -> & Hr).
    rewrite !Forall_cons in Hb. destruct Hb as (Ha & Hb & Hc & Hrest).
    destruct fuel as [|fuel]; [lia|]. cbn [encodeChunk]. pose proof (len_nonneg r).
    rewrite (proj2 (Z.ltb_lt _ _)) by (rewrite !len_cons; lia).
    assert (∀ j x, 0 ≤ j → charCodeAt ((a :: b :: c :: r) ++ post) j = Some x →
      byteAt (pre ++ (a :: b :: c :: r) ++ post) (len pre + j) = x) as Hat.
    { intros j x Hj Hx. unfold byteAt. by rewrite charCodeAt_app, Hx by done. }
    assert (byteAt (pre ++ (a :: b :: c :: r) ++ post) (len pre) = a) as -> by
      (unfold byteAt; by rewrite charCodeAt_app_0).
    rewrite (Hat 1 b), (Hat 2 c) by done.
    rewrite triple_arg by done. rewrite quad_eq by by apply triple_range. cbn [enc_ref]. f_equal.
    specialize (IH fuel (pre ++ [a; b; c]) r Hr Hrest ltac:(lia)).
    rewrite <- app_assoc in IH. cbn [app] in IH |- *. rewrite len_app, !len_cons, len_nil in IH.
    rewrite !len_cons. rewrite <- IH. f_equal; lia.
Qed.

Lemma encodeChunks_ref fuel k pre body post :
  length body = (3 * k)%nat → Forall byte body → (k ≤ fuel)%nat →
  encodeChunks fuel (pre ++ body ++ post) (len pre) (len pre + len body) = enc_ref body.
Proof.
  revert k pre body. induction fuel as [|fuel IH]; intros k pre body Hk Hb Hf.
  { assert (length body = O) by lia. by destruct body. }
  cbn [encodeChunks].
  assert (len body = 3 * Z.of_nat k) as Hlen by (unfold len; lia).
  destruct (Z.ltb_spec (len pre) (len pre + len body)) as [Hlt|Hge].
  2:{ assert (length body = O) as H0 by (unfold len in *; lia). by destruct body. }
  assert (∀ q, (q ≤ k)%nat → encodeChunk (length (pre ++ body ++ post)) (pre ++ body ++ post) (len pre)
    (len pre + 3 * Z.of_nat q) = enc_ref (take (3 * q) body)) as Hchunk.
  { intros q Hq. rewrite <- (take_drop (3 * q) body) at 1 2. rewrite <- app_assoc.
    assert (length (take (3 * q) body) = (3 * q)%nat) as Hl by (rewrite length_take; lia).
    replace (3 * Z.of_nat q) with (len (take (3 * q) body)) by (unfold len; lia).
    apply (encodeChunk_ref q); [done|by apply Forall_take|]. rewrite !length_app, Hl.
    lia. }
  unfold maxChunkLength. destruct (Z.ltb_spec (len pre + len body) (len pre + 16383)) as [Hs|Hs].
  - rewrite Hlen, Hchunk, take_ge by lia. destruct fuel; cbn [encodeChunks]; [by rewrite app_nil_r|].
    unfold maxChunkLength. rewrite (proj2 (Z.ltb_ge _ _)) by lia. by rewrite app_nil_r.
  - assert (∃ q, Z.of_nat q = 5461) as (q & Hq) by (by exists (Z.to_nat 5461)).
    replace 16383 with (3 * Z.of_nat q) in * by lia. rewrite Hchunk by lia.
    assert (length (take (3 * q) body) = (3 * q)%nat) as Hm by (rewrite length_take; lia).
    assert (length (drop (3 * q) body) = (3 * (k - q))%nat) as Hd by (rewrite length_drop; lia).
    specialize (IH (k - q)%nat (pre ++ take (3 * q) body) _ Hd (Forall_drop _ _ _ Hb) ltac:(lia)).
    rewrite <- app_assoc, (app_assoc (take (3 * q) body)), take_drop, len_app in IH.
    replace (len (take (3 * q) body)) with (3 * Z.of_nat q) in IH by (unfold len; lia).
    replace (len pre + 3 * Z.of_nat q + len (drop (3 * q) body)) with (len pre + len body) in IH
      by (unfold len in *; lia).
    rewrite IH, <- (enc_ref_app q), take_drop by done. done.
Qed.

Lemma len_split (bs : list Z) : ∃ k body tail, bs = body ++ tail ∧ length body = (3 * k)%nat ∧
  len bs mod 3 = len tail ∧ (length tail < 3)%nat.
Proof.
  set (k := (length bs / 3)%nat). exists k, (take (3 * k) bs), (drop (3 * k) bs).
  pose proof (Nat.div_mod (length bs) 3 ltac:(lia)) as Hd.
  pose proof (Nat.mod_upper_bound (length bs) 3 ltac:(lia)). fold k in Hd.
  rewrite take_drop, length_take, length_drop. split; [done|]. split; [lia|]. unfold len.
  rewrite length_drop. split; [|lia]. rewrite Hd at 1.
  replace (Z.of_nat (3 * k + length bs mod 3)) with (Z.of_nat (length bs mod 3) + Z.of_nat k * 3) by lia.
  rewrite Z.mod_add, Z.mod_small by lia. lia.
Qed.

Lemma byteAt_0 body a r : byteAt (body ++ a :: r) (len body) = a.
Proof. unfold byteAt. by rewrite charCodeAt_app_0. Qed.
Lemma byteAt_1 body a b r : byteAt (body ++ a :: b :: r) (len body + 1) = b.
Proof. unfold byteAt. by rewrite charCodeAt_app. Qed.

Lemma enc_one a : byte a →
  enc (shr a 2) ++ enc (band (shl a 4) 63) ++ eq_sign ++ eq_sign =
  [digit (a / 4); digit (a mod 4 * 16); 61; 61].
Proof.
  unfold byte. intros Ha. rewrite shr_small, shl_small by lia. change (2 ^ 2) with 4. change (2 ^ 4) with 16.
  rewrite band_63 by lia. replace (a * 16 mod 64) with (a mod 4 * 16) by
    (Z.to_euclidean_division_equations; lia).
  rewrite !enc_digit by (Z.to_euclidean_division_equations; lia). done.
Qed.
Lemma enc_two a b : byte a → byte b →
  enc (shr (shl a 8 + b) 10) ++ enc (band (shr (shl a 8 + b) 4) 63) ++
    enc (band (shl (shl a 8 + b) 2) 63) ++ eq_sign =
  [digit (a / 4); digit (a mod 4 * 16 + b / 16); digit (b mod 16 * 4); 61].
Proof.
  unfold byte. intros Ha Hb. rewrite (shl_small a), !shr_small, (shl_small _ 2) by lia.
  change (2 ^ 8) with 256. change (2 ^ 10) with 1024. change (2 ^ 4) with 16. change (2 ^ 2) with 4.
  rewrite !band_63 by (Z.to_euclidean_division_equations; lia).
  replace ((a * 256 + b) / 1024) with (a / 4) by (Z.to_euclidean_division_equations; lia).
  replace ((a * 256 + b) / 16 mod 64) with (a mod 4 * 16 + b / 16) by
    (Z.to_euclidean_division_equations; lia).
  replace ((a * 256 + b) * 4 mod 64) with (b mod 16 * 4) by (Z.to_euclidean_division_equations; lia).
  rewrite !enc_digit by (Z.to_euclidean_division_equations; lia). done.
Qed.

Lemma fromByteArray_ref bs : Forall byte bs → fromByteArray bs = enc_ref bs.
Proof.
  intros Hb. destruct (len_split bs) as (k & body & tail & -> & Hk & Hmod & Ht).
  apply Forall_app in Hb as [Hb Htail]. rewrite (enc_ref_app k) by done. unfold fromByteArray.
  rewrite Hmod, len_app. replace (len body + len tail - len tail) with (0 + len body) by lia.
  pose proof (encodeChunks_ref (length (body ++ tail)) k [] body tail Hk Hb) as He.
  change (len []) with 0 in He. cbn [app] in He. rewrite He by (rewrite length_app; lia). f_equal.
  destruct tail as [|a [|b [|]]]; cbn [length] in Ht; try lia; cbn [enc_ref].
  - done.
  - apply Forall_cons in Htail as [Ha _]. change (len [a]) with 1. cbn [Z.eqb Pos.eqb].
    replace (len body + 1 - 1) with (len body) by lia. rewrite byteAt_0. by apply enc_one.
  - rewrite !Forall_cons in Htail. destruct Htail as (Ha & Hb' & _). change (len [a; b]) with 2.
    cbn [Z.eqb Pos.eqb].
    replace (len body + 2 - 2) with (len body) by lia.
    replace (len body + 2 - 1) with (len body + 1) by lia. rewrite byteAt_0, byteAt_1.
    by apply enc_two.
Qed.

(** *** Decoding *)

Lemma decAt_app pre s j x : 0 ≤ j → charCodeAt s j = Some x → decAt (pre ++ s) (len pre + j) = dec (Some x).
Proof. intros Hj Hx. unfold decAt. by rewrite charCodeAt_app, Hx. Qed.
Lemma decAt_app_0 pre s x : charCodeAt s 0 = Some x → decAt (pre ++ s) (len pre) = dec (Some x).
Proof. intros Hx. unfold decAt. by rewrite charCodeAt_app_0, Hx. Qed.
Lemma write_app done x rest j v : j = len done → 0 ≤ v < 256 → write (done ++ x :: rest) j v = done ++ v :: rest.
Proof.
  intros -> Hv. unfold write, len. rewrite Z.mod_small, Nat2Z.id by done.
  rewrite insert_app_r_alt, Nat.sub_diag by done. done.
Qed.

(** One group: four digits are read, three bytes written. *)
Lemma quad_digits o pre post : 0 ≤ o < 2 ^ 24 →
  bor (bor (bor (shl (decAt (pre ++ quad o ++ post) (len pre)) 18)
                (shl (decAt (pre ++ quad o ++ post) (len pre + 1)) 12))
           (shl (decAt (pre ++ quad o ++ post) (len pre + 2)) 6))
      (decAt (pre ++ quad o ++ post) (len pre + 3)) = o.
Proof.
  intros Ho. unfold quad. cbn [app].
  rewrite (decAt_app_0 pre _ (digit (o / 2 ^ 18))), (decAt_app pre _ 1 (digit (o / 2 ^ 12 mod 64))),
    (decAt_app pre _ 2 (digit (o / 2 ^ 6 mod 64))), (decAt_app pre _ 3 (digit (o mod 64))) by done.
  assert (0 ≤ o / 2 ^ 18 < 64) by (Z.to_euclidean_division_equations; lia).
  rewrite !dec_digit by (done || apply Z.mod_pos_bound; lia).
  rewrite bor4 by (done || apply Z.mod_pos_bound; lia). by apply quad_value.
Qed.
Lemma quad_writes a b c done x y z rest : byte a → byte b → byte c →
  write (write (write (done ++ x :: y :: z :: rest) (len done) (band (shr (triple a b c) 16) 255))
    (len done + 1) (band (shr (triple a b c) 8) 255)) (len done + 2) (band 255 (triple a b c)) =
  done ++ a :: b :: c :: rest.
Proof.
  intros Ha Hb Hc. pose proof (triple_range a b c Ha Hb Hc) as Ht.
  destruct (triple_bytes a b c Ha Hb Hc) as (E1 & E2 & E3).
  rewrite !shr_small, band_255, !band_255' by (try lia; Z.to_euclidean_division_equations; lia).
  rewrite E1, E2, E3. rewrite (write_app done) by done.
  rewrite (cons_middle a), app_assoc, (write_app (done ++ [a])) by (done || (rewrite len_app; done)).
  rewrite (cons_middle b), app_assoc, (write_app ((done ++ [a]) ++ [b])) by
    (done || (rewrite !len_app, <- Z.add_assoc; done)).
  by rewrite <- !app_assoc.
Qed.

Lemma length_enc_ref k body : length body = (3 * k)%nat → len (enc_ref body) = 4 * Z.of_nat k.
Proof.
  revert body. induction k as [|k IH]; intros body Hk; [by destruct body|].
  destruct (three_cells body k Hk) as (a & b & c & r & -> & Hr). cbn [enc_ref].
  rewrite len_app, (IH r Hr). change (len (quad _)) with 4. lia.
Qed.

Lemma decodeLoop_ref k : ∀ fuel pre body post done old rest f,
  length body = (3 * k)%nat → length old = (3 * k)%nat → Forall byte body → (k ≤ fuel)%nat →
  len pre + 4 * Z.of_nat k - 4 < f ≤ len pre + 4 * Z.of_nat k →
  decodeLoop fuel (pre ++ enc_ref body ++ post) (done ++ old ++ rest) (len done) (len pre) f =
  (done ++ body ++ rest, len done + 3 * Z.of_nat k, len pre + 4 * Z.of_nat k).
Proof.
  induction k as [|k IH]; intros fuel pre body post done old rest f Hk Ho Hb Hfuel Hf.
  - destruct body, old; try done. rewrite !Z.mul_0_r, !Z.add_0_r.
    destruct fuel; cbn [decodeLoop]; [done|]. by rewrite (proj2 (Z.ltb_ge _ _)) by lia.
  - destruct (three_cells body k Hk) as (a & b & c & r & -> & Hr).
    destruct (three_cells old k Ho) as (x & y & z & old' & -> & Hold).
    rewrite !Forall_cons in Hb. destruct Hb as (Ha & Hb & Hc & Hrest).
    destruct fuel as [|fuel]; [lia|]. cbn [decodeLoop enc_ref]. rewrite (proj2 (Z.ltb_lt _ _)) by lia.
    rewrite <- app_assoc, quad_digits by by apply triple_range. cbn [app]. rewrite quad_writes by done.
    specialize (IH fuel (pre ++ quad (triple a b c)) r post (done ++ [a; b; c]) old' rest f Hr Hold Hrest
      ltac:(lia)).
    rewrite !len_app in IH. change (len (quad _)) with 4 in IH. change (len [a; b; c]) with 3 in IH.
    rewrite <- !app_assoc in IH. cbn [app] in IH.
    replace (len pre + 4 * Z.of_nat (S k)) with (len pre + 4 + 4 * Z.of_nat k) by lia.
    replace (len done + 3 * Z.of_nat (S k)) with (len done + 3 + 3 * Z.of_nat k) by lia.
    apply IH. lia.
Qed.

(** *** Finding the padding *)

Definition plain (s : str) : Prop := Forall (λ c, c ≠ 61) s.
Lemma indexOf_nonneg s c : indexOf s c = -1 ∨ 0 ≤ indexOf s c.
Proof. induction s as [|x s IH]; cbn; [by left|]. destruct (x =? c); [lia|]. case_match; lia. Qed.
Lemma indexOf_plain s t : plain s → indexOf (s ++ 61 :: t) 61 = len s.
Proof.
  induction 1 as [|c s Hc _ IH]; [done|]. cbn [app indexOf]. rewrite (proj2 (Z.eqb_neq _ _)) by done.
  rewrite IH. pose proof (len_nonneg s). rewrite (proj2 (Z.eqb_neq _ _)), len_cons by lia. lia.
Qed.
Lemma indexOf_none s : plain s → indexOf s 61 = -1.
Proof.
  induction 1 as [|c s Hc _ IH]; [done|]. cbn [indexOf]. by rewrite (proj2 (Z.eqb_neq _ _)), IH by done.
Qed.
Lemma digit_plain x : 0 ≤ x < 64 → digit x ≠ 61.
Proof. intros H. by apply digit_spec. Qed.
Lemma quad_digits_in o : 0 ≤ o < 2 ^ 24 → Forall (λ c, ∃ x, 0 ≤ x < 64 ∧ c = digit x) (quad o).
Proof.
  intros Ho. unfold quad. repeat constructor; eexists; (split; [|done]);
    Z.to_euclidean_division_equations; lia.
Qed.
Lemma body_digits k body : length body = (3 * k)%nat → Forall byte body →
  Forall (λ c, ∃ x, 0 ≤ x < 64 ∧ c = digit x) (enc_ref body).
Proof.
  revert body. induction k as [|k IH]; intros body Hk Hb; [by destruct body|].
  destruct (three_cells body k Hk) as (a & b & c & r & -> & Hr).
  rewrite !Forall_cons in Hb. destruct Hb as (Ha & Hb & Hc & Hrest). cbn [enc_ref].
  apply Forall_app. split; [by apply quad_digits_in, triple_range|by apply IH].
Qed.
Lemma digits_plain s : Forall (λ c, ∃ x, 0 ≤ x < 64 ∧ c = digit x) s → plain s.
Proof. intros H. eapply Forall_impl; [exact H|]. intros c (x & Hx & ->). by apply digit_plain. Qed.

(** The whole of decoding, for a body of [k] groups and the padded group [T] of one or two bytes. *)
Lemma loop_all k body T size tl :
  length body = (3 * k)%nat → Forall byte body → size = 3 * Z.of_nat k + Z.of_nat tl → ∀ f,
  4 * Z.of_nat k - 4 < f ≤ 4 * Z.of_nat k →
  decodeLoop (length (enc_ref body ++ T)) (enc_ref body ++ T) (replicate (Z.to_nat size) 0) 0 0 f =
  (body ++ replicate tl 0, 3 * Z.of_nat k, 4 * Z.of_nat k).
Proof.
  intros Hk Hb -> f Hf. pose proof (length_enc_ref k body Hk) as Hl.
  replace (Z.to_nat (3 * Z.of_nat k + Z.of_nat tl)) with (3 * k + tl)%nat by lia.
  rewrite replicate_add.
  apply (decodeLoop_ref k _ [] body T [] (replicate (3 * k) 0) (replicate tl 0) f);
    [done|by rewrite length_replicate|done| |done].
  unfold len in Hl. rewrite length_app. lia.
Qed.

Lemma mod4 (k : nat) r : 0 ≤ r < 4 → (4 * Z.of_nat k + r) mod 4 = r.
Proof. intros. Z.to_euclidean_division_equations. lia. Qed.

Lemma getLens_plain (k : nat) s : len s = 4 * Z.of_nat k → plain s → getLens s = Ok (4 * Z.of_nat k, 0).
Proof.
  intros Hl Hs. unfold getLens. rewrite Hl, indexOf_none by done.
  replace (4 * Z.of_nat k) with (4 * Z.of_nat k + 0) by lia. rewrite mod4 by lia. cbn.
  by rewrite Z.eqb_refl.
Qed.
Lemma getLens_padded (k : nat) s p : len s + len (61 :: p) = 4 * Z.of_nat k → plain s →
  getLens (s ++ 61 :: p) = Ok (len s, 4 - len s mod 4).
Proof.
  intros Hl Hs. unfold getLens. rewrite len_app, Hl, indexOf_plain by done.
  replace (4 * Z.of_nat k) with (4 * Z.of_nat k + 0) at 1 by lia. rewrite mod4 by lia. cbn [Z.ltb Z.compare].
  pose proof (len_nonneg s). pose proof (len_nonneg p). rewrite len_cons in Hl.
  rewrite !(proj2 (Z.eqb_neq (len s) _)) by lia. done.
Qed.

Lemma dec_one a : byte a → band 255 (bor (shl (a / 4) 2) (shr (a mod 4 * 16) 4)) = a.
Proof.
  unfold byte. intros Ha. assert (0 ≤ a / 4 < 64 ∧ 0 ≤ a mod 4 < 4) as [H1 H2] by
    (Z.to_euclidean_division_equations; lia).
  rewrite shl_small, shr_small by lia. replace (a mod 4 * 16 / 2 ^ 4) with (a mod 4) by
    (change (2 ^ 4) with 16; by rewrite Z.div_mul).
  rewrite bor_add by lia. change (2 ^ 2) with 4. replace (a / 4 * 4 + a mod 4) with a by
    (Z.to_euclidean_division_equations; lia).
  rewrite band_255 by lia. apply Z.mod_small. lia.
Qed.
Lemma dec_two a b : byte a → byte b →
  bor (bor (shl (a / 4) 10) (shl (a mod 4 * 16 + b / 16) 4)) (shr (b mod 16 * 4) 2) = a * 256 + b.
Proof.
  unfold byte. intros Ha Hb. assert (0 ≤ a / 4 < 64 ∧ 0 ≤ a mod 4 < 4 ∧ 0 ≤ b / 16 < 16 ∧ 0 ≤ b mod 16 < 16)
    as (H1 & H2 & H3 & H4) by (Z.to_euclidean_division_equations; lia).
  rewrite !shl_small, shr_small by lia. change (2 ^ 2) with 4. rewrite Z.div_mul by lia.
  rewrite bor_add by lia.
  replace (a / 4 * 2 ^ 10 + (a mod 4 * 16 + b / 16) * 2 ^ 4) with
    ((a / 4 * 64 + a mod 4 * 16 + b / 16) * 2 ^ 4) by lia.
  rewrite bor_add by lia. Z.to_euclidean_division_equations; lia.
Qed.

Lemma toByteArray_ref bs : Forall byte bs → toByteArray (enc_ref bs) = Ok bs.
Proof.
  intros Hall. destruct (len_split bs) as (k & body & tail & -> & Hk & _ & Ht).
  apply Forall_app in Hall as [Hb Htail]. rewrite (enc_ref_app k) by done.
  pose proof (length_enc_ref k body Hk) as Hl.
  pose proof (digits_plain _ (body_digits k body Hk Hb)) as Hplain. unfold toByteArray, byteLengthOf.
  destruct tail as [|a [|b [|]]]; cbn [length] in Ht; try lia; cbn [enc_ref].
  - rewrite !app_nil_r, (getLens_plain k) by done. rewrite bind_of_Ok. cbv beta iota zeta.
    rewrite (proj2 (Z.ltb_ge _ _)) by (Z.to_euclidean_division_equations; lia).
    change (0 <? 0) with false. cbv iota. rewrite <- (app_nil_r (enc_ref body)).
    rewrite (loop_all k body [] _ 0%nat) by (done || (Z.to_euclidean_division_equations; lia)).
    cbn. by rewrite app_nil_r.
  - apply Forall_cons in Htail as [Ha _]. assert (Ha' := Ha). unfold byte in Ha'.
    assert (0 ≤ a / 4 < 64 ∧ 0 ≤ a mod 4 * 16 < 64) as [D1 D2] by (Z.to_euclidean_division_equations; lia).
    assert (getLens (enc_ref body ++ [digit (a / 4); digit (a mod 4 * 16); 61; 61]) =
      Ok (4 * Z.of_nat k + 2, 2)) as ->.
    { rewrite (cons_middle (digit (a / 4))), app_assoc, (cons_middle (digit (a mod 4 * 16))), app_assoc.
      rewrite (getLens_padded (S k)); [rewrite !len_app, Hl|rewrite !len_app, Hl|].
      - change (len [_]) with 1. replace (4 * Z.of_nat k + 1 + 1) with (4 * Z.of_nat k + 2) by lia.
        by rewrite mod4 by lia.
      - change (len [_]) with 1. change (len [_; _]) with 2. lia.
      - repeat apply Forall_app_2; [done|constructor; [by apply digit_plain|done]..]. }
    rewrite bind_of_Ok. cbv beta iota zeta.
    rewrite (proj2 (Z.ltb_ge _ _)) by (Z.to_euclidean_division_equations; lia).
    change (0 <? 2) with true. cbv iota.
    rewrite (loop_all k body _ _ 1%nat) by (done || (Z.to_euclidean_division_equations; lia)).
    cbn [Z.eqb Pos.eqb]. rewrite <- Hl.
    rewrite (decAt_app_0 _ _ (digit (a / 4))), (decAt_app _ _ 1 (digit (a mod 4 * 16))) by done.
    rewrite !dec_digit, dec_one by done. cbn [replicate].
    rewrite write_app; [done|unfold len; lia|done].
  - rewrite !Forall_cons in Htail. destruct Htail as (Ha & Hb' & _).
    assert (Ha' := Ha). assert (Hb'' := Hb'). unfold byte in Ha', Hb''.
    assert (0 ≤ a / 4 < 64 ∧ 0 ≤ a mod 4 * 16 + b / 16 < 64 ∧ 0 ≤ b mod 16 * 4 < 64) as (D1 & D2 & D3)
      by (Z.to_euclidean_division_equations; lia).
    assert (getLens (enc_ref body ++ [digit (a / 4); digit (a mod 4 * 16 + b / 16); digit (b mod 16 * 4); 61])
      = Ok (4 * Z.of_nat k + 3, 1)) as ->.
    { rewrite (cons_middle (digit (a / 4))), app_assoc, (cons_middle (digit (a mod 4 * 16 + b / 16))),
        app_assoc, (cons_middle (digit (b mod 16 * 4))), app_assoc.
      rewrite (getLens_padded (S k)); [rewrite !len_app, Hl|rewrite !len_app, Hl|].
      - change (len [_]) with 1. replace (4 * Z.of_nat k + 1 + 1 + 1) with (4 * Z.of_nat k + 3) by lia.
        by rewrite mod4 by lia.
      - change (len [_]) with 1. lia.
      - repeat apply Forall_app_2; [done|constructor; [by apply digit_plain|done]..]. }
    rewrite bind_of_Ok. cbv beta iota zeta.
    rewrite (proj2 (Z.ltb_ge _ _)) by (Z.to_euclidean_division_equations; lia).
    change (0 <? 1) with true. cbv iota.
    rewrite (loop_all k body _ _ 2%nat) by (done || (Z.to_euclidean_division_equations; lia)).
    cbn [Z.eqb Pos.eqb]. rewrite <- Hl.
    rewrite (decAt_app_0 _ _ (digit (a / 4))), (decAt_app _ _ 1 (digit (a mod 4 * 16 + b / 16))),
      (decAt_app _ _ 2 (digit (b mod 16 * 4))) by done.
    rewrite !dec_digit, dec_two by done. cbn [replicate].
    rewrite shr_small, band_255', band_255 by (Z.to_euclidean_division_equations; lia).
    change (2 ^ 8) with 256.
    replace ((a * 256 + b) / 256 mod 256) with a by (Z.to_euclidean_division_equations; lia).
    replace ((a * 256 + b) mod 256) with b by (Z.to_euclidean_division_equations; lia).
    rewrite write_app; [|unfold len; lia|done].
    rewrite (cons_middle a), app_assoc, write_app; [|rewrite len_app; unfold len; cbn [length]; lia|done].
    by rewrite <- app_assoc.
Qed.

(** *** The URL-safe form *)

Definition is_digit (c : Z) : Prop := ∃ x, 0 ≤ x < 64 ∧ c = digit x.

Lemma enc_ref_parts bs : Forall byte bs → ∃ ds p,
  enc_ref bs = ds ++ replicate p 61 ∧ Forall is_digit ds ∧
  (len ds mod 4 = 0 ∧ p = 0%nat ∨ len ds mod 4 = 2 ∧ p = 2%nat ∨ len ds mod 4 = 3 ∧ p = 1%nat).
Proof.
  intros Hall. destruct (len_split bs) as (k & body & tail & -> & Hk & _ & Ht).
  apply Forall_app in Hall as [Hb Htail]. rewrite (enc_ref_app k) by done.
  pose proof (length_enc_ref k body Hk) as Hl. pose proof (body_digits k body Hk Hb) as Hd.
  assert (∀ t r, len t = r → 0 ≤ r < 4 → len (enc_ref body ++ t) mod 4 = r) as Hmod.
  { intros t r Hr Hr4. rewrite len_app, Hl, Hr. by apply mod4. }
  destruct tail as [|a [|b [|]]]; cbn [length] in Ht; try lia; cbn [enc_ref].
  - exists (enc_ref body), 0%nat. split; [done|]. split; [done|]. left. split; [|done].
    rewrite Hl. replace (4 * Z.of_nat k) with (4 * Z.of_nat k + 0) by lia. by apply mod4.
  - apply Forall_cons in Htail as [Ha _]. unfold byte in Ha.
    exists (enc_ref body ++ [digit (a / 4); digit (a mod 4 * 16)]), 2%nat.
    split; [by rewrite <- app_assoc|]. split; [|right; left; split; [by apply Hmod|done]].
    apply Forall_app. split; [done|].
    repeat constructor; eexists; (split; [|done]); Z.to_euclidean_division_equations; lia.
  - rewrite !Forall_cons in Htail. destruct Htail as (Ha & Hb' & _). unfold byte in Ha, Hb'.
    exists (enc_ref body ++ [digit (a / 4); digit (a mod 4 * 16 + b / 16); digit (b mod 16 * 4)]), 1%nat.
    split; [by rewrite <- app_assoc|]. split; [|right; right; split; [by apply Hmod|done]].
    apply Forall_app. split; [done|].
    repeat constructor; eexists; (split; [|done]); Z.to_euclidean_division_equations; lia.
Qed.

(** The substitution of the URL-safe characters, on one character. *)
Definition url (c : Z) : Z := if c =? 43 then 45 else if c =? 47 then 95 else c.

Lemma dec_url c : dec (url <$> c) = dec c.
Proof.
  destruct c as [c|]; [|done]. cbn [fmap option_fmap option_map]. unfold url.
  destruct (Z.eqb_spec c 43) as [->|]; [done|]. by destruct (Z.eqb_spec c 47) as [->|].
Qed.
Lemma charCodeAt_map s i : charCodeAt (url <$> s) i = url <$> charCodeAt s i.
Proof. unfold charCodeAt. case_match; [done|]. apply list_lookup_fmap. Qed.
Lemma decAt_url s n : decAt (url <$> s) n = decAt s n.
Proof. unfold decAt. by rewrite charCodeAt_map, dec_url. Qed.
Lemma indexOf_url s : indexOf (url <$> s) 61 = indexOf s 61.
Proof.
  induction s as [|c s IH]; [done|]. cbn [fmap list_fmap indexOf].
  replace (url c =? 61) with (c =? 61).
  - destruct (c =? 61); [done|]. change (list_fmap Z Z url s) with (url <$> s). by rewrite IH.
  - unfold url. destruct (Z.eqb_spec c 43) as [->|]; [done|]. by destruct (Z.eqb_spec c 47) as [->|].
Qed.
Lemma decodeLoop_url fuel e s l n f : decodeLoop fuel (url <$> e) s l n f = decodeLoop fuel e s l n f.
Proof.
  revert s l n. induction fuel as [|fuel IH]; intros s l n; cbn [decodeLoop]; [done|].
  destruct (n <? f); [|done]. by rewrite !decAt_url, IH.
Qed.
(** Decoding reads both alphabets. *)
Lemma toByteArray_url e : toByteArray (url <$> e) = toByteArray e.
Proof.
  unfold toByteArray, getLens, len. rewrite indexOf_url, length_fmap.
  destruct (0 <? _); [done|]. rewrite !bind_of_Ok. cbv beta iota zeta.
  destruct (_ <? 0); [done|]. rewrite decodeLoop_url. destruct (decodeLoop _ _ _ _ _ _) as [[s l] n].
  by rewrite !decAt_url.
Qed.

Lemma replaceAll_map class r s :
  replaceAll class [r] s = (λ c, if class c then r else c) <$> s.
Proof. unfold replaceAll. induction s as [|c s IH]; cbn; [done|]. destruct (class c); by rewrite <- IH. Qed.
Lemma replaceAll_none class r s : Forall (λ c, class c = false) s → replaceAll class r s = s.
Proof. unfold replaceAll. induction 1 as [|c s Hc _ IH]; cbn; [done|]. rewrite Hc. cbn. by f_equal. Qed.
Lemma replaceAll_app class r s t :
  replaceAll class r (s ++ t) = replaceAll class r s ++ replaceAll class r t.
Proof. apply bind_app. Qed.
Lemma trim_none s : Forall (λ c, is_space c = false) s → trim s = s.
Proof.
  intros H. assert (∀ t, Forall (λ c, is_space c = false) t → trimStart t = t) as Hs.
  { intros t Ht. destruct Ht as [|c t Hc _]; cbn; [done|]. by rewrite Hc. }
  unfold trim. rewrite (Hs s H), Hs by (by apply List.Forall_rev). apply rev_involutive.
Qed.

Lemma url_ok c : is_digit c →
  url c ≠ 61 ∧ INVALID_BASE64 (url c) = false ∧ is_space (url c) = false.
Proof.
  intros (x & Hx & ->). destruct (digit_spec x Hx) as (_ & _ & H1 & H2 & H3). unfold url.
  destruct (Z.eqb_spec (digit x) 43); [done|]. by destruct (Z.eqb_spec (digit x) 47).
Qed.
Lemma urls_ok ds : Forall is_digit ds →
  Forall (λ c, c ≠ 61 ∧ INVALID_BASE64 c = false ∧ is_space c = false) (url <$> ds).
Proof. intros H. apply Forall_fmap. eapply Forall_impl; [exact H|]. apply url_ok. Qed.

Lemma b64url_ref ds p : Forall is_digit ds →
  b64toB64UrlEncoded (ds ++ replicate p 61) = url <$> ds.
Proof.
  intros Hd. unfold b64toB64UrlEncoded. rewrite !(replaceAll_map (λ c, c =? _)), <- list_fmap_compose.
  rewrite fmap_app, replaceAll_app.
  assert (∀ s, replaceAll (λ c, c =? 61) [] (replicate p 61 ++ s) = replaceAll (λ c, c =? 61) [] s) as Hp.
  { intros s. induction p as [|p IH]; [done|]. cbn. exact IH. }
  rewrite fmap_replicate. rewrite <- (app_nil_r (replicate p _)).
  change (((λ c : Z, if c =? 47 then 95 else c) ∘ (λ c : Z, if c =? 43 then 45 else c)) 61) with 61.
  rewrite Hp, app_nil_r.
  assert ((((λ c : Z, if c =? 47 then 95 else c) ∘ (λ c : Z, if c =? 43 then 45 else c)) <$> ds)
    = url <$> ds) as ->.
  { apply list_fmap_ext. intros i c _. unfold url. cbn. destruct (Z.eqb_spec c 43) as [->|]; done. }
  apply replaceAll_none. eapply Forall_impl; [by apply urls_ok|].
  intros c (Hc & _). by apply Z.eqb_neq.
Qed.

Lemma pad_ref ds p fuel : (p ≤ fuel)%nat →
  (len ds mod 4 = 0 ∧ p = 0%nat ∨ len ds mod 4 = 2 ∧ p = 2%nat ∨ len ds mod 4 = 3 ∧ p = 1%nat) →
  pad fuel ds = ds ++ replicate p 61.
Proof.
  revert ds p. induction fuel as [|fuel IH]; intros ds p Hf Hp.
  - assert (p = 0%nat) as -> by lia. cbn. by rewrite app_nil_r.
  - cbn [pad]. assert (len (ds ++ eq_sign) mod 4 = (len ds mod 4 + 1) mod 4) as Hm.
    { rewrite len_app. change (len eq_sign) with 1. by rewrite Z.add_mod_idemp_l. }
    destruct Hp as [[Hm0 ->]|[[Hm0 ->]|[Hm0 ->]]]; rewrite Hm0; rewrite Hm0 in Hm; cbn [Z.eqb negb].
    + by rewrite app_nil_r.
    + rewrite (IH _ 1%nat); [|lia|right; right; by rewrite Hm]. by rewrite <- app_assoc.
    + rewrite (IH _ 0%nat); [|lia|left; by rewrite Hm]. by rewrite <- app_assoc.
Qed.

Lemma base64url_back bs : Forall byte bs →
  base64ToBytes (b64toB64UrlEncoded (enc_ref bs)) = Ok bs.
Proof.
  intros Hall. destruct (enc_ref_parts bs Hall) as (ds & p & He & Hd & Hp).
  rewrite <- (toByteArray_ref bs Hall), <- (toByteArray_url (enc_ref bs)), He, b64url_ref by done.
  unfold base64ToBytes. f_equal. unfold base64clean. pose proof (urls_ok ds Hd) as Hu.
  rewrite trim_none by (eapply Forall_impl; [exact Hu|]; by intros c (_ & _ & ?)).
  rewrite replaceAll_none by (eapply Forall_impl; [exact Hu|]; by intros c (_ & ? & _)).
  rewrite fmap_app, fmap_replicate. change (url 61) with 61.
  assert (len (url <$> ds) = len ds) as Hlen by (unfold len; by rewrite length_fmap).
  rewrite Hlen. pose proof (len_nonneg ds). destruct (Z.ltb_spec (len ds) 2) as [Hlt|Hge].
  - assert (len ds mod 4 = len ds) as Hm by (apply Z.mod_small; lia). rewrite Hm in Hp.
    destruct Hp as [[H0 ->]|[[H0 _]|[H0 _]]]; try lia. by destruct ds.
  - rewrite (pad_ref _ p); [done|lia|by rewrite Hlen].
Qed.

(** *** The properties *)

(** C37. Base 64 of any byte sequence decodes to it. *)
Theorem base64_roundtrip (bs : list Z) :
  Forall byte bs → toByteArray (fromByteArray bs) = Ok bs.
Proof. intros Hb. rewrite fromByteArray_ref by done. by apply toByteArray_ref. Qed.
Lemma base64_roundtrip_witness :
  fromByteArray [251; 255; 1; 0] = of_string "+/8BAA==" ∧
  toByteArray (fromByteArray [251; 255; 1; 0]) = Ok [251; 255; 1; 0].
Proof.
  split; [vm_compute; reflexivity|]. apply (base64_roundtrip [251; 255; 1; 0]).
  repeat constructor; unfold byte; lia.
Defined.

(** The URL-safe, unpadded form Swagger UI sends as a PKCE challenge decodes, after buffer's
    cleaning, to the bytes it was made from. *)
Theorem base64url_roundtrip (bs : list Z) :
  Forall byte bs → base64ToBytes (b64toB64UrlEncoded (fromByteArray bs)) = Ok bs.
Proof. intros Hb. rewrite fromByteArray_ref by done. by apply base64url_back. Qed.
Lemma base64url_roundtrip_witness :
  b64toB64UrlEncoded (fromByteArray [251; 255; 1; 0]) = of_string "-_8BAA" ∧
  base64ToBytes (b64toB64UrlEncoded (fromByteArray [251; 255; 1; 0])) = Ok [251; 255; 1; 0].
Proof.
  split; [vm_compute; reflexivity|]. apply (base64url_roundtrip [251; 255; 1; 0]).
  repeat constructor; unfold byte; lia.
Defined.
End JSBase64Props.
