(* ===== verification/JSUtf8.v ===== *)
(** UTF-8 in the buffer package of the bundled Swagger UI: [utf8ToBytes] (minified [Q]) and [utf8Slice]
    (minified [N]). *)
From stdpp Require Import prelude strings list.
From S2P Require Import Prelude.
From S2P Require Import JSBase.
Local Open Scope Z_scope.
Import JS.

Module JSUtf8.
(** *** Encoding *)

(** [(e -= k)]: the number of bytes that may still be written; [None] is [Infinity]. *)
Definition spend (units : option Z) (k : Z) : option Z := (λ x, x - k) <$> units.
Definition left (units : option Z) : bool := match units with None => true | Some x => -1 <? x end.

(** [(e-=3)>-1&&o.push(239,191,189)]. *)
Definition replacement (units : option Z) : list Z * option Z :=
  let units := spend units 3 in (if left units then [239; 191; 189] else [], units).

(** The bytes of a code point, and how many; a code point over 0x10FFFF is an error. *)
Definition utf8_bytes (n : Z) : option (list Z) :=
  if n <? 128 then Some [n]
  else if n <? 2048 then Some [bor (shr n 6) 192; bor (band 63 n) 128]
  else if n <? 65536 then
    Some [bor (shr n 12) 224; bor (band (shr n 6) 63) 128; bor (band 63 n) 128]
  else if n <? 1114112 then
    Some [bor (shr n 18) 240; bor (band (shr n 12) 63) 128; bor (band (shr n 6) 63) 128;
          bor (band 63 n) 128]
  else None.

(** The loop over the string; [lead] is [i], the pending lead surrogate. *)
Fixpoint utf8Loop (t : str) (units lead : option Z) : outcome (list Z) :=
  match t with
  | [] => Ok []
  | n :: t =>
    let encode bs units n t := (* from [i=null] on *)
      match utf8_bytes n with
      | None => Err "Invalid code point"
      | Some cs =>
        let units := spend units (len cs) in
        if left units then rest ← utf8Loop t units None; Ok (bs ++ cs ++ rest) else Ok bs
      end in
    if (55295 <? n) && (n <? 57344) then
      match lead with
      | None =>
        if 56319 <? n then
          let '(bs, units) := replacement units in rest ← utf8Loop t units None; Ok (bs ++ rest)
        else if bool_decide (t = []) then
          let '(bs, units) := replacement units in rest ← utf8Loop t units None; Ok (bs ++ rest)
        else utf8Loop t units (Some n)
      | Some i =>
        if n <? 56320 then
          let '(bs, units) := replacement units in rest ← utf8Loop t units (Some n); Ok (bs ++ rest)
        else encode [] units (65536 + bor (shl (i - 55296) 10) (n - 56320)) t
      end
    else
      match lead with
      | None => encode [] units n t
      | Some _ => let '(bs, units) := replacement units in encode bs units n t
      end
  end.

(** [e = e || 1/0]. *)
Definition utf8ToBytes (t : str) (e : option Z) : outcome (list Z) :=
  let units := match e with Some 0 => None | _ => e end in
  utf8Loop t units None.

(** *** Decoding *)

Definition bytesPerSequence (c : Z) : Z :=
  if 239 <? c then 4 else if 223 <? c then 3 else if 191 <? c then 2 else 1.
Definition byteAt (t : list Z) (k : Z) : Z := default 0 (charCodeAt t k).
Definition is_cont (o : Z) : bool := band 192 o =? 128.

(** [f], [None] being [null]. *)
Definition codePoint (t : list Z) (i c l : Z) : option Z :=
  let o := byteAt t (i + 1) in
  let u := byteAt t (i + 2) in
  let s := byteAt t (i + 3) in
  if l =? 1 then if c <? 128 then Some c else None
  else if l =? 2 then
    let a := bor (shl (band 31 c) 6) (band 63 o) in
    if is_cont o && (127 <? a) then Some a else None
  else if l =? 3 then
    let a := bor (bor (shl (band 15 c) 12) (shl (band 63 o) 6)) (band 63 u) in
    if is_cont o && is_cont u && (2047 <? a) && ((a <? 55296) || (57343 <? a)) then Some a else None
  else
    let a := bor (bor (bor (shl (band 15 c) 18) (shl (band 63 o) 12)) (shl (band 63 u) 6)) (band 63 s) in
    if is_cont o && is_cont u && is_cont s && (65535 <? a) && (a <? 1114112) then Some a else None.

(** The code units pushed for a code point. *)
Definition push (f : Z) : str :=
  if 65535 <? f then
    let f := f - 65536 in [bor (band (shr f 10) 1023) 55296; bor 56320 (band 1023 f)]
  else [f].

Fixpoint sliceLoop (fuel : nat) (t : list Z) (i n : Z) : str :=
  match fuel with
  | O => []
  | S fuel =>
    if i <? n then
      let c := byteAt t i in
      let l := bytesPerSequence c in
      let f := if i + l <=? n then codePoint t i c l else None in
      match f with
      | None => 65533 :: sliceLoop fuel t (i + 1) n
      | Some f => push f ++ sliceLoop fuel t (i + l) n
      end
    else []
  end.

(** [String.fromCharCode] keeps 16 bits; the array is converted in chunks of [S = 4096]. *)
Definition fromCharCode (r : list Z) : str := (λ c, c mod 2 ^ 16) <$> r.
Fixpoint fromChunks (fuel : nat) (r : list Z) (k : Z) : str :=
  match fuel with
  | O => []
  | S fuel =>
    if k <? len r then
      fromCharCode (take 4096 (drop (Z.to_nat k) r)) ++ fromChunks fuel r (k + 4096)
    else []
  end.
Definition decodeCodePointsArray (r : list Z) : str :=
  if len r <=? 4096 then fromCharCode r else fromChunks (length r) r 0.

Definition utf8Slice (t : list Z) (e n : Z) : str :=
  let n := Z.min (len t) n in
  decodeCodePointsArray (sliceLoop (length t) t e n).
End JSUtf8.
