(* ===== verification/JSUtf8Props.v ===== *)
(** UTF-8 round trip (JSUtf8): what a string becomes when it is encoded and decoded. *)
From stdpp Require Import prelude strings list.
From S2P Require Import Prelude.
From S2P Require Import JSBase.
From S2P Require Import JSUtf8.
Local Open Scope Z_scope.
Import JS JSUtf8.

Module JSUtf8Props.
Definition unit16 (c : Z) : Prop := 0 ≤ c < 65536.
Definition is_lead (c : Z) : bool := (55296 <=? c) && (c <=? 56319).
Definition is_trail (c : Z) : bool := (56320 <=? c) && (c <=? 57343).
Definition pair (a b : Z) : Z := 65536 + ((a - 55296) * 1024 + (b - 56320)).

(** The code points of a string, lone surrogates replaced, and the string of such code points. *)
Fixpoint scalars (s : str) : list Z :=
  match s with
  | [] => []
  | a :: s' =>
    if is_lead a then
      match s' with
      | b :: s'' => if is_trail b then pair a b :: scalars s'' else 65533 :: scalars s'
      | [] => [65533]
      end
    else if is_trail a then 65533 :: scalars s' else a :: scalars s'
  end.
(** The language's [toWellFormed]. *)
Fixpoint toWellFormed (s : str) : str :=
  match s with
  | [] => []
  | a :: s' =>
    if is_lead a then
      match s' with
      | b :: s'' => if is_trail b then a :: b :: toWellFormed s'' else 65533 :: toWellFormed s'
      | [] => [65533]
      end
    else if is_trail a then 65533 :: toWellFormed s' else a :: toWellFormed s'
  end.
Fixpoint two_leads_end (s : str) : bool :=
  match s with
  | [] => false
  | a :: s' => match s' with [b] => is_lead a && is_lead b | _ => two_leads_end s' end
  end.

Definition scalar (n : Z) : Prop := 0 ≤ n < 55296 ∨ 57344 ≤ n < 1114112.

(** *** Arithmetic of the encodings *)

Ltac div := Z.to_euclidean_division_equations; lia.

Lemma bor_disjoint a b n : 0 ≤ n → 0 ≤ a → a mod 2 ^ n = 0 → 0 ≤ b < 2 ^ n → a + b < 2 ^ 31 → bor a b = a + b.
Proof.
  intros Hn Ha Hm Hb Hs. assert (0 < 2 ^ n) by (apply Z.pow_pos_nonneg; lia).
  pose proof (Z.div_mod a (2 ^ n) ltac:(lia)) as Hd. rewrite Hm, Z.add_0_r, Z.mul_comm in Hd.
  assert (0 ≤ a / 2 ^ n) by (apply Z.div_pos; lia). rewrite Hd. apply bor_add; lia.
Qed.
Lemma bor_comm a b : bor a b = bor b a.
Proof. apply Z.lor_comm. Qed.
Lemma band_comm a b : band a b = band b a.
Proof. apply Z.land_comm. Qed.
Lemma band_low a n : 0 ≤ a < 2 ^ 31 → 0 ≤ n < 31 → band (2 ^ n - 1) a = a mod 2 ^ n.
Proof. intros. rewrite band_comm. by apply band_mask. Qed.

Definition enc_bytes (n : Z) : list Z :=
  if n <? 128 then [n]
  else if n <? 2048 then [192 + n / 64; 128 + n mod 64]
  else if n <? 65536 then [224 + n / 4096; 128 + n / 64 mod 64; 128 + n mod 64]
  else [240 + n / 262144; 128 + n / 4096 mod 64; 128 + n / 64 mod 64; 128 + n mod 64].

Lemma bor_128 x : 0 ≤ x < 64 → bor x 128 = 128 + x.
Proof. intros. rewrite bor_comm. apply (bor_disjoint 128 x 6); done || lia. Qed.
Lemma utf8_bytes_eq n : scalar n → utf8_bytes n = Some (enc_bytes n).
Proof.
  unfold scalar. intros Hn. unfold utf8_bytes, enc_bytes. change 63 with (2 ^ 6 - 1).
  destruct (Z.ltb_spec n 128); [done|].
  rewrite !shr_small, !(band_low n), !band_mask by div. change (2 ^ 6) with 64. change (2 ^ 12) with 4096.
  change (2 ^ 18) with 262144. rewrite !bor_128 by (apply Z.mod_pos_bound; lia).
  destruct (Z.ltb_spec n 2048).
  { rewrite bor_comm, (bor_disjoint 192 _ 6) by (done || lia || div). done. }
  destruct (Z.ltb_spec n 65536).
  { rewrite bor_comm, (bor_disjoint 224 _ 5) by (done || lia || div). done. }
  rewrite (proj2 (Z.ltb_lt n 1114112)) by lia.
  rewrite bor_comm, (bor_disjoint 240 _ 4) by (done || lia || div). done.
Qed.

Lemma cont_ok x : 0 ≤ x < 64 → is_cont (128 + x) = true ∧ band 63 (128 + x) = x.
Proof.
  intros Hx. assert (forallb (λ x, is_cont (128 + x) && (band 63 (128 + x) =? x)) (seqZ 0 64) = true) as H
    by (vm_compute; reflexivity).
  rewrite forallb_forall in H. specialize (H x). rewrite <- list_elem_of_In, elem_of_seqZ in H.
  specialize (H ltac:(lia)). apply andb_true_iff in H as [H1 H2%Z.eqb_eq]. done.
Qed.

Lemma byteAt_app pre (s : list Z) j x : 0 ≤ j → charCodeAt s j = Some x → byteAt (pre ++ s) (len pre + j) = x.
Proof.
  intros Hj Hx. unfold byteAt. by rewrite charCodeAt_app, Hx.
Qed.
Lemma byteAt_app_0 pre (s : list Z) x : charCodeAt s 0 = Some x → byteAt (pre ++ s) (len pre) = x.
Proof. intros Hx. rewrite <- (byteAt_app pre s 0 x) by done. by rewrite Z.add_0_r. Qed.

Lemma lead_bits k c x : 0 ≤ k < 8 → c mod 2 ^ k = 0 → 0 ≤ c → 0 ≤ x < 2 ^ k → c + x < 2 ^ 31 →
  band (2 ^ k - 1) (c + x) = x.
Proof.
  intros Hk Hc Hc0 Hx Hs. rewrite band_low by lia. rewrite Z.add_mod, Hc, Z.add_0_l by lia.
  rewrite Z.mod_mod by lia. by apply Z.mod_small.
Qed.

Lemma bor_2 a b : 0 ≤ a < 64 → 0 ≤ b < 64 → bor (shl a 6) b = a * 64 + b.
Proof. intros. rewrite shl_small, bor_add by lia. lia. Qed.
Lemma bor_3 a b c : 0 ≤ a < 64 → 0 ≤ b < 64 → 0 ≤ c < 64 →
  bor (bor (shl a 12) (shl b 6)) c = (a * 64 + b) * 64 + c.
Proof.
  intros. rewrite !shl_small, bor_add by lia.
  replace (a * 2 ^ 12 + b * 2 ^ 6) with ((a * 64 + b) * 2 ^ 6) by lia. rewrite bor_add by lia. lia.
Qed.
Lemma bor_4 a b c d : 0 ≤ a < 64 → 0 ≤ b < 64 → 0 ≤ c < 64 → 0 ≤ d < 64 →
  bor (bor (bor (shl a 18) (shl b 12)) (shl c 6)) d = ((a * 64 + b) * 64 + c) * 64 + d.
Proof.
  intros. rewrite !shl_small, bor_add by lia.
  replace (a * 2 ^ 18 + b * 2 ^ 12) with ((a * 64 + b) * 2 ^ 12) by lia. rewrite bor_add by lia.
  replace ((a * 64 + b) * 2 ^ 12 + c * 2 ^ 6) with (((a * 64 + b) * 64 + c) * 2 ^ 6) by lia.
  rewrite bor_add by lia. lia.
Qed.

(** One code point is read back. *)
Lemma decode_one pre n post : scalar n →
  let t := pre ++ enc_bytes n ++ post in
  let c := byteAt t (len pre) in
  bytesPerSequence c = len (enc_bytes n) ∧ codePoint t (len pre) c (bytesPerSequence c) = Some n.
Proof.
  intros Hn t c. unfold scalar in Hn. subst c t. unfold enc_bytes, bytesPerSequence, codePoint.
  destruct (Z.ltb_spec n 128).
  { rewrite (byteAt_app_0 _ _ n) by done.
    rewrite !(proj2 (Z.ltb_ge _ n)) by lia. cbn [Z.eqb Pos.eqb]. by rewrite (proj2 (Z.ltb_lt n 128)) by lia. }
  destruct (Z.ltb_spec n 2048).
  { rewrite (byteAt_app_0 _ _ (192 + n / 64)), (byteAt_app _ _ 1 (128 + n mod 64)) by done.
    destruct (cont_ok (n mod 64)) as [-> ->]; [apply Z.mod_pos_bound; lia|].
    rewrite !(proj2 (Z.ltb_ge _ (192 + n / 64))) by div. rewrite (proj2 (Z.ltb_lt 191 _)) by div.
    cbn [Z.eqb Pos.eqb]. split; [done|]. change 31 with (2 ^ 5 - 1).
    rewrite lead_bits, bor_2 by (done || div).
    replace (n / 64 * 64 + n mod 64) with n by div. by rewrite (proj2 (Z.ltb_lt _ _)) by lia. }
  destruct (Z.ltb_spec n 65536).
  { rewrite (byteAt_app_0 _ _ (224 + n / 4096)), (byteAt_app _ _ 1 (128 + n / 64 mod 64)),
      (byteAt_app _ _ 2 (128 + n mod 64)) by done.
    destruct (cont_ok (n mod 64)) as [-> ->]; [apply Z.mod_pos_bound; lia|].
    destruct (cont_ok (n / 64 mod 64)) as [-> ->]; [apply Z.mod_pos_bound; lia|].
    rewrite (proj2 (Z.ltb_ge 239 (224 + n / 4096))) by div. rewrite (proj2 (Z.ltb_lt 223 _)) by div.
    cbn [Z.eqb Pos.eqb]. split; [done|]. change 15 with (2 ^ 4 - 1).
    rewrite lead_bits, bor_3 by (done || div).
    replace ((n / 4096 * 64 + n / 64 mod 64) * 64 + n mod 64) with n by div.
    rewrite (proj2 (Z.ltb_lt 2047 n)) by lia. cbn [andb].
    destruct (Z.ltb_spec n 55296); [done|]. by rewrite (proj2 (Z.ltb_lt 57343 n)) by lia. }
  rewrite (byteAt_app_0 _ _ (240 + n / 262144)), (byteAt_app _ _ 1 (128 + n / 4096 mod 64)),
    (byteAt_app _ _ 2 (128 + n / 64 mod 64)), (byteAt_app _ _ 3 (128 + n mod 64)) by done.
  destruct (cont_ok (n mod 64)) as [-> ->]; [apply Z.mod_pos_bound; lia|].
  destruct (cont_ok (n / 64 mod 64)) as [-> ->]; [apply Z.mod_pos_bound; lia|].
  destruct (cont_ok (n / 4096 mod 64)) as [-> ->]; [apply Z.mod_pos_bound; lia|].
  rewrite (proj2 (Z.ltb_lt 239 (240 + n / 262144))) by div.
  cbn [Z.eqb Pos.eqb]. split; [done|]. change 15 with (2 ^ 4 - 1).
  rewrite lead_bits, bor_4 by (done || div).
  replace (((n / 262144 * 64 + n / 4096 mod 64) * 64 + n / 64 mod 64) * 64 + n mod 64) with n by div.
  rewrite (proj2 (Z.ltb_lt 65535 n)), (proj2 (Z.ltb_lt n 1114112)) by lia. done.
Qed.

(** *** Decoding a sequence of code points *)

Definition enc_all (ns : list Z) : list Z := ns ≫= enc_bytes.
Definition utf16 (n : Z) : str := if 65535 <? n then [55296 + (n - 65536) / 1024; 56320 + (n - 65536) mod 1024] else [n].

Lemma push_eq n : scalar n → push n = utf16 n.
Proof.
  unfold scalar. intros Hn. unfold push, utf16. destruct (Z.ltb_spec 65535 n); [|done].
  change 1023 with (2 ^ 10 - 1). rewrite shr_small, band_low, band_mask by div.
  change (2 ^ 10) with 1024. rewrite (Z.mod_small ((n - 65536) / 1024)) by div.
  rewrite bor_comm, (bor_disjoint 55296 _ 10), (bor_disjoint 56320 _ 10) by (done || lia || div). done.
Qed.

Lemma enc_bytes_len n : scalar n → 1 ≤ len (enc_bytes n).
Proof. intros _. unfold enc_bytes, len. repeat case_match; cbn [length]; lia. Qed.

Lemma sliceLoop_eq ns : ∀ fuel pre, Forall scalar ns → (length ns ≤ fuel)%nat →
  sliceLoop fuel (pre ++ enc_all ns) (len pre) (len pre + len (enc_all ns)) = ns ≫= utf16.
Proof.
  induction ns as [|n ns IH]; intros fuel pre Hs Hf.
  - change (enc_all []) with (@nil Z). rewrite len_nil, Z.add_0_r.
    destruct fuel; cbn [sliceLoop]; [done|]. by rewrite Z.ltb_irrefl.
  - apply Forall_cons in Hs as [Hn Hs]. destruct fuel as [|fuel]; [cbn in Hf; lia|].
    change (enc_all (n :: ns)) with (enc_bytes n ++ enc_all ns). rewrite len_app.
    pose proof (enc_bytes_len n Hn). pose proof (len_nonneg (enc_all ns)). cbn [sliceLoop].
    rewrite (proj2 (Z.ltb_lt _ _)) by lia.
    destruct (decode_one pre n (enc_all ns) Hn) as [Hl Hc]. rewrite Hc, Hl.
    rewrite (proj2 (Z.leb_le _ _)) by lia. rewrite push_eq by done. rewrite bind_cons. f_equal.
    specialize (IH fuel (pre ++ enc_bytes n) Hs ltac:(cbn in Hf; lia)).
    rewrite <- app_assoc, len_app in IH. by rewrite Z.add_assoc.
Qed.

Lemma fromCharCode_id r : Forall unit16 r → fromCharCode r = r.
Proof.
  unfold fromCharCode. induction 1 as [|c r Hc _ IH]; [done|]. cbn. change (list_fmap _ _) with (@fmap list _ Z Z).
  unfold unit16 in Hc. rewrite Z.mod_small by (change (2 ^ 16) with 65536; lia). by f_equal.
Qed.
Lemma fromChunks_eq fuel r k : Forall unit16 r → 0 ≤ k → len r ≤ k + Z.of_nat fuel →
  fromChunks fuel r k = drop (Z.to_nat k) r.
Proof.
  intros Hr. revert k. induction fuel as [|fuel IH]; intros k Hk Hf; cbn [fromChunks].
  - symmetry. apply drop_ge. unfold len in Hf. lia.
  - destruct (Z.ltb_spec k (len r)) as [Hlt|Hge].
    + rewrite fromCharCode_id by by apply Forall_take, Forall_drop. rewrite IH by lia.
      replace (Z.to_nat (k + 4096)) with (Z.to_nat k + 4096)%nat by lia. rewrite <- drop_drop.
      apply take_drop.
    + symmetry. apply drop_ge. unfold len in Hge. lia.
Qed.
Lemma decodeCodePointsArray_id r : Forall unit16 r → decodeCodePointsArray r = r.
Proof.
  intros Hr. unfold decodeCodePointsArray. destruct (_ <=? _); [by apply fromCharCode_id|].
  rewrite fromChunks_eq; [done|done|lia|unfold len; lia].
Qed.

Lemma utf16_units n : scalar n → Forall unit16 (utf16 n).
Proof.
  unfold scalar, utf16, unit16. intros Hn. destruct (Z.ltb_spec 65535 n); repeat constructor; div.
Qed.
Lemma slice_all ns : Forall scalar ns → utf8Slice (enc_all ns) 0 (len (enc_all ns)) = ns ≫= utf16.
Proof.
  intros Hs. unfold utf8Slice. rewrite Z.min_id.
  pose proof (sliceLoop_eq ns (length (enc_all ns)) [] Hs) as Hl. cbn [app] in Hl. change (len []) with 0 in Hl.
  rewrite Z.add_0_l in Hl. rewrite Hl.
  - apply decodeCodePointsArray_id. apply Forall_bind. eapply Forall_impl; [exact Hs|]. apply utf16_units.
  - clear Hl. induction Hs as [|n ns Hn _ IH]; [done|]. change (enc_all (n :: ns)) with (enc_bytes n ++ enc_all ns).
    rewrite length_app. pose proof (enc_bytes_len n Hn). unfold len in *. cbn [length]. lia.
Qed.

(** *** Encoding a string *)

Lemma is_lead_spec c : is_lead c = true ↔ 55296 ≤ c ≤ 56319.
Proof. unfold is_lead. rewrite andb_true_iff, !Z.leb_le. done. Qed.
Lemma is_trail_spec c : is_trail c = true ↔ 56320 ≤ c ≤ 57343.
Proof. unfold is_trail. rewrite andb_true_iff, !Z.leb_le. done. Qed.

Lemma pair_eq a b : is_lead a = true → is_trail b = true →
  65536 + bor (shl (a - 55296) 10) (b - 56320) = pair a b ∧ scalar (pair a b) ∧ utf16 (pair a b) = [a; b].
Proof.
  rewrite is_lead_spec, is_trail_spec. intros Ha Hb. unfold pair, scalar, utf16.
  rewrite shl_small, bor_add by lia. change (2 ^ 10) with 1024. split; [done|]. split; [lia|].
  rewrite (proj2 (Z.ltb_lt 65535 _)) by lia. f_equal; [div|]. f_equal. div.
Qed.

(** Induction along the surrogate pairs of a string. *)
Lemma surrogate_ind (P : str → Prop) :
  P [] → (∀ a, is_lead a = true → P [a]) →
  (∀ a b s, is_lead a = true → is_trail b = true → P s → P (a :: b :: s)) →
  (∀ a b s, is_lead a = true → is_trail b = false → P (b :: s) → P (a :: b :: s)) →
  (∀ a s, is_lead a = false → P s → P (a :: s)) → ∀ s, P s.
Proof.
  intros H0 H1 Hpair Hlone Hother s. remember (length s) as n eqn:Hn. revert s Hn.
  induction n as [n IH] using lt_wf_ind. intros [|a s] ->; [done|].
  destruct (is_lead a) eqn:Ea; [|apply Hother; [done|]; eapply IH; [|done]; cbn; lia].
  destruct s as [|b s]; [by apply H1|]. destruct (is_trail b) eqn:Eb.
  - apply Hpair; [done..|]. eapply IH; [|done]. cbn. lia.
  - apply Hlone; [done..|]. eapply IH; [|done]. cbn. lia.
Qed.

Lemma scalar_fffd : scalar 65533.
Proof. right. lia. Qed.
Lemma scalar_other a : unit16 a → is_lead a = false → is_trail a = false → scalar a.
Proof.
  unfold unit16, scalar. intros Ha Hl Ht. rewrite <- not_true_iff_false, is_lead_spec in Hl.
  rewrite <- not_true_iff_false, is_trail_spec in Ht. lia.
Qed.

Lemma scalars_lone a b s : is_lead a = true → is_trail b = false →
  scalars (a :: b :: s) = 65533 :: scalars (b :: s) ∧
  toWellFormed (a :: b :: s) = 65533 :: toWellFormed (b :: s).
Proof. intros Ea Eb. cbn. by rewrite Ea, Eb. Qed.
Lemma scalars_pair a b s : is_lead a = true → is_trail b = true →
  scalars (a :: b :: s) = pair a b :: scalars s ∧ toWellFormed (a :: b :: s) = a :: b :: toWellFormed s.
Proof. intros Ea Eb. cbn. by rewrite Ea, Eb. Qed.
Lemma scalars_single a s : is_lead a = false →
  scalars (a :: s) = (if is_trail a then 65533 else a) :: scalars s ∧
  toWellFormed (a :: s) = (if is_trail a then 65533 else a) :: toWellFormed s.
Proof. intros Ea. cbn. rewrite Ea. by destruct (is_trail a). Qed.

Lemma scalars_scalar s : Forall unit16 s → Forall scalar (scalars s).
Proof.
  induction s as [|a Ea|a b s Ea Eb IH|a b s Ea Eb IH|a s Ea IH] using surrogate_ind; intros Hs.
  - constructor.
  - cbn. rewrite Ea. constructor; [apply scalar_fffd|constructor].
  - rewrite !Forall_cons in Hs. destruct (scalars_pair a b s Ea Eb) as [-> _].
    constructor; [by apply (pair_eq a b)|by apply IH, Hs].
  - rewrite Forall_cons in Hs. destruct (scalars_lone a b s Ea Eb) as [-> _].
    constructor; [apply scalar_fffd|by apply IH, Hs].
  - rewrite Forall_cons in Hs. destruct Hs as [Ha Hs]. destruct (scalars_single a s Ea) as [-> _].
    destruct (is_trail a) eqn:Eb; constructor; try (by apply IH); [apply scalar_fffd|by apply scalar_other].
Qed.

Lemma utf16_low n : n ≤ 65535 → utf16 n = [n].
Proof. intros. unfold utf16. by rewrite (proj2 (Z.ltb_ge _ _)). Qed.
Lemma scalars_wf s : Forall unit16 s → scalars s ≫= utf16 = toWellFormed s.
Proof.
  induction s as [|a Ea|a b s Ea Eb IH|a b s Ea Eb IH|a s Ea IH] using surrogate_ind; intros Hs.
  - done.
  - cbn [scalars toWellFormed]. by rewrite Ea.
  - rewrite !Forall_cons in Hs. destruct (scalars_pair a b s Ea Eb) as [-> ->]. rewrite bind_cons.
    destruct (pair_eq a b Ea Eb) as (_ & _ & ->). rewrite IH by apply Hs. done.
  - rewrite Forall_cons in Hs. destruct (scalars_lone a b s Ea Eb) as [-> ->]. rewrite bind_cons.
    destruct Hs as [_ Hs]. rewrite <- (IH Hs). by rewrite utf16_low.
  - rewrite Forall_cons in Hs. destruct Hs as [Ha Hs]. unfold unit16 in Ha.
    destruct (scalars_single a s Ea) as [-> ->].
    destruct (is_trail a); rewrite bind_cons, utf16_low, IH by (done || lia); done.
Qed.

Lemma surrogate_range n : (55295 <? n) && (n <? 57344) = is_lead n || is_trail n.
Proof.
  apply Bool.eq_true_iff_eq. rewrite andb_true_iff, orb_true_iff, is_lead_spec, is_trail_spec, !Z.ltb_lt. lia.
Qed.
Lemma lead_not_trail n : is_lead n = true → is_trail n = false ∧ (56319 <? n) = false ∧ (n <? 56320) = true.
Proof.
  rewrite is_lead_spec. intros. rewrite <- (not_true_iff_false (is_trail n)), is_trail_spec,
    Z.ltb_ge, Z.ltb_lt. lia.
Qed.
Lemma trail_not_lead n : is_trail n = true → is_lead n = false ∧ (56319 <? n) = true ∧ (n <? 56320) = false.
Proof.
  rewrite is_trail_spec. intros. rewrite <- (not_true_iff_false (is_lead n)), is_lead_spec,
    Z.ltb_ge, Z.ltb_lt. lia.
Qed.
Lemma two_leads_tail a s : two_leads_end (a :: s) = false → two_leads_end s = false.
Proof. destruct s as [|b [|c s]]; done. Qed.

Lemma enc_all_cons n ns : enc_all (n :: ns) = enc_bytes n ++ enc_all ns.
Proof. done. Qed.

Lemma utf8Loop_eq s : Forall unit16 s →
  (two_leads_end s = false → utf8Loop s None None = Ok (enc_all (scalars s))) ∧
  (∀ i, is_lead i = true → s ≠ [] → two_leads_end (i :: s) = false →
    utf8Loop s None (Some i) = Ok (enc_all (scalars (i :: s)))).
Proof.
  induction 1 as [|n s Hn Hs [IH0 IH1]]; [done|]. split.
  - intros Ht. cbn [utf8Loop]. rewrite surrogate_range. destruct (is_lead n) eqn:El.
    + destruct (lead_not_trail n El) as (Er & -> & _). cbn [orb].
      destruct s as [|b s]; [cbn [scalars]; by rewrite El|]. rewrite bool_decide_eq_false_2 by done.
      by apply IH1.
    + cbn [orb]. destruct (scalars_single n s El) as [-> _]. specialize (IH0 (two_leads_tail _ _ Ht)). destruct (is_trail n) eqn:Er.
      * destruct (trail_not_lead n Er) as (_ & -> & _). cbn. by rewrite IH0.
      * rewrite utf8_bytes_eq by by apply scalar_other. cbn. by rewrite IH0.
  - intros i Hi _ Ht. cbn [utf8Loop]. rewrite surrogate_range.
    destruct (is_trail n) eqn:Er.
    + destruct (trail_not_lead n Er) as (-> & _ & ->). destruct (scalars_pair i n s Hi Er) as [-> _]. cbn [orb].
      destruct (pair_eq i n Hi Er) as (-> & Hsc & _). rewrite utf8_bytes_eq by done. cbn [spend fmap option_fmap option_map left].
      rewrite IH0 by by apply two_leads_tail with n, two_leads_tail with i. done.
    + destruct (scalars_lone i n s Hi Er) as [-> _]. destruct (is_lead n) eqn:El; cbn [orb].
      * destruct (lead_not_trail n El) as (_ & _ & ->). cbn [replacement spend fmap option_fmap option_map left].
        destruct s as [|b s]; [cbn in Ht; by rewrite Hi, El in Ht|].
        rewrite (IH1 n El) by (done || by apply two_leads_tail with i). done.
      * cbn [replacement spend fmap option_fmap option_map left]. rewrite utf8_bytes_eq by by apply scalar_other.
        destruct (scalars_single n s El) as [-> _]. rewrite Er. cbn [left].
        rewrite IH0 by by apply two_leads_tail with n, two_leads_tail with i. done.
Qed.

(** *** Limits *)

Lemma utf8_bytes_total n : n < 1114112 → ∃ cs, utf8_bytes n = Some cs.
Proof. intros Hn. unfold utf8_bytes. repeat case_match; eauto. lia. Qed.
Definition lead_ok (lead : option Z) : Prop :=
  match lead with None => True | Some i => is_lead i = true end.

(** A limited and an unlimited run write the same until the limit is reached. *)
Definition limited (x : Z) (m m' : outcome (list Z)) : Prop :=
  ∃ bs rest, m = Ok bs ∧ m' = Ok (bs ++ rest) ∧ len bs ≤ Z.max 0 x.
Lemma limited_prefix x cs m m' : len cs ≤ x → limited (x - len cs) m m' →
  limited x (rest ← m; Ok (cs ++ rest)) (rest ← m'; Ok (cs ++ rest)).
Proof.
  intros Hx (bs & rest & -> & -> & Hl). exists (cs ++ bs), rest. split; [done|]. split.
  - cbn. by rewrite app_assoc.
  - rewrite len_app. pose proof (len_nonneg cs). lia.
Qed.
Lemma limited_over x y m m' cs : x < 0 → limited x m m' → y < len cs →
  limited y (rest ← m; Ok ([] ++ rest)) (rest ← m'; Ok (cs ++ rest)).
Proof.
  intros Hx (bs & rest & -> & -> & Hl) Hy. assert (bs = []) as -> by
    (destruct bs; [done|]; rewrite len_cons in Hl; pose proof (len_nonneg bs); lia).
  exists [], (cs ++ rest). split; [done|]. split; [done|]. rewrite len_nil. lia.
Qed.
Lemma limited_replacement x f : (∀ u, limited u (f (Some u)) (f None)) →
  limited x (let '(bs, units) := replacement (Some x) in rest ← f units; Ok (bs ++ rest))
            (let '(bs, units) := replacement None in rest ← f units; Ok (bs ++ rest)).
Proof.
  intros Hf. cbn. destruct (Z.ltb_spec (-1) (x - 3)).
  - apply (limited_prefix x [239; 191; 189]); [unfold len; cbn; lia|]. apply Hf.
  - apply (limited_over (x - 3) x _ _ [239; 191; 189]); [lia|apply Hf|unfold len; cbn; lia].
Qed.

(** The character after the pending bytes [bs], which are dropped in the limited run when they did not
    fit. *)
Lemma limited_encode n s b bs u x :
  n < 1114112 → (∀ u, limited u (utf8Loop s (Some u) None) (utf8Loop s None None)) →
  (b = bs ∧ u = x - len bs ∧ len bs ≤ Z.max 0 x ∨ b = [] ∧ u < 0) →
  limited x
    (match utf8_bytes n with
     | None => Err "Invalid code point"
     | Some cs => if left (spend (Some u) (len cs))
                  then rest ← utf8Loop s (spend (Some u) (len cs)) None; Ok (b ++ cs ++ rest)
                  else Ok b
     end)
    (match utf8_bytes n with
     | None => Err "Invalid code point"
     | Some cs => if left (spend None (len cs))
                  then rest ← utf8Loop s (spend None (len cs)) None; Ok (bs ++ cs ++ rest)
                  else Ok bs
     end).
Proof.
  intros Hn IH Hb. destruct (utf8_bytes_total n Hn) as (cs & ->). cbn. pose proof (len_nonneg cs).
  pose proof (len_nonneg bs). destruct (IH (u - len cs)) as (rs & rest & H1 & H2 & H3). rewrite H2. cbn.
  destruct (Z.ltb_spec (-1) (u - len cs)).
  - destruct Hb as [(-> & -> & Hx)|[_ Hu]]; [|lia]. rewrite H1. cbn. exists (bs ++ cs ++ rs), rest.
    split; [done|]. split; [by rewrite <- !app_assoc|]. rewrite !len_app. lia.
  - destruct Hb as [(-> & -> & Hx)|[-> Hu]].
    + exists bs, (cs ++ rs ++ rest). split; [done|]. split; [done|]. lia.
    + exists [], (bs ++ cs ++ rs ++ rest). split; [done|]. split; [done|]. rewrite len_nil. lia.
Qed.

Lemma utf8Loop_limit s : ∀ lead x, Forall unit16 s → lead_ok lead →
  limited x (utf8Loop s (Some x) lead) (utf8Loop s None lead).
Proof.
  induction s as [|n s IH]; intros lead x Hs Hlead.
  { exists [], []. split; [done|]. split; [done|]. rewrite len_nil. lia. }
  apply Forall_cons in Hs as [Hn Hs]. unfold unit16 in Hn. cbn [utf8Loop].
  assert (∀ u, limited u (utf8Loop s (Some u) None) (utf8Loop s None None)) as IH0 by (intros; by apply IH).
  rewrite surrogate_range. destruct (is_lead n) eqn:El; cbn [orb].
  - destruct (lead_not_trail n El) as (_ & -> & ->). destruct lead as [i|].
    + apply (limited_replacement x (λ u, utf8Loop s u (Some n))). intros u. by apply IH.
    + destruct (bool_decide _); [|by apply IH]. by apply (limited_replacement x (λ u, utf8Loop s u None)).
  - destruct (is_trail n) eqn:Er.
    + destruct (trail_not_lead n Er) as (_ & -> & ->). destruct lead as [i|].
      * destruct (pair_eq i n Hlead Er) as (-> & Hsc & _). apply (limited_encode _ _ [] []); [|done|].
        -- destruct Hsc; lia.
        -- left. split; [done|]. rewrite len_nil. split; lia.
      * by apply (limited_replacement x (λ u, utf8Loop s u None)).
    + destruct lead as [i|].
      * cbn [replacement spend fmap option_fmap option_map left].
        apply limited_encode; [lia|done|]. destruct (Z.ltb_spec (-1) (x - 3)); [left|right; split; [done|lia]].
        split; [done|]. unfold len. cbn [length]. split; lia.
      * apply (limited_encode _ _ [] []); [lia|done|]. left. split; [done|]. rewrite len_nil. split; lia.
Qed.

(** *** The properties *)

(** C38. Encoding a string as UTF-8 and decoding the bytes gives the string with every lone surrogate
    replaced by U+FFFD, as the language's [toWellFormed] does; so a well-formed string comes back
    unchanged.  The strings whose last two units are both lead surrogates are the exception. *)
Theorem utf8_roundtrip (s : str) :
  Forall unit16 s → two_leads_end s = false →
  ∃ bs, utf8ToBytes s None = Ok bs ∧ utf8Slice bs 0 (len bs) = toWellFormed s.
Proof.
  intros Hs Ht. exists (enc_all (scalars s)). split; [by apply utf8Loop_eq|].
  rewrite slice_all by by apply scalars_scalar. by apply scalars_wf.
Qed.
Lemma utf8_roundtrip_witness :
  toWellFormed [65; 8364; 55357; 56832; 55357; 66] = [65; 8364; 55357; 56832; 65533; 66] ∧
  ∃ bs, utf8ToBytes [65; 8364; 55357; 56832; 55357; 66] None = Ok bs ∧
    utf8Slice bs 0 (len bs) = toWellFormed [65; 8364; 55357; 56832; 55357; 66].
Proof.
  split; [vm_compute; reflexivity|]. apply utf8_roundtrip; [|vm_compute; reflexivity].
  repeat constructor; unfold unit16; lia.
Defined.

(** With a limit on the bytes to write, encoding writes at most that many, and what it writes is a
    prefix of the whole encoding that stops between characters. *)
Theorem utf8_limit (s : str) (e : Z) :
  Forall unit16 s → 0 < e →
  ∃ bs rest, utf8ToBytes s (Some e) = Ok bs ∧ utf8ToBytes s None = Ok (bs ++ rest) ∧ len bs ≤ e.
Proof.
  intros Hs He. destruct (utf8Loop_limit s None e Hs I) as (bs & rest & H1 & H2 & H3).
  exists bs, rest. split; [by destruct e|]. split; [done|]. lia.
Qed.
Lemma utf8_limit_witness :
  utf8ToBytes [65; 8364; 66] (Some 3) = Ok [65] ∧
  ∃ bs rest, utf8ToBytes [65; 8364; 66] (Some 3) = Ok bs ∧
    utf8ToBytes [65; 8364; 66] None = Ok (bs ++ rest) ∧ len bs ≤ 3.
Proof.
  split; [vm_compute; reflexivity|]. apply utf8_limit; [|lia]. repeat constructor; unfold unit16; lia.
Defined.

(** Two lead surrogates at the end give one replacement character: the second is dropped. *)
Lemma two_leads_dropped :
  utf8ToBytes [55357; 55357] None = Ok [239; 191; 189] ∧
  toWellFormed [55357; 55357] = [65533; 65533].
Proof. split; vm_compute; reflexivity. Qed.
End JSUtf8Props.
