(* ===== verification/JSSwagger.v ===== *)
(** Parameter validation in Swagger UI (swagger-ui.js): the function minified to [Ne]
    ([validateValueBySchema]) on the values the "try it out" form produces, which are strings, for the
    schema types string, boolean, number and integer.

    [Ne(e, t, n, r, o)] reads the schema [t]; [n] and [required] force the value, [r] bypasses that.
    Numbers are IEEE doubles; their truth, text and comparison with a string are the class [JSNumbers].
    The engine of user-given patterns and [Date.parse] are parameters too. *)
From stdpp Require Import prelude strings list.
From S2P Require Import Prelude.
From S2P Require Import JSBase.
Local Open Scope Z_scope.
Import JS.

Module JSSwagger.
Class JSNumbers : Type := {
  num : Type;
  truthy : num → bool;
  is_zero : num → bool;
  of_length : nat → num;
  num_gt : num → num → bool;
  num_lt : num → num → bool;
  str_gt : str → num → bool;
  str_lt : str → num → bool;
  is_one : num → bool;
  num_text : num → str;
}.
Class JSRuntime : Type := {
  RegExp_test : str → str → bool;
  Date_parse_isNaN : str → bool;
}.

(** *** Checks of the text alone *)

Definition is_d (c : Z) : bool := (48 <=? c) && (c <=? 57).
Definition digit : re := Cls is_d.
Definition minus : re := Opt (Chr 45).
(** [/^-?\d+$/]. *)
Definition integer_re : re := Seq minus (Plus digit).
(** [/^-?\d+(\.?\d+)?$/]. *)
Definition number_re : re := Seq minus (Seq (Plus digit) (Opt (Seq (Opt (Chr 46)) (Plus digit)))).
(** [/^[{(]?[0-9a-f]{8}-[0-9a-f]{4}-[0-9a-f]{4}-[0-9a-f]{4}-[0-9a-f]{12}[)}]?$/]. *)
Definition hex : re := Cls (λ c, is_d c || ((97 <=? c) && (c <=? 102))).
Definition dash : re := Chr 45.
Definition guid_re : re :=
  Seq (Opt (Cls (λ c, (c =? 123) || (c =? 40))))
    (Seq (Rep 8 hex) (Seq dash (Seq (Rep 4 hex) (Seq dash (Seq (Rep 4 hex) (Seq dash
      (Seq (Rep 4 hex) (Seq dash (Seq (Rep 12 hex) (Opt (Cls (λ c, (c =? 41) || (c =? 125))))))))))))).

(** [toLowerCase], as far as the pattern sees it: no other character becomes one of the pattern's. *)
Definition toLowerCase (s : str) : str := (λ c, if (65 <=? c) && (c <=? 90) then c + 32 else c) <$> s.

Definition validateNumber (e : str) : option str :=
  if negb (re_test number_re e) then Some (of_string "Value must be a number") else None.
Definition validateInteger (e : str) : option str :=
  if negb (re_test integer_re e) then Some (of_string "Value must be an integer") else None.
Definition validateBoolean (e : str) : option str :=
  if bool_decide (e ≠ of_string "true") && bool_decide (e ≠ of_string "false")
  then Some (of_string "Value must be a boolean") else None.
Definition validateGuid (e : str) : option str :=
  if negb (re_test guid_re (toLowerCase e)) then Some (of_string "Value must be a Guid") else None.

Section checks.
  Context {N : JSNumbers} {R : JSRuntime}.

Definition validateDateTime (e : str) : option str :=
  if Date_parse_isNaN e then Some (of_string "Value must be a DateTime") else None.
(** [if(e&&"string"!=typeof e)]: never, for a string. *)
Definition validateString (e : str) : option str := None.
Definition validatePattern (e t : str) : option str :=
  if negb (RegExp_test t e) then Some (of_string "Value must follow pattern " ++ t) else None.

Definition plural (t : num) : str := if is_one t then [] else of_string "s".
Definition validateMaxLength (e : str) (t : num) : option str :=
  if num_gt (of_length (length e)) t
  then Some (of_string "Value must be no longer than " ++ num_text t ++ of_string " character" ++ plural t)
  else None.
Definition validateMinLength (e : str) (t : num) : option str :=
  if num_lt (of_length (length e)) t
  then Some (of_string "Value must be at least " ++ num_text t ++ of_string " character" ++ plural t)
  else None.
Definition validateMaximum (e : str) (t : num) : option str :=
  if str_gt e t then Some (of_string "Value must be less than " ++ num_text t) else None.
Definition validateMinimum (e : str) (t : num) : option str :=
  if str_lt e t then Some (of_string "Value must be greater than " ++ num_text t) else None.

(** *** The schema and the whole check *)

Inductive schemaType := TString | TBoolean | TNumber | TInteger.
Record schema := {
  type : schemaType;
  format : option str;
  required : bool;
  pattern : option str;
  maximum : option num;
  minimum : option num;
  maxLength : option num;
  minLength : option num
}.

(** [if(p||0===p)] and [if(b)], for a number or [undefined]. *)
Definition present (p : option num) : option num :=
  match p with Some t => if truthy t || is_zero t then Some t else None | None => None end.
Definition nonzero (b : option num) : option num :=
  match b with Some t => if truthy t then Some t else None | None => None end.
Definition check {A} (o : option A) (f : A → option str) : list str :=
  match o with Some t => option_list (f t) | None => [] end.

Definition typeCheck (t : schema) (e : str) : option str :=
  match type t with
  | TString =>
    if bool_decide (format t = Some (of_string "date-time")) then validateDateTime e
    else if bool_decide (format t = Some (of_string "uuid")) then validateGuid e
    else validateString e
  | TBoolean => validateBoolean e
  | TNumber => validateNumber e
  | TInteger => validateInteger e
  end.

(** [Ne]: the errors, in order.  An empty pattern is no pattern. *)
Definition validateValueBySchema (e : str) (t : schema) (n r : bool) : list str :=
  let O := n || required t in
  let P := negb (bool_decide (e = [])) in
  if O && negb P && negb r then [of_string "Required field is not provided"]
  else
    (match pattern t with
     | Some ((_ :: _) as j) => option_list (validatePattern e j)
     | _ => []
     end) ++
    check (present (maxLength t)) (validateMaxLength e) ++
    check (nonzero (minLength t)) (validateMinLength e) ++
    check (present (maximum t)) (validateMaximum e) ++
    check (present (minimum t)) (validateMinimum e) ++
    option_list (typeCheck t e).
End checks.

(** *** Properties *)

Lemma matches_minus u : matches minus u ↔ u = [] ∨ u = [45].
Proof.
  unfold minus, Opt, Chr. rewrite matches_Alt, matches_Eps, matches_Cls. split.
  - intros [->|(c & -> & ->%Z.eqb_eq)]; eauto.
  - intros [->| ->]; [by left|right; by exists 45].
Qed.
Lemma is_d_spec c : is_d c = true ↔ 48 ≤ c ≤ 57.
Proof. unfold is_d. by rewrite andb_true_iff, !Z.leb_le. Qed.
Definition digits (ds : str) : Prop := ds ≠ [] ∧ Forall (λ c, 48 ≤ c ≤ 57) ds.
Lemma matches_digits ds : matches (Plus digit) ds ↔ digits ds.
Proof.
  unfold digit, digits. rewrite matches_Plus_Cls. split; intros [H1 H2]; (split; [done|]);
    (eapply Forall_impl; [exact H2|]); intros c; apply is_d_spec.
Qed.

Lemma integer_syntax e :
  re_test integer_re e = true ↔ ∃ sign ds, e = sign ++ ds ∧ (sign = [] ∨ sign = [45]) ∧ digits ds.
Proof.
  rewrite re_test_matches. unfold integer_re. rewrite matches_Seq.
  by setoid_rewrite matches_minus; setoid_rewrite matches_digits.
Qed.
Lemma number_syntax e :
  re_test number_re e = true ↔ ∃ sign ds frac, e = sign ++ ds ++ frac ∧ (sign = [] ∨ sign = [45]) ∧
    digits ds ∧ (frac = [] ∨ ∃ fs, frac = 46 :: fs ∧ digits fs).
Proof.
  rewrite re_test_matches. unfold number_re. rewrite matches_Seq. setoid_rewrite matches_minus.
  setoid_rewrite matches_Seq. setoid_rewrite matches_digits. unfold Opt, Chr.
  setoid_rewrite matches_Alt. setoid_rewrite matches_Eps. setoid_rewrite matches_Seq.
  setoid_rewrite matches_Alt. setoid_rewrite matches_Eps. setoid_rewrite matches_Cls.
  setoid_rewrite matches_digits. split.
  - intros (u & v & -> & Hu & ds & w & -> & Hds & [->|(x & fs & -> & [->|(c & -> & ->%Z.eqb_eq)] & Hfs)]).
    + exists u, ds, []. eauto.
    + exists u, (ds ++ fs), []. rewrite !app_nil_r. split; [done|]. split; [done|]. split; [|by left].
      destruct Hds as [H1 H2], Hfs as [H3 H4]. split; [by destruct ds|by apply Forall_app].
    + exists u, ds, (46 :: fs). split; [done|]. split; [done|]. split; [done|]. right. eauto.
  - intros (sign & ds & frac & -> & Hs & Hds & Hf). exists sign, (ds ++ frac). split; [done|].
    split; [done|]. exists ds, frac. split; [done|]. split; [done|].
    destruct Hf as [->|(fs & -> & Hfs)]; [by left|]. right. exists [46], fs.
    split; [done|]. split; [|done]. right. by exists 46.
Qed.

Section validation.
  Context {N : JSNumbers} {R : JSRuntime}.

Definition unconstrained (ty : schemaType) (req : bool) : schema :=
  {| type := ty; format := None; required := req; pattern := None; maximum := None; minimum := None;
     maxLength := None; minLength := None |}.

Lemma option_list_nil {A} (o : option A) : option_list o = [] ↔ o = None.
Proof. by destruct o. Qed.
Lemma check_nil {A} (o : option A) f : check o f = [] ↔ ∀ t, o = Some t → f t = None.
Proof.
  destruct o as [t|]; cbn; [|naive_solver]. rewrite option_list_nil. split; [by intros H t' [= <-]|auto].
Qed.

(** What acceptance means, check by check. *)
Lemma accepted_iff e t n :
  validateValueBySchema e t n false = [] ↔
  (n || required t = true → e ≠ []) ∧
  (∀ j, pattern t = Some j → j ≠ [] → RegExp_test j e = true) ∧
  (∀ m, present (maxLength t) = Some m → num_gt (of_length (length e)) m = false) ∧
  (∀ m, nonzero (minLength t) = Some m → num_lt (of_length (length e)) m = false) ∧
  (∀ m, present (maximum t) = Some m → str_gt e m = false) ∧
  (∀ m, present (minimum t) = Some m → str_lt e m = false) ∧ typeCheck t e = None.
Proof.
  unfold validateValueBySchema. rewrite andb_true_r, negb_involutive.
  destruct ((n || required t) && bool_decide (e = [])) eqn:Ereq.
  { apply andb_true_iff in Ereq as [E1 E2%bool_decide_eq_true]. split; [done|]. intros [H _]. by apply H in E1. }
  rewrite !app_nil, !check_nil, option_list_nil.
  assert ((n || required t = true → e ≠ []) ↔ True) as ->.
  { split; [done|]. intros _ H1 ->. by rewrite H1 in Ereq. }
  assert (∀ (b : bool) (x : str), (if b then Some x else None) = None ↔ b = false) as Hif by (by intros []).
  assert (∀ (b : bool) (x : str), (if negb b then Some x else None) = None ↔ b = true) as Hnif by (by intros []).
  assert (match pattern t with Some ((_ :: _) as j) => option_list (validatePattern e j) | _ => [] end = []
    ↔ ∀ j, pattern t = Some j → j ≠ [] → RegExp_test j e = true) as ->.
  { destruct (pattern t) as [[|c j]|]; [naive_solver| |naive_solver].
    rewrite option_list_nil. unfold validatePattern. rewrite Hnif. split; [by intros H j' [= <-] _|].
    intros H. by apply H. }
  unfold validateMaxLength, validateMinLength, validateMaximum, validateMinimum.
  repeat setoid_rewrite Hif. naive_solver.
Qed.
(** The same schema with another type. *)
Definition retyped (ty : schemaType) (t : schema) : schema :=
  {| type := ty; format := format t; required := required t; pattern := pattern t; maximum := maximum t;
     minimum := minimum t; maxLength := maxLength t; minLength := minLength t |}.
Lemma typed_number e t : typeCheck (retyped TNumber t) e = None ↔ re_test number_re e = true.
Proof. unfold typeCheck, validateNumber. cbn. by destruct (re_test _ _). Qed.
Lemma typed_integer e t : typeCheck (retyped TInteger t) e = None ↔ re_test integer_re e = true.
Proof. unfold typeCheck, validateInteger. cbn. by destruct (re_test _ _). Qed.
Lemma no_dot sign ds : sign = [] ∨ sign = [45] → digits ds → 46 ∉ sign ++ ds.
Proof.
  intros Hs [_ Hd] [H|H]%elem_of_app.
  - destruct Hs as [->| ->]; [by apply elem_of_nil in H|]. by apply list_elem_of_singleton in H.
  - rewrite Forall_forall in Hd. specialize (Hd _ H). lia.
Qed.
End validation.

(** C40. Exactly when a form value is accepted: a required value is not empty, every limit the schema
    sets holds, and the text has the schema's type: an integer is digits with an optional minus, a
    number may have a fraction after a dot, a boolean is [true] or [false]; an empty optional value is
    not accepted as a number. *)
Theorem form_value_accepted (N : JSNumbers) (R : JSRuntime) (e : str) (t : schema) (n : bool) :
  validateValueBySchema e t n false = [] ↔
  (n || required t = true → e ≠ []) ∧
  (∀ j, pattern t = Some j → j ≠ [] → RegExp_test j e = true) ∧
  (∀ m, present (maxLength t) = Some m → num_gt (of_length (length e)) m = false) ∧
  (∀ m, nonzero (minLength t) = Some m → num_lt (of_length (length e)) m = false) ∧
  (∀ m, present (maximum t) = Some m → str_gt e m = false) ∧
  (∀ m, present (minimum t) = Some m → str_lt e m = false) ∧
  match type t with
  | TInteger => ∃ sign ds, e = sign ++ ds ∧ (sign = [] ∨ sign = [45]) ∧ digits ds
  | TNumber => ∃ sign ds frac, e = sign ++ ds ++ frac ∧ (sign = [] ∨ sign = [45]) ∧
      digits ds ∧ (frac = [] ∨ ∃ fs, frac = 46 :: fs ∧ digits fs)
  | TBoolean => e = of_string "true" ∨ e = of_string "false"
  | TString =>
    (format t = Some (of_string "date-time") → Date_parse_isNaN e = false) ∧
    (format t = Some (of_string "uuid") → re_test guid_re (toLowerCase e) = true)
  end.
Proof.
  rewrite accepted_iff. do 6 f_equiv. unfold typeCheck. destruct (type t).
  - repeat case_bool_decide; simplify_eq; unfold validateDateTime, validateGuid, validateString.
    + destruct (Date_parse_isNaN e); naive_solver.
    + destruct (re_test _ _); naive_solver.
    + naive_solver.
  - unfold validateBoolean. repeat case_bool_decide; naive_solver.
  - rewrite <- number_syntax. unfold validateNumber. by destruct (re_test _ _).
  - rewrite <- integer_syntax. unfold validateInteger. by destruct (re_test _ _).
Qed.

(** C39. Integers are the numbers without a dot.  Whatever the other limits of a schema, a value is accepted
    as an integer exactly when it is accepted as a number and has no dot. *)
Theorem integers_are_numbers (N : JSNumbers) (R : JSRuntime) (e : str) (t : schema) (n : bool) :
  validateValueBySchema e (retyped TInteger t) n false = [] ↔
  validateValueBySchema e (retyped TNumber t) n false = [] ∧ 46 ∉ e.
Proof.
  rewrite !accepted_iff, typed_integer, typed_number, integer_syntax, number_syntax.
  cbn [retyped pattern maxLength minLength maximum minimum required]. split.
  - intros (H1 & H2 & H3 & H4 & H5 & H6 & sign & ds & -> & Hs & Hd).
    split; [|by apply no_dot]. do 6 (split; [done|]). exists sign, ds, []. rewrite app_nil_r. auto.
  - intros [(H1 & H2 & H3 & H4 & H5 & H6 & sign & ds & frac & -> & Hs & Hd & Hf) Hdot].
    do 6 (split; [done|]). exists sign, ds. destruct Hf as [->|(fs & -> & _)]; [by rewrite app_nil_r|].
    destruct Hdot. rewrite !elem_of_app. right. right. by left.
Qed.
End JSSwagger.
